(* ===== verification/_CoqProject ===== *)
-Q . S2P
Prelude.v
Json.v
Transactions.v
ContractState.v
DidWeb.v
Extrinsic.v
Store.v
Repos.v
Sha256.v
Merkle.v
Envelope.v
Scopes.v
KeyState.v
ArtifactStore.v
KeyErasure.v
KeyDelivery.v
Erasure.v
Document.v
Identity.v
Lifecycle.v
Validation.v
Settlement.v
Merging.v
Negotiation.v
Submit.v
Decision.v
Gates.v
Expiry.v
Authoring.v
Anchors.v
Policies.v
Envelopes.v
EnvelopeChecks.v
EnvelopeNormal.v
Receive.v
Signing.v
Sealing.v
SignatureChecks.v
Ceremonies.v
Preparing.v
Accepting.v
SigningDemo.v
SigningLaws.v
SigningInvariant.v
SigningRequests.v
RequestLaws.v
Deployment.v
Workflow.v
OutboxJobs.v
AuditTrail.v
AuditLog.v
AuditReads.v
AuditDrain.v
TemplateStore.v
Templates.v
TemplateLaws.v
TemplateInvariants.v
TemplateProvenance.v
TemplateReview.v
TemplateQueries.v
DidDocument.v
PeerIdentity.v
Jades.v
TrustGate.v
TrustLaws.v
Handlers.v
SemanticHub.v
HubReads.v
HubLaws.v
Federation.v
Settling.v
SettlingLaws.v
EvidenceLaws.v
Exchange.v
SettlingDemo.v
Shipping.v
PeerReceipt.v
ShippingLaws.v
ReceiptLaws.v
ShippingDemo.v
