(* ===== verification/Prelude.v ===== *)
(** * The Digital Contracting Service

    The backend under src/backend (Go) lets organisations author contracts from
    templates, negotiate them between two instances, sign them, deploy them to
    target systems, audit all of it and erase it again.  This library models the
    contract workflow, the template repository, the encrypted artifact store with
    its erasure, the audit trail, the signing of contracts, the federation of
    instances and the Semantic Hub, with the parts of document validation they depend
    on, and proves what makes them correct.  Paths below are relative to
    src/backend/internal; CWE stands for contractworkflowengine, TR for
    templaterepository, SM for signingmanagement, D2D for dcstodcs.

    ** The program and the model

    One instance is a Postgres database, HTTP handlers that each run one or two
    transactions, background jobs (expiry, outbox, erasure retries), an object store
    (IPFS) and peers.  The model has the same shape: a store record holds the tables
    a component touches, a transaction reads an environment (clock, configuration,
    outcomes of the services it calls), threads the store and returns a Go error, a
    commit keeps its store or rolls back, and every command is one
    [Handle : Cmd -> Tx R] written in the order of the source, guards and early
    returns included.  Transactions are atomic and isolated; interleaving is a
    sequence of transactions, or of single accesses where a component shares memory.
    Three transaction monads follow the three styles of code: [Store.Tx] (the
    contract workflow), [Transactions.Txn] (one generic monad with its relational
    laws, used by the templates and what came later) and [KeyState.M] (the artifact
    store, where each access may fail and other requests act in between).

    ** Files

    Foundations
    - Prelude: Go errors ([errors.Is] chains), strings, list and table lemmas,
      tactics.  Json: documents ([datatype.JSON]) as values, objects as finite maps.
      Transactions: the generic monad; [evolves R m] says what relation a transaction
      keeps, with a hint database and a tactic that walks down its statements.
      Handlers: the same for requests of several transactions, which keep what they
      committed when they fail.
    - Sha256: executable SHA-256.

    The contract workflow
    - ContractState: CWE/datatype/contractstate, the lifecycle enum and the
      transition table.  Extrinsic: the lifecycle a peer is shown.
      DidWeb: base/identity did.go and didweb_same.go.
    - Store, Repos: the tables, the update triggers, the effective-state view, and
      the statements of CWE/db/pg, dcstodcs/db/pg and the status queue.
    - Document: the helpers of CWE/command and base/validation that rewrite a
      contract document.  Identity: anchoring a document to its DID
      (base/validation/documentdata.go).  Lifecycle: pdfgeneration/provenance.
    - Validation: the interface to document validation, the local roles and the
      stale-view refusal.  Settlement: settledagreement.go.
    - Merging: CWE/negotiationmerging.  Negotiation, Submit, Decision, Authoring,
      Receive, Deployment: the handlers of CWE/command.  Expiry: CWE/cronjobs.go.
      Signing: revocation and the settlement gate of SM/command.
    - Gates: theorems on what the negotiation, submission and approval gates let
      through.  Workflow: all commands as one machine.

    Artifacts, keys and erasure
    - Envelope: base/envelope (RFC 3394 key wrap, KDF, content layout).
      Scopes, KeyState, ArtifactStore: base/artifactstore and dcstodcs/wrappedcek.go,
      with the CEK table, the key cache and every interleaving of requests.
    - KeyErasure, KeyDelivery: theorems on shredding and on reading back.
      Erasure: the erase handshake of dcstodcs and the archive deletion.

    The audit trail
    - Merkle: base/merkle.go.  OutboxJobs: the three jobs of
      base/event/outboxprocessor.go over base/db/pq.  AuditTrail: the readers of
      base/audittrail.go and the checkpoint queries.  AuditLog, AuditReads,
      AuditDrain: the append-only log, what a reader sees, and liveness.

    Templates and the Semantic Hub
    - Anchors: base/validation shapesource.go, declaredlibraries.go and the bundle
      pinning of documentdata.go.  Policies: its ODRL checks.  Envelopes: its
      normalisation and checks of the canonical envelope.  EnvelopeChecks,
      EnvelopeNormal: what the checks accept, and that normalising settles.
    - TemplateStore: the tables, triggers and statements of TR/db/pg.  Templates:
      the handlers of TR/command, TR/query/verify.go and fcasset.  TemplateLaws: the
      requests as one machine and its lifecycle.  TemplateInvariants: one active row
      per version.  TemplateProvenance: the credentials of registered versions.
      TemplateReview: the review and approval tasks.  TemplateQueries: the listings
      and searches of TR/query/contracttemplate.
    - SemanticHub: semantichub semantichub.go and peershapes.go.  HubReads:
      shapesource.go with its cache, and service/semantic_hub.go.  HubLaws: what the
      hub keeps.

    Signing
    - Sealing: the document a first signature is made on.  SignatureChecks: what a
      submitted signature is checked for.  Ceremonies: SM/command/ceremony.go, SM/db
      and the wallet's requests before it signs.  Preparing, Accepting: [Prepare] and
      [SubmitSignature] with [finalize] of SM/command/apply.go, and the archive entry of
      CWE/command/archive.go; a submission is accepted on one store and recorded on
      a later one, as the code does.  SigningRequests: service/signature_request.go.
    - SigningLaws, SigningInvariant, RequestLaws: what an accepted signature is bound
      to, what holds of all signatures, what the wallet is served.  SigningDemo: a
      run, and the interleavings that go wrong.

    The federation
    - DidDocument, PeerIdentity: base/identity, the challenge between peers.  Jades:
      base/jades.  TrustGate, TrustLaws: D2D trustgate.go, credentialvalidity.go and
      counterpartypoa.go.  Federation: the retry queue, provenance and incidents.
    - Settling: D2D settlement.go and service/dcs_to_dcs_settlement.go.
      SettlingLaws, EvidenceLaws, Exchange: what settlements guarantee and how they
      are delivered, up to one instance's settlement found at the other.  SettlingDemo: two
      instances.
    - Shipping: D2D synchronizer.go and pinnedshapes.go.  PeerReceipt: [PostPdf] and
      [GetProvenance] of service/dcs_to_dcs.go.  ShippingLaws, ReceiptLaws,
      ShippingDemo: what becomes of a ship, and what has to be vouched for.

    ** Interfaces

    Code outside the repository, and components another one only calls, are
    operations of a type class; the theorems hold for every instance, and the
    concrete runs supply one: [Validation.ContractValidation] (normalisation, SHACL
    and policy checks, the document digest), [Authoring.ContractDerivation] (template
    repository, Semantic Hub), [Receive.ArtifactServices],
    [Deployment.DeploymentServices] (outbound call, time-stamp authority, text
    encodings), [Envelope.CryptoServices] with its laws (AES, GCM, key agreement),
    [OutboxJobs.AuditServices] with its laws (IPFS, time stamps, encodings),
    [Templates.TemplateServices] (Federated Catalogue, credential signer, document
    normalisation), [Preparing.SigningServices] (pdf-core, signature validator, CMS),
    [SigningRequests.PresentationVerifier], [DidDocument.IdentityServices] (HTTP,
    X.509, the curve), [Jades.JadesServices] with its laws (curve, DER,
    canonicalization, texts of times), [TrustGate.TrustServices] (peers, policy
    endpoint, proofs), [PeerReceipt.PdfCore], [HubReads.HubServices].  Between
    components of the model, [SemanticHub.HubStore] with its laws is what a store must
    offer to hold the hub's table: the hub's own process and the federation store are
    its instances, and the hub's statements and theorems are written once over both.
    The RFC 3339 parser and full-text search are arguments.

    ** What is shown

    - The contract lifecycle: [Workflow.workflow_refines_the_transition_table],
      [only_a_signature_binds], [terminated_is_final_without_peer_revocation].
    - Its gates: a negotiation round is submitted only when it is finished, decisions
      are taken once and never by the author, approval needs every approver, signing
      waits for every counterparty's settlement, deployment for every signature, a
      withdrawal takes back exactly what was agreed.
    - Data: merging is last-accepted-wins, independent of row order and records each
      loss; seeding is additive and idempotent; anchoring makes a document
      self-identifying; a pinned bundle reads back; a renewal carries no signature; a
      re-ship keeps local progress; the envelope check accepts exactly the well-formed
      documents; normalising is idempotent; the parent walk terminates and is exact; the
      expiry sweep persists what readers already saw.
    - Keys: key wrap is exact; what is stored reads back; peers share the key; a
      shredded scope yields no key; the key table stays sound under every
      interleaving; erasure reaches every party and pending requests drain.
    - Evidence: Merkle proofs are complete, and sound up to an exhibited SHA-256
      collision; the trail is an append-only log, events are anchored exactly once,
      the backlog drains, reads are complete, entries have proofs.
    - Templates: each request moves the template it names along its own edges of the
      lifecycle, registered content is frozen, one active row per version, approval
      follows review, what credentials attest, and that the listing names the newest
      version.  Hub versions are immutable and the shapes a contract pins travel.
    - Signing: sealing binds once; an accepted signature is bound to what was checked,
      recorded once, over exactly that submission; every signature is authorised by a
      ceremony of its field; a published request serves the prepared document until it
      expires.
    - The federation: the challenge and the trust gate are exact; a counterparty's
      settlement the signing gate rests on is one it signed; a settlement one
      instance makes the other accepts and finds; withdrawals remove only what they
      name; every ship is accounted for; a peer's PDF is stored only when everything
      about it was vouched for.

    ** Representation

    Times are microseconds since the Unix epoch (the resolution of timestamptz),
    versions and ids unbounded [Z] and text: no arithmetic of the modelled code
    nears 64 bits, except where it is written out (template versions are 32-bit
    columns, page offsets and pinned versions Go ints).  SHA-256 words and key-wrap
    registers are [Z] with their wrap-around written out.  Text columns have no
    width.  The zero [time.Time] is [ContractRepo.time_zero].  UUIDs are fresh names
    from a counter.  Messages keep their constant text; interpolated values are
    dropped.  The body of an outbox event keeps its identifying fields, not the
    caller's roles and holder DID.

    Background jobs: a tick of the outbox jobs carries the outcome of each access
    ([OutboxJobs.Tick]); a read or a begin that fails is a tick without effect.  A
    schedule of the artifact store is, before each access, the actions of other
    requests and whether the access fails.  A template registration that has read
    its template and not yet sealed it is kept in flight with its snapshot.

    Fuel: [Merkle.root_loop], [proof_loop] and [climb] get the number of leaves,
    which halving cannot use up; [Updater.walk_fuel] is the number of contracts plus
    two, since the walk never visits a contract twice; the walk along an audit chain
    gets one more than the number of leaves, since a chain names each leaf at most
    once.  They are shown to be enough by the theorems that state the result.
    Sequences of commands are arbitrary.

    ** Not modelled

    HTTP transport, rendering, the message broker, the HSM, timestamp and credential
    services, the cryptography of JAdES and PAdES, SHACL processing: input and
    output, or third-party code.  Also left out: the catalogue queries, the read
    side of signing and contracts, the process monitor and risk findings, status
    lists, authentication.  Constructors wire every store a handler needs, so the
    branches on a store that is nil ([Signing.assertCounterpartiesSettled],
    [Deployment.require_signatures]) and reads that fail have no counterpart in the transactions.
    JSON objects are decoded by exact member names, where Go also accepts another
    case. *)

(** ** This file

    Go errors and strings, the list lemmas and the tactics the library shares. *)
From Stdlib Require Export Ascii String ZArith Lia.
From stdpp Require Export base option list strings gmap pretty sorting.
#[global] Open Scope Z_scope.

(** ** Go errors

    A Go error is a sentinel value compared with [errors.Is], a plain message,
    or a wrapped error ([fmt.Errorf] with a percent-w verb).  Messages keep the constant
    text of the source. *)
Inductive sentinel :=
  | ErrInvalidTransition
  | ErrUpdatedElsewhere
  | ErrNotAParty
  | ErrConflictOfInterest
  | ErrNegotiationNotSettled
  | ErrAgreementSettled
  | ErrOwnAgreementSettled
  | ErrNoMatchingDecision
  | ErrContractHierarchyCycle
  | ErrContractNotRenewable
  | ErrNoTargetDesignated
  | ErrTargetNotRegistered
  | ErrTargetDisabled
  | ErrSigningIncomplete
  | ErrDeploymentCallbackUnauthorized
  | ErrDeploymentNotFound
  | ErrKPIVerdictUnknown
  | ErrKPIRuleMissing
  | ErrKPIRuleUnknown
  | ErrContractNotClosed
  | ErrCounterpartyNotSettled
  | ErrSignatureNotFound
  | ErrFieldAlreadySigned
  | ErrRevocationReasonRequired
  | ErrContractHierarchyInvalid
  | ErrContractTemplateNotFound
  | ErrFederatedCatalogueNotConfigured
  | ErrTemplateNotFoundInFederatedCatalogue
  | ErrSchemaNotFound
  | ErrVersionTaken
  | ErrDocumentSchemaConflict
  | ErrCeremonyRequired
  | ErrCeremoniesIncomplete
  | ErrUnknownSignatureField
  | ErrSignatureInvalid
  | ErrCeremonyNotPrepared
  | ErrCeremonyConsumed
  | ErrDocumentMismatch
  | ErrContentMismatch
  | ErrPayloadMismatch
  | ErrNonceMismatch
  | ErrLevelBelowRequired
  | ErrCertPIDMismatch
  | ErrCertInconsistent
  | ErrJAdESInvalid
  | ErrRegenerationInFlight
  | ErrCeremonyNotFound
  | ErrCeremonyExpired
  | ErrPoAUnauthorized.

Inductive error :=
  | Sentinel (k : sentinel)
  | Errorf (msg : string)
  | Wrapf (msg : string) (inner : error)
  | PgError (constraint : string)
  | Panic (msg : string)
  (** artifactstore's error structs. *)
  | ShreddedError (kind id : string)
  | TamperedError (kind id cid : string).

#[export] Instance sentinel_eq_dec : EqDecision sentinel.
Proof. solve_decision. Defined.
#[export] Instance error_eq_dec : EqDecision error.
Proof. solve_decision. Defined.

(** [errors.Is err k]. *)
Fixpoint errors_Is (e : error) (k : sentinel) : bool :=
  match e with
  | Sentinel k' => bool_decide (k' = k)
  | Wrapf _ e' => errors_Is e' k
  | _ => false
  end.

Inductive result (A : Type) :=
  | Ok (a : A)
  | Err (e : error).
Arguments Ok {A} a.
Arguments Err {A} e.

#[export] Instance result_ret : MRet result := λ A a, Ok a.
#[export] Instance result_bind : MBind result := λ A B f m,
  match m with Ok a => f a | Err e => Err e end.

(** [fmt.Errorf(msg, err)] on the error path only. *)
Definition wrap_err {A} (msg : string) (r : result A) : result A :=
  match r with Ok a => Ok a | Err e => Err (Wrapf msg e) end.

Definition is_ok {A} (r : result A) : bool :=
  match r with Ok _ => true | Err _ => false end.

(** ** Go's [strings] package, on ASCII text *)
Module GoStrings.

Definition ascii_upper (c : ascii) : ascii :=
  let n := Ascii.nat_of_ascii c in
  if (97 <=? n)%nat && (n <=? 122)%nat then Ascii.ascii_of_nat (n - 32) else c.

Definition ascii_lower (c : ascii) : ascii :=
  let n := Ascii.nat_of_ascii c in
  if (65 <=? n)%nat && (n <=? 90)%nat then Ascii.ascii_of_nat (n + 32) else c.

Fixpoint smap (f : ascii → ascii) (s : string) : string :=
  match s with
  | EmptyString => EmptyString
  | String c s' => String (f c) (smap f s')
  end.

Definition ToUpper (s : string) : string := smap ascii_upper s.
Definition ToLower (s : string) : string := smap ascii_lower s.

Definition is_space (c : ascii) : bool :=
  let n := Ascii.nat_of_ascii c in
  ((9 <=? n)%nat && (n <=? 13)%nat) || (n =? 32)%nat.

Fixpoint trim_left (p : ascii → bool) (s : string) : string :=
  match s with
  | EmptyString => EmptyString
  | String c s' => if p c then trim_left p s' else s
  end.

Fixpoint trim_right (p : ascii → bool) (s : string) : string :=
  match s with
  | EmptyString => EmptyString
  | String c s' =>
      match trim_right p s' with
      | EmptyString => if p c then EmptyString else String c EmptyString
      | t => String c t
      end
  end.

Definition TrimSpace (s : string) : string := trim_right is_space (trim_left is_space s).

Definition HasPrefix (s pre : string) : bool := String.prefix pre s.

(** [strings.CutPrefix]: the rest of [s] after [pre], when [pre] is a prefix. *)
Fixpoint cut_prefix (pre s : string) : option string :=
  match pre, s with
  | EmptyString, _ => Some s
  | String c pre', String d s' => if bool_decide (c = d) then cut_prefix pre' s' else None
  | _, _ => None
  end.

Fixpoint HasSuffix (s suf : string) : bool :=
  bool_decide (s = suf) ||
  match s with
  | EmptyString => false
  | String _ s' => HasSuffix s' suf
  end.

Fixpoint Contains (s sub : string) : bool :=
  String.prefix sub s ||
  match s with
  | EmptyString => false
  | String _ s' => Contains s' sub
  end.

(** [strings.Split(s, string(sep))] for a one-byte separator; never empty. *)
Fixpoint split_on (sep : ascii) (s : string) : list string :=
  match s with
  | EmptyString => [EmptyString]
  | String c s' =>
      if bool_decide (c = sep) then EmptyString :: split_on sep s'
      else match split_on sep s' with
           | [] => [String c EmptyString]
           | w :: ws => String c w :: ws
           end
  end.

End GoStrings.

(** ** Lists *)

(** Keep the first occurrence of every key: the loops that skip what a seen-map
    already holds. *)
Fixpoint dedup_from {A} `{EqDecision A} (seen : list A) (l : list A) : list A :=
  match l with
  | [] => []
  | x :: l' => if bool_decide (x ∈ seen) then dedup_from seen l'
               else x :: dedup_from (x :: seen) l'
  end.

(** Insert or replace, in place, the entry whose key is equal ([ON CONFLICT DO
    UPDATE] on a table held as a list). *)
Fixpoint upsert {A K} `{EqDecision K} (key : A → K) (x : A) (l : list A) : list A :=
  match l with
  | [] => [x]
  | y :: l' => if bool_decide (key y = key x) then x :: l' else y :: upsert key x l'
  end.

(** Rows of a table that satisfy a boolean WHERE clause. *)
Definition rows_where {A} (p : A → bool) (l : list A) : list A := filter (λ x, p x = true) l.
Definition exists_where {A} (p : A → bool) (l : list A) : bool := existsb p l.
Definition update_where {A} (p : A → bool) (f : A → A) (l : list A) : list A :=
  map (λ x, if p x then f x else x) l.

(** [ORDER BY key] on an integer key: a stable sort. *)
Fixpoint insert_by {A} (key : A → Z) (x : A) (l : list A) : list A :=
  match l with
  | [] => [x]
  | y :: l' => if key x <=? key y then x :: l else y :: insert_by key x l'
  end.

Definition order_by {A} (key : A → Z) (l : list A) : list A := foldr (insert_by key) [] l.

(** ** Tactics *)

(** Split every [match] that occurs in a hypothesis or the goal. *)
Ltac destr_match :=
  match goal with
  | H : context [match ?x with _ => _ end] |- _ => destruct x eqn:?
  | |- context [match ?x with _ => _ end] => destruct x eqn:?
  end.

Ltac bool_to_prop :=
  repeat match goal with
  | H : bool_decide _ = true |- _ => apply bool_decide_eq_true in H
  | H : bool_decide _ = false |- _ => apply bool_decide_eq_false in H
  | H : _ && _ = true |- _ => apply andb_true_iff in H as [? ?]
  | H : _ || _ = false |- _ => apply orb_false_iff in H as [? ?]
  | H : negb _ = true |- _ => apply negb_true_iff in H
  | H : negb _ = false |- _ => apply negb_false_iff in H
  | H : (_ <? _) = true |- _ => apply Z.ltb_lt in H
  | H : (_ <? _) = false |- _ => apply Z.ltb_ge in H
  | H : (_ <=? _) = true |- _ => apply Z.leb_le in H
  | H : (_ <=? _) = false |- _ => apply Z.leb_gt in H
  end.

(** ** Lemmas *)
Lemma existsb_false_iff {A} (p : A → bool) (l : list A) :
  existsb p l = false ↔ ∀ x, x ∈ l → p x = false.
Proof.
  induction l as [|y l IH]; simpl.
  - split; [intros _ x Hx; by apply elem_of_nil in Hx | done].
  - rewrite orb_false_iff, IH. split.
    + intros [Hy Hl] x [->|Hx]%elem_of_cons; auto.
    + intros H. split; [apply H; left | intros x Hx; apply H; by right].
Qed.

Lemma existsb_true_iff {A} (p : A → bool) (l : list A) :
  existsb p l = true ↔ ∃ x, x ∈ l ∧ p x = true.
Proof.
  rewrite existsb_exists. split; intros (x & Hx & ?); exists x; split; auto;
    by apply list_elem_of_In.
Qed.

Lemma elem_of_rows_where {A} (p : A → bool) (l : list A) x :
  x ∈ rows_where p l ↔ x ∈ l ∧ p x = true.
Proof. unfold rows_where. rewrite list_elem_of_filter. tauto. Qed.

Lemma elem_of_update_where {A} (p : A → bool) (f : A → A) (l : list A) y :
  y ∈ update_where p f l ↔ ∃ x, x ∈ l ∧ y = if p x then f x else x.
Proof. unfold update_where. rewrite list_elem_of_fmap. naive_solver. Qed.

Lemma elem_of_upsert {A K} `{EqDecision K} (key : A → K) (x y : A) (l : list A) :
  y ∈ upsert key x l → y = x ∨ y ∈ l.
Proof.
  induction l as [|z l IH]; simpl.
  - rewrite list_elem_of_singleton. auto.
  - case_bool_decide; rewrite !elem_of_cons; naive_solver.
Qed.

Lemma elem_of_upsert_new {A K} `{EqDecision K} (key : A → K) (x : A) (l : list A) :
  x ∈ upsert key x l.
Proof.
  induction l as [|z l IH]; simpl; [left|].
  case_bool_decide; [left | by right].
Qed.

Lemma NoDup_upsert {A K} `{EqDecision K} (key : A → K) (x : A) (l : list A) :
  NoDup (key <$> l) → NoDup (key <$> upsert key x l).
Proof.
  induction l as [|z l IH]; simpl; intros HND.
  - apply NoDup_singleton.
  - apply NoDup_cons in HND as [Hz HND]. case_bool_decide as Hk; simpl; apply NoDup_cons.
    + by rewrite <-Hk.
    + split; [|by apply IH]. rewrite list_elem_of_fmap. intros (y & Hy & Hin).
      apply elem_of_upsert in Hin as [->|Hin]; [by rewrite Hy in Hk|].
      apply Hz. rewrite Hy. by apply list_elem_of_fmap_2.
Qed.

Lemma dedup_from_spec {A} `{EqDecision A} (l seen : list A) x :
  x ∈ dedup_from seen l ↔ x ∈ l ∧ x ∉ seen.
Proof.
  revert seen. induction l as [|y l IH]; intros seen; simpl.
  - split; [intros []%elem_of_nil | intros [[]%elem_of_nil _]].
  - case_bool_decide as Hy; rewrite ?elem_of_cons, IH, ?elem_of_cons; [naive_solver|].
    destruct (decide (x = y)); naive_solver.
Qed.

Lemma NoDup_dedup_from {A} `{EqDecision A} (l seen : list A) : NoDup (dedup_from seen l).
Proof.
  revert seen. induction l as [|y l IH]; intros seen; simpl; [constructor|].
  case_bool_decide; [apply IH|]. constructor; [|apply IH].
  rewrite dedup_from_spec. set_solver.
Qed.

Lemma elem_of_upsert_ne {A K} `{EqDecision K} (key : A → K) (x y : A) (l : list A) :
  y ∈ l → key y ≠ key x → y ∈ upsert key x l.
Proof.
  intros Hy Hne. induction l as [|z l IH]; simpl; [by apply elem_of_nil in Hy|].
  apply elem_of_cons in Hy as [<-|Hy].
  - rewrite bool_decide_eq_false_2 by done. left.
  - case_bool_decide; right; auto.
Qed.

(** A key that is injective on the rows kept stays duplicate free. *)
Lemma NoDup_fmap_rows_where {A K L} (k : A → K) (k' : A → L) (p : A → bool) (l : list A) :
  NoDup (k <$> l) →
  (∀ x y, p x = true → p y = true → k' x = k' y → k x = k y) →
  NoDup (k' <$> rows_where p l).
Proof.
  intros HND Hinj. unfold rows_where. induction l as [|x l IH]; simpl; [constructor|].
  apply NoDup_cons in HND as [Hx HND].
  destruct (decide (p x = true)) as [Hp|Hp];
    [rewrite filter_cons_True by done | rewrite filter_cons_False by done; auto].
  simpl. apply NoDup_cons. split; [|auto].
  rewrite list_elem_of_fmap. intros (y & Hy & [Hpy Hin]%list_elem_of_filter).
  apply Hx. rewrite (Hinj x y Hp Hpy Hy). by apply list_elem_of_fmap_2.
Qed.

Lemma rows_where_nil {A} (p : A → bool) (l : list A) :
  (∀ x, x ∈ l → p x = false) → rows_where p l = [].
Proof.
  unfold rows_where. induction l as [|x l IH]; intros Hp; [done|].
  rewrite filter_cons_False by (rewrite Hp; [done | left]).
  apply IH. intros; apply Hp. by right.
Qed.

Lemma exists_where_true {A} (p : A → bool) (l : list A) :
  exists_where p l = true ↔ ∃ x, x ∈ l ∧ p x = true.
Proof. apply existsb_true_iff. Qed.

Lemma exists_where_false {A} (p : A → bool) (l : list A) :
  exists_where p l = false ↔ ∀ x, x ∈ l → p x = false.
Proof. apply existsb_false_iff. Qed.

(** Rows a condition leaves out before and after an update do not matter to it. *)
Lemma rows_where_update {A} (p q : A → bool) (f : A → A) (l : list A) :
  (∀ x, p x = true → q x = false ∧ q (f x) = false) →
  rows_where q (update_where p f l) = rows_where q l.
Proof.
  intros Hpq. induction l as [|x l IH]; [done|]. unfold update_where, rows_where in *. simpl.
  rewrite !filter_cons. destruct (p x) eqn:E; [|by rewrite IH].
  destruct (Hpq x E) as [-> ->]. rewrite !decide_False by done. exact IH.
Qed.

Lemma update_where_none {A} (p : A → bool) f (l : list A) :
  (∀ x, x ∈ l → p x = false) → update_where p f l = l.
Proof.
  induction l as [|x l IH]; intros Hp; [done|]. unfold update_where in *. simpl.
  rewrite (Hp x) by left. f_equal. apply IH. intros y Hy. apply Hp. by right.
Qed.

(** [strings.Compare] is a total order. *)
Lemma string_leb_trans a b c : String.leb a b = true → String.leb b c = true → String.leb a c = true.
Proof.
  unfold String.leb. revert b c. induction a as [|x a IH]; intros [|y b] [|z c]; simpl; try done.
  unfold Ascii.compare.
  destruct (N.compare_spec (N_of_ascii x) (N_of_ascii y)) as [E1|E1|E1]; try done.
  - rewrite E1. destruct (N_of_ascii y ?= N_of_ascii z)%N; try done. apply IH.
  - intros _. destruct (N.compare_spec (N_of_ascii y) (N_of_ascii z)) as [E2|E2|E2]; try done; intros _.
    + rewrite <-E2. by apply N.compare_lt_iff in E1 as ->.
    + pose proof (N.lt_trans _ _ _ E1 E2) as E. by apply N.compare_lt_iff in E as ->.
Qed.

(** ** Ordered queries *)
Lemma insert_by_Permutation {A} (key : A → Z) x l : insert_by key x l ≡ₚ x :: l.
Proof.
  induction l as [|y l IH]; [done|]. simpl. destruct (key x <=? key y); [done|].
  by rewrite IH, Permutation_swap.
Qed.

Lemma order_by_Permutation {A} (key : A → Z) l : order_by key l ≡ₚ l.
Proof. induction l as [|x l IH]; [done|]. simpl. by rewrite insert_by_Permutation, IH. Qed.

Lemma elem_of_order_by {A} (key : A → Z) l x : x ∈ order_by key l ↔ x ∈ l.
Proof. by rewrite order_by_Permutation. Qed.

(** Rows that already come in order are left alone. *)
Definition ordered_by {A} (key : A → Z) (l : list A) : Prop := StronglySorted (λ x y, key x <= key y) l.

Lemma order_by_ordered {A} (key : A → Z) l : ordered_by key l → order_by key l = l.
Proof.
  induction 1 as [|x l Hs IH Hx]; [done|]. simpl. rewrite IH. destruct l as [|y l]; [done|]. simpl.
  apply Forall_inv in Hx. by rewrite (proj2 (Z.leb_le _ _)).
Qed.

Lemma ordered_insert_by {A} (key : A → Z) x l : ordered_by key l → ordered_by key (insert_by key x l).
Proof.
  induction 1 as [|y l Hs IH Hy]; simpl; [repeat constructor|].
  destruct (key x <=? key y) eqn:E; bool_to_prop.
  - constructor; [by constructor|]. constructor; [done|]. eapply Forall_impl; [exact Hy|]. simpl. lia.
  - constructor; [done|]. rewrite insert_by_Permutation. constructor; [lia|done].
Qed.

Lemma ordered_order_by {A} (key : A → Z) l : ordered_by key (order_by key l).
Proof. induction l; [constructor|]. by apply ordered_insert_by. Qed.
