(* ===== verification/Json.v ===== *)
(** JSON values: the [datatype.JSON] column type (internal/base/datatype) and
    the [map[string]any] trees that [encoding/json] decodes documents into.

    An object is a finite map, so two documents that differ only in key order
    or in white space are equal, as they are for a jsonb column.  A number is
    its decimal literal: the rounding of literals that a float64 cannot hold is
    outside the model. *)
From S2P Require Import Prelude.

Inductive json :=
  | JNull
  | JBool (b : bool)
  | JNum (lit : string)
  | JStr (s : string)
  | JArr (items : list json)
  | JObj (fields : gmap string json).

Definition json_args (j : json) : option bool * string * list json * gmap string json :=
  match j with
  | JNull => (None, EmptyString, [], ∅)
  | JBool b => (Some b, EmptyString, [], ∅)
  | JNum s | JStr s => (None, s, [], ∅)
  | JArr l => (None, EmptyString, l, ∅)
  | JObj m => (None, EmptyString, [], m)
  end.

Definition json_arr_inj l k (H : JArr l = JArr k) : l = k := f_equal (λ j, (json_args j).1.2) H.
Definition json_obj_inj m n (H : JObj m = JObj n) : m = n := f_equal (λ j, (json_args j).2) H.

#[export] Instance json_eq_dec : EqDecision json.
Proof.
  refine (fix go (x y : json) {struct x} : Decision (x = y) :=
    let _ : EqDecision json := @go in
    match x, y with
    | JNull, JNull => left eq_refl
    | JBool b, JBool c =>
        match decide (b = c) with left H => left (f_equal JBool H) | right H => right _ end
    | JNum s, JNum t =>
        match decide (s = t) with left H => left (f_equal JNum H) | right H => right _ end
    | JStr s, JStr t =>
        match decide (s = t) with left H => left (f_equal JStr H) | right H => right _ end
    | JArr l, JArr k =>
        match decide (l = k) with
        | left H => left (f_equal JArr H) | right H => right (λ E, H (json_arr_inj l k E)) end
    | JObj m, JObj n =>
        match decide (m = n) with
        | left H => left (f_equal JObj H) | right H => right (λ E, H (json_obj_inj m n E)) end
    | _, _ => right _
    end); intros E; try discriminate E; clear -H E; congruence.
Defined.

(** ** Access to decoded documents *)

(** [json.Unmarshal(raw, &doc)] with [doc map[string]any]: an object decodes to
    its fields, null leaves the map nil (read as empty), anything else is an
    error. *)
Definition Unmarshal_map (j : json) : result (gmap string json) :=
  match j with
  | JObj m => Ok m
  | JNull => Ok ∅
  | _ => Err (Errorf "json: cannot unmarshal value into map")
  end.

(** [v, _ := x.(string)]: the empty string when the value is absent or is not a
    string. *)
Definition as_string (j : option json) : string :=
  match j with Some (JStr s) => s | _ => EmptyString end.

(** [v, _ := x.([]any)]: the nil slice when the value is not an array. *)
Definition as_list (j : option json) : list json :=
  match j with Some (JArr l) => l | _ => [] end.

(** [v, ok := x.(map[string]any)]. *)
Definition as_object (j : option json) : option (gmap string json) :=
  match j with Some (JObj m) => Some m | _ => None end.

(** The [@id] of a node, when the node is an object. *)
Definition node_id (j : json) : string :=
  match j with JObj m => as_string (m !! "@id") | _ => EmptyString end.

(** [JSON.IsNotNullValue] on a nullable column. *)
Definition IsNotNullValue (j : option json) : bool :=
  match j with None | Some JNull => false | Some _ => true end.

(** Assignment into a decoded document, re-encoded by [datatype.NewJSON].  A
    document that decoded from null is a nil map, and writing a nil map
    panics. *)
Definition doc_set (j : json) (key : string) (v : json) : result json :=
  match j with
  | JObj m => Ok (JObj (<[key := v]> m))
  | JNull => Err (Panic "assignment to entry in nil map")
  | _ => Err (Errorf "json: cannot unmarshal value into map")
  end.

Lemma IsNotNullValue_Some j : IsNotNullValue j = true → ∃ v, j = Some v ∧ v ≠ JNull.
Proof. destruct j as [[]|]; try done; eauto. Qed.

(** ** Induction on documents *)

(** The nesting depth, which induction on documents descends. *)
Fixpoint depth (j : json) : nat :=
  match j with
  | JArr items => S (list_max (map depth items))
  | JObj fields => S (map_fold (λ _, Nat.max) 0%nat (depth <$> fields))
  | _ => 0
  end.

Lemma map_fold_max (m : gmap string nat) k n : m !! k = Some n → (n <= map_fold (λ _, Nat.max) 0 m)%nat.
Proof.
  revert k n. apply (map_fold_weak_ind (λ acc m, ∀ k n, m !! k = Some n → (n <= acc)%nat)); [done|].
  intros i x m' r _ IH k n [[-> ->]|[_ Hk]]%lookup_insert_Some; [lia|]. specialize (IH _ _ Hk). lia.
Qed.

Lemma depth_item j items : j ∈ items → (depth j < depth (JArr items))%nat.
Proof.
  intros Hj. simpl. pose proof (list_max_le (map depth items) (list_max (map depth items))) as [HF _].
  specialize (HF ltac:(lia)). rewrite List.Forall_forall in HF.
  specialize (HF (depth j) ltac:(apply in_map; by apply list_elem_of_In)). lia.
Qed.

Lemma depth_field fields k j : fields !! k = Some j → (depth j < depth (JObj fields))%nat.
Proof.
  intros Hj. simpl. pose proof (map_fold_max (depth <$> fields) k (depth j)) as H.
  rewrite lookup_fmap, Hj in H. specialize (H eq_refl). lia.
Qed.

Lemma json_nested_ind (P : json → Prop) :
  (∀ j, (∀ items, j = JArr items → ∀ i, i ∈ items → P i) →
        (∀ fields, j = JObj fields → ∀ k i, fields !! k = Some i → P i) → P j) → ∀ j, P j.
Proof.
  intros HP j. remember (depth j) as n eqn:Hn. revert j Hn.
  induction (lt_wf n) as [n _ IH]. intros j ->. apply HP; intros l -> i.
  - intros Hi%depth_item. by eapply IH.
  - intros k Hk%depth_field. by eapply IH.
Qed.
