(* ===== verification/Transactions.v ===== *)
(** Transactions over any store: the monad of the components that keep their own
    tables (templates, status lists, lockout counters).

    A transaction reads an environment, threads a store and may return a Go
    error; [commit] keeps its store on success and rolls back on an error, as the
    deferred [tx.Rollback] does.  A transaction is reasoned about by the relation
    its successful runs stay inside ([evolves]): a frame, an invariant or a step
    of an abstract machine, all instances of one set of composition lemmas. *)
From S2P Require Import Prelude.

Definition Txn (E S A : Type) : Type := E → S → result (A * S).

#[export] Instance txn_ret {E S} : MRet (Txn E S) := λ A a _ s, Ok (a, s).
#[export] Instance txn_bind {E S} : MBind (Txn E S) := λ A B f m e s,
  match m e s with Ok (a, s') => f a e s' | Err err => Err err end.

(** The two preorders transactions are mostly compared by: a projection of the
    store stays, an invariant of the store is kept. *)
#[export] Instance frame_preorder {S B} (f : S → B) : PreOrder (λ s s', f s' = f s).
Proof. split; [done | intros x y z H1 H2; congruence]. Qed.

#[export] Instance invariant_preorder {S} (I : S → Prop) : PreOrder (λ s s', I s → I s').
Proof. split; red; auto. Qed.

Section operations.
Context {E S : Type}.

Definition raise {A} (err : error) : Txn E S A := λ _ _, Err err.
Definition query {A} (f : E → S → A) : Txn E S A := λ e s, Ok (f e s, s).
Definition exec (f : E → S → S) : Txn E S () := λ e s, Ok ((), f e s).
Definition of_result {A} (r : result A) : Txn E S A := λ _ s,
  match r with Ok a => Ok (a, s) | Err err => Err err end.
(** [if err != nil { return fmt.Errorf(msg, err) }]. *)
Definition within {A} (msg : string) (m : Txn E S A) : Txn E S A := λ e s,
  match m e s with Ok r => Ok r | Err err => Err (Wrapf msg err) end.
(** [if err != nil { return errors.New(msg) }]. *)
Definition instead {A} (msg : string) (m : Txn E S A) : Txn E S A := λ e s,
  match m e s with Ok r => Ok r | Err _ => Err (Errorf msg) end.
Definition only_if (b : bool) (m : Txn E S ()) : Txn E S () := if b then m else mret ().
(** [if b { return err }]. *)
Definition reject_if (b : bool) (err : error) : Txn E S () := if b then raise err else mret ().

(** [tx.Commit] on success, [tx.Rollback] on any error. *)
Definition commit {A} (m : Txn E S A) (e : E) (s : S) : result A * S :=
  match m e s with Ok (a, s') => (Ok a, s') | Err err => (Err err, s) end.

(** ** Runs that succeed *)
Lemma txn_bind_Ok {A B} (m : Txn E S A) (f : A → Txn E S B) e s b s2 :
  (m ≫= f) e s = Ok (b, s2) → ∃ a s1, m e s = Ok (a, s1) ∧ f a e s1 = Ok (b, s2).
Proof. unfold mbind, txn_bind. destruct (m e s) as [[a s1]|]; [eauto | done]. Qed.

Lemma txn_ret_Ok {A} (a : A) e s b s' : (mret a : Txn E S A) e s = Ok (b, s') → b = a ∧ s' = s.
Proof. unfold mret, txn_ret. by intros [= <- <-]. Qed.

Lemma within_Ok {A} msg (m : Txn E S A) e s a s' : within msg m e s = Ok (a, s') → m e s = Ok (a, s').
Proof. unfold within. destruct (m e s); [done | discriminate]. Qed.

Lemma instead_Ok {A} msg (m : Txn E S A) e s a s' : instead msg m e s = Ok (a, s') → m e s = Ok (a, s').
Proof. unfold instead. destruct (m e s); [done | discriminate]. Qed.

Lemma of_result_Ok {A} (r : result A) (e : E) (s : S) a s' : of_result r e s = Ok (a, s') → r = Ok a ∧ s' = s.
Proof. unfold of_result. destruct r; naive_solver. Qed.

Lemma query_Ok {A} (f : E → S → A) e s a s' : query f e s = Ok (a, s') → a = f e s ∧ s' = s.
Proof. unfold query. naive_solver. Qed.

Lemma exec_Ok f (e : E) (s : S) u s' : exec f e s = Ok (u, s') → s' = f e s.
Proof. unfold exec. naive_solver. Qed.

Lemma reject_if_Ok b err (e : E) (s : S) u s' : reject_if b err e s = Ok (u, s') → b = false ∧ s' = s.
Proof. unfold reject_if. destruct b; [done|]. by intros [-> ->]%txn_ret_Ok. Qed.

Lemma only_if_Ok b m (e : E) (s : S) u s' :
  only_if b m e s = Ok (u, s') → (b = true ∧ m e s = Ok (u, s')) ∨ (b = false ∧ s' = s).
Proof. unfold only_if. destruct b; [by left|]. intros [_ ->]%txn_ret_Ok. by right. Qed.

(** A committed transaction either ran or changed nothing. *)
Lemma commit_cases {A} (m : Txn E S A) e s :
  (∃ a s', m e s = Ok (a, s') ∧ commit m e s = (Ok a, s')) ∨ (∃ err, commit m e s = (Err err, s)).
Proof. unfold commit. destruct (m e s) as [[a s']|err]; [left|right]; eauto. Qed.

(** ** What successful runs stay inside *)
Definition evolves (R : S → S → Prop) {A} (m : Txn E S A) : Prop :=
  ∀ e s a s', m e s = Ok (a, s') → R s s'.

(** [m] leaves the projection [f] of the store as it was. *)
Definition frames {B} (f : S → B) {A} (m : Txn E S A) : Prop := evolves (λ s s', f s' = f s) m.

(** [m] only reads. *)
Definition observes {A} (m : Txn E S A) : Prop := frames id m.

Section evolves.
Context (R : S → S → Prop) {HR : PreOrder R}.

Lemma evolves_observes {A} (m : Txn E S A) : observes m → evolves R m.
Proof. intros Hm e s a s' H. apply Hm in H. cbn in H. subst. reflexivity. Qed.
Lemma evolves_ret {A} (a : A) : evolves R (mret a : Txn E S A).
Proof. intros e s b s' [_ ->]%txn_ret_Ok. reflexivity. Qed.
Lemma evolves_bind {A B} (m : Txn E S A) (f : A → Txn E S B) :
  evolves R m → (∀ a, evolves R (f a)) → evolves R (m ≫= f).
Proof. intros Hm Hf e s b s2 (a & s1 & H1 & H2)%txn_bind_Ok. etrans; [by eapply Hm | by eapply Hf]. Qed.
Lemma evolves_raise {A} err : evolves R (raise err : Txn E S A).
Proof. by intros e s a s'. Qed.
Lemma evolves_within {A} msg (m : Txn E S A) : evolves R m → evolves R (within msg m).
Proof. intros Hm e s a s' H%within_Ok. by eapply Hm. Qed.
Lemma evolves_instead {A} msg (m : Txn E S A) : evolves R m → evolves R (instead msg m).
Proof. intros Hm e s a s' H%instead_Ok. by eapply Hm. Qed.
Lemma evolves_exec f : (∀ e s, R s (f e s)) → evolves R (exec f).
Proof. intros H e s a s' ->%exec_Ok. apply H. Qed.
Lemma evolves_only_if b m : evolves R m → evolves R (only_if b m).
Proof. intros H. unfold only_if. destruct b; [done | apply evolves_ret]. Qed.
Lemma evolves_commit {A} (m : Txn E S A) e s : evolves R m → R s (commit m e s).2.
Proof.
  intros Hm. destruct (commit_cases m e s) as [(a & s' & H & ->)|[err ->]]; [by eapply Hm | reflexivity].
Qed.
End evolves.

Lemma observes_query {A} (f : E → S → A) : observes (query f).
Proof. by intros e s a s' [_ ->]%query_Ok. Qed.
Lemma observes_of_result {A} (r : result A) : observes (of_result r).
Proof. by intros e s a s' [_ ->]%of_result_Ok. Qed.
Lemma observes_reject_if b err : observes (reject_if b err).
Proof. by intros e s a s' [_ ->]%reject_if_Ok. Qed.
End operations.

Create HintDb txn discriminated.
#[export] Hint Resolve observes_query observes_of_result observes_reject_if evolves_observes evolves_ret
  evolves_raise evolves_within evolves_instead evolves_only_if : txn.

(** Take a successful run apart, one statement at a time. *)
Ltac txn_step :=
  match goal with
  | H : mbind _ _ _ _ = Ok (_, _) |- _ => apply txn_bind_Ok in H as (? & ? & ? & H)
  | H : mret _ _ _ = Ok (_, _) |- _ => apply txn_ret_Ok in H as [? ?]; subst
  | H : within _ _ _ _ = Ok (_, _) |- _ => apply within_Ok in H
  | H : instead _ _ _ _ = Ok (_, _) |- _ => apply instead_Ok in H
  | H : of_result _ _ _ = Ok (_, _) |- _ => apply of_result_Ok in H as [? ?]; subst
  | H : query _ _ _ = Ok (_, _) |- _ => apply query_Ok in H as [? ?]; subst
  | H : exec _ _ _ = Ok (_, _) |- _ => apply exec_Ok in H; subst
  | H : reject_if _ _ _ _ = Ok (_, _) |- _ => apply reject_if_Ok in H as [? ?]; subst
  | H : raise _ _ _ = Ok (_, _) |- _ => discriminate H
  | u : () |- _ => destruct u
  end.
Ltac txn_inv := repeat txn_step.

(** Walk down a transaction, leaving the primitive writes. *)
Ltac evolves_step :=
  match goal with
  | |- evolves _ (match ?x with _ => _ end) => destruct x eqn:?
  | |- evolves _ (mbind _ _) => simple apply evolves_bind; [apply _| |intros ?]
  | |- evolves _ (within _ _) => apply evolves_within
  | |- evolves _ (instead _ _) => apply evolves_instead
  | |- evolves _ (only_if _ _) => simple apply evolves_only_if; [apply _|]
  | |- evolves _ (raise _) => apply evolves_raise
  | |- evolves _ _ => solve [eauto 6 with txn typeclass_instances | eassumption]
  end.
Ltac evolves_tac := unfold observes, frames; repeat evolves_step.
