(* ===== verification/ContractState.v ===== *)
(** The contract lifecycle enum and its transition table:
    internal/contractworkflowengine/datatype/contractstate (contractstate.go and
    transition.go).  [Edge] is the abstract state machine the table declares;
    the command handlers are shown to refine it in Workflow.v. *)
From S2P Require Import Prelude.
Import GoStrings.

(** ** The enum *)
Inductive ContractState :=
  | Draft | Offered | Rejected | Withdrawn | Negotiation | Submitted
  | Reviewed | Approved | Signed | Active | Revoked | Terminated | Expired.

#[export] Instance ContractState_eq_dec : EqDecision ContractState.
Proof. solve_decision. Defined.

Definition state_String (s : ContractState) : string :=
  match s with
  | Draft => "DRAFT" | Offered => "OFFERED" | Rejected => "REJECTED"
  | Withdrawn => "WITHDRAWN" | Negotiation => "NEGOTIATION"
  | Submitted => "SUBMITTED" | Reviewed => "REVIEWED" | Approved => "APPROVED"
  | Signed => "SIGNED" | Active => "ACTIVE" | Revoked => "REVOKED"
  | Terminated => "TERMINATED" | Expired => "EXPIRED"
  end.

Definition All : list ContractState :=
  [Draft; Offered; Rejected; Withdrawn; Negotiation; Submitted;
   Reviewed; Approved; Signed; Active; Revoked; Terminated; Expired].

(** The lookup in [validStates]: the state a label spells exactly. *)
Definition of_label (s : string) : option ContractState :=
  head (rows_where (λ st, bool_decide (state_String st = s)) All).

Definition IsValid (s : string) : bool :=
  match of_label (ToUpper s) with Some _ => true | None => false end.

Definition NewContractState (s : string) : result ContractState :=
  match of_label (ToUpper s) with
  | Some st => Ok st
  | None => Err (Errorf "invalid contract state")
  end.

(** ** Events and the table *)
Inductive Event :=
  | EventOffer | EventWithdraw | EventSubmit | EventNegotiate
  | EventAcceptNegotiation | EventRejectNegotiation | EventApprove | EventReject
  | EventTerminate | EventSign | EventDeploy | EventRevoke | EventUpdate.

#[export] Instance Event_eq_dec : EqDecision Event.
Proof. solve_decision. Defined.

(** [Transitions[from][evt]]; [None] is a missing key. *)
Definition Transitions (from : ContractState) (evt : Event) : option (list ContractState) :=
  match from, evt with
  | Draft, EventOffer => Some [Offered]
  | Draft, EventSubmit => Some [Negotiation]
  | Draft, EventUpdate => Some [Draft]
  | Draft, EventTerminate => Some [Terminated]
  | Rejected, EventSubmit => Some [Negotiation]
  | Rejected, EventTerminate => Some [Terminated]
  | Offered, EventSubmit => Some [Negotiation]
  | Offered, EventNegotiate => Some [Negotiation]
  | Offered, EventWithdraw => Some [Withdrawn]
  | Offered, EventTerminate => Some [Terminated]
  | Negotiation, EventSubmit => Some [Negotiation; Submitted]
  | Negotiation, EventWithdraw => Some [Withdrawn]
  | Negotiation, EventNegotiate => Some [Negotiation]
  | Negotiation, EventAcceptNegotiation => Some [Negotiation]
  | Negotiation, EventRejectNegotiation => Some [Negotiation]
  | Negotiation, EventTerminate => Some [Terminated]
  | Submitted, EventSubmit => Some [Reviewed; Negotiation; Submitted]
  | Submitted, EventWithdraw => Some [Withdrawn]
  | Submitted, EventTerminate => Some [Terminated]
  | Reviewed, EventSubmit => Some [Submitted]
  | Reviewed, EventApprove => Some [Approved]
  | Reviewed, EventReject => Some [Rejected]
  | Reviewed, EventWithdraw => Some [Withdrawn]
  | Reviewed, EventTerminate => Some [Terminated]
  | Approved, EventSign => Some [Signed]
  | Approved, EventTerminate => Some [Terminated]
  | Signed, EventSign => Some [Signed]
  | Signed, EventDeploy => Some [Active]
  | Signed, EventRevoke => Some [Revoked]
  | Signed, EventTerminate => Some [Terminated]
  | Active, EventDeploy => Some [Active]
  | Active, EventRevoke => Some [Revoked]
  | Active, EventTerminate => Some [Terminated]
  | Revoked, EventApprove => Some [Approved]
  | Revoked, EventTerminate => Some [Terminated]
  | Withdrawn, EventTerminate => Some [Terminated]
  | Expired, EventTerminate => Some [Terminated]
  | _, _ => None
  end.

Definition EventAllowed (from : ContractState) (evt : Event) : bool :=
  match Transitions from evt with Some _ => true | None => false end.

Definition IsAllowed (from : ContractState) (evt : Event) (to : ContractState) : bool :=
  bool_decide (from = to) ||
  match Transitions from evt with
  | None => false
  | Some outcomes => existsb (λ o, bool_decide (o = to)) outcomes
  end.

Definition ValidateTransition (from : ContractState) (evt : Event) : result () :=
  if EventAllowed from evt then Ok ()
  else Err (Wrapf "event is not allowed from state" (Sentinel ErrInvalidTransition)).

Definition ValidateOutcome (from : ContractState) (evt : Event) (to : ContractState) : result () :=
  if IsAllowed from evt to then Ok ()
  else Err (Wrapf "event cannot move state" (Sentinel ErrInvalidTransition)).

(** ** The abstract machine *)

(** [Edge from evt to]: the table lists [to] among the outcomes of [evt]. *)
Inductive Edge (from : ContractState) (evt : Event) (to : ContractState) : Prop :=
  | edge outcomes : Transitions from evt = Some outcomes → to ∈ outcomes → Edge from evt to.

(** Runs of the machine, as the list of states visited after the first one. *)
Inductive Run : ContractState → list ContractState → ContractState → Prop :=
  | run_nil s : Run s [] s
  | run_step s evt t path u : Edge s evt t → Run t path u → Run s (t :: path) u.

Definition edge_b (from : ContractState) (evt : Event) (to : ContractState) : bool :=
  match Transitions from evt with
  | Some outcomes => bool_decide (to ∈ outcomes)
  | None => false
  end.

(** ** Lemmas *)
Lemma edge_b_iff from evt to : edge_b from evt to = true ↔ Edge from evt to.
Proof.
  unfold edge_b. split.
  - destruct (Transitions from evt) eqn:E; [|done]. intros ?; bool_to_prop. by econstructor.
  - intros [o E Hin]. rewrite E. by apply bool_decide_eq_true.
Qed.

Lemma IsAllowed_iff from evt to : IsAllowed from evt to = true ↔ from = to ∨ Edge from evt to.
Proof.
  unfold IsAllowed. rewrite orb_true_iff, bool_decide_eq_true. f_equiv.
  split.
  - destruct (Transitions from evt) as [o|] eqn:E; [|done].
    intros (x & Hx & ?)%existsb_true_iff. bool_to_prop. subst. by econstructor.
  - intros [o E Hin]. rewrite E. apply existsb_true_iff. exists to. split; [done|].
    by apply bool_decide_eq_true.
Qed.

Lemma ValidateTransition_Ok from evt u : ValidateTransition from evt = Ok u → ∃ o, Transitions from evt = Some o.
Proof. unfold ValidateTransition, EventAllowed. destruct (Transitions from evt); [eauto | done]. Qed.

Lemma ValidateOutcome_Ok from evt to u :
  ValidateOutcome from evt to = Ok u → from = to ∨ Edge from evt to.
Proof. unfold ValidateOutcome. case_match; [|done]. intros _. by apply IsAllowed_iff. Qed.

Lemma of_label_state_String st : of_label (state_String st) = Some st.
Proof. by destruct st. Qed.

Lemma state_String_inj s t : state_String s = state_String t → s = t.
Proof. intros H. apply (f_equal of_label) in H. rewrite !of_label_state_String in H. congruence. Qed.

Lemma All_complete st : st ∈ All.
Proof. destruct st; set_solver. Qed.

(** No edge of the table leaves TERMINATED. *)
Lemma terminated_no_edge evt t : ¬ Edge Terminated evt t.
Proof. intros [o E _]. by destruct evt. Qed.

Lemma edge_into_active s evt : Edge s evt Active → s = Signed ∨ s = Active.
Proof. rewrite <-edge_b_iff. destruct s, evt; vm_compute; auto; discriminate. Qed.

Lemma edge_into_signed s evt : Edge s evt Signed → s = Approved ∨ s = Signed.
Proof. rewrite <-edge_b_iff. destruct s, evt; vm_compute; auto; discriminate. Qed.

Lemma edge_into_approved s evt :
  Edge s evt Approved → s = Reviewed ∨ s = Revoked.
Proof. rewrite <-edge_b_iff. destruct s, evt; vm_compute; auto; discriminate. Qed.

Lemma Run_app s p t q u : Run s p t → Run t q u → Run s (p ++ q) u.
Proof. induction 1; [done|]. intros. simpl. econstructor; eauto. Qed.

Lemma Run_snoc_inv s p u :
  Run s p u → p = [] ∧ s = u ∨ ∃ q t evt, p = q ++ [u] ∧ Run s q t ∧ Edge t evt u.
Proof.
  induction 1 as [s|s evt t path u HE HR IH]; [by left|right].
  destruct IH as [[-> ->]|(q & t' & evt' & -> & Hq & HE')].
  - exists [], s, evt. repeat split; auto. constructor.
  - exists (t :: q), t', evt'. repeat split; auto. econstructor; eauto.
Qed.

(** Every visit of [target] is preceded by a visit of a state of [via], when all
    edges into [target] start from [via] or from [target] itself. *)
Lemma Run_through (target : ContractState) (via : ContractState → Prop) s p u :
  (∀ t evt, Edge t evt target → via t ∨ t = target) →
  Run s p u → u = target → s ≠ target → ∃ t, via t ∧ t ∈ s :: p.
Proof.
  intros Hin HR. remember (length p) as n eqn:Hn. revert p u HR Hn.
  induction n as [n IH] using lt_wf_ind; intros p u HR Hn -> Hs.
  apply Run_snoc_inv in HR as [[-> ->]|(q & t & evt & -> & Hq & HE)]; [done|].
  destruct (Hin _ _ HE) as [Hv|Heq]; [|subst t].
  - exists t. split; [done|].
    apply Run_snoc_inv in Hq as [[-> ->]|(q' & t' & e' & -> & _)]; set_solver.
  - destruct (IH (length q)) with (p := q) (u := target) as (t & Ht & Hin'); auto.
    + rewrite Hn, length_app. simpl. lia.
    + exists t. set_solver.
Qed.

Lemma Run_prefix s p u x : Run s p u → x ∈ p → ∃ q r, p = q ++ r ∧ Run s q x.
Proof.
  induction 1 as [s|s evt t path u HE HR IH]; [by intros ?%elem_of_nil|].
  intros [->|Hx]%elem_of_cons.
  - exists [t], path. split; [done|]. econstructor; [exact HE|constructor].
  - destruct (IH Hx) as (q & r & -> & Hq). exists (t :: q), r. split; [done|]. by econstructor.
Qed.

Lemma terminate_edge_everywhere s : s ≠ Terminated → Edge s EventTerminate Terminated.
Proof. intros Hs. apply edge_b_iff. by destruct s. Qed.

(** Along the transition table, a contract that is not yet approved reaches
    ACTIVE only by way of APPROVED and SIGNED; TERMINATED has no way out; and
    every other state can be terminated. *)
Theorem activation_passes_approval_and_signature :
  (∀ s path, Run s path Active → s ∉ [Approved; Signed; Active] → Approved ∈ path ∧ Signed ∈ path) ∧
  (∀ path t, Run Terminated path t → path = [] ∧ t = Terminated) ∧
  (∀ s, s ≠ Terminated → Edge s EventTerminate Terminated).
Proof.
  split_and!; [|intros path t HR|exact terminate_edge_everywhere].
  - intros s path HR Hs.
    assert (Hsigned : Signed ∈ path).
    { destruct (Run_through Active (λ t, t = Signed) s path Active) as (t & -> & Hin);
        [intros t evt Ht%edge_into_active; naive_solver|done|done|set_solver|set_solver]. }
    split; [|done]. destruct (Run_prefix _ _ _ _ HR Hsigned) as (q & r & -> & Hq).
    destruct (Run_through Signed (λ t, t = Approved) s q Signed) as (t & -> & Hin);
      [intros t evt Ht%edge_into_signed; naive_solver|done|done|set_solver|set_solver].
  - inversion HR as [|s evt t' path' u HE]; subst; [done|]. by apply terminated_no_edge in HE.
Qed.
