(* ===== verification/DidWeb.v ===== *)
(** did:web identifiers: internal/base/identity (did.go [DIDWebPath],
    [didWebAuthority]; didweb_same.go [SameDIDWeb], [NormalizeDIDWeb]).

    Two spellings of one peer compare equal when their authorities agree up to
    case and their decoded path segments agree exactly.  [SameDIDWeb] is shown
    to be an equivalence relation, so that the signature-evidence predicates of
    Extrinsic.v may replace one spelling of a party by another. *)
From S2P Require Import Prelude.
Import GoStrings.

Definition is_alnum (c : ascii) : bool :=
  let n := Ascii.nat_of_ascii c in
  ((48 <=? n)%nat && (n <=? 57)%nat) ||
  ((65 <=? n)%nat && (n <=? 90)%nat) || ((97 <=? n)%nat && (n <=? 122)%nat).

Definition is_digit (c : ascii) : bool :=
  let n := Ascii.nat_of_ascii c in (48 <=? n)%nat && (n <=? 57)%nat.

Definition hex_value (c : ascii) : option nat :=
  let n := Ascii.nat_of_ascii c in
  if (48 <=? n)%nat && (n <=? 57)%nat then Some (n - 48)%nat
  else if (97 <=? n)%nat && (n <=? 102)%nat then Some (n - 87)%nat
  else if (65 <=? n)%nat && (n <=? 70)%nat then Some (n - 55)%nat
  else None.

(** [url.PathUnescape]. *)
Fixpoint PathUnescape (s : string) : result string :=
  match s with
  | EmptyString => Ok EmptyString
  | String "%" (String a (String b s')) =>
      match hex_value a, hex_value b with
      | Some h, Some l =>
          t ← PathUnescape s'; Ok (String (Ascii.ascii_of_nat (16 * h + l)) t)
      | _, _ => Err (Errorf "invalid URL escape")
      end
  | String "%" _ => Err (Errorf "invalid URL escape")
  | String c s' => t ← PathUnescape s'; Ok (String c t)
  end.

(** The character class and the optional port of [didWebHost]. *)
Definition is_host_char (c : ascii) : bool :=
  is_alnum c || bool_decide (c = "."%char) || bool_decide (c = "_"%char) ||
  bool_decide (c = "-"%char).

Definition match_didWebHost (host : string) : bool :=
  match split_on ":" host with
  | [name] => negb (bool_decide (name = EmptyString)) &&
              forallb is_host_char (String.list_ascii_of_string name)
  | [name; port] =>
      negb (bool_decide (name = EmptyString)) &&
      forallb is_host_char (String.list_ascii_of_string name) &&
      (1 <=? String.length port)%nat && (String.length port <=? 5)%nat &&
      forallb is_digit (String.list_ascii_of_string port)
  | _ => false
  end.

(** The decoding loop of [didWebAuthority]: only the escaped colon is decoded. *)
Fixpoint decode_authority (raw : string) : result string :=
  match raw with
  | EmptyString => Ok EmptyString
  | String "%" (String a (String b raw')) =>
      if bool_decide (a = "3"%char) && bool_decide (ascii_lower b = "a"%char)
      then t ← decode_authority raw'; Ok (String ":" t)
      else Err (Errorf "host component carries a percent-escape other than %3A")
  | String "%" _ => Err (Errorf "host component carries a percent-escape other than %3A")
  | String c raw' => t ← decode_authority raw'; Ok (String c t)
  end.

Definition didWebAuthority (raw : string) : result string :=
  if bool_decide (raw = EmptyString) then Err (Errorf "has empty host component")
  else
    decoded ← decode_authority raw;
    let host := ToLower decoded in
    if match_didWebHost host then Ok host
    else Err (Errorf "host component is not a hostname with an optional port").

Definition has_separator (s : string) : bool :=
  existsb (λ c, bool_decide (c ∈ ["/"; "\"; "?"; "#"]%char)) (String.list_ascii_of_string s).

Definition decode_segment (raw : string) : result string :=
  segment ← PathUnescape raw;
  if bool_decide (segment = EmptyString) then Err (Errorf "has an empty path segment")
  else if has_separator segment || bool_decide (segment = ".") || bool_decide (segment = "..")
  then Err (Errorf "path segment would rewrite its own document path")
  else Ok segment.

Fixpoint decode_segments (raws : list string) : result (list string) :=
  match raws with
  | [] => Ok []
  | raw :: raws' =>
      segment ← decode_segment raw;
      segments ← decode_segments raws';
      Ok (segment :: segments)
  end.

Definition did_web_prefix : string := "did:web:".

Definition DIDWebPath (did : string) : result (string * list string) :=
  match cut_prefix did_web_prefix did with
  | None => Err (Errorf "not a did:web identifier")
  | Some rest =>
      match split_on ":" rest with
      | [] => Err (Errorf "not a did:web identifier")
      | authority :: raws =>
          host ← didWebAuthority authority;
          segments ← decode_segments raws;
          Ok (host, segments)
      end
  end.

Definition SameDIDWeb (a b : string) : bool :=
  bool_decide (a = b) ||
  match DIDWebPath a, DIDWebPath b with
  | Ok (aHost, aSegments), Ok (bHost, bSegments) =>
      bool_decide (aHost = bHost) && bool_decide (aSegments = bSegments)
  | _, _ => false
  end.

(** [strings.ReplaceAll(s, "%3a", "%3A")]. *)
Fixpoint upper_port_escape (s : string) : string :=
  match s with
  | String "%" (String "3" (String "a" s')) => String "%" (String "3" (String "A" (upper_port_escape s')))
  | String c s' => String c (upper_port_escape s')
  | EmptyString => EmptyString
  end.

Definition NormalizeDIDWeb (did : string) : string :=
  match DIDWebPath did with
  | Err _ => did
  | Ok _ =>
      let trimmed := TrimSpace did in
      let rest := match cut_prefix did_web_prefix trimmed with Some r => r | None => trimmed end in
      match split_on ":" rest with
      | [] => did_web_prefix
      | authority :: raws =>
          String.append did_web_prefix
            (String.concat ":" (upper_port_escape (ToLower authority) :: raws))
      end
  end.

(** The relation the code decides with [SameDIDWeb]. *)
Definition same_peer (a b : string) : Prop := SameDIDWeb a b = true.

(** ** Lemmas *)
Lemma same_peer_iff a b :
  same_peer a b ↔ a = b ∨ ∃ p, DIDWebPath a = Ok p ∧ DIDWebPath b = Ok p.
Proof.
  unfold same_peer, SameDIDWeb. rewrite orb_true_iff, bool_decide_eq_true. f_equiv.
  destruct (DIDWebPath a) as [[ah as_]|], (DIDWebPath b) as [[bh bs]|];
    try (split; [done | intros (? & ? & ?); congruence]).
  rewrite andb_true_iff, !bool_decide_eq_true. split; [intros [-> ->]; eauto | ].
  intros (p & Ha & Hb). naive_solver.
Qed.

#[export] Instance same_peer_equivalence : Equivalence same_peer.
Proof.
  split.
  - intros a. apply same_peer_iff. by left.
  - intros a b [->|(p & ? & ?)]%same_peer_iff; apply same_peer_iff; eauto.
  - intros a b c [->|(p & Ha & Hb)]%same_peer_iff H; [done|].
    apply same_peer_iff in H as [<-|(q & Hb' & Hc)]; apply same_peer_iff; eauto.
    right. exists p. split; [done|]. congruence.
Qed.

#[export] Instance SameDIDWeb_proper : Proper (same_peer ==> same_peer ==> eq) SameDIDWeb.
Proof.
  intros a a' Ha b b' Hb. apply eq_true_iff_eq.
  change (same_peer a b ↔ same_peer a' b'). by rewrite Ha, Hb.
Qed.

Lemma SameDIDWeb_refl a : SameDIDWeb a a = true.
Proof. change (same_peer a a). reflexivity. Qed.

Lemma SameDIDWeb_sym a b : SameDIDWeb a b = SameDIDWeb b a.
Proof. apply eq_true_iff_eq. change (same_peer a b ↔ same_peer b a). by split; intros H; symmetry. Qed.
