(* ===== verification/Extrinsic.v ===== *)
(** The peer-facing lifecycle of a contract and the signature evidence it is
    inferred from: internal/contractworkflowengine/datatype/contractstate/
    extrinsic.go.  The same predicate [Unsigned] gates deployment
    (Deployment.v). *)
From S2P Require Import Prelude ContractState DidWeb.

Record SignatureEvidence := {
  Declared : list string;
  SignedLocally : list string;
  Parties : list string;
  LocalPeer : string;
  PeerSigners : list string
}.

Definition IsRemotePartyField (parties : list string) (localPeer field : string) : bool :=
  if bool_decide (localPeer = EmptyString) || bool_decide (field = EmptyString)
     || SameDIDWeb field localPeer
  then false
  else existsb (λ party, negb (bool_decide (party = EmptyString)) && bool_decide (party = field))
         parties.

Definition isRemotePartyField (e : SignatureEvidence) (field : string) : bool :=
  IsRemotePartyField (Parties e) (LocalPeer e) field.

Definition peerSigned (e : SignatureEvidence) (field : string) : bool :=
  existsb (λ signer, negb (bool_decide (signer = EmptyString)) && SameDIDWeb signer field)
    (PeerSigners e).

(** The loop of [Unsigned]: a field already in the signed set, or a remote
    party's field whose peer shipped its signature, is not missing. *)
Definition field_satisfied (e : SignatureEvidence) (f : string) : bool :=
  bool_decide (f ∈ SignedLocally e) || (isRemotePartyField e f && peerSigned e f).

Fixpoint unsigned_loop (e : SignatureEvidence) (declared : list string) : list string :=
  match declared with
  | [] => []
  | f :: rest =>
      if bool_decide (f ∈ SignedLocally e) then unsigned_loop e rest
      else if isRemotePartyField e f && peerSigned e f then unsigned_loop e rest
      else f :: unsigned_loop e rest
  end.

Definition Unsigned (e : SignatureEvidence) : list string := unsigned_loop e (Declared e).

Definition AllSignaturesCollected (e : SignatureEvidence) : bool :=
  bool_decide (length (Unsigned e) = 0%nat).

(** The loop of [counterpartyCommitted], with its [remote] flag. *)
Fixpoint committed_loop (e : SignatureEvidence) (remote : bool) (declared : list string) : bool :=
  match declared with
  | [] => negb remote
  | field :: rest =>
      if negb (isRemotePartyField e field) then committed_loop e remote rest
      else if peerSigned e field then true
      else committed_loop e true rest
  end.

Definition counterpartyCommitted (e : SignatureEvidence) : bool :=
  committed_loop e false (Declared e).

Definition Proposed : string := "proposed".
Definition Agreed : string := "agreed".
Definition Executed : string := "executed".

Definition InferExtrinsic (intrinsicState : string) (signatures : SignatureEvidence) : string :=
  match of_label (GoStrings.ToUpper intrinsicState) with
  | Some (Draft | Offered | Negotiation | Submitted | Reviewed) => Proposed
  | Some Approved => if counterpartyCommitted signatures then Agreed else Proposed
  | Some Signed =>
      if AllSignaturesCollected signatures then Executed
      else if counterpartyCommitted signatures then Agreed else Proposed
  | Some Active => Executed
  | _ => GoStrings.ToLower intrinsicState
  end.

(** ** Lemmas *)
Lemma unsigned_loop_filter e l :
  unsigned_loop e l = rows_where (λ f, negb (field_satisfied e f)) l.
Proof.
  unfold rows_where, field_satisfied. induction l as [|g l IH]; simpl; [done|].
  destruct (bool_decide (g ∈ SignedLocally e)) eqn:E1; simpl;
    [|destruct (isRemotePartyField e g && peerSigned e g) eqn:E2]; simpl.
  - rewrite filter_cons_False by (by rewrite E1). done.
  - rewrite filter_cons_False by (by rewrite E1, E2). done.
  - rewrite filter_cons_True by (by rewrite E1, E2). by rewrite IH.
Qed.

Lemma elem_of_Unsigned e f :
  f ∈ Unsigned e ↔ f ∈ Declared e ∧ field_satisfied e f = false.
Proof.
  unfold Unsigned. rewrite unsigned_loop_filter, elem_of_rows_where, negb_true_iff. done.
Qed.

Lemma AllSignaturesCollected_iff e :
  AllSignaturesCollected e = true ↔ ∀ f, f ∈ Declared e → field_satisfied e f = true.
Proof.
  unfold AllSignaturesCollected. rewrite bool_decide_eq_true, length_zero_iff_nil. split.
  - intros HU f Hf. destruct (field_satisfied e f) eqn:Ef; [done|].
    assert (Hin : f ∈ Unsigned e) by (by apply elem_of_Unsigned).
    rewrite HU in Hin. by apply elem_of_nil in Hin.
  - intros H. destruct (Unsigned e) as [|f l] eqn:HU; [done|].
    assert (Hin : f ∈ Unsigned e) by (rewrite HU; left).
    apply elem_of_Unsigned in Hin as [Hd Hs]. rewrite H in Hs; done.
Qed.

Lemma committed_loop_eq e remote l :
  committed_loop e remote l =
  existsb (λ f, isRemotePartyField e f && peerSigned e f) l ||
  (negb remote && negb (existsb (isRemotePartyField e) l)).
Proof.
  revert remote. induction l as [|g l IH]; intros remote; simpl; [by destruct remote|].
  destruct (isRemotePartyField e g); simpl; [destruct (peerSigned e g); simpl; [done|]|];
    rewrite IH; simpl; rewrite ?andb_false_r; done.
Qed.

Lemma counterpartyCommitted_iff e :
  counterpartyCommitted e = true ↔
  (∃ f, f ∈ Declared e ∧ isRemotePartyField e f = true ∧ peerSigned e f = true) ∨
  (∀ f, f ∈ Declared e → isRemotePartyField e f = false).
Proof.
  unfold counterpartyCommitted. rewrite committed_loop_eq. simpl.
  rewrite orb_true_iff, existsb_true_iff, negb_true_iff, existsb_false_iff.
  by setoid_rewrite andb_true_iff.
Qed.

(** When every declared field is satisfied and none of the remote ones was
    signed on this instance, the counterparty has committed. *)
Lemma collected_implies_committed e :
  AllSignaturesCollected e = true →
  (∀ f, f ∈ Declared e → isRemotePartyField e f = true → f ∉ SignedLocally e) →
  counterpartyCommitted e = true.
Proof.
  intros HA Hrem. apply counterpartyCommitted_iff.
  destruct (existsb (isRemotePartyField e) (Declared e)) eqn:E.
  - left. apply existsb_true_iff in E as (f & Hf & Hr). exists f. split; [done|]. split; [done|].
    assert (Hs : field_satisfied e f = true) by (by apply AllSignaturesCollected_iff).
    unfold field_satisfied in Hs. rewrite bool_decide_eq_false_2 in Hs by auto.
    simpl in Hs. by apply andb_true_iff in Hs as [_ ?].
  - right. by apply existsb_false_iff.
Qed.

Lemma peerSigned_iff e f :
  peerSigned e f = true ↔ ∃ signer, signer ∈ PeerSigners e ∧ signer ≠ EmptyString ∧ same_peer signer f.
Proof.
  unfold peerSigned. rewrite existsb_true_iff. f_equiv. intros signer.
  rewrite andb_true_iff, negb_true_iff, bool_decide_eq_false. done.
Qed.

(** The peer-facing lifecycle of a SIGNED contract is the deployment gate's
    answer: it reads executed exactly when every declared field is signed on this
    instance or belongs to a remote party whose signature, under any spelling of
    its DID, was shipped; then nothing is missing for deployment.  Until then it
    reads agreed or proposed, and agreed needs a shipped signature for a remote
    field or a contract without one. *)
Theorem executed_means_fully_signed (e : SignatureEvidence) :
  (InferExtrinsic "SIGNED" e = Executed ↔
   ∀ f, f ∈ Declared e → f ∈ SignedLocally e ∨
     isRemotePartyField e f = true ∧
     ∃ signer, signer ∈ PeerSigners e ∧ signer ≠ EmptyString ∧ same_peer signer f) ∧
  (InferExtrinsic "SIGNED" e = Executed ↔ Unsigned e = []) ∧
  (InferExtrinsic "SIGNED" e = Agreed →
     (∃ f, f ∈ Declared e ∧ isRemotePartyField e f = true ∧ peerSigned e f = true) ∨
     (∀ f, f ∈ Declared e → isRemotePartyField e f = false)) ∧
  InferExtrinsic "SIGNED" e ∈ [Executed; Agreed; Proposed].
Proof.
  unfold InferExtrinsic. cbn. split_and!.
  - transitivity (AllSignaturesCollected e = true).
    { destruct (AllSignaturesCollected e); [done|]. by destruct (counterpartyCommitted e). }
    rewrite AllSignaturesCollected_iff. apply forall_proper. intros f. apply forall_proper. intros _.
    unfold field_satisfied. by rewrite orb_true_iff, bool_decide_eq_true, andb_true_iff, peerSigned_iff.
  - transitivity (AllSignaturesCollected e = true).
    { destruct (AllSignaturesCollected e); [done|]. by destruct (counterpartyCommitted e). }
    unfold AllSignaturesCollected. by rewrite bool_decide_eq_true, length_zero_iff_nil.
  - destruct (AllSignaturesCollected e); [done|].
    destruct (counterpartyCommitted e) eqn:E; [|done]. intros _. by apply counterpartyCommitted_iff.
  - destruct (AllSignaturesCollected e); [set_solver|]. destruct (counterpartyCommitted e); set_solver.
Qed.

Lemma same_peer_empty a b : same_peer a b → a = EmptyString ↔ b = EmptyString.
Proof. intros [->|(p & Ha & Hb)]%same_peer_iff; [done|]. split; by intros ->. Qed.

(** Whose slot a signature field is does not depend on how a DID is spelled:
    comparing did:web identifiers after decoding is an equivalence relation, and
    two spellings of the local peer give every field the same attribution. *)
Theorem attribution_ignores_the_spelling :
  Equivalence same_peer ∧
  ∀ parties a b field, same_peer a b →
    IsRemotePartyField parties a field = IsRemotePartyField parties b field.
Proof.
  split; [apply _|]. intros parties a b field Hab. unfold IsRemotePartyField.
  replace (bool_decide (a = EmptyString)) with (bool_decide (b = EmptyString)).
  - by replace (SameDIDWeb field a) with (SameDIDWeb field b) by (by rewrite Hab).
  - apply bool_decide_ext. symmetry. by apply same_peer_empty.
Qed.
