(* ===== verification/Store.v ===== *)
(** The database of one instance and the transactions that run on it.

    Rows: the tables that the contract workflow engine reads and writes
    (internal/contractworkflowengine/db, internal/dcstodcs/db,
    backend/migrations/sql), each table a list or a finite map of its primary
    key.  Transactions: a reader (clock, own DID) over a state monad that can
    fail; a handler that fails is rolled back ([run]), as the deferred
    [tx.Rollback] does.  The BEFORE UPDATE triggers of the contracts table and
    the effective-state view are written out.

    A statement fails here only by a constraint of its table; a lost connection
    aborts the transaction and so leaves the store as [run] does for any other
    error. *)
From S2P Require Import Prelude Json ContractState.

(** ** Rows *)
Record Responsible := {
  Creator : string;
  Approvers : list string;
  Reviewers : list string;
  Negotiators : list string;
  Counterparty : string
}.
#[export] Instance Responsible_eq_dec : EqDecision Responsible.
Proof. solve_decision. Defined.

Definition GetParties (r : Responsible) : list string :=
  foldl (λ parties did,
    if negb (bool_decide (did = EmptyString)) && negb (bool_decide (did ∈ parties))
    then parties ++ [did] else parties) [] [Creator r; Counterparty r].

(** The cached render of a contract ([db.ContractPDFState]). *)
Record PDFState := {
  IPFSCID : string;
  RendererVersion : string;
  C2PAState : string;
  PayloadHash : string
}.
#[export] Instance PDFState_eq_dec : EqDecision PDFState.
Proof. solve_decision. Defined.

(** A row of the contracts table; the columns up to [c_target_id] are the fields
    of [db.Contract].  Timestamps are microseconds since the epoch. *)
Record Contract := {
  c_did : string;
  c_origin : string;
  c_contract_version : Z;
  c_state : ContractState;
  c_created_by : string;
  c_created_at : Z;
  c_updated_at : Z;
  c_start_date : option Z;
  c_exp_date : option Z;
  c_exp_policy : option string;
  c_exp_notice_period : option Z;
  c_name : option string;
  c_description : option string;
  c_responsible : option Responsible;
  c_contract_data : option json;
  c_template_did : string;
  c_template_version : Z;
  c_target_id : option string;
  c_content_updated_at : Z;
  c_pdf : PDFState
}.
#[export] Instance Contract_eq_dec : EqDecision Contract.
Proof. solve_decision. Defined.

(** Task states of the review and approval tables share their labels. *)
Inductive TaskState := TaskOpen | TaskApproved | TaskRejected.
#[export] Instance TaskState_eq_dec : EqDecision TaskState.
Proof. solve_decision. Defined.

Definition task_label (t : TaskState) : string :=
  match t with TaskOpen => "OPEN" | TaskApproved => "APPROVED" | TaskRejected => "REJECTED" end.

Inductive NegotiationTaskState := NTOpen | NTAccepted.
#[export] Instance NegotiationTaskState_eq_dec : EqDecision NegotiationTaskState.
Proof. solve_decision. Defined.

Definition nt_label (t : NegotiationTaskState) : string :=
  match t with NTOpen => "OPEN" | NTAccepted => "ACCEPTED" end.

(** A row of contract_review_task (holder: reviewer) or contract_approval_task
    (holder: approver). *)
Record Task := {
  t_id : string;
  t_did : string;
  t_state : TaskState;
  t_holder : string;
  t_created_by : string;
  t_created_at : Z
}.

Record NegotiationTask := {
  nt_id : string;
  nt_did : string;
  nt_contract_version : Z;
  nt_state : NegotiationTaskState;
  nt_negotiator : string;
  nt_created_by : string;
  nt_created_at : Z
}.

(** One entry of a superseded_by annotation ([db.NegotiationSupersession]). *)
Record Supersession := {
  NegotiationID : string;
  SupersededByID : string;
  Fields : list string
}.
#[export] Instance Supersession_eq_dec : EqDecision Supersession.
Proof. solve_decision. Defined.

Record NegotiationRow := {
  n_id : string;
  n_did : string;
  n_contract_version : Z;
  n_change_request : option json;
  n_created_by : string;
  n_created_at : Z;
  n_superseded_by : option (list Supersession)
}.

Inductive DecisionState := DAccepted | DRejected | DClosed.
#[export] Instance DecisionState_eq_dec : EqDecision DecisionState.
Proof. solve_decision. Defined.

Record DecisionRow := {
  d_negotiation_id : string;
  d_negotiator : string;
  d_decision : option DecisionState;
  d_rejection_reason : option string
}.
#[export] Instance DecisionRow_eq_dec : EqDecision DecisionRow.
Proof. solve_decision. Defined.

(** contract_settlements; primary key (did, from, to). *)
Record Settlement := {
  s_did : string;
  s_from : string;
  s_to : string;
  s_contract_version : Z;
  s_document_digest : string;
  s_settled_at : Z;
  s_jades : string;
  s_recorded_at : Z;
  s_delivered_at : option Z
}.
Definition settlement_key (s : Settlement) : string * string * string := (s_did s, s_from s, s_to s).

(** contract_settlement_withdrawals; primary key (did, from, to). *)
Record Withdrawal := {
  w_did : string;
  w_from : string;
  w_to : string;
  w_document_digest : string;
  w_withdrawn_at : Z;
  w_recorded_at : Z;
  w_delivered_at : option Z
}.
Definition withdrawal_key (w : Withdrawal) : string * string * string := (w_did w, w_from w, w_to w).

(** contract_signatures; the unique index allows one SIGNED row per contract and
    field. *)
Record SignatureRow := {
  sg_contract_did : string;
  sg_signer_did : string;
  sg_field_name : option string;
  sg_status : string;
  sg_credential_type : string;
  sg_ipfs_cid : option string;
  sg_ceremony_id : option string;
  sg_pdf_hash : option string;
  sg_content_hash : option string;
  sg_jades_signature : option string
}.

(** A row as a peer or an earlier release left it: the columns every row has. *)
Definition bare_signature (did signer : string) (field : option string) (status : string) : SignatureRow :=
  {| sg_contract_did := did; sg_signer_did := signer; sg_field_name := field; sg_status := status;
     sg_credential_type := "stub"; sg_ipfs_cid := None; sg_ceremony_id := None; sg_pdf_hash := None;
     sg_content_hash := None; sg_jades_signature := None |}.

Record ContractTarget := {
  tg_id : string;
  tg_name : string;
  tg_url : string;
  tg_enabled : bool;
  tg_oauth_client_id : option string
}.

Record ContractDeployment := {
  dp_did : string;
  dp_contract_version : Z;
  dp_correlation_id : string;
  dp_content_hash : string;
  dp_target_id : option string;
  dp_target_url : option string;
  dp_status : string;
  dp_requested_by : string;
  dp_requested_at : Z;
  dp_acknowledged_at : option Z;
  dp_receipt_hash : string;
  dp_tsa_token : string;
  dp_dispatch_error : string
}.

Record ContractKPI := {
  k_did : string;
  k_correlation_id : option string;
  k_metric : string;
  k_value : string;
  k_observed_at : Z;
  k_verdict : string;
  k_rule_id : option string
}.

(** status_publication_queue; primary key (contract_did, status). *)
Record StatusPublication := {
  q_contract_did : string;
  q_status : string;
  q_reason : string;
  q_effective_at : Z
}.

(** A row of outbox_events: the event type, the entity it names and its body. *)
Record OutboxEvent := {
  o_event_type : string;
  o_did : string;
  o_body : list (string * json)
}.

Record Store := {
  contracts : gmap string Contract;
  contract_history : list Contract;
  review_tasks : list Task;
  approval_tasks : list Task;
  negotiation_tasks : list NegotiationTask;
  negotiations : list NegotiationRow;
  decisions : list DecisionRow;
  drafts : gmap (string * string) (option json);
  settlements : list Settlement;
  withdrawals : list Withdrawal;
  sync_signatures : gmap string string;
  signatures : list SignatureRow;
  targets : gmap string ContractTarget;
  deployments : list ContractDeployment;
  kpis : list ContractKPI;
  status_queue : list StatusPublication;
  outbox : list OutboxEvent;
  next_uuid : N
}.

(** Column-of-tables updates: [set_t f s] replaces one table. *)
Definition set_contracts f (s : Store) : Store :=
  {| contracts := f (contracts s); contract_history := contract_history s;
     review_tasks := review_tasks s; approval_tasks := approval_tasks s;
     negotiation_tasks := negotiation_tasks s; negotiations := negotiations s;
     decisions := decisions s; drafts := drafts s; settlements := settlements s;
     withdrawals := withdrawals s; sync_signatures := sync_signatures s;
     signatures := signatures s; targets := targets s; deployments := deployments s;
     kpis := kpis s; status_queue := status_queue s; outbox := outbox s;
     next_uuid := next_uuid s |}.
Definition set_contract_history f (s : Store) : Store :=
  {| contracts := contracts s; contract_history := f (contract_history s);
     review_tasks := review_tasks s; approval_tasks := approval_tasks s;
     negotiation_tasks := negotiation_tasks s; negotiations := negotiations s;
     decisions := decisions s; drafts := drafts s; settlements := settlements s;
     withdrawals := withdrawals s; sync_signatures := sync_signatures s;
     signatures := signatures s; targets := targets s; deployments := deployments s;
     kpis := kpis s; status_queue := status_queue s; outbox := outbox s;
     next_uuid := next_uuid s |}.
Definition set_review_tasks f (s : Store) : Store :=
  {| contracts := contracts s; contract_history := contract_history s;
     review_tasks := f (review_tasks s); approval_tasks := approval_tasks s;
     negotiation_tasks := negotiation_tasks s; negotiations := negotiations s;
     decisions := decisions s; drafts := drafts s; settlements := settlements s;
     withdrawals := withdrawals s; sync_signatures := sync_signatures s;
     signatures := signatures s; targets := targets s; deployments := deployments s;
     kpis := kpis s; status_queue := status_queue s; outbox := outbox s;
     next_uuid := next_uuid s |}.
Definition set_approval_tasks f (s : Store) : Store :=
  {| contracts := contracts s; contract_history := contract_history s;
     review_tasks := review_tasks s; approval_tasks := f (approval_tasks s);
     negotiation_tasks := negotiation_tasks s; negotiations := negotiations s;
     decisions := decisions s; drafts := drafts s; settlements := settlements s;
     withdrawals := withdrawals s; sync_signatures := sync_signatures s;
     signatures := signatures s; targets := targets s; deployments := deployments s;
     kpis := kpis s; status_queue := status_queue s; outbox := outbox s;
     next_uuid := next_uuid s |}.
Definition set_negotiation_tasks f (s : Store) : Store :=
  {| contracts := contracts s; contract_history := contract_history s;
     review_tasks := review_tasks s; approval_tasks := approval_tasks s;
     negotiation_tasks := f (negotiation_tasks s); negotiations := negotiations s;
     decisions := decisions s; drafts := drafts s; settlements := settlements s;
     withdrawals := withdrawals s; sync_signatures := sync_signatures s;
     signatures := signatures s; targets := targets s; deployments := deployments s;
     kpis := kpis s; status_queue := status_queue s; outbox := outbox s;
     next_uuid := next_uuid s |}.
Definition set_negotiations f (s : Store) : Store :=
  {| contracts := contracts s; contract_history := contract_history s;
     review_tasks := review_tasks s; approval_tasks := approval_tasks s;
     negotiation_tasks := negotiation_tasks s; negotiations := f (negotiations s);
     decisions := decisions s; drafts := drafts s; settlements := settlements s;
     withdrawals := withdrawals s; sync_signatures := sync_signatures s;
     signatures := signatures s; targets := targets s; deployments := deployments s;
     kpis := kpis s; status_queue := status_queue s; outbox := outbox s;
     next_uuid := next_uuid s |}.
Definition set_decisions f (s : Store) : Store :=
  {| contracts := contracts s; contract_history := contract_history s;
     review_tasks := review_tasks s; approval_tasks := approval_tasks s;
     negotiation_tasks := negotiation_tasks s; negotiations := negotiations s;
     decisions := f (decisions s); drafts := drafts s; settlements := settlements s;
     withdrawals := withdrawals s; sync_signatures := sync_signatures s;
     signatures := signatures s; targets := targets s; deployments := deployments s;
     kpis := kpis s; status_queue := status_queue s; outbox := outbox s;
     next_uuid := next_uuid s |}.
Definition set_drafts f (s : Store) : Store :=
  {| contracts := contracts s; contract_history := contract_history s;
     review_tasks := review_tasks s; approval_tasks := approval_tasks s;
     negotiation_tasks := negotiation_tasks s; negotiations := negotiations s;
     decisions := decisions s; drafts := f (drafts s); settlements := settlements s;
     withdrawals := withdrawals s; sync_signatures := sync_signatures s;
     signatures := signatures s; targets := targets s; deployments := deployments s;
     kpis := kpis s; status_queue := status_queue s; outbox := outbox s;
     next_uuid := next_uuid s |}.
Definition set_settlements f (s : Store) : Store :=
  {| contracts := contracts s; contract_history := contract_history s;
     review_tasks := review_tasks s; approval_tasks := approval_tasks s;
     negotiation_tasks := negotiation_tasks s; negotiations := negotiations s;
     decisions := decisions s; drafts := drafts s; settlements := f (settlements s);
     withdrawals := withdrawals s; sync_signatures := sync_signatures s;
     signatures := signatures s; targets := targets s; deployments := deployments s;
     kpis := kpis s; status_queue := status_queue s; outbox := outbox s;
     next_uuid := next_uuid s |}.
Definition set_withdrawals f (s : Store) : Store :=
  {| contracts := contracts s; contract_history := contract_history s;
     review_tasks := review_tasks s; approval_tasks := approval_tasks s;
     negotiation_tasks := negotiation_tasks s; negotiations := negotiations s;
     decisions := decisions s; drafts := drafts s; settlements := settlements s;
     withdrawals := f (withdrawals s); sync_signatures := sync_signatures s;
     signatures := signatures s; targets := targets s; deployments := deployments s;
     kpis := kpis s; status_queue := status_queue s; outbox := outbox s;
     next_uuid := next_uuid s |}.
Definition set_sync_signatures f (s : Store) : Store :=
  {| contracts := contracts s; contract_history := contract_history s;
     review_tasks := review_tasks s; approval_tasks := approval_tasks s;
     negotiation_tasks := negotiation_tasks s; negotiations := negotiations s;
     decisions := decisions s; drafts := drafts s; settlements := settlements s;
     withdrawals := withdrawals s; sync_signatures := f (sync_signatures s);
     signatures := signatures s; targets := targets s; deployments := deployments s;
     kpis := kpis s; status_queue := status_queue s; outbox := outbox s;
     next_uuid := next_uuid s |}.
Definition set_signatures f (s : Store) : Store :=
  {| contracts := contracts s; contract_history := contract_history s;
     review_tasks := review_tasks s; approval_tasks := approval_tasks s;
     negotiation_tasks := negotiation_tasks s; negotiations := negotiations s;
     decisions := decisions s; drafts := drafts s; settlements := settlements s;
     withdrawals := withdrawals s; sync_signatures := sync_signatures s;
     signatures := f (signatures s); targets := targets s; deployments := deployments s;
     kpis := kpis s; status_queue := status_queue s; outbox := outbox s;
     next_uuid := next_uuid s |}.
Definition set_targets f (s : Store) : Store :=
  {| contracts := contracts s; contract_history := contract_history s;
     review_tasks := review_tasks s; approval_tasks := approval_tasks s;
     negotiation_tasks := negotiation_tasks s; negotiations := negotiations s;
     decisions := decisions s; drafts := drafts s; settlements := settlements s;
     withdrawals := withdrawals s; sync_signatures := sync_signatures s;
     signatures := signatures s; targets := f (targets s); deployments := deployments s;
     kpis := kpis s; status_queue := status_queue s; outbox := outbox s;
     next_uuid := next_uuid s |}.
Definition set_deployments f (s : Store) : Store :=
  {| contracts := contracts s; contract_history := contract_history s;
     review_tasks := review_tasks s; approval_tasks := approval_tasks s;
     negotiation_tasks := negotiation_tasks s; negotiations := negotiations s;
     decisions := decisions s; drafts := drafts s; settlements := settlements s;
     withdrawals := withdrawals s; sync_signatures := sync_signatures s;
     signatures := signatures s; targets := targets s; deployments := f (deployments s);
     kpis := kpis s; status_queue := status_queue s; outbox := outbox s;
     next_uuid := next_uuid s |}.
Definition set_kpis f (s : Store) : Store :=
  {| contracts := contracts s; contract_history := contract_history s;
     review_tasks := review_tasks s; approval_tasks := approval_tasks s;
     negotiation_tasks := negotiation_tasks s; negotiations := negotiations s;
     decisions := decisions s; drafts := drafts s; settlements := settlements s;
     withdrawals := withdrawals s; sync_signatures := sync_signatures s;
     signatures := signatures s; targets := targets s; deployments := deployments s;
     kpis := f (kpis s); status_queue := status_queue s; outbox := outbox s;
     next_uuid := next_uuid s |}.
Definition set_status_queue f (s : Store) : Store :=
  {| contracts := contracts s; contract_history := contract_history s;
     review_tasks := review_tasks s; approval_tasks := approval_tasks s;
     negotiation_tasks := negotiation_tasks s; negotiations := negotiations s;
     decisions := decisions s; drafts := drafts s; settlements := settlements s;
     withdrawals := withdrawals s; sync_signatures := sync_signatures s;
     signatures := signatures s; targets := targets s; deployments := deployments s;
     kpis := kpis s; status_queue := f (status_queue s); outbox := outbox s;
     next_uuid := next_uuid s |}.
Definition set_outbox f (s : Store) : Store :=
  {| contracts := contracts s; contract_history := contract_history s;
     review_tasks := review_tasks s; approval_tasks := approval_tasks s;
     negotiation_tasks := negotiation_tasks s; negotiations := negotiations s;
     decisions := decisions s; drafts := drafts s; settlements := settlements s;
     withdrawals := withdrawals s; sync_signatures := sync_signatures s;
     signatures := signatures s; targets := targets s; deployments := deployments s;
     kpis := kpis s; status_queue := status_queue s; outbox := f (outbox s);
     next_uuid := next_uuid s |}.
Definition set_next_uuid f (s : Store) : Store :=
  {| contracts := contracts s; contract_history := contract_history s;
     review_tasks := review_tasks s; approval_tasks := approval_tasks s;
     negotiation_tasks := negotiation_tasks s; negotiations := negotiations s;
     decisions := decisions s; drafts := drafts s; settlements := settlements s;
     withdrawals := withdrawals s; sync_signatures := sync_signatures s;
     signatures := signatures s; targets := targets s; deployments := deployments s;
     kpis := kpis s; status_queue := status_queue s; outbox := outbox s;
     next_uuid := f (next_uuid s) |}.

(** ** Columns of the contracts table *)
Definition with_state (st : ContractState) (c : Contract) : Contract :=
  {| c_did := c_did c; c_origin := c_origin c; c_contract_version := c_contract_version c;
     c_state := st; c_created_by := c_created_by c; c_created_at := c_created_at c;
     c_updated_at := c_updated_at c; c_start_date := c_start_date c; c_exp_date := c_exp_date c;
     c_exp_policy := c_exp_policy c; c_exp_notice_period := c_exp_notice_period c;
     c_name := c_name c; c_description := c_description c; c_responsible := c_responsible c;
     c_contract_data := c_contract_data c; c_template_did := c_template_did c;
     c_template_version := c_template_version c; c_target_id := c_target_id c;
     c_content_updated_at := c_content_updated_at c; c_pdf := c_pdf c |}.

(** [updated_at], [content_updated_at] and the cached render. *)
Definition with_stamps (upd content : Z) (pdf : PDFState) (c : Contract) : Contract :=
  {| c_did := c_did c; c_origin := c_origin c; c_contract_version := c_contract_version c;
     c_state := c_state c; c_created_by := c_created_by c; c_created_at := c_created_at c;
     c_updated_at := upd; c_start_date := c_start_date c; c_exp_date := c_exp_date c;
     c_exp_policy := c_exp_policy c; c_exp_notice_period := c_exp_notice_period c;
     c_name := c_name c; c_description := c_description c; c_responsible := c_responsible c;
     c_contract_data := c_contract_data c; c_template_did := c_template_did c;
     c_template_version := c_template_version c; c_target_id := c_target_id c;
     c_content_updated_at := content; c_pdf := pdf |}.

Definition no_pdf : PDFState :=
  {| IPFSCID := EmptyString; RendererVersion := EmptyString; C2PAState := EmptyString;
     PayloadHash := EmptyString |}.

(** The row without its revision clock and its render cache: what
    [to_jsonb(NEW) - 'updated_at' - 'pdf_...'] keeps. *)
Definition business_columns (c : Contract) : Contract :=
  with_stamps 0 (c_content_updated_at c) no_pdf c.

(** Trigger [contracts_content_updated_at] (BEFORE UPDATE). *)
Definition content_trigger (now : Z) (old new : Contract) : Contract :=
  if bool_decide (c_contract_data new = c_contract_data old) then new
  else with_stamps (c_updated_at new) (Z.max now (c_content_updated_at old + 1)) (c_pdf new) new.

(** Trigger [contracts_revision_updated_at], which fires after it. *)
Definition revision_trigger (now : Z) (old new : Contract) : Contract :=
  if bool_decide (c_updated_at new = c_updated_at old)
     && bool_decide (business_columns new = business_columns old)
  then new
  else
    let base := if bool_decide (c_updated_at new = c_updated_at old) then now
                else c_updated_at new in
    with_stamps (Z.max base (Z.max (c_content_updated_at new) (c_updated_at old + 1)))
      (c_content_updated_at new) (c_pdf new) new.

Definition contracts_before_update (now : Z) (old new : Contract) : Contract :=
  revision_trigger now old (content_trigger now old new).

(** The [state] column of the [contracts_effective] views. *)
Definition effective_state (now : Z) (c : Contract) : ContractState :=
  match c_exp_date c with
  | Some exp =>
      if (exp <=? now) &&
         negb (bool_decide (c_state c ∈ [Terminated; Rejected; Expired; Withdrawn; Revoked]))
      then Expired else c_state c
  | None => c_state c
  end.

Definition effective (now : Z) (c : Contract) : Contract := with_state (effective_state now c) c.

(** ** Transactions *)
Record Env := {
  env_now : Z;
  (** [DIDDocument.GetID()]: [None] when the DID document carries no id. *)
  env_local_peer : option string;
  (** DCS_PUBLIC_URL. *)
  env_public_url : string
}.

Definition Tx (A : Type) : Type := Env → Store → result (A * Store).

#[export] Instance tx_ret : MRet Tx := λ A a _ s, Ok (a, s).
#[export] Instance tx_bind : MBind Tx := λ A B f m e s,
  match m e s with Ok (a, s') => f a e s' | Err err => Err err end.

Definition throw {A} (err : error) : Tx A := λ _ _, Err err.
Definition gets {A} (f : Env → Store → A) : Tx A := λ e s, Ok (f e s, s).
Definition modify (f : Env → Store → Store) : Tx () := λ e s, Ok ((), f e s).
Definition lift {A} (r : result A) : Tx A := λ _ s,
  match r with Ok a => Ok (a, s) | Err err => Err err end.
(** [if err != nil { return fmt.Errorf(msg, err) }]. *)
Definition wrap {A} (msg : string) (m : Tx A) : Tx A := λ e s,
  match m e s with Ok r => Ok r | Err err => Err (Wrapf msg err) end.
Definition when (b : bool) (m : Tx ()) : Tx () := if b then m else mret ().
(** [if b { return err }]. *)
Definition refuse (b : bool) (err : error) : Tx () := if b then throw err else mret ().
Fixpoint for_each {A} (l : list A) (f : A → Tx ()) : Tx () :=
  match l with [] => mret () | x :: l' => _ ← f x; for_each l' f end.

Definition now : Tx Z := gets (λ e _, env_now e).
Definition GetID : Tx string := λ e s,
  match env_local_peer e with
  | Some did => Ok (did, s)
  | None => Err (Errorf "DID document has no id")
  end.

(** [uuid.NewString] and [gen_random_uuid()]: the n-th identifier drawn. *)
Definition uuid (n : N) : string := String.append "uuid-" (pretty n).
Definition NewUUID : Tx string := λ _ s, Ok (uuid (next_uuid s), set_next_uuid N.succ s).

(** [tx.Commit] on success, [tx.Rollback] on any error. *)
Definition run {A} (m : Tx A) (e : Env) (s : Store) : result A * Store :=
  match m e s with Ok (a, s') => (Ok a, s') | Err err => (Err err, s) end.

(** [time.Time.Unix]: whole seconds. *)
Definition Unix (t : Z) : Z := t / 1000000.

(** ** The outbox (internal/base/event/eventpersistence.go [Create]) *)
Definition jint (z : Z) : json := JNum (pretty z).

Definition CreateEvent (evt : OutboxEvent) : Tx () :=
  if bool_decide (o_event_type evt = EmptyString) then throw (Errorf "event type cannot be empty")
  else if bool_decide (o_did evt = EmptyString) then throw (Errorf "did cannot be empty")
  else modify (λ _, set_outbox (λ l, l ++ [evt])).

(** ** Reasoning about transactions *)

(** [m] relates the stores before and after every successful run by [R]. *)
Definition tx_rel (R : Env → Store → Store → Prop) {A} (m : Tx A) : Prop :=
  ∀ e s a s', m e s = Ok (a, s') → R e s s'.

(** [m] only reads. *)
Definition reads {A} (m : Tx A) : Prop := ∀ e s a s', m e s = Ok (a, s') → s' = s.

Lemma bind_Ok {A B} (m : Tx A) (f : A → Tx B) e s b s2 :
  (m ≫= f) e s = Ok (b, s2) → ∃ a s1, m e s = Ok (a, s1) ∧ f a e s1 = Ok (b, s2).
Proof. unfold mbind, tx_bind. destruct (m e s) as [[a s1]|]; [eauto | done]. Qed.

Lemma ret_Ok {A} (a : A) e s b s' : (mret a : Tx A) e s = Ok (b, s') → b = a ∧ s' = s.
Proof. unfold mret, tx_ret. by intros [= <- <-]. Qed.

Lemma wrap_Ok {A} msg (m : Tx A) e s a s' : wrap msg m e s = Ok (a, s') → m e s = Ok (a, s').
Proof. unfold wrap. destruct (m e s); [done | discriminate]. Qed.

Lemma lift_Ok {A} (r : result A) e s a s' : lift r e s = Ok (a, s') → r = Ok a ∧ s' = s.
Proof. unfold lift. destruct r; naive_solver. Qed.

Lemma gets_Ok {A} (f : Env → Store → A) e s a s' : gets f e s = Ok (a, s') → a = f e s ∧ s' = s.
Proof. unfold gets. naive_solver. Qed.

Lemma modify_Ok f e s u s' : modify f e s = Ok (u, s') → s' = f e s.
Proof. unfold modify. naive_solver. Qed.

Lemma refuse_Ok b err e s u s' : refuse b err e s = Ok (u, s') → b = false ∧ s' = s.
Proof. unfold refuse. destruct b; [done|]. by intros [-> ->]%ret_Ok. Qed.

Lemma GetID_Ok e s a s' : GetID e s = Ok (a, s') → env_local_peer e = Some a ∧ s' = s.
Proof. unfold GetID. destruct (env_local_peer e); naive_solver. Qed.

Lemma now_Ok e s a s' : now e s = Ok (a, s') → a = env_now e ∧ s' = s.
Proof. apply gets_Ok. Qed.

Lemma CreateEvent_Ok evt e s u s' :
  CreateEvent evt e s = Ok (u, s') →
  s' = set_outbox (λ l, l ++ [evt]) s ∧ o_did evt ≠ EmptyString.
Proof.
  unfold CreateEvent. case_bool_decide; [done|]. case_bool_decide; [done|].
  intros ->%modify_Ok. done.
Qed.

Lemma NewUUID_Ok e s a s' :
  NewUUID e s = Ok (a, s') → a = uuid (next_uuid s) ∧ s' = set_next_uuid N.succ s.
Proof. unfold NewUUID. naive_solver. Qed.

(** Take a successful run apart, one statement at a time. *)
Ltac tx_step :=
  match goal with
  | H : mbind _ _ _ _ = Ok (_, _) |- _ => apply bind_Ok in H as (? & ? & ? & H)
  | H : mret _ _ _ = Ok (_, _) |- _ => apply ret_Ok in H as [? ?]; subst
  | H : wrap _ _ _ _ = Ok (_, _) |- _ => apply wrap_Ok in H
  | H : lift _ _ _ = Ok (_, _) |- _ => apply lift_Ok in H as [? ?]; subst
  | H : gets _ _ _ = Ok (_, _) |- _ => apply gets_Ok in H as [? ?]; subst
  | H : modify _ _ _ = Ok (_, _) |- _ => apply modify_Ok in H; subst
  | H : refuse _ _ _ _ = Ok (_, _) |- _ => apply refuse_Ok in H as [? ?]; subst
  | H : throw _ _ _ = Ok (_, _) |- _ => discriminate H
  | H : GetID _ _ = Ok (_, _) |- _ => apply GetID_Ok in H as [? ?]; subst
  | H : now _ _ = Ok (_, _) |- _ => apply now_Ok in H as [? ?]; subst
  | H : CreateEvent _ _ _ = Ok (_, _) |- _ => apply CreateEvent_Ok in H as [? ?]; subst
  | H : NewUUID _ _ = Ok (_, _) |- _ => apply NewUUID_Ok in H as [? ?]; subst
  | u : () |- _ => destruct u
  end.
Ltac tx_inv := repeat tx_step.

Section tx_rel.
Context (R : Env → Store → Store → Prop) (HR : ∀ e, PreOrder (R e)).

Lemma tx_rel_ret {A} (a : A) : tx_rel R (mret a : Tx A).
Proof. intros e s b s' [-> ->]%ret_Ok. reflexivity. Qed.

Lemma tx_rel_bind {A B} (m : Tx A) (f : A → Tx B) :
  tx_rel R m → (∀ a, tx_rel R (f a)) → tx_rel R (m ≫= f).
Proof.
  intros Hm Hf e s b s2 (a & s1 & H1 & H2)%bind_Ok.
  etrans; [by eapply Hm | by eapply Hf].
Qed.

Lemma tx_rel_throw {A} err : tx_rel R (throw err : Tx A).
Proof. by intros e s a s'. Qed.

Lemma tx_rel_reads {A} (m : Tx A) : reads m → tx_rel R m.
Proof. intros Hm e s a s' H. rewrite (Hm _ _ _ _ H). reflexivity. Qed.

Lemma tx_rel_wrap {A} msg (m : Tx A) : tx_rel R m → tx_rel R (wrap msg m).
Proof. intros Hm e s a s' H%wrap_Ok. by eapply Hm. Qed.

Lemma tx_rel_modify f : (∀ e s, R e s (f e s)) → tx_rel R (modify f).
Proof. intros H e s a s' ->%modify_Ok. apply H. Qed.

Lemma tx_rel_if {A} (b : bool) (m1 m2 : Tx A) :
  (b = true → tx_rel R m1) → (b = false → tx_rel R m2) → tx_rel R (if b then m1 else m2).
Proof. destruct b; auto. Qed.

Lemma tx_rel_when b m : (b = true → tx_rel R m) → tx_rel R (when b m).
Proof. intros H. unfold when. destruct b; [auto | apply tx_rel_ret]. Qed.

Lemma tx_rel_for_each {A} (l : list A) (f : A → Tx ()) :
  (∀ x, tx_rel R (f x)) → tx_rel R (for_each l f).
Proof.
  intros Hf. induction l as [|x l IH]; simpl; [apply tx_rel_ret|].
  apply tx_rel_bind; auto.
Qed.

End tx_rel.

Lemma reads_ret {A} (a : A) : reads (mret a : Tx A).
Proof. by intros e s b s' [_ ->]%ret_Ok. Qed.
Lemma reads_gets {A} (f : Env → Store → A) : reads (gets f).
Proof. by intros e s a s' [_ ->]%gets_Ok. Qed.
Lemma reads_lift {A} (r : result A) : reads (lift r).
Proof. by intros e s a s' [_ ->]%lift_Ok. Qed.
Lemma reads_throw {A} err : reads (throw err : Tx A).
Proof. by intros e s a s'. Qed.
Lemma reads_refuse b err : reads (refuse b err).
Proof. by intros e s a s' [_ ->]%refuse_Ok. Qed.
Lemma reads_GetID : reads GetID.
Proof. by intros e s a s' [_ ->]%GetID_Ok. Qed.
Lemma reads_now : reads now.
Proof. apply reads_gets. Qed.
Lemma reads_wrap {A} msg (m : Tx A) : reads m → reads (wrap msg m).
Proof. intros Hm e s a s' H%wrap_Ok. by eapply Hm. Qed.
Lemma reads_bind {A B} (m : Tx A) (f : A → Tx B) :
  reads m → (∀ a, reads (f a)) → reads (m ≫= f).
Proof.
  intros Hm Hf e s b s2 (a & s1 & H1 & H2)%bind_Ok.
  rewrite (Hf _ _ _ _ _ H2). by eapply Hm.
Qed.

Create HintDb tx discriminated.
#[export] Hint Resolve reads_ret reads_gets reads_lift reads_throw reads_refuse reads_GetID
  reads_now reads_wrap reads_bind : tx.
#[export] Hint Resolve tx_rel_throw tx_rel_reads tx_rel_wrap : tx.

(** The revision clock: an update that changes a business column moves it
    strictly forward; a write of the render cache alone leaves it. *)
Lemma before_update_clock now old new :
  c_updated_at new = c_updated_at old →
  c_content_updated_at new = c_content_updated_at old →
  let row := contracts_before_update now old new in
  (business_columns new ≠ business_columns old → c_updated_at old < c_updated_at row) ∧
  (business_columns new = business_columns old → row = new).
Proof.
  intros Hu Hc row. subst row. unfold contracts_before_update, revision_trigger, content_trigger.
  destruct (decide (c_contract_data new = c_contract_data old)) as [E1|E1].
  - rewrite !(bool_decide_eq_true_2 _ E1), !(bool_decide_eq_true_2 _ Hu); simpl.
    case_bool_decide; simpl; split; intros; try done. lia.
  - rewrite !(bool_decide_eq_false_2 _ E1); simpl. rewrite !(bool_decide_eq_true_2 _ Hu); simpl.
    assert (Hb : business_columns new ≠ business_columns old).
    { intros Hb. apply E1. by apply (f_equal c_contract_data) in Hb. }
    rewrite bool_decide_eq_false_2; simpl.
    + split; [intros; lia | done].
    + intros Hb'. apply E1. by apply (f_equal c_contract_data) in Hb'.
Qed.

Lemma before_update_state now old new : c_state (contracts_before_update now old new) = c_state new.
Proof. unfold contracts_before_update, revision_trigger, content_trigger. repeat case_match; done. Qed.

Lemma before_update_data now old new :
  c_contract_data (contracts_before_update now old new) = c_contract_data new ∧
  c_contract_version (contracts_before_update now old new) = c_contract_version new ∧
  c_responsible (contracts_before_update now old new) = c_responsible new ∧
  c_did (contracts_before_update now old new) = c_did new ∧
  c_pdf (contracts_before_update now old new) = c_pdf new ∧
  c_origin (contracts_before_update now old new) = c_origin new ∧
  c_exp_date (contracts_before_update now old new) = c_exp_date new.
Proof.
  unfold contracts_before_update, revision_trigger, content_trigger. repeat case_match; simpl; auto 10.
Qed.

(** ** Frames: what a transaction leaves alone *)

(** [keeps f m]: every successful run of [m] leaves the projection [f] of the
    store as it was. *)
Definition keeps {B} (f : Store → B) {A} (m : Tx A) : Prop :=
  ∀ e s a s', m e s = Ok (a, s') → f s' = f s.

Section keeps.
Context {B : Type} (f : Store → B).

Lemma keeps_reads {A} (m : Tx A) : reads m → keeps f m.
Proof. intros Hm e s a s' HR. by rewrite (Hm _ _ _ _ HR). Qed.
Lemma keeps_throw {A} err : keeps f (throw err : Tx A).
Proof. by intros e s a s'. Qed.
Lemma keeps_bind {A C} (m : Tx A) (k : A → Tx C) :
  keeps f m → (∀ a, keeps f (k a)) → keeps f (m ≫= k).
Proof.
  intros Hm Hk e s b s2 (a & s1 & H1 & H2)%bind_Ok.
  rewrite (Hk _ _ _ _ _ H2). by eapply Hm.
Qed.
Lemma keeps_wrap {A} msg (m : Tx A) : keeps f m → keeps f (wrap msg m).
Proof. intros Hm e s a s' HR%wrap_Ok. by eapply Hm. Qed.
Lemma keeps_modify g : (∀ e s, f (g e s) = f s) → keeps f (modify g).
Proof. intros Hg e s a s' ->%modify_Ok. apply Hg. Qed.
Lemma keeps_when b m : keeps f m → keeps f (when b m).
Proof. intros Hm. unfold when. destruct b; [done|]. apply keeps_reads, reads_ret. Qed.
Lemma keeps_for_each {A} (l : list A) (k : A → Tx ()) :
  (∀ x, keeps f (k x)) → keeps f (for_each l k).
Proof.
  intros Hk. induction l as [|x l IH]; simpl; [apply keeps_reads, reads_ret|].
  apply keeps_bind; auto.
Qed.
End keeps.

Lemma keeps_NewUUID {B} (f : Store → B) :
  (∀ s g, f (set_next_uuid g s) = f s) → keeps f NewUUID.
Proof. intros Hf e s a s' [_ ->]%NewUUID_Ok. apply Hf. Qed.

Lemma keeps_CreateEvent {B} (f : Store → B) evt :
  (∀ s g, f (set_outbox g s) = f s) → keeps f (CreateEvent evt).
Proof. intros Hf e s a s' [-> _]%CreateEvent_Ok. apply Hf. Qed.

#[export] Hint Resolve keeps_reads keeps_throw keeps_wrap keeps_when keeps_for_each
  keeps_NewUUID keeps_CreateEvent : tx.

(** Walk down a transaction, leaving the primitive writes that change [f]. *)
Ltac keeps_step :=
  match goal with
  | |- keeps _ (match ?x with _ => _ end) => destruct x
  | |- keeps _ (mbind _ _) => apply keeps_bind; [|intros ?]
  | |- keeps _ (wrap _ _) => apply keeps_wrap
  | |- keeps _ (when _ _) => apply keeps_when
  | |- keeps _ (for_each _ _) => apply keeps_for_each; intros ?
  | |- keeps _ (modify _) => apply keeps_modify; reflexivity
  | |- keeps _ (throw _) => apply keeps_throw
  | |- keeps _ _ => solve [eauto 6 with tx | eassumption]
  end.
Ltac keeps_tac := repeat keeps_step.
Ltac reads_step :=
  match goal with
  | |- reads (match ?x with _ => _ end) => destruct x
  | |- reads (mbind _ _) => apply reads_bind; [|intros ?]
  | |- reads _ => solve [eauto 6 with tx]
  end.
Ltac reads_tac := repeat reads_step.

(** ** Stores for concrete runs *)
Definition empty_store : Store :=
  {| contracts := ∅; contract_history := []; review_tasks := []; approval_tasks := [];
     negotiation_tasks := []; negotiations := []; decisions := []; drafts := ∅; settlements := [];
     withdrawals := []; sync_signatures := ∅; signatures := []; targets := ∅; deployments := [];
     kpis := []; status_queue := []; outbox := []; next_uuid := 0 |}.

(** Noon of 2026-08-01 on the instance [did:web:a.example]. *)
Definition demo_env : Env :=
  {| env_now := 1785585600000000; env_local_peer := Some "did:web:a.example";
     env_public_url := "https://a.example" |}.

Definition demo_responsible : Responsible :=
  {| Creator := "did:web:a.example"; Approvers := ["did:web:a.example"];
     Reviewers := ["did:web:a.example"]; Negotiators := ["did:web:a.example"];
     Counterparty := "did:web:b.example" |}.

Definition demo_contract (did : string) (st : ContractState) (doc : json) : Contract :=
  {| c_did := did; c_origin := "did:web:a.example"; c_contract_version := 1; c_state := st;
     c_created_by := "Org A"; c_created_at := 1785500000000000; c_updated_at := 1785500000000000;
     c_start_date := None; c_exp_date := None; c_exp_policy := None; c_exp_notice_period := None;
     c_name := None; c_description := None; c_responsible := Some demo_responsible;
     c_contract_data := Some doc; c_template_did := "did:web:a.example:template:1";
     c_template_version := 1; c_target_id := None; c_content_updated_at := 1785500000000000;
     c_pdf := no_pdf |}.

Definition demo_store (c : Contract) : Store := set_contracts (insert (c_did c) c) empty_store.
