(* ===== verification/Repos.v ===== *)
(** The repositories of the contract workflow engine, as transactions on the
    store: internal/contractworkflowengine/db/pg (contracts, review, approval and
    negotiation tasks, negotiations and drafts, deployments, targets),
    internal/dcstodcs/db/pg (settlements) and the status publication queue.

    A statement that finds no row is the Go error or nil the repository makes of
    it; the constraints that a statement can violate (primary keys, the foreign
    keys to contracts, the empty-name checks, the one-task-per-round index) are
    [PgError]s. *)
From S2P Require Import Prelude Json ContractState Store.

Definition contract_exists (s : Store) (did : string) : bool := bool_decide (is_Some (contracts s !! did)).

(** A row of a table whose [did] is a foreign key to contracts. *)
Definition fk_contract (table did : string) : Tx () := λ e s,
  refuse (negb (contract_exists s did)) (PgError (String.append "fk " table)) e s.

Definition check_not_empty (column v : string) : Tx () :=
  refuse (bool_decide (v = EmptyString)) (PgError (String.append "check " column)).

(** ** contracts *)
Module ContractRepo.

Definition find (did : string) : Tx (option Contract) := gets (λ _ s, contracts s !! did).

(** [UPDATE contracts SET ... WHERE did = $1]: the triggers fire on a row that
    exists, no row is no error. *)
Definition update_row (did : string) (f : Contract → Contract) : Tx () :=
  modify (λ e, set_contracts (alter (λ c, contracts_before_update (env_now e) c (f c)) did)).

Definition insert_row (row : Contract) : Tx () :=
  old ← find (c_did row);
  _ ← check_not_empty "did" (c_did row);
  match old with
  | Some _ => throw (PgError "pk_contracts")
  | None => modify (λ _, set_contracts (insert (c_did row) row))
  end.

(** The columns that [Create] does not name take their defaults. *)
Definition Create (data : Contract) : Tx () :=
  t ← now;
  insert_row
    {| c_did := c_did data; c_origin := c_origin data; c_contract_version := 1;
       c_state := c_state data; c_created_by := c_created_by data;
       c_created_at := c_created_at data; c_updated_at := t; c_start_date := None;
       c_exp_date := None; c_exp_policy := None; c_exp_notice_period := None;
       c_name := c_name data; c_description := c_description data;
       c_responsible := c_responsible data; c_contract_data := c_contract_data data;
       c_template_did := c_template_did data; c_template_version := c_template_version data;
       c_target_id := None; c_content_updated_at := t; c_pdf := no_pdf |}.

(** The zero [time.Time], 0001-01-01. *)
Definition time_zero : Z := -62135596800000000.

Definition RemoteCreate (data : Contract) : Tx () :=
  t ← now;
  insert_row
    {| c_did := c_did data; c_origin := c_origin data; c_contract_version := 1;
       c_state := c_state data; c_created_by := c_created_by data;
       c_created_at := if bool_decide (c_created_at data = time_zero) then t else c_created_at data;
       c_updated_at := c_updated_at data; c_start_date := None;
       c_exp_date := None; c_exp_policy := None; c_exp_notice_period := None;
       c_name := c_name data; c_description := c_description data;
       c_responsible := c_responsible data; c_contract_data := c_contract_data data;
       c_template_did := c_template_did data; c_template_version := c_template_version data;
       c_target_id := None; c_content_updated_at := t; c_pdf := no_pdf |}.

Definition CreateHistoryEntryForDID (did : string) : Tx () :=
  modify (λ e s,
    match contracts s !! did with
    | Some c => set_contract_history (λ l, l ++ [effective (env_now e) c]) s
    | None => s
    end).

Definition ReadDataByDID (did : string) : Tx Contract := λ e s,
  match contracts s !! did with
  | Some c => Ok (effective (env_now e) c, s)
  | None => Err (Errorf "contract with DID not found")
  end.

Definition ExistsByDID (did : string) : Tx bool := gets (λ _ s, contract_exists s did).

Definition ReadProcessDataByDID (did : string) : Tx Contract := λ e s,
  match contracts s !! did with
  | Some c => Ok (effective (env_now e) c, s)
  | None => Err (Errorf "contract with DID")
  end.

Definition ReadProcessDataByDIDOrNil (did : string) : Tx (option Contract) :=
  gets (λ e s, effective (env_now e) <$> contracts s !! did).

(** The WHERE clause of the expiry sweep. *)
Definition is_expired (now : Z) (c : Contract) : bool :=
  match c_exp_date c with
  | Some exp =>
      (exp <? now) &&
      negb (bool_decide (c_state c ∈ [Draft; Terminated; Rejected; Expired; Withdrawn; Revoked]))
  | None => false
  end.

Definition ReadExpiredContracts : Tx (list Contract) :=
  gets (λ e s, rows_where (is_expired (env_now e)) ((map_to_list (contracts s)).*2)).

Definition ReadSignedSignatureFieldNames (did : string) : Tx (list string) :=
  gets (λ _ s, omap sg_field_name
    (rows_where (λ g, bool_decide (sg_contract_did g = did) && bool_decide (sg_status g = "SIGNED"))
       (signatures s))).

Definition UpdateState (did : string) (state : ContractState) : Tx () :=
  update_row did (with_state state).

Definition ReadPDFState (did : string) : Tx PDFState := λ e s,
  match contracts s !! did with
  | Some c => Ok (c_pdf c, s)
  | None => Err (Errorf "sql: no rows in result set")
  end.

Definition UpdatePDFState (did : string) (data : PDFState) : Tx () :=
  update_row did (λ c, with_stamps (c_updated_at c) (c_content_updated_at c) data c).

Record ContractUpdateData := {
  u_did : string;
  u_state : option ContractState;
  u_name : option string;
  u_description : option string;
  u_contract_version : Z;
  u_contract_data : option json;
  u_start_date : option Z;
  u_exp_date : option Z;
  u_exp_policy : option string;
  u_exp_notice_period : option Z;
  u_responsible : option Responsible
}.

(** A literal of the Go struct that names [DID] alone, before its other fields. *)
Definition update_of (did : string) : ContractUpdateData :=
  {| u_did := did; u_state := None; u_name := None; u_description := None;
     u_contract_version := 0; u_contract_data := None; u_start_date := None;
     u_exp_date := None; u_exp_policy := None; u_exp_notice_period := None;
     u_responsible := None |}.

Definition opt_set {A} (new old : option A) : option A :=
  match new with Some _ => new | None => old end.

(** [createQuery]: the assignments, [None] when no column is named. *)
Definition createQuery (data : ContractUpdateData) : option (Contract → Contract) :=
  if (u_contract_version data <=? 0) && bool_decide (u_state data = None)
     && bool_decide (u_name data = None) && bool_decide (u_description data = None)
     && negb (IsNotNullValue (u_contract_data data)) && bool_decide (u_start_date data = None)
     && bool_decide (u_exp_date data = None) && bool_decide (u_exp_policy data = None)
     && bool_decide (u_exp_notice_period data = None) && bool_decide (u_responsible data = None)
  then None
  else Some (λ c,
    {| c_did := c_did c; c_origin := c_origin c;
       c_contract_version :=
         if 0 <? u_contract_version data then u_contract_version data else c_contract_version c;
       c_state := default (c_state c) (u_state data);
       c_created_by := c_created_by c; c_created_at := c_created_at c;
       c_updated_at := c_updated_at c;
       c_start_date := opt_set (u_start_date data) (c_start_date c);
       c_exp_date := opt_set (u_exp_date data) (c_exp_date c);
       c_exp_policy := opt_set (u_exp_policy data) (c_exp_policy c);
       c_exp_notice_period := opt_set (u_exp_notice_period data) (c_exp_notice_period c);
       c_name := opt_set (u_name data) (c_name c);
       c_description := opt_set (u_description data) (c_description c);
       c_responsible := opt_set (u_responsible data) (c_responsible c);
       c_contract_data :=
         if IsNotNullValue (u_contract_data data) then u_contract_data data else c_contract_data c;
       c_template_did := c_template_did c; c_template_version := c_template_version c;
       c_target_id := c_target_id c; c_content_updated_at := c_content_updated_at c;
       c_pdf := c_pdf c |}).

Definition Update (data : ContractUpdateData) : Tx () :=
  match createQuery data with
  | None => throw (Errorf "no fields to update")
  | Some f => update_row (u_did data) f
  end.

(** [createRemoteQuery]: always names the template, creation and origin columns. *)
Definition createRemoteQuery (data : Contract) (c : Contract) : Contract :=
  {| c_did := c_did c; c_origin := c_origin data;
     c_contract_version :=
       if 0 <? c_contract_version data then c_contract_version data else c_contract_version c;
     c_state := c_state data;
     c_created_by := c_created_by data; c_created_at := c_created_at data;
     c_updated_at := c_updated_at data;
     c_start_date := opt_set (c_start_date data) (c_start_date c);
     c_exp_date := opt_set (c_exp_date data) (c_exp_date c);
     c_exp_policy := opt_set (c_exp_policy data) (c_exp_policy c);
     c_exp_notice_period := opt_set (c_exp_notice_period data) (c_exp_notice_period c);
     c_name := opt_set (c_name data) (c_name c);
     c_description := opt_set (c_description data) (c_description c);
     c_responsible := c_responsible c;
     c_contract_data :=
       if IsNotNullValue (c_contract_data data) then c_contract_data data else c_contract_data c;
     c_template_did := c_template_did data; c_template_version := c_template_version data;
     c_target_id := c_target_id c; c_content_updated_at := c_content_updated_at c;
     c_pdf := c_pdf c |}.

Definition RemoteUpdate (data : Contract) : Tx () :=
  update_row (c_did data) (createRemoteQuery data).

End ContractRepo.

(** ** contract_review_task and contract_approval_task *)
Module TaskTable.

Section table.
Context (rows : Store → list Task) (set_rows : (list Task → list Task) → Store → Store).
Context (name no_task : string).

Definition of_holder (did holder : string) (t : Task) : bool :=
  bool_decide (t_did t = did) && bool_decide (t_holder t = holder).

Definition with_task_state (st : TaskState) (t : Task) : Task :=
  {| t_id := t_id t; t_did := t_did t; t_state := st; t_holder := t_holder t;
     t_created_by := t_created_by t; t_created_at := t_created_at t |}.

Definition create (did : string) (st : TaskState) (holder created_by : string) : Tx () :=
  id ← NewUUID;
  t ← now;
  _ ← check_not_empty name holder;
  _ ← fk_contract name did;
  modify (λ _, set_rows (λ l, l ++
    [{| t_id := id; t_did := did; t_state := st; t_holder := holder;
        t_created_by := created_by; t_created_at := t |}])).

Definition is_valid (did holder : string) : Tx bool :=
  gets (λ _ s, exists_where (of_holder did holder) (rows s)).

Definition reopen (did : string) : Tx () :=
  modify (λ _, set_rows
    (update_where (λ t, bool_decide (t_did t = did)) (with_task_state TaskOpen))).

Definition update_state (did holder : string) (st : TaskState) : Tx () :=
  n ← gets (λ _ s, exists_where (of_holder did holder) (rows s));
  _ ← refuse (negb n) (Errorf no_task);
  modify (λ _, set_rows (update_where (of_holder did holder) (with_task_state st))).

Definition any_in_state (did : string) (states : list TaskState) : Tx bool :=
  gets (λ _ s, exists_where
    (λ t, bool_decide (t_did t = did) && bool_decide (t_state t ∈ states)) (rows s)).

End table.
End TaskTable.

Module ReviewTaskRepo.
Definition Create := TaskTable.create set_review_tasks "reviewer".
Definition IsValidReviewer := TaskTable.is_valid review_tasks.
Definition ReopenTasks := TaskTable.reopen set_review_tasks.
Definition UpdateState :=
  TaskTable.update_state review_tasks set_review_tasks "user has no review task for this contract".
Definition AnyTasksInState := TaskTable.any_in_state review_tasks.
End ReviewTaskRepo.

Module ApprovalTaskRepo.
Definition Create := TaskTable.create set_approval_tasks "approver".
Definition IsValidApprover := TaskTable.is_valid approval_tasks.
Definition ReopenTasks := TaskTable.reopen set_approval_tasks.
Definition UpdateState :=
  TaskTable.update_state approval_tasks set_approval_tasks
    "user has no approval task for this contract".
Definition AnyTasksInState := TaskTable.any_in_state approval_tasks.
End ApprovalTaskRepo.

(** ** contract_negotiation_task *)
Module NegotiationTaskRepo.

Definition of_round (did : string) (version : Z) (t : NegotiationTask) : bool :=
  bool_decide (nt_did t = did) && bool_decide (nt_contract_version t = version).

Definition of_negotiator (did negotiator : string) (version : Z) (t : NegotiationTask) : bool :=
  of_round did version t && bool_decide (nt_negotiator t = negotiator).

Definition with_round (version : Z) (st : NegotiationTaskState) (t : NegotiationTask) :
    NegotiationTask :=
  {| nt_id := nt_id t; nt_did := nt_did t; nt_contract_version := version; nt_state := st;
     nt_negotiator := nt_negotiator t; nt_created_by := nt_created_by t;
     nt_created_at := nt_created_at t |}.

(** [ON CONFLICT (did, negotiator, contract_version) DO NOTHING]: the task already
    on record answers. *)
Definition Create (did : string) (version : Z) (st : NegotiationTaskState)
    (negotiator created_by : string) : Tx () :=
  _ ← check_not_empty "negotiator" negotiator;
  have ← gets (λ _ s, exists_where (of_negotiator did negotiator version) (negotiation_tasks s));
  if (have : bool) then mret () else
  _ ← fk_contract "contract_negotiation_task" did;
  id ← NewUUID;
  t ← now;
  modify (λ _, set_negotiation_tasks (λ l, l ++
    [{| nt_id := id; nt_did := did; nt_contract_version := version; nt_state := st;
        nt_negotiator := negotiator; nt_created_by := created_by; nt_created_at := t |}])).

Definition IsValidNegotiator (did negotiator : string) (version : Z) : Tx bool :=
  gets (λ _ s, exists_where (of_negotiator did negotiator version) (negotiation_tasks s)).

Definition ReopenTasks (did : string) (version : Z) : Tx () :=
  modify (λ _, set_negotiation_tasks
    (update_where (of_round did version) (with_round version NTOpen))).

(** The unique index over (did, negotiator, contract_version). *)
Definition task_key (t : NegotiationTask) : string * string * Z :=
  (nt_did t, nt_negotiator t, nt_contract_version t).

Definition RollForward (did : string) (from_version to_version : Z) : Tx () :=
  next ← gets (λ _ s,
    update_where (of_round did from_version) (with_round to_version NTOpen) (negotiation_tasks s));
  _ ← refuse (negb (bool_decide (NoDup (task_key <$> next))))
        (PgError "unique contract_negotiation_task (did, negotiator, contract_version)");
  modify (λ _, set_negotiation_tasks (λ _, next)).

Definition ReadNegotiatorsForDID (did : string) : Tx (list string) :=
  gets (λ _ s, dedup_from []
    (nt_negotiator <$> rows_where (λ t, bool_decide (nt_did t = did)) (negotiation_tasks s))).

Definition UpdateState (did negotiator : string) (version : Z) (st : NegotiationTaskState) : Tx () :=
  n ← gets (λ _ s, exists_where (of_negotiator did negotiator version) (negotiation_tasks s));
  _ ← refuse (negb n) (Errorf "user has no negotiation task for this negotiation round");
  modify (λ _, set_negotiation_tasks
    (update_where (of_negotiator did negotiator version) (with_round version st))).

Definition AnyTasksInState (did : string) (version : Z) (states : list NegotiationTaskState) :
    Tx bool :=
  gets (λ _ s, exists_where
    (λ t, of_round did version t && bool_decide (nt_state t ∈ states)) (negotiation_tasks s)).

End NegotiationTaskRepo.

(** ** contract_negotiations, contract_negotiation_decisions and the drafts *)
Module NegotiationRepo.

Definition Create (did : string) (version : Z) (change_request : option json)
    (created_by : string) (negotiators : list string) : Tx () :=
  _ ← fk_contract "contract_negotiations" did;
  id ← NewUUID;
  t ← now;
  _ ← modify (λ _, set_negotiations (λ l, l ++
        [{| n_id := id; n_did := did; n_contract_version := version;
            n_change_request := change_request; n_created_by := created_by;
            n_created_at := t; n_superseded_by := None |}]));
  for_each negotiators (λ negotiator,
    modify (λ _, set_decisions (λ l, l ++
      [{| d_negotiation_id := id; d_negotiator := negotiator; d_decision := None;
          d_rejection_reason := None |}]))).

Definition UpsertDraft (contract_did saved_by : string) (change_request : option json) : Tx () :=
  _ ← refuse (bool_decide (change_request = None))
        (PgError "not null contract_negotiation_drafts.change_request");
  _ ← fk_contract "contract_negotiation_drafts" contract_did;
  modify (λ _, set_drafts (insert (contract_did, saved_by) change_request)).

Definition ReadDraft (contract_did saved_by : string) : Tx (option (option json)) :=
  gets (λ _ s, drafts s !! (contract_did, saved_by)).

Definition DeleteDraft (contract_did saved_by : string) : Tx () :=
  modify (λ _, set_drafts (delete (contract_did, saved_by))).

Definition negotiation_of (s : Store) (id : string) : option NegotiationRow :=
  List.find (λ n, bool_decide (n_id n = id)) (negotiations s).

(** A decision of the negotiation [id] that is still NULL. *)
Definition undecided (id : string) (d : DecisionRow) : bool :=
  bool_decide (d_negotiation_id d = id) && bool_decide (d_decision d = None).

Definition decide_as (st : DecisionState) (reason : option string) (d : DecisionRow) : DecisionRow :=
  {| d_negotiation_id := d_negotiation_id d; d_negotiator := d_negotiator d;
     d_decision := Some st; d_rejection_reason := reason |}.

(** The rows an [UPDATE ... FROM contract_negotiations cn WHERE cn.id = $1]
    touches need the negotiation to exist. *)
Definition update_decisions (id : string) (p : DecisionRow → bool) (f : DecisionRow → DecisionRow) :
    Tx () :=
  hit ← gets (λ _ s, bool_decide (is_Some (negotiation_of s id)) && exists_where p (decisions s));
  _ ← refuse (negb hit) (Sentinel ErrNoMatchingDecision);
  modify (λ _, set_decisions (update_where p f)).

Definition Accept (id accepted_by : string) : Tx () :=
  update_decisions id (λ d, undecided id d && bool_decide (d_negotiator d = accepted_by))
    (λ d, decide_as DAccepted (d_rejection_reason d) d).

Definition Reject (id rejected_by : string) (reason : option string) : Tx () :=
  update_decisions id (undecided id)
    (λ d, if bool_decide (d_negotiator d = rejected_by) then decide_as DRejected reason d
          else decide_as DClosed None d).

Definition ReadCreatedByByNegotiationID (id : string) : Tx string := λ e s,
  match negotiation_of s id with
  | Some n => Ok (n_created_by n, s)
  | None => Err (Sentinel ErrNoMatchingDecision)
  end.

Definition decisions_of (s : Store) (id : string) : list DecisionRow :=
  rows_where (λ d, bool_decide (d_negotiation_id d = id)) (decisions s).

Definition of_version (did : string) (version : Z) (n : NegotiationRow) : bool :=
  bool_decide (n_did n = did) && bool_decide (n_contract_version n = version).

(** [GROUP BY cn.id HAVING COUNT( * ) = COUNT(accepted)] over the inner join. *)
Definition fully_accepted (s : Store) (n : NegotiationRow) : bool :=
  match decisions_of s (n_id n) with
  | [] => false
  | ds => forallb (λ d, bool_decide (d_decision d = Some DAccepted)) ds
  end.

(** [ORDER BY cn.created_at, cn.id]. *)
Definition row_le (a b : NegotiationRow) : Prop :=
  (n_created_at a <? n_created_at b) ||
  ((n_created_at a =? n_created_at b) && String.leb (n_id a) (n_id b)) = true.
#[global] Instance row_le_dec a b : Decision (row_le a b).
Proof. unfold row_le. apply _. Defined.

Definition ReadAllAcceptedByContractDIDAndVersion (did : string) (version : Z) :
    Tx (list NegotiationRow) :=
  gets (λ _ s, merge_sort row_le
    (rows_where (λ n, of_version did version n && fully_accepted s n) (negotiations s))).

Definition HasOpenNegotiationDecisions (did : string) (version : Z) (negotiator caller : string) :
    Tx bool :=
  gets (λ _ s, exists_where (λ n,
    of_version did version n
    && (bool_decide (caller = EmptyString) || negb (bool_decide (n_created_by n = caller)))
    && exists_where (λ d, undecided (n_id n) d && bool_decide (d_negotiator d = negotiator))
         (decisions s)) (negotiations s)).

Definition HasNegotiationForContractVersion (did : string) (version : Z) : Tx bool :=
  gets (λ _ s, exists_where (λ n,
    of_version did version n
    && exists_where (λ d, bool_decide (d_negotiation_id d = n_id n)) (decisions s))
    (negotiations s)).

Definition with_superseded_by (l : list Supersession) (n : NegotiationRow) : NegotiationRow :=
  {| n_id := n_id n; n_did := n_did n; n_contract_version := n_contract_version n;
     n_change_request := n_change_request n; n_created_by := n_created_by n;
     n_created_at := n_created_at n; n_superseded_by := Some l |}.

(** The entries are grouped per superseded request, in order of first mention. *)
Definition MarkSuperseded (supersessions : list Supersession) : Tx () :=
  for_each (dedup_from [] (NegotiationID <$> supersessions)) (λ id,
    hit ← gets (λ _ s, bool_decide (is_Some (negotiation_of s id)));
    _ ← refuse (negb hit) (Wrapf "negotiation" (Sentinel ErrNoMatchingDecision));
    modify (λ _, set_negotiations
      (update_where (λ n, bool_decide (n_id n = id))
        (with_superseded_by
          (rows_where (λ sp, bool_decide (NegotiationID sp = id)) supersessions))))).

End NegotiationRepo.

(** ** contract_deployments, contract_kpis and contract_targets *)
Module DeploymentRepo.

Definition CreateDeployment (d : ContractDeployment) : Tx () :=
  dup ← gets (λ _ s, exists_where
          (λ r, bool_decide (dp_correlation_id r = dp_correlation_id d)) (deployments s));
  _ ← refuse dup (PgError "unique contract_deployments.correlation_id");
  _ ← fk_contract "contract_deployments" (dp_did d);
  modify (λ _, set_deployments (λ l, l ++ [d])).

Definition FindDeploymentByCorrelationID (correlation_id : string) : Tx (option ContractDeployment) :=
  gets (λ _ s, List.find (λ r, bool_decide (dp_correlation_id r = correlation_id)) (deployments s)).

Definition with_status (status receipt tsa err : string) (ack : option Z) (r : ContractDeployment) :
    ContractDeployment :=
  {| dp_did := dp_did r; dp_contract_version := dp_contract_version r;
     dp_correlation_id := dp_correlation_id r; dp_content_hash := dp_content_hash r;
     dp_target_id := dp_target_id r; dp_target_url := dp_target_url r; dp_status := status;
     dp_requested_by := dp_requested_by r; dp_requested_at := dp_requested_at r;
     dp_acknowledged_at := ack; dp_receipt_hash := receipt; dp_tsa_token := tsa;
     dp_dispatch_error := err |}.

Definition AcknowledgeDeployment (correlation_id receipt tsa : string) (at_ : Z) : Tx () :=
  modify (λ _, set_deployments (update_where
    (λ r, bool_decide (dp_correlation_id r = correlation_id))
    (λ r, with_status "ACKNOWLEDGED" receipt tsa (dp_dispatch_error r) (Some at_) r))).

(** Only a row that still claims DISPATCHED is touched. *)
Definition MarkDispatchFailed (correlation_id reason : string) : Tx () :=
  modify (λ _, set_deployments (update_where
    (λ r, bool_decide (dp_correlation_id r = correlation_id) && bool_decide (dp_status r = "DISPATCHED"))
    (λ r, with_status "DISPATCH_FAILED" (dp_receipt_hash r) (dp_tsa_token r) reason
            (dp_acknowledged_at r) r))).

Definition CreateKPI (k : ContractKPI) : Tx () :=
  _ ← fk_contract "contract_kpis" (k_did k);
  modify (λ _, set_kpis (λ l, l ++ [k])).

Definition ReadTarget (id : string) : Tx (option ContractTarget) := gets (λ _ s, targets s !! id).

End DeploymentRepo.

(** ** contract_settlements (internal/dcstodcs/db/pg) *)
Module SyncRepo.

Definition settled_by (did from : string) (r : Settlement) : bool :=
  bool_decide (s_did r = did) && bool_decide (s_from r = from).

Definition recorded (at_ : Z) (r : Settlement) : Settlement :=
  {| s_did := s_did r; s_from := s_from r; s_to := s_to r; s_contract_version := s_contract_version r;
     s_document_digest := s_document_digest r; s_settled_at := s_settled_at r; s_jades := s_jades r;
     s_recorded_at := at_; s_delivered_at := s_delivered_at r |}.

Definition UpsertSettlement (r : Settlement) : Tx () :=
  modify (λ e, set_settlements (upsert settlement_key (recorded (env_now e) r))).

(** [ORDER BY settled_at DESC LIMIT 1]. *)
Definition newest (l : list Settlement) : option Settlement :=
  foldl (λ best r, match best with
    | Some b => if s_settled_at b <? s_settled_at r then Some r else best
    | None => Some r
    end) None l.

Definition GetSettlement (did from : string) : Tx (option Settlement) :=
  gets (λ _ s, newest (rows_where (settled_by did from) (settlements s))).

Definition to_le (a b : Settlement) : Prop := String.leb (s_to a) (s_to b) = true.
#[global] Instance to_le_dec a b : Decision (to_le a b).
Proof. unfold to_le. apply _. Defined.

Definition GetSettlementsBy (did from : string) : Tx (list Settlement) :=
  gets (λ _ s, merge_sort to_le (rows_where (settled_by did from) (settlements s))).

Definition DeleteSettlementsBy (did from : string) : Tx () :=
  modify (λ _, set_settlements (rows_where (λ r, negb (settled_by did from r)))).

(** A queued withdrawal is undelivered. *)
Definition queued (at_ : Z) (w : Withdrawal) : Withdrawal :=
  {| w_did := w_did w; w_from := w_from w; w_to := w_to w; w_document_digest := w_document_digest w;
     w_withdrawn_at := w_withdrawn_at w; w_recorded_at := at_; w_delivered_at := None |}.

Definition UpsertSettlementWithdrawal (w : Withdrawal) : Tx () :=
  modify (λ e, set_withdrawals (upsert withdrawal_key (queued (env_now e) w))).

(** The agreement signature a peer sent with its last document, when one is on
    record. *)
Definition GetSyncSignature (did : string) : Tx (option string) := gets (λ _ s, sync_signatures s !! did).

End SyncRepo.

(** ** status_publication_queue *)
Definition EnqueueTx (contract_did status reason : string) (effective_at : Z) : Tx () :=
  have ← gets (λ _ s, exists_where
           (λ q, bool_decide (q_contract_did q = contract_did) && bool_decide (q_status q = status))
           (status_queue s));
  when (negb have) (modify (λ _, set_status_queue (λ l, l ++
    [{| q_contract_did := contract_did; q_status := status; q_reason := reason;
        q_effective_at := effective_at |}]))).

(** ** Lemmas: what each repository reads and writes *)
#[export] Hint Extern 0 (_ = _) => reflexivity : tx.

Lemma reads_check_not_empty c v : reads (check_not_empty c v).
Proof. apply reads_refuse. Qed.
Lemma reads_fk_contract t did : reads (fk_contract t did).
Proof. by intros e s a s' [_ ->]%refuse_Ok. Qed.
Lemma reads_ReadDataByDID did : reads (ContractRepo.ReadDataByDID did).
Proof. intros e s a s'. unfold ContractRepo.ReadDataByDID. case_match; naive_solver. Qed.
Lemma reads_ReadProcessDataByDID did : reads (ContractRepo.ReadProcessDataByDID did).
Proof. intros e s a s'. unfold ContractRepo.ReadProcessDataByDID. case_match; naive_solver. Qed.
Lemma reads_ReadPDFState did : reads (ContractRepo.ReadPDFState did).
Proof. intros e s a s'. unfold ContractRepo.ReadPDFState. case_match; naive_solver. Qed.
Lemma reads_ReadCreatedBy id : reads (NegotiationRepo.ReadCreatedByByNegotiationID id).
Proof.
  intros e s a s'. unfold NegotiationRepo.ReadCreatedByByNegotiationID. case_match; naive_solver.
Qed.
#[export] Hint Resolve reads_check_not_empty reads_fk_contract reads_ReadDataByDID
  reads_ReadProcessDataByDID reads_ReadPDFState reads_ReadCreatedBy : tx.
#[export] Hint Extern 1 (reads (ContractRepo.find _)) => apply reads_gets : tx.
#[export] Hint Extern 1 (reads (ContractRepo.ExistsByDID _)) => apply reads_gets : tx.
#[export] Hint Extern 1 (reads (ContractRepo.ReadProcessDataByDIDOrNil _)) => apply reads_gets : tx.
#[export] Hint Extern 1 (reads ContractRepo.ReadExpiredContracts) => apply reads_gets : tx.
#[export] Hint Extern 1 (reads (ContractRepo.ReadSignedSignatureFieldNames _)) => apply reads_gets : tx.
#[export] Hint Extern 1 (reads (ReviewTaskRepo.IsValidReviewer _ _)) => apply reads_gets : tx.
#[export] Hint Extern 1 (reads (ReviewTaskRepo.AnyTasksInState _ _)) => apply reads_gets : tx.
#[export] Hint Extern 1 (reads (ApprovalTaskRepo.IsValidApprover _ _)) => apply reads_gets : tx.
#[export] Hint Extern 1 (reads (ApprovalTaskRepo.AnyTasksInState _ _)) => apply reads_gets : tx.
#[export] Hint Extern 1 (reads (NegotiationTaskRepo.IsValidNegotiator _ _ _)) => apply reads_gets : tx.
#[export] Hint Extern 1 (reads (NegotiationTaskRepo.AnyTasksInState _ _ _)) => apply reads_gets : tx.
#[export] Hint Extern 1 (reads (NegotiationTaskRepo.ReadNegotiatorsForDID _)) => apply reads_gets : tx.
#[export] Hint Extern 1 (reads (NegotiationRepo.ReadDraft _ _)) => apply reads_gets : tx.
#[export] Hint Extern 1 (reads (NegotiationRepo.HasOpenNegotiationDecisions _ _ _ _)) => apply reads_gets : tx.
#[export] Hint Extern 1 (reads (NegotiationRepo.HasNegotiationForContractVersion _ _)) => apply reads_gets : tx.
#[export] Hint Extern 1 (reads (NegotiationRepo.ReadAllAcceptedByContractDIDAndVersion _ _)) =>
  apply reads_gets : tx.
#[export] Hint Extern 1 (reads (DeploymentRepo.FindDeploymentByCorrelationID _)) => apply reads_gets : tx.
#[export] Hint Extern 1 (reads (DeploymentRepo.ReadTarget _)) => apply reads_gets : tx.
#[export] Hint Extern 1 (reads (SyncRepo.GetSettlement _ _)) => apply reads_gets : tx.
#[export] Hint Extern 1 (reads (SyncRepo.GetSettlementsBy _ _)) => apply reads_gets : tx.
#[export] Hint Extern 1 (reads (SyncRepo.GetSyncSignature _)) => apply reads_gets : tx.

Lemma ReadDataByDID_Ok did e s c s' :
  ContractRepo.ReadDataByDID did e s = Ok (c, s') →
  s' = s ∧ ∃ row, contracts s !! did = Some row ∧ c = effective (env_now e) row.
Proof. unfold ContractRepo.ReadDataByDID. case_match; naive_solver. Qed.

Lemma ReadProcessDataByDID_Ok did e s c s' :
  ContractRepo.ReadProcessDataByDID did e s = Ok (c, s') →
  s' = s ∧ ∃ row, contracts s !! did = Some row ∧ c = effective (env_now e) row.
Proof. unfold ContractRepo.ReadProcessDataByDID. case_match; naive_solver. Qed.

(** One column of the contracts table, for every contract. *)
Definition column {A} (col : Contract → A) (s : Store) : gmap string A := col <$> contracts s.

Section frames.
Context {B : Type} (f : Store → B).
Local Notation other set := (∀ s g, f (set g s) = f s).

Lemma keeps_update_row did g : other set_contracts → keeps f (ContractRepo.update_row did g).
Proof. intros Hf. apply keeps_modify. intros. apply Hf. Qed.
Lemma keeps_insert_row row : other set_contracts → keeps f (ContractRepo.insert_row row).
Proof.
  intros Hf. unfold ContractRepo.insert_row. keeps_tac. apply keeps_modify. intros. apply Hf.
Qed.
Lemma keeps_Create data : other set_contracts → keeps f (ContractRepo.Create data).
Proof. intros Hf. unfold ContractRepo.Create. keeps_tac. by apply keeps_insert_row. Qed.
Lemma keeps_RemoteCreate data : other set_contracts → keeps f (ContractRepo.RemoteCreate data).
Proof. intros Hf. unfold ContractRepo.RemoteCreate. keeps_tac; by apply keeps_insert_row. Qed.
Lemma keeps_history did : other set_contract_history → keeps f (ContractRepo.CreateHistoryEntryForDID did).
Proof.
  intros Hf. apply keeps_modify. intros e s. destruct (contracts s !! did); [apply Hf | done].
Qed.
Lemma keeps_UpdateState did st : other set_contracts → keeps f (ContractRepo.UpdateState did st).
Proof. apply keeps_update_row. Qed.
Lemma keeps_UpdatePDFState did p : other set_contracts → keeps f (ContractRepo.UpdatePDFState did p).
Proof. apply keeps_update_row. Qed.
Lemma keeps_Update d : other set_contracts → keeps f (ContractRepo.Update d).
Proof. intros. unfold ContractRepo.Update. case_match; [by apply keeps_update_row | apply keeps_throw]. Qed.
Lemma keeps_RemoteUpdate d : other set_contracts → keeps f (ContractRepo.RemoteUpdate d).
Proof. apply keeps_update_row. Qed.

Lemma keeps_task_create set_rows name did st h c :
  other set_rows → other set_next_uuid → keeps f (TaskTable.create set_rows name did st h c).
Proof. intros H1 H2. unfold TaskTable.create. keeps_tac. apply keeps_modify. auto. Qed.
Lemma keeps_task_reopen set_rows did : other set_rows → keeps f (TaskTable.reopen set_rows did).
Proof. intros H1. apply keeps_modify. auto. Qed.
Lemma keeps_task_update rows set_rows msg did h st :
  other set_rows → keeps f (TaskTable.update_state rows set_rows msg did h st).
Proof. intros H1. unfold TaskTable.update_state. keeps_tac. apply keeps_modify. auto. Qed.

Lemma keeps_nt_Create did v st n c :
  other set_negotiation_tasks → other set_next_uuid → keeps f (NegotiationTaskRepo.Create did v st n c).
Proof. intros H1 H2. unfold NegotiationTaskRepo.Create. keeps_tac. apply keeps_modify. auto. Qed.
Lemma keeps_nt_Reopen did v :
  other set_negotiation_tasks → keeps f (NegotiationTaskRepo.ReopenTasks did v).
Proof. intros H1. apply keeps_modify. auto. Qed.
Lemma keeps_nt_RollForward did v w :
  other set_negotiation_tasks → keeps f (NegotiationTaskRepo.RollForward did v w).
Proof. intros H1. unfold NegotiationTaskRepo.RollForward. keeps_tac. apply keeps_modify. auto. Qed.
Lemma keeps_nt_UpdateState did n v st :
  other set_negotiation_tasks → keeps f (NegotiationTaskRepo.UpdateState did n v st).
Proof. intros H1. unfold NegotiationTaskRepo.UpdateState. keeps_tac. apply keeps_modify. auto. Qed.

Lemma keeps_n_Create did v cr by_ ns :
  other set_negotiations → other set_decisions → other set_next_uuid →
  keeps f (NegotiationRepo.Create did v cr by_ ns).
Proof.
  intros H1 H2 H3. unfold NegotiationRepo.Create. keeps_tac; apply keeps_modify; auto.
Qed.
Lemma keeps_UpsertDraft d by_ cr : other set_drafts → keeps f (NegotiationRepo.UpsertDraft d by_ cr).
Proof. intros H1. unfold NegotiationRepo.UpsertDraft. keeps_tac. apply keeps_modify. auto. Qed.
Lemma keeps_DeleteDraft d by_ : other set_drafts → keeps f (NegotiationRepo.DeleteDraft d by_).
Proof. intros H1. apply keeps_modify. auto. Qed.
Lemma keeps_update_decisions id p g :
  other set_decisions → keeps f (NegotiationRepo.update_decisions id p g).
Proof. intros H1. unfold NegotiationRepo.update_decisions. keeps_tac. apply keeps_modify. auto. Qed.
Lemma keeps_MarkSuperseded l : other set_negotiations → keeps f (NegotiationRepo.MarkSuperseded l).
Proof. intros H1. unfold NegotiationRepo.MarkSuperseded. keeps_tac. apply keeps_modify. auto. Qed.

Lemma keeps_CreateDeployment d : other set_deployments → keeps f (DeploymentRepo.CreateDeployment d).
Proof. intros H1. unfold DeploymentRepo.CreateDeployment. keeps_tac. apply keeps_modify. auto. Qed.
Lemma keeps_Acknowledge c r t a : other set_deployments → keeps f (DeploymentRepo.AcknowledgeDeployment c r t a).
Proof. intros H1. apply keeps_modify. auto. Qed.
Lemma keeps_MarkDispatchFailed c r : other set_deployments → keeps f (DeploymentRepo.MarkDispatchFailed c r).
Proof. intros H1. apply keeps_modify. auto. Qed.
Lemma keeps_CreateKPI k : other set_kpis → keeps f (DeploymentRepo.CreateKPI k).
Proof. intros H1. unfold DeploymentRepo.CreateKPI. keeps_tac. apply keeps_modify. auto. Qed.
Lemma keeps_UpsertSettlement r : other set_settlements → keeps f (SyncRepo.UpsertSettlement r).
Proof. intros H1. apply keeps_modify. auto. Qed.
Lemma keeps_DeleteSettlementsBy d p : other set_settlements → keeps f (SyncRepo.DeleteSettlementsBy d p).
Proof. intros H1. apply keeps_modify. auto. Qed.
Lemma keeps_UpsertWithdrawal w : other set_withdrawals → keeps f (SyncRepo.UpsertSettlementWithdrawal w).
Proof. intros H1. apply keeps_modify. auto. Qed.
Lemma keeps_EnqueueTx d st r t : other set_status_queue → keeps f (EnqueueTx d st r t).
Proof. intros H1. unfold EnqueueTx. keeps_tac. apply keeps_modify. auto. Qed.

End frames.

#[export] Hint Resolve keeps_Create keeps_RemoteCreate keeps_history keeps_UpdateState
  keeps_UpdatePDFState keeps_Update keeps_RemoteUpdate keeps_nt_Create keeps_nt_Reopen
  keeps_nt_RollForward keeps_nt_UpdateState keeps_n_Create keeps_UpsertDraft keeps_DeleteDraft
  keeps_MarkSuperseded keeps_CreateDeployment keeps_Acknowledge keeps_MarkDispatchFailed
  keeps_CreateKPI keeps_UpsertSettlement keeps_DeleteSettlementsBy keeps_UpsertWithdrawal
  keeps_EnqueueTx : tx.
#[export] Hint Extern 2 (keeps _ (ReviewTaskRepo.Create _ _ _ _)) => apply keeps_task_create; reflexivity : tx.
#[export] Hint Extern 2 (keeps _ (ReviewTaskRepo.ReopenTasks _)) => apply keeps_task_reopen; reflexivity : tx.
#[export] Hint Extern 2 (keeps _ (ReviewTaskRepo.UpdateState _ _ _)) => apply keeps_task_update; reflexivity : tx.
#[export] Hint Extern 2 (keeps _ (ApprovalTaskRepo.Create _ _ _ _)) => apply keeps_task_create; reflexivity : tx.
#[export] Hint Extern 2 (keeps _ (ApprovalTaskRepo.ReopenTasks _)) => apply keeps_task_reopen; reflexivity : tx.
#[export] Hint Extern 2 (keeps _ (ApprovalTaskRepo.UpdateState _ _ _)) => apply keeps_task_update; reflexivity : tx.
#[export] Hint Extern 2 (keeps _ (NegotiationRepo.Accept _ _)) => apply keeps_update_decisions; reflexivity : tx.
#[export] Hint Extern 2 (keeps _ (NegotiationRepo.Reject _ _ _)) => apply keeps_update_decisions; reflexivity : tx.

(** ** Columns that an update of the contracts table leaves alone *)

(** A column that is neither a revision clock nor the render cache. *)
Definition unstamped {A} (col : Contract → A) : Prop :=
  ∀ u n p c, col (with_stamps u n p c) = col c.

Lemma before_update_column {A} (col : Contract → A) now old new :
  unstamped col → col (contracts_before_update now old new) = col new.
Proof.
  intros H. unfold contracts_before_update, revision_trigger, content_trigger.
  repeat case_match; rewrite ?H; done.
Qed.

Lemma keeps_column_update_row {A} (col : Contract → A) did g :
  unstamped col → (∀ c, col (g c) = col c) → keeps (column col) (ContractRepo.update_row did g).
Proof.
  intros Hu Hg. apply keeps_modify. intros e s. unfold column. simpl. apply map_eq. intros i.
  rewrite !lookup_fmap. destruct (decide (i = did)) as [->|Hne].
  - rewrite lookup_alter_eq, <-option_fmap_compose.
    destruct (contracts s !! did) as [c|]; simpl; [|done].
    f_equal. unfold compose. by rewrite before_update_column, Hg.
  - by rewrite lookup_alter_ne.
Qed.

Lemma keeps_column_UpdateState {A} (col : Contract → A) did st :
  unstamped col → (∀ c, col (with_state st c) = col c) →
  keeps (column col) (ContractRepo.UpdateState did st).
Proof. apply keeps_column_update_row. Qed.

Lemma keeps_column_UpdatePDFState {A} (col : Contract → A) did p :
  unstamped col → keeps (column col) (ContractRepo.UpdatePDFState did p).
Proof. intros Hu. apply keeps_column_update_row; [done|]. intros c. apply Hu. Qed.

Lemma keeps_column_Update {A} (col : Contract → A) d :
  unstamped col → (∀ f c, ContractRepo.createQuery d = Some f → col (f c) = col c) →
  keeps (column col) (ContractRepo.Update d).
Proof.
  intros Hu Hf. unfold ContractRepo.Update.
  destruct (ContractRepo.createQuery d) as [f|] eqn:E; [|apply keeps_throw].
  apply keeps_column_update_row; [done|]. intros c. by apply Hf.
Qed.

Ltac column_update :=
  apply keeps_column_Update;
  [ intros ? ? ? ?; reflexivity
  | let f := fresh "f" in let c := fresh "c" in let H := fresh "H" in
    intros f c H; unfold ContractRepo.createQuery in H; simpl in H;
    repeat case_match; try discriminate H; injection H as <-; reflexivity ].
#[export] Hint Extern 1 (keeps (column _) (ContractRepo.Update _)) => column_update : tx.
#[export] Hint Extern 1 (keeps (column _) (ContractRepo.UpdateState _ _)) =>
  apply keeps_column_UpdateState; [intros ? ? ? ?; reflexivity | intros ?; reflexivity] : tx.
#[export] Hint Extern 1 (keeps (column _) (ContractRepo.UpdatePDFState _ _)) =>
  apply keeps_column_UpdatePDFState; intros ? ? ? ?; reflexivity : tx.

(** Every contract but [did]. *)
Definition elsewhere (did : string) (s : Store) : gmap string Contract := delete did (contracts s).

Lemma keeps_elsewhere_update_row did g : keeps (elsewhere did) (ContractRepo.update_row did g).
Proof. apply keeps_modify. intros e s. unfold elsewhere. simpl. by rewrite delete_alter_eq. Qed.

Lemma keeps_elsewhere_UpdatePDFState did p :
  keeps (elsewhere did) (ContractRepo.UpdatePDFState did p).
Proof. apply keeps_elsewhere_update_row. Qed.

Lemma keeps_elsewhere_Update did d :
  ContractRepo.u_did d = did → keeps (elsewhere did) (ContractRepo.Update d).
Proof.
  intros <-. unfold ContractRepo.Update. destruct (ContractRepo.createQuery d);
    [apply keeps_elsewhere_update_row|apply (keeps_throw (elsewhere _))].
Qed.
#[export] Hint Resolve keeps_elsewhere_UpdatePDFState : tx.
#[export] Hint Extern 1 (keeps (elsewhere _) (ContractRepo.Update _)) =>
  apply keeps_elsewhere_Update; reflexivity : tx.

Lemma elsewhere_lookup did s s' x :
  elsewhere did s' = elsewhere did s → x ≠ did → contracts s' !! x = contracts s !! x.
Proof.
  intros E Hne. apply (f_equal (.!! x)) in E. unfold elsewhere in E. by rewrite !lookup_delete_ne in E.
Qed.

(** The row of [did] after an update of it. *)
Lemma update_row_Ok did g e s u s' :
  ContractRepo.update_row did g e s = Ok (u, s') →
  s' = set_contracts (alter (λ c, contracts_before_update (env_now e) c (g c)) did) s.
Proof. apply modify_Ok. Qed.

(** The order in which the merge folds accepted requests is total. *)
#[global] Instance row_le_total : Total NegotiationRepo.row_le.
Proof.
  intros a b. unfold NegotiationRepo.row_le.
  destruct (Z.lt_total (n_created_at a) (n_created_at b)) as [H|[H|H]].
  - left. apply Z.ltb_lt in H. by rewrite H.
  - rewrite <-H, Z.ltb_irrefl, Z.eqb_refl. simpl. apply String.leb_total.
  - right. apply Z.ltb_lt in H. by rewrite H.
Qed.

#[global] Instance row_le_trans : Transitive NegotiationRepo.row_le.
Proof.
  intros a b c. unfold NegotiationRepo.row_le.
  rewrite !orb_true_iff, !andb_true_iff, !Z.ltb_lt, !Z.eqb_eq.
  intros [H1|[H1 S1]] [H2|[H2 S2]]; try (left; lia). right. split; [lia|].
  by eapply string_leb_trans.
Qed.

Lemma row_le_antisym a b :
  NegotiationRepo.row_le a b → NegotiationRepo.row_le b a → n_id a = n_id b.
Proof.
  unfold NegotiationRepo.row_le.
  rewrite !orb_true_iff, !andb_true_iff, !Z.ltb_lt, !Z.eqb_eq.
  intros [H1|[H1 S1]] [H2|[H2 S2]]; try lia. by apply String.leb_antisym.
Qed.

(** ** Taking a handler apart *)

(** A statement that only reads leaves the store it started from. *)
Ltac tx_read :=
  match goal with
  | H : ContractRepo.ReadDataByDID _ _ _ = Ok (_, _) |- _ =>
      apply ReadDataByDID_Ok in H as (? & ? & ? & ?); subst
  | H : ContractRepo.ReadProcessDataByDID _ _ _ = Ok (_, _) |- _ =>
      apply ReadProcessDataByDID_Ok in H as (? & ? & ? & ?); subst
  | H : ?m ?e ?s = Ok (_, ?s') |- _ =>
      is_var s';
      let E := fresh in
      assert (E : s' = s) by
        (let R := fresh in assert (R : reads m) by (solve [eauto with tx]); exact (R _ _ _ _ H));
      subst s'
  end.
Ltac run_inv := repeat (tx_step || tx_read).

(** For every statement of the run that leaves the projection [f] alone, the
    equation that says so. *)
Ltac frame f :=
  repeat match goal with
  | H : ?m ?e ?s = Ok (_, ?s') |- _ =>
      tryif constr_eq s s' then fail else
      lazymatch goal with
      | _ : f s' = f s |- _ => fail
      | _ =>
          let E := fresh "F" in
          assert (E : f s' = f s) by
            (let K := fresh in assert (K : keeps f m) by (solve [keeps_tac]); exact (K _ _ _ _ H))
      end
  end.

(** Chain the equations of [frame]. *)
Ltac framed := repeat match goal with F : ?f ?s' = ?f ?s |- context [?f ?s'] => rewrite F end.

(** ** What a handler does to the states *)

(** The stored states differ at most at [did], which stays or takes an edge of
    the table labelled [evt]. *)
Definition state_moves (did : string) (evt : Event) (s s' : Store) : Prop :=
  ∃ row new, contracts s !! did = Some row ∧
    column c_state s' = <[did := new]> (column c_state s) ∧
    (new = c_state row ∨ Edge (c_state row) evt new).

(** Every edge out of the effective state is an edge out of the stored state: a
    contract that reads EXPIRED can only be terminated, as it could before. *)
Lemma effective_edge now c evt new :
  Edge (effective_state now c) evt new → Edge (c_state c) evt new.
Proof.
  unfold effective_state. destruct (c_exp_date c) as [d|]; [|done].
  destruct (_ && _) eqn:E; [|done]. apply andb_true_iff in E as [_ E].
  rewrite <-!edge_b_iff. revert E. destruct (c_state c), evt, new; vm_compute; congruence.
Qed.

Lemma UpdateState_column did st e s row u s' :
  ContractRepo.UpdateState did st e s = Ok (u, s') → contracts s !! did = Some row →
  column c_state s' = <[did := st]> (column c_state s).
Proof.
  intros ->%update_row_Ok Hrow. unfold column. simpl. apply map_eq. intros i.
  rewrite lookup_fmap. destruct (decide (i = did)) as [->|Hne].
  - rewrite lookup_alter_eq, Hrow, lookup_insert_eq. simpl. by rewrite before_update_state.
  - rewrite lookup_alter_ne, lookup_insert_ne by done. by rewrite lookup_fmap.
Qed.

Lemma column_row {A} (col : Contract → A) s s' did row :
  column col s' = column col s → contracts s !! did = Some row →
  ∃ row', contracts s' !! did = Some row' ∧ col row' = col row.
Proof.
  intros E Hrow. apply (f_equal (.!! did)) in E. unfold column in E.
  rewrite !lookup_fmap, Hrow in E. destruct (contracts s' !! did) as [row'|] eqn:E'; [|done].
  injection E as E. eauto.
Qed.

Lemma state_stays did evt s s' row :
  contracts s !! did = Some row → column c_state s' = column c_state s → state_moves did evt s s'.
Proof.
  intros Hrow E. exists row, (c_state row). split; [done|]. split; [|by left].
  rewrite E, insert_id; [done|]. unfold column. by rewrite lookup_fmap, Hrow.
Qed.

(** [UpdateState] at the end of statements that keep the states. *)
Lemma state_moves_update did evt e s s1 s2 row st u :
  contracts s !! did = Some row → column c_state s1 = column c_state s →
  ContractRepo.UpdateState did st e s1 = Ok (u, s2) →
  (st = c_state row ∨ Edge (c_state row) evt st) → state_moves did evt s s2.
Proof.
  intros Hrow E HU Hst. destruct (column_row c_state s s1 did row E Hrow) as (row1 & H1 & _).
  exists row, st. split; [done|]. split; [|done]. by rewrite (UpdateState_column _ _ _ _ _ _ _ HU H1), E.
Qed.

Lemma state_moves_frame did evt s s' s'' :
  column c_state s'' = column c_state s' → state_moves did evt s s' → state_moves did evt s s''.
Proof. intros E (row & new & H1 & H2 & H3). exists row, new. by rewrite E. Qed.

(** The step of a handler that moves the state, by the lemma [lem] about it, with
    the rest framed. *)
Ltac moves_by lem :=
  frame (column c_state);
  match goal with H : _ |- _ =>
    eapply lem in H; [|eassumption|];
      [eapply state_moves_frame; [|exact H]; framed; reflexivity | framed; reflexivity]
  end.

(** The primary key of the contracts table and its non-empty check. *)
Definition keyed (s : Store) : Prop :=
  ∀ did c, contracts s !! did = Some c → c_did c = did ∧ did ≠ EmptyString.

Lemma insert_row_Ok row e s u s' :
  ContractRepo.insert_row row e s = Ok (u, s') →
  contracts s !! c_did row = None ∧ c_did row ≠ EmptyString ∧
  s' = set_contracts (insert (c_did row) row) s.
Proof.
  unfold ContractRepo.insert_row. intros HR. run_inv.
  match goal with H : ContractRepo.find _ _ _ = _ |- _ => apply gets_Ok in H as [-> _] end.
  match goal with H : check_not_empty _ _ _ _ = _ |- _ => apply refuse_Ok in H as [H _] end.
  bool_to_prop. destruct (contracts s !! c_did row); [done|]. apply modify_Ok in HR. done.
Qed.

(** The row that [Create] stores for [data] at [t]. *)
Definition created_row (data : Contract) (t : Z) : Contract :=
  {| c_did := c_did data; c_origin := c_origin data; c_contract_version := 1;
     c_state := c_state data; c_created_by := c_created_by data;
     c_created_at := c_created_at data; c_updated_at := t; c_start_date := None;
     c_exp_date := None; c_exp_policy := None; c_exp_notice_period := None;
     c_name := c_name data; c_description := c_description data;
     c_responsible := c_responsible data; c_contract_data := c_contract_data data;
     c_template_did := c_template_did data; c_template_version := c_template_version data;
     c_target_id := None; c_content_updated_at := t; c_pdf := no_pdf |}.

Lemma Create_Ok data e s u s' :
  ContractRepo.Create data e s = Ok (u, s') →
  contracts s !! c_did data = None ∧ c_did data ≠ EmptyString ∧
  s' = set_contracts (insert (c_did data) (created_row data (env_now e))) s.
Proof. unfold ContractRepo.Create. intros HR. run_inv. by apply insert_row_Ok in HR. Qed.

(** An update that names another contract. *)
Lemma Update_other d e s u s' did :
  ContractRepo.Update d e s = Ok (u, s') → did ≠ ContractRepo.u_did d →
  contracts s' !! did = contracts s !! did.
Proof.
  unfold ContractRepo.Update. destruct (ContractRepo.createQuery d); [|done].
  intros ->%update_row_Ok Hne. simpl. by rewrite lookup_alter_ne.
Qed.

(** What an update makes of the row it names. *)
Lemma Update_row d f e s u s' row :
  ContractRepo.createQuery d = Some f → ContractRepo.Update d e s = Ok (u, s') →
  contracts s !! ContractRepo.u_did d = Some row →
  contracts s' !! ContractRepo.u_did d = Some (contracts_before_update (env_now e) row (f row)).
Proof.
  unfold ContractRepo.Update. intros -> ->%update_row_Ok Hrow. simpl. by rewrite lookup_alter_eq, Hrow.
Qed.
