(* ===== verification/Sha256.v ===== *)
(** SHA-256 (crypto/sha256) and hexadecimal text (encoding/hex), executable, as
    the program uses them: the identifiers of seeded signature fields
    (Document.v), the content hash a deployment carries (Deployment.v) and the
    audit Merkle tree (Merkle.v).

    A byte is a [Z] in [0, 256), a word a [Z] in [0, 2^32) with its wrap-around
    written out. *)
From S2P Require Import Prelude.

Definition bytes := list Z.

Definition w32 (x : Z) : Z := Z.land x 4294967295.
Definition add32 (x y : Z) : Z := w32 (x + y).
Definition rotr (n x : Z) : Z := Z.lor (Z.shiftr x n) (w32 (Z.shiftl x (32 - n))).
Definition not32 (x : Z) : Z := Z.lxor x 4294967295.

Definition Ch (x y z : Z) : Z := Z.lxor (Z.land x y) (Z.land (not32 x) z).
Definition Maj (x y z : Z) : Z := Z.lxor (Z.lxor (Z.land x y) (Z.land x z)) (Z.land y z).
Definition Sigma0 (x : Z) : Z := Z.lxor (Z.lxor (rotr 2 x) (rotr 13 x)) (rotr 22 x).
Definition Sigma1 (x : Z) : Z := Z.lxor (Z.lxor (rotr 6 x) (rotr 11 x)) (rotr 25 x).
Definition sigma0 (x : Z) : Z := Z.lxor (Z.lxor (rotr 7 x) (rotr 18 x)) (Z.shiftr x 3).
Definition sigma1 (x : Z) : Z := Z.lxor (Z.lxor (rotr 17 x) (rotr 19 x)) (Z.shiftr x 10).

(** The constants by their definition (FIPS 180-4, 4.2.2 and 5.3.3): the first 32
    fractional bits of the square roots of the first 8 primes and of the cube
    roots of the first 64. *)
Definition prime (n : Z) : bool :=
  forallb (λ d, negb (n mod d =? 0)) (Z.of_nat <$> seq 2 (Z.to_nat n - 2)).
Definition primes : list Z := filter (λ n, prime n = true) (Z.of_nat <$> seq 2 310).

(** The integer cube root by bits: the largest [r] below [2^n] with [r^3 <= x]. *)
Fixpoint cbrt (n : nat) (x r : Z) : Z :=
  match n with
  | O => r
  | S n' => let r' := r + 2 ^ Z.of_nat n' in cbrt n' x (if r' ^ 3 <=? x then r' else r)
  end.

Definition K : list Z := Eval vm_compute in
  (λ p, w32 (cbrt 35 (p * 2 ^ 96) 0)) <$> take 64 primes.

(** The eight working variables. *)
Definition hash_state : Type := Z * Z * Z * Z * Z * Z * Z * Z.

Definition H0 : hash_state := Eval vm_compute in
  let h i := w32 (Z.sqrt (nth i primes 0 * 2 ^ 64)) in 
  (h 0%nat, h 1%nat, h 2%nat, h 3%nat, h 4%nat, h 5%nat, h 6%nat, h 7%nat).

(** The message schedule, newest word first: the 16 words of the block and then
    48 derived ones. *)
Fixpoint extend (n : nat) (w : list Z) : list Z :=
  match n with
  | O => w
  | S n' =>
      let v := add32 (add32 (sigma1 (nth 1 w 0)) (nth 6 w 0))
                 (add32 (sigma0 (nth 14 w 0)) (nth 15 w 0)) in
      extend n' (v :: w)
  end.

Definition round (s : hash_state) (k w : Z) : hash_state :=
  let '(a, b, c, d, e, f, g, h) := s in
  let t1 := add32 (add32 (add32 h (Sigma1 e)) (add32 (Ch e f g) k)) w in
  let t2 := add32 (Sigma0 a) (Maj a b c) in
  (add32 t1 t2, a, b, c, add32 d t1, e, f, g).

Fixpoint rounds (s : hash_state) (ks ws : list Z) : hash_state :=
  match ks, ws with
  | k :: ks', w :: ws' => rounds (round s k w) ks' ws'
  | _, _ => s
  end.

Definition add_state (x y : hash_state) : hash_state :=
  let '(a, b, c, d, e, f, g, h) := x in
  let '(a', b', c', d', e', f', g', h') := y in
  (add32 a a', add32 b b', add32 c c', add32 d d', add32 e e', add32 f f', add32 g g', add32 h h').

(** Big-endian words of a block. *)
Fixpoint words (n : nat) (bs : bytes) : list Z :=
  match n, bs with
  | S n', b0 :: b1 :: b2 :: b3 :: bs' =>
      Z.lor (Z.lor (Z.shiftl b0 24) (Z.shiftl b1 16)) (Z.lor (Z.shiftl b2 8) b3) :: words n' bs'
  | _, _ => []
  end.

Definition block (s : hash_state) (b : bytes) : hash_state :=
  add_state s (rounds s K (rev (extend 48 (rev (words 16 b))))).

Fixpoint blocks (n : nat) (s : hash_state) (bs : bytes) : hash_state :=
  match n with
  | O => s
  | S n' => blocks n' (block s (take 64 bs)) (drop 64 bs)
  end.

Fixpoint be_bytes (n : nat) (x : Z) : bytes :=
  match n with
  | O => []
  | S n' => Z.land (Z.shiftr x (8 * Z.of_nat n')) 255 :: be_bytes n' x
  end.

Definition pad (bs : bytes) : bytes :=
  let len := length bs in
  bs ++ [128] ++ replicate ((119 - len mod 64) mod 64)%nat 0 ++ be_bytes 8 (8 * Z.of_nat len).

Definition Sum256 (bs : bytes) : bytes :=
  let p := pad bs in
  let '(a, b, c, d, e, f, g, h) := blocks (length p / 64) H0 p in
  be_bytes 4 a ++ be_bytes 4 b ++ be_bytes 4 c ++ be_bytes 4 d ++
  be_bytes 4 e ++ be_bytes 4 f ++ be_bytes 4 g ++ be_bytes 4 h.

(** [[]byte(s)]. *)
Definition of_string (s : string) : bytes :=
  (λ c, Z.of_nat (Ascii.nat_of_ascii c)) <$> String.list_ascii_of_string s.

Definition hex_digit (n : Z) : ascii :=
  Ascii.ascii_of_nat (Z.to_nat (if n <? 10 then 48 + n else 87 + n)).

Fixpoint EncodeToString (bs : bytes) : string :=
  match bs with
  | [] => EmptyString
  | b :: bs' => String (hex_digit (b / 16)) (String (hex_digit (b mod 16)) (EncodeToString bs'))
  end.

(** ** Lemmas *)
Lemma length_be_bytes n x : length (be_bytes n x) = n.
Proof. induction n; simpl; auto. Qed.

Lemma be_bytes_range n x : Forall (λ b, 0 <= b < 256) (be_bytes n x).
Proof.
  induction n; simpl; constructor; [|done].
  change 255 with (Z.ones 8). rewrite Z.land_ones by lia. apply Z.mod_pos_bound. lia.
Qed.

Lemma length_Sum256 bs : length (Sum256 bs) = 32%nat.
Proof.
  unfold Sum256. destruct (blocks _ _ _) as [[[[[[[a b] c] d] e] f] g] h].
  rewrite !length_app, !length_be_bytes. done.
Qed.

Lemma Sum256_range bs : Forall (λ b, 0 <= b < 256) (Sum256 bs).
Proof.
  unfold Sum256. destruct (blocks _ _ _) as [[[[[[[a b] c] d] e] f] g] h].
  rewrite !Forall_app. repeat split; apply be_bytes_range.
Qed.

(** Padding fills whole blocks, so every byte of the message is hashed. *)
Lemma length_pad bs : (length (pad bs) mod 64 = 0)%nat.
Proof.
  unfold pad. rewrite !length_app, length_be_bytes, length_replicate. simpl length.
  generalize (length bs). intros n.
  pose proof (Nat.mod_upper_bound n 64 ltac:(lia)) as Hlt.
  pose proof (Nat.div_mod_eq n 64) as Hn.
  set (q := (n / 64)%nat) in *. set (r := (n mod 64)%nat) in *.
  destruct (decide (r < 56)%nat).
  - replace ((119 - r) mod 64)%nat with (55 - r)%nat.
    + replace (n + (1 + (55 - r + 8)))%nat with ((q + 1) * 64)%nat by lia.
      apply Nat.Div0.mod_mul.
    + replace (119 - r)%nat with (55 - r + 1 * 64)%nat by lia.
      rewrite Nat.Div0.mod_add. symmetry. apply Nat.mod_small. lia.
  - rewrite (Nat.mod_small (119 - r) 64) by lia.
    replace (n + (1 + (119 - r + 8)))%nat with ((q + 2) * 64)%nat by lia.
    apply Nat.Div0.mod_mul.
Qed.

(** The digests of the two test vectors of FIPS 180-4. *)
Example Sum256_abc :
  EncodeToString (Sum256 (of_string "abc")) =
  "ba7816bf8f01cfea414140de5dae2223b00361a396177a9cb410ff61f20015ad".
Proof. vm_compute. reflexivity. Qed.

Example Sum256_two_blocks :
  EncodeToString (Sum256 (of_string "abcdbcdecdefdefgefghfghighijhijkijkljklmklmnlmnomnopnopq")) =
  "248d6a61d20638b8e5c026930c3e6039a33ce45964ff2167f6ecedd419db06c1".
Proof. vm_compute. reflexivity. Qed.
