(* ===== verification/Merkle.v ===== *)
(** The Merkle tree over anchored audit entries: internal/base/merkle.go.

    Hashes travel as hexadecimal text; a leaf hash is decoded before it enters a
    level.  An index is a Go [int], with quotients truncated toward zero. *)
From S2P Require Import Prelude Sha256.

(** ** encoding/hex *)
Definition hex_nibble (c : ascii) : option Z :=
  let n := Z.of_nat (Ascii.nat_of_ascii c) in
  if (48 <=? n) && (n <=? 57) then Some (n - 48)
  else if (97 <=? n) && (n <=? 102) then Some (n - 87)
  else if (65 <=? n) && (n <=? 70) then Some (n - 55)
  else None.

Fixpoint DecodeString (s : string) : result bytes :=
  match s with
  | EmptyString => Ok []
  | String _ EmptyString => Err (Errorf "encoding/hex: odd length hex string")
  | String a (String b rest) =>
      match hex_nibble a, hex_nibble b with
      | Some x, Some y => tail ← DecodeString rest; Ok (16 * x + y :: tail)
      | _, _ => Err (Errorf "encoding/hex: invalid byte")
      end
  end.

(** ** merkle.go *)
Definition merkleLeafPrefix : bytes := [0].
Definition merkleNodePrefix : bytes := [1].

Definition MerkleLeafHash (data : bytes) : string := EncodeToString (Sum256 (merkleLeafPrefix ++ data)).

Definition merkleNode (left right : bytes) : bytes := Sum256 (merkleNodePrefix ++ left ++ right).

Fixpoint decode_leaves (leafHashes : list string) : result (list bytes) :=
  match leafHashes with
  | [] => Ok []
  | leaf :: rest =>
      raw ← wrap_err "leaf hash" (DecodeString leaf);
      level ← decode_leaves rest;
      Ok (raw :: level)
  end.

(** One turn of the outer loop: pairs are hashed, an odd last node is promoted. *)
Fixpoint next_level (level : list bytes) : list bytes :=
  match level with
  | a :: b :: rest => merkleNode a b :: next_level rest
  | _ => level
  end.

(** The outer loop of [MerkleRoot]; the length of the first level is fuel enough,
    as [root_loop_step] shows. *)
Fixpoint root_loop (fuel : nat) (level : list bytes) : bytes :=
  match fuel, level with
  | S fuel', _ :: _ :: _ => root_loop fuel' (next_level level)
  | _, a :: _ => a
  | _, [] => []
  end.

Definition MerkleRoot (leafHashes : list string) : result string :=
  match leafHashes with
  | [] => Err (Errorf "merkle root over no leaves")
  | _ => level ← decode_leaves leafHashes; Ok (EncodeToString (root_loop (length level) level))
  end.

(** The siblings of one turn, from position [i] on. *)
Fixpoint siblings (i index : Z) (level : list bytes) : list string :=
  match level with
  | a :: b :: rest =>
      (if (i =? index) || (i + 1 =? index)
       then [EncodeToString (if i + 1 =? index then a else b)] else [])
      ++ siblings (i + 2) index rest
  | _ => []
  end.

Fixpoint proof_loop (fuel : nat) (index : Z) (level : list bytes) : list string :=
  match fuel, level with
  | S fuel', _ :: _ :: _ =>
      siblings 0 index level ++ proof_loop fuel' (Z.quot index 2) (next_level level)
  | _, _ => []
  end.

Definition MerkleInclusionProof (leafHashes : list string) (index : Z) : result (list string) :=
  if (index <? 0) || (Z.of_nat (length leafHashes) <=? index)
  then Err (Errorf "leaf index out of range")
  else level ← decode_leaves leafHashes; Ok (proof_loop (length level) index level).

(** The loop of [VerifyMerkleInclusion]: the node reached and the proof left. *)
Fixpoint climb (fuel : nat) (size index : Z) (current : bytes) (proof : list string) :
    option (bytes * list string) :=
  match fuel with
  | O => Some (current, proof)
  | S fuel' =>
      if size <=? 1 then Some (current, proof) else
      let up := climb fuel' (Z.quot (size + 1) 2) (Z.quot index 2) in
      if negb (index =? size - 1) || (Z.rem size 2 =? 0) then
        match proof with
        | [] => None
        | sibling :: proof' =>
            match DecodeString sibling with
            | Err _ => None
            | Ok raw =>
                if Z.rem index 2 =? 0 then up (merkleNode current raw) proof'
                else up (merkleNode raw current) proof'
            end
        end
      else up current proof
  end.

Definition VerifyMerkleInclusion (leafHash : string) (proof : list string) (index leafCount : Z)
    (root : string) : bool :=
  match DecodeString leafHash with
  | Err _ => false
  | Ok current =>
      match climb (Z.to_nat leafCount) leafCount index current proof with
      | Some (reached, []) =>
          match DecodeString root with
          | Ok want => bool_decide (reached = want)
          | Err _ => false
          end
      | _ => false
      end
  end.

(** ** What is hashed on the way, for the soundness statement *)

(** The messages hashed by one turn and by all turns of [MerkleRoot]. *)
Fixpoint level_messages (level : list bytes) : list bytes :=
  match level with
  | a :: b :: rest => (merkleNodePrefix ++ a ++ b) :: level_messages rest
  | _ => []
  end.

Fixpoint tree_messages (fuel : nat) (level : list bytes) : list bytes :=
  match fuel, level with
  | S fuel', _ :: _ :: _ => level_messages level ++ tree_messages fuel' (next_level level)
  | _, _ => []
  end.

(** The messages the verifier hashes. *)
Fixpoint climb_messages (fuel : nat) (size index : Z) (current : bytes) (proof : list string) :
    list bytes :=
  match fuel with
  | O => []
  | S fuel' =>
      if size <=? 1 then [] else
      if negb (index =? size - 1) || (Z.rem size 2 =? 0) then
        match proof with
        | [] => []
        | sibling :: proof' =>
            match DecodeString sibling with
            | Err _ => []
            | Ok raw =>
                let message := merkleNodePrefix ++
                  (if Z.rem index 2 =? 0 then current ++ raw else raw ++ current) in
                message :: climb_messages fuel' (Z.quot (size + 1) 2) (Z.quot index 2)
                             (Sum256 message) proof'
            end
        end
      else climb_messages fuel' (Z.quot (size + 1) 2) (Z.quot index 2) current proof
  end.

(** The leaves of a checkpoint as they enter the tree. *)
Definition leaf_level (entries : list bytes) : list bytes :=
  (λ d, Sum256 (merkleLeafPrefix ++ d)) <$> entries.

Definition checkpoint_messages (entries : list bytes) : list bytes :=
  ((λ d, merkleLeafPrefix ++ d) <$> entries) ++ tree_messages (length entries) (leaf_level entries).

Definition verifier_messages (entry : bytes) (proof : list string) (index leafCount : Z) : list bytes :=
  (merkleLeafPrefix ++ entry) ::
  climb_messages (Z.to_nat leafCount) leafCount index (Sum256 (merkleLeafPrefix ++ entry)) proof.

(** ** Lemmas: hexadecimal text *)
Definition is_bytes (bs : bytes) : Prop := Forall (λ b, 0 <= b < 256) bs.

Lemma hex_nibble_digit n : 0 <= n < 16 → hex_nibble (hex_digit n) = Some n.
Proof.
  intros H. assert (n ∈ seqZ 0 16) as Hin by (apply elem_of_seqZ; lia).
  clear H. revert n Hin. apply Forall_forall.
  apply (bool_decide_unpack _). vm_compute. exact I.
Qed.

Lemma Decode_Encode bs : is_bytes bs → DecodeString (EncodeToString bs) = Ok bs.
Proof.
  induction 1 as [|b bs Hb _ IH]; [done|]. cbn [EncodeToString DecodeString].
  rewrite !hex_nibble_digit, IH; [simpl; f_equal; f_equal|..].
  - rewrite (Z.div_mod b 16) at 3 by lia. done.
  - pose proof (Z.mod_pos_bound b 16). lia.
  - split; [apply Z.div_pos; lia|apply Z.div_lt_upper_bound; lia].
Qed.

Lemma merkleNode_bytes a b : is_bytes (merkleNode a b).
Proof. apply Sum256_range. Qed.

Lemma Decode_leaf d : DecodeString (MerkleLeafHash d) = Ok (Sum256 (merkleLeafPrefix ++ d)).
Proof. apply Decode_Encode, Sum256_range. Qed.

Lemma decode_leaf_hashes entries :
  decode_leaves (MerkleLeafHash <$> entries) = Ok (leaf_level entries).
Proof.
  induction entries as [|d l IH]; [done|]. cbn [fmap list_fmap decode_leaves] in *.
  rewrite Decode_leaf, IH. done.
Qed.

(** ** Lemmas: one level of the tree *)
Lemma pair_ind {A} (P : list A → Prop) :
  P [] → (∀ a, P [a]) → (∀ a b l, P l → P (a :: b :: l)) → ∀ l, P l.
Proof.
  intros H0 H1 H2 l. assert (P l ∧ ∀ a, P (a :: l)) as [H _]; [|exact H].
  induction l as [|x l [IH1 IH2]]; split; auto.
Qed.

Lemma length_next_level level : length (next_level level) = ((length level + 1) / 2)%nat.
Proof.
  induction level as [|a|a b l IH] using pair_ind; [done|done|]. cbn [next_level length]. rewrite IH.
  replace (S (S (length l)) + 1)%nat with (length l + 1 + 1 * 2)%nat by lia.
  rewrite Nat.div_add by lia. lia.
Qed.

Lemma next_level_bytes level : Forall is_bytes level → Forall is_bytes (next_level level).
Proof.
  induction level as [|a|a b l IH] using pair_ind; intros H; [done|done|].
  rewrite !Forall_cons in H. cbn [next_level]. constructor; [apply merkleNode_bytes|naive_solver].
Qed.

Definition is_hash (h : bytes) : Prop := length h = 32%nat ∧ is_bytes h.

Lemma Sum256_hash x : is_hash (Sum256 x).
Proof. split; [apply length_Sum256|apply Sum256_range]. Qed.

Lemma next_level_hashes level : Forall is_hash level → Forall is_hash (next_level level).
Proof.
  induction level as [|a|a b l IH] using pair_ind; intros H; [done|done|].
  rewrite !Forall_cons in H. cbn [next_level]. constructor; [apply Sum256_hash|naive_solver].
Qed.

(** The node at [i] and the parent it has one level up. *)
Inductive parent_at (level : list bytes) (i : nat) : Prop :=
| promoted : i = (length level - 1)%nat → Nat.even (length level) = false →
    next_level level !! (i / 2)%nat = level !! i → parent_at level i
| left_child a b : Nat.even i = true → level !! i = Some a → level !! S i = Some b →
    (S i < length level)%nat →
    next_level level !! (i / 2)%nat = Some (merkleNode a b) →
    merkleNodePrefix ++ a ++ b ∈ level_messages level → parent_at level i
| right_child a b : Nat.even i = false → level !! (i - 1)%nat = Some a → level !! i = Some b →
    next_level level !! (i / 2)%nat = Some (merkleNode a b) →
    merkleNodePrefix ++ a ++ b ∈ level_messages level → parent_at level i.

Lemma has_parent level i : (i < length level)%nat → parent_at level i.
Proof.
  revert i. induction level as [|a|a b l IH] using pair_ind; intros i Hi; simpl in Hi; [lia| |].
  - replace i with 0%nat by lia. by apply promoted.
  - destruct i as [|[|i]].
    + eapply (left_child _ _ a b); [done|done|done|simpl; lia|done|left].
    + eapply (right_child _ _ a b); [done..|left].
    + assert (Hd : (S (S i) / 2 = S (i / 2))%nat).
      { replace (S (S i)) with (i + 1 * 2)%nat by lia. rewrite Nat.div_add by lia. lia. }
      destruct (IH i ltac:(lia)) as [E1 E2 E3|x y E1 E2 E3 E4 E5 E6|x y E1 E2 E3 E4 E5].
      * apply promoted; [simpl; lia|exact E2|rewrite Hd; exact E3].
      * eapply (left_child _ _ x y); [exact E1|exact E2|exact E3|simpl; lia|rewrite Hd; exact E5|by right].
      * eapply (right_child _ _ x y); [exact E1| |exact E3|rewrite Hd; exact E4|by right].
        destruct i as [|i]; [done|]. simpl in E2 |- *. by rewrite Nat.sub_0_r in E2.
Qed.

(** The node hashed with the one at [i], if any. *)
Definition sibling_of (level : list bytes) (i : nat) : option bytes :=
  if Nat.even i then level !! S i else level !! (i - 1)%nat.

Lemma siblings_before off index level : index < off → siblings off index level = [].
Proof.
  revert off. induction level as [|a|a b l IH] using pair_ind; intros off H; [done|done|].
  cbn [siblings]. rewrite (proj2 (Z.eqb_neq off index)), (proj2 (Z.eqb_neq (off + 1) index)) by lia.
  simpl. apply IH. lia.
Qed.

Lemma siblings_at off i level :
  (i < length level)%nat →
  siblings off (off + Z.of_nat i) level =
  match sibling_of level i with Some b => [EncodeToString b] | None => [] end.
Proof.
  revert off i. induction level as [|a|a b l IH] using pair_ind; intros off i Hi; simpl in Hi; [lia| |].
  - by replace i with 0%nat by lia.
  - cbn [siblings]. destruct i as [|[|i]].
    + rewrite (proj2 (Z.eqb_eq _ _)), (proj2 (Z.eqb_neq (off + 1) _)) by lia.
      cbn. rewrite siblings_before by lia. done.
    + rewrite (proj2 (Z.eqb_neq off _)), (proj2 (Z.eqb_eq (off + 1) _)) by lia.
      cbn. rewrite siblings_before by lia. done.
    + rewrite (proj2 (Z.eqb_neq off _)), (proj2 (Z.eqb_neq (off + 1) _)) by lia.
      replace (off + Z.of_nat (S (S i))) with (off + 2 + Z.of_nat i) by lia.
      rewrite (IH (off + 2)) by lia. simpl. unfold sibling_of.
      change (Nat.even (S (S i))) with (Nat.even i). destruct (Nat.even i) eqn:E; [done|].
      destruct i as [|i]; [done|]. simpl. by rewrite Nat.sub_0_r.
Qed.

Lemma quot_half n : Z.quot (Z.of_nat n) 2 = Z.of_nat (n / 2).
Proof. rewrite Z.quot_div_nonneg by lia. by rewrite Nat2Z.inj_div. Qed.

Lemma rem_even n : (Z.rem (Z.of_nat n) 2 =? 0) = Nat.even n.
Proof.
  rewrite Z.rem_mod_nonneg by lia. apply eq_true_iff_eq. rewrite Z.eqb_eq, Nat.even_spec.
  rewrite Z.mod_divide by lia. split.
  - intros [k Hk]. exists (Z.to_nat k). lia.
  - intros [k ->]. exists (Z.of_nat k). lia.
Qed.

(** The loop equations at a size the fuel covers. *)
Lemma climb_step fuel n i current proof :
  (1 < n)%nat →
  climb (S fuel) (Z.of_nat n) (Z.of_nat i) current proof =
  let up := climb fuel (Z.of_nat ((n + 1) / 2)) (Z.of_nat (i / 2)) in
  if negb (Nat.eqb i (n - 1)) || Nat.even n then
    match proof with
    | [] => None
    | sibling :: proof' =>
        match DecodeString sibling with
        | Err _ => None
        | Ok raw => if Nat.even i then up (merkleNode current raw) proof'
                    else up (merkleNode raw current) proof'
        end
    end
  else up current proof.
Proof.
  intros Hn. cbn [climb]. rewrite (proj2 (Z.leb_gt _ _)) by lia.
  replace (Z.of_nat n + 1) with (Z.of_nat (n + 1)) by lia. rewrite !quot_half, !rem_even.
  replace (Z.of_nat i =? Z.of_nat n - 1) with (Nat.eqb i (n - 1)); [done|].
  apply eq_true_iff_eq. rewrite Nat.eqb_eq, Z.eqb_eq. lia.
Qed.

Lemma climb_messages_step fuel n i current proof :
  (1 < n)%nat →
  climb_messages (S fuel) (Z.of_nat n) (Z.of_nat i) current proof =
  let up := climb_messages fuel (Z.of_nat ((n + 1) / 2)) (Z.of_nat (i / 2)) in
  if negb (Nat.eqb i (n - 1)) || Nat.even n then
    match proof with
    | [] => []
    | sibling :: proof' =>
        match DecodeString sibling with
        | Err _ => []
        | Ok raw =>
            let message := merkleNodePrefix ++ (if Nat.even i then current ++ raw else raw ++ current) in
            message :: up (Sum256 message) proof'
        end
    end
  else up current proof.
Proof.
  intros Hn. cbn [climb_messages]. rewrite (proj2 (Z.leb_gt _ _)) by lia.
  replace (Z.of_nat n + 1) with (Z.of_nat (n + 1)) by lia. rewrite !quot_half, !rem_even.
  replace (Z.of_nat i =? Z.of_nat n - 1) with (Nat.eqb i (n - 1)); [done|].
  apply eq_true_iff_eq. rewrite Nat.eqb_eq, Z.eqb_eq. lia.
Qed.

(** Each turn at least halves the level, so the fuel of the loops is enough. *)
Lemma half_below n fuel : (1 < n)%nat → (n <= S fuel)%nat → ((n + 1) / 2 <= fuel)%nat.
Proof.
  intros H1 H2. enough ((n + 1) / 2 < S fuel)%nat by lia. apply Nat.Div0.div_lt_upper_bound. lia.
Qed.

Lemma long_level (level : list bytes) :
  (1 < length level)%nat → ∃ a b l, level = a :: b :: l.
Proof. destruct level as [|a [|b l]]; simpl; [lia|lia|eauto]. Qed.

(** What the verifier does at a node with a sibling, and without. *)
Lemma root_loop_step fuel level :
  (1 < length level)%nat → root_loop (S fuel) level = root_loop fuel (next_level level).
Proof. by intros (a & b & l & ->)%long_level. Qed.

Lemma proof_loop_step fuel level i :
  (1 < length level)%nat → (i < length level)%nat →
  proof_loop (S fuel) (Z.of_nat i) level =
  match sibling_of level i with Some b => [EncodeToString b] | None => [] end
  ++ proof_loop fuel (Z.of_nat (i / 2)) (next_level level).
Proof.
  intros Hl Hi. rewrite <-(siblings_at 0) by done. rewrite Z.add_0_l, <-quot_half.
  by apply long_level in Hl as (a & b & l & ->).
Qed.

Lemma lone_node fuel n i current proof :
  (n <= 1)%nat → climb fuel (Z.of_nat n) (Z.of_nat i) current proof = Some (current, proof).
Proof.
  intros Hn. destruct fuel; [done|]. cbn [climb]. by rewrite (proj2 (Z.leb_le _ _)) by lia.
Qed.

(** The extracted proof carries any node of any level up to the root. *)
Lemma climb_proof fuel level i current :
  Forall is_bytes level → (length level <= fuel)%nat → level !! i = Some current →
  climb fuel (Z.of_nat (length level)) (Z.of_nat i) current (proof_loop fuel (Z.of_nat i) level)
  = Some (root_loop fuel level, []).
Proof.
  revert level i current. induction fuel as [|fuel IH]; intros level i current Hb Hl Hi.
  { destruct level; [done|simpl in Hl; lia]. }
  pose proof (lookup_lt_Some _ _ _ Hi) as Hlt.
  destruct (decide (1 < length level)%nat) as [Hn|Hn].
  2:{ destruct level as [|x [|y l]]; simpl in *; [done| |lia]. destruct i; [|done].
      injection Hi as ->. done. }
  rewrite climb_step, root_loop_step, proof_loop_step by done.
  assert (IH' := λ j c, IH (next_level level) j c (next_level_bytes _ Hb)).
  rewrite length_next_level in IH'. cbv zeta.
  destruct (has_parent level i Hlt) as [E1 E2 E3|a b E1 E2 E3 E4 E5 _|a b E1 E2 E3 E4 _].
  - rewrite E1, Nat.eqb_refl, E2. cbn [negb orb].
    assert (sibling_of level i = None) as Hs.
    { unfold sibling_of. destruct (Nat.even i) eqn:Ei; [apply lookup_ge_None; lia|]. exfalso.
      rewrite E1 in Ei. rewrite <-Nat.negb_odd in E2, Ei.
      destruct (length level) as [|m]; [simpl in Hn; lia|]. simpl in Ei. rewrite Nat.sub_0_r in Ei.
      rewrite Nat.odd_succ in E2. rewrite <-Nat.negb_odd in E2.
      by destruct (Nat.odd m). }
    rewrite <-E1, Hs. cbn [app]. apply IH'; [by apply half_below|]. by rewrite E3.
  - unfold sibling_of. rewrite E1, E3. cbn [app].
    replace (Nat.eqb i (length level - 1)) with false by (symmetry; apply Nat.eqb_neq; lia).
    cbn [negb orb].
    rewrite Decode_Encode by (eapply Forall_lookup_1; eauto).
    rewrite Hi in E2. injection E2 as ->. apply IH'; [by apply half_below|done].
  - unfold sibling_of. rewrite E1, E2. cbn [app].
    assert (negb (Nat.eqb i (length level - 1)) || Nat.even (length level) = true) as ->.
    { destruct (Nat.eqb_spec i (length level - 1)) as [Hlast|]; [|done]. simpl.
      replace (length level) with (S i) by lia. rewrite Nat.even_succ.
      rewrite <-Nat.negb_even, E1. done. }
    rewrite Decode_Encode by (eapply Forall_lookup_1; eauto).
    rewrite Hi in E3. injection E3 as ->. apply IH'; [by apply half_below|done].
Qed.

(** Two different messages, one of each list, with the same digest. *)
Definition collide (l k : list bytes) : Prop :=
  ∃ x y, x ∈ l ∧ y ∈ k ∧ x ≠ y ∧ Sum256 x = Sum256 y.

Lemma collide_mono l l' k k' : l ⊆ l' → k ⊆ k' → collide l k → collide l' k'.
Proof. intros H1 H2 (x & y & Hx & Hy & H). exists x, y. split; [auto|]. split; auto. Qed.

Lemma tree_messages_step fuel level :
  (1 < length level)%nat →
  tree_messages (S fuel) level = level_messages level ++ tree_messages fuel (next_level level).
Proof. by intros (a & b & l & ->)%long_level. Qed.

(** A message of the verifier against one of the same turn of the tree. *)
Lemma collide_here x l y k k' :
  y ∈ k → Sum256 x = Sum256 y → x ≠ y → collide (x :: l) (k ++ k').
Proof. intros Hy E Hne. exists x, y. split; [left|]. split; [|done]. apply elem_of_app. by left. Qed.

Lemma collide_later x l k k' : collide l k' → collide (x :: l) (k ++ k').
Proof. apply collide_mono; [by apply list_subseteq_cons|by apply list_subseteq_app_r]. Qed.

Lemma split_left (a b c d : bytes) :
  length a = length c → merkleNodePrefix ++ a ++ b = merkleNodePrefix ++ c ++ d → a = c.
Proof. intros H E. simplify_eq/=. by apply app_inj_1 in E as [-> _]. Qed.

Lemma split_right (a b c d : bytes) :
  length b = length d → merkleNodePrefix ++ a ++ b = merkleNodePrefix ++ c ++ d → b = d.
Proof. intros H E. simplify_eq/=. by apply app_inj_2 in E as [_ ->]. Qed.

Lemma climb_sound fuel level i current proof :
  Forall is_hash level → (length level <= fuel)%nat → (i < length level)%nat → is_hash current →
  climb fuel (Z.of_nat (length level)) (Z.of_nat i) current proof = Some (root_loop fuel level, []) →
  level !! i = Some current ∨
  collide (climb_messages fuel (Z.of_nat (length level)) (Z.of_nat i) current proof)
          (tree_messages fuel level).
Proof.
  revert level i current proof. induction fuel as [|fuel IH]; intros level i current proof Hh Hl Hi Hc.
  { destruct level; simpl in *; lia. }
  destruct (decide (1 < length level)%nat) as [Hn|Hn].
  2:{ rewrite lone_node by lia. destruct level as [|x [|y l]]; simpl in Hi, Hn; [lia| |lia].
      intros [= ->]. left. by replace i with 0%nat by lia. }
  rewrite climb_step, climb_messages_step, root_loop_step, tree_messages_step by done.
  assert (IH' := λ c p, IH (next_level level) (i / 2)%nat c p (next_level_hashes _ Hh)).
  rewrite length_next_level in IH'.
  assert (Hi' : (i / 2 < (length level + 1) / 2)%nat).
  { pose proof (Nat.div_mod_eq i 2). pose proof (Nat.mod_upper_bound i 2).
    pose proof (Nat.div_mod_eq (length level + 1) 2). pose proof (Nat.mod_upper_bound (length level + 1) 2).
    lia. }
  assert (Hf := half_below _ fuel Hn Hl). cbv zeta.
  destruct (_ || _) eqn:Econd.
  - destruct proof as [|sibling proof']; [done|]. destruct (DecodeString sibling) as [raw|]; [|done].
    destruct (has_parent level i Hi) as [E1 E2 E3|a b E1 E2 E3 E4 E5 E6|a b E1 E2 E3 E4 E5].
    + rewrite E1, Nat.eqb_refl, E2 in Econd. done.
    + rewrite E1. intros [H|H]%IH'; [|right|done|done|apply Sum256_hash].
      2:{ by apply collide_later. }
      rewrite E5 in H. injection H as H.
      destruct (decide (merkleNodePrefix ++ a ++ b = merkleNodePrefix ++ current ++ raw)) as [Hs|Hs].
      * left. rewrite E2. f_equal. eapply split_left; [|exact Hs].
        destruct (Forall_lookup_1 _ _ _ _ Hh E2) as [-> _]. symmetry. apply Hc.
      * right. eapply collide_here; [exact E6|by symmetry|by apply not_eq_sym].
    + rewrite E1. intros [H|H]%IH'; [|right|done|done|apply Sum256_hash].
      2:{ by apply collide_later. }
      rewrite E4 in H. injection H as H.
      destruct (decide (merkleNodePrefix ++ a ++ b = merkleNodePrefix ++ raw ++ current)) as [Hs|Hs].
      * left. rewrite E3. f_equal. eapply split_right; [|exact Hs].
        destruct (Forall_lookup_1 _ _ _ _ Hh E3) as [-> _]. symmetry. apply Hc.
      * right. eapply collide_here; [exact E5|by symmetry|by apply not_eq_sym].
  - destruct (has_parent level i Hi) as [E1 E2 E3|a b E1 E2 E3 E4 E5 E6|a b E1 E2 E3 E4 E5].
    + intros [H|H]%IH'; [left|right|done|done|done].
      * by rewrite <-E3.
      * revert H. apply collide_mono; [done|]. by apply list_subseteq_app_r.
    + apply orb_false_iff in Econd as [Econd _]. apply negb_false_iff, Nat.eqb_eq in Econd. lia.
    + exfalso. apply orb_false_iff in Econd as [Econd Ev]. apply negb_false_iff, Nat.eqb_eq in Econd.
      replace (length level) with (S i) in Ev by lia. rewrite Nat.even_succ, <-Nat.negb_even, E1 in Ev.
      done.
Qed.

Lemma hex_nibble_range c n : hex_nibble c = Some n → 0 <= n < 16.
Proof.
  unfold hex_nibble. repeat case_match; try done; intros [= <-]; bool_to_prop; lia.
Qed.

Lemma DecodeString_bytes s bs : DecodeString s = Ok bs → is_bytes bs.
Proof.
  revert bs. assert (∀ n s bs, (String.length s <= n)%nat → DecodeString s = Ok bs → is_bytes bs) as H.
  2:{ intros bs. by apply (H (String.length s)). }
  clear s. induction n as [|n IH]; intros s bs Hn.
  { destruct s; [|simpl in Hn; lia]. intros [= <-]. constructor. }
  destruct s as [|a [|b rest]]; simpl; [intros [= <-]; constructor|done|].
  destruct (hex_nibble a) as [x|] eqn:Ea; [|done]. destruct (hex_nibble b) as [y|] eqn:Eb; [|done].
  destruct (DecodeString rest) as [tail|] eqn:Er; [|done]. simpl. intros [= <-]. constructor.
  - apply hex_nibble_range in Ea, Eb. lia.
  - apply (IH rest); [simpl in Hn; lia|done].
Qed.

Lemma decode_leaves_spec leaves level :
  decode_leaves leaves = Ok level → Forall is_bytes level ∧ Forall2 (λ l b, DecodeString l = Ok b) leaves level.
Proof.
  revert level. induction leaves as [|leaf rest IH]; intros level; simpl; [by intros [= <-]|].
  destruct (DecodeString leaf) as [raw|] eqn:Er; [|done]. simpl.
  destruct (decode_leaves rest) as [l|]; [|done]. simpl. intros [= <-].
  destruct (IH l eq_refl) as [H1 H2]. split; constructor; auto. by eapply DecodeString_bytes.
Qed.

Lemma MerkleRoot_Ok leaves root :
  MerkleRoot leaves = Ok root →
  ∃ level, decode_leaves leaves = Ok level ∧ level ≠ [] ∧
    root = EncodeToString (root_loop (length level) level).
Proof.
  destruct leaves as [|leaf rest]; [done|]. unfold MerkleRoot.
  destruct (decode_leaves (leaf :: rest)) as [level|] eqn:E; [|done]. simpl. intros [= <-].
  exists level. split; [done|]. split; [|done]. apply decode_leaves_spec in E as [_ H]. by inversion H.
Qed.

Lemma root_loop_bytes fuel level : Forall is_bytes level → is_bytes (root_loop fuel level).
Proof.
  revert level. induction fuel as [|fuel IH]; intros level H; destruct level as [|a [|b l]];
    simpl; try (by inversion H); try constructor; try (by inversion H).
  apply IH. change (merkleNode a b :: next_level l) with (next_level (a :: b :: l)).
  by apply next_level_bytes.
Qed.

(** The proof of a leaf climbs to the root of its level. *)
Lemma level_proof_verifies leaves level leaf i :
  decode_leaves leaves = Ok level → leaves !! i = Some leaf →
  MerkleInclusionProof leaves (Z.of_nat i) = Ok (proof_loop (length level) (Z.of_nat i) level) ∧
  VerifyMerkleInclusion leaf (proof_loop (length level) (Z.of_nat i) level) (Z.of_nat i)
    (Z.of_nat (length leaves)) (EncodeToString (root_loop (length level) level)) = true.
Proof.
  intros Hd Hi. destruct (decode_leaves_spec _ _ Hd) as [Hb H2].
  destruct (Forall2_lookup_l _ _ _ _ _ H2 Hi) as (current & Hcur & Hdec).
  pose proof (lookup_lt_Some _ _ _ Hi) as Hlt. pose proof (Forall2_length _ _ _ H2) as Hlen.
  unfold MerkleInclusionProof, VerifyMerkleInclusion.
  rewrite (proj2 (Z.ltb_ge _ _)), (proj2 (Z.leb_gt _ _)), Hd, Hdec, Nat2Z.id by lia.
  split; [done|]. rewrite Hlen, climb_proof by done.
  rewrite Decode_Encode by (by apply root_loop_bytes). by apply bool_decide_eq_true.
Qed.

(** C11: Completeness of inclusion proofs: for any batch of leaf hashes with a root
    and any position of it, an inclusion proof exists and the verifier accepts it
    for the leaf at that position, whatever the size of the batch (levels with an
    odd node included). *)
Theorem merkle_proofs_verify (leaves : list string) (root leaf : string) (i : nat) :
  MerkleRoot leaves = Ok root → leaves !! i = Some leaf →
  ∃ proof, MerkleInclusionProof leaves (Z.of_nat i) = Ok proof ∧
    VerifyMerkleInclusion leaf proof (Z.of_nat i) (Z.of_nat (length leaves)) root = true.
Proof.
  intros (level & Hd & _ & ->)%MerkleRoot_Ok Hi. eexists. by apply level_proof_verifies.
Qed.

Definition demo_entries : list bytes := of_string <$> ["a"; "b"; "c"].
Definition demo_leaves : list string := MerkleLeafHash <$> demo_entries.
Definition demo_root : string := Eval vm_compute in
  match MerkleRoot demo_leaves with Ok r => r | Err _ => EmptyString end.
Definition demo_proof : list string := Eval vm_compute in
  match MerkleInclusionProof demo_leaves 2 with Ok p => p | Err _ => [] end.

Lemma merkle_proofs_verify_witness :
  ∃ proof, MerkleInclusionProof demo_leaves 2 = Ok proof ∧
    VerifyMerkleInclusion (MerkleLeafHash (of_string "c")) proof 2 3 demo_root = true.
Proof.
  apply (merkle_proofs_verify demo_leaves demo_root _ 2); [vm_compute; reflexivity|reflexivity].
Defined.

(** C10: Soundness of inclusion proofs: a proof that verifies for an entry, at a
    position of a timestamped checkpoint, shows that the entry is the one anchored
    at that position; otherwise the messages hashed by the verifier and those
    hashed for the checkpoint contain two different ones with the same SHA-256
    digest.  No proof can pass an inner node off as an entry. *)
Theorem merkle_proofs_are_sound (entries : list bytes) (entry : bytes) (root : string)
    (proof : list string) (i : nat) :
  MerkleRoot (MerkleLeafHash <$> entries) = Ok root → (i < length entries)%nat →
  VerifyMerkleInclusion (MerkleLeafHash entry) proof (Z.of_nat i) (Z.of_nat (length entries)) root = true →
  entries !! i = Some entry ∨
  collide (verifier_messages entry proof (Z.of_nat i) (Z.of_nat (length entries)))
          (checkpoint_messages entries).
Proof.
  intros (level & Hd & _ & ->)%MerkleRoot_Ok Hi.
  rewrite decode_leaf_hashes in Hd. injection Hd as <-.
  assert (Hl : length (leaf_level entries) = length entries) by apply length_fmap.
  assert (Hh : Forall is_hash (leaf_level entries)).
  { apply Forall_fmap, Forall_forall. intros; apply Sum256_hash. }
  unfold VerifyMerkleInclusion. rewrite Decode_leaf.
  rewrite Decode_Encode by (apply root_loop_bytes; eapply Forall_impl; [exact Hh|by intros x []]).
  rewrite Nat2Z.id. destruct (climb _ _ _ _ _) as [[reached []]|] eqn:Eclimb; try done.
  intros ->%bool_decide_eq_true. rewrite <-Hl in Eclimb at 2.
  rewrite Hl in Eclimb. rewrite <-Hl in Eclimb. apply climb_sound in Eclimb; [|done|done|lia|apply Sum256_hash].
  rewrite Hl in Eclimb. unfold verifier_messages, checkpoint_messages. rewrite Nat2Z.id.
  destruct Eclimb as [Hleaf|Hc]; [|right; by apply collide_later].
  unfold leaf_level in Hleaf. apply list_lookup_fmap_Some in Hleaf as (entry' & E & Hin).
  destruct (decide (merkleLeafPrefix ++ entry = merkleLeafPrefix ++ entry')) as [Hs|Hs].
  - left. simplify_eq/=. done.
  - right. eapply collide_here; [|exact E|exact Hs]. apply list_elem_of_fmap. exists entry'.
    split; [done|]. by eapply list_elem_of_lookup_2.
Qed.

Lemma merkle_proofs_are_sound_witness :
  demo_entries !! 2%nat = Some (of_string "c") ∨
  collide (verifier_messages (of_string "c") demo_proof 2 3) (checkpoint_messages demo_entries).
Proof.
  apply (merkle_proofs_are_sound demo_entries (of_string "c") demo_root demo_proof 2);
    [vm_compute; reflexivity|simpl; lia|vm_compute; reflexivity].
Defined.

(** The verifier does not compare the index with the leaf count: a proof for the
    second of two entries also verifies at index 3. *)
Example an_index_outside_the_batch_verifies :
  let leaves := MerkleLeafHash <$> (of_string <$> ["a"; "b"]) in
  match MerkleRoot leaves, MerkleInclusionProof leaves 1 with
  | Ok root, Ok proof => VerifyMerkleInclusion (MerkleLeafHash (of_string "b")) proof 3 2 root
  | _, _ => false
  end = true.
Proof. vm_compute. reflexivity. Qed.
