(* ===== verification/Envelope.v ===== *)
(** The content-encryption-key envelope: internal/base/envelope/envelope.go.

    RFC 3394 key wrap with its 64-bit register, the Concat KDF, the ephemeral key
    as a JWK, and the content layout are definitions; the AES block cipher, GCM,
    the P-256 group and randomness are an interface. *)
From S2P Require Import Prelude Sha256 Merkle.
Import GoStrings.

(** ** Cryptographic services *)
Definition point : Type := Z * Z.

Class CryptoServices := {
  aes_encrypt : bytes → bytes → bytes;
  aes_decrypt : bytes → bytes → bytes;
  (** [AEAD.Seal] and [AEAD.Open]: key, nonce, text, additional data. *)
  gcm_seal : bytes → bytes → bytes → bytes → bytes;
  gcm_open : bytes → bytes → bytes → bytes → option bytes;
  on_curve : point → bool;
  public_key : Z → point;
  (** The shared secret of a private key and a public one. *)
  ecdh : Z → point → bytes
}.

Definition is_block (b : bytes) : Prop := length b = 16%nat ∧ is_bytes b.

Class CryptoServicesLaws `{CryptoServices} := {
  aes_encrypt_block k b : length k = 32%nat → is_block b → is_block (aes_encrypt k b);
  aes_decrypt_block k b : length k = 32%nat → is_block b → is_block (aes_decrypt k b);
  aes_decrypt_encrypt k b : length k = 32%nat → is_block b → aes_decrypt k (aes_encrypt k b) = b;
  aes_encrypt_decrypt k b : length k = 32%nat → is_block b → aes_encrypt k (aes_decrypt k b) = b;
  gcm_open_seal k n p aad : gcm_open k n (gcm_seal k n p aad) aad = Some p;
  gcm_seal_length k n p aad : length (gcm_seal k n p aad) = (length p + 16)%nat;
  public_key_on_curve k : on_curve (public_key k) = true;
  public_key_range k : 0 <= (public_key k).1 < 2 ^ 256 ∧ 0 <= (public_key k).2 < 2 ^ 256;
  ecdh_comm a b : ecdh a (public_key b) = ecdh b (public_key a)
}.

(** ** encoding/base64, raw URL alphabet *)
Definition b64_digit (n : Z) : ascii :=
  Ascii.ascii_of_nat (Z.to_nat (
    if n <? 26 then 65 + n else if n <? 52 then 71 + n else if n <? 62 then n - 4
    else if n =? 62 then 45 else 95)).

Definition b64_value (c : ascii) : option Z :=
  let n := Z.of_nat (Ascii.nat_of_ascii c) in
  if (65 <=? n) && (n <=? 90) then Some (n - 65)
  else if (97 <=? n) && (n <=? 122) then Some (n - 71)
  else if (48 <=? n) && (n <=? 57) then Some (n + 4)
  else if n =? 45 then Some 62
  else if n =? 95 then Some 63
  else None.

Fixpoint b64_digits (bs : bytes) : list Z :=
  match bs with
  | a :: b :: c :: rest =>
      let v := a * 65536 + b * 256 + c in
      v / 262144 :: v / 4096 mod 64 :: v / 64 mod 64 :: v mod 64 :: b64_digits rest
  | [a; b] => let v := a * 65536 + b * 256 in [v / 262144; v / 4096 mod 64; v / 64 mod 64]
  | [a] => let v := a * 65536 in [v / 262144; v / 4096 mod 64]
  | [] => []
  end.

Definition RawURL_Encode (bs : bytes) : string :=
  String.string_of_list_ascii (b64_digit <$> b64_digits bs).

Fixpoint b64_bytes (ds : list Z) : option bytes :=
  match ds with
  | a :: b :: c :: d :: rest =>
      let v := a * 262144 + b * 4096 + c * 64 + d in
      tail ← b64_bytes rest;
      Some (v / 65536 :: v / 256 mod 256 :: v mod 256 :: tail)
  | [a; b; c] => let v := a * 262144 + b * 4096 + c * 64 in Some [v / 65536; v / 256 mod 256]
  | [a; b] => let v := a * 262144 + b * 4096 in Some [v / 65536]
  | [_] => None
  | [] => Some []
  end.

(** Line ends are skipped; trailing bits are not looked at. *)
Definition RawURL_Decode (s : string) : result bytes :=
  let text := filter (λ c, c ∉ [Ascii.ascii_of_nat 10; Ascii.ascii_of_nat 13]) (String.list_ascii_of_string s) in
  match mapM b64_value text ≫= b64_bytes with
  | Some bs => Ok bs
  | None => Err (Errorf "illegal base64 data")
  end.

(** ** envelope.go *)
Definition Alg : string := "ECDH-ES+A256KW".
Definition cekLen : nat := 32.
Definition nonceLen : nat := 12.
Definition kwIV : Z := 12008468691120727718.

Record EphemeralPublicKey := { Kty : string; Crv : string; X : string; Y : string }.

Record WrappedCEK := { w_Alg : string; w_KID : string; w_EPK : EphemeralPublicKey; w_Wrapped : bytes }.

(** Big-endian numbers. *)
Definition be_value (bs : bytes) : Z := foldl (λ acc b, acc * 256 + b) 0 bs.

Definition xor64 (a t : Z) : Z := Z.lxor a (t mod 2 ^ 64).

(** The first [n] runs of 8 bytes. *)
Fixpoint runs (n : nat) (bs : bytes) : list bytes :=
  match n with O => [] | S n' => take 8 bs :: runs n' (drop 8 bs) end.

(** The rounds of the wrap, outer index first. *)
Definition rounds_of (n : nat) : list (nat * nat) :=
  mjoin ((λ j, (λ i, (j, i)) <$> seq 1 n) <$> seq 0 6).

Definition round_counter (n : nat) (ji : nat * nat) : Z := Z.of_nat n * Z.of_nat ji.1 + Z.of_nat ji.2.

Definition valid_aes_key (k : bytes) : bool := bool_decide (length k ∈ [16; 24; 32]%nat).

Section Envelope.
Context `{CryptoServices}.

(** The loop bodies, on the register [a] and the runs [r]. *)
Definition wrap_round (kek : bytes) (n : nat) (s : Z * list bytes) (ji : nat * nat) : Z * list bytes :=
  let b := aes_encrypt kek (be_bytes 8 s.1 ++ default [] (s.2 !! (ji.2 - 1)%nat)) in
  (xor64 (be_value (take 8 b)) (round_counter n ji), <[(ji.2 - 1)%nat := drop 8 b]> s.2).

Definition unwrap_round (kek : bytes) (n : nat) (s : Z * list bytes) (ji : nat * nat) : Z * list bytes :=
  let b := aes_decrypt kek (be_bytes 8 (xor64 s.1 (round_counter n ji)) ++ default [] (s.2 !! (ji.2 - 1)%nat)) in
  (be_value (take 8 b), <[(ji.2 - 1)%nat := drop 8 b]> s.2).

Definition keyWrap (kek cek : bytes) : result bytes :=
  if negb (valid_aes_key kek) then Err (Errorf "init wrap cipher") else
  let n := (length cek / 8)%nat in
  let '(a, r) := foldl (wrap_round kek n) (kwIV, runs n cek) (rounds_of n) in
  Ok (be_bytes 8 a ++ concat r ++ replicate (length cek mod 8) 0).

Definition keyUnwrap (kek wrapped : bytes) : result bytes :=
  if negb (bool_decide (length wrapped = (8 + cekLen)%nat)) then Err (Errorf "wrapped cek must be 40 bytes")
  else if negb (valid_aes_key kek) then Err (Errorf "init wrap cipher") else
  let n := ((length wrapped - 8) / 8)%nat in
  let '(a, r) := foldl (unwrap_round kek n) (be_value (take 8 wrapped), runs n (drop 8 wrapped))
                   (reverse (rounds_of n)) in
  if negb (a =? kwIV) then Err (Errorf "unwrap cek: integrity check failed") else Ok (concat r).

Definition writeLenPrefixed (data : bytes) : bytes := be_bytes 4 (Z.of_nat (length data)) ++ data.

Definition concatKDF (z : bytes) : bytes :=
  Sum256 (be_bytes 4 1 ++ z ++ writeLenPrefixed (of_string Alg) ++ writeLenPrefixed [] ++ writeLenPrefixed [] ++
          be_bytes 4 (Z.of_nat (cekLen * 8))).

Definition publicKey (epk : EphemeralPublicKey) : result point :=
  if negb (bool_decide (Kty epk = "EC")) || negb (bool_decide (Crv epk = "P-256"))
  then Err (Errorf "unsupported epk (only EC P-256)") else
  xBytes ← wrap_err "decoding x" (RawURL_Decode (X epk));
  yBytes ← wrap_err "decoding y" (RawURL_Decode (Y epk));
  let pub := (be_value xBytes, be_value yBytes) in
  if on_curve pub then Ok pub else Err (Errorf "epk not on P-256").

(** [ephemeral] is the generated private key; [None] for [recipient] is a missing
    key or one of another curve. *)
Definition Wrap (ephemeral : result Z) (cek : bytes) (recipientMethodID : string) (recipient : option point) :
    result WrappedCEK :=
  if negb (bool_decide (length cek = cekLen)) then Err (Errorf "cek must be 32 bytes")
  else if bool_decide (TrimSpace recipientMethodID = EmptyString)
  then Err (Errorf "the recipient's key-agreement verification method must be named") else
  match recipient with
  | None => Err (Errorf "recipient public key must be ECDSA P-256")
  | Some pub =>
      if negb (on_curve pub) then Err (Errorf "recipient public key") else
      eph ← wrap_err "generate ephemeral key" ephemeral;
      wrapped ← keyWrap (concatKDF (ecdh eph pub)) cek;
      let p := public_key eph in
      Ok {| w_Alg := Alg; w_KID := recipientMethodID;
            w_EPK := {| Kty := "EC"; Crv := "P-256"; X := RawURL_Encode (be_bytes 32 p.1);
                        Y := RawURL_Encode (be_bytes 32 p.2) |};
            w_Wrapped := wrapped |}
  end.

(** [agreement] is [KeyAgreement.DeriveECDH]. *)
Definition Unwrap (w : option WrappedCEK) (agreement : point → result bytes) : result bytes :=
  match w with
  | None => Err (Errorf "wrapped cek is nil")
  | Some w =>
      if negb (bool_decide (w_Alg w = Alg)) then Err (Errorf "unsupported wrap algorithm") else
      epk ← wrap_err "ephemeral public key" (publicKey (w_EPK w));
      z ← wrap_err "derive shared secret" (agreement epk);
      keyUnwrap (concatKDF z) (w_Wrapped w)
  end.

(** [nonce] is what [rand.Read] drew. *)
Definition Encrypt (nonce : result bytes) (cek plaintext : bytes) (scopeID : string) : result bytes :=
  if negb (bool_decide (length cek = cekLen)) then Err (Errorf "cek must be 32 bytes") else
  n ← wrap_err "generate nonce" nonce;
  Ok (n ++ gcm_seal cek n plaintext (of_string scopeID)).

Definition Decrypt (cek blob : bytes) (scopeID : string) : result bytes :=
  if negb (bool_decide (length cek = cekLen)) then Err (Errorf "cek must be 32 bytes")
  else if (length blob <? nonceLen + 16)%nat then Err (Errorf "ciphertext too short") else
  match gcm_open cek (take nonceLen blob) (drop nonceLen blob) (of_string scopeID) with
  | Some plaintext => Ok plaintext
  | None => Err (Errorf "decrypt content")
  end.

End Envelope.

(** ** Big-endian numbers *)
Lemma pow256 n : 2 ^ (8 * Z.of_nat n) = 256 ^ Z.of_nat n.
Proof. rewrite Z.pow_mul_r by lia. done. Qed.

Lemma be_value_cons b bs : be_value (b :: bs) = b * 256 ^ Z.of_nat (length bs) + be_value bs.
Proof.
  unfold be_value. assert (Hacc : ∀ l acc, foldl (λ acc b, acc * 256 + b) acc l =
    acc * 256 ^ Z.of_nat (length l) + foldl (λ acc b, acc * 256 + b) 0 l).
  { induction l as [|x l IH]; intros acc; [cbn; lia|]. cbn [foldl]. rewrite IH, (IH (0 * 256 + x)).
    cbn [length]. rewrite Nat2Z.inj_succ, Z.pow_succ_r by lia. ring. }
  cbn [foldl]. rewrite Hacc. ring.
Qed.

Lemma be_value_range bs : is_bytes bs → 0 <= be_value bs < 256 ^ Z.of_nat (length bs).
Proof.
  induction 1 as [|b bs Hb _ IH]; [cbn; lia|]. rewrite be_value_cons. cbn [length].
  rewrite Nat2Z.inj_succ, Z.pow_succ_r by lia. nia.
Qed.

Lemma low_byte x : Z.land x 255 = x mod 256.
Proof. change 255 with (Z.ones 8). by rewrite Z.land_ones by lia. Qed.

Lemma be_bytes_step n x : be_bytes (S n) x = (x / 256 ^ Z.of_nat n) mod 256 :: be_bytes n x.
Proof. cbn [be_bytes]. by rewrite low_byte, Z.shiftr_div_pow2, pow256 by lia. Qed.

Lemma be_bytes_shift n b x : be_bytes n (b * 256 ^ Z.of_nat n + x) = be_bytes n x.
Proof.
  assert (Hk : ∀ k, (k <= n)%nat → be_bytes k (b * 256 ^ Z.of_nat n + x) = be_bytes k x); [|by apply Hk].
  induction k as [|k IH]; intros Hk; [done|]. rewrite !be_bytes_step, IH by lia. f_equal.
  replace (Z.of_nat n) with (Z.of_nat k + (1 + Z.of_nat (n - k - 1))) by lia.
  rewrite Z.pow_add_r, (Z.pow_add_r 256 1) by lia. set (q := 256 ^ Z.of_nat (n - k - 1)).
  rewrite Z.pow_1_r. replace (b * (256 ^ Z.of_nat k * (256 * q)) + x) with (b * 256 * q * 256 ^ Z.of_nat k + x) by ring.
  rewrite Z.div_add_l by (apply Z.pow_nonzero; lia).
  replace (b * 256 * q + x / 256 ^ Z.of_nat k) with (x / 256 ^ Z.of_nat k + b * q * 256) by ring. by rewrite Z.mod_add.
Qed.

Lemma be_bytes_value bs : is_bytes bs → be_bytes (length bs) (be_value bs) = bs.
Proof.
  induction 1 as [|b bs Hb Hbs IH]; [done|]. rewrite be_value_cons. cbn [length]. rewrite be_bytes_step, be_bytes_shift, IH.
  f_equal. pose proof (be_value_range bs Hbs). rewrite Z.div_add_l by (apply Z.pow_nonzero; lia).
  rewrite Z.div_small, Z.add_0_r, Z.mod_small by lia. done.
Qed.

Lemma be_value_bytes n x : 0 <= x < 256 ^ Z.of_nat n → be_value (be_bytes n x) = x.
Proof.
  revert x. induction n as [|n IH]; intros x Hx; [cbn in *; lia|]. rewrite be_bytes_step, be_value_cons, length_be_bytes.
  rewrite Nat2Z.inj_succ, Z.pow_succ_r in Hx by lia.
  assert (Hp : 0 < 256 ^ Z.of_nat n) by (apply Z.pow_pos_nonneg; lia).
  assert (Hlow : be_bytes n x = be_bytes n (x mod 256 ^ Z.of_nat n)).
  { rewrite (Z.div_mod x (256 ^ Z.of_nat n)) at 1 by lia. rewrite Z.mul_comm. apply be_bytes_shift. }
  rewrite Hlow, IH by (apply Z.mod_pos_bound; lia).
  rewrite (Z.mod_small (x / _)) by (split; [apply Z.div_pos; lia|apply Z.div_lt_upper_bound; lia]).
  rewrite (Z.div_mod x (256 ^ Z.of_nat n)) at 3 by lia. ring.
Qed.

(** ** The 64-bit register *)
Definition word64 (a : Z) : Prop := 0 <= a < 2 ^ 64.

Lemma word64_bytes a : word64 a → be_value (be_bytes 8 a) = a.
Proof. apply (be_value_bytes 8). Qed.

Lemma xor64_involutive a t : xor64 (xor64 a t) t = a.
Proof. unfold xor64. by rewrite Z.lxor_assoc, Z.lxor_nilpotent, Z.lxor_0_r. Qed.

Lemma xor64_word a t : word64 a → word64 (xor64 a t).
Proof.
  unfold word64, xor64. intros Ha. pose proof (Z.mod_pos_bound t (2 ^ 64) ltac:(lia)) as Ht.
  set (u := t mod 2 ^ 64) in *. split; [apply Z.lxor_nonneg; lia|].
  destruct (decide (Z.lxor a u = 0)) as [->|Hz]; [lia|].
  apply Z.log2_lt_pow2; [pose proof (Z.lxor_nonneg a u); lia|].
  eapply Z.le_lt_trans; [apply Z.log2_lxor; lia|].
  assert (Hlog : ∀ x, 0 <= x < 2 ^ 64 → Z.log2 x < 64).
  { intros x Hx. destruct (decide (x = 0)) as [->|]; [done|]. apply Z.log2_lt_pow2; lia. }
  apply Z.max_lub_lt; by apply Hlog.
Qed.

(** ** Runs of 8 bytes *)
Definition well_formed (n : nat) (s : Z * list bytes) : Prop :=
  word64 s.1 ∧ length s.2 = n ∧ Forall (λ b, length b = 8%nat ∧ is_bytes b) s.2.

Lemma runs_concat n bs : length bs = (8 * n)%nat → concat (runs n bs) = bs.
Proof.
  revert bs. induction n as [|n IH]; intros bs Hl; [by destruct bs|]. cbn [runs concat].
  rewrite IH by (rewrite length_drop; lia). apply take_drop.
Qed.

Lemma concat_runs rs : Forall (λ b : bytes, length b = 8%nat) rs → runs (length rs) (concat rs) = rs.
Proof.
  induction 1 as [|b rs Hb _ IH]; [done|]. cbn [length runs concat].
  rewrite take_app_length', drop_app_length', IH by done. done.
Qed.

Lemma runs_well_formed n bs : length bs = (8 * n)%nat → is_bytes bs →
  length (runs n bs) = n ∧ Forall (λ b, length b = 8%nat ∧ is_bytes b) (runs n bs).
Proof.
  revert bs. induction n as [|n IH]; intros bs Hl Hb; [done|]. cbn [runs].
  destruct (IH (drop 8 bs)) as [H2 H3]; [rewrite length_drop; lia|by apply Forall_drop|].
  split; [cbn; lia|]. constructor; [|done]. split; [rewrite length_take; lia|by apply Forall_take].
Qed.

(** ** The rounds of the key wrap *)
Section Rounds.
Context `{CryptoServicesLaws} (kek : bytes) (n : nat) (Hkek : length kek = 32%nat).

Definition in_range (ji : nat * nat) : Prop := (1 <= ji.2 <= n)%nat.

Lemma register_block a b : word64 a → length b = 8%nat → is_bytes b → is_block (be_bytes 8 a ++ b).
Proof. intros Ha Hl Hb. split; [by rewrite length_app, length_be_bytes, Hl|]. apply Forall_app. split; [apply be_bytes_range|done]. Qed.

Lemma run_at s ji : well_formed n s → in_range ji →
  ∃ b, s.2 !! (ji.2 - 1)%nat = Some b ∧ length b = 8%nat ∧ is_bytes b.
Proof.
  intros (_ & Hl & Hr) Hji. unfold in_range in Hji.
  destruct (lookup_lt_is_Some_2 s.2 (ji.2 - 1)%nat) as [b Hb]; [lia|]. exists b. split; [done|].
  by apply (proj1 (Forall_lookup _ _) Hr _ _ Hb).
Qed.

(** A block is its first 8 bytes as a number and the other 8. *)
Lemma block_halves b : is_block b →
  be_bytes 8 (be_value (take 8 b)) ++ drop 8 b = b ∧ word64 (be_value (take 8 b)) ∧
  length (drop 8 b) = 8%nat ∧ is_bytes (drop 8 b).
Proof.
  intros [Hl Hb]. assert (Ht : length (take 8 b) = 8%nat) by (rewrite length_take; lia).
  assert (Hbt : is_bytes (take 8 b)) by by apply Forall_take. pose proof (be_bytes_value _ Hbt) as Hv.
  rewrite Ht in Hv. rewrite Hv. split; [apply take_drop|]. split.
  - pose proof (be_value_range _ Hbt) as Hr. by rewrite Ht in Hr.
  - split; [rewrite length_drop; lia|by apply Forall_drop].
Qed.

Lemma well_formed_insert i a b s : well_formed n s → word64 a → length b = 8%nat → is_bytes b →
  well_formed n (a, <[i := b]> s.2).
Proof. intros (_ & Hl & Hr) Ha Hb Hbb. split; [done|]. cbn. rewrite length_insert. split; [done|]. by apply Forall_insert. Qed.

Lemma wrap_round_wf s ji : well_formed n s → in_range ji → well_formed n (wrap_round kek n s ji).
Proof.
  intros Hs Hji. destruct (run_at s ji Hs Hji) as (b & Hb & Hl & Hbb). unfold wrap_round. rewrite Hb. cbn [default id].
  destruct (block_halves (aes_encrypt kek (be_bytes 8 s.1 ++ b))) as (_ & Ha & Hd & Hdb).
  { apply aes_encrypt_block, register_block; try done. apply Hs. }
  apply well_formed_insert; try done. by apply xor64_word.
Qed.

Lemma unwrap_round_wf s ji : well_formed n s → in_range ji → well_formed n (unwrap_round kek n s ji).
Proof.
  intros Hs Hji. destruct (run_at s ji Hs Hji) as (b & Hb & Hl & Hbb). unfold unwrap_round. rewrite Hb. cbn [default id].
  destruct (block_halves (aes_decrypt kek (be_bytes 8 (xor64 s.1 (round_counter n ji)) ++ b))) as (_ & Ha & Hd & Hdb).
  { apply aes_decrypt_block, register_block; try done. apply xor64_word, Hs. }
  by apply well_formed_insert.
Qed.

Lemma unwrap_wrap_round s ji : well_formed n s → in_range ji → unwrap_round kek n (wrap_round kek n s ji) ji = s.
Proof.
  intros Hs Hji. destruct (run_at s ji Hs Hji) as (b & Hb & Hl & Hbb). unfold wrap_round. rewrite Hb. cbn [default id].
  assert (Hblock : is_block (be_bytes 8 s.1 ++ b)) by (apply register_block; try done; apply Hs).
  set (c := aes_encrypt kek (be_bytes 8 s.1 ++ b)).
  destruct (block_halves c) as (Hc & _); [by apply aes_encrypt_block|].
  unfold unwrap_round. cbn [fst snd]. rewrite xor64_involutive, list_lookup_insert_eq by (by eapply lookup_lt_Some).
  change (default [] (Some (drop 8 c))) with (drop 8 c). rewrite Hc. unfold c. rewrite aes_decrypt_encrypt by done.
  rewrite take_app_length', drop_app_length' by by rewrite length_be_bytes.
  rewrite word64_bytes, list_insert_insert_eq, list_insert_id by (done || apply Hs). by destruct s.
Qed.

Lemma wrap_unwrap_round s ji : well_formed n s → in_range ji → wrap_round kek n (unwrap_round kek n s ji) ji = s.
Proof.
  intros Hs Hji. destruct (run_at s ji Hs Hji) as (b & Hb & Hl & Hbb). unfold unwrap_round. rewrite Hb. cbn [default id].
  set (x := xor64 s.1 (round_counter n ji)). assert (Hx : word64 x) by (apply xor64_word, Hs).
  assert (Hblock : is_block (be_bytes 8 x ++ b)) by by apply register_block.
  set (c := aes_decrypt kek (be_bytes 8 x ++ b)).
  destruct (block_halves c) as (Hc & _); [by apply aes_decrypt_block|].
  unfold wrap_round. cbn [fst snd]. rewrite list_lookup_insert_eq by (by eapply lookup_lt_Some).
  change (default [] (Some (drop 8 c))) with (drop 8 c). rewrite Hc. unfold c. rewrite aes_encrypt_decrypt by done.
  rewrite take_app_length', drop_app_length' by by rewrite length_be_bytes.
  rewrite word64_bytes, list_insert_insert_eq, list_insert_id by done. unfold x. rewrite xor64_involutive. by destruct s.
Qed.

Lemma unwrap_all l s : Forall in_range l → well_formed n s →
  foldl (unwrap_round kek n) (foldl (wrap_round kek n) s l) (reverse l) = s.
Proof.
  intros Hl. revert s. induction Hl as [|ji l Hji _ IH]; intros s Hs; [done|].
  rewrite reverse_cons, foldl_app. cbn [foldl]. rewrite IH by by apply wrap_round_wf. by apply unwrap_wrap_round.
Qed.

Lemma wrap_all_wf l s : Forall in_range l → well_formed n s → well_formed n (foldl (wrap_round kek n) s l).
Proof. intros Hl. revert s. induction Hl; intros s Hs; [done|]. cbn [foldl]. by apply IHHl, wrap_round_wf. Qed.

Lemma unwrap_all_wf l s : Forall in_range l → well_formed n s → well_formed n (foldl (unwrap_round kek n) s l).
Proof. intros Hl. revert s. induction Hl; intros s Hs; [done|]. cbn [foldl]. by apply IHHl, unwrap_round_wf. Qed.

Lemma wrap_all l s : Forall in_range l → well_formed n s →
  foldl (wrap_round kek n) (foldl (unwrap_round kek n) s (reverse l)) l = s.
Proof.
  intros Hl. revert s. induction Hl as [|ji l Hji Hl IH]; intros s Hs; [done|].
  rewrite reverse_cons, foldl_app. cbn [foldl]. rewrite wrap_unwrap_round; [by apply IH| |done].
  apply unwrap_all_wf; [by rewrite Forall_reverse|done].
Qed.

Lemma rounds_in_range : Forall in_range (rounds_of n).
Proof.
  clear Hkek. apply Forall_forall. intros [j i] (l & Hin & (j' & -> & _)%list_elem_of_fmap)%list_elem_of_join.
  apply list_elem_of_fmap in Hin as (i' & [= -> ->] & Hi). apply elem_of_seq in Hi. unfold in_range. cbn. lia.
Qed.

End Rounds.

Section Facts.
Context `{CryptoServicesLaws}.

Lemma keyWrap_Ok kek cek : length kek = 32%nat → length cek = cekLen → is_bytes cek →
  ∃ a r, foldl (wrap_round kek 4) (kwIV, runs 4 cek) (rounds_of 4) = (a, r) ∧ well_formed 4 (a, r) ∧
    keyWrap kek cek = Ok (be_bytes 8 a ++ concat r).
Proof.
  intros Hk Hl Hb. unfold keyWrap, valid_aes_key. rewrite Hk, Hl. cbn [cekLen].
  change (32 / 8)%nat with 4%nat. change (32 mod 8)%nat with 0%nat.
  destruct (foldl _ _ _) as [a r] eqn:E. exists a, r. split; [done|]. split.
  - rewrite <-E. apply wrap_all_wf; [done|apply rounds_in_range|]. split; [done|]. by apply runs_well_formed.
  - cbn. by rewrite app_nil_r.
Qed.

Lemma keyUnwrap_eq kek blob : length kek = 32%nat → length blob = 40%nat →
  keyUnwrap kek blob =
    let s := foldl (unwrap_round kek 4) (be_value (take 8 blob), runs 4 (drop 8 blob)) (reverse (rounds_of 4)) in
    if negb (s.1 =? kwIV) then Err (Errorf "unwrap cek: integrity check failed") else Ok (concat s.2).
Proof.
  intros Hk Hl. unfold keyUnwrap, valid_aes_key. rewrite Hl, Hk.
  rewrite (bool_decide_eq_true_2 (40%nat = _)) by done. rewrite (bool_decide_eq_true_2 (_ ∈ _)) by set_solver.
  cbn [negb]. change ((40 - 8) / 8)%nat with 4%nat. by destruct (foldl _ _ _).
Qed.

Lemma unwrap_start_wf blob : length blob = 40%nat → is_bytes blob →
  well_formed 4 (be_value (take 8 blob), runs 4 (drop 8 blob)).
Proof.
  intros Hl Hb. assert (Ht : length (take 8 blob) = 8%nat) by (rewrite length_take; lia).
  split; [|apply runs_well_formed; [rewrite length_drop; lia|by apply Forall_drop]].
  pose proof (be_value_range (take 8 blob) (Forall_take _ _ _ Hb)) as Hv. by rewrite Ht in Hv.
Qed.

(** A blob is its register and its runs. *)
Lemma blob_parts blob a r : length blob = 40%nat → is_bytes blob →
  (be_value (take 8 blob), runs 4 (drop 8 blob)) = (a, r) → be_bytes 8 a ++ concat r = blob.
Proof.
  intros Hl Hb [= <- <-]. assert (Ht : length (take 8 blob) = 8%nat) by (rewrite length_take; lia).
  pose proof (be_bytes_value (take 8 blob) (Forall_take _ _ _ Hb)) as Hv. rewrite Ht in Hv. rewrite Hv.
  change (take 8 blob ++ concat (runs 4 (drop 8 blob)) = blob).
  rewrite runs_concat by (rewrite length_drop; lia). apply take_drop.
Qed.

Lemma parts_of_blob a r : well_formed 4 (a, r) →
  (be_value (take 8 (be_bytes 8 a ++ concat r)), runs 4 (drop 8 (be_bytes 8 a ++ concat r))) = (a, r).
Proof.
  intros (Ha & Hl & Hr). cbn [fst snd] in *. rewrite take_app_length', drop_app_length' by by rewrite length_be_bytes.
  rewrite word64_bytes by done. f_equal. rewrite <-Hl. apply concat_runs. eapply Forall_impl; [exact Hr|]. by intros ? [].
Qed.

Lemma runs_of_key r : length r = 4%nat → Forall (λ b : bytes, length b = 8%nat ∧ is_bytes b) r →
  runs 4 (concat r) = r ∧ length (concat r) = 32%nat.
Proof.
  intros Hl Hr. assert (Hr8 : Forall (λ b : bytes, length b = 8%nat) r) by (eapply Forall_impl; [exact Hr|]; by intros ? []).
  split; [rewrite <-Hl; by apply concat_runs|]. 
  enough (He : length (concat r) = (8 * length r)%nat) by (by rewrite He, Hl). clear Hr Hl.
  induction Hr8 as [|b r Hb _ IH]; [done|]. cbn [concat length]. rewrite length_app, Hb, IH. lia.
Qed.

Lemma keyUnwrap_keyWrap kek cek : length kek = 32%nat → length cek = cekLen → is_bytes cek →
  ∃ w, keyWrap kek cek = Ok w ∧ keyUnwrap kek w = Ok cek.
Proof.
  intros Hk Hl Hb. destruct (keyWrap_Ok kek cek Hk Hl Hb) as (a & r & Ef & Hwf & ->).
  eexists. split; [done|]. pose proof Hwf as (Ha & Hlr & Hr). cbn [fst snd] in *.
  destruct (runs_of_key r Hlr Hr) as [_ Hcr].
  rewrite keyUnwrap_eq by (try done; by rewrite length_app, length_be_bytes, Hcr).
  rewrite parts_of_blob by done. rewrite <-Ef, unwrap_all; [|done|apply rounds_in_range|split; [done|by apply runs_well_formed]].
  cbn [fst snd]. rewrite Z.eqb_refl. cbn [negb]. by rewrite runs_concat.
Qed.

(** C18: The key wrap is exact.  Under any 256-bit wrapping key, for every block
    cipher that inverts its encryption, wrapping a 32-byte key succeeds with a
    40-byte blob, and a 40-byte blob unwraps to a key exactly when it is that
    key's wrap: unwrapping recovers what was wrapped, and no other blob of bytes
    passes the integrity check for it.  (The register arithmetic is modulo
    2^64.) *)
Theorem key_wrap_is_exact kek cek blob :
  length kek = 32%nat → length cek = cekLen → is_bytes cek → length blob = 40%nat → is_bytes blob →
  (∃ w, keyWrap kek cek = Ok w ∧ length w = 40%nat) ∧
  (keyUnwrap kek blob = Ok cek ↔ keyWrap kek cek = Ok blob).
Proof.
  intros Hk Hl Hb Hlb Hbb. destruct (keyWrap_Ok kek cek Hk Hl Hb) as (a & r & Ef & Hwf & ->).
  pose proof Hwf as (Ha & Hlr & Hr). cbn [fst snd] in *. destruct (runs_of_key r Hlr Hr) as [_ Hcr].
  split; [eexists; split; [done|]; by rewrite length_app, length_be_bytes, Hcr|].
  rewrite keyUnwrap_eq by done. pose proof (unwrap_start_wf blob Hlb Hbb) as Hstart.
  pose proof (rounds_in_range 4) as Hrange. cbv zeta. split.
  - set (s := foldl (unwrap_round kek 4) _ _). assert (Hs : well_formed 4 s).
    { apply unwrap_all_wf; [done|by rewrite Forall_reverse|done]. }
    destruct (s.1 =? kwIV) eqn:Eiv; [|done]. apply Z.eqb_eq in Eiv. cbn [negb]. intros E.
    assert (Ecek : concat s.2 = cek) by congruence. f_equal. destruct Hs as (_ & Hls & Hrs).
    destruct (runs_of_key s.2 Hls Hrs) as [Hruns _]. apply blob_parts; [done..|]. rewrite <-Ef, <-Ecek, Hruns, <-Eiv.
    rewrite <-surjective_pairing. unfold s. by rewrite wrap_all.
  - intros E. destruct (keyUnwrap_keyWrap kek cek Hk Hl Hb) as (w & Ew & Eu).
    rewrite <-keyUnwrap_eq by done. destruct (keyWrap_Ok kek cek Hk Hl Hb) as (a' & r' & Ef' & _ & Ew'). congruence.
Qed.

End Facts.

(** ** Round trips *)
Lemma b64_digit_value n : 0 <= n < 64 →
  b64_value (b64_digit n) = Some n ∧ b64_digit n ∉ [Ascii.ascii_of_nat 10; Ascii.ascii_of_nat 13].
Proof.
  intros Hn. assert (Hall : Forall (λ k : nat, b64_value (b64_digit (Z.of_nat k)) = Some (Z.of_nat k) ∧
    b64_digit (Z.of_nat k) ∉ [Ascii.ascii_of_nat 10; Ascii.ascii_of_nat 13]) (seq 0 64)).
  { apply (bool_decide_unpack _). by vm_compute. }
  rewrite Forall_forall in Hall. specialize (Hall (Z.to_nat n)). rewrite Z2Nat.id in Hall by lia.
  apply Hall, elem_of_seq. lia.
Qed.

(** Three bytes at a time. *)
Lemma triples_ind (P : bytes → Prop) :
  P [] → (∀ a, P [a]) → (∀ a b, P [a; b]) → (∀ a b c rest, P rest → P (a :: b :: c :: rest)) → ∀ bs, P bs.
Proof.
  intros H0 H1 H2 H3. fix IH 1. intros [|a [|b [|c rest]]]; [done|apply H1|apply H2|apply H3, IH].
Qed.

Ltac to_div_mod := Z.div_mod_to_equations; lia.

Lemma b64_digits_range bs : is_bytes bs → Forall (λ d, 0 <= d < 64) (b64_digits bs).
Proof.
  induction bs as [|a|a b|a b c rest IH] using triples_ind; intros Hb; [constructor|..];
    unfold is_bytes in *; repeat match goal with H : Forall _ (_ :: _) |- _ => apply Forall_cons in H as [? H] end;
    cbn [b64_digits]; cbv zeta; repeat (apply Forall_cons; split; [to_div_mod|]). all: try apply Forall_nil; auto.
Qed.

Lemma b64_bytes_digits bs : is_bytes bs → b64_bytes (b64_digits bs) = Some bs.
Proof.
  induction bs as [|a|a b|a b c rest IH] using triples_ind; intros Hb; [done|..];
    unfold is_bytes in *; repeat match goal with H : Forall _ (_ :: _) |- _ => apply Forall_cons in H as [? H] end; cbn [b64_digits b64_bytes].
  - do 2 f_equal. to_div_mod.
  - do 2 f_equal; [to_div_mod|f_equal; to_div_mod].
  - rewrite IH by done. cbn. do 2 f_equal; [to_div_mod|f_equal; [to_div_mod|f_equal; to_div_mod]].
Qed.

Lemma RawURL_roundtrip bs : is_bytes bs → RawURL_Decode (RawURL_Encode bs) = Ok bs.
Proof.
  intros Hb. unfold RawURL_Decode, RawURL_Encode. rewrite String.list_ascii_of_string_of_list_ascii.
  pose proof (b64_digits_range bs Hb) as Hr.
  assert (Hf : ∀ ds, Forall (λ d, 0 <= d < 64) ds →
    filter (λ c, c ∉ [Ascii.ascii_of_nat 10; Ascii.ascii_of_nat 13]) (b64_digit <$> ds) = b64_digit <$> ds ∧
    mapM b64_value (b64_digit <$> ds) = Some ds).
  { induction 1 as [|d ds Hd _ [IH1 IH2]]; [done|]. destruct (b64_digit_value d Hd) as [Hv Hn].
    rewrite fmap_cons, filter_cons_True, IH1 by done. cbn [mapM]. by rewrite Hv, IH2. }
  destruct (Hf _ Hr) as [-> ->]. cbn. by rewrite b64_bytes_digits.
Qed.

Section RoundTrips.
Context `{CryptoServicesLaws}.

#[local] Arguments be_bytes : simpl never.

Lemma length_concatKDF z : length (concatKDF z) = 32%nat.
Proof. apply length_Sum256. Qed.

Lemma publicKey_of k : 
  publicKey {| Kty := "EC"; Crv := "P-256"; X := RawURL_Encode (be_bytes 32 (public_key k).1);
               Y := RawURL_Encode (be_bytes 32 (public_key k).2) |} = Ok (public_key k).
Proof.
  unfold publicKey. cbn [Kty Crv X Y]. rewrite !bool_decide_eq_true_2 by done. cbn [negb orb].
  rewrite !RawURL_roundtrip by apply be_bytes_range. destruct (public_key_range k) as [Hx Hy].
  pose proof (be_value_bytes 32 _ Hx) as Ex. pose proof (be_value_bytes 32 _ Hy) as Ey.
  revert Ex Ey. generalize (be_bytes 32 (public_key k).1), (be_bytes 32 (public_key k).2). intros bx by' Ex Ey.
  change ((if on_curve (be_value bx, be_value by') then Ok (be_value bx, be_value by') else Err (Errorf "epk not on P-256")) =
    Ok (public_key k)).
  by rewrite Ex, Ey, <-surjective_pairing, public_key_on_curve.
Qed.

(** A wrap made for a public key opens with its private key. *)
Lemma Unwrap_Wrap k e cek id : length cek = cekLen → is_bytes cek → TrimSpace id ≠ EmptyString →
  ∃ w, Wrap (Ok e) cek id (Some (public_key k)) = Ok w ∧ w_KID w = id ∧
    Unwrap (Some w) (λ p, Ok (ecdh k p)) = Ok cek.
Proof.
  intros Hl Hb Hid. unfold Wrap. rewrite (bool_decide_eq_true_2 (_ = cekLen)), (bool_decide_eq_false_2 (_ = EmptyString)) by done.
  cbn [negb]. rewrite public_key_on_curve. cbn.
  destruct (keyUnwrap_keyWrap (concatKDF (ecdh e (public_key k))) cek) as (w & Ew & Eu); [apply length_concatKDF|done..|].
  rewrite Ew. cbn. eexists. split; [done|]. split; [done|]. unfold Unwrap. cbn [w_Alg w_EPK w_Wrapped].
  rewrite bool_decide_eq_true_2 by done. cbn [negb]. rewrite publicKey_of. cbn. by rewrite ecdh_comm.
Qed.

Lemma Wrap_bytes ephemeral cek id recipient w : is_bytes cek →
  Wrap ephemeral cek id recipient = Ok w → is_bytes (w_Wrapped w).
Proof.
  intros Hb. unfold Wrap. case_bool_decide as Hl; cbn [negb]; [|done]. case_bool_decide; [done|].
  destruct recipient as [pub|]; [|done]. destruct (on_curve pub); cbn [negb]; [|done].
  destruct ephemeral as [e|]; cbn; [|done].
  destruct (keyWrap_Ok (concatKDF (ecdh e pub)) cek) as (a & r & _ & (_ & _ & Hr) & ->); [apply length_concatKDF|done..|].
  cbn. intros E. match type of E with Ok ?x = _ => assert (w = x) as -> by congruence end.
  cbn [w_Wrapped]. apply Forall_app. split; [apply be_bytes_range|].
  cbn [snd] in Hr. clear -Hr. induction Hr as [|b r [_ Hb] _ IH]; [constructor|]. cbn [concat]. by apply Forall_app.
Qed.

(** Only the agreement's answers matter. *)
Lemma Unwrap_agreement w f g : (∀ p, f p = g p) → Unwrap w f = Unwrap w g.
Proof.
  intros Hfg. destruct w as [w|]; [|done]. cbn. destruct (negb _); [done|]. destruct (wrap_err _ _); cbn; [|done].
  by rewrite Hfg.
Qed.

Lemma Decrypt_Encrypt n cek plaintext scope : length cek = cekLen → length n = nonceLen →
  ∃ blob, Encrypt (Ok n) cek plaintext scope = Ok blob ∧ Decrypt cek blob scope = Ok plaintext.
Proof.
  intros Hl Hn. unfold Encrypt, Decrypt. rewrite bool_decide_eq_true_2 by done. cbn [negb]. eexists. split; [done|].
  rewrite length_app, gcm_seal_length, Hn.
  rewrite (proj2 (Nat.ltb_ge _ _)) by (unfold nonceLen; lia).
  by rewrite take_app_length', drop_app_length', gcm_open_seal.
Qed.

End RoundTrips.

(** ** Services that satisfy the laws *)
Section Demo.

Definition demo_modulus : Z := 2 ^ 256.

(** A rotation for the block cipher, a constant tag for GCM and multiplication
    for the group. *)
Definition demo_crypto : CryptoServices := {|
  aes_encrypt _ b := drop 1 b ++ take 1 b;
  aes_decrypt _ b := drop 15 b ++ take 15 b;
  gcm_seal _ _ p _ := p ++ replicate 16 0;
  gcm_open _ _ c _ := Some (take (length c - 16) c);
  on_curve p := p.2 =? 0;
  public_key k := (k mod demo_modulus, 0);
  ecdh k p := be_bytes 32 (k * p.1 mod demo_modulus) |}.

Lemma rotate_block (i : nat) b : is_block b → is_block (drop i b ++ take i b).
Proof.
  intros [Hl Hb]. split.
  - rewrite length_app, length_drop, length_take. lia.
  - apply Forall_app. split; [by apply Forall_drop|by apply Forall_take].
Qed.

Lemma rotate_back (i j : nat) b : is_block b → (i + j = 16)%nat →
  drop j (drop i b ++ take i b) ++ take j (drop i b ++ take i b) = b.
Proof.
  intros [Hl _] Hij. assert (length (drop i b) = j) by (rewrite length_drop; lia).
  rewrite drop_app_length', take_app_length' by done. apply take_drop.
Qed.

#[local] Instance demo_crypto_laws : @CryptoServicesLaws demo_crypto.
Proof.
  constructor; cbn -[replicate be_bytes].
  - intros _ b _. apply rotate_block.
  - intros _ b _. apply rotate_block.
  - intros _ b _ Hb. by apply (rotate_back 1 15).
  - intros _ b _ Hb. by apply (rotate_back 15 1).
  - intros _ _ p _. rewrite length_app, length_replicate, Nat.add_sub. by rewrite take_app_length.
  - intros _ _ p _. by rewrite length_app, length_replicate.
  - done.
  - intros k. split; [by apply Z.mod_pos_bound|done].
  - intros a b. by rewrite !Zmult_mod_idemp_r, Z.mul_comm.
Qed.

Definition demo_kek : bytes := replicate 32 7.
Definition demo_cek : bytes := Z.of_nat <$> seq 1 32.
Definition demo_blob : bytes := match keyWrap (H := demo_crypto) demo_kek demo_cek with Ok b => b | Err _ => [] end.

Lemma key_wrap_witness :
  length demo_blob = 40%nat ∧ keyUnwrap (H := demo_crypto) demo_kek demo_blob = Ok demo_cek.
Proof.
  assert (Hblob : length demo_blob = 40%nat) by (by vm_compute).
  split; [exact Hblob|]. refine (proj2 (proj2 (key_wrap_is_exact demo_kek demo_cek demo_blob _ _ _ Hblob _)) _);
    [done|done|by apply (bool_decide_unpack _); vm_compute|by apply (bool_decide_unpack _); vm_compute|].
  by vm_compute.
Defined.

End Demo.
