(* ===== verification/Scopes.v ===== *)
(** Erasure scopes: [Kind] and [Scope] of internal/base/artifactstore/
    artifactstore.go, and the two errors that carry a scope. *)
From S2P Require Import Prelude.

Inductive Kind := KindContract | KindTemplate | KindInstance.

Definition kind_string (k : Kind) : string :=
  match k with KindContract => "contract" | KindTemplate => "template" | KindInstance => "instance" end.

Record Scope := { s_Kind : Kind; s_ID : string }.

#[export] Instance Kind_eq_dec : EqDecision Kind.
Proof. solve_decision. Defined.
#[export] Instance Scope_eq_dec : EqDecision Scope.
Proof. solve_decision. Defined.
#[export] Instance Kind_countable : Countable Kind :=
  inj_countable' (λ k, match k with KindContract => 0%nat | KindTemplate => 1%nat | KindInstance => 2%nat end)
    (λ n, match n with O => KindContract | S O => KindTemplate | _ => KindInstance end)
    (λ k, match k with KindContract | KindTemplate | KindInstance => eq_refl end).
#[export] Instance Scope_countable : Countable Scope :=
  inj_countable' (λ s, (s_Kind s, s_ID s)) (λ p, {| s_Kind := p.1; s_ID := p.2 |}) (λ '(Build_Scope _ _), eq_refl).

Definition ContractScope (iri : string) : Scope := {| s_Kind := KindContract; s_ID := iri |}.
Definition TemplateScope (iri : string) : Scope := {| s_Kind := KindTemplate; s_ID := iri |}.

Definition AAD (s : Scope) : string := (kind_string (s_Kind s) +:+ ":" +:+ s_ID s)%string.

Definition Shredded_at (s : Scope) : error := ShreddedError (kind_string (s_Kind s)) (s_ID s).
Definition Tampered_at (s : Scope) (cid : string) : error := TamperedError (kind_string (s_Kind s)) (s_ID s) cid.

(** [errors.As] walks the chain of wrapped errors. *)
Fixpoint IsShredded (e : error) : bool :=
  match e with ShreddedError _ _ => true | Wrapf _ e' => IsShredded e' | _ => false end.

Fixpoint IsTampered (e : error) : bool :=
  match e with TamperedError _ _ _ => true | Wrapf _ e' => IsTampered e' | _ => false end.

(** Two scopes never share their additional data: the kinds hold no colon. *)
Lemma AAD_inj a b : AAD a = AAD b → a = b.
Proof. destruct a as [[] i], b as [[] j]; unfold AAD; cbn; intros E; try discriminate E; injection E as E; change (i = j) in E; by subst. Qed.
