(* ===== verification/KeyState.v ===== *)
(** State of the encrypting store and of the erasure around it: the tables
    content_encryption_keys, contract_erasures and contract_archive_entries, the
    audit outbox, the process's cache of plaintext keys, and the objects in IPFS.

    Every change of that state is one atomic [Action]: a statement that runs in a
    transaction of its own, a critical section of [Store.mu], or a request to the
    object store.  A handler is a program in [M], which performs one action (or
    one read) at a time; between two of them the other goroutines and processes
    act, as its schedule says.  So a theorem about a program that holds for every
    schedule is one about every interleaving. *)
From S2P Require Import Prelude Json Sha256 Scopes.

(** ** Tables *)

(** cekrepo.go *)
Record CEKRecord := {
  r_Scope : Scope;
  RecipientDID : string;
  r_WrappedCEK : json;
  CreatedAt : Z;
  ShreddedAt : option Z;
  ShreddedBy : option string;
  ShredReason : option string
}.

Definition live (r : CEKRecord) : bool := negb (bool_decide (is_Some (ShreddedAt r))).
Definition of_scope (scope : Scope) (r : CEKRecord) : bool := bool_decide (r_Scope r = scope).
Definition of_recipient (did : string) (r : CEKRecord) : bool := bool_decide (RecipientDID r = did).

(** dcstodcs/db/eraserepository.go *)
Record EraseRequest := {
  e_DID : string;
  PeerDID : string;
  RequestedAt : Z;
  RetryCount : Z;
  LastTriedAt : option Z;
  ConfirmedAt : option Z
}.

(** contractworkflowengine/db: the columns the deletion reads and writes. *)
Record ContractArchiveEntry := {
  a_DID : string;
  ContractVersion : Z;
  archive_status : string;
  StoredAt : Z;
  SnapshotCID : string;
  DeletedAt : option Z;
  DeletedBy : option string;
  DeletionReason : option string
}.

(** contractworkflowengine/event *)
Inductive ErasureEvent :=
  | KeyShreddedEvent (DID ScopeKind ScopeID ShreddedBy Reason : string) (RowsShredded OccurredAt : Z)
  | DeleteArchivedEvent (DID DeletedBy Justification : string) (EntriesMarked OccurredAt : Z).

(** ** State *)
Record State := {
  rows : list CEKRecord;
  cache : gmap Scope bytes;
  order : list Scope;
  objects : gmap string bytes;
  erasures : list EraseRequest;
  archive : list ContractArchiveEntry;
  events : list ErasureEvent
}.

Definition set_rows f (s : State) : State :=
  {| rows := f (rows s); cache := cache s; order := order s; objects := objects s;
     erasures := erasures s; archive := archive s; events := events s |}.
Definition set_cache c o (s : State) : State :=
  {| rows := rows s; cache := c; order := o; objects := objects s;
     erasures := erasures s; archive := archive s; events := events s |}.
Definition set_objects f (s : State) : State :=
  {| rows := rows s; cache := cache s; order := order s; objects := f (objects s);
     erasures := erasures s; archive := archive s; events := events s |}.
Definition set_erasures f (s : State) : State :=
  {| rows := rows s; cache := cache s; order := order s; objects := objects s;
     erasures := f (erasures s); archive := archive s; events := events s |}.
Definition set_archive f (s : State) : State :=
  {| rows := rows s; cache := cache s; order := order s; objects := objects s;
     erasures := erasures s; archive := f (archive s); events := events s |}.
Definition add_event e (s : State) : State :=
  {| rows := rows s; cache := cache s; order := order s; objects := objects s;
     erasures := erasures s; archive := archive s; events := events s ++ [e] |}.

(** A process that restarts keeps nothing in memory. *)
Definition restart (s : State) : State := set_cache ∅ [] s.

(** ** The atomic changes *)

(** [cekCacheLimit]. *)
Definition cekCacheLimit : nat := 256.

Definition scope_shredded (scope : Scope) (s : State) : bool :=
  exists_where (λ r, of_scope scope r && negb (live r)) (rows s).

(** The partial unique index on live records. *)
Definition live_for (scope : Scope) (did : string) (r : CEKRecord) : bool :=
  of_scope scope r && of_recipient did r && live r.

(** [PostgresCEKRepo.Insert]: does the row go in. *)
Definition inserts (scope : Scope) (did : string) (s : State) : bool :=
  negb (scope_shredded scope s) && negb (exists_where (live_for scope did) (rows s)).

Definition shred_row (shreddedBy reason : string) (at_ : Z) (r : CEKRecord) : CEKRecord :=
  {| r_Scope := r_Scope r; RecipientDID := RecipientDID r; r_WrappedCEK := r_WrappedCEK r; CreatedAt := CreatedAt r;
     ShreddedAt := Some at_; ShreddedBy := Some shreddedBy; ShredReason := Some reason |}.

(** [ShredTx]: the rows it marks. *)
Definition to_shred (scope : Scope) (r : CEKRecord) : bool := of_scope scope r && live r.
Definition affected (scope : Scope) (s : State) : Z := Z.of_nat (length (rows_where (to_shred scope) (rows s))).
Definition ShredTx (scope : Scope) (shreddedBy reason : string) (at_ : Z) : State → State :=
  set_rows (update_where (to_shred scope) (shred_row shreddedBy reason at_)).

Definition erase_row (did peerDID : string) (r : EraseRequest) : bool :=
  bool_decide (e_DID r = did) && bool_decide (PeerDID r = peerDID).

Definition attempted (at_ : Z) (r : EraseRequest) : EraseRequest :=
  {| e_DID := e_DID r; PeerDID := PeerDID r; RequestedAt := RequestedAt r; RetryCount := RetryCount r + 1;
     LastTriedAt := Some at_; ConfirmedAt := ConfirmedAt r |}.

Definition confirmed (at_ : Z) (r : EraseRequest) : EraseRequest :=
  {| e_DID := e_DID r; PeerDID := PeerDID r; RequestedAt := RequestedAt r; RetryCount := RetryCount r;
     LastTriedAt := LastTriedAt r; ConfirmedAt := Some at_ |}.

Definition pending (r : EraseRequest) : bool := negb (bool_decide (is_Some (ConfirmedAt r))).

Definition not_deleted (did : string) (r : ContractArchiveEntry) : bool :=
  bool_decide (a_DID r = did) && negb (bool_decide (is_Some (DeletedAt r))).

Definition delete_entry (deletedBy reason : string) (at_ : Z) (r : ContractArchiveEntry) : ContractArchiveEntry :=
  {| a_DID := a_DID r; ContractVersion := ContractVersion r; archive_status := "DELETED"; StoredAt := StoredAt r;
     SnapshotCID := SnapshotCID r; DeletedAt := Some at_; DeletedBy := Some deletedBy; DeletionReason := Some reason |}.

Definition marked (did : string) (s : State) : Z := Z.of_nat (length (rows_where (not_deleted did) (archive s))).

(** [remember] evicts the oldest scope when the cache is full; [order] is not
    empty then. *)
Definition do_remember (scope : Scope) (cek : bytes) (s : State) : State :=
  match cache s !! scope with
  | Some _ => set_cache (<[scope := cek]> (cache s)) (order s) s
  | None =>
      let '(c, o) := if (cekCacheLimit <=? length (order s))%nat
                     then match order s with oldest :: rest => (delete oldest (cache s), rest) | [] => (cache s, []) end
                     else (cache s, order s) in
      set_cache (<[scope := cek]> c) (o ++ [scope]) s
  end.

Fixpoint remove_first (scope : Scope) (l : list Scope) : list Scope :=
  match l with
  | [] => []
  | x :: l' => if bool_decide (x = scope) then l' else x :: remove_first scope l'
  end.

Definition do_forget (scope : Scope) (s : State) : State :=
  match cache s !! scope with
  | None => s
  | Some _ => set_cache (delete scope (cache s)) (remove_first scope (order s)) s
  end.

Inductive Action :=
  | AInsert (scope : Scope) (recipientDID : string) (wrappedCEK : json) (at_ : Z)
  | AShred (scope : Scope) (shreddedBy reason : string) (at_ : Z)
  (** The transaction of [AuditedShredder.Shred]. *)
  | AShredAudited (scope : Scope) (actor reason : string) (at_ : Z)
  | ARemember (scope : Scope) (cek : bytes)
  | AForget (scope : Scope)
  | ACreateFile (cid : string) (data : bytes)
  | ADeleteFile (cid : string)
  | AUpsert (did peerDID : string) (at_ : Z)
  | ARecordAttempt (did peerDID : string) (at_ : Z)
  | AConfirm (did peerDID : string) (at_ : Z)
  (** The transaction of the archive's [Delete], when it marks a row. *)
  | AMarkDeleted (did deletedBy justification : string) (at_ : Z).

Definition act (s : State) (a : Action) : State :=
  match a with
  | AInsert scope did wrapped at_ =>
      if inserts scope did s
      then set_rows (λ rs, rs ++ [{| r_Scope := scope; RecipientDID := did; r_WrappedCEK := wrapped; CreatedAt := at_;
                                     ShreddedAt := None; ShreddedBy := None; ShredReason := None |}]) s
      else s
  | AShred scope by_ reason at_ => ShredTx scope by_ reason at_ s
  | AShredAudited scope actor reason at_ =>
      let s' := ShredTx scope actor reason at_ s in
      if 0 <? affected scope s
      then add_event (KeyShreddedEvent (s_ID scope) (kind_string (s_Kind scope)) (s_ID scope) actor reason
                        (affected scope s) at_) s'
      else s'
  | ARemember scope cek => do_remember scope cek s
  | AForget scope => do_forget scope s
  | ACreateFile cid data => set_objects <[cid := data]> s
  | ADeleteFile cid => set_objects (delete cid) s
  | AUpsert did peer at_ =>
      if exists_where (erase_row did peer) (erasures s) then s
      else set_erasures (λ rs, rs ++ [{| e_DID := did; PeerDID := peer; RequestedAt := at_; RetryCount := 0;
                                         LastTriedAt := None; ConfirmedAt := None |}]) s
  | ARecordAttempt did peer at_ => set_erasures (update_where (erase_row did peer) (attempted at_)) s
  | AConfirm did peer at_ =>
      set_erasures (update_where (λ r, erase_row did peer r && pending r) (confirmed at_)) s
  | AMarkDeleted did by_ reason at_ =>
      if 0 <? marked did s
      then add_event (DeleteArchivedEvent did by_ reason (marked did s) at_)
             (set_archive (update_where (not_deleted did) (delete_entry by_ reason at_)) s)
      else s
  end.

(** ** Programs *)

(** What happens at one access: the others' actions before it, and the failure
    of the access itself.  A failed access that was [done] took effect all the
    same: a commit whose acknowledgement was lost, a file that was added but not
    linked. *)
Record Failure := { done : bool; cause : error }.
Record Turn := { others : list Action; failure : option Failure }.

Record World := { state : State; schedule : list Turn }.

Definition M (A : Type) : Type := World → result A * World.

#[export] Instance M_ret : MRet M := λ A a w, (Ok a, w).
#[export] Instance M_bind : MBind M := λ A B f m w,
  match m w with (Ok a, w') => f a w' | (Err e, w') => (Err e, w') end.

Definition throw {A} (e : error) : M A := λ w, (Err e, w).
Definition lift {A} (r : result A) : M A := λ w, (r, w).
Definition wrap {A} (msg : string) (m : M A) : M A := λ w,
  match m w with (Err e, w') => (Err (Wrapf msg e), w') | r => r end.
(** Go's [if err := m; err != nil { log }]. *)
Definition attempt {A} (m : M A) : M (result A) := λ w, let '(r, w') := m w in (Ok r, w').
Definition for_each {A} (f : A → M ()) : list A → M () :=
  fix go l := match l with [] => mret tt | x :: l' => _ ← f x; go l' end.

(** The others act, then this access is due. *)
Definition turn (w : World) : State * option Failure * list Turn :=
  match schedule w with
  | [] => (state w, None, [])
  | t :: rest => (foldl act (state w) (others t), failure t, rest)
  end.

(** A read. *)
Definition read {A} (f : State → A) : M A := λ w,
  let '(s, fail, rest) := turn w in
  (match fail with Some x => Err (cause x) | None => Ok (f s) end, {| state := s; schedule := rest |}).

(** A change, and what it reports of the state it found. *)
Definition perform {A} (a : Action) (f : State → A) : M A := λ w,
  let '(s, fail, rest) := turn w in
  match fail with
  | Some x => (Err (cause x), {| state := if done x then act s a else s; schedule := rest |})
  | None => (Ok (f s), {| state := act s a; schedule := rest |})
  end.

(** Critical sections of [Store.mu] cannot fail. *)
Definition locked {A} (f : State → A) : M A := λ w,
  let '(s, _, rest) := turn w in (Ok (f s), {| state := s; schedule := rest |}).
Definition locked_do (a : Action) : M () := λ w,
  let '(s, _, rest) := turn w in (Ok tt, {| state := act s a; schedule := rest |}).

(** ** Triples

    The others do only what [allowed] allows, and an access fails only with what
    [may_fail] names.  A triple holds for every such schedule, so its
    precondition must survive the others at each access. *)
Section Triples.
Context (allowed : Action → Prop) (may_fail : error → Prop).

Definition turn_ok (t : Turn) : Prop :=
  Forall allowed (others t) ∧ ∀ x, failure t = Some x → may_fail (cause x).
Definition schedule_ok (w : World) : Prop := Forall turn_ok (schedule w).

Definition triple (P : State → Prop) {A} (m : M A) (Q : result A → State → Prop) : Prop :=
  ∀ w, schedule_ok w → P (state w) → schedule_ok (m w).2 ∧ Q (m w).1 (state (m w).2).

(** [P] survives what the others may do. *)
Definition stable (P : State → Prop) : Prop := ∀ a s, allowed a → P s → P (act s a).

Lemma triple_conseq (P P' : State → Prop) {A} (m : M A) Q Q' :
  triple P' m Q' → (∀ s, P s → P' s) → (∀ r s, Q' r s → Q r s) → triple P m Q.
Proof. intros Hm HP HQ w Hs Hw. destruct (Hm w Hs (HP _ Hw)). eauto. Qed.
Lemma triple_ret (P : State → Prop) {A} (a : A) Q : (∀ s, P s → Q (Ok a) s) → triple P (mret a) Q.
Proof. intros HQ w Hs Hw. split; [done|]. by apply HQ. Qed.
Lemma triple_throw (P : State → Prop) {A} e (Q : result A → State → Prop) :
  (∀ s, P s → Q (Err e) s) → triple P (throw e) Q.
Proof. intros HQ w Hs Hw. split; [done|]. by apply HQ. Qed.
Lemma triple_lift (P : State → Prop) {A} (r : result A) Q : (∀ s, P s → Q r s) → triple P (lift r) Q.
Proof. intros HQ w Hs Hw. split; [done|]. by apply HQ. Qed.
Lemma triple_bind P {A B} (m : M A) (f : A → M B) Q' Q :
  triple P m Q' → (∀ a, triple (Q' (Ok a)) (f a) Q) → (∀ e s, Q' (Err e) s → Q (Err e) s) →
  triple P (m ≫= f) Q.
Proof.
  intros Hm Hf He w Hs HP. unfold mbind, M_bind. destruct (Hm w Hs HP) as [H1 H2].
  destruct (m w) as [[a|e] w']; cbn in *; [by apply Hf|]. split; [done|]. by apply He.
Qed.
(** The part of a precondition that does not speak of the state. *)
Lemma triple_with (φ : Prop) (P Pre : State → Prop) {A} (m : M A) Q :
  (∀ s, Pre s → φ ∧ P s) → (φ → triple P m Q) → triple Pre m Q.
Proof. intros HP Hm w Hs Hw. destruct (HP _ Hw). by apply Hm. Qed.
Lemma triple_lift_Ok P {A B} (r : result A) a (f : A → M B) Q : r = Ok a → triple P (f a) Q → triple P (lift r ≫= f) Q.
Proof. by intros ->. Qed.
Lemma triple_wrap P {A} msg (m : M A) Q :
  triple P m (λ r s, Q (wrap_err msg r) s) → triple P (wrap msg m) Q.
Proof. intros Hm w Hs HP. unfold wrap. specialize (Hm w Hs HP). by destruct (m w) as [[]]. Qed.
Lemma triple_attempt P {A} (m : M A) Q : triple P m (λ r s, Q (Ok r) s) → triple P (attempt m) Q.
Proof. intros Hm w Hs HP. unfold attempt. specialize (Hm w Hs HP). by destruct (m w). Qed.

Lemma stable_fold P l s : stable P → Forall allowed l → P s → P (foldl act s l).
Proof. intros HP Hl. revert s. induction Hl as [|a l Ha _ IH]; intros s Hs; [done|]. cbn. by apply IH, HP. Qed.

Lemma turn_keeps P w : stable P → schedule_ok w → P (state w) →
  P (turn w).1.1 ∧ (∀ x, (turn w).1.2 = Some x → may_fail (cause x)) ∧ Forall turn_ok (turn w).2.
Proof.
  intros HP Hs Hw. unfold turn, schedule_ok in *. destruct (schedule w) as [|t rest]; [done|].
  apply Forall_cons in Hs as [[Ht Hf] Hr]. repeat split; [by apply stable_fold|done|done].
Qed.

Lemma triple_read P {A} (f : State → A) Q : stable P →
  (∀ s, P s → Q (Ok (f s)) s) → (∀ e s, may_fail e → P s → Q (Err e) s) → triple P (read f) Q.
Proof.
  intros HP Hf He w Hs Hw. pose proof (turn_keeps P w HP Hs Hw) as (H1 & H2 & H3). unfold read.
  destruct (turn w) as [[s [x|]] rest]; cbn in *; auto.
Qed.
Lemma triple_locked P {A} (f : State → A) Q : stable P → (∀ s, P s → Q (Ok (f s)) s) → triple P (locked f) Q.
Proof.
  intros HP Hf w Hs Hw. pose proof (turn_keeps P w HP Hs Hw) as (H1 & _ & H3). unfold locked.
  destruct (turn w) as [[s fl] rest]; cbn in *; auto.
Qed.
Lemma triple_perform P {A} a (f : State → A) Q : stable P →
  (∀ s, P s → Q (Ok (f s)) (act s a)) → (∀ e s, may_fail e → P s → Q (Err e) s ∧ Q (Err e) (act s a)) →
  triple P (perform a f) Q.
Proof.
  intros HP Hf He w Hs Hw. pose proof (turn_keeps P w HP Hs Hw) as (H1 & H2 & H3). unfold perform.
  destruct (turn w) as [[s [[[] c]|]] rest]; cbn in *; auto;
    (destruct (He c s) as [? ?]; [by apply (H2 _ eq_refl)|done|]; auto).
Qed.
Lemma triple_locked_do P a Q : stable P → (∀ s, P s → Q (Ok tt) (act s a)) → triple P (locked_do a) Q.
Proof.
  intros HP Hf w Hs Hw. pose proof (turn_keeps P w HP Hs Hw) as (H1 & _ & H3). unfold locked_do.
  destruct (turn w) as [[s fl] rest]; cbn in *; auto.
Qed.

(** A program that keeps [P], whatever it returns. *)
Definition keeps (P : State → Prop) {A} (m : M A) : Prop := triple P m (λ _, P).

Lemma kept_ret P {A} (a : A) : keeps P (mret a).
Proof. by apply triple_ret. Qed.
Lemma kept_throw P {A} e : keeps P (throw e : M A).
Proof. by apply triple_throw. Qed.
Lemma kept_lift P {A} (r : result A) : keeps P (lift r).
Proof. by apply triple_lift. Qed.
Lemma kept_bind P {A B} (m : M A) (f : A → M B) : keeps P m → (∀ a, keeps P (f a)) → keeps P (m ≫= f).
Proof. intros Hm Hf. by eapply triple_bind; [exact Hm|exact Hf|]. Qed.
Lemma kept_wrap P {A} msg (m : M A) : keeps P m → keeps P (wrap msg m).
Proof. exact (triple_wrap P msg m (λ _, P)). Qed.
Lemma kept_attempt P {A} (m : M A) : keeps P m → keeps P (attempt m).
Proof. exact (triple_attempt P m (λ _, P)). Qed.
Lemma kept_read P {A} (f : State → A) : stable P → keeps P (read f).
Proof. intros HP. by apply triple_read. Qed.
Lemma kept_locked P {A} (f : State → A) : stable P → keeps P (locked f).
Proof. intros HP. by apply triple_locked. Qed.
Lemma kept_perform P {A} a (f : State → A) : stable P → (∀ s, P s → P (act s a)) → keeps P (perform a f).
Proof. intros HP Ha. apply triple_perform; auto. Qed.
Lemma kept_locked_do P a : stable P → (∀ s, P s → P (act s a)) → keeps P (locked_do a).
Proof. intros HP Ha. by apply triple_locked_do. Qed.
Lemma kept_for_each P {A} (f : A → M ()) l : (∀ x, x ∈ l → keeps P (f x)) → keeps P (for_each f l).
Proof.
  induction l as [|x l IH]; intros Hf; [apply kept_ret|]. cbn. apply kept_bind; [apply Hf; by left|].
  intros _. apply IH. intros y Hy. apply Hf. by right.
Qed.

(** A loop whose every step succeeds; what a step achieves must survive the
    later ones. *)
Lemma triple_for_each (P : State → Prop) {A} (Q : A → State → Prop) (f : A → M ()) l :
  (∀ x, x ∈ l → triple P (f x) (λ r s, r = Ok tt ∧ P s ∧ Q x s)) →
  (∀ x y, x ∈ l → y ∈ l → keeps (Q x) (f y)) →
  triple P (for_each f l) (λ r s, r = Ok tt ∧ P s ∧ ∀ x, x ∈ l → Q x s).
Proof.
  intros Hf Hk.
  enough (Hgen : ∀ l1 l2, l1 ++ l2 = l → triple (λ s, P s ∧ ∀ x, x ∈ l1 → Q x s) (for_each f l2)
    (λ r s, r = Ok tt ∧ P s ∧ ∀ x, x ∈ l → Q x s)).
  { eapply triple_conseq; [by apply (Hgen [] l)|intros s Hs; split; [done|by intros x ?%elem_of_nil]|done]. }
  intros l1 l2. revert l1. induction l2 as [|y l2 IH]; intros l1 El.
  - rewrite app_nil_r in El. subst l1. apply triple_ret. by intros s [? ?].
  - assert (Hy : y ∈ l) by (rewrite <-El; apply elem_of_app; right; left).
    cbn [for_each]. apply (triple_bind _ _ _ (λ r s, r = Ok tt ∧ P s ∧ ∀ x, x ∈ l1 ++ [y] → Q x s)).
    + intros w Hw [HP HQ]. destruct (Hf y Hy w Hw HP) as (Hw' & Hr & HP' & HQy). split; [done|]. split; [done|].
      split; [done|]. intros x [Hx|Hx%list_elem_of_singleton]%elem_of_app; [|by subst].
      apply (Hk x y); [rewrite <-El; apply elem_of_app; by left|done..|by apply HQ].
    + intros a. eapply triple_conseq; [apply (IH (l1 ++ [y]))|by intros s [_ ?]|done].
      by rewrite <-app_assoc.
    + by intros e s [? _].
Qed.

(** Running a program for its effect: errors are dropped. *)
Lemma kept_attempted P {A} (m : M A) : keeps P m → keeps P (_ ← attempt m; mret tt).
Proof. intros Hm. apply kept_bind; [by apply kept_attempt|intros _; apply kept_ret]. Qed.

End Triples.

Create HintDb keys discriminated.
#[export] Hint Resolve kept_ret kept_throw kept_lift kept_bind kept_wrap kept_attempt kept_read kept_locked
  kept_perform kept_locked_do : keys.

(** One step of a [keeps] proof. *)
Ltac keeps_step :=
  lazymatch goal with
  | |- keeps _ _ _ (mbind _ _) => apply kept_bind; [|intros ?]
  | |- keeps _ _ _ (match ?x with _ => _ end) => destruct x
  | |- keeps _ _ _ _ => eauto with keys
  end.
