(* ===== verification/ArtifactStore.v ===== *)
(** The encrypting layer over IPFS: internal/base/artifactstore (artifactstore.go,
    cekrepo.go) and the wire form of a wrapped key (dcstodcs/wrappedcek.go).

    [cek] resolves a scope's key through the cache and the repository, and every
    other operation goes through it.  The wrapped key is stored as the JSON value
    the struct marshals to; the alternatives that [json.Unmarshal] accepts and
    [json.Marshal] never writes (field names in another case, a byte slice as an
    array) are not modelled. *)
From S2P Require Import Prelude Json Sha256 Merkle Scopes Envelope KeyState.
Import GoStrings.

(** ** The stored form of a wrapped key *)

(** base64.StdEncoding: the URL alphabet with other last digits, padded. *)
Definition std_char (c : ascii) : ascii :=
  if bool_decide (c = "-"%char) then "+"%char else if bool_decide (c = "_"%char) then "/"%char else c.

Definition std_value (c : ascii) : option Z :=
  if bool_decide (c = "+"%char) then Some 62 else if bool_decide (c = "/"%char) then Some 63
  else if bool_decide (c = "-"%char) || bool_decide (c = "_"%char) then None else b64_value c.

Definition padding (n : nat) : list ascii := replicate ((4 - n mod 4) mod 4) "="%char.

Definition Std_Encode (bs : bytes) : string :=
  let ds := b64_digits bs in
  String.string_of_list_ascii (((λ d, std_char (b64_digit d)) <$> ds) ++ padding (length ds)).

(** At most two padding characters end the text. *)
Fixpoint strip_padding (fuel : nat) (rev_text : list ascii) : list ascii :=
  match fuel, rev_text with
  | S fuel', c :: rest => if bool_decide (c = "="%char) then strip_padding fuel' rest else rev_text
  | _, _ => rev_text
  end.

Definition Std_Decode (s : string) : result bytes :=
  let text := filter (λ c, c ∉ [Ascii.ascii_of_nat 10; Ascii.ascii_of_nat 13]) (String.list_ascii_of_string s) in
  if negb (length text mod 4 =? 0)%nat then Err (Errorf "illegal base64 data") else
  match mapM std_value (reverse (strip_padding 2 (reverse text))) ≫= b64_bytes with
  | Some bs => Ok bs
  | None => Err (Errorf "illegal base64 data")
  end.

Definition MarshalCEK (w : WrappedCEK) : json :=
  JObj {[ "alg" := JStr (w_Alg w); "kid" := JStr (w_KID w);
          "epk" := JObj {[ "kty" := JStr (Kty (w_EPK w)); "crv" := JStr (Crv (w_EPK w));
                           "x" := JStr (X (w_EPK w)); "y" := JStr (Y (w_EPK w)) ]};
          "wrapped" := JStr (Std_Encode (w_Wrapped w)) ]}.

(** A member that is absent or null leaves the field as it was. *)
Definition string_field (m : gmap string json) (key : string) : result string :=
  match m !! key with
  | None | Some JNull => Ok EmptyString
  | Some (JStr s) => Ok s
  | Some _ => Err (Errorf "json: cannot unmarshal into string")
  end.

Definition UnmarshalEPK (j : option json) : result EphemeralPublicKey :=
  m ← match j with
      | None | Some JNull => Ok ∅
      | Some (JObj m) => Ok m
      | Some _ => Err (Errorf "json: cannot unmarshal into struct")
      end;
  kty ← string_field m "kty"; crv ← string_field m "crv"; x ← string_field m "x"; y ← string_field m "y";
  Ok {| Kty := kty; Crv := crv; X := x; Y := y |}.

Definition UnmarshalCEK (j : json) : result WrappedCEK :=
  m ← Unmarshal_map j;
  alg ← string_field m "alg"; kid ← string_field m "kid"; epk ← UnmarshalEPK (m !! "epk");
  encoded ← string_field m "wrapped"; wrapped ← Std_Decode encoded;
  Ok {| w_Alg := alg; w_KID := kid; w_EPK := epk; w_Wrapped := wrapped |}.

(** ** The wire form *)
Record DCSToDCSEphemeralPublicKey := { wire_Kty : string; wire_Crv : string; wire_X : string; wire_Y : string }.
Record DCSToDCSWrappedCEK := {
  wire_Alg : string; wire_Kid : string; wire_Epk : option DCSToDCSEphemeralPublicKey; wire_Wrapped : bytes }.

Definition WireWrappedCEK (w : WrappedCEK) : DCSToDCSWrappedCEK :=
  {| wire_Alg := w_Alg w; wire_Kid := w_KID w;
     wire_Epk := Some {| wire_Kty := Kty (w_EPK w); wire_Crv := Crv (w_EPK w);
                         wire_X := X (w_EPK w); wire_Y := Y (w_EPK w) |};
     wire_Wrapped := w_Wrapped w |}.

Definition EnvelopeWrappedCEK (w : option DCSToDCSWrappedCEK) : result WrappedCEK :=
  match w with
  | Some {| wire_Alg := alg; wire_Kid := kid; wire_Epk := Some epk; wire_Wrapped := wrapped |} =>
      Ok {| w_Alg := alg; w_KID := kid;
            w_EPK := {| Kty := wire_Kty epk; Crv := wire_Crv epk; X := wire_X epk; Y := wire_Y epk |};
            w_Wrapped := wrapped |}
  | _ => Err (Errorf "wrapped cek carries no ephemeral public key")
  end.

(** ** The repository: cekrepo.go *)

(** [ORDER BY (shredded_at IS NULL) DESC, created_at DESC LIMIT 1]. *)
Definition fetch_row (scope : Scope) (recipientDID : string) (s : State) : option CEKRecord :=
  let latest := order_by (λ r, - CreatedAt r)
                  (rows_where (λ r, of_scope scope r && of_recipient recipientDID r) (rows s)) in
  head (rows_where live latest ++ rows_where (λ r, negb (live r)) latest).

Module CEKRepo.

Definition Fetch (scope : Scope) (recipientDID : string) : M (option CEKRecord) :=
  read (fetch_row scope recipientDID).

Definition List (scope : Scope) : M (list CEKRecord) :=
  read (λ s, order_by CreatedAt (rows_where (of_scope scope) (rows s))).

Definition Insert (scope : Scope) (recipientDID : string) (wrappedCEK : json) (at_ : Z) : M bool :=
  perform (AInsert scope recipientDID wrappedCEK at_) (inserts scope recipientDID).

Definition Shred (scope : Scope) (shreddedBy reason : string) (at_ : Z) : M Z :=
  perform (AShred scope shreddedBy reason at_) (affected scope).

End CEKRepo.

(** ** The store: artifactstore.go *)

(** The fields [New] sets; [agreement] is the HSM's [DeriveECDH]. *)
Record Config := {
  ownDID : string;
  ownMethodID : string;
  ownPub : option point;
  agreement : point → result bytes
}.

(** What one call draws: the clock of its inserts, a fresh key, an ephemeral key
    and a nonce. *)
Record Draw := { d_now : Z; d_cek : result bytes; d_ephemeral : result Z; d_nonce : result bytes }.

Section Store.
Context `{CryptoServices} (cid_of : bytes → string) (self : Config).

Definition InstanceScope : Scope := {| s_Kind := KindInstance; s_ID := ownDID self |}.

Definition cached (scope : Scope) : M (option bytes) := locked (λ s, cache s !! scope).
Definition remember (scope : Scope) (cek : bytes) : M () := locked_do (ARemember scope cek).
Definition Forget (scope : Scope) : M () := locked_do (AForget scope).

(** [None] is the insert conflict. *)
Definition createCEK (d : Draw) (scope : Scope) : M (option bytes) :=
  cek ← lift (wrap_err "generate cek" (d_cek d));
  wrapped ← lift (wrap_err "wrap cek" (Wrap (d_ephemeral d) cek (ownMethodID self) (ownPub self)));
  inserted ← wrap "persist wrapped cek" (CEKRepo.Insert scope (ownDID self) (MarshalCEK wrapped) (d_now d));
  if negb inserted then mret None else
  _ ← remember scope cek;
  mret (Some cek).

(** The end of [cek], on a live record. *)
Definition open_record (scope : Scope) (record : CEKRecord) : M bytes :=
  wrapped ← lift (wrap_err "decode wrapped cek" (UnmarshalCEK (r_WrappedCEK record)));
  cek ← lift (wrap_err "unwrap cek" (Unwrap (Some wrapped) (agreement self)));
  _ ← remember scope cek;
  mret cek.

Definition cek (d : Draw) (scope : Scope) (create : bool) : M bytes :=
  hit ← cached scope;
  match hit with
  | Some cek => mret cek
  | None =>
      record ← wrap "read wrapped cek" (CEKRepo.Fetch scope (ownDID self));
      match record with
      | Some r => if live r then open_record scope r else throw (Shredded_at scope)
      | None =>
          if negb create then throw (Errorf "no content encryption key") else
          made ← createCEK d scope;
          match made with
          | Some cek => mret cek
          | None =>
              record ← wrap "read wrapped cek" (CEKRepo.Fetch scope (ownDID self));
              match record with
              | None => throw (Errorf "wrapped cek vanished after insert conflict")
              | Some r => if live r then open_record scope r else throw (Shredded_at scope)
              end
          end
      end
  end.

Definition Encrypt (d : Draw) (scope : Scope) (plaintext : bytes) : M bytes :=
  key ← cek d scope true;
  lift (Envelope.Encrypt (d_nonce d) key plaintext (AAD scope)).

Definition Decrypt (d : Draw) (scope : Scope) (blob : bytes) : M bytes :=
  key ← cek d scope false;
  lift (Envelope.Decrypt key blob (AAD scope)).

(** [CreateFile] answers with the CID of the content, or fails. *)
Definition Put (d : Draw) (scope : Scope) (plaintext : bytes) : M string :=
  blob ← Encrypt d scope plaintext;
  cid ← wrap "store artifact" (perform (ACreateFile (cid_of blob) blob) (λ _, cid_of blob));
  if bool_decide (cid = EmptyString) then throw (Errorf "object store returned no CID") else mret cid.

Definition FetchFile (cid : string) : M bytes :=
  data ← read (λ s, objects s !! cid);
  match data with Some data => mret data | None => throw (Errorf "unexpected Kubo cat status") end.

Definition Get (d : Draw) (scope : Scope) (cid : string) : M bytes :=
  key ← cek d scope false;
  data ← wrap "fetch artifact" (FetchFile cid);
  match Envelope.Decrypt key data (AAD scope) with
  | Ok plaintext => mret plaintext
  | Err e => throw (Wrapf "tampered" (Tampered_at scope cid))
  end.

Definition ownRecipient (wrapped : option WrappedCEK) : result () :=
  match wrapped with
  | None => Err (Errorf "wrapped cek is nil")
  | Some w =>
      let kid := TrimSpace (w_KID w) in
      if bool_decide (kid = EmptyString) then Err (Errorf "wrapped cek names no recipient key-agreement method") else
      let kid := if HasPrefix kid "#" then (ownDID self +:+ kid)%string else kid in
      if bool_decide (kid = ownMethodID self) then Ok tt
      else Err (Errorf "wrapped cek was addressed to another key")
  end.

Definition WrapForPeer (d : Draw) (scope : Scope) (peerDID peerMethodID : string) (peerPub : option point) :
    M WrappedCEK :=
  key ← cek d scope false;
  wrapped ← lift (wrap_err "wrap cek for peer" (Wrap (d_ephemeral d) key peerMethodID peerPub));
  _ ← wrap "persist peer recipient cek" (CEKRepo.Insert scope peerDID (MarshalCEK wrapped) (d_now d));
  mret wrapped.

Definition AdoptPeerCEK (d : Draw) (scope : Scope) (wrapped : option WrappedCEK) : M () :=
  _ ← lift (ownRecipient wrapped);
  record ← wrap "read wrapped cek" (CEKRepo.Fetch scope (ownDID self));
  match record with
  | Some r => if live r then mret tt else throw (Shredded_at scope)
  | None =>
      key ← lift (wrap_err "unwrap peer cek" (Unwrap wrapped (agreement self)));
      rewrapped ← lift (wrap_err "re-wrap peer cek" (Wrap (d_ephemeral d) key (ownMethodID self) (ownPub self)));
      inserted ← wrap "persist re-wrapped cek" (CEKRepo.Insert scope (ownDID self) (MarshalCEK rewrapped) (d_now d));
      if negb inserted then
        record ← wrap "read wrapped cek" (CEKRepo.Fetch scope (ownDID self));
        match record with
        | Some r => if live r then mret tt else throw (Shredded_at scope)
        | None => mret tt
        end
      else remember scope key
  end.

(** The calls of the store's clients. *)
Inductive Request :=
  | RPut (scope : Scope) (plaintext : bytes)
  | RGet (scope : Scope) (cid : string)
  | REncrypt (scope : Scope) (plaintext : bytes)
  | RDecrypt (scope : Scope) (blob : bytes)
  | RWrapForPeer (scope : Scope) (peerDID peerMethodID : string) (peerPub : option point)
  | RAdoptPeerCEK (scope : Scope) (wrapped : option WrappedCEK).

Definition request_scope (r : Request) : Scope :=
  match r with
  | RPut s _ | RGet s _ | REncrypt s _ | RDecrypt s _ | RWrapForPeer s _ _ _ | RAdoptPeerCEK s _ => s
  end.

Definition serve (d : Draw) (r : Request) : M () :=
  match r with
  | RPut s p => _ ← Put d s p; mret tt
  | RGet s c => _ ← Get d s c; mret tt
  | REncrypt s p => _ ← Encrypt d s p; mret tt
  | RDecrypt s b => _ ← Decrypt d s b; mret tt
  | RWrapForPeer s p m k => _ ← WrapForPeer d s p m k; mret tt
  | RAdoptPeerCEK s w => AdoptPeerCEK d s w
  end.

(** A process serves one request after another, whatever each of them returns. *)
Fixpoint serve_all (requests : list (Draw * Request)) (w : World) : World :=
  match requests with
  | [] => w
  | (d, r) :: rest => serve_all rest (serve d r w).2
  end.

End Store.

(** ** The key table and the cache *)

(** A scope's records are shredded together, and a recipient has one live record. *)
Definition key_table (s : State) : Prop :=
  (∀ r1 r2, r1 ∈ rows s → r2 ∈ rows s → r_Scope r1 = r_Scope r2 → live r1 = live r2) ∧
  (∀ scope did, (length (rows_where (live_for scope did) (rows s)) <= 1)%nat).

(** [order] lists the cached scopes, and the limit holds. *)
Definition key_cache (s : State) : Prop :=
  NoDup (order s) ∧ (∀ scope, scope ∈ order s ↔ is_Some (cache s !! scope)) ∧
  (length (order s) <= cekCacheLimit)%nat.

Definition key_invariant (s : State) : Prop := key_table s ∧ key_cache s.

Lemma update_where_length_where {A} (p q : A → bool) (f : A → A) l :
  (∀ x, q x = true → p (f x) = true → p x = true) →
  (length (rows_where p (update_where q f l)) <= length (rows_where p l))%nat.
Proof.
  intros Hf. unfold rows_where, update_where. induction l as [|x l IH]; [done|]. cbn [map].
  rewrite !filter_cons. destruct (q x) eqn:Eq; repeat case_decide; cbn [length]; try lia.
  exfalso. auto.
Qed.

Lemma not_shredded scope s r : scope_shredded scope s = false → r ∈ rows s → r_Scope r = scope → live r = true.
Proof.
  unfold scope_shredded, exists_where. rewrite existsb_false_iff. intros H Hr Hs. specialize (H r Hr).
  unfold of_scope in H. rewrite bool_decide_eq_true_2 in H by done. by destruct (live r).
Qed.

Lemma key_table_ShredTx scope by_ reason at_ s : key_table s → key_table (ShredTx scope by_ reason at_ s).
Proof.
  intros [H1 H2]. split; cbn [rows ShredTx set_rows].
  - intros r1 r2 (x1 & Hx1 & ->)%elem_of_update_where (x2 & Hx2 & ->)%elem_of_update_where.
    specialize (H1 x1 x2 Hx1 Hx2). unfold to_shred, of_scope.
    destruct (bool_decide_reflect (r_Scope x1 = scope)), (bool_decide_reflect (r_Scope x2 = scope)); cbn [andb];
      destruct (live x1) eqn:E1, (live x2) eqn:E2; cbn; intros Hs; try congruence; rewrite ?E1, ?E2; auto; try congruence.
    all: try (exfalso; cbn in *; congruence).
  - intros sc did. etransitivity; [|apply (H2 sc did)]. apply update_where_length_where.
    intros x _. unfold live_for, live. cbn. by rewrite !andb_false_r.
Qed.

Lemma key_table_Insert scope did wrapped at_ s : key_table s → key_table (act s (AInsert scope did wrapped at_)).
Proof.
  intros [H1 H2]. cbn [act]. destruct (inserts scope did s) eqn:Ei; [|done]. unfold inserts in Ei. bool_to_prop.
  match goal with H : scope_shredded _ _ = _ |- _ => rename H into Hsh end.
  match goal with H : exists_where _ _ = _ |- _ => rename H into Hex end.
  split; cbn [rows set_rows].
  - intros r1 r2 [Hr1|Hr1]%elem_of_app [Hr2|Hr2]%elem_of_app Hs; try apply list_elem_of_singleton in Hr1 as ->;
      try apply list_elem_of_singleton in Hr2 as ->; [by apply H1|..|done]; cbn in Hs.
    + by apply (not_shredded scope s).
    + symmetry. by apply (not_shredded scope s).
  - intros sc d. unfold rows_where. rewrite filter_app, length_app, filter_cons, filter_nil.
    case_decide as Hl; [|specialize (H2 sc d); unfold rows_where in H2; cbn; lia].
    unfold live_for, of_scope, of_recipient in Hl. cbn in Hl. bool_to_prop. subst sc d.
    cbn [length]. enough (filter (λ r, live_for scope did r = true) (rows s) = []) as -> by (cbn; lia).
    by apply rows_where_nil, existsb_false_iff.
Qed.

Lemma key_table_rows s s' : rows s' = rows s → key_table s → key_table s'.
Proof. unfold key_table. by intros ->. Qed.

Lemma elem_of_remove_first scope l x : NoDup l → x ∈ remove_first scope l ↔ x ∈ l ∧ x ≠ scope.
Proof.
  induction 1 as [|y l Hy _ IH]; cbn; [split; [by intros ?%elem_of_nil|by intros [?%elem_of_nil _]]|].
  case_bool_decide as E; [subst|].
  - rewrite elem_of_cons. split; [|by intros [[->|?] ?]]. intros Hx. split; [by right|]. by intros ->.
  - rewrite !elem_of_cons, IH. split; [intros [->|[? ?]]; auto|intros [[->|?] ?]; auto].
Qed.

Lemma remove_first_sublist scope l : remove_first scope l `sublist_of` l.
Proof. induction l as [|y l IH]; cbn; [done|]. case_bool_decide; [by apply sublist_cons|by apply sublist_skip]. Qed.

Lemma key_cache_forget scope s : key_cache s → key_cache (do_forget scope s).
Proof.
  intros Hc. pose proof Hc as (H1 & H2 & H3). unfold do_forget. destruct (cache s !! scope) as [k|] eqn:E; [|done].
  repeat split; cbn [order cache set_cache].
  - eapply sublist_NoDup; [done|apply remove_first_sublist].
  - intros [Hx Hn]%elem_of_remove_first; [|done]. rewrite lookup_delete_ne by done. by apply H2.
  - intros Hx. apply elem_of_remove_first; [done|]. destruct (decide (scope0 = scope)) as [->|Hn].
    + rewrite lookup_delete_eq in Hx. by destruct Hx.
    + rewrite lookup_delete_ne in Hx by done. split; [by apply H2|done].
  - etransitivity; [apply sublist_length, remove_first_sublist|done].
Qed.

(** A scope goes into a cache that has room. *)
Lemma key_cache_add (scope : Scope) (cek : bytes) (c : gmap Scope bytes) (o : list Scope) :
  NoDup o → (∀ x, x ∈ o ↔ is_Some (c !! x)) → c !! scope = None → (length o < cekCacheLimit)%nat →
  NoDup (o ++ [scope]) ∧ (∀ x, x ∈ o ++ [scope] ↔ is_Some (<[scope := cek]> c !! x)) ∧
  (length (o ++ [scope]) <= cekCacheLimit)%nat.
Proof.
  intros H1 H2 Hn Hl. split; [|split].
  - apply NoDup_app. split; [done|]. split; [|apply NoDup_singleton].
    intros x Hx ->%list_elem_of_singleton. apply H2 in Hx. rewrite Hn in Hx. by destruct Hx.
  - intros x. rewrite elem_of_app, list_elem_of_singleton, H2. destruct (decide (x = scope)) as [->|Hne].
    + rewrite lookup_insert_eq. naive_solver.
    + rewrite lookup_insert_ne by done. naive_solver.
  - rewrite length_app. cbn. lia.
Qed.

Lemma key_cache_remember scope cek s : key_cache s → key_cache (do_remember scope cek s).
Proof.
  intros (H1 & H2 & H3). unfold do_remember. destruct (cache s !! scope) as [k|] eqn:E.
  - repeat split; cbn [order cache set_cache]; [done|..|done]; intros Hx.
    + destruct (decide (scope0 = scope)) as [->|Hn]; [by rewrite lookup_insert_eq|].
      rewrite lookup_insert_ne by done. by apply H2.
    + apply H2. destruct (decide (scope0 = scope)) as [->|Hn]; [done|]. by rewrite lookup_insert_ne in Hx.
  - destruct (Nat.leb_spec cekCacheLimit (length (order s))) as [Hfull|Hroom]; cbv zeta iota.
    + destruct (order s) as [|oldest rest] eqn:Eo; [cbn in Hfull; unfold cekCacheLimit in Hfull; lia|].
      apply NoDup_cons in H1 as [Ho Hr]. unfold key_cache. cbn [order cache set_cache]. apply key_cache_add.
      * done.
      * intros x. destruct (decide (x = oldest)) as [->|Hn].
        -- rewrite lookup_delete_eq. split; [done|by intros []].
        -- rewrite lookup_delete_ne, <-H2, elem_of_cons by done. naive_solver.
      * apply lookup_delete_None. by right.
      * cbn in H3. lia.
    + by apply key_cache_add.
Qed.

Lemma key_cache_same s s' : cache s' = cache s → order s' = order s → key_cache s → key_cache s'.
Proof. unfold key_cache. by intros -> ->. Qed.

Lemma act_invariant s a : key_invariant s → key_invariant (act s a).
Proof.
  intros [Ht Hc]. destruct a; cbn [act]; unfold key_invariant.
  - split; [by apply key_table_Insert|]. by destruct (inserts _ _ _).
  - split; [by apply key_table_ShredTx|done].
  - destruct (0 <? affected scope s); (split; [by apply (key_table_ShredTx scope actor reason at_ s)|done]).
  - split; [|by apply key_cache_remember]. apply (key_table_rows s); [|done].
    unfold do_remember. by repeat case_match; simplify_eq.
  - split; [|by apply key_cache_forget]. apply (key_table_rows s); [|done].
    unfold do_forget. by destruct (cache s !! scope).
  - done.
  - done.
  - by destruct (exists_where _ _).
  - done.
  - done.
  - by destruct (0 <? _).
Qed.

(** ** What a request changes *)
Section Requests.
Context `{CryptoServices} (cid_of : bytes → string) (self : Config).

(** The changes a request of a scope makes itself. *)
Definition acts_on (scope : Scope) (a : Action) : Prop :=
  match a with
  | AInsert sc _ _ _ => sc = scope
  | ARemember sc _ => sc = scope
  | ACreateFile cid data => cid = cid_of data
  | _ => False
  end.

Section Kept.
Context (allowed : Action → Prop) (may_fail : error → Prop) (P : State → Prop) (scope : Scope).
Context (Hstable : stable allowed P) (Hown : ∀ a s, acts_on scope a → P s → P (act s a)).

#[local] Notation keeps := (keeps allowed may_fail P).

Lemma keeps_Fetch did : keeps (CEKRepo.Fetch scope did).
Proof using Hstable. clear Hown. by apply kept_read. Qed.
Lemma keeps_Insert did wrapped at_ : keeps (CEKRepo.Insert scope did wrapped at_).
Proof using Hown Hstable. apply kept_perform; [done|]. intros s. by apply Hown. Qed.
Lemma keeps_remember key : keeps (remember scope key).
Proof using Hown Hstable. apply kept_locked_do; [done|]. intros s. by apply Hown. Qed.
Lemma keeps_cached : keeps (cached scope).
Proof using Hstable. clear Hown. by apply kept_locked. Qed.
#[local] Hint Resolve keeps_Fetch keeps_Insert keeps_remember keeps_cached : keys.

Lemma keeps_createCEK d : keeps (createCEK self d scope).
Proof using Hown Hstable. unfold createCEK. repeat keeps_step. Qed.
Lemma keeps_open_record r : keeps (open_record self scope r).
Proof using Hown Hstable. unfold open_record. repeat keeps_step. Qed.
#[local] Hint Resolve keeps_createCEK keeps_open_record : keys.

Lemma keeps_cek d create : keeps (cek self d scope create).
Proof using Hown Hstable. unfold cek. repeat keeps_step. Qed.
#[local] Hint Resolve keeps_cek : keys.

Lemma keeps_CreateFile blob : keeps (perform (ACreateFile (cid_of blob) blob) (λ _, cid_of blob)).
Proof using Hown Hstable. apply kept_perform; [done|]. intros s. by apply Hown. Qed.
Lemma keeps_FetchFile cid : keeps (FetchFile cid).
Proof using Hstable. clear Hown. unfold FetchFile. repeat keeps_step. Qed.
#[local] Hint Resolve keeps_CreateFile keeps_FetchFile : keys.

Lemma keeps_Put d p : keeps (Put cid_of self d scope p).
Proof using Hown Hstable. unfold Put, Encrypt. repeat keeps_step. Qed.
Lemma keeps_Get d cid : keeps (Get self d scope cid).
Proof using Hown Hstable. unfold Get. repeat keeps_step. Qed.
Lemma keeps_Adopt d w : keeps (AdoptPeerCEK self d scope w).
Proof using Hown Hstable. unfold AdoptPeerCEK. repeat keeps_step. Qed.
Lemma keeps_WrapForPeer d p m k : keeps (WrapForPeer self d scope p m k).
Proof using Hown Hstable. unfold WrapForPeer. repeat keeps_step. Qed.

End Kept.

#[local] Hint Resolve keeps_Put keeps_Get keeps_Adopt keeps_WrapForPeer keeps_cek : keys.

Lemma keeps_serve allowed may_fail P d r : stable allowed P →
  (∀ a s, acts_on (request_scope r) a → P s → P (act s a)) → keeps allowed may_fail P (serve cid_of self d r).
Proof.
  intros HP Hown. destruct r; cbn [serve request_scope] in *; unfold Encrypt, Decrypt; repeat keeps_step.
Qed.

Lemma serve_all_keeps allowed may_fail P requests w :
  (∀ d r, (d, r) ∈ requests → keeps allowed may_fail P (serve cid_of self d r)) →
  schedule_ok allowed may_fail w → P (state w) →
  schedule_ok allowed may_fail (serve_all cid_of self requests w) ∧ P (state (serve_all cid_of self requests w)).
Proof.
  revert w. induction requests as [|[d r] rest IH]; intros w Hk Hs HP; [done|]. cbn [serve_all].
  destruct (Hk d r ltac:(left) w Hs HP). apply IH; [|done..]. intros d' r' Hin. apply Hk. by right.
Qed.

(** The key table and the key cache stay sound.  Whatever requests a process
    serves, whatever the other goroutines and processes do to the shared state
    between two of its accesses (shreds, inserts, cache operations, erasures) and
    however accesses fail: the records of a scope are either all live or all
    shredded, so a shredded scope never regrows a key; a scope has at most one
    live record per recipient; and the cache of plaintext keys holds at most 256
    scopes, listed once each in its eviction order. *)
Theorem key_table_stays_sound requests w :
  key_invariant (state w) → key_invariant (state (serve_all cid_of self requests w)).
Proof.
  intros Hw. apply (serve_all_keeps (λ _, True) (λ _, True) key_invariant); [| |done].
  - intros d r _. apply keeps_serve; [intros a s _|intros a s _]; apply act_invariant.
  - apply Forall_forall. intros t _. split; [by apply Forall_forall|done].
Qed.

End Requests.
