(* ===== verification/KeyErasure.v ===== *)
(** What shredding a scope means for the store: a scope whose records are
    destroyed and whose key is out of the cache yields no key to any later
    request ([AuditedShredder] of internal/dcstodcs/eraser.go over
    internal/base/artifactstore). *)
From S2P Require Import Prelude Json Sha256 Merkle Scopes Envelope KeyState ArtifactStore.

(** ** dcstodcs/eraser.go: [AuditedShredder.Shred] *)
Definition AuditedShredder_Shred (contractIRI actor reason : string) (at_ : Z) : M Z :=
  affected ← wrap "shred cek records"
    (perform (AShredAudited (ContractScope contractIRI) actor reason at_) (affected (ContractScope contractIRI)));
  _ ← Forget (ContractScope contractIRI);
  mret affected.

Section Erased.
Context (self : Config) (scope : Scope).

(** This instance holds a record of the scope. *)
Definition own_record (s : State) : Prop :=
  ∃ r, r ∈ rows s ∧ r_Scope r = scope ∧ RecipientDID r = ownDID self.

Definition all_shredded (s : State) : Prop := ∀ r, r ∈ rows s → r_Scope r = scope → live r = false.

Definition erased (s : State) : Prop := own_record s ∧ all_shredded s ∧ cache s !! scope = None.

(** Nobody puts the scope's key back in the cache: [remember] is the second half
    of a read that began before the erasure. *)
Definition no_late_reader (a : Action) : Prop := ∀ key, a ≠ ARemember scope key.

Lemma own_record_update q f s : (∀ r, r_Scope (f r) = r_Scope r ∧ RecipientDID (f r) = RecipientDID r) →
  own_record s → own_record (set_rows (update_where q f) s).
Proof.
  intros Hf (r & Hr & Hs & Hd). exists (if q r then f r else r). cbn [rows set_rows].
  rewrite elem_of_update_where. split; [by exists r|]. destruct (q r); [|done]. by destruct (Hf r) as [-> ->].
Qed.

Lemma own_record_rows s s' : rows s' = rows s → own_record s → own_record s'.
Proof. unfold own_record. by intros ->. Qed.

Lemma rows_remember sc key s : rows (do_remember sc key s) = rows s.
Proof. unfold do_remember. repeat case_match; by simplify_eq. Qed.
Lemma rows_forget sc s : rows (do_forget sc s) = rows s.
Proof. unfold do_forget. by destruct (cache s !! sc). Qed.

Lemma own_record_act a s : own_record s → own_record (act s a).
Proof.
  intros Hs. destruct a; cbn [act].
  - destruct (inserts _ _ _); [|done]. destruct Hs as (r & Hr & ?). exists r. split; [|done].
    cbn [rows set_rows]. apply elem_of_app. by left.
  - by apply own_record_update.
  - destruct (0 <? _); [|by apply own_record_update]. apply (own_record_rows (ShredTx scope0 actor reason at_ s)); [done|].
    by apply own_record_update.
  - by apply (own_record_rows s); [apply rows_remember|].
  - by apply (own_record_rows s); [apply rows_forget|].
  - done.
  - done.
  - by destruct (exists_where _ _).
  - done.
  - done.
  - by destruct (0 <? _).
Qed.

Lemma all_shredded_rows s s' : rows s' = rows s → all_shredded s → all_shredded s'.
Proof. unfold all_shredded. by intros ->. Qed.

(** Shredding leaves nothing live, and never brings a record back. *)
Lemma all_shredded_Shred sc by_ reason at_ s : all_shredded s ∨ sc = scope → all_shredded (ShredTx sc by_ reason at_ s).
Proof.
  intros H r (x & Hx & ->)%elem_of_update_where. unfold to_shred, of_scope.
  destruct (bool_decide_reflect (r_Scope x = sc)) as [E|E], (live x) eqn:El; cbn; intros Hs; try done.
  destruct H as [H| ->]; [by rewrite (H x) in El|done].
Qed.

Lemma all_shredded_act a s : own_record s → all_shredded s → all_shredded (act s a).
Proof.
  intros Hown Hs. destruct a; cbn [act].
  - destruct (inserts _ _ _) eqn:Ei; [|done]. intros r [Hr|Hr%list_elem_of_singleton]%elem_of_app; [by apply Hs|].
    subst r. cbn. intros ->. unfold inserts in Ei. bool_to_prop. destruct Hown as (r & Hr & Hsc & _).
    pose proof (not_shredded scope s r ltac:(done) Hr Hsc) as Hl. by rewrite (Hs r) in Hl.
  - apply all_shredded_Shred. by left.
  - destruct (0 <? _); [apply (all_shredded_rows (ShredTx scope0 actor reason at_ s)); [done|]|];
      apply all_shredded_Shred; by left.
  - by apply (all_shredded_rows s); [apply rows_remember|].
  - by apply (all_shredded_rows s); [apply rows_forget|].
  - done.
  - done.
  - by destruct (exists_where _ _).
  - done.
  - done.
  - by destruct (0 <? _).
Qed.

Lemma uncached_act a s : no_late_reader a → cache s !! scope = None → cache (act s a) !! scope = None.
Proof.
  intros Ha Hc. destruct a; cbn [act]; try (by repeat case_match); try done.
  - unfold do_remember. assert (scope0 ≠ scope) by (intros ->; by apply (Ha cek)).
    repeat case_match; simplify_eq; cbn [cache set_cache]; rewrite lookup_insert_ne by done; try done.
    apply lookup_delete_None. by right.
  - unfold do_forget. case_match; [|done]. cbn [cache set_cache]. apply lookup_delete_None. by right.
Qed.

Lemma erased_act a s : no_late_reader a → erased s → erased (act s a).
Proof.
  intros Ha (H1 & H2 & H3). split; [by apply own_record_act|]. split; [by apply all_shredded_act|by apply uncached_act].
Qed.

Lemma stable_erased : stable no_late_reader erased.
Proof. intros a s. apply erased_act. Qed.

(** The repository answers with a destruction record. *)
Lemma fetch_erased s : own_record s → all_shredded s →
  ∃ r, fetch_row scope (ownDID self) s = Some r ∧ live r = false.
Proof.
  intros (r & Hr & Hs & Hd) Hall. unfold fetch_row.
  set (l := order_by _ _). assert (Hl : ∀ x, x ∈ l → live x = false).
  { intros x Hx. unfold l in Hx. rewrite elem_of_order_by, elem_of_rows_where in Hx. destruct Hx as [Hx Hp].
    unfold of_scope in Hp. bool_to_prop. by apply Hall. }
  assert (Hin : r ∈ l).
  { unfold l. rewrite elem_of_order_by, elem_of_rows_where. split; [done|]. unfold of_scope, of_recipient.
    by rewrite !bool_decide_eq_true_2. }
  rewrite (rows_where_nil live l) by exact Hl. cbn [app].
  assert (Hf : r ∈ rows_where (λ x, negb (live x)) l) by (apply elem_of_rows_where; rewrite (Hl r Hin); done).
  destruct (rows_where _ l) as [|x l'] eqn:E; [by apply elem_of_nil in Hf|]. exists x. split; [done|].
  assert (Hx : x ∈ rows_where (λ x, negb (live x)) l) by (rewrite E; left).
  apply elem_of_rows_where in Hx as [Hx _]. by apply Hl.
Qed.

End Erased.

(** ** Requests on an erased scope *)
Section Refusals.
Context `{CryptoServices} (cid_of : bytes → string) (self : Config) (scope : Scope) (faulty : Prop).

#[local] Notation triple := (triple (no_late_reader scope) (λ _, faulty)).
#[local] Notation erased := (erased self scope).

(** The answer is that the content is erased, or the fault of the environment. *)
Definition refused {A} (r : result A) (s : State) : Prop :=
  erased s ∧ ∃ e, r = Err e ∧ (IsShredded e = true ∨ faulty).

Lemma refused_bind {A B} (m : M A) (f : A → M B) : triple erased m refused → triple erased (m ≫= f) refused.
Proof.
  intros Hm. eapply triple_bind; [exact Hm| |].
  - intros a w _ [_ (e & ? & _)]. done.
  - intros e s [Hs (e' & [= <-] & He)]. split; [done|]. by exists e.
Qed.

(** The shape of [cek] and [AdoptPeerCEK]: look the record up, find it shredded. *)
Lemma refused_fetch {A} (k : option CEKRecord → M A) msg :
  (∀ r, live r = false → triple erased (k (Some r)) refused) →
  triple erased (wrap msg (CEKRepo.Fetch scope (ownDID self)) ≫= k) refused.
Proof.
  intros Hk. eapply (triple_bind _ _ _ _ _ (λ r s, erased s ∧ match r with
    | Ok o => ∃ x, o = Some x ∧ live x = false | Err e => faulty end)).
  - apply triple_wrap, triple_read; [apply stable_erased|..].
    + intros s Hs. split; [done|]. by apply fetch_erased; apply Hs.
    + intros e s ? Hs. done.
  - intros o w Hs [Hw (x & -> & Hx)]. by apply (Hk x Hx).
  - intros e s [Hs Hf]. split; [done|]. exists e. auto.
Qed.

Lemma refused_throw {A} e : IsShredded e = true → triple erased (throw e : M A) refused.
Proof. intros He. apply triple_throw. intros s Hs. split; [done|]. eauto. Qed.

Lemma cek_erased d create : triple erased (cek self d scope create) refused.
Proof.
  unfold cek. eapply (triple_bind _ _ _ _ _ (λ r s, erased s ∧ r = Ok None)).
  - apply triple_locked; [apply stable_erased|]. intros s Hs. split; [done|]. f_equal. apply Hs.
  - intros hit w Hs [Hw [= ->]]. revert w Hs Hw. apply refused_fetch. intros r ->. by apply refused_throw.
  - intros e s [_ ?]. done.
Qed.

(** A wrap that is not addressed to this instance is refused before the record is read. *)
Definition misaddressed (r : Request) (e : error) : Prop :=
  ∃ wrapped, r = RAdoptPeerCEK scope wrapped ∧ ownRecipient self wrapped = Err e.

Lemma serve_erased d r : request_scope r = scope →
  triple erased (serve cid_of self d r)
    (λ a s, erased s ∧ ∃ e, a = Err e ∧ (IsShredded e = true ∨ faulty ∨ misaddressed r e)).
Proof.
  intros Hr. assert (Hweak : ∀ m : M (), triple erased m refused → triple erased m
    (λ a s, erased s ∧ ∃ e, a = Err e ∧ (IsShredded e = true ∨ faulty ∨ misaddressed r e))).
  { intros m Hm. eapply triple_conseq; [exact Hm|done|]. intros a s [Hs (e & -> & He)]. split; [done|]. naive_solver. }
  destruct r; cbn [serve request_scope] in *; subst.
  1-5: apply Hweak; unfold Put, Get, Encrypt, Decrypt, WrapForPeer; repeat first [apply cek_erased | apply refused_bind].
  unfold AdoptPeerCEK. destruct (ownRecipient self wrapped) as [u|e] eqn:Eo.
  - apply Hweak. intros w Hs Hw. revert w Hs Hw. apply refused_fetch. intros r ->. by apply refused_throw.
  - intros w Hs Hw. cbn. split; [done|]. split; [done|]. exists e. split; [done|]. right; right. by exists wrapped.
Qed.

(** A request never brings an erased scope back. *)
Lemma serve_keeps_erased d r : keeps (no_late_reader scope) (λ _, faulty) erased (serve cid_of self d r).
Proof.
  destruct (decide (request_scope r = scope)) as [E|E].
  - eapply triple_conseq; [by apply serve_erased|done|]. by intros a s [Hs _].
  - apply keeps_serve; [apply stable_erased|]. intros a s Ha. apply erased_act. intros key ->. by cbn in Ha.
Qed.

Lemma AuditedShredder_erases iri actor reason at_ : scope = ContractScope iri →
  triple (own_record self scope) (AuditedShredder_Shred iri actor reason at_)
    (λ r s, match r with Ok _ => erased s | Err _ => faulty end).
Proof.
  intros Hsc. unfold AuditedShredder_Shred. rewrite <-Hsc.
  assert (Hst : ∀ allowed, stable allowed (own_record self scope)) by (intros ? a s _; apply own_record_act).
  apply (triple_bind _ _ _ _ _ (λ r s, match r with
    | Ok _ => own_record self scope s ∧ all_shredded scope s | Err _ => faulty end)).
  - apply triple_wrap, triple_perform; [apply Hst|..]; [|done].
    intros s Hs. split; [by apply own_record_act|]. cbn [act].
    destruct (0 <? _); [apply (all_shredded_rows scope (ShredTx scope actor reason at_ s)); [done|]|];
      apply all_shredded_Shred; by right.
  - intros n. apply (triple_bind _ _ _ _ _ (λ r s, erased s ∧ r = Ok tt)).
    + apply triple_locked_do.
      * intros a s _ [H1 H2]. split; [by apply own_record_act|by apply (all_shredded_act self)].
      * intros s [H1 H2]. split; [|done]. split; [by apply own_record_act|]. split; [by apply (all_shredded_act self)|].
        cbn [act]. unfold do_forget. destruct (cache s !! scope) eqn:Ec; [|done]. cbn [cache set_cache]. by rewrite lookup_delete_eq.
    + intros u. apply triple_ret. by intros s [? _].
    + by intros e s [_ ?].
  - done.
Qed.

End Refusals.

Section Shredding.
Context `{CryptoServices} (cid_of : bytes → string) (self : Config) (faulty : Prop).

(** C15: A shredded contract yields no key again.  Once [AuditedShredder.Shred]
    succeeded for a contract of which this instance held a key record, and
    whatever requests the process served since: every request to store, read,
    encrypt or decrypt under the contract's scope, to wrap its key for a peer or
    to adopt a peer's key for it fails with a [ShreddedError], unless a database
    or network access failed or the adopted key was addressed to another
    instance; and no record comes back.  The other goroutines and processes may
    do anything between any two accesses except put the contract's key back in
    the cache (see [a_late_reader_revives_an_erased_key]). *)
Theorem shredded_scopes_yield_no_key iri actor reason at_ w n w' requests d r :
  schedule_ok (no_late_reader (ContractScope iri)) (λ _, faulty) w →
  own_record self (ContractScope iri) (state w) →
  AuditedShredder_Shred iri actor reason at_ w = (Ok n, w') →
  request_scope r = ContractScope iri →
  let w'' := serve_all cid_of self requests w' in
  erased self (ContractScope iri) (state w'') ∧
  ∃ e, (serve cid_of self d r w'').1 = Err e ∧
       (IsShredded e = true ∨ faulty ∨ misaddressed self (ContractScope iri) r e).
Proof.
  intros Hs Ho E Hr w''. destruct (AuditedShredder_erases self _ faulty iri actor reason at_ eq_refl w Hs Ho) as [Hs' He].
  rewrite E in Hs', He. cbn [fst snd] in *.
  destruct (serve_all_keeps cid_of self (no_late_reader (ContractScope iri)) (λ _, faulty)
    (erased self (ContractScope iri)) requests w') as [Hs'' He'']; [intros ? ? _; apply serve_keeps_erased|done..|].
  split; [done|]. by destruct (serve_erased cid_of self _ faulty d r Hr _ Hs'' He'') as [_ [_ ?]].
Qed.

End Shredding.

(** ** A concrete instance *)
Section Demo.
#[local] Existing Instance demo_crypto.

Definition demo_self : Config := {|
  ownDID := "did:web:a.example"; ownMethodID := "did:web:a.example#enc"; ownPub := Some (public_key 5);
  agreement p := Ok (ecdh 5 p) |}.

Definition demo_cid (data : bytes) : string := String.string_of_list_ascii (Ascii.ascii_of_nat ∘ Z.to_nat <$> 81 :: data).

Definition demo_draw : Draw :=
  {| d_now := 1; d_cek := Ok demo_cek; d_ephemeral := Ok 7; d_nonce := Ok (replicate 12 3) |}.

Definition no_state : State :=
  {| rows := []; cache := ∅; order := []; objects := ∅; erasures := []; archive := []; events := [] |}.

Definition demo_scope : Scope := ContractScope "urn:c".
Definition demo_text : bytes := [72; 105].

(** One artifact stored, by a process that has restarted since. *)
Definition demo_put : result string * World :=
  Put demo_cid demo_self demo_draw demo_scope demo_text {| state := no_state; schedule := [] |}.
Definition demo_stored_cid : string := match demo_put.1 with Ok cid => cid | Err _ => EmptyString end.
Definition demo_stored (turns : list Turn) : World := {| state := restart (state demo_put.2); schedule := turns |}.

Definition demo_shredded : World := (AuditedShredder_Shred "urn:c" "archivist" "art. 17" 9 (demo_stored [])).2.

Lemma shredded_scopes_witness :
  ∃ e, (serve demo_cid demo_self demo_draw (RGet demo_scope demo_stored_cid)
          (serve_all demo_cid demo_self [(demo_draw, RPut demo_scope demo_text)] demo_shredded)).1 = Err e ∧
       IsShredded e = true.
Proof.
  destruct (shredded_scopes_yield_no_key demo_cid demo_self False "urn:c" "archivist" "art. 17" 9 (demo_stored []) 1
    demo_shredded [(demo_draw, RPut demo_scope demo_text)] demo_draw (RGet demo_scope demo_stored_cid))
    as [_ (e & He & Hs)]; [constructor| |by vm_compute|done|].
  - eexists. split; [vm_compute; left|]. by split.
  - exists e. split; [exact He|]. destruct Hs as [Hs|[[]|(x & Hx & _)]]; [exact Hs|discriminate Hx].
Defined.

Lemma key_table_witness :
  key_invariant (state (serve_all demo_cid demo_self
    [(demo_draw, RPut demo_scope demo_text); (demo_draw, RGet demo_scope demo_stored_cid)] demo_shredded)).
Proof.
  apply (key_table_stays_sound demo_cid demo_self). split; [split|split; [|split]].
  - intros r1 r2 H1 H2 _. vm_compute in H1, H2. apply list_elem_of_singleton in H1, H2. by subst.
  - intros scope did. etransitivity; [apply length_filter|]. by vm_compute; lia.
  - vm_compute. constructor.
  - intros scope. vm_compute. split; [by intros ?%elem_of_nil|]. intros [k [=]].
  - vm_compute. lia.
Defined.

(** A read that fetched the record before the shred and reaches [remember] after
    [Forget] puts the plaintext key back: every later read succeeds, until the
    scope is evicted. *)
Definition late_reader : World :=
  (Get demo_self demo_draw demo_scope demo_stored_cid (demo_stored
    [{| others := []; failure := None |}; {| others := []; failure := None |};
     {| others := [AShredAudited demo_scope "archivist" "art. 17" 9; AForget demo_scope]; failure := None |}])).2.

Lemma a_late_reader_revives_an_erased_key :
  forallb (λ r, negb (live r)) (rows (state late_reader)) = true ∧
  (length (events (state late_reader)) = 1)%nat ∧
  (Get demo_self demo_draw demo_scope demo_stored_cid late_reader).1 = Ok demo_text.
Proof. by vm_compute. Qed.

End Demo.
