(* ===== verification/KeyDelivery.v ===== *)
(** What the encrypting store gives back (internal/base/artifactstore): stored
    artifacts read back after any other requests and after a restart, and a key
    wrapped for a peer instance opens there. *)
From S2P Require Import Prelude Json Sha256 Merkle Scopes Envelope KeyState ArtifactStore KeyErasure.
Import GoStrings.

(** ** The stored form decodes *)
Section Codec.

Lemma std_char_value n : 0 <= n < 64 →
  std_value (std_char (b64_digit n)) = Some n ∧ std_char (b64_digit n) ≠ "="%char ∧
  std_char (b64_digit n) ∉ [Ascii.ascii_of_nat 10; Ascii.ascii_of_nat 13].
Proof.
  intros Hn. assert (Hall : Forall (λ k : nat, std_value (std_char (b64_digit (Z.of_nat k))) = Some (Z.of_nat k) ∧
    std_char (b64_digit (Z.of_nat k)) ≠ "="%char ∧
    std_char (b64_digit (Z.of_nat k)) ∉ [Ascii.ascii_of_nat 10; Ascii.ascii_of_nat 13]) (seq 0 64)).
  { apply (bool_decide_unpack _). by vm_compute. }
  rewrite Forall_forall in Hall. specialize (Hall (Z.to_nat n)). rewrite Z2Nat.id in Hall by lia.
  apply Hall, elem_of_seq. lia.
Qed.

(** A partial group holds two or three digits. *)
Lemma length_b64_digits bs : (length (b64_digits bs) mod 4 ≠ 1)%nat.
Proof.
  induction bs as [|a|a b|a b c rest IH] using triples_ind; [done..|]. cbn [b64_digits length].
  replace (S (S (S (S (length (b64_digits rest)))))) with (length (b64_digits rest) + 1 * 4)%nat by lia.
  by rewrite Nat.Div0.mod_add.
Qed.

Lemma Std_roundtrip bs : is_bytes bs → Std_Decode (Std_Encode bs) = Ok bs.
Proof.
  intros Hb. unfold Std_Decode, Std_Encode. rewrite String.list_ascii_of_string_of_list_ascii.
  set (ds := b64_digits bs). set (cs := (λ d, std_char (b64_digit d)) <$> ds).
  pose proof (b64_digits_range bs Hb) as Hr. fold ds in Hr.
  assert (Hcs : Forall (λ c, c ≠ "="%char ∧ c ∉ [Ascii.ascii_of_nat 10; Ascii.ascii_of_nat 13]) cs ∧
                mapM std_value cs = Some ds).
  { unfold cs. clear -Hr. induction Hr as [|d ds Hd _ [IH1 IH2]]; [done|].
    destruct (std_char_value d Hd) as (Hv & Hne & Hn). rewrite fmap_cons. split; [by constructor|].
    cbn [mapM]. by rewrite Hv, IH2. }
  destruct Hcs as [Hcs Hm].
  assert (Hlen : length cs = length ds) by (unfold cs; by rewrite length_fmap).
  assert (Hpad : Forall (λ c, c ∉ [Ascii.ascii_of_nat 10; Ascii.ascii_of_nat 13]) (cs ++ padding (length ds))).
  { apply Forall_app. split; [eapply Forall_impl; [exact Hcs|]; by intros ? []|].
    apply Forall_replicate, (bool_decide_unpack _). by vm_compute. }
  replace (filter _ _) with (cs ++ padding (length ds)).
  2:{ symmetry. clear -Hpad. induction Hpad as [|c l Hc _ IH]; [done|]. by rewrite filter_cons_True, IH. }
  pose proof (length_b64_digits bs) as Hmod. fold ds in Hmod.
  assert (Hstrip : strip_padding 2 (reverse (cs ++ padding (length ds))) = reverse cs).
  { rewrite reverse_app. unfold padding. rewrite reverse_replicate.
    assert (Hstop : ∀ fuel, strip_padding fuel (reverse cs) = reverse cs).
    { intros [|fuel]; [done|]. destruct (reverse cs) as [|c l] eqn:E; [done|]. cbn.
      rewrite bool_decide_eq_false_2; [done|]. rewrite Forall_forall in Hcs. apply Hcs, elem_of_reverse.
      rewrite E. left. }
    pose proof (Nat.mod_upper_bound (length ds) 4 ltac:(lia)) as Hb4.
    destruct (length ds mod 4)%nat as [|[|[|[|k]]]]; try lia; [exact (Hstop 2%nat)|exact (Hstop 0%nat)|exact (Hstop 1%nat)]. }
  rewrite Hstrip, reverse_involutive, Hm. cbn [mbind option_bind]. rewrite (b64_bytes_digits bs Hb : b64_bytes ds = Some bs).
  rewrite length_app, Hlen. unfold padding. rewrite length_replicate.
  pose proof (Nat.div_mod_eq (length ds) 4) as Hdm. pose proof (Nat.mod_upper_bound (length ds) 4 ltac:(lia)) as Hb4.
  enough (((length ds + (4 - length ds mod 4) mod 4) mod 4 =? 0)%nat = true) as -> by done.
  apply Nat.eqb_eq. rewrite Hdm at 1. set (m := (length ds mod 4)%nat) in *.
  replace (4 * (length ds / 4) + m + (4 - m) mod 4)%nat with (m + (4 - m) mod 4 + (length ds / 4) * 4)%nat by lia.
  rewrite Nat.Div0.mod_add. by destruct m as [|[|[|[|m]]]]; try lia.
Qed.

Lemma UnmarshalCEK_MarshalCEK w : is_bytes (w_Wrapped w) → UnmarshalCEK (MarshalCEK w) = Ok w.
Proof.
  intros Hb. destruct w as [alg kid [kty crv x y] wrapped]. unfold UnmarshalCEK, MarshalCEK.
  cbn [w_Alg w_KID w_EPK w_Wrapped Kty Crv X Y] in *. cbn [Unmarshal_map mbind result_bind].
  unfold UnmarshalEPK, string_field. simplify_map_eq. cbn [mbind result_bind]. simplify_map_eq.
  cbn [mbind result_bind]. rewrite Std_roundtrip by done. done.
Qed.

(** The wire form of a wrapped key carries all of it. *)
Lemma EnvelopeWrappedCEK_Wire w : EnvelopeWrappedCEK (Some (WireWrappedCEK w)) = Ok w.
Proof. by destruct w as [alg kid [kty crv x y] wrapped]. Qed.

End Codec.

(** ** The key of a scope *)
Section Delivery.
Context `{CryptoServicesLaws} (cid_of : bytes → string) (cid_of_inj : Inj (=) (=) cid_of)
  (cid_of_named : ∀ data, cid_of data ≠ EmptyString).

(** The published key-agreement key is the one the HSM derives with. *)
Record config_ok (self : Config) (k : Z) : Prop := {
  own_public : ownPub self = Some (public_key k);
  own_private : ∀ p, agreement self p = Ok (ecdh k p);
  own_method : TrimSpace (ownMethodID self) = ownMethodID self ∧ ownMethodID self ≠ EmptyString ∧
               HasPrefix (ownMethodID self) "#" = false
}.

Definition good_key (key : bytes) : Prop := length key = cekLen ∧ is_bytes key.

(** The call's random draws succeed. *)
Definition drawn (d : Draw) : Prop :=
  (∃ key, d_cek d = Ok key ∧ good_key key) ∧ (∃ e, d_ephemeral d = Ok e) ∧
  (∃ n, d_nonce d = Ok n ∧ length n = nonceLen).

Section Instance.
Context (self : Config) (k : Z) (Hself : config_ok self k) (scope : Scope).

Definition opens (wrapped : json) : result bytes := w ← UnmarshalCEK wrapped; Unwrap (Some w) (agreement self).

(** The live record of the scope opens to [key], and the cache has no other. *)
Definition has_key (key : bytes) (s : State) : Prop :=
  (∃ r, fetch_row scope (ownDID self) s = Some r ∧ live r = true ∧ opens (r_WrappedCEK r) = Ok key) ∧
  good_key key ∧ (cache s !! scope = None ∨ cache s !! scope = Some key).

Definition no_key (s : State) : Prop :=
  fetch_row scope (ownDID self) s = None ∧ cache s !! scope = None ∧ scope_shredded scope s = false.

Definition ready (s : State) : Prop := no_key s ∨ ∃ key, has_key key s.

(** What the others do not do: shred the scope, race on its cache entry, delete
    or replace objects, or write a record of this instance that does not open. *)
Definition regular (a : Action) : Prop :=
  match a with
  | AInsert sc did wrapped _ => sc = scope → did = ownDID self → ∃ key, opens wrapped = Ok key ∧ good_key key
  | AShred sc _ _ _ | AShredAudited sc _ _ _ | ARemember sc _ => sc ≠ scope
  | ACreateFile cid data => cid = cid_of data
  | ADeleteFile _ => False
  | _ => True
  end.

Lemma opens_wrapped e key : good_key key →
  ∃ w, Wrap (Ok e) key (ownMethodID self) (ownPub self) = Ok w ∧ opens (MarshalCEK w) = Ok key.
Proof.
  intros [Hl Hb]. destruct Hself as [-> Hag (Ht & Hn & _)].
  destruct (Unwrap_Wrap k e key (ownMethodID self) Hl Hb) as (w & Ew & _ & Eu); [by rewrite Ht|].
  exists w. split; [done|]. unfold opens. rewrite UnmarshalCEK_MarshalCEK by (by eapply Wrap_bytes).
  etransitivity; [|exact Eu]. by apply Unwrap_agreement.
Qed.

(** ** Rows of the scope *)
Definition mine (r : CEKRecord) : bool := of_scope scope r && of_recipient (ownDID self) r.

Lemma fetch_row_mine s s' : rows_where mine (rows s') = rows_where mine (rows s) →
  fetch_row scope (ownDID self) s' = fetch_row scope (ownDID self) s.
Proof. unfold fetch_row. fold mine. by intros ->. Qed.

Lemma fetch_row_in s r : fetch_row scope (ownDID self) s = Some r → r ∈ rows s ∧ mine r = true.
Proof.
  unfold fetch_row. intros Hh. assert (Hin : r ∈ order_by (λ r, - CreatedAt r) (rows_where mine (rows s))).
  { destruct (rows_where live _ ++ rows_where _ _) as [|x l] eqn:E; [done|]. injection Hh as ->.
    assert (Hx : r ∈ rows_where live (order_by (λ r, - CreatedAt r) (rows_where mine (rows s))) ++
                 rows_where (λ r, negb (live r)) (order_by (λ r, - CreatedAt r) (rows_where mine (rows s))))
      by (unfold mine; rewrite E; left).
    apply elem_of_app in Hx as [Hx|Hx]; by apply elem_of_rows_where in Hx as [Hx _]. }
  rewrite elem_of_order_by, elem_of_rows_where in Hin. done.
Qed.

Lemma fetch_row_None s : fetch_row scope (ownDID self) s = None → rows_where mine (rows s) = [].
Proof.
  unfold fetch_row. fold mine. intros Hh. set (l := order_by _ _) in *.
  assert (Hl : l = []).
  { destruct l as [|x l']; [done|]. unfold rows_where in Hh. rewrite !filter_cons in Hh.
    destruct (live x) eqn:E; cbn in Hh; [done|].
    destruct (filter _ l'); cbn in Hh; done. }
  pose proof (order_by_Permutation (λ r, - CreatedAt r) (rows_where mine (rows s))) as HP.
  fold l in HP. rewrite Hl in HP. by apply Permutation_nil_l in HP.
Qed.

Lemma mine_ShredTx sc by_ reason at_ s : sc ≠ scope →
  rows_where mine (rows (ShredTx sc by_ reason at_ s)) = rows_where mine (rows s).
Proof.
  intros Hne. apply rows_where_update. intros x. unfold to_shred, mine, of_scope. intros Hx. bool_to_prop.
  cbn. rewrite bool_decide_eq_false_2 by congruence. done.
Qed.

(** A live record of this instance keeps others out. *)
Lemma live_mine_blocks s r at_ wrapped : fetch_row scope (ownDID self) s = Some r → live r = true →
  act s (AInsert scope (ownDID self) wrapped at_) = s.
Proof.
  intros [Hr Hm]%fetch_row_in Hl. cbn [act]. unfold inserts.
  assert (exists_where (live_for scope (ownDID self)) (rows s) = true) as ->.
  { apply existsb_true_iff. exists r. split; [done|]. unfold live_for. fold (mine r). by rewrite Hm, Hl. }
  by rewrite andb_false_r.
Qed.

Lemma mine_Insert_other sc did wrapped at_ s : sc ≠ scope ∨ did ≠ ownDID self →
  rows_where mine (rows (act s (AInsert sc did wrapped at_))) = rows_where mine (rows s).
Proof.
  intros Hne. cbn [act]. destruct (inserts sc did s); [|done]. cbn [rows set_rows]. unfold rows_where.
  rewrite filter_app, filter_cons_False, filter_nil, app_nil_r; [done|]. unfold mine, of_scope, of_recipient.
  cbn. intros Hm. bool_to_prop. naive_solver.
Qed.

(** The first record of this instance. *)
Lemma fetch_inserted s wrapped at_ : fetch_row scope (ownDID self) s = None →
  inserts scope (ownDID self) s = true →
  ∃ r, fetch_row scope (ownDID self) (act s (AInsert scope (ownDID self) wrapped at_)) = Some r ∧
       live r = true ∧ r_WrappedCEK r = wrapped.
Proof.
  intros Hn Hi. cbn [act]. rewrite Hi. unfold fetch_row. cbn [rows set_rows]. fold mine.
  assert (rows_where mine (rows s ++ [{| r_Scope := scope; RecipientDID := ownDID self; r_WrappedCEK := wrapped;
    CreatedAt := at_; ShreddedAt := None; ShreddedBy := None; ShredReason := None |}]) =
    [{| r_Scope := scope; RecipientDID := ownDID self; r_WrappedCEK := wrapped;
    CreatedAt := at_; ShreddedAt := None; ShreddedBy := None; ShredReason := None |}]) as ->.
  { unfold rows_where. rewrite filter_app, filter_cons_True.
    - pose proof (fetch_row_None s Hn) as E. unfold rows_where in E. by rewrite E.
    - unfold mine, of_scope, of_recipient. cbn. by rewrite !bool_decide_eq_true_2. }
  by eexists.
Qed.

(** Only [remember] writes a cache entry. *)
Lemma cache_act a s : (∀ key, a ≠ ARemember scope key) →
  cache (act s a) !! scope = None ∨ cache (act s a) !! scope = cache s !! scope.
Proof.
  intros Ha. destruct a; cbn [act]; try (right; by repeat case_match).
  - unfold do_remember. assert (scope0 ≠ scope) by (intros ->; by apply (Ha cek)).
    repeat case_match; simplify_eq; cbn [cache set_cache]; rewrite lookup_insert_ne by done; auto.
    destruct (decide (s0 = scope)) as [->|]; [rewrite lookup_delete_eq; auto|rewrite lookup_delete_ne by done; auto].
  - unfold do_forget. case_match; [|auto]. cbn [cache set_cache].
    destruct (decide (scope0 = scope)) as [->|]; [rewrite lookup_delete_eq; auto|rewrite lookup_delete_ne by done; auto].
Qed.

(** ** The key survives the others *)
Lemma fetch_act a s : regular a → (∀ wrapped at_, a ≠ AInsert scope (ownDID self) wrapped at_) →
  fetch_row scope (ownDID self) (act s a) = fetch_row scope (ownDID self) s.
Proof.
  intros Ha Hn. apply fetch_row_mine. destruct a; cbn [act].
  - apply mine_Insert_other. destruct (decide (scope0 = scope)) as [->|]; [right; intros ->; by eapply Hn|by left].
  - by apply mine_ShredTx.
  - by destruct (0 <? _); apply (mine_ShredTx scope0 actor reason at_ s).
  - by rewrite rows_remember.
  - by rewrite rows_forget.
  - done.
  - done.
  - by destruct (exists_where _ _).
  - done.
  - done.
  - by destruct (0 <? _).
Qed.

Lemma own_insert_dec a : {x : json * Z | a = AInsert scope (ownDID self) x.1 x.2} +
  {∀ wrapped at_, a ≠ AInsert scope (ownDID self) wrapped at_}.
Proof.
  destruct a as [sc did wrapped at_| | | | | | | | | |]; try (right; intros; discriminate).
  destruct (decide (sc = scope ∧ did = ownDID self)) as [[-> ->]|Hne]; [left; by exists (wrapped, at_)|].
  right. intros w t [= -> -> _ _]. by apply Hne.
Qed.

Lemma regular_not_remember a : regular a → ∀ key, a ≠ ARemember scope key.
Proof. by intros Ha key ->. Qed.

Lemma has_key_act key a s : regular a → has_key key s → has_key key (act s a).
Proof.
  intros Ha ((r & Hf & Hl & Ho) & Hg & Hc). destruct (own_insert_dec a) as [[x ->]|Hn].
  - rewrite (live_mine_blocks s r _ _ Hf Hl). by split; [exists r|].
  - split; [exists r; by rewrite fetch_act|]. split; [done|].
    destruct (cache_act a s (regular_not_remember a Ha)) as [-> | ->]; auto.
Qed.

Lemma scope_shredded_ShredTx sc by_ reason at_ s : sc ≠ scope →
  scope_shredded scope s = false → scope_shredded scope (ShredTx sc by_ reason at_ s) = false.
Proof.
  unfold scope_shredded, exists_where. rewrite !existsb_false_iff. intros Hne Hs r (x & Hx & ->)%elem_of_update_where.
  destruct (to_shred sc x) eqn:E; [|by apply Hs]. unfold to_shred, of_scope in *. bool_to_prop.
  cbn. by rewrite bool_decide_eq_false_2 by congruence.
Qed.

Lemma scope_shredded_rows s s' : rows s' = rows s → scope_shredded scope s' = scope_shredded scope s.
Proof. unfold scope_shredded. by intros ->. Qed.

Lemma scope_shredded_act a s : regular a → scope_shredded scope s = false → scope_shredded scope (act s a) = false.
Proof.
  intros Ha Hs. destruct a; cbn [act].
  - destruct (inserts _ _ _); [|done]. unfold scope_shredded, exists_where in *. cbn [rows set_rows].
    rewrite existsb_app, Hs. cbn. by rewrite andb_false_r.
  - by apply scope_shredded_ShredTx.
  - by destruct (0 <? _); apply (scope_shredded_ShredTx scope0 actor reason at_ s).
  - by rewrite (scope_shredded_rows s) by apply rows_remember.
  - by rewrite (scope_shredded_rows s) by apply rows_forget.
  - done.
  - done.
  - by destruct (exists_where _ _).
  - done.
  - done.
  - by destruct (0 <? _).
Qed.

(** Where no record is, one goes in. *)
Lemma no_key_inserts s : no_key s → inserts scope (ownDID self) s = true.
Proof.
  intros (Hf & _ & Hs). unfold inserts. rewrite Hs. cbn [negb andb]. apply negb_true_iff, existsb_false_iff.
  intros r Hr. pose proof (fetch_row_None s Hf) as Hm. destruct (live_for scope (ownDID self) r) eqn:E; [|done].
  exfalso. unfold live_for in E. apply andb_true_iff in E as [E _].
  assert (Hin : r ∈ rows_where mine (rows s)) by by apply elem_of_rows_where. rewrite Hm in Hin. by apply elem_of_nil in Hin.
Qed.

Lemma inserted_key key wrapped at_ s : no_key s → opens wrapped = Ok key → good_key key →
  has_key key (act s (AInsert scope (ownDID self) wrapped at_)).
Proof.
  intros Hn Ho Hg. pose proof (no_key_inserts s Hn) as Hi. destruct Hn as (Hf & Hc & _).
  destruct (fetch_inserted s wrapped at_ Hf Hi) as (r & Hr & Hl & Hw).
  split; [exists r; by rewrite Hw|]. split; [done|]. left. cbn [act]. by rewrite Hi.
Qed.

Lemma has_key_inserts key s : has_key key s → inserts scope (ownDID self) s = false.
Proof.
  intros ((r & Hf & Hl & _) & _). destruct (inserts scope (ownDID self) s) eqn:Ei; [|done].
  pose proof (f_equal (λ s, length (rows s)) (live_mine_blocks s r 0 JNull Hf Hl)) as E.
  cbn [act] in E. rewrite Ei in E. cbn [rows set_rows] in E. rewrite length_app in E. cbn in E. lia.
Qed.

Lemma ready_act a s : regular a → ready s → ready (act s a).
Proof.
  intros Ha [Hn|[key Hk]]; [|right; exists key; by apply has_key_act].
  destruct (own_insert_dec a) as [[x ->]|Hne].
  - destruct (Ha eq_refl eq_refl) as (key & Ho & Hg). right. exists key. by apply inserted_key.
  - left. destruct Hn as (Hf & Hc & Hs). split; [by rewrite fetch_act|]. split; [|by apply scope_shredded_act].
    by destruct (cache_act a s (regular_not_remember a Ha)) as [-> | ->].
Qed.

Lemma remembered key s : cache (do_remember scope key s) !! scope = Some key.
Proof. unfold do_remember. repeat case_match; cbn [cache set_cache]; apply lookup_insert_eq. Qed.

Lemma has_key_remember key s : has_key key s → has_key key (act s (ARemember scope key)).
Proof.
  intros (Hr & Hg & _). split; [|split; [done|right; apply remembered]].
  destruct Hr as (r & Hf & ?). exists r. split; [|done]. cbn [act]. rewrite <-Hf.
  apply fetch_row_mine. by rewrite rows_remember.
Qed.

(** ** [cek] *)
Section Faults.
Context (faulty : Prop).
#[local] Notation triple := (triple regular (λ _, faulty)).

(** The key is there, or the environment failed. *)
Definition yields {A} (a : A) (r : result A) : Prop := r = Ok a ∨ ∃ e, r = Err e ∧ faulty.

Lemma remember_key key {A} (m : M A) Q : triple (has_key key) m Q →
  triple (has_key key) (remember scope key ≫= λ _, m) Q.
Proof.
  intros Hm. apply (triple_bind _ _ _ _ _ (λ r s, has_key key s ∧ r = Ok tt)).
  - apply triple_locked_do; [intros a s; apply has_key_act|]. intros s Hs. split; [by apply has_key_remember|done].
  - intros _ w Hw [Hs _]. by apply Hm.
  - by intros e s [_ ?].
Qed.

Lemma open_record_key key r : opens (r_WrappedCEK r) = Ok key →
  triple (has_key key) (open_record self scope r) (λ a s, has_key key s ∧ yields key a).
Proof.
  unfold opens, open_record. intros Ho. destruct (UnmarshalCEK (r_WrappedCEK r)) as [w|]; [|done].
  apply (triple_lift_Ok _ _ _ _ w); [done|]. change (Unwrap (Some w) (agreement self) = Ok key) in Ho.
  apply (triple_lift_Ok _ _ _ _ key); [by rewrite Ho|].
  apply remember_key, triple_ret. intros s Hs. split; [done|by left].
Qed.

(** The repository answers with the record. *)
Lemma fetch_key key (f : option CEKRecord → M bytes) msg :
  (∀ r, live r = true → f (Some r) = open_record self scope r) →
  triple (has_key key) (wrap msg (CEKRepo.Fetch scope (ownDID self)) ≫= f) (λ a s, has_key key s ∧ yields key a).
Proof.
  intros Hf. apply (triple_bind _ _ _ _ _ (λ r s, has_key key s ∧ match r with
    | Ok o => ∃ x, o = Some x ∧ live x = true ∧ opens (r_WrappedCEK x) = Ok key | Err e => faulty end)).
  - apply triple_wrap, triple_read; [intros a s; apply has_key_act|..]; [|done].
    intros s Hs. split; [done|]. destruct Hs as [(r & Hfr & Hr) _]. by exists r.
  - intros o. apply (triple_with _ _ (∃ x, o = Some x ∧ live x = true ∧ opens (r_WrappedCEK x) = Ok key) (has_key key));
      [naive_solver|]. intros (x & -> & Hl & Ho). rewrite Hf by done. by apply open_record_key.
  - intros e s [Hs ?]. split; [done|]. right. eauto.
Qed.

(** On a scope whose key is there, [cek] yields it. *)
Lemma cek_holds key d create :
  triple (has_key key) (cek self d scope create) (λ a s, has_key key s ∧ yields key a).
Proof.
  unfold cek. apply (triple_bind _ _ _ _ _ (λ r s, has_key key s ∧ (r = Ok None ∨ r = Ok (Some key)))).
  - apply triple_locked; [intros a s; apply has_key_act|]. intros s Hs. split; [done|].
    destruct Hs as (_ & _ & [-> | ->]); auto.
  - intros hit. apply (triple_with _ _ (hit = None ∨ hit = Some key) (has_key key)); [naive_solver|].
    intros [-> | ->]; [apply fetch_key; by intros r ->|apply triple_ret; intros s Hs; split; [done|by left]].
  - intros e s [_ [?|?]]; done.
Qed.

(** A fresh record opens to the drawn key. *)
Lemma createCEK_key d : drawn d →
  triple ready (createCEK self d scope) (λ a s, match a with
    | Ok None => ∃ key, has_key key s | Ok (Some key) => has_key key s | Err e => faulty ∧ ready s end).
Proof.
  intros ((key & Ek & Hg) & (e & Ee) & _). unfold createCEK. rewrite Ek, Ee.
  destruct (opens_wrapped e key Hg) as (w & Ew & Ho).
  apply (triple_lift_Ok _ _ _ _ key); [done|]. apply (triple_lift_Ok _ _ _ _ w); [by rewrite Ew|].
  assert (Hreg : regular (AInsert scope (ownDID self) (MarshalCEK w) (d_now d))) by (intros _ _; by exists key).
  apply (triple_bind _ _ _ _ _ (λ a s, match a with
    | Ok true => has_key key s | Ok false => ∃ key, has_key key s | Err _ => faulty ∧ ready s end)).
  - apply triple_wrap, triple_perform; [intros a s; apply ready_act|..].
    + intros s [Hs|[key' Hs]].
      * rewrite no_key_inserts by done. by apply inserted_key.
      * rewrite (has_key_inserts key') by done. exists key'. by apply has_key_act.
    + intros e' s Hf Hs. split; (split; [done|]); [done|by apply ready_act].
  - intros [|]; cbn [negb]; [by apply remember_key, triple_ret|by apply triple_ret].
  - done.
Qed.

Lemma yields_key (m : M bytes) key : triple (has_key key) m (λ a s, has_key key s ∧ yields key a) →
  triple (has_key key) m (λ a s, match a with Ok key => has_key key s | Err e => faulty end).
Proof.
  intros Hm. eapply triple_conseq; [exact Hm|done|]. by intros a s [Hs [-> | (e & -> & He)]].
Qed.

(** On a scope without a key, [cek] makes one and yields it. *)
Lemma cek_ready d : drawn d →
  triple ready (cek self d scope true) (λ a s, match a with Ok key => has_key key s | Err e => faulty end).
Proof.
  intros Hd. unfold cek. apply (triple_bind _ _ _ _ _ (λ r s, match r with
    | Ok None => ready s | Ok (Some key) => has_key key s | Err _ => False end)).
  - apply triple_locked; [intros a s; apply ready_act|]. intros s [Hn|[key Hk]].
    + destruct Hn as (Hf & Hc & Hs). rewrite Hc. by left.
    + destruct (cache s !! scope) eqn:E; [|right; by exists key]. destruct Hk as (Hr & Hg & [Hc|Hc]); [congruence|].
      assert (b = key) as -> by congruence. split; [done|]. split; [done|by right].
  - intros [hit|]; [by apply triple_ret|].
    apply (triple_bind _ _ _ _ _ (λ r s, match r with
      | Ok None => ready s
      | Ok (Some x) => ∃ key, has_key key s ∧ live x = true ∧ opens (r_WrappedCEK x) = Ok key
      | Err e => faulty end)).
    + apply triple_wrap, triple_read; [intros a s; apply ready_act|..]; [|done].
      intros s Hs. destruct (fetch_row scope (ownDID self) s) as [r|] eqn:Ef; [|done].
      destruct Hs as [[Hf _]|[key Hk]]; [congruence|]. exists key. split; [done|].
      destruct Hk as [(r' & Hf & Hr) _]. assert (r' = r) as -> by congruence. done.
    + intros [r|].
      * intros w Hw (key & Hk & Hl & Ho). rewrite Hl.
        by apply (yields_key _ key (open_record_key key r Ho)).
      * cbn [negb]. eapply triple_bind; [by apply createCEK_key| |by intros e s [? _]].
        intros [key|]; [by apply triple_ret|]. intros w Hw [key Hk].
        eapply (yields_key _ key); [|done..]. apply fetch_key. by intros r ->.
    + done.
  - done.
Qed.

End Faults.


(** ** Artifacts *)

(** The key is there, and so is the object. *)
Definition stored (key : bytes) (cid : string) (blob : bytes) (s : State) : Prop :=
  has_key key s ∧ objects s !! cid = Some blob.

Lemma object_act a s blob : regular a → objects s !! cid_of blob = Some blob →
  objects (act s a) !! cid_of blob = Some blob.
Proof.
  intros Ha Hb. destruct a; cbn [act regular] in *; try done; try (by repeat case_match).
  - unfold do_remember. by repeat case_match.
  - unfold do_forget. by repeat case_match.
  - subst cid. cbn [objects set_objects]. destruct (decide (data = blob)) as [->|Hne]; [by rewrite lookup_insert_eq|].
    rewrite lookup_insert_ne; [done|]. intros E. by apply cid_of_inj in E.
Qed.

Lemma stored_act a s key blob : regular a → stored key (cid_of blob) blob s → stored key (cid_of blob) blob (act s a).
Proof. intros Ha [Hk Ho]. split; [by apply has_key_act|by apply object_act]. Qed.

Lemma stored_insert did wrapped at_ s key blob : stored key (cid_of blob) blob s →
  stored key (cid_of blob) blob (act s (AInsert scope did wrapped at_)).
Proof.
  intros Hs. destruct (decide (did = ownDID self)) as [->|Hne]; [|by apply stored_act; [intros _ ?|]].
  destruct Hs as [Hk Ho]. destruct Hk as ((r & Hf & Hl & Hr) & Hk). rewrite (live_mine_blocks s r) by done.
  split; [|done]. by split; [exists r|].
Qed.

Section Served.
Context (key blob : bytes).
#[local] Notation P := (stored key (cid_of blob) blob).
#[local] Notation keeps := (keeps regular (λ _, True) P).

Lemma stable_stored : stable regular P.
Proof. intros a s Ha. by apply stored_act. Qed.

Lemma keeps_stored_cek d create : keeps (cek self d scope create).
Proof.
  intros w Hw [Hk Ho]. destruct (cek_holds True key d create w Hw Hk) as [Hw' [Hk' _]]. split; [done|]. split; [done|].
  assert (Hobj : KeyState.keeps regular (λ _, True) (λ s, objects s !! cid_of blob = Some blob) (cek self d scope create)).
  { apply (keeps_cek cid_of); [intros a s; apply object_act|]. intros a s Ha Hb.
    destruct a; cbn [acts_on] in Ha; try done.
    - cbn [act]. by destruct (inserts _ _ _).
    - cbn [act]. unfold do_remember. by repeat case_match.
    - by apply object_act. }
  by apply Hobj.
Qed.

Lemma keeps_stored_Insert did wrapped at_ : keeps (CEKRepo.Insert scope did wrapped at_).
Proof. apply kept_perform; [apply stable_stored|]. intros s. apply stored_insert. Qed.

Lemma keeps_stored_CreateFile data : keeps (perform (ACreateFile (cid_of data) data) (λ _, cid_of data)).
Proof. apply kept_perform; [apply stable_stored|]. intros s. by apply stored_act. Qed.

Lemma keeps_stored_FetchFile cid : keeps (FetchFile cid).
Proof. unfold FetchFile. apply kept_bind; [apply kept_read, stable_stored|intros [|]; eauto with keys]. Qed.

(** Adoption finds the live record and leaves it. *)
Lemma keeps_stored_Adopt d w : keeps (AdoptPeerCEK self d scope w).
Proof.
  unfold AdoptPeerCEK. apply kept_bind; [apply kept_lift|]. intros _.
  apply (triple_bind _ _ _ _ _ (λ r s, P s ∧ ∀ o, r = Ok o → ∃ x, o = Some x ∧ live x = true)).
  - apply triple_wrap, triple_read; [apply stable_stored|..]; [|by intros e s _ Hs].
    intros s Hs. split; [done|]. intros o [= <-]. destruct Hs as [[(r & Hf & Hl & _) _] _]. by exists r.
  - intros o. apply (triple_with _ _ (∃ x, o = Some x ∧ live x = true) P).
    + intros s [Hs Ho]. split; [by apply Ho|done].
    + intros (x & -> & ->). by apply triple_ret.
  - by intros e s [? _].
Qed.

#[local] Hint Resolve keeps_stored_cek keeps_stored_Insert keeps_stored_CreateFile keeps_stored_FetchFile
  keeps_stored_Adopt : keys.

Lemma serve_keeps_stored d r : keeps (serve cid_of self d r).
Proof.
  destruct (decide (request_scope r = scope)) as [E|E].
  - destruct r; cbn [serve request_scope] in *; subst; unfold Put, Get, Encrypt, Decrypt, WrapForPeer;
      repeat keeps_step.
  - apply keeps_serve; [apply stable_stored|]. intros a s Ha. apply stored_act.
    destruct a; cbn [acts_on regular] in *; congruence || done.
Qed.

End Served.

Lemma Put_stores faulty d p : drawn d →
  triple regular (λ _, faulty) ready (Put cid_of self d scope p) (λ r s, match r with
    | Ok cid => ∃ key blob, cid = cid_of blob ∧ stored key cid blob s ∧ Envelope.Decrypt key blob (AAD scope) = Ok p
    | Err e => faulty end).
Proof.
  intros Hd. pose proof Hd as (_ & _ & (n & En & Hn)). unfold Put.
  apply (triple_bind _ _ _ _ _ (λ r s, match r with
    | Ok blob => ∃ key, has_key key s ∧ Envelope.Decrypt key blob (AAD scope) = Ok p | Err e => faulty end)).
  - unfold Encrypt. eapply triple_bind; [by apply cek_ready| |done]. intros key.
    apply (triple_with _ _ (good_key key) (has_key key)); [intros s Hs; split; [apply Hs|done]|]. intros [Hl _].
    destruct (Decrypt_Encrypt n key p (AAD scope) Hl Hn) as (blob & Ee & Ed).
    apply triple_lift. intros s Hs. 
    assert (Envelope.Encrypt (d_nonce d) key p (AAD scope) = Ok blob) as -> by (rewrite En; exact Ee). by exists key.
  - intros blob. apply (triple_bind _ _ _ _ _ (λ r s, match r with
      | Ok cid => cid = cid_of blob ∧ ∃ key, stored key cid blob s ∧ Envelope.Decrypt key blob (AAD scope) = Ok p
      | Err e => faulty end)).
    + apply triple_wrap, triple_perform.
      * intros a s Ha (key & Hk & Hb). exists key. split; [by apply has_key_act|done].
      * intros s (key & Hk & Hb). split; [done|]. exists key. split; [|done].
        split; [by apply (has_key_act key (ACreateFile (cid_of blob) blob))|]. apply lookup_insert_eq.
      * done.
    + intros cid. apply (triple_with _ _ (cid = cid_of blob) (λ s, ∃ key, stored key cid blob s ∧
        Envelope.Decrypt key blob (AAD scope) = Ok p)); [done|]. intros ->.
      rewrite bool_decide_eq_false_2 by apply cid_of_named. apply triple_ret. intros s (key & ? & ?). by exists key, blob.
    + done.
  - done.
Qed.

Lemma Get_reads faulty d key blob p : Envelope.Decrypt key blob (AAD scope) = Ok p →
  triple regular (λ _, faulty) (stored key (cid_of blob) blob) (Get self d scope (cid_of blob))
    (λ r _, yields faulty p r).
Proof.
  intros Hb. unfold Get.
  apply (triple_bind _ _ _ _ _ (λ r s, stored key (cid_of blob) blob s ∧ yields faulty key r)).
  - intros w Hw Hs. destruct (cek_holds faulty key d false w Hw (proj1 Hs)) as [Hw' [Hk Hy]].
    split; [done|]. split; [|done]. split; [done|].
    assert (Hobj : KeyState.keeps regular (λ _, faulty) (λ s, objects s !! cid_of blob = Some blob) (cek self d scope false)).
    { apply (keeps_cek cid_of); [intros a s; apply object_act|]. intros a s Ha Ho.
      destruct a; cbn [acts_on] in Ha; try done.
      - cbn [act]. by destruct (inserts _ _ _).
      - cbn [act]. unfold do_remember. by repeat case_match.
      - by apply object_act. }
    apply Hobj; [done|apply Hs].
  - intros key'. apply (triple_with _ _ (key' = key) (stored key (cid_of blob) blob)).
    { intros s [Hs [[= ->]|(e & [=] & _)]]. done. }
    intros ->. apply (triple_bind _ _ _ _ _ (λ r s, yields faulty blob r)).
    + unfold FetchFile. apply triple_wrap.
      apply (triple_bind _ _ _ _ _ (λ r s, yields faulty (Some blob) r)).
      * apply triple_read; [apply stable_stored|..].
        -- intros s [_ Ho]. left. by rewrite Ho.
        -- intros e s Hf _. right. eauto.
      * intros o. apply (triple_with _ _ (o = Some blob) (λ _, True)); [intros s [[= ->]|(e & [=] & _)]; done|].
        intros ->. apply triple_ret. intros s _. by left.
      * intros e s [[=]|(e' & [= <-] & Hf)]. right. eauto.
    + intros data. apply (triple_with _ _ (data = blob) (λ _, True)); [intros s [[= ->]|(e & [=] & _)]; done|].
      intros ->. rewrite Hb. apply triple_ret. intros s _. by left.
    + intros e s [[=]|(e' & [= <-] & Hf)]. right. eauto.
  - intros e s [_ [[=]|(e' & [= <-] & Hf)]]. right. eauto.
Qed.

(** ** Peers *)
Lemma has_key_insert key did wrapped at_ s : has_key key s → has_key key (act s (AInsert scope did wrapped at_)).
Proof.
  intros Hk. destruct (decide (did = ownDID self)) as [->|Hne]; [|by apply has_key_act; [intros _ ?|]].
  destruct Hk as ((r & Hf & Hl & Hr) & Hk). rewrite (live_mine_blocks s r) by done. by split; [exists r|].
Qed.

Lemma Encrypt_key faulty d key p : drawn d →
  triple regular (λ _, faulty) (has_key key) (Encrypt self d scope p) (λ r s, has_key key s ∧
    match r with Ok blob => Envelope.Decrypt key blob (AAD scope) = Ok p | Err e => faulty end).
Proof.
  intros (_ & _ & (n & En & Hn)). unfold Encrypt. eapply triple_bind; [by apply (cek_holds faulty key)| |].
  - intros key'. apply (triple_with _ _ (key' = key ∧ good_key key) (has_key key)).
    { intros s [Hs [[= ->]|(e & [=] & _)]]. split; [split; [done|apply Hs]|done]. }
    intros [-> [Hl _]]. destruct (Decrypt_Encrypt n key p (AAD scope) Hl Hn) as (blob & Ee & Ed).
    apply triple_lift. intros s Hs. split; [done|].
    by assert (Envelope.Encrypt (d_nonce d) key p (AAD scope) = Ok blob) as -> by (rewrite En; exact Ee).
  - intros e s [Hs [[=]|(e' & [= <-] & Hf)]]. done.
Qed.

Lemma Decrypt_key faulty d key blob p : Envelope.Decrypt key blob (AAD scope) = Ok p →
  triple regular (λ _, faulty) (has_key key) (Decrypt self d scope blob) (λ r _, yields faulty p r).
Proof.
  intros Hb. unfold Decrypt. eapply triple_bind; [by apply (cek_holds faulty key)| |].
  - intros key'. apply (triple_with _ _ (key' = key) (λ _, True)); [intros s [_ [[= ->]|(e & [=] & _)]]; done|].
    intros ->. apply triple_lift. intros s _. left. exact Hb.
  - intros e s [_ [[=]|(e' & [= <-] & Hf)]]. right. eauto.
Qed.

(** The key, wrapped for the holder of the private key [k']. *)
Lemma WrapForPeer_key faulty d key peerDID method k' : (∃ e, d_ephemeral d = Ok e) →
  TrimSpace method ≠ EmptyString →
  triple regular (λ _, faulty) (has_key key)
    (WrapForPeer self d scope peerDID method (Some (public_key k'))) (λ r s, has_key key s ∧
      match r with Ok w => w_KID w = method ∧ Unwrap (Some w) (λ p, Ok (ecdh k' p)) = Ok key | Err e => faulty end).
Proof.
  intros [e Ee] Hm. unfold WrapForPeer. eapply triple_bind; [by apply (cek_holds faulty key)| |].
  - intros key'. apply (triple_with _ _ (key' = key ∧ good_key key) (has_key key)).
    { intros s [Hs [[= ->]|(e' & [=] & _)]]. split; [split; [done|apply Hs]|done]. }
    intros [-> [Hl Hb]]. destruct (Unwrap_Wrap k' e key method Hl Hb Hm) as (w & Ew & Hkid & Hu).
    apply (triple_lift_Ok _ _ _ _ w); [by rewrite Ee, Ew|].
    apply (triple_bind _ _ _ _ _ (λ r s, has_key key s ∧ (is_ok r = false → faulty))).
    + apply triple_wrap, triple_perform; [intros a s; apply has_key_act|..].
      * intros s Hs. split; [by apply has_key_insert|done].
      * intros e' s Hf Hs. split; (split; [|done]); [done|by apply has_key_insert].
    + intros i. apply triple_ret. by intros s [Hs _].
    + intros e' s [Hs Hf]. split; [done|by apply Hf].
  - intros e' s [Hs [[=]|(e2 & [= <-] & Hf)]]. done.
Qed.

(** Others leave the missing record to the adoption. *)
Definition leaves_record (a : Action) : Prop :=
  regular a ∧ ∀ wrapped at_, a ≠ AInsert scope (ownDID self) wrapped at_.

Lemma no_key_act a s : leaves_record a → no_key s → no_key (act s a).
Proof.
  intros [Ha Hn] (Hf & Hc & Hs). split; [by rewrite fetch_act|]. split; [|by apply scope_shredded_act].
  by destruct (cache_act a s (regular_not_remember a Ha)) as [-> | ->].
Qed.

Lemma AdoptPeerCEK_key faulty d key w : (∃ e, d_ephemeral d = Ok e) → good_key key →
  w_KID w = ownMethodID self → Unwrap (Some w) (agreement self) = Ok key →
  triple leaves_record (λ _, faulty) no_key (AdoptPeerCEK self d scope (Some w)) (λ r s,
    match r with Ok _ => has_key key s | Err e => faulty end).
Proof.
  intros [e Ee] Hg Hkid Hu. destruct Hself as [_ _ (Ht & Hne & Hpre)]. unfold AdoptPeerCEK.
  assert (ownRecipient self (Some w) = Ok tt) as ->.
  { unfold ownRecipient. cbv zeta. rewrite Hkid, Ht, (bool_decide_eq_false_2 _ Hne), Hpre.
    by rewrite bool_decide_eq_true_2. }
  apply (triple_lift_Ok _ _ _ _ tt); [done|].
  apply (triple_bind _ _ _ _ _ (λ r s, no_key s ∧ match r with Ok o => o = None | Err e => faulty end)).
  - apply triple_wrap, triple_read; [intros a s; apply no_key_act|..]; [|done]. intros s Hs. split; [done|apply Hs].
  - intros o. apply (triple_with _ _ (o = None) no_key); [by intros s [? ?]|]. intros ->.
    destruct (opens_wrapped e key Hg) as (w' & Ew & Ho).
    apply (triple_lift_Ok _ _ _ _ key); [by rewrite Hu|]. apply (triple_lift_Ok _ _ _ _ w'); [by rewrite Ee, Ew|].
    apply (triple_bind _ _ _ _ _ (λ r s, match r with Ok i => i = true ∧ has_key key s | Err e => faulty end)).
    + apply triple_wrap, triple_perform; [intros a s; apply no_key_act|..]; [|done].
      intros s Hs. split; [by apply no_key_inserts|]. by apply inserted_key.
    + intros i. apply (triple_with _ _ (i = true) (has_key key)); [by intros s [? ?]|]. intros ->. cbn [negb].
      apply triple_locked_do.
      * intros a s [Ha _]. by apply has_key_act.
      * intros s. apply has_key_remember.
    + done.
  - by intros e' s [_ ?].
Qed.

End Instance.

Definition quiet (s : State) : World := {| state := s; schedule := [] |}.

Lemma quiet_triple {A} allowed may_fail (P : State → Prop) (m : M A) Q s :
  triple allowed may_fail P m Q → P s → Q (m (quiet s)).1 (state (m (quiet s)).2).
Proof. intros Hm Hs. by destruct (Hm (quiet s)); [constructor|..]. Qed.

Lemma stored_restart self scope key cid blob s :
  stored self scope key cid blob s → stored self scope key cid blob (restart s).
Proof. intros [(Hr & Hg & _) Ho]. split; [|done]. split; [done|]. split; [done|by left]. Qed.

(** C16: What is stored reads back.  For an instance whose published
    key-agreement key is the one its HSM derives with: storing an artifact under
    a scope that has no record yet, or a live one, succeeds when nothing fails;
    and however accesses fail and whatever the others do meanwhile (short of
    shredding the scope, deleting its objects, racing on its cache entry or
    writing a record that does not open), once [Put] returned a CID and after any
    further requests, reading that CID returns the very bytes, from the running
    process and from one that restarted with an empty cache. *)
Theorem stored_artifacts_read_back self k scope d p : config_ok self k → drawn d →
  (∀ s, ready self scope s → ∃ cid w', Put cid_of self d scope p (quiet s) = (Ok cid, w')) ∧
  (∀ w cid w' requests d', schedule_ok (regular self scope) (λ _, True) w → ready self scope (state w) →
     Put cid_of self d scope p w = (Ok cid, w') →
     let s := state (serve_all cid_of self requests w') in
     (Get self d' scope cid (quiet s)).1 = Ok p ∧ (Get self d' scope cid (quiet (restart s))).1 = Ok p).
Proof.
  intros Hc Hd. split.
  - intros s Hs. pose proof (quiet_triple _ _ _ _ _ s (Put_stores self k Hc scope False d p Hd) Hs) as HQ.
    destruct (Put cid_of self d scope p (quiet s)) as [[cid|e] w']; [by exists cid, w'|done].
  - intros w cid w' requests d' Hw Hr E s.
    destruct (Put_stores self k Hc scope True d p Hd w Hw Hr) as [Hw' HQ]. rewrite E in Hw', HQ. cbn [fst snd] in *.
    destruct HQ as (key & blob & -> & Hs & Hb).
    destruct (serve_all_keeps cid_of self (regular self scope) (λ _, True) (stored self scope key (cid_of blob) blob)
      requests w') as [_ Hs'']; [intros; apply serve_keeps_stored|done..|].
    assert (Hread : ∀ s, stored self scope key (cid_of blob) blob s → (Get self d' scope (cid_of blob) (quiet s)).1 = Ok p).
    { intros s' Hs'. pose proof (quiet_triple _ _ _ _ _ s' (Get_reads self scope False d' key blob p Hb) Hs') as HG.
      by destruct HG as [HG|(e & _ & [])]. }
    split; apply Hread; [done|by apply stored_restart].
Qed.

(** C17: The peer reads what was encrypted.  When instance A holds a scope's key
    and B has no record of the scope: A's wrap of the key for B's published key,
    sent in its wire form, is adopted by B; and from then on what either
    instance encrypts under the scope, the other decrypts. *)
Theorem peers_share_the_key A B kB scope key sA sB dA dB :
  config_ok B kB → has_key A scope key sA → no_key B scope sB →
  (∃ e, d_ephemeral dA = Ok e) → (∃ e, d_ephemeral dB = Ok e) →
  ∃ wrapped wA wB,
    WrapForPeer A dA scope (ownDID B) (ownMethodID B) (ownPub B) (quiet sA) = (Ok wrapped, wA) ∧
    (received ← lift (EnvelopeWrappedCEK (Some (WireWrappedCEK wrapped)));
     AdoptPeerCEK B dB scope (Some received)) (quiet sB) = (Ok tt, wB) ∧
    ∀ d d' p, drawn d →
      (∃ blob, (Encrypt A d scope p (quiet (state wA))).1 = Ok blob ∧
               (Decrypt B d' scope blob (quiet (state wB))).1 = Ok p) ∧
      (∃ blob, (Encrypt B d scope p (quiet (state wB))).1 = Ok blob ∧
               (Decrypt A d' scope blob (quiet (state wA))).1 = Ok p).
Proof.
  intros HB Hkey Hno HdA HdB. pose proof HB as [HpubB HagB (Ht & Hne & _)].
  assert (Hm : TrimSpace (ownMethodID B) ≠ EmptyString) by (by rewrite Ht).
  pose proof (quiet_triple _ _ _ _ _ sA (WrapForPeer_key A scope False dA key (ownDID B) (ownMethodID B) kB HdA Hm) Hkey) as HW.
  rewrite HpubB. destruct (WrapForPeer A dA scope (ownDID B) (ownMethodID B) (Some (public_key kB)) (quiet sA)) as [[wrapped|e] wA];
    cbn [fst snd] in HW; [|by destruct HW]. destruct HW as (HkA & Hkid & Hu).
  assert (HuB : Unwrap (Some wrapped) (agreement B) = Ok key) by (etransitivity; [exact (Unwrap_agreement _ _ _ HagB)|exact Hu]).
  pose proof (quiet_triple _ _ _ _ _ sB (AdoptPeerCEK_key B kB HB scope False dB key wrapped HdB (proj1 (proj2 Hkey)) Hkid HuB) Hno) as HW.
  exists wrapped, wA. rewrite EnvelopeWrappedCEK_Wire. unfold mbind at 1, M_bind, lift.
  destruct (AdoptPeerCEK B dB scope (Some wrapped) (quiet sB)) as [[[]|e] wB]; cbn [fst snd] in HW; [|done].
  exists wB. split; [done|]. split; [done|].
  assert (Hshare : ∀ X Y s s', has_key X scope key s → has_key Y scope key s' →
    ∀ d d' p, drawn d → ∃ blob, (Encrypt X d scope p (quiet s)).1 = Ok blob ∧ (Decrypt Y d' scope blob (quiet s')).1 = Ok p).
  { intros X Y s s' HkX HkY d d' p Hd.
    pose proof (quiet_triple _ _ _ _ _ s (Encrypt_key X scope False d key p Hd) HkX) as HE.
    destruct (Encrypt X d scope p (quiet s)) as [[blob|e] w']; cbn [fst snd] in HE; [|by destruct HE].
    exists blob. split; [done|].
    by destruct (quiet_triple _ _ _ _ _ s' (Decrypt_key Y scope False d' key blob p (proj2 HE)) HkY) as [?|(e & _ & [])]. }
  intros d d' p Hd. split; by eapply Hshare.
Qed.

End Delivery.

(** ** A concrete instance *)
Section Demo.
#[local] Existing Instance demo_crypto.
#[local] Existing Instance demo_crypto_laws.

(** A CID that names the content. *)
Definition named_cid (data : bytes) : string := String "Q" (pretty (N.pos (encode data))).

#[local] Instance named_cid_inj : Inj (=) (=) named_cid.
Proof. intros a b E. injection E as E. apply pretty_N_inj in E. injection E as E. by apply encode_inj in E. Qed.

Definition demo_peer : Config := {|
  ownDID := "did:web:b.example"; ownMethodID := "did:web:b.example#enc"; ownPub := Some (public_key 11);
  agreement p := Ok (ecdh 11 p) |}.

Lemma demo_self_ok : config_ok demo_self 5.
Proof. by split. Qed.
Lemma demo_peer_ok : config_ok demo_peer 11.
Proof. by split. Qed.
Lemma demo_drawn : drawn demo_draw.
Proof.
  split; [|split; [by eexists|by eexists]]. exists demo_cek. split; [done|]. split; [done|].
  apply (bool_decide_unpack _). by vm_compute.
Qed.

Lemma demo_no_key self : no_key self demo_scope no_state.
Proof. split; [|split]; by vm_compute. Qed.

Lemma stored_artifacts_witness : ∃ cid w',
  Put named_cid demo_self demo_draw demo_scope demo_text (quiet no_state) = (Ok cid, w') ∧
  (Get demo_self demo_draw demo_scope cid (quiet (restart (state w')))).1 = Ok demo_text.
Proof.
  destruct (stored_artifacts_read_back named_cid named_cid_inj ltac:(done) demo_self 5 demo_scope demo_draw demo_text
    demo_self_ok demo_drawn) as [Hput Hget].
  destruct (Hput no_state) as (cid & w' & E); [left; apply demo_no_key|]. exists cid, w'. split; [exact E|].
  assert (Hw : schedule_ok (regular named_cid demo_self demo_scope) (λ _, True) (quiet no_state)) by constructor.
  assert (Hr : ready demo_self demo_scope (state (quiet no_state))) by (left; apply demo_no_key).
  specialize (Hget (quiet no_state) cid w' [] demo_draw Hw Hr E). cbv zeta in Hget. cbn [serve_all] in Hget. exact (proj2 Hget).
Defined.

Lemma peers_share_witness :
  ∃ wrapped wA wB,
    WrapForPeer demo_self demo_draw demo_scope (ownDID demo_peer) (ownMethodID demo_peer) (ownPub demo_peer)
      (quiet (state demo_put.2)) = (Ok wrapped, wA) ∧
    (received ← lift (EnvelopeWrappedCEK (Some (WireWrappedCEK wrapped)));
     AdoptPeerCEK demo_peer demo_draw demo_scope (Some received)) (quiet no_state) = (Ok tt, wB).
Proof.
  destruct (peers_share_the_key named_cid demo_self demo_peer 11 demo_scope demo_cek (state demo_put.2) no_state demo_draw demo_draw)
    as (wrapped & wA & wB & E1 & E2 & _); [exact demo_peer_ok| |apply demo_no_key|exists 7; reflexivity|exists 7; reflexivity|exists wrapped, wA, wB; exact (conj E1 E2)].
  split; [eexists; split; [by vm_compute|split; by vm_compute]|]. split; [|right; by vm_compute].
  split; [done|apply (bool_decide_unpack _); by vm_compute].
Defined.

End Demo.
