(* ===== verification/Erasure.v ===== *)
(** The erasure of a contract across its parties: the peer erase handshake
    (internal/dcstodcs/eraser.go, db/pg/eraserepository.go), the peer's side of it
    (internal/service/dcs_to_dcs.go [Erase]) and the archive deletion that starts
    it (internal/service/contract_storage_archive.go [Delete], [ErasureStatus]). *)
From S2P Require Import Prelude Json Sha256 Merkle DidWeb Scopes Envelope KeyState ArtifactStore KeyErasure.
Import GoStrings.

Definition BadRequest (e : error) : error := Wrapf "bad_request" e.
Definition InternalError (e : error) : error := Wrapf "internal_error" e.
Definition or_bad_request {A} (m : M A) : M A := wrap "bad_request" m.
Definition or_internal_error {A} (m : M A) : M A := wrap "internal_error" m.

(** ** The ledger: eraserepository.go *)
Module EraseRepo.

Definition Upsert (did peerDID : string) (at_ : Z) : M () := perform (AUpsert did peerDID at_) (λ _, tt).
Definition RecordAttempt (did peerDID : string) (at_ : Z) : M () := perform (ARecordAttempt did peerDID at_) (λ _, tt).
Definition Confirm (did peerDID : string) (at_ : Z) : M () := perform (AConfirm did peerDID at_) (λ _, tt).
Definition GetPending : M (list EraseRequest) := read (λ s, order_by RequestedAt (rows_where pending (erasures s))).
Definition ListByDID (did : string) : M (list EraseRequest) :=
  read (λ s, order_by RequestedAt (rows_where (λ r, bool_decide (e_DID r = did)) (erasures s))).

End EraseRepo.

(** ** The eraser: eraser.go *)

(** The instance's DID document and the network: [x_sign] draws and signs the
    challenge, [x_send] is the peer's answer to a contract's erase request. *)
Record EraseEnv := { x_now : Z; x_id : result string; x_sign : result (); x_send : string → string → result () }.

Section Eraser.
Context (x : EraseEnv).

Definition SendErase (contractIRI peerDID : string) : result () :=
  _ ← DIDWebPath peerDID; x_send x contractIRI peerDID.

Definition attemptPeerErase (contractIRI peer : string) : M () :=
  localPeer ← lift (x_id x);
  _ ← lift (x_sign x);
  match SendErase contractIRI peer with
  | Err sendErr =>
      _ ← attempt (EraseRepo.RecordAttempt contractIRI peer (x_now x));
      throw sendErr
  | Ok _ => EraseRepo.Confirm contractIRI peer (x_now x)
  end.

Definition erase_at_peer (contractIRI localPeer peer : string) : M () :=
  if bool_decide (peer = localPeer) then mret tt else
  _ ← wrap "record peer erase request" (EraseRepo.Upsert contractIRI peer (x_now x));
  _ ← attempt (attemptPeerErase contractIRI peer);
  mret tt.

(** [parties] is the answer of [Parties]. *)
Definition EraseContract (parties : result (list string)) (contractIRI actor reason : string) : M () :=
  parties ← lift parties;
  localPeer ← lift (x_id x);
  _ ← AuditedShredder_Shred contractIRI actor reason (x_now x);
  for_each (erase_at_peer contractIRI localPeer) parties.

Definition RetryPending : M () :=
  pending ← attempt EraseRepo.GetPending;
  match pending with
  | Err _ => mret tt
  | Ok pending => for_each (λ r, _ ← attempt (attemptPeerErase (e_DID r) (PeerDID r)); mret tt) pending
  end.

(** ** The peer's side: dcs_to_dcs.go *)
Definition eraseForPeer (parties : result (list string)) (peerDID contractIRI : string) : M () :=
  contractParties ← or_bad_request (lift (wrap_err "erase rejected: could not resolve parties" parties));
  if negb (bool_decide (peerDID ∈ contractParties)) then throw (BadRequest (Errorf "erase rejected: not a party")) else
  _ ← or_internal_error (AuditedShredder_Shred contractIRI peerDID ("erasure requested by peer " +:+ peerDID)%string (x_now x));
  mret tt.

(** [document] and [challenge] are the outcomes of fetching the peer's DID
    document and of verifying the signed secret against it. *)
Definition Erase (document challenge : result ()) (parties : result (list string)) (fromPeerDid contractIRI : string) :
    M string :=
  _ ← or_internal_error (lift document);
  _ ← or_bad_request (lift challenge);
  localPeer ← or_internal_error (lift (x_id x));
  if SameDIDWeb fromPeerDid localPeer
  then throw (BadRequest (Errorf "requesting a contract erasure from the same peer is not allowed")) else
  _ ← eraseForPeer parties fromPeerDid contractIRI;
  mret localPeer.

(** ** The archive: contract_storage_archive.go *)

(** [ORDER BY stored_at, did, contract_version], as the rows of one contract see it. *)
Definition ReadArchiveEntries (s : State) : list ContractArchiveEntry :=
  order_by StoredAt (order_by ContractVersion (archive s)).

Definition snapshotCIDsForDeletion (entries : list ContractArchiveEntry) (did : string) : list string :=
  dedup_from [] (SnapshotCID <$>
    rows_where (λ e, not_deleted did e && negb (bool_decide (SnapshotCID e = EmptyString))) entries).

Definition removeArchivedSnapshots (cids : list string) : M () :=
  for_each (λ cid, wrap "remove archived snapshot" (perform (ADeleteFile cid) (λ _, tt))) cids.

(** The entries are read and marked in one transaction, which commits only if it
    marked any. *)
Definition Delete (parties : result (list string)) (did deletedBy justification : string) : M Z :=
  '(snapshotCIDs, affected) ← or_internal_error
    (perform (AMarkDeleted did deletedBy justification (x_now x))
       (λ s, (snapshotCIDsForDeletion (ReadArchiveEntries s) did, marked did s)));
  if affected =? 0 then throw (BadRequest (Errorf "no archive entry found (or it was already deleted)")) else
  _ ← or_internal_error (removeArchivedSnapshots snapshotCIDs);
  _ ← or_internal_error (EraseContract parties did deletedBy justification);
  mret affected.

Record ArchiveErasurePeerStatus := {
  st_PeerDid : string; st_Status : string; st_RequestedAt : Z; st_RetryCount : Z;
  st_ConfirmedAt : option Z; st_LastTriedAt : option Z }.

Record ArchiveErasureStatusResponse := {
  st_Did : string; LocalStatus : string; st_ShreddedAt : option Z; st_ShreddedBy : option string;
  st_ShredReason : option string; Peers : list ArchiveErasurePeerStatus }.

Definition peer_status (r : EraseRequest) : ArchiveErasurePeerStatus :=
  {| st_PeerDid := PeerDID r;
     st_Status := if pending r then "pending" else "confirmed"; st_RequestedAt := RequestedAt r;
     st_RetryCount := RetryCount r; st_ConfirmedAt := ConfirmedAt r; st_LastTriedAt := LastTriedAt r |}.

(** The last shredded record is the one shown. *)
Definition local_status (did : string) (records : list CEKRecord) : ArchiveErasureStatusResponse :=
  foldl (λ response r, if live r then response else
    {| st_Did := st_Did response; LocalStatus := "shredded"; st_ShreddedAt := ShreddedAt r;
       st_ShreddedBy := ShreddedBy r; st_ShredReason := ShredReason r; Peers := Peers response |})
    {| st_Did := did; LocalStatus := "live"; st_ShreddedAt := None; st_ShreddedBy := None;
       st_ShredReason := None; Peers := [] |} records.

Definition ErasureStatus (did : string) : M ArchiveErasureStatusResponse :=
  records ← or_internal_error (CEKRepo.List (ContractScope did));
  requests ← or_internal_error (EraseRepo.ListByDID did);
  let r := local_status did records in
  mret {| st_Did := did; LocalStatus := LocalStatus r; st_ShreddedAt := st_ShreddedAt r;
          st_ShreddedBy := st_ShreddedBy r; st_ShredReason := st_ShredReason r; Peers := peer_status <$> requests |}.

End Eraser.

(** ** What the handshake achieves *)
Section Handshake.
Context (x : EraseEnv) (allowed : Action → Prop) (may_fail : error → Prop).

#[local] Notation keeps := (keeps allowed may_fail).
#[local] Notation triple := (triple allowed may_fail).

(** A request toward the peer is on record, and confirmed when [done]. *)
Definition on_ledger (did peer : string) (done : Prop) (s : State) : Prop :=
  ∃ r, r ∈ erasures s ∧ e_DID r = did ∧ PeerDID r = peer ∧ (done → is_Some (ConfirmedAt r)).

Lemma on_ledger_update did peer done q f s :
  (∀ r, e_DID (f r) = e_DID r ∧ PeerDID (f r) = PeerDID r ∧ (is_Some (ConfirmedAt r) → is_Some (ConfirmedAt (f r)))) →
  on_ledger did peer done s → on_ledger did peer done (set_erasures (update_where q f) s).
Proof.
  intros Hf (r & Hr & Hd & Hp & Hc). exists (if q r then f r else r). cbn [erasures set_erasures].
  rewrite elem_of_update_where. split; [by exists r|]. destruct (q r); [|done]. destruct (Hf r) as (-> & -> & ?). auto.
Qed.

Lemma on_ledger_same did peer done s s' : erasures s' = erasures s → on_ledger did peer done s → on_ledger did peer done s'.
Proof. unfold on_ledger. by intros ->. Qed.

(** The ledger only grows, and a confirmation stands. *)
Lemma on_ledger_act did peer done a s : on_ledger did peer done s → on_ledger did peer done (act s a).
Proof.
  intros Hs. destruct a; cbn [act].
  - by destruct (inserts _ _ _).
  - done.
  - by destruct (0 <? _).
  - apply (on_ledger_same did peer done s); [|done]. unfold do_remember. repeat case_match; by simplify_eq.
  - apply (on_ledger_same did peer done s); [|done]. unfold do_forget. by case_match.
  - done.
  - done.
  - destruct (exists_where _ _); [done|]. destruct Hs as (r & Hr & ?). exists r. split; [|done].
    apply elem_of_app. by left.
  - by apply on_ledger_update.
  - apply on_ledger_update; [|done]. intros r. by split; [|split].
  - by destruct (0 <? _).
Qed.

Lemma stable_on_ledger did peer done : stable allowed (on_ledger did peer done).
Proof. intros a s _. apply on_ledger_act. Qed.

(** Predicates that no action of the handshake touches. *)
Definition erase_action (a : Action) : Prop :=
  match a with AUpsert _ _ _ | ARecordAttempt _ _ _ | AConfirm _ _ _ => True | _ => False end.

Lemma keeps_attemptPeerErase P iri peer : stable allowed P →
  (∀ a s, erase_action a → P s → P (act s a)) → keeps P (attemptPeerErase x iri peer).
Proof.
  intros HP Ha. unfold attemptPeerErase, EraseRepo.RecordAttempt, EraseRepo.Confirm.
  repeat keeps_step; try apply kept_attempt; (apply kept_perform; [done|intros s; by apply Ha]).
Qed.

Lemma keeps_erase_at_peer P iri local peer : stable allowed P →
  (∀ a s, erase_action a → P s → P (act s a)) → keeps P (erase_at_peer x iri local peer).
Proof.
  intros HP Ha. unfold erase_at_peer, EraseRepo.Upsert. case_bool_decide; [apply kept_ret|].
  apply kept_bind; [apply kept_wrap, kept_perform; [done|intros s; by apply Ha]|]. intros _.
  by apply kept_attempted, keeps_attemptPeerErase.
Qed.

Lemma upserted did peer at_ s : on_ledger did peer False (act s (AUpsert did peer at_)).
Proof.
  cbn [act]. destruct (exists_where _ _) eqn:E.
  - apply existsb_true_iff in E as (r & Hr & Hp). unfold erase_row in Hp. bool_to_prop. by exists r.
  - eexists. split; [apply elem_of_app; right; left|]. done.
Qed.

Lemma confirmed_ledger did peer done done' at_ s : on_ledger did peer done s →
  on_ledger did peer done' (act s (AConfirm did peer at_)).
Proof.
  intros (r & Hr & Hd & Hp & _). cbn [act].
  exists (if erase_row did peer r && pending r then confirmed at_ r else r). cbn [erasures set_erasures].
  rewrite elem_of_update_where. split; [by exists r|]. unfold erase_row. rewrite Hd, Hp, !bool_decide_eq_true_2 by done.
  cbn [andb]. unfold pending. case_bool_decide; by cbn.
Qed.

End Handshake.

Section NoFailure.
Context (x : EraseEnv) (allowed : Action → Prop) (localPeer : string).
Context (Hid : x_id x = Ok localPeer) (Hsign : x_sign x = Ok tt).
#[local] Notation triple := (triple allowed (λ _, False)).

(** The peer answered that its keys are destroyed. *)
Definition acknowledged (did peer : string) : Prop := SendErase x did peer = Ok tt.

(** One delivery of a recorded request. *)
Lemma attempt_delivers P did peer done : stable allowed P →
  (∀ a s, erase_action a → P s → P (act s a)) →
  triple (λ s, P s ∧ on_ledger did peer done s) (_ ← attempt (attemptPeerErase x did peer); mret tt)
    (λ r s, r = Ok tt ∧ P s ∧ on_ledger did peer (acknowledged did peer) s).
Proof.
  intros HP Ha. assert (Hst : stable allowed (λ s, P s ∧ on_ledger did peer done s)).
  { intros a s Hok [H1 H2]. split; [by apply HP|by apply on_ledger_act]. }
  apply (triple_bind _ _ _ _ _ (λ r s, is_ok r = true ∧ P s ∧ on_ledger did peer (acknowledged did peer) s)).
  - apply triple_attempt. unfold attemptPeerErase.
    apply (triple_lift_Ok _ _ _ _ localPeer); [done|]. apply (triple_lift_Ok _ _ _ _ tt); [done|].
    unfold acknowledged. destruct (SendErase x did peer) as [[]|e] eqn:Es.
    + apply triple_perform; [done|..|by intros e s []].
      intros s [H1 H2]. split; [done|]. split; [by apply Ha|by eapply confirmed_ledger].
    + apply (triple_bind _ _ _ _ _ (λ _ s, P s ∧ on_ledger did peer (Err e = Ok tt) s)).
      * apply triple_attempt, triple_perform; [done|..|by intros e' s []].
        intros s [H1 H2]. split; [by apply Ha|]. apply on_ledger_act. destruct H2 as (r & ? & ? & ? & _). by exists r.
      * intros u. by apply triple_throw.
      * done.
  - intros a. apply triple_ret. by intros s [_ ?].
  - by intros e s [? _].
Qed.

Lemma erase_at_peer_delivers P did peer : stable allowed P →
  (∀ a s, erase_action a → P s → P (act s a)) →
  triple P (erase_at_peer x did localPeer peer) (λ r s, r = Ok tt ∧ P s ∧
    (peer ≠ localPeer → on_ledger did peer (acknowledged did peer) s)).
Proof.
  intros HP Ha. unfold erase_at_peer. case_bool_decide as E; [by apply triple_ret|].
  apply (triple_bind _ _ _ _ _ (λ r s, r = Ok tt ∧ P s ∧ on_ledger did peer False s)).
  - apply triple_wrap, triple_perform; [done|..|by intros e s []].
    intros s Hs. split; [done|]. split; [by apply Ha|apply upserted].
  - intros u. eapply triple_conseq; [by apply (attempt_delivers P did peer False)|by intros s [_ ?]|].
    by intros r s (? & ? & ?).
  - by intros e s [? _].
Qed.

End NoFailure.

Section Theorems.
Context (x : EraseEnv) (self : Config) (localPeer iri : string).
Context (Hid : x_id x = Ok localPeer) (Hsign : x_sign x = Ok tt).

Lemma erased_erase_action a s : erase_action a → erased self (ContractScope iri) s → erased self (ContractScope iri) (act s a).
Proof. intros Ha. apply erased_act. by intros key ->. Qed.

(** C19: Erasing a contract destroys its keys here and asks every party.  When
    the party list cannot be read nothing changes.  When no database access
    fails and this instance holds a key record of the contract: the erasure
    succeeds, whichever peers answer; the contract's keys are gone; and every
    other party has a row in the ledger, confirmed if it acknowledged.  A party
    that did not answer holds up none of the others. *)
Theorem erasure_reaches_every_party parties actor reason w :
  (∀ e, EraseContract x (Err e) iri actor reason w = (Err e, w)) ∧
  (schedule_ok (no_late_reader (ContractScope iri)) (λ _, False) w →
   own_record self (ContractScope iri) (state w) →
   let '(r, w') := EraseContract x (Ok parties) iri actor reason w in
   r = Ok tt ∧ erased self (ContractScope iri) (state w') ∧
   ∀ peer, peer ∈ parties → peer ≠ localPeer → on_ledger iri peer (acknowledged x iri peer) (state w')).
Proof using Hid Hsign.
  split; [done|]. intros Hs Ho.
  enough (HT : triple (no_late_reader (ContractScope iri)) (λ _, False) (own_record self (ContractScope iri))
    (EraseContract x (Ok parties) iri actor reason) (λ r s, r = Ok tt ∧ erased self (ContractScope iri) s ∧
      ∀ peer, peer ∈ parties → peer ≠ localPeer → on_ledger iri peer (acknowledged x iri peer) s)).
  { pose proof (HT w Hs Ho) as [_ HQ]. by destruct (EraseContract _ _ _ _ _ w). }
  unfold EraseContract. apply (triple_lift_Ok _ _ _ _ parties); [done|].
  apply (triple_lift_Ok _ _ _ _ localPeer); [done|].
  eapply triple_bind; [by apply AuditedShredder_erases| |by intros].
  intros n. apply (triple_for_each _ _ (erased self (ContractScope iri))
    (λ peer s, peer ≠ localPeer → on_ledger iri peer (acknowledged x iri peer) s)).
  - intros peer _. apply erase_at_peer_delivers; [done|done|apply stable_erased|intros a s; apply erased_erase_action].
  - intros p q _ _. apply keeps_erase_at_peer; intros a s _ Hp Hne; by apply on_ledger_act, Hp.
Qed.

(** Pending erasures drain.  One run of the retry job, with no failing
    database access, confirms every request that was pending when it began and
    whose peer now acknowledges, whatever the other peers answer and whatever
    else happens to the ledger meanwhile. *)
Theorem pending_erasures_drain w r : schedule_ok (λ _, True) (λ _, False) w →
  r ∈ erasures (state w) → acknowledged x (e_DID r) (PeerDID r) →
  let '(res, w') := RetryPending x w in
  res = Ok tt ∧ on_ledger (e_DID r) (PeerDID r) True (state w').
Proof using Hid Hsign.
  intros Hs Hr Hack. set (did := e_DID r) in *. set (peer := PeerDID r) in *.
  enough (HT : triple (λ _, True) (λ _, False) (on_ledger did peer False) (RetryPending x)
    (λ res s, res = Ok tt ∧ on_ledger did peer True s)).
  { assert (Ho : on_ledger did peer False (state w)) by by exists r.
    pose proof (HT w Hs Ho) as [_ HQ]. by destruct (RetryPending x w). }
  unfold RetryPending.
  apply (triple_bind _ _ _ _ _ (λ res s, ∃ pend, res = Ok (Ok pend) ∧
    on_ledger did peer (∀ q, q ∈ pend → ¬ (e_DID q = did ∧ PeerDID q = peer)) s)).
  - apply triple_attempt, triple_read; [apply stable_on_ledger|..|by intros e s []].
    intros s (q & Hq & Hd & Hp & _). eexists. split; [done|]. exists q. split; [done|]. split; [done|]. split; [done|].
    intros Hno. destruct (ConfirmedAt q) eqn:Ec; [done|]. exfalso. apply (Hno q); [|done].
    rewrite elem_of_order_by, elem_of_rows_where. split; [done|]. unfold pending. by rewrite Ec.
  - intros [pend|e]; [|intros w' _ (? & [=] & _)].
    apply (triple_with _ _ True (on_ledger did peer (∀ q, q ∈ pend → ¬ (e_DID q = did ∧ PeerDID q = peer))));
      [intros s (? & [= <-] & ?); done|]. intros _.
    set (f := λ q, _ ← attempt (attemptPeerErase x (e_DID q) (PeerDID q)); mret tt).
    eapply triple_conseq; [apply (triple_for_each _ _ (on_ledger did peer
      (∀ q, q ∈ pend → ¬ (e_DID q = did ∧ PeerDID q = peer))) (λ q s, e_DID q = did → PeerDID q = peer → on_ledger did peer True s) f)|done|].
    + intros q _. destruct (decide (e_DID q = did ∧ PeerDID q = peer)) as [[Ed Ep]|Hne].
      * unfold f. rewrite Ed, Ep.
        eapply triple_conseq; [apply (attempt_delivers x _ localPeer Hid Hsign (on_ledger did peer
          (∀ q, q ∈ pend → ¬ (e_DID q = did ∧ PeerDID q = peer))) did peer
          (∀ q, q ∈ pend → ¬ (e_DID q = did ∧ PeerDID q = peer)))|done|].
        -- apply stable_on_ledger.
        -- intros a s _. apply on_ledger_act.
        -- intros res s (H1 & H2 & (y & ? & ? & ? & Hy)). split; [done|]. split; [done|]. intros _ _. exists y. auto.
      * assert (Hk : ∀ dd, keeps (λ _, True) (λ _, False) (on_ledger did peer dd) (f q)).
        { intros dd. apply kept_attempted, keeps_attemptPeerErase; [apply stable_on_ledger|intros a s _; apply on_ledger_act]. }
        intros w' Hw' Ho'. destruct (Hk _ w' Hw' Ho') as [Hw2 Ho2]. split; [done|].
        assert (Hok : (f q w').1 = Ok tt) by (unfold f, mbind, M_bind, attempt; by destruct (attemptPeerErase _ _ _ w')).
        split; [done|]. split; [done|]. intros E1 E2. by destruct Hne.
    + intros p q _ _. unfold f.
      apply kept_attempted, keeps_attemptPeerErase; intros a s _ Hp E1 E2; by apply on_ledger_act, Hp.
    + intros res s (-> & (y & Hy & Hd & Hp & Hc) & Hall). split; [done|].
      destruct (existsb (λ q, bool_decide (e_DID q = did ∧ PeerDID q = peer)) pend) eqn:E.
      * apply existsb_true_iff in E as (q & Hq & Hb). apply bool_decide_eq_true in Hb as [E1 E2]. by apply (Hall q).
      * exists y. split; [done|]. split; [done|]. split; [done|]. intros _. apply Hc. intros q Hq Heq.
        rewrite existsb_false_iff in E. specialize (E q Hq). by apply bool_decide_eq_false in E.
  - intros e s (? & [=] & _).
Qed.

End Theorems.

(** ** The peer's side *)
(** Repeating a shred is a no-op, and leaves no second event. *)
Lemma repeated_shred iri actor reason at_ s : all_shredded (ContractScope iri) s →
  cache s !! ContractScope iri = None →
  AuditedShredder_Shred iri actor reason at_ {| state := s; schedule := [] |} = (Ok 0, {| state := s; schedule := [] |}).
Proof.
  intros Hall Hc. assert (Hnone : ∀ y, y ∈ rows s → to_shred (ContractScope iri) y = false).
  { intros y Hy. unfold to_shred, of_scope. case_bool_decide as E; [|done]. by rewrite (Hall y Hy E). }
  assert (Ha : affected (ContractScope iri) s = 0).
  { unfold affected. by rewrite rows_where_nil. }
  assert (Hs : ShredTx (ContractScope iri) actor reason at_ s = s).
  { unfold ShredTx, set_rows. rewrite update_where_none by done. by destruct s. }
  assert (Hact : act s (AShredAudited (ContractScope iri) actor reason at_) = s).
  { cbn [act]. by rewrite Ha, Hs. }
  change (let s1 := act s (AShredAudited (ContractScope iri) actor reason at_) in
    (Ok (affected (ContractScope iri) s), {| state := do_forget (ContractScope iri) s1; schedule := [] |}) =
    (Ok 0, {| state := s; schedule := [] |})).
  cbv zeta. rewrite Ha, Hact. unfold do_forget. by rewrite Hc.
Qed.

Section PeerSide.
Context (x : EraseEnv) (document challenge : result ()) (parties : result (list string)) (from iri : string).

Definition authorised (localPeer : string) : Prop :=
  document = Ok tt ∧ challenge = Ok tt ∧ x_id x = Ok localPeer ∧ SameDIDWeb from localPeer = false ∧
  ∃ ps, parties = Ok ps ∧ from ∈ ps.

(** Only a party has a contract's keys destroyed.  A request that does not
    come from another instance whose DID document and challenge verify and which
    is a party of the contract is refused before anything is read or written; an
    authorised one runs the audited shred, and repeating it confirms again
    without touching a record or adding an event. *)
Theorem erase_requests_come_from_parties :
  (∀ w, (∀ localPeer, ¬ authorised localPeer) → ∃ e, Erase x document challenge parties from iri w = (Err e, w)) ∧
  (∀ w localPeer, authorised localPeer →
     let '(r, w') := AuditedShredder_Shred iri from ("erasure requested by peer " +:+ from)%string (x_now x) w in
     Erase x document challenge parties from iri w =
       (match r with Ok _ => Ok localPeer | Err e => Err (InternalError e) end, w')) ∧
  (∀ s localPeer, authorised localPeer → all_shredded (ContractScope iri) s → cache s !! ContractScope iri = None →
     Erase x document challenge parties from iri {| state := s; schedule := [] |} =
       (Ok localPeer, {| state := s; schedule := [] |})).
Proof.
  assert (Hrun : ∀ w localPeer, authorised localPeer →
     let '(r, w') := AuditedShredder_Shred iri from ("erasure requested by peer " +:+ from)%string (x_now x) w in
     Erase x document challenge parties from iri w =
       (match r with Ok _ => Ok localPeer | Err e => Err (InternalError e) end, w')).
  { intros w localPeer (Hd & Hc & Hi & Hsame & ps & Hp & Hin). unfold Erase, eraseForPeer.
    rewrite Hd, Hc, Hi, Hp. unfold or_internal_error, or_bad_request, wrap, mbind, M_bind, lift. cbn [wrap_err].
    rewrite Hsame, (bool_decide_eq_true_2 _ Hin). cbn [negb].
    by destruct (AuditedShredder_Shred iri from _ (x_now x) w) as [[n|e] w']. }
  split; [|split; [exact Hrun|]].
  - intros w Hno. unfold Erase, eraseForPeer, or_internal_error, or_bad_request, wrap, mbind, M_bind, lift.
    unfold authorised in Hno.
    destruct document as [[]|]; [|by eexists]. destruct challenge as [[]|]; [|by eexists].
    destruct (x_id x) as [localPeer|]; [|by eexists].
    destruct (SameDIDWeb from localPeer) eqn:Es; [by eexists|]. destruct parties as [ps|]; cbn [wrap_err]; [|by eexists].
    case_bool_decide as Hin; [|by eexists]. exfalso. apply (Hno localPeer). repeat (split; [done|]). by exists ps.
  - intros s localPeer Ha Hall Hc. specialize (Hrun {| state := s; schedule := [] |} localPeer Ha).
    by rewrite repeated_shred in Hrun.
Qed.

End PeerSide.

(** ** A concrete instance *)
Section Demo.
#[local] Existing Instance demo_crypto.

(** Of two counterparties, only one answers. *)
Definition demo_env : EraseEnv := {|
  x_now := 20; x_id := Ok "did:web:a.example"; x_sign := Ok tt;
  x_send _ peer := if bool_decide (peer = "did:web:b.example") then Ok tt else Err (Errorf "connection refused") |}.
Definition demo_parties : list string := ["did:web:a.example"; "did:web:c.example"; "did:web:b.example"].

Definition demo_erased : result () * World :=
  EraseContract demo_env (Ok demo_parties) "urn:c" "archivist" "art. 17" (demo_stored []).

Lemma erasure_witness :
  demo_erased.1 = Ok tt ∧ on_ledger "urn:c" "did:web:b.example" True (state demo_erased.2) ∧
  on_ledger "urn:c" "did:web:c.example" False (state demo_erased.2).
Proof.
  pose proof (proj2 (erasure_reaches_every_party demo_env demo_self "did:web:a.example" "urn:c" eq_refl eq_refl
    demo_parties "archivist" "art. 17" (demo_stored []))) as H.
  fold demo_erased in H. destruct demo_erased as [r w']. destruct H as (-> & _ & Hall).
  - constructor.
  - eexists. split; [vm_compute; left|]. by split.
  - split; [done|]. split.
    + destruct (Hall "did:web:b.example") as (q & ? & ? & ? & Hq); [unfold demo_parties; set_solver|done|].
      exists q. split; [done|]. split; [done|]. split; [done|]. intros _. apply Hq. by vm_compute.
    + destruct (Hall "did:web:c.example") as (q & ? & ? & ? & Hq); [unfold demo_parties; set_solver|done|]. by exists q.
Defined.

(** The other counterparty answers the retry. *)
Definition demo_retry : EraseEnv := {|
  x_now := 30; x_id := Ok "did:web:a.example"; x_sign := Ok tt; x_send _ _ := Ok tt |}.
Definition demo_request : EraseRequest := {|
  e_DID := "urn:c"; PeerDID := "did:web:c.example"; RequestedAt := 20; RetryCount := 1;
  LastTriedAt := Some 20; ConfirmedAt := None |}.

Lemma drain_witness :
  (RetryPending demo_retry demo_erased.2).1 = Ok tt ∧
  on_ledger "urn:c" "did:web:c.example" True (state (RetryPending demo_retry demo_erased.2).2).
Proof.
  pose proof (pending_erasures_drain demo_retry "did:web:a.example" eq_refl eq_refl demo_erased.2 demo_request) as H.
  destruct (RetryPending demo_retry demo_erased.2) as [res w']. apply H.
  - vm_compute. constructor.
  - vm_compute. left.
  - by vm_compute.
Defined.

(** The counterparty asks for what is erased already. *)
Lemma erase_request_witness :
  Erase demo_env (Ok tt) (Ok tt) (Ok demo_parties) "did:web:b.example" "urn:c" {| state := state demo_shredded; schedule := [] |} =
    (Ok "did:web:a.example", {| state := state demo_shredded; schedule := [] |}).
Proof.
  destruct (erase_requests_come_from_parties demo_env (Ok tt) (Ok tt) (Ok demo_parties) "did:web:b.example" "urn:c") as (_ & _ & H).
  apply H.
  - split; [done|]. split; [done|]. split; [done|]. split; [by vm_compute|]. exists demo_parties.
    split; [done|]. apply (bool_decide_unpack _). by vm_compute.
  - intros r Hr _. vm_compute in Hr. apply list_elem_of_singleton in Hr. by subst.
  - by vm_compute.
Defined.

(** The archived contract, whose snapshot is in IPFS. *)
Definition demo_archived (turns : list Turn) : World :=
  {| state := set_archive (λ _, [{| a_DID := "urn:c"; ContractVersion := 1; archive_status := "STORED"; StoredAt := 3;
       SnapshotCID := "Qsnapshot"; DeletedAt := None; DeletedBy := None; DeletionReason := None |}])
       (state (demo_stored [])); schedule := turns |}.

(** When the snapshot cannot be removed from IPFS, the entry stays marked as
    deleted, the keys stay live, no peer is asked, and the deletion cannot be
    repeated. *)
Definition demo_stranded : result Z * World :=
  Delete demo_env (Ok demo_parties) "urn:c" "archivist" "art. 17"
    (demo_archived [{| others := []; failure := None |};
                    {| others := []; failure := Some {| done := false; cause := Errorf "ipfs down" |} |}]).

Lemma a_failed_disposal_strands_the_erasure :
  is_ok demo_stranded.1 = false ∧
  Delete demo_env (Ok demo_parties) "urn:c" "archivist" "art. 17" demo_stranded.2 =
    (Err (BadRequest (Errorf "no archive entry found (or it was already deleted)")), demo_stranded.2) ∧
  forallb live (rows (state demo_stranded.2)) = true ∧ erasures (state demo_stranded.2) = [] ∧
  (Get demo_self demo_draw demo_scope demo_stored_cid demo_stranded.2).1 = Ok demo_text.
Proof. by vm_compute. Qed.

End Demo.
