(* ===== verification/Document.v ===== *)
(** The contract document and the helpers that rewrite it: party nodes and
    signature fields (command/create.go, command/negotiate.go), the Semantic Hub
    pin and the declared signature fields (internal/base/validation), the parent
    link (command/update.go), the rewrites of a renewal (command/renew.go) and the
    resource identifiers (internal/base/resourceiri.go).

    A helper that decodes a document, edits the decoded tree and re-encodes it is
    a function on [json]; the trees are freshly decoded, so an in-place edit of a
    node is an update of the tree. *)
From S2P Require Import Prelude Json ContractState Sha256 Store Repos.
Import GoStrings.

(** ** internal/base/resourceiri.go *)
Definition ResourceIRI (public_url kind key : string) : string :=
  if Contains key "://" || HasPrefix key "did:" || HasPrefix key "urn:" then key
  else
    let origin := trim_right (λ c, bool_decide (c = "/"%char)) (TrimSpace public_url) in
    String.append origin (String.append "/" (String.append kind (String.append "/" key))).

Definition ResourceKey (iri : string) : string :=
  if negb (Contains iri "://") && negb (HasPrefix iri "/") then iri
  else
    let trimmed := trim_right (λ c, bool_decide (c = "/"%char)) iri in
    default trimmed (last (split_on "/" trimmed)).

(** ** internal/base/validation *)

(** [decodeDocumentData]: absent and null documents are empty ones. *)
Definition decodeDocumentData (raw : option json) : result (gmap string json) :=
  match raw with
  | None | Some JNull => Ok ∅
  | Some j => Unmarshal_map j
  end.

Definition semanticBundleProperties : list string :=
  ["sh:shapesGraph"; "dcs:effectiveShapes"; "dcterms:conformsTo"].

(** The loop over the properties: the restored document and the [carried] flag. *)
Fixpoint carry (pinned data : gmap string json) (carried : bool) (props : list string) :
    gmap string json * bool :=
  match props with
  | [] => (data, carried)
  | p :: props' =>
      match pinned !! p with
      | None => carry pinned data carried props'
      | Some v => carry pinned (<[p := v]> data) true props'
      end
  end.

Definition CarrySemanticBundle (stored replacement : option json) : result (option json) :=
  pinned ← decodeDocumentData stored;
  data ← decodeDocumentData replacement;
  let '(data', carried) := carry pinned data false semanticBundleProperties in
  if carried then Ok (Some (JObj data')) else Ok replacement.

(** The loop of [RequiredSignatureFields], with its [seen] set. *)
Fixpoint required_fields (seen : list string) (raw : list json) : list string :=
  match raw with
  | [] => []
  | JObj node :: raw' =>
      let name0 := as_string (node !! "dcs:signatoryName") in
      let name1 := if bool_decide (name0 = EmptyString) then as_string (node !! "signatoryName")
                   else name0 in
      let name := TrimSpace name1 in
      if bool_decide (name = EmptyString) || bool_decide (name ∈ seen)
      then required_fields seen raw'
      else name :: required_fields (name :: seen) raw'
  | _ :: raw' => required_fields seen raw'
  end.

Definition RequiredSignatureFields (contractData : json) : list string :=
  match Unmarshal_map contractData with
  | Err _ => []
  | Ok doc =>
      match doc !! "dcs:signatureFields" with
      | Some (JArr raw) => required_fields [] raw
      | _ => required_fields [] (as_list (doc !! "signatureFields"))
      end
  end.

(** ** Party nodes and signature fields *)
Definition party_node (did : string) : json :=
  JObj (<["@id" := JStr did]> (<["@type" := JStr "dcs:CompanyParty"]> ∅)).

(** The non-empty [@id]s of the party nodes. *)
Definition declared_parties (nodes : list json) : list string :=
  rows_where (λ iri, negb (bool_decide (iri = EmptyString))) (node_id <$> nodes).

Fixpoint seed_parties (nodes : list json) (declared : list string) (changed : bool)
    (partyDIDs : list string) : list json * bool :=
  match partyDIDs with
  | [] => (nodes, changed)
  | did :: rest =>
      if bool_decide (did = EmptyString) || bool_decide (did ∈ declared)
      then seed_parties nodes declared changed rest
      else seed_parties (nodes ++ [party_node did]) (did :: declared) true rest
  end.

Definition SeedContractParties (raw : json) (partyDIDs : list string) : result (json * bool) :=
  doc ← wrap_err "could not decode contract data" (Unmarshal_map raw);
  let nodes := as_list (doc !! "dcs:parties") in
  let '(nodes', changed) := seed_parties nodes (declared_parties nodes) false partyDIDs in
  if negb changed then Ok (raw, false)
  else encoded ← doc_set raw "dcs:parties" (JArr nodes'); Ok (encoded, true).

Definition signature_field_id (docID did : string) : string :=
  String.append docID (String.append "#signature-field-"
    (EncodeToString (take 8 (Sum256 (of_string did))))).

Definition signature_field (docID did : string) : json :=
  JObj (<["@id" := JStr (signature_field_id docID did)]>
       (<["@type" := JStr "dcs:SignatureField"]>
       (<["dcs:signatoryName" := JStr did]> ∅))).

Definition SeedSignatureFields (raw : json) (instanceDIDs : list string) : result (json * bool) :=
  doc ← wrap_err "decode contract data" (Unmarshal_map raw);
  match as_list (doc !! "dcs:signatureFields") with
  | _ :: _ => Ok (raw, false)
  | [] =>
      let docID := as_string (doc !! "@id") in
      match dedup_from [] instanceDIDs with
      | [] => Ok (raw, false)
      | fresh =>
          encoded ← doc_set raw "dcs:signatureFields" (JArr (signature_field docID <$> fresh));
          Ok (encoded, true)
      end
  end.

Definition SeedPartiesAndSignatureFields (raw : json) (partyDIDs : list string) :
    result (json * bool) :=
  '(withParties, partiesChanged) ← SeedContractParties raw partyDIDs;
  '(seeded, fieldsChanged) ← SeedSignatureFields withParties partyDIDs;
  Ok (seeded, partiesChanged || fieldsChanged).

Definition reseedPartiesAndSignatureFields (did : string) : Tx () :=
  contract ← wrap "could not read contract for party and signature-field seeding"
               (ContractRepo.ReadDataByDID did);
  match c_contract_data contract, c_responsible contract with
  | Some ((JBool _ | JNum _ | JStr _ | JArr _ | JObj _) as doc), Some resp =>
      '(seeded, changed) ← wrap "could not seed contract parties and signature fields"
          (lift (SeedPartiesAndSignatureFields doc (GetParties resp)));
      if negb changed then mret () else
      wrap "could not persist seeded contract parties and signature fields"
        (ContractRepo.Update {| ContractRepo.u_did := did; ContractRepo.u_state := None;
           ContractRepo.u_name := None; ContractRepo.u_description := None;
           ContractRepo.u_contract_version := 0; ContractRepo.u_contract_data := Some seeded;
           ContractRepo.u_start_date := None; ContractRepo.u_exp_date := None;
           ContractRepo.u_exp_policy := None; ContractRepo.u_exp_notice_period := None;
           ContractRepo.u_responsible := None |})
  | _, _ => mret ()
  end.

(** ** Derivation of a new contract's document *)

(** dcstodcs/eraser.go [DBContractParties.Parties]: the recipients of a peer erase. *)
Definition DBContractParties_Parties (contractIRI : string) : Tx (list string) :=
  data ← wrap "could not read contract" (ContractRepo.ReadDataByDID contractIRI);
  mret (match c_responsible data with None => [] | Some resp => GetParties resp end).

(** The text [fmt] prints for a decoded value under percent-s: an array and an object
    print their values, the latter in the order of its keys, and what is no text
    prints as a bad verb with its Go type (a number as its literal). *)
Definition words (l : list string) : string := String.concat " " l.
Definition key_order (a b : string * string) : bool := String.leb a.1 b.1.
Fixpoint insert_key (x : string * string) (l : list (string * string)) : list (string * string) :=
  match l with
  | [] => [x]
  | y :: l' => if key_order x y then x :: l else y :: insert_key x l'
  end.
Definition by_key (m : gmap string string) : list (string * string) := foldr insert_key [] (map_to_list m).

Fixpoint sprint_value (nested : bool) (v : json) : string :=
  match v with
  | JNull => if nested then "<nil>" else "%!s(<nil>)"
  | JBool b => String.append "%!s(bool=" (String.append (if b then "true" else "false") ")")
  | JNum lit => String.append "%!s(float64=" (String.append lit ")")
  | JStr s => s
  | JArr items => String.append "[" (String.append (words (map (sprint_value true) items)) "]")
  | JObj fields =>
      String.append "map[" (String.append
        (words ((λ kv, String.append kv.1 (String.append ":" kv.2)) <$> by_key (sprint_value true <$> fields))) "]")
  end.
Definition sprint (v : option json) : string := sprint_value false (default JNull v).

Example sprints :
  sprint <$> [None; Some (JStr "x"); Some (JBool true); Some (JNum "3"); Some (JArr [JStr "a"; JNull]);
              Some (JObj {["b" := JStr "2"; "a" := JStr "1"]})] =
  ["%!s(<nil>)"; "x"; "%!s(bool=true)"; "%!s(float64=3)"; "[a <nil>]"; "map[a:1 b:2]"].
Proof. vm_compute. reflexivity. Qed.

Fixpoint read_party_nodes (docID : string) (index : N) (names : list string) : list json :=
  match names with
  | [] => []
  | name :: rest =>
      JObj (<["@id" := JStr (String.append docID (String.append "#party-" (pretty index)))]>
           (<["@type" := JStr "dcs:CompanyParty"]>
           (<["dcs:legalName" := JStr name]> ∅)))
      :: read_party_nodes docID (N.succ index) rest
  end.

Definition attachContractParties (raw : json) (parties : list string) : result json :=
  doc ← wrap_err "could not decode contract data" (Unmarshal_map raw);
  doc_set raw "dcs:parties"
    (JArr (as_list (doc !! "dcs:parties") ++ read_party_nodes (sprint (doc !! "@id")) 0 parties)).

Definition pendingTargetURN : string := "urn:uuid:pending-target".

(** One rule of [resolvePendingTargets]: the rule and whether it was rewritten. *)
Definition resolve_rule (contractIRI : string) (rule : json) : json * bool :=
  match rule with
  | JObj r =>
      match r !! "odrl:target" with
      | Some (JObj target) =>
          let iri := as_string (target !! "@id") in
          if HasSuffix iri "#pending-target" || bool_decide (iri = pendingTargetURN)
          then (JObj (<["odrl:target" := JObj (<["@id" := JStr contractIRI]> target)]> r), true)
          else (rule, false)
      | _ => (rule, false)
      end
  | _ => (rule, false)
  end.

Definition rule_buckets : list string := ["odrl:permission"; "odrl:prohibition"; "odrl:obligation"].

Fixpoint resolve_buckets (contractIRI : string) (policies : gmap string json) (rewritten : bool)
    (buckets : list string) : gmap string json * bool :=
  match buckets with
  | [] => (policies, rewritten)
  | b :: rest =>
      match policies !! b with
      | Some (JArr rules) =>
          let rs := resolve_rule contractIRI <$> rules in
          resolve_buckets contractIRI (<[b := JArr rs.*1]> policies)
            (rewritten || existsb snd rs) rest
      | _ => resolve_buckets contractIRI policies rewritten rest
      end
  end.

Definition resolvePendingTargets (raw : json) : result json :=
  doc ← wrap_err "could not decode contract data" (Unmarshal_map raw);
  let contractIRI := as_string (doc !! "@id") in
  if bool_decide (TrimSpace contractIRI = EmptyString) then Ok raw else
  match doc !! "dcs:policies" with
  | Some (JObj policies) =>
      let '(policies', rewritten) := resolve_buckets contractIRI policies false rule_buckets in
      if rewritten then Ok (JObj (<["dcs:policies" := JObj policies']> doc)) else Ok raw
  | _ => Ok raw
  end.

Definition partyPlaceholderIRI (doc : gmap string json) (role : string) : string :=
  match List.find (λ n, match n with
                        | JObj m => bool_decide (as_string (m !! "dcs:role") = role)
                        | _ => false end) (as_list (doc !! "dcs:parties")) with
  | Some n => node_id n
  | None => EmptyString
  end.

Fixpoint replaceNodeIRI (old new : string) (current : json) : json :=
  match current with
  | JObj value =>
      let value' := replaceNodeIRI old new <$> value in
      JObj (if bool_decide (as_string (value !! "@id") = old)
            then <["@id" := JStr new]> value' else value')
  | JArr items => JArr (map (replaceNodeIRI old new) items)
  | _ => current
  end.

(** The loop of [setPartyLegalName]: only the first node named [iri] is looked at. *)
Fixpoint set_legal_name (iri legalName : string) (nodes : list json) : list json :=
  match nodes with
  | [] => []
  | JObj m as n :: rest =>
      if bool_decide (as_string (m !! "@id") = iri)
      then (if bool_decide (as_string (m !! "dcs:legalName") = EmptyString)
            then JObj (<["dcs:legalName" := JStr legalName]> m) else n) :: rest
      else n :: set_legal_name iri legalName rest
  | n :: rest => n :: set_legal_name iri legalName rest
  end.

Definition setPartyLegalName (doc : json) (iri legalName : string) : json :=
  if bool_decide (legalName = EmptyString) then doc else
  match doc with
  | JObj m =>
      match m !! "dcs:parties" with
      | Some (JArr nodes) => JObj (<["dcs:parties" := JArr (set_legal_name iri legalName nodes)]> m)
      | _ => doc
      end
  | _ => doc
  end.

Definition bindOriginatorParty (raw : json) (originDID role legalName : string) : result json :=
  doc ← wrap_err "could not decode contract data" (Unmarshal_map raw);
  let placeholder := partyPlaceholderIRI doc role in
  if negb (bool_decide (placeholder = EmptyString)) then
    Ok (setPartyLegalName (replaceNodeIRI placeholder originDID raw) originDID legalName)
  else
    let node0 : gmap string json :=
      <["@id" := JStr originDID]> (<["@type" := JStr "dcs:CompanyParty"]>
      (<["dcs:role" := JStr role]> ∅)) in
    let node := if bool_decide (legalName = EmptyString) then node0
                else <["dcs:legalName" := JStr legalName]> node0 in
    doc_set raw "dcs:parties" (JArr (as_list (doc !! "dcs:parties") ++ [JObj node])).

(** The roles of the template's party nodes, refused when one of them is not an
    absolute URI ([url.Parse] is an argument). *)
Fixpoint template_roles (isAbsoluteRoleURI : string → bool) (roles : list string)
    (nodes : list json) : option (list string) :=
  match nodes with
  | [] => Some roles
  | JObj node :: rest =>
      let role := as_string (node !! "dcs:role") in
      if bool_decide (role = EmptyString) then template_roles isAbsoluteRoleURI roles rest
      else if negb (isAbsoluteRoleURI role) then None
      else template_roles isAbsoluteRoleURI
             (if bool_decide (role ∈ roles) then roles else role :: roles) rest
  | _ :: rest => template_roles isAbsoluteRoleURI roles rest
  end.

Definition validateOriginatorRole (isAbsoluteRoleURI : string → bool) (raw : json)
    (originatorRole : string) : result () :=
  let invalid := Errorf "invalid originator role" in
  if negb (isAbsoluteRoleURI originatorRole) then Err invalid else
  match Unmarshal_map raw with
  | Err _ => Err invalid
  | Ok doc =>
      match template_roles isAbsoluteRoleURI [] (as_list (doc !! "dcs:parties")) with
      | None => Err invalid
      | Some roles =>
          if bool_decide (length roles = 2%nat) && bool_decide (originatorRole ∈ roles) then Ok ()
          else Err invalid
      end
  end.

(** ** The parent link *)
Definition extractParentContractDID (data : option json) : string :=
  if negb (IsNotNullValue data) then EmptyString else
  match data with
  | Some (JObj doc) =>
      match doc !! "dcs:parentContract" with
      | Some (JObj typed) => ResourceKey (as_string (typed !! "@id"))
      | Some (JArr (JObj first :: _)) => ResourceKey (as_string (first !! "@id"))
      | _ => EmptyString
      end
  | _ => EmptyString
  end.

(** ** Renewal *)
Definition signatureAttributionPredicates : list string :=
  ["dcs:hasSignatory"; "dcs:hasPowerOfAttorney"; "odrl:function"].

Definition unsign_node (node : json) : json :=
  match node with
  | JObj m => JObj (foldl (λ acc p, delete p acc) m signatureAttributionPredicates)
  | _ => node
  end.

(** An in-place edit of the value of [key], when there is one. *)
Definition edit (key : string) (f : json → json) (doc : gmap string json) : gmap string json :=
  match doc !! key with Some v => <[key := f v]> doc | None => doc end.

Definition unsignRenewedDocument (raw : json) : result json :=
  doc ← wrap_err "could not decode contract data" (Unmarshal_map raw);
  let doc1 := edit "dcs:parties"
    (λ v, match v with JArr nodes => JArr (map unsign_node nodes) | _ => v end) doc in
  let doc2 := edit "dcs:policies"
    (λ v, match v with
          | JObj policies =>
              if HasSuffix (as_string (policies !! "@type")) "Agreement"
              then JObj (<["@type" := JStr "odrl:Offer"]> policies) else v
          | _ => v end) doc1 in
  match raw with JNull => Ok JNull | _ => Ok (JObj doc2) end.

Definition attachRenewsContractReference (public_url : string) (raw : json) (originalDID : string)
    (originalVersion : Z) : result json :=
  _ ← wrap_err "could not decode contract data" (Unmarshal_map raw);
  doc_set raw "dcs:renewsContract"
    (JObj (<["@id" := JStr (ResourceIRI public_url "contract" originalDID)]>
          (<["dcs:version" := jint originalVersion]> ∅))).

(** ** Lemmas *)

Definition field (key : string) (doc : json) : option json :=
  match doc with JObj m => m !! key | _ => None end.
Definition parties_of (doc : json) : list json := as_list (field "dcs:parties" doc).
Definition fields_of (doc : json) : list json := as_list (field "dcs:signatureFields" doc).
Definition signatoryName (node : json) : string := as_string (field "dcs:signatoryName" node).

Lemma dedup_from_covered {A} `{EqDecision A} (l seen : list A) :
  (∀ x, x ∈ l → x ∈ seen) → dedup_from seen l = [].
Proof.
  induction l as [|x l IH]; intros H; simpl; [done|].
  rewrite bool_decide_eq_true_2 by (apply H; left). apply IH. intros; apply H. by right.
Qed.

Lemma declared_party_node did : did ≠ EmptyString → declared_parties [party_node did] = [did].
Proof.
  intros H. unfold declared_parties, rows_where. cbn [fmap list_fmap].
  change (node_id (party_node did)) with did.
  rewrite filter_cons_True; [done | by rewrite bool_decide_eq_false_2].
Qed.

Lemma declared_parties_app a b : declared_parties (a ++ b) = declared_parties a ++ declared_parties b.
Proof. unfold declared_parties, rows_where. by rewrite fmap_app, filter_app. Qed.

(** The DIDs the seeding adds a node for. *)
Definition missing_parties (declared partyDIDs : list string) : list string :=
  dedup_from declared (rows_where (λ d, negb (bool_decide (d = EmptyString))) partyDIDs).

Lemma seed_parties_eq nodes declared changed dids :
  seed_parties nodes declared changed dids =
  (nodes ++ (party_node <$> missing_parties declared dids),
   changed || negb (bool_decide (missing_parties declared dids = []))).
Proof.
  unfold missing_parties. revert nodes declared changed.
  induction dids as [|d l IH]; intros nodes declared changed; simpl.
  - by rewrite app_nil_r, orb_false_r.
  - unfold rows_where. destruct (decide (d = EmptyString)) as [->|Hd].
    + simpl. rewrite IH. by rewrite filter_cons_False by done.
    + rewrite (bool_decide_eq_false_2 _ Hd), filter_cons_True
        by (by rewrite bool_decide_eq_false_2). simpl.
      case_bool_decide as Hin; [by rewrite IH|].
      rewrite IH, <-app_assoc. simpl. by destruct changed.
Qed.

Lemma missing_parties_added nodes dids :
  missing_parties (declared_parties (nodes ++ (party_node <$> missing_parties (declared_parties nodes) dids)))
    dids = [].
Proof.
  apply dedup_from_covered. intros x [Hx Hne]%elem_of_rows_where. bool_to_prop.
  rewrite declared_parties_app, elem_of_app.
  destruct (decide (x ∈ declared_parties nodes)) as [|Hn]; [by left|right].
  apply elem_of_rows_where. split; [|by rewrite bool_decide_eq_false_2].
  apply list_elem_of_fmap. exists (party_node x). split; [done|].
  apply list_elem_of_fmap_2, dedup_from_spec. split; [|done].
  apply elem_of_rows_where. split; [done | by rewrite bool_decide_eq_false_2].
Qed.

Lemma SeedContractParties_obj m dids :
  let add := missing_parties (declared_parties (as_list (m !! "dcs:parties"))) dids in
  SeedContractParties (JObj m) dids =
  Ok (if bool_decide (add = []) then (JObj m, false)
      else (JObj (<["dcs:parties" := JArr (as_list (m !! "dcs:parties") ++ (party_node <$> add))]> m),
            true)).
Proof.
  intros add. unfold SeedContractParties. simpl. unfold mbind, result_bind. simpl.
  rewrite seed_parties_eq. fold add. simpl. by case_bool_decide.
Qed.

Lemma SeedSignatureFields_obj m dids :
  SeedSignatureFields (JObj m) dids =
  Ok (match as_list (m !! "dcs:signatureFields"), dedup_from [] dids with
      | [], _ :: _ =>
          (JObj (<["dcs:signatureFields" :=
             JArr (signature_field (as_string (m !! "@id")) <$> dedup_from [] dids)]> m), true)
      | _, _ => (JObj m, false)
      end).
Proof.
  unfold SeedSignatureFields. simpl. unfold mbind, result_bind. simpl.
  destruct (as_list _); [|done]. by destruct (dedup_from [] dids).
Qed.

Lemma SeedContractParties_spec m dids :
  ∃ m' ch, SeedContractParties (JObj m) dids = Ok (JObj m', ch) ∧
    (∀ k, k ≠ "dcs:parties" → m' !! k = m !! k) ∧ (ch = false → m' = m) ∧
    parties_of (JObj m') = parties_of (JObj m) ++
      (party_node <$> missing_parties (declared_parties (parties_of (JObj m))) dids) ∧
    missing_parties (declared_parties (parties_of (JObj m'))) dids = [].
Proof.
  rewrite SeedContractParties_obj. case_bool_decide as Hadd.
  - exists m, false. split; [done|]. unfold parties_of. simpl. rewrite Hadd, app_nil_r. done.
  - eexists _, true. split; [done|]. split; [intros; by apply lookup_insert_ne|]. split; [done|].
    unfold parties_of. simpl. rewrite lookup_insert_eq. simpl. split; [done|].
    apply missing_parties_added.
Qed.

Lemma SeedSignatureFields_spec m dids :
  ∃ m' ch, SeedSignatureFields (JObj m) dids = Ok (JObj m', ch) ∧
    (∀ k, k ≠ "dcs:signatureFields" → m' !! k = m !! k) ∧ (ch = false → m' = m) ∧
    (fields_of (JObj m) ≠ [] → m' = m) ∧
    (fields_of (JObj m) = [] → signatoryName <$> fields_of (JObj m') = dedup_from [] dids) ∧
    (fields_of (JObj m') = [] → dedup_from [] dids = []).
Proof.
  rewrite SeedSignatureFields_obj. unfold fields_of. simpl.
  destruct (as_list (m !! "dcs:signatureFields")) as [|f fs] eqn:Ef.
  - destruct (dedup_from [] dids) as [|d ds] eqn:Ed.
    + exists m, false. rewrite Ef. done.
    + eexists _, true. split; [done|]. split; [intros; by apply lookup_insert_ne|]. split; [done|].
      simpl. rewrite lookup_insert_eq. simpl. split; [done|]. split; [|done].
      intros _. f_equal. rewrite <-list_fmap_compose. rewrite <-(list_fmap_id ds) at 2.
      by apply list_fmap_ext.
  - exists m, false. rewrite Ef. done.
Qed.

Lemma SeedSignatureFields_stable m dids :
  fields_of (JObj m) ≠ [] ∨ dedup_from [] dids = [] → SeedSignatureFields (JObj m) dids = Ok (JObj m, false).
Proof.
  rewrite SeedSignatureFields_obj. unfold fields_of. simpl.
  destruct (as_list (m !! "dcs:signatureFields")); [intros [?| ->]|]; done.
Qed.

Lemma SeedContractParties_stable m dids :
  missing_parties (declared_parties (parties_of (JObj m))) dids = [] →
  SeedContractParties (JObj m) dids = Ok (JObj m, false).
Proof. intros H. rewrite SeedContractParties_obj. unfold parties_of in H. simpl in H. by rewrite H. Qed.

(** Seeding a contract document always succeeds on an object.  It declares
    every party, leaves each node that was there in front and as it was, keeps
    authored signature fields and otherwise adds exactly one field per distinct
    party, touches no other property, reports [changed = false] only when it
    changed nothing, and a second run changes nothing. *)
Theorem seeding_is_additive_and_idempotent (m : gmap string json) (dids : list string) :
  ∃ m' changed,
    SeedPartiesAndSignatureFields (JObj m) dids = Ok (JObj m', changed) ∧
    (∀ did, did ∈ dids → did ≠ EmptyString → did ∈ declared_parties (parties_of (JObj m'))) ∧
    (∃ added, parties_of (JObj m') = parties_of (JObj m) ++ added) ∧
    (fields_of (JObj m) ≠ [] → fields_of (JObj m') = fields_of (JObj m)) ∧
    (fields_of (JObj m) = [] → signatoryName <$> fields_of (JObj m') = dedup_from [] dids) ∧
    (∀ key, key ≠ "dcs:parties" → key ≠ "dcs:signatureFields" → m' !! key = m !! key) ∧
    (changed = false → m' = m) ∧
    SeedPartiesAndSignatureFields (JObj m') dids = Ok (JObj m', false).
Proof.
  destruct (SeedContractParties_spec m dids) as (m1 & c1 & E1 & K1 & F1 & P1 & D1).
  destruct (SeedSignatureFields_spec m1 dids) as (m2 & c2 & E2 & K2 & F2 & A2 & N2 & S2).
  assert (Hp : parties_of (JObj m2) = parties_of (JObj m1)).
  { unfold parties_of. simpl. by rewrite K2. }
  assert (Hf : fields_of (JObj m1) = fields_of (JObj m)).
  { unfold fields_of. simpl. by rewrite K1. }
  exists m2, (c1 || c2). unfold SeedPartiesAndSignatureFields, mbind, result_bind.
  rewrite E1, E2. split; [done|]. split_and!.
  - intros did Hin Hne. rewrite Hp.
    destruct (decide (did ∈ declared_parties (parties_of (JObj m1)))) as [|Hn]; [done|].
    assert (Hm : did ∈ missing_parties (declared_parties (parties_of (JObj m1))) dids).
    { apply dedup_from_spec. split; [|done]. apply elem_of_rows_where.
      split; [done | by rewrite bool_decide_eq_false_2]. }
    rewrite D1 in Hm. by apply elem_of_nil in Hm.
  - rewrite Hp, P1. by eexists.
  - rewrite <-Hf. intros Hne. by rewrite (A2 Hne).
  - rewrite <-Hf. exact N2.
  - intros key H1 H2. by rewrite K2, K1.
  - intros [-> ->]%orb_false_iff. rewrite (F2 eq_refl). by apply F1.
  - rewrite SeedContractParties_stable by (by rewrite Hp, D1).
    rewrite SeedSignatureFields_stable; [done|].
    destruct (fields_of (JObj m2)) as [|x l] eqn:Ef; [right; by apply S2 | by left].
Qed.

(** Re-seeding writes the document and the revision clocks alone. *)
Lemma keeps_reseed {B} (f : Store → B) did :
  (∀ s g, f (set_contracts g s) = f s) → keeps f (reseedPartiesAndSignatureFields did).
Proof. intros Hf. unfold reseedPartiesAndSignatureFields. keeps_tac. Qed.

Lemma keeps_column_reseed {A} (col : Contract → A) did :
  (∀ d, keeps (column col) (ContractRepo.Update
     {| ContractRepo.u_did := did; ContractRepo.u_state := None;
        ContractRepo.u_name := None; ContractRepo.u_description := None;
        ContractRepo.u_contract_version := 0; ContractRepo.u_contract_data := Some d;
        ContractRepo.u_start_date := None; ContractRepo.u_exp_date := None;
        ContractRepo.u_exp_policy := None; ContractRepo.u_exp_notice_period := None;
        ContractRepo.u_responsible := None |})) →
  keeps (column col) (reseedPartiesAndSignatureFields did).
Proof. intros Hd. unfold reseedPartiesAndSignatureFields. keeps_tac. Qed.
#[export] Hint Resolve keeps_reseed : tx.
#[export] Hint Extern 1 (keeps (column _) (reseedPartiesAndSignatureFields _)) =>
  apply keeps_column_reseed; intros ?; column_update : tx.

Example reseed_keeps_state did : keeps (column c_state) (reseedPartiesAndSignatureFields did).
Proof. keeps_tac. Qed.

(** ** Lemmas: renewal *)

(** The node records no signature attribution. *)
Definition unattributed (node : json) : Prop :=
  ∀ p, p ∈ signatureAttributionPredicates → field p node = None.

Lemma unsign_node_unattributed node : unattributed (unsign_node node).
Proof.
  intros p Hp. destruct node; try done. simpl in *.
  unfold signatureAttributionPredicates in Hp.
  apply elem_of_cons in Hp as [->|[->|[->|[]%elem_of_nil]%elem_of_cons]%elem_of_cons];
    rewrite ?lookup_delete_eq, ?lookup_delete_ne by done; rewrite ?lookup_delete_eq; try done.
Qed.

Lemma party_node_unattributed did : unattributed (party_node did).
Proof.
  intros p Hp. unfold signatureAttributionPredicates in Hp.
  by apply elem_of_cons in Hp as [->|[->|[->|[]%elem_of_nil]%elem_of_cons]%elem_of_cons].
Qed.

Lemma edit_ne key f doc k : k ≠ key → edit key f doc !! k = doc !! k.
Proof. unfold edit. intros Hne. destruct (doc !! key); [by apply lookup_insert_ne|done]. Qed.

Lemma edit_eq key f doc : edit key f doc !! key = f <$> doc !! key.
Proof. unfold edit. destruct (doc !! key) eqn:E; [by rewrite lookup_insert_eq|by rewrite E]. Qed.

Lemma unsign_spec raw doc :
  unsignRenewedDocument raw = Ok doc → doc ≠ JNull →
  ∃ m m', raw = JObj m ∧ doc = JObj m' ∧ parties_of doc = map unsign_node (parties_of raw) ∧
    (∀ k, k ≠ "dcs:parties" → k ≠ "dcs:policies" → m' !! k = m !! k).
Proof.
  unfold unsignRenewedDocument, mbind, result_bind. destruct raw as [| | | | |m]; try done; simpl;
    intros HR; simplify_eq; [done|]. intros _.
  eexists m, _. split; [done|]. split; [reflexivity|]. split.
  - unfold parties_of. simpl. rewrite edit_ne, edit_eq by done.
    by destruct (m !! "dcs:parties") as [[]|].
  - intros k H1 H2. by rewrite !edit_ne.
Qed.

Lemma doc_set_Ok raw k v doc : doc_set raw k v = Ok doc → ∃ m, raw = JObj m ∧ doc = JObj (<[k := v]> m).
Proof. unfold doc_set. destruct raw; try done. intros [= <-]. eauto. Qed.

Lemma Seed_obj raw dids doc ch :
  SeedPartiesAndSignatureFields raw dids = Ok (doc, ch) → (∃ m, raw = JObj m) →
  ∃ m', doc = JObj m' ∧
    parties_of doc = parties_of raw ++ (party_node <$> missing_parties (declared_parties (parties_of raw)) dids) ∧
    (∀ key, key ≠ "dcs:parties" → key ≠ "dcs:signatureFields" → m' !! key = field key raw).
Proof.
  intros HR [m ->]. destruct (SeedContractParties_spec m dids) as (m1 & c1 & E1 & K1 & F1 & P1 & D1).
  destruct (SeedSignatureFields_spec m1 dids) as (m2 & c2 & E2 & K2 & F2 & A2 & N2 & S2).
  unfold SeedPartiesAndSignatureFields, mbind, result_bind in HR. rewrite E1, E2 in HR.
  injection HR as <- <-. exists m2. split; [done|]. split.
  - rewrite <-P1. unfold parties_of. simpl. by rewrite K2.
  - intros key H1 H2. simpl. by rewrite K2, K1.
Qed.

Lemma Seed_unchanged raw dids doc :
  SeedPartiesAndSignatureFields raw dids = Ok (doc, false) → (∃ m, raw = JObj m) → doc = raw.
Proof.
  intros HR [m ->]. destruct (SeedContractParties_spec m dids) as (m1 & c1 & E1 & K1 & F1 & P1 & D1).
  destruct (SeedSignatureFields_spec m1 dids) as (m2 & c2 & E2 & K2 & F2 & A2 & N2 & S2).
  unfold SeedPartiesAndSignatureFields, mbind, result_bind in HR. rewrite E1, E2 in HR.
  injection HR as <- Hch. apply orb_false_iff in Hch as [-> ->]. by rewrite F2, F1.
Qed.
