(* ===== verification/Identity.v ===== *)
(** The identity of a contract document: internal/base/validation/documentdata.go
    (addDocumentIdentity, rebaseDocumentIDs, canonicalizeContractReferences and the
    hierarchy invariants).

    The helpers edit a freshly decoded tree in place; here they are functions on
    trees.  Rebasing descends into every object and array but rewrites only the
    strings that are values of an object. *)
From S2P Require Import Prelude Json Document.
Import GoStrings.

(** The first alias that [text] is, or is a fragment of. *)
Fixpoint rebase_alias (text did : string) (aliases : list string) : option string :=
  match aliases with
  | [] => None
  | alias :: rest =>
      if bool_decide (alias = EmptyString) || bool_decide (alias = did) then rebase_alias text did rest
      else if bool_decide (text = alias) then Some did
      else match cut_prefix alias text with
           | Some (String "#" fragment) => Some (String.append did (String "#" fragment))
           | _ => rebase_alias text did rest
           end
  end.

Definition rebaseIDText (text previousID did : string) (aliases : list string) : option string :=
  let superseded := negb (bool_decide (previousID = EmptyString)) && negb (bool_decide (previousID = did)) in
  match cut_prefix "urn:uuid:" text, cut_prefix previousID text with
  | Some uuid, _ => Some (String.append did (String "#" uuid))
  | None, Some (String "#" fragment) =>
      if superseded then Some (String.append did (String "#" fragment)) else rebase_alias text did aliases
  | None, _ =>
      if superseded && bool_decide (text = previousID) then Some did else rebase_alias text did aliases
  end.

Fixpoint rebaseDocumentIDs (previousID did : string) (aliases : list string) (value : json) : json :=
  match value with
  | JObj typed =>
      JObj ((λ nested,
               match nested with
               | JStr text =>
                   match rebaseIDText text previousID did aliases with
                   | Some rebased => JStr rebased
                   | None => nested
                   end
               | _ => rebaseDocumentIDs previousID did aliases nested
               end) <$> typed)
  | JArr typed => JArr (map (rebaseDocumentIDs previousID did aliases) typed)
  | _ => value
  end.

(** [topLevelValueExists]: the key under which a top-level value is found. *)
Definition top_level_key (data : gmap string json) (localName : string) : string :=
  let prefixed := String.append "dcs:" localName in
  if bool_decide (is_Some (data !! prefixed)) then prefixed else localName.

(** [node["@id"] = id] on the value of [key], when that value is an object. *)
Definition set_node_id (key id : string) (data : gmap string json) : gmap string json :=
  match as_object (data !! key) with
  | Some node => <[key := JObj (<["@id" := JStr id]> node)]> data
  | None => data
  end.

(** The identifiers written last: the document's own and those of its parts. *)
Definition own_identifiers (did : string) (data : gmap string json) : gmap string json :=
  let anchored := <["@id" := JStr did]> data in
  let with_metadata := set_node_id (top_level_key anchored "metadata") (String.append did "#metadata") anchored in
  set_node_id (top_level_key with_metadata "documentStructure") (String.append did "#document-structure")
    with_metadata.

Definition addDocumentIdentity (raw : option json) (did : string) (aliases : list string) : result json :=
  data ← decodeDocumentData raw;
  if bool_decide (TrimSpace did = EmptyString) then Ok (JObj data) else
  let previousID := as_string (data !! "@id") in
  let derivedFromTemplateID := node_id (default JNull (data !! "derivedFromTemplate")) in
  match rebaseDocumentIDs previousID did aliases (JObj data) with
  | JObj rebased =>
      let restored := if bool_decide (derivedFromTemplateID = EmptyString) then rebased
                      else set_node_id "derivedFromTemplate" derivedFromTemplateID rebased in
      Ok (JObj (own_identifiers did restored))
  | other => Ok other
  end.

(** The loop body of [canonicalizeContractReferences] for one reference. *)
Definition canonicalize_reference (public_url : string) (data : gmap string json) (key : string) :
    gmap string json :=
  let id := node_id (default JNull (data !! key)) in
  if bool_decide (id = EmptyString) then data
  else set_node_id key (ResourceIRI public_url "contract" (ResourceKey id)) data.

Definition canonicalizeContractReferences (public_url : string) (raw : option json) : result json :=
  data ← decodeDocumentData raw;
  Ok (JObj (foldl (canonicalize_reference public_url) data ["dcs:parentContract"; "dcs:renewsContract"])).

Definition childEnumeratingProperties : list string :=
  ["dcs:childContracts"; "dcs:subContracts"; "dcs:hasPart"].

Definition validateContractHierarchyInvariants (data : gmap string json) : result () :=
  if (1 <? length (as_list (data !! "dcs:parentContract")))%nat
  then Err (Wrapf "a contract may reference at most one dcs:parentContract"
              (Sentinel ErrContractHierarchyInvalid))
  else if existsb (λ key, bool_decide (is_Some (data !! key))) childEnumeratingProperties
  then Err (Wrapf "contract documents must not enumerate children" (Sentinel ErrContractHierarchyInvalid))
  else Ok ().

(** ** Strings around a fragment mark *)
Definition no_fragment (s : string) : Prop := Contains s "#" = false.

Lemma cut_prefix_Some p s t : cut_prefix p s = Some t ↔ s = String.append p t.
Proof.
  revert s. induction p as [|c p IH]; intros s; simpl; [by split; [intros [= ->]|intros ->]|].
  destruct s as [|d s]; [done|]. case_bool_decide as Hc; [subst|split; [done|intros [= ->]; done]].
  rewrite IH. split; [by intros ->|by intros [= ->]].
Qed.

Lemma no_fragment_cons c s : no_fragment (String c s) ↔ c ≠ "#"%char ∧ no_fragment s.
Proof.
  unfold no_fragment. simpl. rewrite orb_false_iff. split.
  - intros [Hp Hs]. split; [|done]. intros ->. destruct s; done.
  - intros [Hc Hs]. split; [|done]. by destruct c as [[] [] [] [] [] [] [] []].
Qed.

(** A string without a fragment mark that starts [a ++ "#" ++ f] starts [a]. *)
Lemma prefix_before_mark p a u f :
  no_fragment p → String.append p u = String.append a (String "#" f) → ∃ r, a = String.append p r.
Proof.
  revert a. induction p as [|c p IH]; intros a Hp E; [by exists a|]. apply no_fragment_cons in Hp as [Hc Hp].
  destruct a as [|d a]; simpl in E; injection E as E1 E2; [congruence|]. subst d.
  destruct (IH _ Hp E2) as [r ->]. by exists r.
Qed.

Lemma mark_unique a b f g :
  no_fragment a → no_fragment b → String.append a (String "#" f) = String.append b (String "#" g) → a = b.
Proof.
  revert b. induction a as [|c a IH]; intros b Ha Hb E; destruct b as [|d b]; simpl in E; [done|..];
    injection E as E1 E2; subst; try (apply no_fragment_cons in Ha as [? ?]); try (apply no_fragment_cons in Hb as [? ?]);
    try done. f_equal. by apply IH.
Qed.

Lemma mark_absent a b f : no_fragment b → b ≠ String.append a (String "#" f).
Proof.
  revert b. induction a as [|c a IH]; intros b Hb ->; simpl in Hb; apply no_fragment_cons in Hb as [? Hb]; [done|].
  by eapply IH.
Qed.

(** ** References that anchoring leaves behind *)

(** [text] still names the document by a temporary id or by one of its aliases, its
    previous identifier among them. *)
Definition stale_reference (did : string) (aliases : list string) (text : string) : Prop :=
  (∃ uuid, text = String.append "urn:uuid:" uuid) ∨
  ∃ alias, alias ∈ aliases ∧ alias ≠ EmptyString ∧ alias ≠ did ∧
    (text = alias ∨ ∃ fragment, text = String.append alias (String "#" fragment)).

Lemma rebase_alias_None text did aliases :
  rebase_alias text did aliases = None ↔
  ∀ alias, alias ∈ aliases → alias ≠ EmptyString → alias ≠ did →
    text ≠ alias ∧ ∀ fragment, text ≠ String.append alias (String "#" fragment).
Proof.
  induction aliases as [|a rest IH]; simpl; [split; [intros _ alias H; by inversion H|done]|].
  transitivity ((a ≠ EmptyString → a ≠ did → text ≠ a ∧ ∀ f, text ≠ String.append a (String "#" f)) ∧
                rebase_alias text did rest = None).
  - destruct (bool_decide (a = EmptyString) || bool_decide (a = did)) eqn:E.
    { split; [|naive_solver]. intros H. split; [|done]. intros H1 H2.
      apply orb_true_iff in E as [?%bool_decide_eq_true|?%bool_decide_eq_true]; done. }
    apply orb_false_iff in E as [H1%bool_decide_eq_false H2%bool_decide_eq_false].
    case_bool_decide as Ht; [split; [done|intros [H _]; by destruct (H H1 H2)]|].
    destruct (cut_prefix a text) as [[|c f]|] eqn:Ec.
    + split; [|naive_solver]. intros H. split; [|done]. intros _ _. split; [done|]. intros f ->.
      pose proof (proj2 (cut_prefix_Some a _ (String "#" f)) eq_refl). congruence.
    + destruct (decide (c = "#"%char)) as [->|Hc].
      * split; [done|]. intros [H _]. apply cut_prefix_Some in Ec. by destruct (proj2 (H H1 H2) f).
      * transitivity (rebase_alias text did rest = None); [by destruct c as [[] [] [] [] [] [] [] []]|].
        split; [|naive_solver]. intros H. split; [|done]. intros _ _. split; [done|]. intros g ->.
        pose proof (proj2 (cut_prefix_Some a _ (String "#" g)) eq_refl). congruence.
    + split; [|naive_solver]. intros H. split; [|done]. intros _ _. split; [done|]. intros f ->.
      pose proof (proj2 (cut_prefix_Some a _ (String "#" f)) eq_refl). congruence.
  - rewrite IH. setoid_rewrite elem_of_cons. naive_solver.
Qed.

Lemma rebaseIDText_cases text previousID did aliases r :
  rebaseIDText text previousID did aliases = Some r → r = did ∨ ∃ f, r = String.append did (String "#" f).
Proof.
  assert (Ha : ∀ l, rebase_alias text did l = Some r → r = did ∨ ∃ f, r = String.append did (String "#" f)).
  { induction l as [|a l IH]; simpl; [done|]. destruct (_ || _); [exact IH|]. case_bool_decide; [naive_solver|].
    destruct (cut_prefix a text) as [[|c f]|]; try exact IH.
    destruct c as [[] [] [] [] [] [] [] []]; try exact IH. intros [= <-]. eauto. }
  unfold rebaseIDText. destruct (cut_prefix "urn:uuid:" text); [intros [= <-]; eauto|].
  destruct (cut_prefix previousID text) as [[|c f]|].
  - destruct (_ && _); [naive_solver|apply Ha].
  - destruct c as [[] [] [] [] [] [] [] []]; destruct (_ && _); try apply Ha; naive_solver.
  - destruct (_ && _); [naive_solver|apply Ha].
Qed.

(** The identifiers anchoring works with: the document's resource IRI is no
    temporary id, and neither it nor an alias is already a fragment. *)
Definition plain_names (did : string) (aliases : list string) : Prop :=
  HasPrefix did "urn:uuid:" = false ∧ no_fragment did ∧ Forall no_fragment aliases.

Lemma not_uuid did u : HasPrefix did "urn:uuid:" = false → did ≠ String.append "urn:uuid:" u.
Proof. intros H ->. by destruct u. Qed.

Section anchoring.
Context (did : string) (aliases : list string) (Hplain : plain_names did aliases).

Lemma own_name_is_current r previousID :
  previousID = did → r = did ∨ (∃ f, r = String.append did (String "#" f)) →
  rebaseIDText r previousID did aliases = None.
Proof.
  destruct Hplain as (Hu & Hd & Hal). intros -> Hr.
  assert (Hnone : rebase_alias r did aliases = None).
  { apply rebase_alias_None. intros a Ha _ Hne. rewrite Forall_forall in Hal. specialize (Hal a Ha).
    split; [intros ->|intros f ->]; destruct Hr as [E|[g E]]; try done.
    - by eapply mark_absent in E.
    - by apply (mark_absent a did f) in Hd.
    - apply Hne. by eapply mark_unique. }
  assert (Huuid : cut_prefix "urn:uuid:" r = None).
  { destruct (cut_prefix "urn:uuid:" r) as [u|] eqn:E; [|done]. apply cut_prefix_Some in E.
    destruct Hr as [->|[f ->]]; [by destruct (not_uuid _ u Hu)|].
    symmetry in E. apply prefix_before_mark in E as [t Et]; [|done]. by destruct (not_uuid _ t Hu). }
  unfold rebaseIDText. rewrite Huuid, (bool_decide_eq_true_2 (did = did)) by done. cbn [negb]. rewrite andb_false_r. cbn [andb].
  destruct (cut_prefix did r) as [[|c f]|]; try exact Hnone. by destruct c as [[] [] [] [] [] [] [] []].
Qed.

Lemma rebaseIDText_current text :
  rebaseIDText text did did aliases = None ↔ ¬ stale_reference did aliases text.
Proof.
  transitivity ((∀ u, text ≠ String.append "urn:uuid:" u) ∧ rebase_alias text did aliases = None).
  - unfold rebaseIDText. rewrite (bool_decide_eq_true_2 (did = did)) by done. cbn [negb]. rewrite andb_false_r. cbn [andb].
    destruct (cut_prefix "urn:uuid:" text) as [u|] eqn:E.
    + split; [done|]. intros [H _]. apply cut_prefix_Some in E. by destruct (H u).
    + transitivity (rebase_alias text did aliases = None).
      { destruct (cut_prefix did text) as [[|c f]|]; try done. by destruct c as [[] [] [] [] [] [] [] []]. }
      split; [|naive_solver]. intros H. split; [|done]. intros u Hu.
      pose proof (proj2 (cut_prefix_Some _ _ _) Hu). congruence.
  - rewrite rebase_alias_None. unfold stale_reference. split.
    + intros [Hu Hal] [[u E]|(a & Ha & H1 & H2 & E)]; [by apply (Hu u)|].
      destruct (Hal a Ha H1 H2) as [Hne Hf]. destruct E as [E|[f E]]; [done|by apply (Hf f)].
    + intros Hn. split; [intros u E; apply Hn; eauto|]. intros a Ha H1 H2.
      split; [intros E|intros f E]; apply Hn; right; exists a; eauto 10.
Qed.

Lemma rebased_is_current text previousID :
  rebaseIDText text previousID did aliases = None → rebaseIDText text did did aliases = None.
Proof.
  unfold rebaseIDText. rewrite (bool_decide_eq_true_2 (did = did)) by done. cbn [negb]. rewrite andb_false_r. cbn [andb].
  destruct (cut_prefix "urn:uuid:" text); [done|]. intros H.
  assert (rebase_alias text did aliases = None) as Hal.
  { destruct (cut_prefix previousID text) as [[|c f]|].
    - destruct (_ && _); [done|exact H].
    - destruct c as [[] [] [] [] [] [] [] []]; destruct (_ && _); done.
    - destruct (_ && _); [done|exact H]. }
  destruct (cut_prefix did text) as [[|c f]|]; try exact Hal. by destruct c as [[] [] [] [] [] [] [] []].
Qed.

Lemma superseded_is_gone text previousID :
  rebaseIDText text previousID did aliases = None → rebaseIDText text did did (previousID :: aliases) = None.
Proof.
  intros H. pose proof (rebased_is_current _ _ H) as Hc. apply rebaseIDText_current in Hc.
  assert (Hu : ∀ u, text ≠ String.append "urn:uuid:" u) by (intros u ->; apply Hc; left; eauto).
  assert (Ha : rebase_alias text did aliases = None).
  { apply rebase_alias_None. intros a Hin H1 H2.
    split; [intros ->|intros f ->]; apply Hc; right; exists a; eauto 10. }
  unfold rebaseIDText. destruct (cut_prefix "urn:uuid:" text) as [u|] eqn:E; [apply cut_prefix_Some in E; by destruct (Hu u)|].
  rewrite (bool_decide_eq_true_2 (did = did)) by done. cbn [negb]. rewrite andb_false_r. cbn [andb].
  assert (Hall : rebase_alias text did (previousID :: aliases) = None).
  { apply rebase_alias_None. intros a [->|Hin]%elem_of_cons H1 H2; [|by eapply rebase_alias_None].
    unfold rebaseIDText in H. rewrite E, !bool_decide_eq_false_2 in H by done. cbn [negb andb] in H.
    split; [|intros f ->].
    - intros ->. rewrite bool_decide_eq_true_2 in H by done. destruct (cut_prefix previousID previousID) as [[|c f]|]; try done.
      by destruct c as [[] [] [] [] [] [] [] []].
    - by rewrite (proj2 (cut_prefix_Some previousID _ (String "#" f)) eq_refl) in H. }
  destruct (cut_prefix did text) as [[|c f]|]; try exact Hall. by destruct c as [[] [] [] [] [] [] [] []].
Qed.

(** What anchoring again makes of the value of a field. *)
Definition rebase_field (previousID : string) (nested : json) : json :=
  match nested with
  | JStr text => match rebaseIDText text previousID did aliases with Some r => JStr r | None => nested end
  | _ => rebaseDocumentIDs previousID did aliases nested
  end.

Lemma rebase_obj previousID m :
  rebaseDocumentIDs previousID did aliases (JObj m) = JObj (rebase_field previousID <$> m).
Proof. done. Qed.

Lemma rebase_text_twice previousID text :
  rebase_field did (rebase_field previousID (JStr text)) = rebase_field previousID (JStr text).
Proof.
  simpl. destruct (rebaseIDText text previousID did aliases) as [r|] eqn:E; simpl.
  - by rewrite (own_name_is_current r did eq_refl (rebaseIDText_cases _ _ _ _ _ E)).
  - by rewrite (rebased_is_current _ _ E).
Qed.

Lemma rebase_twice previousID v :
  rebaseDocumentIDs did did aliases (rebaseDocumentIDs previousID did aliases v) =
  rebaseDocumentIDs previousID did aliases v.
Proof.
  induction v as [v IHl IHm] using json_nested_ind. destruct v as [| | | |items|fields]; try done.
  - simpl. f_equal. rewrite map_map. apply map_ext_in. intros i Hi.
    apply (IHl items eq_refl). by apply list_elem_of_In.
  - rewrite !rebase_obj. f_equal. rewrite <-map_fmap_compose. apply map_fmap_ext. intros k i Hi. simpl.
    destruct i; try apply rebase_text_twice; exact (IHm fields eq_refl k _ Hi).
Qed.

Lemma rebase_field_twice previousID v :
  rebase_field did (rebase_field previousID v) = rebase_field previousID v.
Proof.
  destruct v; try apply rebase_text_twice; exact (rebase_twice previousID _).
Qed.

(** Nothing below [v] changes when the document is anchored again. *)
Definition current (v : json) : Prop := rebase_field did v = v.

Lemma current_obj m : current (JObj m) ↔ ∀ k v, m !! k = Some v → current v.
Proof.
  unfold current at 1. change (rebase_field did (JObj m)) with (JObj (rebase_field did <$> m)). split.
  - intros H%json_obj_inj k v Hk. pose proof (f_equal (λ x, x !! k) H) as E. simpl in E.
    rewrite lookup_fmap, Hk in E. by injection E.
  - intros H. f_equal. apply map_eq. intros k. rewrite lookup_fmap. destruct (m !! k) eqn:E; [|done].
    simpl. f_equal. by eapply H.
Qed.

Lemma current_own_name f : current (JStr did) ∧ current (JStr (String.append did (String "#" f))).
Proof.
  unfold current. simpl. split.
  - by rewrite (own_name_is_current did did eq_refl (or_introl eq_refl)).
  - rewrite (own_name_is_current (String.append did (String "#" f)) did eq_refl); [done|]. right. by exists f.
Qed.

(** Every field but the provenance reference is current. *)
Definition current_but (m : gmap string json) : Prop :=
  ∀ k v, k ≠ "derivedFromTemplate" → m !! k = Some v → current v.

Lemma current_set_node_id key id m :
  current (JStr id) → current_but m → current_but (set_node_id key id m).
Proof.
  intros Hid Hm k v Hk. unfold set_node_id. destruct (as_object (m !! key)) as [node|] eqn:E; [|by apply Hm].
  intros [[<- <-]|[_ H]]%lookup_insert_Some; [|by eapply Hm].
  destruct (m !! key) as [[]|] eqn:Ekey; try done. injection E as ->.
  apply Hm in Ekey; [|done]. rewrite current_obj in Ekey. apply current_obj.
  intros k' v' [[<- <-]|[_ H]]%lookup_insert_Some; [exact Hid|by eapply Ekey].
Qed.

Lemma current_own_identifiers m : current_but m → current_but (own_identifiers did m).
Proof.
  intros Hm. unfold own_identifiers. apply current_set_node_id; [apply current_own_name|].
  apply current_set_node_id; [apply current_own_name|].
  intros k v Hk [[<- <-]|[_ H]]%lookup_insert_Some; [apply (current_own_name EmptyString)|by eapply Hm].
Qed.

End anchoring.

(** ** The identifiers written last *)
Lemma set_node_id_ne key id m k : k ≠ key → set_node_id key id m !! k = m !! k.
Proof. intros Hk. unfold set_node_id. destruct (as_object _); [|done]. by apply lookup_insert_ne. Qed.

Lemma set_node_id_eq key id m :
  set_node_id key id m !! key =
  match m !! key with Some (JObj node) => Some (JObj (<["@id" := JStr id]> node)) | v => v end.
Proof. unfold set_node_id. destruct (m !! key) as [[]|] eqn:E; simpl; try done. apply lookup_insert_eq. Qed.

Lemma set_node_id_again key id m m' :
  m' !! key = set_node_id key id m !! key → set_node_id key id m' = m'.
Proof.
  rewrite set_node_id_eq. intros E. unfold set_node_id.
  destruct (m !! key) as [[| | | | |node]|]; rewrite E; try done. simpl.
  rewrite insert_insert_eq. by apply insert_id.
Qed.

Lemma top_level_key_same data data' name :
  (∀ k, is_Some (data' !! k) ↔ is_Some (data !! k)) → top_level_key data' name = top_level_key data name.
Proof. intros H. unfold top_level_key. by rewrite (bool_decide_ext _ _ (H _)). Qed.

Lemma is_Some_set_node_id key id m k : is_Some (set_node_id key id m !! k) ↔ is_Some (m !! k).
Proof.
  destruct (decide (k = key)) as [->|Hk]; [|by rewrite set_node_id_ne].
  rewrite set_node_id_eq. by destruct (m !! key) as [[]|].
Qed.

Lemma top_level_key_cases data name :
  top_level_key data name = String.append "dcs:" name ∨ top_level_key data name = name.
Proof. unfold top_level_key. case_bool_decide; auto. Qed.

Lemma own_identifiers_id did m : own_identifiers did m !! "@id" = Some (JStr did).
Proof.
  unfold own_identifiers.
  rewrite !set_node_id_ne by (edestruct top_level_key_cases as [-> | ->]; done). apply lookup_insert_eq.
Qed.

Lemma own_identifiers_other did m k :
  k ∉ ["@id"; "dcs:metadata"; "metadata"; "dcs:documentStructure"; "documentStructure"] →
  own_identifiers did m !! k = m !! k.
Proof.
  intros Hk. unfold own_identifiers.
  rewrite !set_node_id_ne by (edestruct top_level_key_cases as [-> | ->]; set_solver).
  apply lookup_insert_ne. set_solver.
Qed.

Lemma own_identifiers_dom did m k : is_Some (own_identifiers did m !! k) ↔ k = "@id" ∨ is_Some (m !! k).
Proof. unfold own_identifiers. rewrite !is_Some_set_node_id, lookup_insert_is_Some. destruct (decide (k = "@id")); naive_solver. Qed.

Lemma own_identifiers_again did m : own_identifiers did (own_identifiers did m) = own_identifiers did m.
Proof.
  unfold own_identifiers at 1. cbv zeta. rewrite (insert_id (own_identifiers did m)) by apply own_identifiers_id.
  set (A := <["@id" := JStr did]> m). set (k1 := top_level_key A "metadata").
  set (B := set_node_id k1 (String.append did "#metadata") A). set (k2 := top_level_key B "documentStructure").
  assert (HM : own_identifiers did m = set_node_id k2 (String.append did "#document-structure") B) by done.
  rewrite HM. assert (Hk : k1 ≠ k2).
  { unfold k1, k2. destruct (top_level_key_cases A "metadata") as [-> | ->],
      (top_level_key_cases B "documentStructure") as [-> | ->]; done. }
  set (M := set_node_id k2 _ B).
  assert (HA : ∀ name, top_level_key M name = top_level_key A name).
  { intros name. apply top_level_key_same. intros k. unfold M, B. by rewrite !is_Some_set_node_id. }
  assert (HB : ∀ name, top_level_key M name = top_level_key B name).
  { intros name. apply top_level_key_same. intros k. unfold M. by rewrite is_Some_set_node_id. }
  rewrite HA. fold k1. rewrite (set_node_id_again k1 _ A M) by (unfold M; by rewrite set_node_id_ne).
  rewrite HB. fold k2. by apply set_node_id_again with (m := B).
Qed.

(** [text] is the value of some field inside [j]. *)
Inductive holds_text (text : string) : json → Prop :=
  | holds_here m k : m !! k = Some (JStr text) → holds_text text (JObj m)
  | holds_field m k v : m !! k = Some v → holds_text text v → holds_text text (JObj m)
  | holds_item l v : v ∈ l → holds_text text v → holds_text text (JArr l).

Lemma current_holds did aliases j text :
  plain_names did aliases → current did aliases j → holds_text text j → ¬ stale_reference did aliases text.
Proof.
  intros Hp Hj Hh. induction Hh as [m k Hk|m k v Hk _ IH|l v Hv Hh IH].
  - rewrite current_obj in Hj. specialize (Hj _ _ Hk). unfold current in Hj. simpl in Hj.
    apply rebaseIDText_current. destruct (rebaseIDText text did did aliases) as [r|] eqn:E; [|done].
    injection Hj as ->. pose proof (own_name_is_current did aliases Hp text did eq_refl (rebaseIDText_cases _ _ _ _ _ E)).
    congruence.
  - rewrite current_obj in Hj. apply IH. by eapply Hj.
  - apply IH. unfold current in *. simpl in Hj. injection Hj as Hj.
    assert (rebaseDocumentIDs did did aliases v = v) as Hv'.
    { apply list_elem_of_lookup in Hv as [i Hi]. pose proof (f_equal (λ x, x !! i) Hj) as E. simpl in E.
      change (map ?f l) with (f <$> l) in E. rewrite list_lookup_fmap, Hi in E. by injection E. }
    destruct v; try exact Hv'. inversion Hh.
Qed.

(** Once rebased, nothing names the document by its previous identifier either. *)
Lemma rebased_forgets did aliases previousID v : plain_names did (previousID :: aliases) →
  current did (previousID :: aliases) (rebase_field did aliases previousID v).
Proof.
  intros Hp. assert (Hp' : plain_names did aliases) by (destruct Hp as (? & ? & [_ ?]%Forall_cons); by split_and!).
  assert (Ht : ∀ text, current did (previousID :: aliases) (rebase_field did aliases previousID (JStr text))).
  { intros text. unfold current. cbn [rebase_field]. destruct (rebaseIDText text previousID did aliases) as [r|] eqn:E; cbn [rebase_field].
    - by rewrite (own_name_is_current did _ Hp r did eq_refl (rebaseIDText_cases _ _ _ _ _ E)).
    - by rewrite (superseded_is_gone did aliases _ _ E). }
  assert (Hv : rebaseDocumentIDs did did (previousID :: aliases) (rebaseDocumentIDs previousID did aliases v) =
               rebaseDocumentIDs previousID did aliases v).
  { induction v as [v IHl IHm] using json_nested_ind. destruct v as [| | | |items|fields]; try done.
    - simpl. f_equal. rewrite map_map. apply map_ext_in. intros i Hi. apply (IHl items eq_refl). by apply list_elem_of_In.
    - rewrite !rebase_obj. f_equal. rewrite <-map_fmap_compose. apply map_fmap_ext. intros k i Hi. simpl.
      destruct i; try apply Ht; exact (IHm fields eq_refl k _ Hi). }
  destruct v; try apply Ht; exact Hv.
Qed.

Lemma addDocumentIdentity_eq m did aliases :
  TrimSpace did ≠ EmptyString →
  addDocumentIdentity (Some (JObj m)) did aliases =
  let id := node_id (default JNull (m !! "derivedFromTemplate")) in
  let rebased := rebase_field did aliases (as_string (m !! "@id")) <$> m in
  Ok (JObj (own_identifiers did
    (if bool_decide (id = EmptyString) then rebased else set_node_id "derivedFromTemplate" id rebased))).
Proof.
  intros Hne. unfold addDocumentIdentity. cbn [decodeDocumentData Unmarshal_map mbind result_bind].
  rewrite bool_decide_eq_false_2 by done. by rewrite rebase_obj.
Qed.

Lemma node_id_nonempty (m : gmap string json) key id :
  node_id (default JNull (m !! key)) = id → id ≠ EmptyString →
  ∃ node, m !! key = Some (JObj node) ∧ node !! "@id" = Some (JStr id).
Proof.
  destruct (m !! key) as [[| | | | |node]|]; simpl; try congruence. unfold as_string.
  destruct (node !! "@id") as [[]|] eqn:E; intros; try congruence. subst. eauto.
Qed.

(** The document between the rebase and the last identifiers. *)
Definition rebased_document (did : string) (aliases : list string) (m : gmap string json) :
    gmap string json :=
  let id := node_id (default JNull (m !! "derivedFromTemplate")) in
  let rebased := rebase_field did aliases (as_string (m !! "@id")) <$> m in
  if bool_decide (id = EmptyString) then rebased else set_node_id "derivedFromTemplate" id rebased.

Lemma rebased_document_ne did aliases m k :
  k ≠ "derivedFromTemplate" →
  rebased_document did aliases m !! k = rebase_field did aliases (as_string (m !! "@id")) <$> m !! k.
Proof.
  intros Hk. unfold rebased_document. case_bool_decide; [|rewrite set_node_id_ne by done]; apply lookup_fmap.
Qed.

Lemma rebased_document_provenance did aliases m id :
  node_id (default JNull (m !! "derivedFromTemplate")) = id → id ≠ EmptyString →
  ∃ node, m !! "derivedFromTemplate" = Some (JObj node) ∧
    rebased_document did aliases m !! "derivedFromTemplate" =
      Some (JObj (<["@id" := JStr id]> (rebase_field did aliases (as_string (m !! "@id")) <$> node))).
Proof.
  intros Hid Hne. destruct (node_id_nonempty _ _ _ Hid Hne) as (node & Hnode & _). exists node. split; [done|].
  unfold rebased_document. rewrite Hid, bool_decide_eq_false_2 by done.
  by rewrite set_node_id_eq, lookup_fmap, Hnode.
Qed.

Lemma rebased_document_current did aliases m :
  plain_names did aliases → current_but did aliases (rebased_document did aliases m).
Proof.
  intros Hp k v Hk. rewrite rebased_document_ne by done. destruct (m !! k); [|done].
  intros [= <-]. by apply rebase_field_twice.
Qed.

Lemma rebased_document_forgets did aliases m :
  plain_names did (as_string (m !! "@id") :: aliases) →
  current_but did (as_string (m !! "@id") :: aliases) (rebased_document did aliases m).
Proof.
  intros Hp k v Hk. rewrite rebased_document_ne by done. destruct (m !! k); [|done].
  intros [= <-]. by apply rebased_forgets.
Qed.

(** Rebasing once more changes nothing, whatever was written over the document's
    own identifiers in between. *)
Lemma rebased_document_again did aliases m m' :
  plain_names did aliases → current_but did aliases m' → m' !! "@id" = Some (JStr did) →
  m' !! "derivedFromTemplate" = rebased_document did aliases m !! "derivedFromTemplate" →
  rebased_document did aliases m' = m'.
Proof.
  intros Hp Hcur Hid Hprov. apply map_eq. intros k.
  destruct (decide (k = "derivedFromTemplate")) as [->|Hk].
  - destruct (decide (node_id (default JNull (m !! "derivedFromTemplate")) = EmptyString)) as [E|E].
    + assert (Hc : m' !! "derivedFromTemplate" =
                   rebase_field did aliases (as_string (m !! "@id")) <$> m !! "derivedFromTemplate").
      { rewrite Hprov. unfold rebased_document. rewrite E. by rewrite bool_decide_eq_true_2, lookup_fmap by done. }
      unfold rebased_document. case_bool_decide as Eid.
      * rewrite lookup_fmap, Hid, Hc. destruct (m !! _); [|done]. simpl. f_equal. by apply rebase_field_twice.
      * destruct (node_id_nonempty _ _ _ eq_refl Eid) as (node & Hn & Hnid).
        rewrite Hn in Hc, Hnid. destruct (m !! "derivedFromTemplate") as [v|]; [|done]. injection Hc as Hc.
        assert (Hf : rebase_field did aliases did (JObj node) = JObj node).
        { rewrite Hc. by apply rebase_field_twice. }
        apply (json_obj_inj (rebase_field did aliases did <$> node) node) in Hf.
        rewrite set_node_id_eq, lookup_fmap, Hid, Hn.
        transitivity (Some (JObj (<["@id" := JStr (node_id (JObj node))]> (rebase_field did aliases did <$> node))));
          [done|]. rewrite Hf. by rewrite (insert_id node).
    + destruct (rebased_document_provenance did aliases m _ eq_refl E) as (node & _ & Hr). rewrite Hr in Hprov.
      set (id := node_id _) in *.
      destruct (rebased_document_provenance did aliases m' id) as (node' & Hn' & ->).
      { rewrite Hprov. simpl. by rewrite lookup_insert_eq. }
      { done. }
      rewrite Hprov in Hn' |- *. injection Hn' as <-. rewrite Hid. simpl. do 2 f_equal.
      rewrite fmap_insert, insert_insert_eq. f_equal. rewrite <-map_fmap_compose. apply map_fmap_ext.
      intros k v _. by apply rebase_field_twice.
  - rewrite rebased_document_ne, Hid by done. destruct (m' !! k) eqn:E; [|done]. simpl. f_equal. by eapply Hcur.
Qed.

(** The node of a top-level property, found under its prefixed name first, carries
    the given identifier if it is an object. *)
Definition part_is_named (m : gmap string json) (name id : string) : Prop :=
  ∀ node, (m !! String.append "dcs:" name = Some (JObj node) ∨
           m !! String.append "dcs:" name = None ∧ m !! name = Some (JObj node)) →
    node !! "@id" = Some (JStr id).

Lemma set_node_id_named name id data :
  part_is_named (set_node_id (top_level_key data name) id data) name id.
Proof.
  intros node. unfold top_level_key. case_bool_decide as Hp.
  - intros [H|[H _]].
    + rewrite set_node_id_eq in H. destruct (data !! _) as [[]|]; try done. injection H as <-. apply lookup_insert_eq.
    + destruct Hp as [v Hv]. apply eq_None_not_Some in H. destruct H. apply is_Some_set_node_id. by exists v.
  - assert (Hne : String.append "dcs:" name ≠ name).
    { clear. intros E. assert (HL : String.length (String.append "dcs:" name) = (4 + String.length name)%nat) by done.
      rewrite E in HL. lia. }
    intros [H|[_ H]].
    + exfalso. apply Hp. apply (is_Some_set_node_id name id). rewrite H. by eexists.
    + rewrite set_node_id_eq in H. destruct (data !! name) as [[]|]; try done. injection H as <-. apply lookup_insert_eq.
Qed.

Lemma part_is_named_frame m m' name id : (∀ k, k ∈ [String.append "dcs:" name; name] → m' !! k = m !! k) →
  part_is_named m name id → part_is_named m' name id.
Proof. intros Hk Hm node. rewrite !Hk by set_solver. apply Hm. Qed.

Lemma own_identifiers_parts did m :
  part_is_named (own_identifiers did m) "metadata" (String.append did "#metadata") ∧
  part_is_named (own_identifiers did m) "documentStructure" (String.append did "#document-structure").
Proof.
  unfold own_identifiers. split; [|apply set_node_id_named].
  eapply part_is_named_frame; [|apply set_node_id_named]. intros k Hk. apply set_node_id_ne.
  match goal with |- k ≠ top_level_key ?d _ => destruct (top_level_key_cases d "documentStructure") as [-> | ->] end;
    (apply elem_of_cons in Hk as [->|[->|[]%elem_of_nil]%elem_of_cons]; done).
Qed.


Definition demo_draft : gmap string json :=
  {[ "@id" := JStr "urn:uuid:draft"; "dcs:metadata" := JObj {[ "@id" := JStr "urn:uuid:meta" ]};
     "dcs:contractData" := JArr [JObj {[ "dcs:field" := JStr "urn:uuid:f1"; "dcs:of" := JStr "c1" ]}];
     "derivedFromTemplate" := JObj {[ "@id" := JStr "urn:uuid:draft" ]} ]}.


(** ** Resource identifiers *)

Definition plain_key (k : string) : Prop := k ≠ EmptyString ∧ Contains k "/" = false.

(** The configured origin is absent or absolute. *)
Definition public_origin (public_url : string) : Prop :=
  let origin := trim_right (λ c, bool_decide (c = "/"%char)) (TrimSpace public_url) in
  origin = EmptyString ∨ Contains origin "://" = true.

Lemma contains_cons c s : Contains (String c s) "/" = false ↔ c ≠ "/"%char ∧ Contains s "/" = false.
Proof.
  simpl. rewrite orb_false_iff. split.
  - intros [Hp Hs]. split; [|done]. intros ->. destruct s; done.
  - intros [Hc Hs]. split; [|done]. by destruct c as [[] [] [] [] [] [] [] []].
Qed.

Lemma split_plain k : Contains k "/" = false → split_on "/" k = [k].
Proof.
  induction k as [|c k IH]; [done|]. intros [Hc Hk]%contains_cons.
  change (split_on "/" (String c k)) with
    (if bool_decide (c = "/"%char) then EmptyString :: split_on "/" k
     else match split_on "/" k with [] => [String c EmptyString] | w :: ws => String c w :: ws end).
  by rewrite bool_decide_eq_false_2, IH by done.
Qed.

Lemma split_cons c s :
  split_on "/" (String c s) =
  if bool_decide (c = "/"%char) then EmptyString :: split_on "/" s
  else match split_on "/" s with [] => [String c EmptyString] | w :: ws => String c w :: ws end.
Proof. done. Qed.

Lemma split_nonempty s : split_on "/" s ≠ [].
Proof. destruct s; [done|]. rewrite split_cons. case_bool_decide; [done|]. by destruct (split_on _ _). Qed.

Lemma split_app a k : split_on "/" (String.append a (String "/" k)) = split_on "/" a ++ split_on "/" k.
Proof.
  induction a as [|c a IH]; [done|]. change (String.append (String c a) ?x) with (String c (String.append a x)).
  rewrite !split_cons, IH. case_bool_decide; [done|].
  destruct (split_on "/" a) eqn:E; [|done]. by destruct (split_nonempty a).
Qed.

Lemma append_assoc a b c : String.append a (String.append b c) = String.append (String.append a b) c.
Proof. induction a as [|x a IH]; [done|].
 change (String x (String.append a (String.append b c)) = String x (String.append (String.append a b) c)). by rewrite IH. Qed.

Lemma last_segment a k : Contains k "/" = false → last (split_on "/" (String.append a (String "/" k))) = Some k.
Proof. intros Hk. by rewrite split_app, (split_plain k), last_snoc. Qed.

Lemma trim_right_plain a k : plain_key k → 
  trim_right (λ c, bool_decide (c = "/"%char)) (String.append a k) = String.append a k.
Proof.
  intros [Hne Hk]. assert (Hk' : trim_right (λ c, bool_decide (c = "/"%char)) k = k).
  { clear Hne. induction k as [|c k IH]; [done|]. apply contains_cons in Hk as [Hc Hk]. simpl.
    rewrite IH by done. destruct k; [|done]. by rewrite bool_decide_eq_false_2. }
  induction a as [|c a IH]; [exact Hk'|]. simpl. rewrite IH.
  destruct (String.append a k) eqn:E; [destruct a; [by destruct k|done]|].
  change (String.append (String c a) k) with (String c (String.append a k)). by rewrite E.
Qed.

Lemma contains_app a b sub : Contains a sub = true → Contains (String.append a b) sub = true.
Proof.
  assert (Hp : ∀ p a, String.prefix p a = true → String.prefix p (String.append a b) = true).
  { induction p as [|c p IHp]; intros [|d x]; simpl; try done; [by destruct b|].
    destruct (ascii_dec c d); [apply IHp|done]. }
  induction a as [|c a IH]; simpl.
  - intros [H|]%orb_true_iff; [|done]. destruct sub; [|done]. by destruct b.
  - intros [H|H]%orb_true_iff; apply orb_true_iff; [left|right; by apply IH].
    by apply (Hp sub (String c a)).
Qed.

Lemma contains_scheme k : Contains k "/" = false → Contains k "://" = false.
Proof.
  induction k as [|c k IH]; [done|]. intros Hk. pose proof Hk as [Hc Hk']%contains_cons.
  change (Contains (String c k) "://") with (String.prefix "://" (String c k) || Contains k "://").
  rewrite IH, orb_false_r by done. clear IH Hk Hc.
  destruct k as [|d k]; [by destruct c as [[] [] [] [] [] [] [] []]|].
  apply contains_cons in Hk' as [Hd _]. cbn -[ascii_dec].
  repeat match goal with |- context [if ?x then _ else _] => destruct x; try congruence end.
Qed.

Lemma plain_key_relative k : plain_key k → Contains k "://" = false ∧ HasPrefix k "/" = false.
Proof.
  intros [_ Hk]. split; [by apply contains_scheme|].
  destruct k as [|c k]; [done|]. apply contains_cons in Hk as [Hc _]. unfold HasPrefix. cbn -[ascii_dec].
  repeat match goal with |- context [if ?x then _ else _] => destruct x; try congruence end.
Qed.

(** Reading the key back from the identifier minted for it. *)
Lemma ResourceKey_IRI public_url kind k :
  public_origin public_url → plain_key k → ResourceKey (ResourceIRI public_url kind k) = k.
Proof.
  intros Ho Hk. unfold ResourceIRI. destruct (plain_key_relative k Hk) as [H1 H2]. rewrite H1. cbn [orb].
  destruct (HasPrefix k "did:" || HasPrefix k "urn:"); [unfold ResourceKey; by rewrite H1, H2|].
  unfold public_origin in Ho. set (origin := trim_right _ _) in *. unfold ResourceKey.
  set (iri := String.append origin _).
  assert (Eiri : iri = String.append (String.append origin (String "/" kind)) (String "/" k)).
  { unfold iri. by rewrite <-!append_assoc. }
  replace (negb (Contains iri "://") && negb (HasPrefix iri "/")) with false.
  - assert (Etrim : trim_right (λ c, bool_decide (c = "/"%char)) iri = iri).
    { rewrite Eiri. change (String "/" k) with (String.append "/" k). rewrite append_assoc. by apply trim_right_plain. }
    by rewrite Etrim, Eiri, last_segment by apply Hk.
  - symmetry. apply andb_false_iff. unfold iri. destruct Ho as [E|Ho]; [right; rewrite E; unfold HasPrefix; cbn; by destruct (String.append kind _)|left].
    by rewrite contains_app.
Qed.

(** ** Contract references *)

(** The system key the reference under [key] points at. *)
Definition referenced (key : string) (data : gmap string json) : string :=
  ResourceKey (node_id (default JNull (data !! key))).

(** A document whose references, where it has any, point at usable keys. *)
Definition plain_references (data : gmap string json) : Prop :=
  ∀ key, key ∈ ["dcs:parentContract"; "dcs:renewsContract"] →
    node_id (default JNull (data !! key)) = EmptyString ∨ plain_key (referenced key data).

Lemma canonicalize_reference_ne public_url data key k :
  k ≠ key → canonicalize_reference public_url data key !! k = data !! k.
Proof. intros Hk. unfold canonicalize_reference. case_bool_decide; [done|]. by apply set_node_id_ne. Qed.

Lemma canonicalize_reference_eq public_url data key :
  canonicalize_reference public_url data key !! key =
  match data !! key with
  | Some (JObj m) =>
      if bool_decide (as_string (m !! "@id") = EmptyString) then Some (JObj m)
      else Some (JObj (<["@id" := JStr (ResourceIRI public_url "contract" (ResourceKey (as_string (m !! "@id"))))]> m))
  | v => v
  end.
Proof.
  unfold canonicalize_reference. destruct (data !! key) as [[]|] eqn:E; cbn [default id node_id]; try done.
  cbn [id]. case_bool_decide as H; cbn [node_id] in H; [by rewrite E|].
  by rewrite set_node_id_eq, E.
Qed.

Lemma canonicalize_reference_again public_url data d key :
  public_origin public_url →
  node_id (default JNull (data !! key)) = EmptyString ∨ plain_key (referenced key data) →
  d !! key = canonicalize_reference public_url data key !! key →
  canonicalize_reference public_url d key = d ∧ referenced key d = referenced key data.
Proof.
  intros Ho Hp Hd. rewrite canonicalize_reference_eq in Hd. unfold referenced in *.
  destruct (data !! key) as [[| | | | |m]|] eqn:E;
    try (unfold canonicalize_reference; rewrite Hd; done).
  cbn [default id node_id] in Hp. case_bool_decide as Hid.
  - unfold canonicalize_reference. rewrite Hd. cbn [default id node_id]. by rewrite bool_decide_eq_true_2.
  - destruct Hp as [Hp|Hp]; [done|]. unfold canonicalize_reference. rewrite Hd. cbn [default id node_id].
    rewrite lookup_insert_eq. cbn [as_string]. rewrite ResourceKey_IRI by done. split; [|done].
    case_bool_decide; [done|]. unfold set_node_id. rewrite Hd. cbn [as_object].
    by rewrite insert_insert_eq, insert_id.
Qed.

Lemma extract_parent_data raw data :
  decodeDocumentData raw = Ok data →
  extractParentContractDID raw =
  match data !! "dcs:parentContract" with
  | Some (JObj typed) => ResourceKey (as_string (typed !! "@id"))
  | Some (JArr (JObj first :: _)) => ResourceKey (as_string (first !! "@id"))
  | _ => EmptyString
  end.
Proof. by destruct raw as [[]|]; intros [= <-]. Qed.

(** Rewriting a contract's references to resource identifiers does not
    change which contract they name.  For any configured origin, and a document
    whose parent and renewal references carry usable system keys, the rewritten
    document has the same parent (as the hierarchy guards read it) and the same
    renewal source, every other property is untouched, and rewriting it again
    changes nothing. *)
Theorem references_keep_their_contract public_url raw data :
  public_origin public_url → decodeDocumentData raw = Ok data → plain_references data →
  ∃ data', canonicalizeContractReferences public_url raw = Ok (JObj data') ∧
    extractParentContractDID (Some (JObj data')) = extractParentContractDID raw ∧
    (∀ key, key ∈ ["dcs:parentContract"; "dcs:renewsContract"] → referenced key data' = referenced key data) ∧
    (∀ key, key ∉ ["dcs:parentContract"; "dcs:renewsContract"] → data' !! key = data !! key) ∧
    canonicalizeContractReferences public_url (Some (JObj data')) = Ok (JObj data').
Proof.
  intros Ho Hd Hp. unfold canonicalizeContractReferences. rewrite Hd. cbn [mbind result_bind foldl].
  set (d1 := canonicalize_reference public_url data "dcs:parentContract").
  set (d2 := canonicalize_reference public_url d1 "dcs:renewsContract"). exists d2.
  assert (E1 : d1 !! "dcs:renewsContract" = data !! "dcs:renewsContract") by by apply canonicalize_reference_ne.
  assert (E2 : d2 !! "dcs:parentContract" = d1 !! "dcs:parentContract") by by apply canonicalize_reference_ne.
  destruct (canonicalize_reference_again public_url data d2 "dcs:parentContract") as [A1 R1];
    [done|apply Hp; set_solver|done|].
  destruct (canonicalize_reference_again public_url d1 d2 "dcs:renewsContract") as [A2 R2]; [done| |done|].
  { unfold referenced. rewrite E1. apply Hp. set_solver. }
  split_and!; [done| | | |].
  - rewrite (extract_parent_data raw data), (extract_parent_data _ d2) by done. unfold referenced in *.
    rewrite E2 in *. unfold d1 in *. rewrite canonicalize_reference_eq in *.
    destruct (data !! "dcs:parentContract") as [[]|]; try done.
    case_bool_decide; [done|]. exact R1.
  - intros key [->|[->|[]%elem_of_nil]%elem_of_cons]%elem_of_cons; [done|]. rewrite R2. unfold referenced. by rewrite E1.
  - intros key Hk. unfold d2, d1. rewrite !canonicalize_reference_ne by set_solver. done.
  - cbn. by rewrite A1, A2.
Qed.

(** The chain of amendments of a demo contract, stored under bare keys. *)
Definition demo_references : gmap string json :=
  {[ "dcs:parentContract" := JObj {[ "@id" := JStr "frame-1" ]};
     "dcs:renewsContract" := JObj {[ "@id" := JStr "did:web:a.example:contract:c7" ]} ]}.

Lemma references_witness :
  ∃ data', canonicalizeContractReferences "https://dcs.example/" (Some (JObj demo_references)) = Ok (JObj data') ∧
    node_id (default JNull (data' !! "dcs:parentContract")) = "https://dcs.example/contract/frame-1" ∧
    extractParentContractDID (Some (JObj data')) = "frame-1".
Proof.
  destruct (references_keep_their_contract "https://dcs.example/" (Some (JObj demo_references)) demo_references)
    as (data' & E & Hparent & _).
  - right. vm_compute. reflexivity.
  - reflexivity.
  - intros key [->|[->|[]%elem_of_nil]%elem_of_cons]%elem_of_cons; right; split; vm_compute; done.
  - exists data'. split; [exact E|]. split; [|rewrite Hparent; vm_compute; reflexivity].
    vm_compute in E. injection E as <-. vm_compute. reflexivity.
Defined.
