(* ===== verification/Lifecycle.v ===== *)
(** The C2PA lifecycle vocabulary and the signature witness of a stored artifact:
    internal/pdfgeneration/provenance/lifecycle.go.

    A PDF is the list of its bytes.  [pdfNameTokens] scans it once: the scan is
    structural on the bytes, with a counter of the bytes a name has consumed in
    place of the index the source moves. *)
From S2P Require Import Prelude ContractState Sha256.
Import GoStrings.

Definition MapCWEStateToC2PA (cweState : string) : result string :=
  let upper := ToUpper cweState in
  if bool_decide (upper ∈ ["DRAFT"; "OFFERED"; "NEGOTIATION"; "SUBMITTED"; "REVIEWED"; "APPROVED";
                           "REJECTED"; "WITHDRAWN"]) then Ok "draft"
  else if bool_decide (upper ∈ ["SIGNED"; "ACTIVE"; "REGISTERED"]) then Ok "active"
  else if bool_decide (upper ∈ ["REVOKED"; "SUSPENDED"]) then Ok "suspended"
  else if bool_decide (upper = "TERMINATED") then Ok "terminated"
  else if bool_decide (upper = "EXPIRED") then Ok "expired"
  else if bool_decide (upper = "REPLACED") then Ok "replaced"
  else
    let lower := ToLower cweState in
    if bool_decide (lower ∈ ["draft"; "active"; "amended"; "suspended"; "terminated"; "expired";
                             "replaced"]) then Ok lower
    else Err (Errorf "unsupported lifecycle state").

Definition IsFrozenC2PAState (c2paState : string) : bool :=
  negb (bool_decide (c2paState = EmptyString)) && negb (bool_decide (c2paState = "draft")).

Definition ArtifactCarriesSignature (c2paState : string) : bool := bool_decide (c2paState = "active").

(** ** PDF names *)
Definition isPDFWhitespaceByte (b : Z) : bool := bool_decide (b ∈ [0; 9; 10; 12; 13; 32]).

Definition isPDFDelimiterByte (b : Z) : bool :=
  bool_decide (b ∈ [40; 41; 60; 62; 91; 93; 123; 125; 47; 37]).

Definition isPDFSpace (b : bytes) : bool := forallb isPDFWhitespaceByte b.

Definition hex_byte (b : Z) : option Z :=
  if (48 <=? b) && (b <=? 57) then Some (b - 48)
  else if (97 <=? b) && (b <=? 102) then Some (b - 87)
  else if (65 <=? b) && (b <=? 70) then Some (b - 55)
  else None.

(** The characters of a name after its solidus, escapes decoded, and how many
    bytes they take. *)
Fixpoint read_name (pdf : bytes) : bytes * nat :=
  match pdf with
  | [] => ([], 0%nat)
  | c :: rest =>
      if isPDFWhitespaceByte c || isPDFDelimiterByte c then ([], 0%nat)
      else
        let plain := let '(t, n) := read_name rest in (c :: t, S n) in
        if c =? 35 then
          match rest with
          | h :: l :: rest' =>
              match hex_byte h, hex_byte l with
              | Some h', Some l' => let '(t, n) := read_name rest' in (16 * h' + l' :: t, S (S (S n)))
              | _, _ => plain
              end
          | _ => plain
          end
        else plain
  end.

Record pdfNameToken := { text : bytes; start : nat; end_ : nat }.

Fixpoint scan_names (skip pos : nat) (pdf : bytes) : list pdfNameToken :=
  match pdf with
  | [] => []
  | c :: rest =>
      match skip with
      | S skip' => scan_names skip' (S pos) rest
      | O =>
          if c =? 47 then
            let '(t, n) := read_name rest in
            {| text := 47 :: t; start := pos; end_ := pos + 1 + n |} :: scan_names n (S pos) rest
          else scan_names 0 (S pos) rest
      end
  end.

Definition pdfNameTokens (pdf : bytes) : list pdfNameToken := scan_names 0 0 pdf.

Definition name_ByteRange : bytes := of_string "/ByteRange".
Definition name_Type : bytes := of_string "/Type".
Definition name_Sig : bytes := of_string "/Sig".

(** [pdf[a:b]]. *)
Definition slice (pdf : bytes) (a b : nat) : bytes := take (b - a) (drop a pdf).

(** The value of a [/Type] key is the name that follows it, white space apart. *)
Definition type_is_sig (pdf : bytes) (name : pdfNameToken) (rest : list pdfNameToken) : bool :=
  match rest with
  | next :: _ => bool_decide (text next = name_Sig) && isPDFSpace (slice pdf (end_ name) (start next))
  | [] => false
  end.

Fixpoint pades_loop (pdf : bytes) (byteRange sigType : bool) (names : list pdfNameToken) : bool :=
  match names with
  | [] => false
  | name :: rest =>
      let byteRange' := byteRange || bool_decide (text name = name_ByteRange) in
      let sigType' := sigType || (bool_decide (text name = name_Type) && type_is_sig pdf name rest) in
      if byteRange' && sigType' then true else pades_loop pdf byteRange' sigType' rest
  end.

Definition CarriesPAdESSignature (pdf : bytes) : bool :=
  pades_loop pdf false false (pdfNameTokens pdf).

Definition ArtifactC2PAState (contractState : string) (pdf : bytes) : result string :=
  state ← MapCWEStateToC2PA contractState;
  if IsFrozenC2PAState state || negb (CarriesPAdESSignature pdf) then Ok state
  else MapCWEStateToC2PA "SIGNED".

(** ** Lemmas *)

(** Some [/Type] of the names is followed by [/Sig]. *)
Fixpoint some_sig_type (pdf : bytes) (names : list pdfNameToken) : bool :=
  match names with
  | [] => false
  | name :: rest =>
      (bool_decide (text name = name_Type) && type_is_sig pdf name rest) || some_sig_type pdf rest
  end.

Lemma pades_loop_eq pdf br st names :
  br && st = false →
  pades_loop pdf br st names =
  (br || existsb (λ n, bool_decide (text n = name_ByteRange)) names) &&
  (st || some_sig_type pdf names).
Proof.
  revert br st. induction names as [|n rest IH]; intros br st H; simpl.
  - by rewrite !orb_false_r.
  - set (b := bool_decide (text n = name_ByteRange)).
    set (t := bool_decide (text n = name_Type) && type_is_sig pdf n rest).
    destruct ((br || b) && (st || t)) eqn:E.
    + apply andb_true_iff in E as [E1 E2]. by rewrite !orb_assoc, E1, E2.
    + rewrite IH by done. by rewrite !orb_assoc.
Qed.

(** What the signature scan answers, without its flags and its early exit. *)
Lemma CarriesPAdESSignature_eq pdf :
  CarriesPAdESSignature pdf =
  existsb (λ n, bool_decide (text n = name_ByteRange)) (pdfNameTokens pdf) &&
  some_sig_type pdf (pdfNameTokens pdf).
Proof. unfold CarriesPAdESSignature. by rewrite pades_loop_eq. Qed.

Lemma MapCWEStateToC2PA_state st :
  MapCWEStateToC2PA (state_String st) =
  Ok match st with
     | Signed | Active => "active"
     | Revoked => "suspended" | Terminated => "terminated" | Expired => "expired"
     | _ => "draft"
     end.
Proof. by destruct st. Qed.

(** The lifecycle state filed for a stored artifact is defined for every
    contract state; an artifact that carries a PAdES signature is always filed
    as frozen (never re-rendered), an unsigned one as its contract's state says,
    and a state that is frozen by itself stands whatever the artifact carries. *)
Theorem signed_artifact_is_frozen (st : ContractState) (pdf : bytes) :
  ∃ filed mapped,
    ArtifactC2PAState (state_String st) pdf = Ok filed ∧
    MapCWEStateToC2PA (state_String st) = Ok mapped ∧
    (CarriesPAdESSignature pdf = true → IsFrozenC2PAState filed = true) ∧
    (CarriesPAdESSignature pdf = false → filed = mapped) ∧
    (IsFrozenC2PAState mapped = true → filed = mapped) ∧
    (ArtifactCarriesSignature filed = true ↔
       st = Signed ∨ st = Active ∨
       (IsFrozenC2PAState mapped = false ∧ CarriesPAdESSignature pdf = true)).
Proof.
  unfold ArtifactC2PAState. rewrite MapCWEStateToC2PA_state. unfold mbind, result_bind.
  destruct (CarriesPAdESSignature pdf), st;
    (eexists _, _; split; [reflexivity|]; split; [reflexivity|]);
    vm_compute; naive_solver.
Qed.

(** A clause that spells the names in parentheses, or escapes them, is read as a
    conforming reader reads it. *)
Example escaped_names :
  CarriesPAdESSignature (of_string "<< /Type /Sig /Byte#52ange [0 1] >>") = true ∧
  CarriesPAdESSignature (of_string "<< /Type (x) /Sig /ByteRange [0 1] >>") = false ∧
  CarriesPAdESSignature (of_string "BT (see /ByteRange) Tj ET") = false.
Proof. vm_compute. done. Qed.
