(* ===== verification/Validation.v ===== *)
(** What the workflow asks of document validation, and the local roles.

    The validators of internal/base/validation (JSON-LD normalisation, SHACL and
    policy checks against the Semantic Hub) and the canonical document digest of
    internal/base/jades reach third-party processors; the workflow uses them
    through the operations of [ContractValidation] and every theorem about the
    workflow holds for any implementation of them.

    Also the local role check (internal/base/datatype/userrole/userrole.go) and the
    stale-view refusal shared by the handlers. *)
From S2P Require Import Prelude Json Store.

Class ContractValidation := {
  NormalizeContractDataForPersistence : option json → string → bool → result json;
  ValidateContractSemantics : option json → result ();
  RequireHubConformance : option json → result ();
  ValidateContractPolicySatisfaction : option json → string → result ();
  ValidateContractClosed : option json → result ();
  (** semanticmapper.BuildContractJSONLD, encoded. *)
  BuildContractJSONLD : Contract → result json;
  (** jades.ContractDocumentDigest over the stored document, if any. *)
  ContractDocumentDigest : option json → result string
}.

(** An implementation that accepts every document and changes none, for the
    concrete runs. *)
Definition lenient_validation : ContractValidation := {|
  NormalizeContractDataForPersistence := λ raw _ _,
    match raw with Some j => Ok j | None => Err (Errorf "document data is required") end;
  ValidateContractSemantics := λ _, Ok ();
  RequireHubConformance := λ _, Ok ();
  ValidateContractPolicySatisfaction := λ _ _, Ok ();
  ValidateContractClosed := λ _, Ok ();
  BuildContractJSONLD := λ c,
    match c_contract_data c with Some j => Ok j | None => Err (Errorf "document data is required") end;
  ContractDocumentDigest := λ raw,
    Ok (String.append "sha256:"
      match raw with Some (JObj m) => as_string (m !! "dcs:revision") | _ => EmptyString end)
|}.

(** ** internal/base/datatype/userrole *)
Definition ContractCreator : string := "Contract Creator".
Definition ContractReviewer : string := "Contract Reviewer".
Definition ContractApprover : string := "Contract Approver".
Definition ContractManager : string := "Contract Manager".
Definition ContractNegotiator : string := "Contract Negotiator".
Definition SystemContractCreator : string := "Sys. Contract Creator".
Definition ContractTargetSystem : string := "Contract Target System".

Fixpoint HasRoles (r requiredRoles : list string) : bool :=
  match requiredRoles with
  | [] => false
  | required :: rest => existsb (λ role, bool_decide (role = required)) r || HasRoles r rest
  end.

(** ** The optimistic-concurrency guard of the command package *)
Definition refuse_stale (localPeer causer : string) (seen stored : Z) : Tx () :=
  if Unix seen <? Unix stored then
    if negb (bool_decide (localPeer = causer))
    then throw (Wrapf "contract %w, please force synchronisation and reload" (Sentinel ErrUpdatedElsewhere))
    else throw (Wrapf "contract %w, please reload" (Sentinel ErrUpdatedElsewhere))
  else mret ().

(** ** Lemmas *)
Lemma HasRoles_iff r required : HasRoles r required = true ↔ ∃ role, role ∈ required ∧ role ∈ r.
Proof.
  induction required as [|q l IH]; simpl.
  - split; [done | intros (? & []%elem_of_nil & _)].
  - rewrite orb_true_iff, IH, existsb_true_iff. setoid_rewrite bool_decide_eq_true.
    split.
    + intros [(x & Hx & ->)|(x & Hx & Hr)]; exists x || exists q; set_solver.
    + intros (x & [->|Hx]%elem_of_cons & Hr); [left; eauto | right; eauto].
Qed.

Lemma refuse_stale_Ok l c a b e s u s' :
  refuse_stale l c a b e s = Ok (u, s') → s' = s ∧ Unix b <= Unix a.
Proof.
  unfold refuse_stale. repeat case_match; try done. intros [_ ->]%ret_Ok. bool_to_prop. done.
Qed.

(** A stale caller is refused with [ErrUpdatedElsewhere]. *)
Lemma refuse_stale_Err l c a b e s :
  Unix a < Unix b →
  ∃ err, refuse_stale l c a b e s = Err err ∧ errors_Is err ErrUpdatedElsewhere = true.
Proof.
  intros H. unfold refuse_stale. apply Z.ltb_lt in H. rewrite H.
  case_match; eexists; split; reflexivity.
Qed.

Lemma reads_refuse_stale l c a b : reads (refuse_stale l c a b).
Proof. by intros e s u s' [-> _]%refuse_stale_Ok. Qed.
#[export] Hint Resolve reads_refuse_stale : tx.
