(* ===== verification/Settlement.v ===== *)
(** The settled-agreement gate: internal/contractworkflowengine/command/
    settledagreement.go.  A document is frozen on this instance once the stored
    artifact carries a signature, or while this instance's own settlement names
    the digest of the document it stores. *)
From S2P Require Import Prelude Json ContractState Store Repos Validation Lifecycle.

Section settlement.
Context `{ContractValidation}.

Definition ownSettlementCoversStoredDocument (localPeer did : string) : Tx bool :=
  own ← wrap "could not read this instance's settlement" (SyncRepo.GetSettlement did localPeer);
  match own with
  | None => mret false
  | Some own =>
      contract ← wrap "could not read the contract document" (ContractRepo.ReadDataByDID did);
      digest ← wrap "could not digest the contract document"
        (lift (ContractDocumentDigest
          (if IsNotNullValue (c_contract_data contract) then c_contract_data contract else None)));
      mret (bool_decide (digest = s_document_digest own))
  end.

Definition requireUnsettledAgreement (localPeer did : string) : Tx () :=
  pdfState ← wrap "could not read the stored artifact's lifecycle state"
               (ContractRepo.ReadPDFState did);
  _ ← refuse (ArtifactCarriesSignature (C2PAState pdfState)) (Sentinel ErrAgreementSettled);
  settled ← ownSettlementCoversStoredDocument localPeer did;
  refuse settled (Sentinel ErrOwnAgreementSettled).

Definition withdrawOwnSettlement (localPeer did : string) : Tx () :=
  given ← wrap "could not read this instance's settlements" (SyncRepo.GetSettlementsBy did localPeer);
  withdrawnAt ← now;
  _ ← for_each given (λ settlement,
        wrap "could not queue the withdrawal"
          (SyncRepo.UpsertSettlementWithdrawal
            {| w_did := did; w_from := localPeer; w_to := s_to settlement;
               w_document_digest := s_document_digest settlement;
               w_withdrawn_at := withdrawnAt; w_recorded_at := ContractRepo.time_zero;
               w_delivered_at := None |}));
  wrap "could not withdraw this instance's settlement" (SyncRepo.DeleteSettlementsBy did localPeer).

(** ** Lemmas *)
Lemma reads_ownSettlementCovers p did : reads (ownSettlementCoversStoredDocument p did).
Proof. unfold ownSettlementCoversStoredDocument. reads_tac. Qed.
Lemma reads_requireUnsettled p did : reads (requireUnsettledAgreement p did).
Proof.
  unfold requireUnsettledAgreement. reads_tac.
  all: eauto using reads_ownSettlementCovers with tx.
Qed.

Lemma keeps_withdrawOwnSettlement {B} (f : Store → B) p did :
  (∀ s g, f (set_settlements g s) = f s) → (∀ s g, f (set_withdrawals g s) = f s) →
  keeps f (withdrawOwnSettlement p did).
Proof. intros H1 H2. unfold withdrawOwnSettlement. keeps_tac. Qed.


(** The digest the gate compares with. *)
Definition stored_digest (c : Contract) : result string :=
  ContractDocumentDigest (if IsNotNullValue (c_contract_data c) then c_contract_data c else None).

(** What this instance settled last for the contract. *)
Definition own_settlement (s : Store) (localPeer did : string) : option Settlement :=
  SyncRepo.newest (rows_where (SyncRepo.settled_by did localPeer) (settlements s)).

(** The gate, as one decision on the stored row and the own settlement. *)
Lemma requireUnsettled_eq p did e s c :
  contracts s !! did = Some c →
  requireUnsettledAgreement p did e s =
  if ArtifactCarriesSignature (C2PAState (c_pdf c)) then Err (Sentinel ErrAgreementSettled)
  else match own_settlement s p did with
       | None => Ok ((), s)
       | Some own =>
           match stored_digest c with
           | Ok d => if bool_decide (d = s_document_digest own)
                     then Err (Sentinel ErrOwnAgreementSettled) else Ok ((), s)
           | Err err => Err (Wrapf "could not digest the contract document" err)
           end
       end.
Proof.
  intros Hc. unfold requireUnsettledAgreement, ownSettlementCoversStoredDocument, mbind, tx_bind.
  unfold wrap at 1, ContractRepo.ReadPDFState. rewrite Hc. unfold refuse at 1.
  destruct (ArtifactCarriesSignature (C2PAState (c_pdf c))); [done|]. simpl.
  unfold wrap at 1, SyncRepo.GetSettlement, gets.
  fold (own_settlement s p did). destruct (own_settlement s p did) as [own|]; [|done].
  unfold wrap, ContractRepo.ReadDataByDID. rewrite Hc. unfold lift.
  change (c_contract_data (effective (env_now e) c)) with (c_contract_data c).
  fold (stored_digest c). destruct (stored_digest c); [|done]. unfold refuse, mret, tx_ret.
  by case_bool_decide.
Qed.

Lemma for_each_withdrawals p did at_ given e s u s' :
  NoDup (s_to <$> given) →
  for_each given (λ x, wrap "could not queue the withdrawal"
    (SyncRepo.UpsertSettlementWithdrawal
      {| w_did := did; w_from := p; w_to := s_to x; w_document_digest := s_document_digest x;
         w_withdrawn_at := at_; w_recorded_at := ContractRepo.time_zero; w_delivered_at := None |})) e s = Ok (u, s') →
  settlements s' = settlements s ∧
  (∀ w, w ∈ withdrawals s → w_to w ∉ s_to <$> given → w ∈ withdrawals s') ∧
  (∀ x, x ∈ given →
    {| w_did := did; w_from := p; w_to := s_to x; w_document_digest := s_document_digest x;
       w_withdrawn_at := at_; w_recorded_at := env_now e; w_delivered_at := None |} ∈ withdrawals s').
Proof.
  revert s. induction given as [|x given IH]; intros s HND HR; simpl in HR.
  - apply ret_Ok in HR as [_ ->]. split; [done|]. split; [done|]. intros x []%elem_of_nil.
  - apply NoDup_cons in HND as [Hx HND].
    apply bind_Ok in HR as ([] & s1 & H1%wrap_Ok%modify_Ok & HR). subst s1.
    apply IH in HR as (Hs & Hkeep & Hnew); [|done]. split; [by rewrite Hs|]. split.
    + intros w Hw Hto. simpl in Hto. apply not_elem_of_cons in Hto as [Hto1 Hto2].
      apply Hkeep; [|done]. simpl. apply elem_of_upsert_ne; [done|].
      unfold withdrawal_key. simpl. congruence.
    + intros y [->|Hy]%elem_of_cons; [|by apply Hnew].
      apply Hkeep; [|done]. simpl. apply elem_of_upsert_new.
Qed.

(** C37: Withdrawing this instance's settlement removes every settlement it gave
    for the contract and no other, queues toward each audience an undelivered
    withdrawal that names exactly the digest that had been settled, leaves every
    other table as it was, and so lifts the own-settlement refusal: afterwards
    the document may change unless the artifact is signed. *)
Theorem withdrawal_takes_back_exactly_the_agreement (p did : string) (e : Env) (s s' : Store) :
  NoDup (settlement_key <$> settlements s) →
  withdrawOwnSettlement p did e s = Ok ((), s') →
  (∀ x, x ∈ settlements s' ↔ x ∈ settlements s ∧ ¬ (s_did x = did ∧ s_from x = p)) ∧
  (∀ x, x ∈ settlements s → s_did x = did → s_from x = p →
    {| w_did := did; w_from := p; w_to := s_to x; w_document_digest := s_document_digest x;
       w_withdrawn_at := env_now e; w_recorded_at := env_now e; w_delivered_at := None |} ∈ withdrawals s') ∧
  contracts s' = contracts s ∧ negotiation_tasks s' = negotiation_tasks s ∧
  (∀ c, contracts s !! did = Some c → ArtifactCarriesSignature (C2PAState (c_pdf c)) = false →
    requireUnsettledAgreement p did e s' = Ok ((), s')).
Proof.
  intros HND HR. pose proof (keeps_withdrawOwnSettlement contracts p did ltac:(done) ltac:(done) _ _ _ _ HR) as HC.
  pose proof (keeps_withdrawOwnSettlement negotiation_tasks p did ltac:(done) ltac:(done) _ _ _ _ HR) as HN.
  unfold withdrawOwnSettlement in HR. tx_inv.
  match goal with H : SyncRepo.GetSettlementsBy _ _ _ _ = _ |- _ => apply gets_Ok in H as [-> ->] end.
  match goal with H : SyncRepo.DeleteSettlementsBy _ _ _ _ = _ |- _ => apply modify_Ok in H as -> end.
  set (own := rows_where (SyncRepo.settled_by did p) (settlements s)) in *.
  assert (Hperm : merge_sort SyncRepo.to_le own ≡ₚ own) by apply merge_sort_Permutation.
  assert (Hin : ∀ x, x ∈ own ↔ x ∈ settlements s ∧ s_did x = did ∧ s_from x = p).
  { intros x. unfold own. rewrite elem_of_rows_where. unfold SyncRepo.settled_by.
    by rewrite andb_true_iff, !bool_decide_eq_true. }
  match goal with H : for_each _ _ _ _ = _ |- _ => apply for_each_withdrawals in H as (Hs & _ & Hw) end.
  2:{ rewrite Hperm. apply (NoDup_fmap_rows_where settlement_key); [done|].
      unfold SyncRepo.settled_by. intros x y Hx Hy Hto. bool_to_prop. unfold settlement_key. congruence. }
  assert (Hdel : ∀ x, x ∈ rows_where (λ r, negb (SyncRepo.settled_by did p r)) (settlements s) ↔
                 x ∈ settlements s ∧ ¬ (s_did x = did ∧ s_from x = p)).
  { intros x. rewrite elem_of_rows_where, negb_true_iff. unfold SyncRepo.settled_by.
    rewrite andb_false_iff, !bool_decide_eq_false.
    destruct (decide (s_did x = did)), (decide (s_from x = p)); tauto. }
  simpl. rewrite Hs. split_and!; auto.
  - intros x H1 H2 H3. apply Hw. rewrite Hperm. by apply Hin.
  - intros c Hc Hsig. rewrite (requireUnsettled_eq p did e _ c); [|by rewrite <-Hc, <-HC].
    rewrite Hsig. unfold own_settlement. simpl. rewrite Hs, rows_where_nil; [done|].
    intros x Hx%Hdel. unfold SyncRepo.settled_by. destruct Hx as [_ Hx].
    apply andb_false_iff. rewrite !bool_decide_eq_false.
    destruct (decide (s_did x = did)), (decide (s_from x = p)); tauto.
Qed.

End settlement.
#[export] Hint Resolve reads_ownSettlementCovers reads_requireUnsettled : tx.
#[export] Hint Extern 2 (keeps _ (withdrawOwnSettlement _ _)) =>
  apply keeps_withdrawOwnSettlement; reflexivity : tx.

(** An agreement settled toward one counterparty. *)
Definition demo_settled : Store :=
  set_settlements (λ _,
    [{| s_did := "did:c1"; s_from := "did:web:a.example"; s_to := "did:web:b.example";
        s_contract_version := 1; s_document_digest := "sha256:r1"; s_settled_at := 1785500000000000;
        s_jades := "jws"; s_recorded_at := 1785500000000000; s_delivered_at := Some 1785500000000001 |}])
    (demo_store (demo_contract "did:c1" Submitted
      (JObj (<["dcs:revision" := JStr "r1"]> ∅)))).

Lemma withdrawal_takes_back_witness :
  let s' := (run (withdrawOwnSettlement "did:web:a.example" "did:c1") demo_env demo_settled).2 in
  requireUnsettledAgreement (H := lenient_validation) "did:web:a.example" "did:c1" demo_env demo_settled
    = Err (Sentinel ErrOwnAgreementSettled) ∧
  requireUnsettledAgreement (H := lenient_validation) "did:web:a.example" "did:c1" demo_env s'
    = Ok ((), s').
Proof.
  intros s'. split; [vm_compute; reflexivity|].
  destruct (withdrawal_takes_back_exactly_the_agreement (H := lenient_validation)
    "did:web:a.example" "did:c1" demo_env demo_settled s') as (_ & _ & _ & _ & Hgate).
  - apply (bool_decide_unpack _). vm_compute. exact I.
  - vm_compute. reflexivity.
  - apply (Hgate (demo_contract "did:c1" Submitted (JObj (<["dcs:revision" := JStr "r1"]> ∅))));
      vm_compute; reflexivity.
Defined.
