(* ===== verification/Merging.v ===== *)
(** The fold of a negotiation round: internal/contractworkflowengine/
    negotiationmerging (mergechangerequests.go, datatypes.go).

    [fold_requests] is the loop of [MergeChangeRequests] on the sorted requests,
    with the discard log it carries.  Object keys are matched exactly; the parser
    of RFC 3339 times is an argument. *)
From S2P Require Import Prelude Json ContractState Store Repos Validation.

Record ChangeRequest := {
  cr_Name : option string;
  cr_Description : option string;
  cr_ContractData : option json;
  cr_StartDate : option string;
  cr_ExpDate : option string;
  cr_ExpNoticePeriod : option Z;
  cr_ExpPolicy : option string
}.

(** A [*string] field: absent and null leave it nil, another type is an error. *)
Definition string_field (m : gmap string json) (key : string) : result (option string) :=
  match m !! key with
  | None | Some JNull => Ok None
  | Some (JStr s) => Ok (Some s)
  | Some _ => Err (Errorf "json: cannot unmarshal value into Go struct field of type string")
  end.

Fixpoint digits_Z (acc : Z) (l : list ascii) : option Z :=
  match l with
  | [] => Some acc
  | c :: l' =>
      let n := Z.of_nat (Ascii.nat_of_ascii c) in
      if (48 <=? n) && (n <=? 57) then digits_Z (10 * acc + (n - 48)) l' else None
  end.

(** An integer literal that fits the 64-bit [int]. *)
Definition int_of_literal (lit : string) : option Z :=
  z ← match String.list_ascii_of_string lit with
      | "-"%char :: ((_ :: _) as ds) => Z.opp <$> digits_Z 0 ds
      | (_ :: _) as ds => digits_Z 0 ds
      | [] => None
      end;
  if (-9223372036854775808 <=? z) && (z <=? 9223372036854775807) then Some z else None.

Example int_literals :
  (int_of_literal <$> ["42"; "-42"; "0"; "-"; ""; "9223372036854775807"; "9223372036854775808"; "1.5"]) =
  [Some 42; Some (-42); Some 0; None; None; Some 9223372036854775807; None; None].
Proof. reflexivity. Qed.

Definition int_field (m : gmap string json) (key : string) : result (option Z) :=
  match m !! key with
  | None | Some JNull => Ok None
  | Some (JNum lit) =>
      match int_of_literal lit with
      | Some z => Ok (Some z)
      | None => Err (Errorf "json: cannot unmarshal number into Go struct field of type int")
      end
  | Some _ => Err (Errorf "json: cannot unmarshal value into Go struct field of type int")
  end.

(** A [*json.RawMessage] field. *)
Definition raw_field (m : gmap string json) (key : string) : option json :=
  match m !! key with None | Some JNull => None | v => v end.

(** [json.Unmarshal(raw, &change)]. *)
Definition Unmarshal_ChangeRequest (raw : json) : result ChangeRequest :=
  m ← Unmarshal_map raw;
  name ← string_field m "name";
  description ← string_field m "description";
  start_date ← string_field m "start_date";
  exp_date ← string_field m "exp_date";
  notice ← int_field m "exp_notice_period";
  policy ← string_field m "exp_policy";
  Ok {| cr_Name := name; cr_Description := description;
        cr_ContractData := raw_field m "contract_data"; cr_StartDate := start_date;
        cr_ExpDate := exp_date; cr_ExpNoticePeriod := notice; cr_ExpPolicy := policy |}.

Definition fieldsSetBy (change : ChangeRequest) : list string :=
  let set {A} (v : option A) (name : string) := match v with Some _ => [name] | None => [] end in
  set (cr_Name change) "name" ++ set (cr_Description change) "description"
  ++ set (cr_StartDate change) "start_date" ++ set (cr_ExpDate change) "exp_date"
  ++ set (cr_ExpNoticePeriod change) "exp_notice_period"
  ++ set (cr_ExpPolicy change) "exp_policy" ++ set (cr_ContractData change) "contract_data".

(** ** The discard log *)

(** [holder], and [entries] in the order of [order]. *)
Record discardLog := { holder : gmap string string; entries : list Supersession }.

Definition newDiscardLog : discardLog := {| holder := ∅; entries := [] |}.

(** Append the field to the entry of this loser and winner, or open one. *)
Fixpoint add_entry (loser winner field : string) (l : list Supersession) : list Supersession :=
  match l with
  | [] => [{| NegotiationID := loser; SupersededByID := winner; Fields := [field] |}]
  | x :: l' =>
      if bool_decide (NegotiationID x = loser) && bool_decide (SupersededByID x = winner)
      then {| NegotiationID := loser; SupersededByID := winner; Fields := Fields x ++ [field] |} :: l'
      else x :: add_entry loser winner field l'
  end.

Definition claim_field (negotiationID : string) (d : discardLog) (field : string) : discardLog :=
  {| holder := <[field := negotiationID]> (holder d);
     entries :=
       match holder d !! field with
       | Some previous =>
           if bool_decide (previous = negotiationID) then entries d
           else add_entry previous negotiationID field (entries d)
       | None => entries d
       end |}.

Definition claim (d : discardLog) (negotiationID : string) (fields : list string) : discardLog :=
  foldl (claim_field negotiationID) d fields.

Definition records (d : discardLog) : list Supersession := entries d.

(** ** The fold *)
Section merge.
Context `{ContractValidation} (Parse_RFC3339 : string → result Z).

Definition mergeContractDataChange (contractData : json) (rawChange : json) : result json :=
  changeData ← wrap_err "failed to unmarshal contract data change" (Unmarshal_map rawChange);
  match rawChange with
  | JNull => Ok contractData
  | _ =>
      match changeData !! "dcs:documentStructure" with
      | None => Err (Errorf "change request contract data must use the canonical dcs:documentStructure envelope")
      | Some _ => Ok rawChange
      end
  end.

Definition parse_date (raw : option string) (old : option Z) : result (option Z) :=
  match raw with None => Ok old | Some s => t ← Parse_RFC3339 s; Ok (Some t) end.

(** One turn of the loop: the accumulated update and the round's document. *)
Definition apply_change (did : string) (acc : ContractRepo.ContractUpdateData * json)
    (change : ChangeRequest) : result (ContractRepo.ContractUpdateData * json) :=
  let '(u, contractData) := acc in
  start_date ← parse_date (cr_StartDate change) (ContractRepo.u_start_date u);
  exp_date ← parse_date (cr_ExpDate change) (ContractRepo.u_exp_date u);
  '(data, contractData') ←
    match cr_ContractData change with
    | None => Ok (ContractRepo.u_contract_data u, contractData)
    | Some raw =>
        updated ← mergeContractDataChange contractData raw;
        normalized ← wrap_err "contract data validation failed after merging change requests"
          (NormalizeContractDataForPersistence (Some updated) did true);
        Ok (Some normalized, updated)
    end;
  Ok ({| ContractRepo.u_did := ContractRepo.u_did u; ContractRepo.u_state := ContractRepo.u_state u;
         ContractRepo.u_name := ContractRepo.opt_set (cr_Name change) (ContractRepo.u_name u);
         ContractRepo.u_description :=
           ContractRepo.opt_set (cr_Description change) (ContractRepo.u_description u);
         ContractRepo.u_contract_version := ContractRepo.u_contract_version u;
         ContractRepo.u_contract_data := data;
         ContractRepo.u_start_date := start_date; ContractRepo.u_exp_date := exp_date;
         ContractRepo.u_exp_policy :=
           ContractRepo.opt_set (cr_ExpPolicy change) (ContractRepo.u_exp_policy u);
         ContractRepo.u_exp_notice_period :=
           ContractRepo.opt_set (cr_ExpNoticePeriod change) (ContractRepo.u_exp_notice_period u);
         ContractRepo.u_responsible := ContractRepo.u_responsible u |}, contractData').

Definition decode_request (n : NegotiationRow) : result ChangeRequest :=
  match n_change_request n with
  | None => Err (Panic "nil pointer dereference")
  | Some raw => wrap_err "could not unmarshal change request" (Unmarshal_ChangeRequest raw)
  end.

Fixpoint fold_requests (did : string) (acc : ContractRepo.ContractUpdateData * json)
    (discarded : discardLog) (requests : list NegotiationRow) :
    result (ContractRepo.ContractUpdateData * discardLog) :=
  match requests with
  | [] => Ok (acc.1, discarded)
  | n :: rest =>
      change ← decode_request n;
      acc' ← apply_change did acc change;
      fold_requests did acc' (claim discarded (n_id n) (fieldsSetBy change)) rest
  end.

(** The accepted requests are sorted here, whatever order the query returned. *)
Definition merge_accepted (did : string) (contract_data : option json)
    (accepted : list NegotiationRow) : result (ContractRepo.ContractUpdateData * list Supersession) :=
  match contract_data with
  | None => Err (Panic "nil pointer dereference")
  | Some raw =>
      doc ← wrap_err "failed to unmarshal contract data" (Unmarshal_map raw);
      '(u, discarded) ← fold_requests did (ContractRepo.update_of did, JObj doc) newDiscardLog
        (merge_sort NegotiationRepo.row_le accepted);
      Ok (u, records discarded)
  end.

Definition MergeChangeRequests (did : string) (contractVersion : Z) :
    Tx (ContractRepo.ContractUpdateData * list Supersession) :=
  changeRequests ← NegotiationRepo.ReadAllAcceptedByContractDIDAndVersion did contractVersion;
  contract ← ContractRepo.ReadDataByDID did;
  lift (merge_accepted (c_did contract) (c_contract_data contract) changeRequests).

Lemma reads_MergeChangeRequests did v : reads (MergeChangeRequests did v).
Proof. unfold MergeChangeRequests. reads_tac. Qed.

End merge.
#[export] Hint Resolve reads_MergeChangeRequests : tx.

(** ** Lemmas: the discard log *)

(** [f] of request [a] is recorded as superseded by request [b]. *)
Definition recorded (l : list Supersession) (a b f : string) : Prop :=
  ∃ r, r ∈ l ∧ NegotiationID r = a ∧ SupersededByID r = b ∧ f ∈ Fields r.

(** The claims of a sequence of requests, in order: who sets which field. *)
Definition claims (requests : list NegotiationRow) (changes : list ChangeRequest) :
    list (string * string) :=
  concat (zip_with (λ n c, (λ f, (n_id n, f)) <$> fieldsSetBy c) requests changes).

Definition claim_step (d : discardLog) (p : string * string) : discardLog := claim_field p.1 d p.2.

(** [a] set [f] and [b], another request, is the next that sets it. *)
Definition overwritten_by (ps : list (string * string)) (a b f : string) : Prop :=
  a ≠ b ∧ ∃ p1 p2 p3, ps = p1 ++ (a, f) :: p2 ++ (b, f) :: p3 ∧ ∀ c, (c, f) ∉ p2.

(** [a] is the last that sets [f]. *)
Definition last_claim (ps : list (string * string)) (f a : string) : Prop :=
  ∃ p1 p2, ps = p1 ++ (a, f) :: p2 ∧ ∀ c, (c, f) ∉ p2.

Lemma recorded_add_entry l loser winner field a b f :
  recorded (add_entry loser winner field l) a b f ↔
  recorded l a b f ∨ (a = loser ∧ b = winner ∧ f = field).
Proof.
  unfold recorded. induction l as [|x l IH]; simpl.
  - split.
    + intros (r & ->%list_elem_of_singleton & <- & <- & ->%list_elem_of_singleton). by right.
    + intros [(r & []%elem_of_nil & _)|(-> & -> & ->)].
      eexists. split; [left|]. split_and!; simpl; try done. left.
  - destruct (bool_decide _ && bool_decide _) eqn:E.
    + bool_to_prop. split.
      * intros (r & [->|Hr]%elem_of_cons & H1 & H2 & H3); simpl in *.
        -- apply elem_of_app in H3 as [H3| ->%list_elem_of_singleton]; [left|by right].
           exists x. split_and!; try congruence. left.
        -- left. exists r. split_and!; auto. by right.
      * intros [(r & [->|Hr]%elem_of_cons & H1 & H2 & H3)|(-> & -> & ->)].
        -- eexists. split; [left|]. simpl. split_and!; try congruence. apply elem_of_app. by left.
        -- exists r. split_and!; auto. by right.
        -- eexists. split; [left|]. simpl. split_and!; try done. apply elem_of_app. right. left.
    + setoid_rewrite elem_of_cons. split.
      * intros (r & [->|Hr] & H1 & H2 & H3); [left; exists x; auto|].
        destruct IH as [IH _]. destruct IH as [(r' & ? & ?)|?]; eauto 10.
      * intros [(r & [->|Hr] & H)|Hn]; [exists x; auto| |];
          destruct IH as [_ IH]; destruct IH as (r' & ? & ?); eauto 10.
Qed.

Lemma claim_step_spec d id g a b f :
  recorded (entries (claim_step d (id, g))) a b f ↔
  recorded (entries d) a b f ∨ (f = g ∧ b = id ∧ holder d !! g = Some a ∧ a ≠ id).
Proof.
  unfold claim_step, claim_field. simpl. destruct (holder d !! g) as [prev|].
  - case_bool_decide as Hp; [naive_solver|]. rewrite recorded_add_entry. naive_solver.
  - naive_solver.
Qed.

Lemma claims_holder ps f a :
  holder (foldl claim_step newDiscardLog ps) !! f = Some a ↔ last_claim ps f a.
Proof.
  induction ps as [|[id g] ps IH] using rev_ind.
  - simpl. rewrite lookup_empty. split; [done|]. intros (p1 & p2 & E & _). by destruct p1.
  - rewrite foldl_app. simpl. destruct (decide (f = g)) as [->|Hne].
    + rewrite lookup_insert_eq. split.
      * intros [= ->]. exists ps, []. split; [done|]. intros c []%elem_of_nil.
      * intros (p1 & p2 & E & Hno). destruct p2 as [|y p2 _] using rev_ind.
        -- apply app_inj_tail in E as [_ [= ->]]. done.
        -- rewrite app_comm_cons, app_assoc in E. apply app_inj_tail in E as [_ <-].
           exfalso. apply (Hno id). apply elem_of_app. right. left.
    + rewrite lookup_insert_ne by done. rewrite IH. split.
      * intros (p1 & p2 & -> & Hno). exists p1, (p2 ++ [(id, g)]). split; [by rewrite <-app_assoc|].
        intros c. rewrite elem_of_app, list_elem_of_singleton. naive_solver.
      * intros (p1 & p2 & E & Hno). destruct p2 as [|y p2 _] using rev_ind.
        -- apply app_inj_tail in E as [_ [= _ ->]]. done.
        -- rewrite app_comm_cons, app_assoc in E. apply app_inj_tail in E as [-> _].
           exists p1, p2. split; [done|]. intros c Hc. apply (Hno c). apply elem_of_app. by left.
Qed.

(** The log records exactly the overwrites. *)
Lemma claims_recorded ps a b f :
  recorded (entries (foldl claim_step newDiscardLog ps)) a b f ↔ overwritten_by ps a b f.
Proof.
  induction ps as [|[id g] ps IH] using rev_ind.
  - simpl. split; [intros (r & []%elem_of_nil & _)|].
    intros (_ & p1 & p2 & p3 & E & _). by destruct p1.
  - rewrite foldl_app. change (foldl claim_step (foldl claim_step newDiscardLog ps) [(id, g)])
      with (claim_step (foldl claim_step newDiscardLog ps) (id, g)).
    rewrite claim_step_spec, IH, claims_holder. split.
    + intros [(Hne & p1 & p2 & p3 & -> & Hno)|(-> & -> & (p1 & p2 & -> & Hno) & Hne)].
      * split; [done|]. exists p1, p2, (p3 ++ [(id, g)]). split; [|done].
        rewrite <-app_assoc. simpl. by rewrite <-app_assoc.
      * split; [done|]. exists p1, p2, []. split; [by rewrite <-app_assoc|done].
    + intros (Hne & p1 & p2 & p3 & E & Hno). destruct p3 as [|y p3 _] using rev_ind.
      * right. rewrite app_comm_cons, app_assoc in E.
        apply app_inj_tail in E as [-> [= -> ->]]. split_and!; auto. by exists p1, p2.
      * left. split; [done|]. exists p1, p2, p3. split; [|done].
        rewrite !app_comm_cons, !app_assoc in E. apply app_inj_tail in E as [-> _].
        by rewrite <-app_assoc.
Qed.

(** A request that set a field still holds it or is on record as having lost it. *)
Lemma claim_kept_or_recorded ps a f :
  (a, f) ∈ ps → last_claim ps f a ∨ ∃ b, overwritten_by ps a b f.
Proof.
  setoid_rewrite <-claims_recorded. setoid_rewrite <-claims_holder.
  induction ps as [|[id g] ps IH] using rev_ind; [intros []%elem_of_nil|].
  rewrite foldl_app. change (foldl claim_step (foldl claim_step newDiscardLog ps) [(id, g)])
    with (claim_step (foldl claim_step newDiscardLog ps) (id, g)).
  setoid_rewrite claim_step_spec. simpl.
  rewrite elem_of_app, list_elem_of_singleton. intros [Hin|[= -> ->]].
  - destruct (IH Hin) as [Hh|(b & Hb)]; [|by eauto].
    destruct (decide (f = g)) as [->|Hne]; [|left; by rewrite lookup_insert_ne].
    destruct (decide (a = id)) as [->|Ha]; [left; by rewrite lookup_insert_eq|].
    right. exists id. right. done.
  - left. by rewrite lookup_insert_eq.
Qed.

(** ** Lemmas: the fold *)

(** The value that the last request to set it gives a field. *)
Definition last_of {A} (sel : ChangeRequest → option A) (changes : list ChangeRequest) : option A :=
  foldr (λ c rest, ContractRepo.opt_set rest (sel c)) None changes.

Lemma opt_set_assoc {A} (a b c : option A) :
  ContractRepo.opt_set (ContractRepo.opt_set a b) c = ContractRepo.opt_set a (ContractRepo.opt_set b c).
Proof. by destruct a. Qed.

Lemma claim_steps d id fields : claim d id fields = foldl claim_step d ((λ f, (id, f)) <$> fields).
Proof. unfold claim. revert d. induction fields; intros d; simpl; [done|]. by rewrite IHfields. Qed.

Lemma merge_sort_unique (l1 l2 : list NegotiationRow) :
  NoDup (n_id <$> l1) → l1 ≡ₚ l2 →
  merge_sort NegotiationRepo.row_le l1 = merge_sort NegotiationRepo.row_le l2.
Proof.
  intros HND HP. apply (StronglySorted_unique_strong NegotiationRepo.row_le).
  - intros x y Hx Hy H1 H2. rewrite merge_sort_Permutation in Hx, Hy. rewrite <-HP in Hy.
    pose proof (row_le_antisym _ _ H1 H2) as Hid.
    apply list_elem_of_lookup in Hx as [i Hi], Hy as [j Hj].
    assert (i = j) as ->; [|congruence].
    eapply (NoDup_lookup _ i j (n_id x)); [exact HND| |];
      rewrite list_lookup_fmap; rewrite ?Hi, ?Hj; simpl; congruence.
  - apply StronglySorted_merge_sort; apply _.
  - apply StronglySorted_merge_sort; apply _.
  - by rewrite !merge_sort_Permutation.
Qed.

Section merge_lemmas.
Context `{ContractValidation} (Parse_RFC3339 : string → result Z).

Lemma decode_request_data n c : decode_request n = Ok c → cr_ContractData c ≠ Some JNull.
Proof.
  unfold decode_request, Unmarshal_ChangeRequest, mbind, result_bind, wrap_err.
  intros Hd. repeat (case_match; try discriminate). simplify_eq. simpl.
  unfold raw_field. by repeat case_match.
Qed.

(** What a list of changes makes of one field, from the value [old]. *)
Definition data_of (did : string) (changes : list ChangeRequest) (old new : option json) : Prop :=
  match last_of cr_ContractData changes with
  | None => new = old
  | Some raw => ∃ j, NormalizeContractDataForPersistence (Some raw) did true = Ok j ∧ new = Some j
  end.

Definition date_of (sel : ChangeRequest → option string) (changes : list ChangeRequest)
    (old new : option Z) : Prop :=
  match last_of sel changes with
  | None => new = old
  | Some s => ∃ t, Parse_RFC3339 s = Ok t ∧ new = Some t
  end.

Lemma parse_date_Ok raw old r :
  parse_date Parse_RFC3339 raw old = Ok r →
  match raw with None => r = old | Some s => ∃ t, Parse_RFC3339 s = Ok t ∧ r = Some t end.
Proof.
  unfold parse_date, mbind, result_bind. repeat case_match; intros; simplify_eq; eauto.
Qed.

Lemma apply_change_spec did u doc c u' doc' :
  apply_change Parse_RFC3339 did (u, doc) c = Ok (u', doc') → cr_ContractData c ≠ Some JNull →
  ContractRepo.u_name u' = ContractRepo.opt_set (cr_Name c) (ContractRepo.u_name u) ∧
  ContractRepo.u_description u' = ContractRepo.opt_set (cr_Description c) (ContractRepo.u_description u) ∧
  ContractRepo.u_exp_policy u' = ContractRepo.opt_set (cr_ExpPolicy c) (ContractRepo.u_exp_policy u) ∧
  ContractRepo.u_exp_notice_period u' =
    ContractRepo.opt_set (cr_ExpNoticePeriod c) (ContractRepo.u_exp_notice_period u) ∧
  date_of cr_StartDate [c] (ContractRepo.u_start_date u) (ContractRepo.u_start_date u') ∧
  date_of cr_ExpDate [c] (ContractRepo.u_exp_date u) (ContractRepo.u_exp_date u') ∧
  data_of did [c] (ContractRepo.u_contract_data u) (ContractRepo.u_contract_data u') ∧
  ContractRepo.u_did u' = ContractRepo.u_did u ∧ ContractRepo.u_state u' = ContractRepo.u_state u ∧
  ContractRepo.u_contract_version u' = ContractRepo.u_contract_version u ∧
  ContractRepo.u_responsible u' = ContractRepo.u_responsible u.
Proof.
  unfold apply_change, mbind, result_bind. intros HR Hnull.
  destruct (parse_date Parse_RFC3339 (cr_StartDate c) _) as [sd|] eqn:E1; [|done].
  destruct (parse_date Parse_RFC3339 (cr_ExpDate c) _) as [ed|] eqn:E2; [|done].
  apply parse_date_Ok in E1, E2. unfold date_of, data_of, last_of. simpl.
  destruct (cr_ContractData c) as [raw|] eqn:E3.
  - destruct (mergeContractDataChange doc raw) as [upd|] eqn:E4; [|done].
    assert (upd = raw) as ->.
    { unfold mergeContractDataChange, mbind, result_bind, wrap_err in E4. by repeat case_match; simplify_eq. }
    unfold wrap_err in HR.
    destruct (NormalizeContractDataForPersistence (Some raw) did true) as [j|] eqn:E5; [|done].
    simplify_eq. simpl. split_and!; eauto.
  - simplify_eq. simpl. split_and!; eauto.
Qed.

(** Field by field, what the update [u'] makes of [u] under the changes. *)
Record folded (did : string) (changes : list ChangeRequest) (u u' : ContractRepo.ContractUpdateData) :
    Prop := {
  folded_name : ContractRepo.u_name u' =
    ContractRepo.opt_set (last_of cr_Name changes) (ContractRepo.u_name u);
  folded_description : ContractRepo.u_description u' =
    ContractRepo.opt_set (last_of cr_Description changes) (ContractRepo.u_description u);
  folded_policy : ContractRepo.u_exp_policy u' =
    ContractRepo.opt_set (last_of cr_ExpPolicy changes) (ContractRepo.u_exp_policy u);
  folded_notice : ContractRepo.u_exp_notice_period u' =
    ContractRepo.opt_set (last_of cr_ExpNoticePeriod changes) (ContractRepo.u_exp_notice_period u);
  folded_start : date_of cr_StartDate changes (ContractRepo.u_start_date u) (ContractRepo.u_start_date u');
  folded_exp : date_of cr_ExpDate changes (ContractRepo.u_exp_date u) (ContractRepo.u_exp_date u');
  folded_data : data_of did changes (ContractRepo.u_contract_data u) (ContractRepo.u_contract_data u');
  folded_rest : ContractRepo.u_did u' = ContractRepo.u_did u ∧
    ContractRepo.u_state u' = ContractRepo.u_state u ∧
    ContractRepo.u_contract_version u' = ContractRepo.u_contract_version u ∧
    ContractRepo.u_responsible u' = ContractRepo.u_responsible u
}.

Lemma date_of_cons sel c cs old mid new :
  date_of sel [c] old mid → date_of sel cs mid new → date_of sel (c :: cs) old new.
Proof.
  unfold date_of, last_of. simpl. destruct (foldr _ _ cs); [done|]. simpl.
  destruct (sel c); naive_solver.
Qed.

Lemma data_of_cons did c cs old mid new :
  data_of did [c] old mid → data_of did cs mid new → data_of did (c :: cs) old new.
Proof.
  unfold data_of, last_of. simpl. destruct (foldr _ _ cs); [done|]. simpl.
  destruct (cr_ContractData c); naive_solver.
Qed.

Lemma fold_requests_spec did acc d l u d' :
  fold_requests Parse_RFC3339 did acc d l = Ok (u, d') →
  ∃ changes, Forall2 (λ n c, decode_request n = Ok c) l changes ∧
    d' = foldl claim_step d (claims l changes) ∧ folded did changes acc.1 u.
Proof.
  revert acc d. induction l as [|n l IH]; intros [u0 doc] d HR; cbn [fold_requests] in HR.
  - injection HR as <- <-. exists []. split; [constructor|]. split; [done|].
    by constructor.
  - unfold mbind, result_bind in HR.
    destruct (decode_request n) as [c|] eqn:Ec; [|done].
    destruct (apply_change Parse_RFC3339 did (u0, doc) c) as [[u1 doc1]|] eqn:Ea; [|done].
    apply IH in HR as (cs & HF & -> & Hf). exists (c :: cs).
    split; [constructor; [exact Ec | exact HF]|]. split.
    + rewrite claim_steps. unfold claims. simpl. by rewrite foldl_app.
    + apply apply_change_spec in Ea as (En & Ed & Ep & Eo & Es & Ee & Edat & E1 & E2 & E3 & E4);
        [|by apply (decode_request_data n)].
      destruct Hf as [H1 H2 H3 H4 H5 H6 H7 (H8 & H9 & H10 & H11)]. simpl in *.
      constructor; eauto using date_of_cons, data_of_cons.
      * by rewrite H1, En, <-opt_set_assoc.
      * by rewrite H2, Ed, <-opt_set_assoc.
      * by rewrite H3, Ep, <-opt_set_assoc.
      * by rewrite H4, Eo, <-opt_set_assoc.
      * split_and!; congruence.
Qed.

(** The outcome of merging a round does not depend on the order in which the
    query returned the accepted requests: any two listings of the same requests
    (ids are primary keys) give the same update, the same discard records, or
    the same error. *)
Theorem merge_is_order_independent (did : string) (doc : option json) (l1 l2 : list NegotiationRow) :
  NoDup (n_id <$> l1) → l1 ≡ₚ l2 →
  merge_accepted Parse_RFC3339 did doc l1 = merge_accepted Parse_RFC3339 did doc l2.
Proof. intros HND HP. unfold merge_accepted. by rewrite (merge_sort_unique l1 l2). Qed.

(** C7: Last accepted wins, and every loss is on record.  In proposal order each
    field of the merged update is the value of the last accepted request that
    sets it (the document after normalisation, dates after parsing), fields
    nobody sets are left out; the discard records name a request, a later request
    and a field exactly when the later one is the next to overwrite that field of
    the earlier; so each value an accepted request asked for either reached the
    contract or is recorded as superseded. *)
Theorem merge_last_accepted_wins (did : string) (doc : option json)
    (accepted : list NegotiationRow) (u : ContractRepo.ContractUpdateData) (recs : list Supersession) :
  merge_accepted Parse_RFC3339 did doc accepted = Ok (u, recs) →
  let ordered := merge_sort NegotiationRepo.row_le accepted in
  ∃ changes,
    ordered ≡ₚ accepted ∧ StronglySorted NegotiationRepo.row_le ordered ∧
    Forall2 (λ n c, decode_request n = Ok c) ordered changes ∧
    folded did changes (ContractRepo.update_of did) u ∧
    (∀ a b f, recorded recs a b f ↔ overwritten_by (claims ordered changes) a b f) ∧
    (∀ a f, (a, f) ∈ claims ordered changes →
       last_claim (claims ordered changes) f a ∨ ∃ b, recorded recs a b f).
Proof.
  intros HR ordered. unfold merge_accepted, mbind, result_bind in HR.
  destruct doc as [raw|]; [|done]. destruct (wrap_err _ _) as [m|]; [|done].
  destruct (fold_requests _ _ _ _ _) as [[u0 d]|] eqn:Ef; [|done].
  injection HR as <- <-. apply fold_requests_spec in Ef as (cs & HF & -> & Hfold).
  exists cs. split; [apply merge_sort_Permutation|].
  split; [apply StronglySorted_merge_sort; apply _|]. split; [done|]. split; [done|]. split.
  - intros a b f. apply claims_recorded.
  - intros a f Hin. destruct (claim_kept_or_recorded _ _ _ Hin) as [|[b Hb]]; [by left|right].
    exists b. by apply claims_recorded.
Qed.
End merge_lemmas.

(** ** Concrete rounds *)
Definition demo_request (id : string) (created_at : Z) (fields : list (string * json)) : NegotiationRow :=
  {| n_id := id; n_did := "did:c1"; n_contract_version := 1;
     n_change_request := Some (JObj (list_to_map fields)); n_created_by := "Org A";
     n_created_at := created_at; n_superseded_by := None |}.

Definition demo_first := demo_request "n1" 10 [("name", JStr "First"); ("description", JStr "D1")].
Definition demo_second := demo_request "n2" 20 [("name", JStr "Second")].

Lemma merge_order_witness :
  merge_accepted (H := lenient_validation) (λ _, Ok 0) "did:c1" (Some (JObj ∅)) [demo_second; demo_first] =
  merge_accepted (H := lenient_validation) (λ _, Ok 0) "did:c1" (Some (JObj ∅)) [demo_first; demo_second].
Proof.
  apply (merge_is_order_independent (H := lenient_validation) (λ _, Ok 0)).
  - apply (bool_decide_unpack _). vm_compute. exact I.
  - apply Permutation_swap.
Defined.

Lemma merge_last_accepted_witness :
  ∃ u recs changes,
    merge_accepted (H := lenient_validation) (λ _, Ok 0) "did:c1" (Some (JObj ∅))
      [demo_first; demo_second] = Ok (u, recs) ∧
    ContractRepo.u_name u = Some "Second" ∧ ContractRepo.u_description u = Some "D1" ∧
    recs = [{| NegotiationID := "n1"; SupersededByID := "n2"; Fields := ["name"] |}] ∧
    folded (H := lenient_validation) (λ _, Ok 0) "did:c1" changes
      (ContractRepo.update_of "did:c1") u.
Proof.
  assert (HR : ∃ u recs, merge_accepted (H := lenient_validation) (λ _, Ok 0) "did:c1"
    (Some (JObj ∅)) [demo_first; demo_second] = Ok (u, recs) ∧
    ContractRepo.u_name u = Some "Second" ∧ ContractRepo.u_description u = Some "D1" ∧
    recs = [{| NegotiationID := "n1"; SupersededByID := "n2"; Fields := ["name"] |}]).
  { eexists _, _. split; [vm_compute; reflexivity|]. split_and!; reflexivity. }
  destruct HR as (u & recs & HR & Hn & Hd & Hr).
  destruct (merge_last_accepted_wins (H := lenient_validation) (λ _, Ok 0) _ _ _ _ _ HR)
    as (changes & _ & _ & _ & Hf & _).
  exists u, recs, changes. split_and!; assumption.
Defined.
