(* ===== verification/Negotiation.v ===== *)
(** Negotiation commands: internal/contractworkflowengine/command/negotiate.go
    (redlines and notes), acceptoffer.go, acceptnegotiation.go,
    rejectnegotiation.go, negotiationdraft.go and review.go.

    Each [Handle] is one transaction; [run] gives the commit or the rollback. *)
From S2P Require Import Prelude Json ContractState Store Repos Document Validation Settlement Merging.

(** [event.Create] with the body's main fields. *)
Definition emit (event_type did : string) (body : list (string * json)) : Tx () :=
  wrap "could not create event"
    (CreateEvent {| o_event_type := event_type; o_did := did; o_body := body |}).

(** create.go [mintNegotiationTask]. *)
Definition mintNegotiationTask (did negotiator createdBy : string) (contractVersion : Z) : Tx () :=
  wrap "could not create negotiation task"
    (NegotiationTaskRepo.Create did contractVersion NTOpen negotiator createdBy).

Definition replace_document (did : string) (doc : option json) : ContractRepo.ContractUpdateData :=
  {| ContractRepo.u_did := did; ContractRepo.u_state := None; ContractRepo.u_name := None;
     ContractRepo.u_description := None; ContractRepo.u_contract_version := 0;
     ContractRepo.u_contract_data := doc; ContractRepo.u_start_date := None;
     ContractRepo.u_exp_date := None; ContractRepo.u_exp_policy := None;
     ContractRepo.u_exp_notice_period := None; ContractRepo.u_responsible := None |}.

Definition replace_version (did : string) (doc : option json) (version : Z) :
    ContractRepo.ContractUpdateData :=
  {| ContractRepo.u_did := did; ContractRepo.u_state := None; ContractRepo.u_name := None;
     ContractRepo.u_description := None; ContractRepo.u_contract_version := version;
     ContractRepo.u_contract_data := doc; ContractRepo.u_start_date := None;
     ContractRepo.u_exp_date := None; ContractRepo.u_exp_policy := None;
     ContractRepo.u_exp_notice_period := None; ContractRepo.u_responsible := None |}.

(** [OFFERED -> NEGOTIATION], checked against the table; nothing in any other
    state (negotiate.go and acceptoffer.go). *)
Definition enter_negotiation (did : string) (currentState : ContractState) : Tx () :=
  if bool_decide (currentState = Offered) then
    _ ← lift (ValidateOutcome currentState EventNegotiate Negotiation);
    wrap "could not persist negotiation state" (ContractRepo.UpdateState did Negotiation)
  else mret ().

(** ** negotiate.go *)
Module Negotiator.

Record NegotiationCmd := {
  DID : string;
  NegotiatedBy : string;
  Request : option json;
  UpdatedAt : Z;
  CauserDID : string
}.

(** The redline of a structured change request; a free-text note has none. *)
Definition redline (request : option json) : option json :=
  match request with
  | None => None
  | Some raw =>
      match Unmarshal_ChangeRequest raw with Ok change => cr_ContractData change | Err _ => None end
  end.

Section handler.
Context `{ContractValidation}.

(** A redline replaces the document and opens the next round. *)
Definition apply_redline (localPeer did : string) (contractVersion : Z) (proposed : json) : Tx Z :=
  _ ← requireUnsettledAgreement localPeer did;
  normalized ← wrap "proposed contract data validation failed"
    (lift (NormalizeContractDataForPersistence (Some proposed) did true));
  stored ← wrap "could not read contract data" (ContractRepo.ReadDataByDID did);
  carried ← wrap "could not carry the pinned Semantic Hub bundle forward"
    (lift (CarrySemanticBundle (c_contract_data stored) (Some normalized)));
  _ ← wrap "could not snapshot the superseded contract version"
    (ContractRepo.CreateHistoryEntryForDID did);
  _ ← wrap "could not apply proposed change to contract data"
    (ContractRepo.Update (replace_version did carried (contractVersion + 1)));
  mret (contractVersion + 1).

(** Who may negotiate: a task holder on an own contract, the counterparty (which
    is engaging with the round now) on an inbound one. *)
Definition admit_negotiator (cmd : NegotiationCmd) (localPeer : string) (processData : Contract) : Tx () :=
  if bool_decide (c_origin processData = localPeer) then
    isValidNegotiator ← wrap "could not validate negotiator"
      (NegotiationTaskRepo.IsValidNegotiator (DID cmd) (CauserDID cmd) (c_contract_version processData));
    refuse (negb isValidNegotiator) (Sentinel ErrNotAParty)
  else mintNegotiationTask (DID cmd) localPeer (NegotiatedBy cmd) (c_contract_version processData).

Definition Handle (cmd : NegotiationCmd) : Tx () :=
  let did := DID cmd in
  processData ← wrap "could not process core data" (ContractRepo.ReadProcessDataByDID did);
  localPeer ← GetID;
  _ ← refuse_stale localPeer (CauserDID cmd) (UpdatedAt cmd) (c_content_updated_at processData);
  _ ← lift (ValidateTransition (c_state processData) EventNegotiate);
  _ ← admit_negotiator cmd localPeer processData;
  negotiators ← wrap "could not read negotiators" (NegotiationTaskRepo.ReadNegotiatorsForDID did);
  _ ← wrap "could not create negotiation"
    (NegotiationRepo.Create did (c_contract_version processData) (Request cmd) (NegotiatedBy cmd) negotiators);
  roundVersion ←
    match redline (Request cmd) with
    | Some proposed => apply_redline localPeer did (c_contract_version processData) proposed
    | None => mret (c_contract_version processData)
    end;
  _ ← wrap "could not reopen negotiation"
    (if negb (bool_decide (roundVersion = c_contract_version processData))
     then NegotiationTaskRepo.RollForward did (c_contract_version processData) roundVersion
     else NegotiationTaskRepo.ReopenTasks did roundVersion);
  _ ← reseedPartiesAndSignatureFields did;
  _ ← enter_negotiation did (c_state processData);
  _ ← wrap "could not clear negotiation draft" (NegotiationRepo.DeleteDraft did (NegotiatedBy cmd));
  emit "NEGOTIATE_CONTRACT" did
    [("contract_version", jint (c_contract_version processData));
     ("negotiated_by", JStr (NegotiatedBy cmd)); ("negotiators", JArr (JStr <$> negotiators))].

End handler.
End Negotiator.

(** ** acceptoffer.go *)
Module OfferAcceptor.

Record AcceptOfferCmd := { DID : string; AcceptedBy : string; UpdatedAt : Z; CauserDID : string }.

Definition Handle (cmd : AcceptOfferCmd) : Tx () :=
  let did := DID cmd in
  processData ← wrap "could not process core data" (ContractRepo.ReadProcessDataByDID did);
  localPeer ← GetID;
  _ ← refuse_stale localPeer (CauserDID cmd) (UpdatedAt cmd) (c_content_updated_at processData);
  _ ← lift (ValidateTransition (c_state processData) EventNegotiate);
  _ ← refuse (bool_decide (c_origin processData = localPeer)) (Sentinel ErrNotAParty);
  _ ← mintNegotiationTask did localPeer (AcceptedBy cmd) (c_contract_version processData);
  _ ← reseedPartiesAndSignatureFields did;
  _ ← enter_negotiation did (c_state processData);
  emit "ACCEPT_OFFER_CONTRACT" did
    [("contract_version", jint (c_contract_version processData)); ("accepted_by", JStr (AcceptedBy cmd))].

End OfferAcceptor.

(** ** acceptnegotiation.go *)
Module NegotiationAcceptor.

Record AcceptNegotiationCmd := { ID : string; DID : string; AcceptedBy : string; CauserDID : string }.

Definition Handle (cmd : AcceptNegotiationCmd) : Tx () :=
  processData ← wrap "could not process core data" (ContractRepo.ReadProcessDataByDID (DID cmd));
  _ ← lift (ValidateTransition (c_state processData) EventAcceptNegotiation);
  isValidNegotiator ← wrap "could not validate negotiator"
    (NegotiationTaskRepo.IsValidNegotiator (DID cmd) (CauserDID cmd) (c_contract_version processData));
  _ ← refuse (negb isValidNegotiator) (Sentinel ErrNotAParty);
  createdBy ← wrap "could not read negotiation author"
    (NegotiationRepo.ReadCreatedByByNegotiationID (ID cmd));
  _ ← refuse (negb (bool_decide (createdBy = EmptyString)) && bool_decide (createdBy = AcceptedBy cmd))
        (Sentinel ErrConflictOfInterest);
  _ ← wrap "could not accept negotiation" (NegotiationRepo.Accept (ID cmd) (CauserDID cmd));
  emit "ACCEPT_RESPOND_CONTRACT" (DID cmd)
    [("contract_version", jint (c_contract_version processData)); ("accepted_by", JStr (AcceptedBy cmd))].

End NegotiationAcceptor.

(** ** rejectnegotiation.go *)
Module NegotiationRejector.

Record RejectNegotiationCmd := {
  ID : string; DID : string; RejectedBy : string; RejectionReason : option string; CauserDID : string
}.

Definition Handle (cmd : RejectNegotiationCmd) : Tx () :=
  processData ← wrap "could not process core data" (ContractRepo.ReadProcessDataByDID (DID cmd));
  _ ← lift (ValidateTransition (c_state processData) EventRejectNegotiation);
  isValidNegotiator ← wrap "could not validate negotiator"
    (NegotiationTaskRepo.IsValidNegotiator (DID cmd) (CauserDID cmd) (c_contract_version processData));
  _ ← refuse (negb isValidNegotiator) (Sentinel ErrNotAParty);
  _ ← wrap "could not reject negotiation"
    (NegotiationRepo.Reject (ID cmd) (CauserDID cmd) (RejectionReason cmd));
  emit "REJECT_RESPOND_CONTRACT" (DID cmd)
    [("contract_version", jint (c_contract_version processData)); ("rejected_by", JStr (RejectedBy cmd))].

End NegotiationRejector.

(** ** negotiationdraft.go *)
Module NegotiationDraft.

Definition negotiationDraftRoles : list string :=
  [ContractCreator; SystemContractCreator; ContractNegotiator; ContractReviewer;
   "Sys. Contract Reviewer"; ContractManager].

Record SaveNegotiationDraftCmd := {
  DID : string; SavedBy : string; Request : option json; UserRoles : list string
}.

Definition SaveHandle (cmd : SaveNegotiationDraftCmd) : Tx () :=
  _ ← refuse (negb (HasRoles (UserRoles cmd) negotiationDraftRoles)) (Errorf "invalid user permission");
  processData ← wrap "could not read process data" (ContractRepo.ReadProcessDataByDID (DID cmd));
  _ ← refuse (negb (EventAllowed (c_state processData) EventNegotiate))
        (Wrapf "a negotiation draft can only be saved while the contract is negotiable"
           (Sentinel ErrInvalidTransition));
  wrap "could not save negotiation draft" (NegotiationRepo.UpsertDraft (DID cmd) (SavedBy cmd) (Request cmd)).

Definition DeleteHandle (did savedBy : string) (userRoles : list string) : Tx () :=
  _ ← refuse (negb (HasRoles userRoles negotiationDraftRoles)) (Errorf "invalid user permission");
  wrap "could not delete negotiation draft" (NegotiationRepo.DeleteDraft did savedBy).

End NegotiationDraft.

(** ** review.go: an audit-trail write only *)
Definition Reviewer_Handle (did reviewedBy : string) : Tx () :=
  emit "REVIEW_CONTRACT" did [("reviewed_by", JStr reviewedBy)].

(** ** Lemmas *)
#[export] Hint Extern 1 (keeps _ (mintNegotiationTask _ _ _ _)) => apply keeps_wrap : tx.
#[export] Hint Extern 1 (keeps _ (emit _ _ _)) => apply keeps_wrap : tx.

Lemma keeps_enter_negotiation {B} (f : Store → B) did st :
  keeps f (ContractRepo.UpdateState did Negotiation) → keeps f (enter_negotiation did st).
Proof. intros Hf. unfold enter_negotiation. keeps_tac. Qed.
#[export] Hint Extern 1 (keeps _ (enter_negotiation _ _)) => apply keeps_enter_negotiation : tx.

Lemma emit_Ok ty did body e s u s' :
  emit ty did body e s = Ok (u, s') →
  s' = set_outbox (λ l, l ++ [{| o_event_type := ty; o_did := did; o_body := body |}]) s.
Proof. unfold emit. intros HR%wrap_Ok. by apply CreateEvent_Ok in HR as [-> _]. Qed.

Lemma accept_keeps_contracts cmd : keeps contracts (NegotiationAcceptor.Handle cmd).
Proof. unfold NegotiationAcceptor.Handle. keeps_tac. Qed.
Lemma offer_keeps_version cmd : keeps (column c_contract_version) (OfferAcceptor.Handle cmd).
Proof. unfold OfferAcceptor.Handle. keeps_tac. Qed.
Lemma negotiate_keeps_origin `{ContractValidation} cmd : keeps (column c_origin) (Negotiator.Handle cmd).
Proof. unfold Negotiator.Handle, Negotiator.admit_negotiator, Negotiator.apply_redline, replace_version. keeps_tac. Qed.

Lemma enter_negotiation_moves did e s s1 s2 row u :
  contracts s !! did = Some row → column c_state s1 = column c_state s →
  enter_negotiation did (effective_state (env_now e) row) e s1 = Ok (u, s2) →
  state_moves did EventNegotiate s s2.
Proof.
  intros Hrow E HR. unfold enter_negotiation in HR. case_bool_decide as Hoff.
  - run_inv. eapply state_moves_update; eauto. rewrite Hoff in *. right.
    apply (effective_edge (env_now e)). rewrite Hoff. apply edge_b_iff. reflexivity.
  - run_inv. by eapply state_stays.
Qed.

#[export] Hint Extern 3 (keeps _ (Negotiator.admit_negotiator _ _ _)) =>
  solve [unfold Negotiator.admit_negotiator; keeps_tac] : tx.
#[export] Hint Extern 3 (keeps _ (Negotiator.apply_redline _ _ _ _)) =>
  solve [unfold Negotiator.apply_redline, replace_version; keeps_tac] : tx.

Lemma negotiate_moves `{ContractValidation} cmd e s u s' :
  Negotiator.Handle cmd e s = Ok (u, s') → state_moves (Negotiator.DID cmd) EventNegotiate s s'.
Proof.
  intros HR. unfold Negotiator.Handle in HR. run_inv. moves_by enter_negotiation_moves.
Qed.

Lemma accept_offer_moves cmd e s u s' :
  OfferAcceptor.Handle cmd e s = Ok (u, s') → state_moves (OfferAcceptor.DID cmd) EventNegotiate s s'.
Proof.
  intros HR. unfold OfferAcceptor.Handle in HR. run_inv. moves_by enter_negotiation_moves.
Qed.

Lemma accept_negotiation_keeps_contracts cmd e s u s' :
  NegotiationAcceptor.Handle cmd e s = Ok (u, s') → contracts s' = contracts s.
Proof. apply accept_keeps_contracts. Qed.
