(* ===== verification/Submit.v ===== *)
(** The submit command: internal/contractworkflowengine/command/submit.go.

    Submit is overloaded by state; each branch of [Handle] is a definition that
    returns the next state it asks for, [None] when it leaves it unset. *)
From S2P Require Import Prelude Json ContractState Store Repos Document Validation Settlement Merging Negotiation.

Record SubmitCmd := {
  DID : string;
  UpdatedAt : Z;
  SubmittedBy : string;
  ActionFlag : option string;
  ContractData : option json;
  UserRoles : list string;
  CauserDID : string
}.

Definition Approval : string := "APPROVAL".
Definition Reject : string := "REJECT".

Definition canSubmitUpdatedContractData (state : ContractState) : bool :=
  bool_decide (state = Draft) || bool_decide (state = Rejected).

Section submit.
Context `{ContractValidation} (Parse_RFC3339 : string → result Z).

Definition contractDataForSemanticValidation (cmd : SubmitCmd) : Tx (option json) :=
  if IsNotNullValue (ContractData cmd) then
    normalized ← wrap "contract data validation failed"
      (lift (NormalizeContractDataForPersistence (ContractData cmd) (DID cmd) false));
    stored ← wrap "could not read contract data" (ContractRepo.ReadDataByDID (DID cmd));
    carried ← wrap "could not carry the pinned Semantic Hub bundle forward"
      (lift (CarrySemanticBundle (c_contract_data stored) (Some normalized)));
    _ ← wrap "could not update submitted contract data"
      (ContractRepo.Update (replace_document (DID cmd) carried));
    mret carried
  else
    contractData ← wrap "could not read contract data" (ContractRepo.ReadDataByDID (DID cmd));
    mret (c_contract_data contractData).

(** The checks the DRAFT/OFFERED and the REJECTED branch share. *)
Definition admit_draft (cmd : SubmitCmd) (localPeer : string) (processData : Contract) : Tx () :=
  _ ← refuse (negb (HasRoles (UserRoles cmd) [ContractCreator])) (Errorf "invalid user permission");
  _ ← refuse (bool_decide (CauserDID cmd = localPeer)
              && negb (bool_decide (SubmittedBy cmd = c_created_by processData)))
        (Errorf "invalid participant");
  contractData ← contractDataForSemanticValidation cmd;
  _ ← wrap "contract semantic validation failed" (lift (ValidateContractSemantics contractData));
  wrap "contract submission blocked" (lift (RequireHubConformance contractData)).

Definition submit_draft_or_offered (cmd : SubmitCmd) (localPeer : string) (processData : Contract) :
    Tx (option ContractState) :=
  _ ← admit_draft cmd localPeer processData;
  _ ← reseedPartiesAndSignatureFields (DID cmd);
  mret (Some Negotiation).

(** An error of one of the three statements is replaced by a plain message. *)
Definition or_error {A} (m : Tx A) (msg : string) : Tx A := λ e s,
  match m e s with Ok r => Ok r | Err _ => Err (Errorf msg) end.

Definition submit_rejected (cmd : SubmitCmd) (localPeer : string) (processData : Contract) :
    Tx (option ContractState) :=
  _ ← admit_draft cmd localPeer processData;
  _ ← or_error (ReviewTaskRepo.ReopenTasks (DID cmd)) "could not reopen review tasks";
  _ ← or_error (NegotiationTaskRepo.ReopenTasks (DID cmd) (c_contract_version processData))
        "could not reopen negotiation tasks";
  _ ← or_error (ApprovalTaskRepo.ReopenTasks (DID cmd)) "could not reopen approval tasks";
  mret (Some Negotiation).

(** Fold the accepted change requests of the round into the next version. *)
Definition merge_round (cmd : SubmitCmd) (localPeer : string) (processData : Contract) : Tx () :=
  let did := DID cmd in
  let version := c_contract_version processData in
  _ ← wrap "could not create history entry" (ContractRepo.CreateHistoryEntryForDID (c_did processData));
  '(updatedData, superseded) ← wrap "could not merge change requests"
    (MergeChangeRequests Parse_RFC3339 did version);
  _ ← when (bool_decide (ContractRepo.u_contract_data updatedData ≠ None))
        (requireUnsettledAgreement localPeer did);
  _ ← wrap "could not update contract version"
    (ContractRepo.Update
      {| ContractRepo.u_did := ContractRepo.u_did updatedData;
         ContractRepo.u_state := ContractRepo.u_state updatedData;
         ContractRepo.u_name := ContractRepo.u_name updatedData;
         ContractRepo.u_description := ContractRepo.u_description updatedData;
         ContractRepo.u_contract_version := version + 1;
         ContractRepo.u_contract_data := ContractRepo.u_contract_data updatedData;
         ContractRepo.u_start_date := ContractRepo.u_start_date updatedData;
         ContractRepo.u_exp_date := ContractRepo.u_exp_date updatedData;
         ContractRepo.u_exp_policy := ContractRepo.u_exp_policy updatedData;
         ContractRepo.u_exp_notice_period := ContractRepo.u_exp_notice_period updatedData;
         ContractRepo.u_responsible := ContractRepo.u_responsible updatedData |});
  _ ← wrap "could not carry negotiation tasks to the new contract version"
    (NegotiationTaskRepo.RollForward (c_did processData) version (version + 1));
  _ ← when (bool_decide (ContractRepo.u_contract_data updatedData ≠ None))
        (reseedPartiesAndSignatureFields did);
  _ ← when (negb (bool_decide (superseded = [])))
        (_ ← wrap "could not record superseded change requests"
               (NegotiationRepo.MarkSuperseded superseded);
         emit "NEGOTIATION_CHANGE_SUPERSEDED" did
           [("contract_version", jint version); ("merged_version", jint (version + 1));
            ("superseded", JArr (JStr ∘ NegotiationID <$> superseded))]);
  emit "INCREASE_CONTRACT_VERSION" did
    [("old_contract_version", jint version); ("new_contract_version", jint (version + 1));
     ("submitted_by", JStr (SubmittedBy cmd))].

Definition submit_negotiation (cmd : SubmitCmd) (localPeer : string) (processData : Contract) :
    Tx (option ContractState) :=
  let version := c_contract_version processData in
  _ ← refuse (negb (HasRoles (UserRoles cmd) [ContractCreator; ContractNegotiator; ContractReviewer]))
        (Errorf "invalid user permission");
  isValidNegotiator ← wrap "could not validate negotiator"
    (NegotiationTaskRepo.IsValidNegotiator (DID cmd) (CauserDID cmd) version);
  _ ← refuse (negb isValidNegotiator) (Sentinel ErrNegotiationNotSettled);
  hasOpenNegotiations ← wrap "could not check open negotiations"
    (NegotiationRepo.HasOpenNegotiationDecisions (DID cmd) version (CauserDID cmd) (SubmittedBy cmd));
  _ ← refuse hasOpenNegotiations (Errorf "not all negotiations are processed");
  _ ← wrap "could not update negotiation task"
    (NegotiationTaskRepo.UpdateState (c_did processData) (CauserDID cmd) version NTAccepted);
  existOpenTasks ← wrap "could not check if review task exists"
    (NegotiationTaskRepo.AnyTasksInState (c_did processData) version [NTOpen]);
  if (existOpenTasks : bool) then mret None else
  hasNegotiations ← wrap "could not check if negotiation exists"
    (NegotiationRepo.HasNegotiationForContractVersion (DID cmd) version);
  if (hasNegotiations : bool) then _ ← merge_round cmd localPeer processData; mret None
  else mret (Some Submitted).

Definition submit_submitted (cmd : SubmitCmd) (localPeer : string) (processData : Contract) :
    Tx (option ContractState) :=
  _ ← refuse (negb (HasRoles (UserRoles cmd) [ContractReviewer])) (Errorf "invalid user permission");
  isValid ← ReviewTaskRepo.IsValidReviewer (c_did processData) (CauserDID cmd);
  _ ← refuse (negb isValid) (Errorf "invalid user");
  match ActionFlag cmd with
  | None => throw (Errorf "action flags is missing")
  | Some flag =>
      if bool_decide (flag = Approval) then
        _ ← wrap "could not update approval task"
          (ReviewTaskRepo.UpdateState (c_did processData) (CauserDID cmd) TaskApproved);
        existOpenTasks ← wrap "could not check if review task exists"
          (ReviewTaskRepo.AnyTasksInState (c_did processData) [TaskOpen]);
        mret (if existOpenTasks : bool then None else Some Reviewed)
      else if bool_decide (flag = Reject) then
        _ ← ReviewTaskRepo.ReopenTasks (DID cmd);
        _ ← NegotiationTaskRepo.ReopenTasks (DID cmd) (c_contract_version processData);
        _ ← ApprovalTaskRepo.ReopenTasks (DID cmd);
        _ ← withdrawOwnSettlement localPeer (DID cmd);
        mret (Some Negotiation)
      else mret None
  end.

Definition submit_reviewed (cmd : SubmitCmd) (processData : Contract) : Tx (option ContractState) :=
  _ ← refuse (negb (HasRoles (UserRoles cmd) [ContractApprover])) (Errorf "invalid user permission");
  isValid ← ApprovalTaskRepo.IsValidApprover (c_did processData) (CauserDID cmd);
  _ ← refuse (negb isValid) (Errorf "invalid user");
  _ ← ReviewTaskRepo.ReopenTasks (DID cmd);
  _ ← ApprovalTaskRepo.ReopenTasks (DID cmd);
  mret (Some Submitted).

Definition submit_branch (cmd : SubmitCmd) (localPeer : string) (processData : Contract) :
    Tx (option ContractState) :=
  match c_state processData with
  | Draft | Offered => submit_draft_or_offered cmd localPeer processData
  | Rejected => submit_rejected cmd localPeer processData
  | Negotiation => submit_negotiation cmd localPeer processData
  | Submitted => submit_submitted cmd localPeer processData
  | Reviewed => submit_reviewed cmd processData
  | _ => throw (Wrapf "submit is not allowed from state" (Sentinel ErrInvalidTransition))
  end.

(** The outcome check and the write of the next state, when one is set. *)
Definition write_next_state (did : string) (currentState : ContractState)
    (nextState : option ContractState) : Tx () :=
  match nextState with
  | Some next =>
      when (negb (bool_decide (currentState = next)))
        (_ ← lift (ValidateOutcome currentState EventSubmit next);
         wrap "could not update contract state" (ContractRepo.UpdateState did next))
  | None => mret ()
  end.

Definition Handle (cmd : SubmitCmd) : Tx () :=
  processData ← wrap "could not read process data" (ContractRepo.ReadProcessDataByDID (DID cmd));
  localPeer ← GetID;
  _ ← refuse_stale localPeer (CauserDID cmd) (UpdatedAt cmd) (c_updated_at processData);
  _ ← when (IsNotNullValue (ContractData cmd))
        (_ ← refuse (negb (canSubmitUpdatedContractData (c_state processData)))
               (Errorf "contract data can only be submitted in draft or rejected state");
         requireUnsettledAgreement localPeer (DID cmd));
  _ ← lift (ValidateTransition (c_state processData) EventSubmit);
  nextState ← submit_branch cmd localPeer processData;
  _ ← write_next_state (DID cmd) (c_state processData) nextState;
  emit "SUBMIT_CONTRACT" (DID cmd)
    [("contract_version", jint (c_contract_version processData));
     ("submitted_by", JStr (SubmittedBy cmd));
     ("previous_state", JStr (state_String (c_state processData)));
     ("new_state", JStr (match nextState with Some st => state_String st | None => EmptyString end))].

End submit.

(** ** Lemmas *)
Lemma keeps_or_error {B A} (f : Store → B) (m : Tx A) msg : keeps f m → keeps f (or_error m msg).
Proof. intros Hm e s a s' HR. unfold or_error in HR. destruct (m e s) eqn:E; [|done]. simplify_eq. by eapply Hm. Qed.
#[export] Hint Resolve keeps_or_error : tx.

Lemma or_error_Ok {A} (m : Tx A) msg e s a s' : or_error m msg e s = Ok (a, s') → m e s = Ok (a, s').
Proof. unfold or_error. by destruct (m e s). Qed.

Section submit_lemmas.
Context `{ContractValidation} (Parse_RFC3339 : string → result Z).

Lemma keeps_state_admit_draft cmd p c : keeps (column c_state) (admit_draft cmd p c).
Proof. unfold admit_draft, contractDataForSemanticValidation, replace_document. keeps_tac. Qed.

Lemma MergeChangeRequests_Ok did v e s u recs s' :
  MergeChangeRequests Parse_RFC3339 did v e s = Ok ((u, recs), s') →
  s' = s ∧ ∃ row rows, contracts s !! did = Some row ∧
    NegotiationRepo.ReadAllAcceptedByContractDIDAndVersion did v e s = Ok (rows, s) ∧
    merge_accepted Parse_RFC3339 (c_did row) (c_contract_data row) rows = Ok (u, recs).
Proof.
  unfold MergeChangeRequests. intros HR. run_inv. split; [done|]. eexists _, _. split_and!; eauto.
Qed.

(** A merge names neither a state nor responsible parties. *)
Lemma merge_accepted_columns did doc rows u recs :
  merge_accepted Parse_RFC3339 did doc rows = Ok (u, recs) →
  ContractRepo.u_did u = did ∧ ContractRepo.u_state u = None ∧ ContractRepo.u_responsible u = None.
Proof.
  unfold merge_accepted, mbind, result_bind. intros HR. destruct doc as [raw|]; [|done].
  destruct (wrap_err _ _) as [m|]; [|done].
  destruct (fold_requests _ _ _ _ _) as [[u0 d]|] eqn:Ef; [|done].
  injection HR as <- <-. apply fold_requests_spec in Ef as (cs & _ & _ & Hf).
  destruct (folded_rest _ _ _ _ _ Hf) as (H1 & H2 & _ & H4). done.
Qed.

Lemma keeps_state_merge_round cmd p c : keeps (column c_state) (merge_round Parse_RFC3339 cmd p c).
Proof.
  intros e s a s' HR. unfold merge_round in HR. apply bind_Ok in HR as (? & s1 & H1 & HR).
  apply bind_Ok in HR as ([u recs] & s2 & H2%wrap_Ok & HR).
  apply MergeChangeRequests_Ok in H2 as (-> & row & rows & _ & _ & HM).
  apply merge_accepted_columns in HM as (Hd & Hst & Hre).
  revert HR. simpl. intros HR. apply wrap_Ok in H1.
  assert (K : keeps (column c_state) (ContractRepo.CreateHistoryEntryForDID (c_did c))) by keeps_tac.
  rewrite <-(K _ _ _ _ H1). clear H1 K. revert HR. rewrite Hst.
  match goal with |- ?m e s1 = _ → _ => intros HR; assert (K : keeps (column c_state) m); [|by apply (K _ _ _ _ HR)] end.
  keeps_tac.
Qed.

Lemma keeps_state_submit_branch cmd p c : keeps (column c_state) (submit_branch Parse_RFC3339 cmd p c).
Proof.
  pose proof keeps_state_admit_draft. pose proof keeps_state_merge_round.
  unfold submit_branch, submit_draft_or_offered, submit_rejected, submit_negotiation, submit_submitted,
    submit_reviewed. keeps_tac.
Qed.

Lemma write_next_state_moves did e s s1 s2 row next u :
  contracts s !! did = Some row → column c_state s1 = column c_state s →
  write_next_state did (effective_state (env_now e) row) next e s1 = Ok (u, s2) →
  state_moves did EventSubmit s s2.
Proof.
  intros Hrow E HR. unfold write_next_state in HR.
  destruct next as [next|]; [|run_inv; by eapply state_stays].
  unfold when in HR. case_bool_decide as Hne; simpl in HR; [run_inv; by eapply state_stays|].
  run_inv. eapply state_moves_update; eauto. right. apply (effective_edge (env_now e)).
  match goal with HV : ValidateOutcome _ _ _ = Ok _ |- _ => apply ValidateOutcome_Ok in HV end.
  by destruct_or?.
Qed.

Lemma submit_moves cmd e s u s' :
  Handle Parse_RFC3339 cmd e s = Ok (u, s') → state_moves (DID cmd) EventSubmit s s'.
Proof.
  pose proof keeps_state_submit_branch as HK.
  intros HR. unfold Handle in HR. run_inv. moves_by write_next_state_moves.
Qed.

End submit_lemmas.
