(* ===== verification/Decision.v ===== *)
(** Offer, withdrawal, approval, rejection, termination and evidence:
    internal/contractworkflowengine/command/offer.go, withdraw.go, approve.go,
    reject.go, terminate.go and recordevidence.go. *)
From S2P Require Import Prelude Json ContractState Store Repos Document Validation Settlement Negotiation.

(** ** offer.go *)
Module Offerer.

Record OfferCmd := {
  DID : string; UpdatedAt : Z; OfferedBy : string; UserRoles : list string; CauserDID : string
}.

Section handler.
Context `{ContractValidation}.

Definition validateOfferReady (contractData : option json) : result () :=
  match contractData with
  | None => Err (Wrapf "contract has no contract data" (Sentinel ErrContractNotClosed))
  | Some _ =>
      _ ← wrap_err "contract semantic validation failed" (ValidateContractSemantics contractData);
      _ ← ValidateContractClosed contractData;
      wrap_err "contract offer blocked" (RequireHubConformance contractData)
  end.

Definition Handle (cmd : OfferCmd) : Tx () :=
  processData ← wrap "could not read process data" (ContractRepo.ReadProcessDataByDID (DID cmd));
  localPeer ← GetID;
  _ ← refuse_stale localPeer (CauserDID cmd) (UpdatedAt cmd) (c_updated_at processData);
  _ ← refuse (negb (HasRoles (UserRoles cmd) [ContractCreator; SystemContractCreator]))
        (Errorf "invalid user permission");
  _ ← refuse (bool_decide (CauserDID cmd = localPeer)
              && negb (bool_decide (OfferedBy cmd = c_created_by processData)))
        (Errorf "invalid participant");
  _ ← lift (ValidateTransition (c_state processData) EventOffer);
  contract ← wrap "could not read contract data" (ContractRepo.ReadDataByDID (DID cmd));
  _ ← lift (validateOfferReady (c_contract_data contract));
  _ ← wrap "could not update contract state" (ContractRepo.UpdateState (DID cmd) Offered);
  emit "OFFER_CONTRACT" (DID cmd)
    [("contract_version", jint (c_contract_version processData)); ("offered_by", JStr (OfferedBy cmd))].

End handler.
End Offerer.

(** ** withdraw.go *)
Module Withdrawer.

Record WithdrawCmd := {
  DID : string; UpdatedAt : Z; WithdrawnBy : string; UserRoles : list string; CauserDID : string
}.

Definition Handle (cmd : WithdrawCmd) : Tx () :=
  processData ← wrap "could not read process data" (ContractRepo.ReadProcessDataByDID (DID cmd));
  localPeer ← GetID;
  _ ← refuse_stale localPeer (CauserDID cmd) (UpdatedAt cmd) (c_updated_at processData);
  _ ← refuse (negb (HasRoles (UserRoles cmd) [ContractCreator; SystemContractCreator]))
        (Errorf "invalid user permission");
  _ ← refuse (bool_decide (CauserDID cmd = localPeer)
              && negb (bool_decide (WithdrawnBy cmd = c_created_by processData)))
        (Errorf "invalid participant");
  _ ← lift (ValidateTransition (c_state processData) EventWithdraw);
  _ ← wrap "could not update contract state" (ContractRepo.UpdateState (DID cmd) Withdrawn);
  emit "WITHDRAW_CONTRACT" (DID cmd)
    [("contract_version", jint (c_contract_version processData));
     ("withdrawn_by", JStr (WithdrawnBy cmd))].

End Withdrawer.

(** ** terminate.go *)
Module Terminator.

Record TerminateCmd := {
  DID : string; TerminatedBy : string; Reason : string; UpdatedAt : Z; CauserDID : string
}.

Definition Handle (cmd : TerminateCmd) : Tx () :=
  processData ← wrap "could not read process data" (ContractRepo.ReadProcessDataByDID (DID cmd));
  localPeer ← GetID;
  _ ← refuse_stale localPeer (CauserDID cmd) (UpdatedAt cmd) (c_updated_at processData);
  _ ← lift (ValidateTransition (c_state processData) EventTerminate);
  _ ← wrap "could not update contract state" (ContractRepo.UpdateState (DID cmd) Terminated);
  occurredAt ← now;
  _ ← emit "TERMINATE_CONTRACT" (DID cmd)
    [("contract_version", jint (c_contract_version processData));
     ("terminated_by", JStr (TerminatedBy cmd)); ("reason", JStr (Reason cmd))];
  EnqueueTx (DID cmd) (state_String Terminated) (Reason cmd) occurredAt.

End Terminator.

(** ** approve.go *)
Module Approver.

Record ApproveCmd := { DID : string; UpdatedAt : Z; ApprovedBy : string; CauserDID : string }.

Section handler.
Context `{ContractValidation}.

(** The last approval: the state, then the document materialised as JSON-LD. *)
Definition complete_approval (did : string) : Tx () :=
  _ ← wrap "could not update current template state" (ContractRepo.UpdateState did Approved);
  approvedContract ← wrap "could not read approved contract for archive storage"
    (ContractRepo.ReadDataByDID did);
  finalContractJSON ← wrap "could not materialize approved contract JSON-LD"
    (lift (BuildContractJSONLD approvedContract));
  wrap "could not persist approved contract JSON-LD"
    (ContractRepo.Update (replace_document did (Some finalContractJSON))).

Definition Handle (cmd : ApproveCmd) : Tx () :=
  processData ← wrap "could not read process data" (ContractRepo.ReadProcessDataByDID (DID cmd));
  localPeer ← GetID;
  _ ← refuse_stale localPeer (CauserDID cmd) (UpdatedAt cmd) (c_updated_at processData);
  _ ← lift (ValidateTransition (c_state processData) EventApprove);
  valid ← ApprovalTaskRepo.IsValidApprover (DID cmd) (CauserDID cmd);
  _ ← refuse (negb valid) (Errorf "invalid user");
  contract ← wrap "could not read contract for policy validation" (ContractRepo.ReadDataByDID (DID cmd));
  _ ← refuse (bool_decide (c_contract_data contract = None))
        (Errorf "contract has no contract data for policy validation");
  _ ← lift (ValidateContractPolicySatisfaction (c_contract_data contract) (DID cmd));
  _ ← lift (ValidateContractClosed (c_contract_data contract));
  _ ← wrap "could not update approval task state"
    (ApprovalTaskRepo.UpdateState (DID cmd) (CauserDID cmd) TaskApproved);
  existOpenTasks ← wrap "could not check if review task exists"
    (ApprovalTaskRepo.AnyTasksInState (c_did processData) [TaskOpen]);
  _ ← when (negb existOpenTasks) (complete_approval (DID cmd));
  emit "APPROVE_CONTRACT" (DID cmd)
    [("contract_version", jint (c_contract_version processData)); ("approved_by", JStr (ApprovedBy cmd))].

End handler.
End Approver.

(** ** reject.go *)
Module Rejecter.

Record RejectCmd := {
  DID : string; UpdatedAt : Z; RejectedBy : string; Reason : string; CauserDID : string
}.

Definition Handle (cmd : RejectCmd) : Tx () :=
  processData ← wrap "could not read process data" (ContractRepo.ReadProcessDataByDID (DID cmd));
  localPeer ← GetID;
  _ ← refuse_stale localPeer (CauserDID cmd) (UpdatedAt cmd) (c_updated_at processData);
  _ ← lift (ValidateTransition (c_state processData) EventReject);
  exist ← ApprovalTaskRepo.IsValidApprover (DID cmd) (CauserDID cmd);
  _ ← refuse (negb exist) (Errorf "invalid user");
  _ ← wrap "could not update approval task state"
    (ApprovalTaskRepo.UpdateState (DID cmd) (CauserDID cmd) TaskRejected);
  _ ← withdrawOwnSettlement localPeer (DID cmd);
  _ ← wrap "could not update current state" (ContractRepo.UpdateState (DID cmd) Rejected);
  emit "REJECT_CONTRACT" (DID cmd)
    [("contract_version", jint (c_contract_version processData));
     ("rejected_by", JStr (RejectedBy cmd)); ("reason", JStr (Reason cmd))].

End Rejecter.

(** ** recordevidence.go *)
Module EvidenceRecorder.

Record RecordEvidenceCmd := { DID : string; RecordedBy : string; UpdatedAt : Z; CauserDID : string }.

Definition Handle (cmd : RecordEvidenceCmd) : Tx () :=
  processData ← wrap "could not read process data" (ContractRepo.ReadProcessDataByDID (DID cmd));
  localPeer ← GetID;
  _ ← refuse_stale localPeer (CauserDID cmd) (UpdatedAt cmd) (c_updated_at processData);
  _ ← refuse (bool_decide (c_state processData = Terminated)) (Errorf "current contract state is invalid");
  emit "RECORD_EVIDENCE" (DID cmd)
    [("contract_version", jint (c_contract_version processData)); ("recorded_by", JStr (RecordedBy cmd))].

End EvidenceRecorder.

(** ** Lemmas *)

(** A handler that validated [evt] and always moves to [st], an edge from wherever
    the table allows the event. *)
Lemma unconditional_edge evt st from u :
  (∀ st' outcomes, Transitions st' evt = Some outcomes → st ∈ outcomes) →
  ValidateTransition from evt = Ok u → Edge from evt st.
Proof. intros Hall [o Ho]%ValidateTransition_Ok. by econstructor; eauto. Qed.

Lemma offer_edge st' o : Transitions st' EventOffer = Some o → Offered ∈ o.
Proof. by destruct st'; intros [= <-]; left. Qed.
Lemma withdraw_edge st' o : Transitions st' EventWithdraw = Some o → Withdrawn ∈ o.
Proof. by destruct st'; intros [= <-]; left. Qed.
Lemma terminate_edge st' o : Transitions st' EventTerminate = Some o → Terminated ∈ o.
Proof. by destruct st'; intros [= <-]; left. Qed.
Lemma approve_edge st' o : Transitions st' EventApprove = Some o → Approved ∈ o.
Proof. by destruct st'; intros [= <-]; left. Qed.
Lemma reject_edge st' o : Transitions st' EventReject = Some o → Rejected ∈ o.
Proof. by destruct st'; intros [= <-]; left. Qed.

(** Framed [UpdateState did st] after [ValidateTransition]: the state moves along
    the edge. *)
Ltac unconditional_move edge_lemma :=
  run_inv; frame (column c_state);
  match goal with
  | HU : ContractRepo.UpdateState _ ?st ?e ?s1 = Ok (_, ?s2), Hrow : contracts ?s !! _ = Some _,
    HV : ValidateTransition _ ?evt = Ok _ |- _ =>
      eapply (state_moves_update _ evt e s s1 s2) in HU; [|exact Hrow| |];
        [eapply state_moves_frame; [|exact HU]; framed; reflexivity
        |framed; reflexivity
        |right; apply (effective_edge (env_now e)); eapply unconditional_edge; [exact edge_lemma|exact HV]]
  end.

Lemma offer_moves `{ContractValidation} cmd e s u s' :
  Offerer.Handle cmd e s = Ok (u, s') → state_moves (Offerer.DID cmd) EventOffer s s'.
Proof. intros HR. unfold Offerer.Handle in HR. unconditional_move offer_edge. Qed.

Lemma withdraw_moves cmd e s u s' :
  Withdrawer.Handle cmd e s = Ok (u, s') → state_moves (Withdrawer.DID cmd) EventWithdraw s s'.
Proof. intros HR. unfold Withdrawer.Handle in HR. unconditional_move withdraw_edge. Qed.

Lemma terminate_moves cmd e s u s' :
  Terminator.Handle cmd e s = Ok (u, s') → state_moves (Terminator.DID cmd) EventTerminate s s'.
Proof. intros HR. unfold Terminator.Handle in HR. unconditional_move terminate_edge. Qed.

Lemma reject_moves cmd e s u s' :
  Rejecter.Handle cmd e s = Ok (u, s') → state_moves (Rejecter.DID cmd) EventReject s s'.
Proof. intros HR. unfold Rejecter.Handle in HR. unconditional_move reject_edge. Qed.

Lemma complete_approval_moves `{ContractValidation} did e s s1 s2 row u :
  contracts s !! did = Some row → column c_state s1 = column c_state s →
  Edge (c_state row) EventApprove Approved →
  Approver.complete_approval did e s1 = Ok (u, s2) → state_moves did EventApprove s s2.
Proof.
  intros Hrow E Hedge HR. unfold Approver.complete_approval, replace_document in HR. run_inv.
  frame (column c_state).
  match goal with HU : ContractRepo.UpdateState _ _ ?e ?s1 = Ok (_, ?s2) |- _ =>
    apply (state_moves_update did EventApprove e s s1 s2 row) in HU; [|assumption..|by right];
    eapply state_moves_frame; [|exact HU]; framed; reflexivity end.
Qed.

Lemma approve_moves `{ContractValidation} cmd e s u s' :
  Approver.Handle cmd e s = Ok (u, s') → state_moves (Approver.DID cmd) EventApprove s s'.
Proof.
  intros HR. unfold Approver.Handle in HR. run_inv.
  match goal with HV : ValidateTransition _ _ = Ok _ |- _ =>
    pose proof (unconditional_edge _ _ _ _ approve_edge HV) as Hedge; apply effective_edge in Hedge end.
  frame (column c_state). unfold when in *.
  match goal with H : (if negb ?b then _ else _) _ _ = _ |- _ =>
    destruct b; simpl in H; [run_inv|rename H into HC] end.
  2: match goal with Hrow : contracts _ !! _ = Some _ |- _ =>
       eapply complete_approval_moves in HC; [|exact Hrow| |exact Hedge];
         [eapply state_moves_frame; [|exact HC]; by framed | by framed] end.
  eapply state_stays; [eassumption|]. by framed.
Qed.

Lemma record_evidence_keeps_contracts cmd e s u s' :
  EvidenceRecorder.Handle cmd e s = Ok (u, s') → contracts s' = contracts s.
Proof. revert e s u s'. change (keeps contracts (EvidenceRecorder.Handle cmd)). unfold EvidenceRecorder.Handle. keeps_tac. Qed.
