(* ===== verification/Gates.v ===== *)
(** The gates of the contract workflow: what must hold for a command of submit.go,
    approve.go, acceptnegotiation.go, rejectnegotiation.go and negotiate.go to
    succeed, and what it then leaves in the tables. *)
From S2P Require Import Prelude Json ContractState Store Repos Document Validation Settlement Merging Negotiation Submit Decision.

Lemma effective_cases now c : effective_state now c = c_state c ∨ effective_state now c = Expired.
Proof. unfold effective_state. destruct (c_exp_date c); [|by left]. destruct (_ && _); auto. Qed.

(** ** Submitting a negotiation round *)

(** Somebody else of the round still owes a decision on it. *)
Definition others_open (s : Store) (did caller : string) (version : Z) : bool :=
  exists_where (λ t, NegotiationTaskRepo.of_round did version t
                     && negb (bool_decide (nt_negotiator t = caller))
                     && bool_decide (nt_state t = NTOpen)) (negotiation_tasks s).

(** The round recorded a change request. *)
Definition has_changes (s : Store) (did : string) (version : Z) : bool :=
  exists_where (λ n,
    NegotiationRepo.of_version did version n
    && exists_where (λ d, bool_decide (d_negotiation_id d = n_id n)) (decisions s)) (negotiations s).

Lemma exists_where_map {A} (p : A → bool) (f : A → A) l :
  exists_where p (map f l) = exists_where (λ x, p (f x)) l.
Proof. induction l as [|x l IH]; [done|]. simpl in *. by rewrite IH. Qed.

Lemma exists_where_ext {A} (p q : A → bool) l : (∀ x, p x = q x) → exists_where p l = exists_where q l.
Proof. intros Hpq. induction l as [|x l IH]; [done|]. simpl. by rewrite Hpq, IH. Qed.

(** Once the caller accepted, the tasks left open are those of the others. *)
Lemma open_after_accept s did caller v e u s1 b s2 :
  NegotiationTaskRepo.UpdateState did caller v NTAccepted e s = Ok (u, s1) →
  NegotiationTaskRepo.AnyTasksInState did v [NTOpen] e s1 = Ok (b, s2) →
  b = others_open s did caller v ∧ s2 = s1.
Proof.
  unfold NegotiationTaskRepo.UpdateState, NegotiationTaskRepo.AnyTasksInState. intros H1 H2. run_inv.
  split; [|done]. simpl. unfold update_where, others_open. rewrite exists_where_map.
  apply exists_where_ext. intros t. unfold NegotiationTaskRepo.of_negotiator.
  destruct (NegotiationTaskRepo.of_round did v t) eqn:Er; simpl; [|by rewrite Er].
  case_bool_decide; simpl.
  - by rewrite andb_false_r.
  - rewrite Er. simpl. apply bool_decide_ext. set_solver.
Qed.

(** No change request of the round waits for the caller's decision, the caller's
    own ones apart. *)
Definition nothing_undecided (s : Store) (did caller by_ : string) (version : Z) : Prop :=
  ∀ n d, n ∈ negotiations s → NegotiationRepo.of_version did version n = true →
    by_ = EmptyString ∨ n_created_by n ≠ by_ →
    d ∈ decisions s → d_negotiation_id d = n_id n → d_negotiator d = caller → d_decision d ≠ None.

Lemma no_open_decisions s did v caller by_ e s' :
  NegotiationRepo.HasOpenNegotiationDecisions did v caller by_ e s = Ok (false, s') →
  nothing_undecided s did caller by_ v.
Proof.
  intros [HF _]%gets_Ok n d Hn Hv Hby Hd Hid Hcaller Hopen. symmetry in HF.
  eapply exists_where_false in HF; [|exact Hn]. rewrite Hv in HF. simpl in HF.
  assert ((bool_decide (by_ = EmptyString) || negb (bool_decide (n_created_by n = by_))) = true) as Hb.
  { destruct Hby as [->|Hne]; [done|]. by rewrite (bool_decide_eq_false_2 _ Hne), orb_true_r. }
  rewrite Hb in HF. simpl in HF. eapply exists_where_false in HF; [|exact Hd].
  unfold NegotiationRepo.undecided in HF.
  rewrite !andb_false_iff, !bool_decide_eq_false in HF. naive_solver.
Qed.

(** The branch of submit for a negotiation, on every way it succeeds. *)
Lemma submit_negotiation_Ok `{ContractValidation} parse cmd localPeer row e s next s' :
  c_did row = DID cmd → submit_negotiation parse cmd localPeer row e s = Ok (next, s') →
  NegotiationTaskRepo.IsValidNegotiator (DID cmd) (CauserDID cmd) (c_contract_version row) e s = Ok (true, s) ∧
  nothing_undecided s (DID cmd) (CauserDID cmd) (SubmittedBy cmd) (c_contract_version row) ∧
  next = (if others_open s (DID cmd) (CauserDID cmd) (c_contract_version row)
             || has_changes s (DID cmd) (c_contract_version row) then None else Some Submitted).
Proof.
  intros Hdid. unfold submit_negotiation. rewrite Hdid. intros HR. run_inv. bool_to_prop.
  match goal with H : NegotiationTaskRepo.IsValidNegotiator _ _ _ _ _ = Ok (?b, _) |- _ =>
    rename H into HV; destruct b; [|done] end.
  match goal with H : NegotiationRepo.HasOpenNegotiationDecisions _ _ _ _ _ _ = _ |- _ => rename H into HO end.
  match goal with H : NegotiationTaskRepo.UpdateState _ _ _ _ _ _ = Ok (_, ?x) |- _ => rename H into HU, x into s1 end.
  match goal with H : NegotiationTaskRepo.AnyTasksInState _ _ _ _ _ = Ok (?b, _) |- _ => rename H into HA, b into opn end.
  destruct (open_after_accept _ _ _ _ _ _ _ _ _ HU HA) as [-> _].
  split; [exact HV|]. split; [by eapply no_open_decisions|].
  destruct (others_open _ _ _ _); simpl; [by apply ret_Ok in HR as [-> _]|].
  assert (Hch : has_changes s1 (DID cmd) (c_contract_version row) =
                has_changes s (DID cmd) (c_contract_version row)).
  { unfold has_changes. by rewrite (keeps_nt_UpdateState decisions _ _ _ _ (λ _ _, eq_refl) _ _ _ _ HU),
      (keeps_nt_UpdateState negotiations _ _ _ _ (λ _ _, eq_refl) _ _ _ _ HU). }
  apply bind_Ok in HR as (hasNegotiations & s2 & Hb%wrap_Ok & HR). apply gets_Ok in Hb as [-> ->].
  fold (has_changes s1 (DID cmd) (c_contract_version row)) in HR. rewrite Hch in HR.
  destruct (has_changes s _ _); run_inv; done.
Qed.

(** The stored state after [write_next_state]. *)
Lemma write_next_state_lookup did cur next e s u s' row :
  write_next_state did cur next e s = Ok (u, s') → contracts s !! did = Some row →
  c_state <$> contracts s' !! did =
    Some (match next with
          | Some st => if bool_decide (cur = st) then c_state row else st
          | None => c_state row end).
Proof.
  unfold write_next_state, when. intros HR Hrow. destruct next as [st|]; [|run_inv; by rewrite Hrow].
  case_bool_decide; simpl in HR; [run_inv; by rewrite Hrow|]. run_inv.
  match goal with HU : ContractRepo.UpdateState _ _ _ _ = _ |- _ => eapply UpdateState_column in HU; [|exact Hrow];
    apply (f_equal (.!! did)) in HU; unfold column in HU; by rewrite lookup_fmap, lookup_insert_eq in HU end.
Qed.

(** C6: A negotiation becomes a settled document only when the round is done.  A
    submit of a contract in NEGOTIATION succeeds only for a holder of a task of
    the current round who has no undecided change request of somebody else left
    on it; it then moves the contract to SUBMITTED exactly when no other task of
    the round is open and the round recorded no change request, and otherwise
    leaves it in NEGOTIATION. *)
Theorem submission_settles_a_finished_round `{ContractValidation} (Parse_RFC3339 : string → result Z)
    (cmd : SubmitCmd) (e : Env) (s s' : Store) (row : Contract) :
  keyed s → contracts s !! DID cmd = Some row → effective_state (env_now e) row = Negotiation →
  Submit.Handle Parse_RFC3339 cmd e s = Ok ((), s') →
  let v := c_contract_version row in
  exists_where (NegotiationTaskRepo.of_negotiator (DID cmd) (CauserDID cmd) v) (negotiation_tasks s) = true ∧
  nothing_undecided s (DID cmd) (CauserDID cmd) (SubmittedBy cmd) v ∧
  c_state <$> contracts s' !! DID cmd =
    Some (if others_open s (DID cmd) (CauserDID cmd) v || has_changes s (DID cmd) v
          then Negotiation else Submitted).
Proof.
  intros HK Hrow Hneg. unfold Submit.Handle. intros HR. run_inv.
  match goal with H : contracts s !! DID cmd = Some ?r |- _ => assert (r = row) as -> by congruence; clear H end.
  match goal with H : submit_branch _ _ _ _ _ _ = Ok (?n, ?x) |- _ => rename H into HB, n into next, x into s1 end.
  match goal with H : write_next_state _ _ _ _ _ = Ok (_, ?x) |- _ => rename H into HW, x into s2 end.
  unfold submit_branch in HB. simpl in HB. rewrite Hneg in HB.
  match goal with H : when _ _ _ _ = Ok (_, ?x) |- _ => assert (x = s) as -> end.
  { match goal with H : when _ _ _ _ = Ok _ |- _ => rename H into HD end. simpl in HD. rewrite Hneg in HD.
    unfold when in HD. destruct (IsNotNullValue _); simpl in HD; [|by apply ret_Ok in HD as [_ ->]].
    by unfold mbind, tx_bind, refuse in HD. }
  destruct (HK _ _ Hrow) as [Hdid _].
  assert (Hstored : c_state row = Negotiation).
  { destruct (effective_cases (env_now e) row) as [<-|]; congruence. }
  assert (Hk := keeps_state_submit_branch Parse_RFC3339 cmd x1 (effective (env_now e) row)).
  unfold submit_branch in Hk. simpl in Hk. rewrite Hneg in Hk.
  destruct (column_row c_state s s1 (DID cmd) row (Hk _ _ _ _ HB) Hrow) as (row1 & Hrow1 & Est).
  apply submit_negotiation_Ok in HB as (HV & HN & ->); [|exact Hdid].
  split; [apply gets_Ok in HV as [HV _]; by symmetry|]. split; [exact HN|].
  apply emit_Ok in HR as ->. simpl.
  rewrite (write_next_state_lookup _ _ _ _ _ _ _ _ HW Hrow1), Est. simpl. rewrite Hneg, Hstored.
  by destruct (_ || _).
Qed.

(** One task of the round, held by the local peer, on a contract in NEGOTIATION. *)
Definition demo_round : Store :=
  set_negotiation_tasks (λ _,
    [{| nt_id := "t1"; nt_did := "did:c1"; nt_contract_version := 1; nt_state := NTOpen;
        nt_negotiator := "did:web:a.example"; nt_created_by := "Org A"; nt_created_at := 0 |}])
    (demo_store (demo_contract "did:c1" ContractState.Negotiation (JObj ∅))).

Definition demo_submit : SubmitCmd :=
  {| DID := "did:c1"; UpdatedAt := 1785500000000000; SubmittedBy := "Org A"; ActionFlag := None;
     ContractData := None; UserRoles := [ContractCreator]; CauserDID := "did:web:a.example" |}.

Lemma demo_keyed_tables (f : Store → Store) c :
  contracts (f (demo_store c)) = contracts (demo_store c) → c_did c ≠ EmptyString → keyed (f (demo_store c)).
Proof.
  intros E H did c' Hc. rewrite E in Hc. unfold demo_store in Hc. simpl in Hc.
  apply lookup_insert_Some in Hc as [[<- <-]|[_ Hc]]; [done|by rewrite lookup_empty in Hc].
Qed.

Lemma submission_witness :
  let s' := (run (Submit.Handle (H := lenient_validation) (λ _, Err (Errorf "no date")) demo_submit)
               demo_env demo_round).2 in
  c_state <$> contracts s' !! "did:c1" = Some Submitted.
Proof.
  intros s'.
  destruct (submission_settles_a_finished_round (H := lenient_validation) (λ _, Err (Errorf "no date"))
    demo_submit demo_env demo_round s' (demo_contract "did:c1" ContractState.Negotiation (JObj ∅)))
    as (_ & _ & Hst).
  - by apply (demo_keyed_tables (set_negotiation_tasks _)).
  - reflexivity.
  - reflexivity.
  - vm_compute. reflexivity.
  - exact Hst.
Defined.

(** ** Approval *)

(** Another approver's task is still open. *)
Definition approvals_open (s : Store) (did caller : string) : bool :=
  exists_where (λ t, bool_decide (t_did t = did) && negb (bool_decide (t_holder t = caller))
                     && bool_decide (t_state t = TaskOpen)) (approval_tasks s).

Lemma open_after_approval s did caller e u s1 b s2 :
  ApprovalTaskRepo.UpdateState did caller TaskApproved e s = Ok (u, s1) →
  ApprovalTaskRepo.AnyTasksInState did [TaskOpen] e s1 = Ok (b, s2) →
  b = approvals_open s did caller ∧ s2 = s1.
Proof.
  unfold ApprovalTaskRepo.UpdateState, TaskTable.update_state, ApprovalTaskRepo.AnyTasksInState,
    TaskTable.any_in_state. intros H1 H2. run_inv.
  split; [|done]. simpl. unfold update_where, approvals_open. rewrite exists_where_map.
  apply exists_where_ext. intros t. unfold TaskTable.of_holder.
  repeat (case_bool_decide; simpl in *); try done; set_solver.
Qed.

Lemma complete_approval_state `{ContractValidation} did e s u s' row :
  Approver.complete_approval did e s = Ok (u, s') → contracts s !! did = Some row →
  c_state <$> contracts s' !! did = Some Approved.
Proof.
  unfold Approver.complete_approval, replace_document. intros HR Hrow. run_inv.
  match goal with HU : ContractRepo.UpdateState _ _ _ _ = _ |- _ =>
    eapply UpdateState_column in HU; [|exact Hrow] end.
  frame (column c_state).
  match goal with |- _ <$> contracts ?s !! _ = _ =>
    change (c_state <$> contracts s !! did) with (c_state <$> contracts s !! did);
    rewrite <-(lookup_fmap c_state (contracts s)); change (c_state <$> contracts s) with (column c_state s) end.
  framed.
  match goal with HU : column c_state _ = <[_ := _]> _ |- _ => rewrite HU end. apply lookup_insert_eq.
Qed.

(** Only an approver approves, and only what policy and closedness checks
    accept.  An approval that succeeds was made by the holder of an approval task
    of the contract, from REVIEWED or REVOKED, on a view not older than the stored
    row by a second or more, and on a document the policy and closedness checks
    accept; the contract becomes APPROVED exactly when no other approval task is
    open, and otherwise keeps its state. *)
Theorem approval_needs_every_approver `{ContractValidation} (cmd : Approver.ApproveCmd) (e : Env)
    (s s' : Store) (row : Contract) :
  keyed s → contracts s !! Approver.DID cmd = Some row → Approver.Handle cmd e s = Ok ((), s') →
  exists_where (TaskTable.of_holder (Approver.DID cmd) (Approver.CauserDID cmd)) (approval_tasks s) = true ∧
  effective_state (env_now e) row ∈ [Reviewed; Revoked] ∧
  Unix (c_updated_at row) <= Unix (Approver.UpdatedAt cmd) ∧
  ValidateContractPolicySatisfaction (c_contract_data row) (Approver.DID cmd) = Ok () ∧
  ValidateContractClosed (c_contract_data row) = Ok () ∧
  c_state <$> contracts s' !! Approver.DID cmd =
    Some (if approvals_open s (Approver.DID cmd) (Approver.CauserDID cmd) then c_state row else Approved).
Proof.
  intros HK Hrow HR. destruct (HK _ _ Hrow) as [Hdid _]. unfold Approver.Handle in HR. run_inv.
  repeat match goal with H : contracts s !! Approver.DID cmd = Some ?r |- _ =>
    tryif constr_eq r row then fail else (assert (r = row) as -> by congruence; clear H) end.
  simpl in *. rewrite Hdid in *.
  match goal with H : ApprovalTaskRepo.IsValidApprover _ _ _ _ = _ |- _ => apply gets_Ok in H as [Hvalid _] end.
  match goal with H : refuse_stale _ _ _ _ _ _ = _ |- _ => apply refuse_stale_Ok in H as [_ Hseen] end.
  match goal with HU : ApprovalTaskRepo.UpdateState _ _ _ _ _ = _, HA : ApprovalTaskRepo.AnyTasksInState _ _ _ _ = _ |- _ =>
    destruct (open_after_approval _ _ _ _ _ _ _ _ HU HA) as [-> _];
    assert (Hc : contracts x20 = contracts s) by (eapply (keeps_task_update contracts) in HU; [exact HU|done]) end.
  match goal with H : ValidateTransition _ _ = _ |- _ => rename H into HT end.
  bool_to_prop. subst. split_and!; try done.
  - unfold ValidateTransition, EventAllowed in HT. destruct (effective_state _ _); try done; set_solver.
  - apply emit_Ok in HR as ->. simpl.
    match goal with H : when _ _ _ _ = _ |- _ => rename H into HW end. unfold when in HW.
    destruct (approvals_open _ _ _); simpl in HW.
    + apply ret_Ok in HW as [_ ->]. by rewrite Hc, Hrow.
    + eapply complete_approval_state in HW; [exact HW|by rewrite Hc].
Qed.

Definition demo_review : Store :=
  set_approval_tasks (λ _,
    [{| t_id := "t1"; t_did := "did:c1"; t_state := TaskOpen; t_holder := "did:web:a.example";
        t_created_by := "Org A"; t_created_at := 0 |}])
    (demo_store (demo_contract "did:c1" Reviewed (JObj ∅))).

Definition demo_approve : Approver.ApproveCmd :=
  {| Approver.DID := "did:c1"; Approver.UpdatedAt := 1785500000000000; Approver.ApprovedBy := "Org A";
     Approver.CauserDID := "did:web:a.example" |}.

Lemma approval_witness :
  let s' := (run (Approver.Handle (H := lenient_validation) demo_approve) demo_env demo_review).2 in
  c_state <$> contracts s' !! "did:c1" = Some Approved.
Proof.
  intros s'.
  destruct (approval_needs_every_approver (H := lenient_validation) demo_approve demo_env demo_review s'
    (demo_contract "did:c1" Reviewed (JObj ∅))) as (_ & _ & _ & _ & _ & Hst).
  - by apply (demo_keyed_tables (set_approval_tasks _)).
  - reflexivity.
  - vm_compute. reflexivity.
  - exact Hst.
Defined.

(** ** Decisions on a change request *)

(** The decision table after [update_decisions]. *)
Lemma update_decisions_Ok id p f e s u s' :
  NegotiationRepo.update_decisions id p f e s = Ok (u, s') →
  decisions s' = update_where p f (decisions s) ∧ contracts s' = contracts s ∧
  exists_where p (decisions s) = true.
Proof.
  unfold NegotiationRepo.update_decisions. intros HR. run_inv. bool_to_prop. naive_solver.
Qed.

Lemma lookup_update_where {A} (p : A → bool) (f : A → A) l i x :
  l !! i = Some x → update_where p f l !! i = Some (if p x then f x else x).
Proof.
  intros Hi. unfold update_where. change (map ?g l) with (g <$> l). by rewrite list_lookup_fmap, Hi.
Qed.

Lemma length_update_where {A} (p : A → bool) (f : A → A) l : length (update_where p f l) = length l.
Proof. apply length_map. Qed.

Lemma not_conflicted (author caller : string) :
  negb (bool_decide (author = EmptyString)) && bool_decide (author = caller) = false →
  author = EmptyString ∨ author ≠ caller.
Proof. repeat case_bool_decide; naive_solver. Qed.

(** What accepting and rejecting a change request make of a decision row. *)
Definition after_accept (cmd : NegotiationAcceptor.AcceptNegotiationCmd) (d : DecisionRow) : DecisionRow :=
  if decide (d_negotiation_id d = NegotiationAcceptor.ID cmd ∧ d_decision d = None ∧
             d_negotiator d = NegotiationAcceptor.CauserDID cmd)
  then NegotiationRepo.decide_as DAccepted (d_rejection_reason d) d else d.

Definition after_reject (cmd : NegotiationRejector.RejectNegotiationCmd) (d : DecisionRow) : DecisionRow :=
  if decide (d_negotiation_id d = NegotiationRejector.ID cmd ∧ d_decision d = None)
  then if decide (d_negotiator d = NegotiationRejector.CauserDID cmd)
       then NegotiationRepo.decide_as DRejected (NegotiationRejector.RejectionReason cmd) d
       else NegotiationRepo.decide_as DClosed None d
  else d.

(** A decision on a change request is taken once.  Accepting records the
    acceptance of the calling peer alone and is refused to the identity that
    authored the request; rejecting records the rejection and closes every other
    decision still open on that request.  Neither overwrites a decision already
    taken, touches another request's decisions, adds or removes a row, or changes
    a contract. *)
Theorem decisions_are_taken_once (e : Env) (s : Store) :
  (∀ cmd u s', NegotiationAcceptor.Handle cmd e s = Ok (u, s') →
     (∀ n, NegotiationRepo.negotiation_of s (NegotiationAcceptor.ID cmd) = Some n →
        n_created_by n = EmptyString ∨ n_created_by n ≠ NegotiationAcceptor.AcceptedBy cmd) ∧
     contracts s' = contracts s ∧ length (decisions s') = length (decisions s) ∧
     ∀ i d, decisions s !! i = Some d → decisions s' !! i = Some (after_accept cmd d)) ∧
  (∀ cmd u s', NegotiationRejector.Handle cmd e s = Ok (u, s') →
     contracts s' = contracts s ∧ length (decisions s') = length (decisions s) ∧
     (∀ d, d ∈ decisions s' → d_negotiation_id d = NegotiationRejector.ID cmd → d_decision d ≠ None) ∧
     ∀ i d, decisions s !! i = Some d → decisions s' !! i = Some (after_reject cmd d)).
Proof.
  split; intros cmd u s' HR.
  - unfold NegotiationAcceptor.Handle in HR. run_inv.
    apply emit_Ok in HR as ->. simpl.
    match goal with H : NegotiationRepo.Accept _ _ _ _ = _ |- _ =>
      apply update_decisions_Ok in H as (-> & -> & _) end.
    split_and!; [|done|apply length_update_where|].
    + intros n Hn.
      match goal with H : NegotiationRepo.ReadCreatedByByNegotiationID _ _ _ = _ |- _ =>
        unfold NegotiationRepo.ReadCreatedByByNegotiationID in H; rewrite Hn in H; simplify_eq end.
      by apply not_conflicted.
    + intros i d Hd. rewrite (lookup_update_where _ _ _ _ _ Hd). unfold NegotiationRepo.undecided, after_accept, after_reject. f_equal.
      by repeat (case_bool_decide || case_decide); naive_solver.
  - unfold NegotiationRejector.Handle in HR. run_inv.
    apply emit_Ok in HR as ->. simpl.
    match goal with H : NegotiationRepo.Reject _ _ _ _ _ = _ |- _ =>
      apply update_decisions_Ok in H as (-> & -> & _) end.
    split_and!; [done|apply length_update_where| |].
    + intros d (d0 & _ & ->)%elem_of_update_where. unfold NegotiationRepo.undecided.
      repeat case_bool_decide; simpl in *; naive_solver.
    + intros i d Hd. rewrite (lookup_update_where _ _ _ _ _ Hd). unfold NegotiationRepo.undecided, after_accept, after_reject. f_equal.
      by repeat (case_bool_decide || case_decide); naive_solver.
Qed.

(** Two peers owe a decision on Org B's change request; a third has declined. *)
Definition demo_dispute : Store :=
  let decision who d :=
    {| d_negotiation_id := "n1"; d_negotiator := who; d_decision := d; d_rejection_reason := None |} in
  set_negotiations (λ _,
    [{| n_id := "n1"; n_did := "did:c1"; n_contract_version := 1; n_change_request := None;
        n_created_by := "Org B"; n_created_at := 0; n_superseded_by := None |}])
    (set_decisions (λ _,
       [decision "did:web:a.example" None; decision "did:web:b.example" None;
        decision "did:web:c.example" (Some DRejected)]) demo_round).

Definition demo_refusal : NegotiationRejector.RejectNegotiationCmd :=
  {| NegotiationRejector.ID := "n1"; NegotiationRejector.DID := "did:c1";
     NegotiationRejector.RejectedBy := "Org A"; NegotiationRejector.RejectionReason := Some "too late";
     NegotiationRejector.CauserDID := "did:web:a.example" |}.

Lemma decisions_witness :
  let s' := (run (NegotiationRejector.Handle demo_refusal) demo_env demo_dispute).2 in
  d_decision <$> decisions s' !! 1%nat = Some (Some DClosed) ∧ contracts s' = contracts demo_dispute.
Proof.
  intros s'.
  destruct (decisions_are_taken_once demo_env demo_dispute) as [_ HR].
  destruct (HR demo_refusal () s') as (Hc & _ & _ & Hd).
  - vm_compute. reflexivity.
  - split; [|exact Hc]. erewrite Hd by reflexivity. vm_compute. reflexivity.
Defined.
