(* ===== verification/Expiry.v ===== *)
(** The expiry scheduler: internal/contractworkflowengine/cronjobs.go and
    datatype/expirationpolicy.

    A tick reads the expired contracts in one transaction and then expires each in
    a transaction of its own ([sweep]); other transactions may commit in between
    ([sweep_interleaved]). *)
From S2P Require Import Prelude Json ContractState Store Repos Negotiation.
Import GoStrings.

(** ** datatype/expirationpolicy *)
Inductive ExpirationPolicy := Renewal | Termination | Archiving.
#[export] Instance ExpirationPolicy_eq_dec : EqDecision ExpirationPolicy.
Proof. solve_decision. Defined.

Definition policy_String (p : ExpirationPolicy) : string :=
  match p with Renewal => "RENEWAL" | Termination => "TERMINATION" | Archiving => "ARCHIVING" end.

Definition NewExpirationPolicy (s : string) : result ExpirationPolicy :=
  let flag := ToUpper s in
  if bool_decide (flag = "RENEWAL") then Ok Renewal
  else if bool_decide (flag = "TERMINATION") then Ok Termination
  else if bool_decide (flag = "ARCHIVING") then Ok Archiving
  else Err (Errorf "invalid expiration policy").

(** ** cronjobs.go *)

(** [expiredContract] is the row as the first transaction read it.  The action of
    each policy is a log line. *)
Definition callExpirationLogic (expiredContract : Contract) : Tx () :=
  policy ←
    match c_exp_policy expiredContract with
    | Some p => wrap "could not create expiration policy" (lift (NewExpirationPolicy p))
    | None => throw (Errorf "unknown expiration policy for expired contract")
    end;
  _ ← wrap "could not update expired contract"
    (ContractRepo.UpdateState (c_did expiredContract) Expired);
  emit "CONTRACT_EXPIRED" (c_did expiredContract)
    [("contract_version", jint (c_contract_version expiredContract));
     ("state", JStr (state_String (c_state expiredContract)));
     ("exp_policy", JStr (policy_String policy))].

(** One transaction per contract; an error is logged and the loop goes on. *)
Fixpoint expire_all (e : Env) (expiredContracts : list Contract) (s : Store) : Store :=
  match expiredContracts with
  | [] => s
  | c :: rest => expire_all e rest (run (callExpirationLogic c) e s).2
  end.

Definition readExpiredContracts (e : Env) (s : Store) : list Contract :=
  rows_where (ContractRepo.is_expired (env_now e)) ((map_to_list (contracts s)).*2).

Definition sweep (e : Env) (s : Store) : Store := expire_all e (readExpiredContracts e s) s.

(** A tick whose list was read before the transactions in [between] committed. *)
Definition sweep_interleaved (e : Env) (between : Store → Store) (s : Store) : Store :=
  expire_all e (readExpiredContracts e s) (between s).

(** ** Lemmas *)
Lemma is_expired_effective now c :
  ContractRepo.is_expired now c = true → effective_state now c = Expired.
Proof.
  unfold ContractRepo.is_expired, effective_state. destruct (c_exp_date c) as [d|]; [|done].
  intros [Hd Hs]%andb_true_iff. apply Z.ltb_lt in Hd. rewrite (proj2 (Z.leb_le d now)) by lia. simpl.
  revert Hs. destruct (c_state c); vm_compute; congruence.
Qed.

(** Persisting EXPIRED on a row that reads EXPIRED changes no reading of it. *)
Lemma effective_Expired now c c' :
  effective_state now c = Expired → c_state c' = Expired → effective_state now c' = Expired.
Proof.
  intros _ H. unfold effective_state. rewrite H. destruct (c_exp_date c'); [|done].
  by rewrite andb_false_r.
Qed.

(** The contracts table of a store, without its revision clocks. *)
Definition readings (e : Env) (s : Store) : gmap string ContractState :=
  effective_state (env_now e) <$> contracts s.

(** What one expiry transaction does: nothing, or EXPIRED on the row. *)
Lemma callExpirationLogic_Ok c e s u s' :
  callExpirationLogic c e s = Ok (u, s') →
  contracts s' = alter (λ row, contracts_before_update (env_now e) row (with_state Expired row)) (c_did c)
    (contracts s).
Proof.
  unfold callExpirationLogic. intros HR. destruct (c_exp_policy c); run_inv.
  match goal with HE : emit _ _ _ _ _ = _ |- _ => apply emit_Ok in HE as -> end.
  match goal with HU : ContractRepo.UpdateState _ _ _ _ = _ |- _ => apply update_row_Ok in HU as -> end.
  done.
Qed.

Lemma before_update_exp_date now old new :
  c_exp_date (contracts_before_update now old new) = c_exp_date new.
Proof. apply (before_update_column c_exp_date). by intros ????. Qed.

Lemma expire_one_readings c e s :
  (∀ row, contracts s !! c_did c = Some row → effective_state (env_now e) row = Expired) →
  readings e (run (callExpirationLogic c) e s).2 = readings e s.
Proof.
  intros Hrow. unfold run. destruct (callExpirationLogic c e s) as [[u s']|] eqn:E; [|done]. simpl.
  apply callExpirationLogic_Ok in E. unfold readings. rewrite E. apply map_eq. intros i.
  rewrite !lookup_fmap. destruct (decide (i = c_did c)) as [->|Hne].
  - rewrite lookup_alter_eq. destruct (contracts s !! c_did c) as [row|] eqn:Er; [|done]. simpl.
    f_equal. rewrite (Hrow row eq_refl). apply (effective_Expired _ row); [by apply Hrow|].
    by rewrite before_update_state.
  - by rewrite lookup_alter_ne.
Qed.

Lemma expire_all_readings e l s :
  (∀ c row, c ∈ l → contracts s !! c_did c = Some row → effective_state (env_now e) row = Expired) →
  readings e (expire_all e l s) = readings e s.
Proof.
  revert s. induction l as [|c l IH]; intros s Hl; simpl; [done|].
  assert (E : readings e (run (callExpirationLogic c) e s).2 = readings e s).
  { apply expire_one_readings. intros row Hr. apply (Hl c); [left|done]. }
  rewrite IH; [done|]. intros c' row Hc' Hrow.
  apply (f_equal (.!! c_did c')) in E. unfold readings in E. rewrite !lookup_fmap, Hrow in E.
  simpl in E. destruct (contracts s !! c_did c') as [row0|] eqn:E0; [|done].
  injection E as E. rewrite E. apply (Hl c'); [by right|done].
Qed.

(** A policy the sweep accepts. *)
Definition known_policy (c : Contract) : bool :=
  match c_exp_policy c with Some p => is_ok (NewExpirationPolicy p) | None => false end.

Lemma callExpirationLogic_succeeds c e s :
  known_policy c = true → c_did c ≠ EmptyString → ∃ s', callExpirationLogic c e s = Ok ((), s').
Proof.
  intros Hp Hd. unfold known_policy in Hp. unfold callExpirationLogic, mbind, tx_bind, wrap, lift.
  destruct (c_exp_policy c) as [p|]; [|done]. destruct (NewExpirationPolicy p); [|done].
  unfold ContractRepo.UpdateState, ContractRepo.update_row, modify, emit, wrap, CreateEvent.
  cbn [o_event_type o_did]. rewrite (bool_decide_eq_false_2 (c_did c = EmptyString)) by done.
  eexists. reflexivity.
Qed.

Lemma run_expire_known c e s :
  known_policy c = true → c_did c ≠ EmptyString →
  contracts (run (callExpirationLogic c) e s).2 =
  alter (λ row, contracts_before_update (env_now e) row (with_state Expired row)) (c_did c) (contracts s).
Proof.
  intros Hp Hd. destruct (callExpirationLogic_succeeds c e s Hp Hd) as [s' E].
  unfold run. rewrite E. by apply callExpirationLogic_Ok in E.
Qed.

Lemma run_expire_unknown c e s : known_policy c = false → (run (callExpirationLogic c) e s).2 = s.
Proof.
  unfold known_policy, run, callExpirationLogic, mbind, tx_bind, wrap, lift.
  destruct (c_exp_policy c) as [p|]; [|done]. by destruct (NewExpirationPolicy p).
Qed.

Lemma expire_all_other e l s did :
  (∀ c, c ∈ l → c_did c = did → known_policy c = false ∨ c_did c = EmptyString) →
  (∀ c, c ∈ l → c_did c ≠ EmptyString) →
  contracts (expire_all e l s) !! did = contracts s !! did.
Proof.
  revert s. induction l as [|c l IH]; intros s Hl Hne; simpl; [done|].
  rewrite IH; [|intros; apply Hl; [by right|done] | intros; apply Hne; by right].
  destruct (known_policy c) eqn:Hp; [|by rewrite run_expire_unknown].
  rewrite run_expire_known; [|done|apply Hne; left].
  destruct (decide (c_did c = did)) as [E|E].
  - destruct (Hl c ltac:(left) E) as [?|Hd]; [congruence|]. by destruct (Hne c ltac:(left)).
  - by rewrite lookup_alter_ne.
Qed.

Lemma expire_all_hit e l s did c :
  c ∈ l → c_did c = did → known_policy c = true → (∀ c, c ∈ l → c_did c ≠ EmptyString) →
  is_Some (contracts s !! did) →
  ∃ row, contracts (expire_all e l s) !! did = Some row ∧ c_state row = Expired.
Proof.
  intros Hc Hd Hp Hne Hs.
  assert (Hstep : ∀ c s row, contracts s !! did = Some row →
    ∃ row', contracts (run (callExpirationLogic c) e s).2 !! did = Some row' ∧
      (c_state row = Expired ∨ (c_did c = did ∧ known_policy c = true ∧ c_did c ≠ EmptyString) →
       c_state row' = Expired)).
  { clear. intros c s row Hrow. unfold run.
    destruct (callExpirationLogic c e s) as [[u s']|] eqn:E; simpl.
    - apply callExpirationLogic_Ok in E. rewrite E.
      destruct (decide (c_did c = did)) as [Ed|Ed].
      + rewrite Ed, lookup_alter_eq, Hrow. eexists. split; [done|]. intros _. by rewrite before_update_state.
      + rewrite lookup_alter_ne by done. exists row. split; [done|]. naive_solver.
    - exists row. split; [done|]. intros [?|(_ & Hp & Hn)]; [done|].
      destruct (callExpirationLogic_succeeds c e s Hp Hn) as [s' E']. by rewrite E in E'. }
  assert (Hkeep : ∀ l s row, contracts s !! did = Some row → c_state row = Expired →
    ∃ row', contracts (expire_all e l s) !! did = Some row' ∧ c_state row' = Expired).
  { clear -Hstep. induction l as [|c l IH]; intros s row Hrow HE; simpl; [eauto|].
    destruct (Hstep c s row Hrow) as (row' & Hr & H'). eapply IH; eauto. }
  revert s Hs. induction l as [|c' l IH]; intros s [row Hrow]; [by apply elem_of_nil in Hc|].
  simpl. destruct (Hstep c' s row Hrow) as (row' & Hr & H').
  apply elem_of_cons in Hc as [<-|Hc].
  - eapply Hkeep; [exact Hr|]. apply H'. right. split_and!; auto. apply Hne. left.
  - apply IH; eauto. intros; apply Hne; by right.
Qed.

Lemma elem_of_readExpiredContracts e s c :
  c ∈ readExpiredContracts e s ↔
  ∃ did, contracts s !! did = Some c ∧ ContractRepo.is_expired (env_now e) c = true.
Proof.
  unfold readExpiredContracts. rewrite elem_of_rows_where. split.
  - intros [([did c'] & -> & Hin)%list_elem_of_fmap Hx]. apply elem_of_map_to_list in Hin. eauto.
  - intros (did & Hc & Hx). split; [|done]. apply list_elem_of_fmap. exists (did, c).
    split; [done|]. by apply elem_of_map_to_list.
Qed.

(** What a sweep leaves of each row. *)
Lemma sweep_row e s did c :
  keyed s → contracts s !! did = Some c →
  if ContractRepo.is_expired (env_now e) c && known_policy c
  then ∃ c', contracts (sweep e s) !! did = Some c' ∧ c_state c' = Expired
  else contracts (sweep e s) !! did = Some c.
Proof.
  intros HK Hc. destruct (HK did c Hc) as [Hd _].
  assert (Hne : ∀ c, c ∈ readExpiredContracts e s → c_did c ≠ EmptyString).
  { intros c1 (did1 & Hc1 & _)%elem_of_readExpiredContracts. by destruct (HK did1 c1 Hc1) as [-> ?]. }
  destruct (ContractRepo.is_expired (env_now e) c && known_policy c) eqn:E.
  + apply andb_true_iff in E as [Hx Hp].
    apply (expire_all_hit e _ s did c); eauto. apply elem_of_readExpiredContracts. eauto.
  + unfold sweep. rewrite expire_all_other; [done| |done].
    intros c0 (did0 & Hc0 & Hx0)%elem_of_readExpiredContracts Hd0.
    destruct (HK did0 c0 Hc0) as [Hd0' _]. left.
    assert (c0 = c) as -> by congruence. by rewrite Hx0 in E.
Qed.

Lemma sweep_readings e s : keyed s → readings e (sweep e s) = readings e s.
Proof.
  intros HK. apply expire_all_readings. intros c row (did & Hc & Hx)%elem_of_readExpiredContracts Hrow.
  destruct (HK did c Hc) as [Hd _]. rewrite Hd, Hc in Hrow. injection Hrow as <-.
  by apply is_expired_effective.
Qed.

(** A sweep that no other transaction interleaves with persists exactly what
    readers already see.  Every contract whose expiry date has passed, in a state
    the query selects and with a declared policy, is stored as EXPIRED; every
    other row, a DRAFT past its date or one without a policy included, is left as
    it was; and the effective state of every contract is the same before and
    after. *)
Theorem sweep_persists_the_effective_state (e : Env) (s : Store) :
  keyed s →
  readings e (sweep e s) = readings e s ∧
  ∀ did c, contracts s !! did = Some c →
    if ContractRepo.is_expired (env_now e) c && known_policy c
    then ∃ c', contracts (sweep e s) !! did = Some c' ∧ c_state c' = Expired
    else contracts (sweep e s) !! did = Some c.
Proof.
  intros HK. split; [by apply sweep_readings|]. intros did c Hc. by apply sweep_row.
Qed.

(** A contract past its date: noon of the demo clock minus a day. *)
Definition demo_outdated (st : ContractState) (policy : option string) : Contract :=
  let c := demo_contract "did:c1" st (JObj ∅) in
  {| c_did := c_did c; c_origin := c_origin c; c_contract_version := c_contract_version c;
     c_state := st; c_created_by := c_created_by c; c_created_at := c_created_at c;
     c_updated_at := c_updated_at c; c_start_date := None; c_exp_date := Some 1785499200000000;
     c_exp_policy := policy; c_exp_notice_period := None; c_name := None; c_description := None;
     c_responsible := c_responsible c; c_contract_data := c_contract_data c;
     c_template_did := c_template_did c; c_template_version := c_template_version c;
     c_target_id := None; c_content_updated_at := c_content_updated_at c; c_pdf := no_pdf |}.

Lemma demo_keyed c : c_did c ≠ EmptyString → keyed (demo_store c).
Proof.
  intros H did c' Hc. unfold demo_store in Hc. simpl in Hc.
  apply lookup_insert_Some in Hc as [[<- <-]|[_ Hc]]; [done|by rewrite lookup_empty in Hc].
Qed.

Lemma sweep_persists_witness :
  let s := demo_store (demo_outdated Active (Some "ARCHIVING")) in
  readings demo_env (sweep demo_env s) = readings demo_env s ∧
  ∃ c', contracts (sweep demo_env s) !! "did:c1" = Some c' ∧ c_state c' = Expired.
Proof.
  intros s. destruct (sweep_persists_the_effective_state demo_env s) as [H1 H2].
  - by apply demo_keyed.
  - split; [exact H1|]. exact (H2 "did:c1" (demo_outdated Active (Some "ARCHIVING")) eq_refl).
Defined.

(** A DRAFT past its date reads EXPIRED and is never persisted as such. *)
Example outdated_draft_is_never_persisted :
  let s := demo_store (demo_outdated Draft (Some "ARCHIVING")) in
  effective_state (env_now demo_env) (demo_outdated Draft (Some "ARCHIVING")) = Expired ∧
  sweep demo_env s = s.
Proof. split; vm_compute; reflexivity. Qed.

(** The state is not checked again in the second transaction: a contract that was
    terminated after the list was read is moved out of TERMINATED. *)
Example sweep_overwrites_a_termination :
  let s := demo_store (demo_outdated Active (Some "ARCHIVING")) in
  let terminated := (run (ContractRepo.UpdateState "did:c1" Terminated) demo_env s).2 in
  (c_state <$> contracts terminated !! "did:c1") = Some Terminated ∧
  (c_state <$> contracts (sweep_interleaved demo_env (λ _, terminated) s) !! "did:c1") = Some Expired.
Proof. split; vm_compute; reflexivity. Qed.
