(* ===== verification/Authoring.v ===== *)
(** Creating, editing and renewing a contract: internal/contractworkflowengine/
    command/create.go, update.go and renew.go.

    The template repository, the derivation of a contract document from a
    template and the Semantic Hub are reached through [ContractDerivation]. *)
From S2P Require Import Prelude Json ContractState Store Repos Document Validation Settlement Negotiation Expiry.
Import GoStrings.

(** ** What creation asks of the template repository and the Semantic Hub *)
Record Template := {
  tpl_TemplateData : option json;
  tpl_TemplateVersion : Z;
  tpl_Name : option string;
  tpl_Description : option string
}.

(** An entry of the hub, as far as it is anchored. *)
Record Schema := { sc_Name : string; sc_Version : Z }.

Record EffectiveBundle := {
  ContextVersion : Z;
  ProfileVersion : Z;
  Shapes : list Schema;
  Libraries : list Schema
}.

Record semanticBundleRefs := {
  ref_Context : string;
  ref_CanonicalShapes : string;
  ref_Shapes : list string;
  ref_Libraries : list string;
  ref_Profile : string
}.

Class ContractDerivation := {
  ReadContractTemplateDataByID : string → result Template;
  ConvertTemplateDataToContractData : option json → string → Z → result (option json);
  ResolveEffectiveBundle : result EffectiveBundle;
  PinSemanticBundle : json → semanticBundleRefs → result json;
  (** [url.Parse] succeeds on an absolute URL without white space. *)
  isAbsoluteRoleURI : string → bool
}.

(** semantichub.AnchorURL. *)
Definition AnchorURL (public_url kind name : string) (version : Z) : string :=
  let base := trim_right (λ c, bool_decide (c = "/"%char)) (TrimSpace public_url) in
  String.append base (String.append "/semantic/" (String.append kind (String.append "/"
    (String.append name (String.append "?version=" (pretty version)))))).

Fixpoint shapeAnchors (public_url : string) (entries : list Schema) : result (list string) :=
  match entries with
  | [] => Ok []
  | entry :: rest =>
      if bool_decide (TrimSpace (sc_Name entry) = EmptyString) || (sc_Version entry <=? 0)
      then Err (Errorf "every effective shape requires a name and version")
      else
        anchors ← shapeAnchors public_url rest;
        Ok (AnchorURL public_url "shapes" (sc_Name entry) (sc_Version entry) :: anchors)
  end.

Definition effectiveBundleRefs (public_url : string) (bundle : EffectiveBundle) :
    result semanticBundleRefs :=
  match Shapes bundle with
  | [] => Err (Errorf "complete versioned semantic bundle is required")
  | canonical :: _ =>
      if (ContextVersion bundle <=? 0) || (ProfileVersion bundle <=? 0)
      then Err (Errorf "complete versioned semantic bundle is required")
      else if negb (bool_decide (sc_Name canonical = "facis-dcs")) || (sc_Version canonical <=? 0)
      then Err (Errorf "canonical shapes must be the first versioned bundle entry")
      else
        envelopeRefs ← shapeAnchors public_url (Shapes bundle);
        libraryRefs ← shapeAnchors public_url (Libraries bundle);
        Ok {| ref_Context := AnchorURL public_url "context" "facis-dcs" (ContextVersion bundle);
              ref_CanonicalShapes := default EmptyString (head envelopeRefs);
              ref_Shapes := envelopeRefs; ref_Libraries := libraryRefs;
              ref_Profile := AnchorURL public_url "profile" "facis.sla.basic" (ProfileVersion bundle) |}
  end.

(** ** Tasks of a new contract (create.go) *)
Definition createReviewAndApprovalTasks (did createdBy : string) (resp : Responsible) : Tx () :=
  _ ← for_each (Reviewers resp) (λ reviewer,
        wrap "could not create review task" (ReviewTaskRepo.Create did TaskOpen reviewer createdBy));
  for_each (Approvers resp) (λ approver,
    wrap "could not create approval task" (ApprovalTaskRepo.Create did TaskOpen approver createdBy)).

Definition initialContractVersion : Z := 1.

Definition mint_first_round (did createdBy : string) (negotiators : list string) : Tx () :=
  for_each negotiators (λ negotiator,
    mintNegotiationTask did negotiator createdBy initialContractVersion).

(** The literal of [db.Contract] that create and renew insert. *)
Definition new_contract (did origin createdBy : string) (state : ContractState) (createdAt updatedAt : Z)
    (name description : option string) (data : json) (templateDID : string) (templateVersion : Z)
    (resp : Responsible) : Contract :=
  {| c_did := did; c_origin := origin; c_contract_version := 0; c_state := state;
     c_created_by := createdBy; c_created_at := createdAt; c_updated_at := updatedAt;
     c_start_date := None; c_exp_date := None; c_exp_policy := None; c_exp_notice_period := None;
     c_name := name; c_description := description; c_responsible := Some resp;
     c_contract_data := Some data; c_template_did := templateDID;
     c_template_version := templateVersion; c_target_id := None; c_content_updated_at := 0;
     c_pdf := no_pdf |}.

(** ** create.go *)
Module Creator.

Record CreateCmd := {
  DID : string;
  TemplateDID : string;
  CreatedBy : string;
  Counterparty : string;
  Parties : list string;
  OriginatorRole : string
}.

Section handler.
Context `{ContractValidation} `{ContractDerivation}.

(** The document of the new contract, up to the seeding. *)
Definition derive_document (cmd : CreateCmd) (public_url localPeer : string) (tpl : Template) :
    result json :=
  contractDocument ← wrap_err "could not derive contract data from template"
    (ConvertTemplateDataToContractData (tpl_TemplateData tpl) (TemplateDID cmd) (tpl_TemplateVersion tpl));
  normalized ← wrap_err "contract data validation failed"
    (NormalizeContractDataForPersistence contractDocument (DID cmd) false);
  bundle ← wrap_err "could not resolve effective Semantic Hub bundle" ResolveEffectiveBundle;
  bundleRefs ← wrap_err "could not resolve effective Semantic Hub bundle references"
    (effectiveBundleRefs public_url bundle);
  pinned ← wrap_err "could not pin effective Semantic Hub bundle" (PinSemanticBundle normalized bundleRefs);
  let declares := negb (bool_decide (OriginatorRole cmd = EmptyString)) in
  _ ← (if declares then validateOriginatorRole isAbsoluteRoleURI pinned (OriginatorRole cmd) else Ok ());
  withParties ← (if bool_decide (Parties cmd = []) then Ok pinned
                 else wrap_err "could not attach contract parties" (attachContractParties pinned (Parties cmd)));
  resolved ← wrap_err "could not resolve the contract's own rule targets" (resolvePendingTargets withParties);
  if declares
  then wrap_err "could not bind originator party"
         (bindOriginatorParty resolved localPeer (OriginatorRole cmd) (CreatedBy cmd))
  else Ok resolved.

Definition Handle (cmd : CreateCmd) : Tx () :=
  contractTemplate ← wrap "could not read contract template data"
    (lift (ReadContractTemplateDataByID (TemplateDID cmd)));
  public_url ← gets (λ e _, env_public_url e);
  localPeer ← wrap "could not get DID" GetID;
  document ← lift (derive_document cmd public_url localPeer contractTemplate);
  let resp := {| Store.Creator := localPeer; Approvers := [localPeer]; Reviewers := [localPeer];
                 Negotiators := [localPeer]; Store.Counterparty := Counterparty cmd |} in
  '(seeded, changed) ← wrap "could not seed contract parties and signature fields"
    (lift (SeedPartiesAndSignatureFields document (GetParties resp)));
  let data := if changed : bool then seeded else document in
  occurredAt ← now;
  _ ← wrap "could not create contract"
    (ContractRepo.Create (new_contract (DID cmd) localPeer (CreatedBy cmd) Draft occurredAt 0
       (tpl_Name contractTemplate) (tpl_Description contractTemplate) data (TemplateDID cmd)
       (tpl_TemplateVersion contractTemplate) resp));
  _ ← createReviewAndApprovalTasks (DID cmd) (CreatedBy cmd) resp;
  _ ← mint_first_round (DID cmd) (CreatedBy cmd) (Negotiators resp);
  emit "CREATE_CONTRACT" (DID cmd)
    [("template_did", JStr (TemplateDID cmd)); ("created_by", JStr (CreatedBy cmd))].

End handler.
End Creator.

(** ** update.go *)
Module Updater.

Record UpdateCmd := {
  DID : string;
  UpdatedAt : Z;
  UpdatedBy : string;
  StartDate : option Z;
  ExpDate : option Z;
  ExpPolicy : option ExpirationPolicy;
  ExpNoticePeriod : option Z;
  Name : option string;
  Description : option string;
  ContractData : option json;
  CauserDID : string
}.

Definition day : Z := 86400000000.

(** [time.Now().Truncate(24 * time.Hour).Add(24 * time.Hour)]. *)
Definition tomorrow (now : Z) : Z := now / day * day + day.

(** The loop of [checkNoParentCycle].  [None] is out of fuel, which
    [checkNoParentCycle_total] excludes for the fuel used below. *)
Fixpoint walk (fuel : nat) (e : Env) (s : Store) (selfDID : string) (visited : list string)
    (current : string) : option (result ()) :=
  match fuel with
  | O => None
  | S fuel' =>
      if bool_decide (current = EmptyString) then Some (Ok ())
      else if bool_decide (current = selfDID)
      then Some (Err (Wrapf "updating would loop the parent chain back to itself"
                        (Sentinel ErrContractHierarchyCycle)))
      else if bool_decide (current ∈ visited) then Some (Ok ())
      else
        match ContractRepo.ReadDataByDID current e s with
        | Err _ => Some (Ok ())
        | Ok (parent, _) =>
            walk fuel' e s selfDID (current :: visited)
              (extractParentContractDID (c_contract_data parent))
        end
  end.

Definition walk_fuel (s : Store) : nat := S (S (size (contracts s))).

Definition checkNoParentCycle (selfDID proposedParentDID : string) : Tx () := λ e s,
  match walk (walk_fuel s) e s selfDID [] proposedParentDID with
  | Some (Ok _) => Ok ((), s)
  | Some (Err err) => Err err
  | None => Err (Panic "out of fuel")
  end.

(** The date checks, in the order of the code. *)
Definition check_dates (t : Z) (start_date exp_date : option Z) : result () :=
  _ ← match exp_date with
      | Some d => if d <? tomorrow t
                  then Err (Errorf "expiration date must be at least one day in the future") else Ok ()
      | None => Ok ()
      end;
  _ ← match start_date with
      | Some d => if d <? tomorrow t
                  then Err (Errorf "start date must be at least one day in the future") else Ok ()
      | None => Ok ()
      end;
  match start_date, exp_date with
  | Some st, Some ex => if ex <=? st then Err (Errorf "expiration date must be after start date") else Ok ()
  | _, _ => Ok ()
  end.

(** The document a save stores: the stored pin carried over, the parties and
    signature fields put back. *)
Definition saved_document (old : Contract) (data : option json) : result (option json) :=
  if negb (IsNotNullValue data) then Ok data else
  carried ← wrap_err "could not carry the pinned Semantic Hub bundle forward"
    (CarrySemanticBundle (c_contract_data old) data);
  match c_responsible old, carried with
  | Some resp, Some doc =>
      '(seeded, changed) ← wrap_err "could not seed contract parties and signature fields"
        (SeedPartiesAndSignatureFields doc (GetParties resp));
      Ok (Some (if changed : bool then seeded else doc))
  | _, _ => Ok carried
  end.

Section handler.
Context `{ContractValidation}.

Definition Handle (cmd : UpdateCmd) : Tx () :=
  contractData ←
    (if IsNotNullValue (ContractData cmd) then
       j ← wrap "contract data validation failed"
         (lift (NormalizeContractDataForPersistence (ContractData cmd) (DID cmd) true));
       mret (Some j)
     else mret (ContractData cmd));
  oldData ← wrap "could not read contract data" (ContractRepo.ReadDataByDID (DID cmd));
  localPeer ← GetID;
  _ ← refuse (negb (bool_decide (c_origin oldData = localPeer))
              && negb (bool_decide (CauserDID cmd = c_origin oldData)))
        (Errorf "updates are just allowed contract's owner peer");
  _ ← refuse_stale localPeer (CauserDID cmd) (UpdatedAt cmd) (c_updated_at oldData);
  _ ← lift (ValidateTransition (c_state oldData) EventUpdate);
  let parentDID := extractParentContractDID contractData in
  _ ← (if negb (bool_decide (parentDID = EmptyString))
       then checkNoParentCycle (DID cmd) parentDID else mret ());
  t ← now;
  _ ← lift (check_dates t (StartDate cmd) (ExpDate cmd));
  _ ← match c_exp_policy oldData with
      | Some p => _ ← wrap "could not parse expiration policy" (lift (NewExpirationPolicy p)); mret ()
      | None => mret ()
      end;
  document ← lift (saved_document oldData contractData);
  _ ← wrap "could not update contract data"
    (ContractRepo.Update
      {| ContractRepo.u_did := DID cmd; ContractRepo.u_state := None;
         ContractRepo.u_name := Name cmd; ContractRepo.u_description := Description cmd;
         ContractRepo.u_contract_version := 0; ContractRepo.u_contract_data := document;
         ContractRepo.u_start_date := StartDate cmd; ContractRepo.u_exp_date := ExpDate cmd;
         ContractRepo.u_exp_policy := policy_String <$> ExpPolicy cmd;
         ContractRepo.u_exp_notice_period := ExpNoticePeriod cmd;
         ContractRepo.u_responsible := None |});
  emit "UPDATE_CONTRACT" (DID cmd) [("updated_by", JStr (UpdatedBy cmd))].

End handler.
End Updater.

(** ** renew.go *)
Module Renewer.

Definition renewableStates (st : ContractState) : bool :=
  bool_decide (st ∈ [Approved; Signed; Active; Terminated; Expired]).

Record RenewCmd := {
  DID : string;
  OriginalDID : string;
  RenewedBy : string;
  UpdatedAt : Z;
  NewStartDate : option Z;
  NewExpDate : option Z;
  NewExpPolicy : option string;
  NewExpNoticePeriod : option Z
}.

Section handler.
Context `{ContractValidation}.

Definition renewal_document (public_url : string) (cmd : RenewCmd) (original : Contract)
    (resp : Responsible) : result json :=
  normalized ← wrap_err "contract data validation failed"
    (NormalizeContractDataForPersistence (c_contract_data original) (DID cmd) false);
  unsigned ← wrap_err "could not clear the previous term's signature attribution"
    (unsignRenewedDocument normalized);
  linked ← wrap_err "could not attach renewal reference"
    (attachRenewsContractReference public_url unsigned (OriginalDID cmd) (c_contract_version original));
  '(seeded, changed) ← wrap_err "could not seed contract parties and signature fields"
    (SeedPartiesAndSignatureFields linked (GetParties resp));
  Ok (if changed : bool then seeded else linked).

Definition renewal_responsible (localPeer : string) (original : Contract) : Responsible :=
  match c_responsible original with
  | Some r => {| Creator := localPeer; Approvers := Approvers r; Reviewers := Reviewers r;
                 Negotiators := Negotiators r; Counterparty := Counterparty r |}
  | None => {| Creator := localPeer; Approvers := []; Reviewers := []; Negotiators := [];
               Counterparty := EmptyString |}
  end.

Definition Handle (cmd : RenewCmd) : Tx Z :=
  original ← wrap "could not read original contract data" (ContractRepo.ReadDataByDID (OriginalDID cmd));
  _ ← refuse (Unix (UpdatedAt cmd) <? Unix (c_updated_at original))
        (Wrapf "contract %w, please reload" (Sentinel ErrUpdatedElsewhere));
  _ ← refuse (negb (renewableStates (c_state original)))
        (Wrapf "original contract is in state" (Sentinel ErrContractNotRenewable));
  localPeer ← wrap "could not get DID" GetID;
  public_url ← gets (λ e _, env_public_url e);
  let resp := renewal_responsible localPeer original in
  document ← lift (renewal_document public_url cmd original resp);
  let newStartDate := ContractRepo.opt_set (NewStartDate cmd) (c_start_date original) in
  let newExpDate := ContractRepo.opt_set (NewExpDate cmd) (c_exp_date original) in
  let newExpPolicy := ContractRepo.opt_set (NewExpPolicy cmd) (c_exp_policy original) in
  let newExpNoticePeriod :=
    ContractRepo.opt_set (NewExpNoticePeriod cmd) (c_exp_notice_period original) in
  _ ← wrap "could not create renewal contract"
    (ContractRepo.Create (new_contract (DID cmd) localPeer (RenewedBy cmd) Draft ContractRepo.time_zero
       ContractRepo.time_zero (c_name original) (c_description original) document
       (c_template_did original) (c_template_version original) resp));
  _ ← when (negb (bool_decide (newStartDate = None) && bool_decide (newExpDate = None)
                  && bool_decide (newExpPolicy = None) && bool_decide (newExpNoticePeriod = None)))
        (wrap "could not persist renewal term dates"
          (ContractRepo.Update
            {| ContractRepo.u_did := DID cmd; ContractRepo.u_state := None;
               ContractRepo.u_name := None; ContractRepo.u_description := None;
               ContractRepo.u_contract_version := 0; ContractRepo.u_contract_data := None;
               ContractRepo.u_start_date := newStartDate; ContractRepo.u_exp_date := newExpDate;
               ContractRepo.u_exp_policy := newExpPolicy;
               ContractRepo.u_exp_notice_period := newExpNoticePeriod;
               ContractRepo.u_responsible := None |}));
  _ ← createReviewAndApprovalTasks (DID cmd) (RenewedBy cmd) resp;
  _ ← mint_first_round (DID cmd) (RenewedBy cmd) (Negotiators resp);
  _ ← emit "RENEW_CONTRACT" (DID cmd)
    [("renewed_by", JStr (RenewedBy cmd)); ("original_did", JStr (OriginalDID cmd));
     ("original_contract_version", jint (c_contract_version original))];
  mret (c_contract_version original).

End handler.
End Renewer.

(** ** Lemmas: the tasks of a new contract *)

(** One open task of [did] for each holder, in order, and nothing else. *)
Definition tasks_opened (did : string) (holders : list string) (before after : list Task) : Prop :=
  ∃ new, after = before ++ new ∧
    ((λ t, (t_did t, t_holder t, t_state t)) <$> new) = ((λ h, (did, h, TaskOpen)) <$> holders).

Lemma for_each_task_create (rows : Store → list Task) set_rows name msg did created_by holders e s u s' :
  (∀ s g, rows (set_rows g s) = g (rows s)) → (∀ s g, rows (set_next_uuid g s) = rows s) →
  for_each holders (λ h, wrap msg (TaskTable.create set_rows name did TaskOpen h created_by)) e s
    = Ok (u, s') →
  tasks_opened did holders (rows s) (rows s').
Proof.
  intros Hset Huuid. revert s. induction holders as [|h l IH]; intros s.
  - simpl. intros [_ ->]%ret_Ok. exists []. by rewrite app_nil_r.
  - simpl. intros HR. apply bind_Ok in HR as (? & s1 & H1%wrap_Ok & HR).
    apply IH in HR as (new & -> & Hnew). unfold TaskTable.create in H1. run_inv.
    rewrite Hset, Huuid, <-app_assoc. eexists (_ :: new). split; [reflexivity|]. rewrite !fmap_cons. f_equal. exact Hnew.
Qed.

Lemma keeps_createTasks {B} (f : Store → B) did by_ resp :
  (∀ s g, f (set_review_tasks g s) = f s) → (∀ s g, f (set_approval_tasks g s) = f s) →
  (∀ s g, f (set_next_uuid g s) = f s) → keeps f (createReviewAndApprovalTasks did by_ resp).
Proof.
  intros H1 H2 H3. unfold createReviewAndApprovalTasks. keeps_tac; by apply keeps_task_create.
Qed.

Lemma createTasks_Ok did by_ resp e s u s' :
  createReviewAndApprovalTasks did by_ resp e s = Ok (u, s') →
  tasks_opened did (Reviewers resp) (review_tasks s) (review_tasks s') ∧
  tasks_opened did (Approvers resp) (approval_tasks s) (approval_tasks s').
Proof.
  unfold createReviewAndApprovalTasks. intros HR. apply bind_Ok in HR as (u1 & s1 & H1 & H2).
  assert (Ea : approval_tasks s1 = approval_tasks s).
  { eapply keeps_for_each; [|exact H1]. intros h. apply keeps_wrap, keeps_task_create; done. }
  assert (Er : review_tasks s' = review_tasks s1).
  { eapply keeps_for_each; [|exact H2]. intros h. apply keeps_wrap, keeps_task_create; done. }
  rewrite Er, <-Ea. split; eapply for_each_task_create; eauto; done.
Qed.

(** ** Lemmas: the first rows of a contract *)

(** A handler that enters a contract in state [st]: a new row, every other
    contract as it was. *)
Definition enters (did : string) (st : ContractState) (s s' : Store) : Prop :=
  contracts s !! did = None ∧ did ≠ EmptyString ∧ elsewhere did s' = contracts s ∧
  ∃ row, contracts s' !! did = Some row ∧ c_state row = st ∧ c_did row = did.

Lemma keeps_mint_first_round {B} (f : Store → B) did by_ ns :
  (∀ s g, f (set_negotiation_tasks g s) = f s) → (∀ s g, f (set_next_uuid g s) = f s) →
  keeps f (mint_first_round did by_ ns).
Proof.
  intros H1 H2. unfold mint_first_round, mintNegotiationTask. keeps_tac; by apply keeps_nt_Create.
Qed.
#[export] Hint Extern 2 (keeps _ (createReviewAndApprovalTasks _ _ _)) =>
  apply keeps_createTasks; reflexivity : tx.
#[export] Hint Extern 2 (keeps _ (mint_first_round _ _ _)) =>
  apply keeps_mint_first_round; reflexivity : tx.

(** A creation entered the row of [data]; what follows keeps the contracts. *)
Lemma created_enters data e s u s1 s' :
  ContractRepo.Create data e s = Ok (u, s1) → contracts s' = contracts s1 →
  enters (c_did data) (c_state data) s s' ∧
  contracts s' !! c_did data = Some (created_row data (env_now e)).
Proof.
  intros (Hnone & Hne & ->)%Create_Ok E. unfold enters, elsewhere. rewrite E. simpl.
  rewrite delete_insert_id, lookup_insert_eq by done. eauto 10.
Qed.

(** The seeded document and whether seeding changed it. *)
Ltac seeded_pair := match goal with x : json * bool |- _ => destruct x as [? ?] end; run_inv.

Lemma create_enters `{ContractValidation} `{ContractDerivation} cmd e s u s' :
  Creator.Handle cmd e s = Ok (u, s') → enters (Creator.DID cmd) Draft s s'.
Proof.
  unfold Creator.Handle. intros HR. run_inv. seeded_pair. frame contracts.
  match goal with H : ContractRepo.Create _ _ _ = _ |- _ =>
    eapply (created_enters _ _ _ _ _ s') in H; [exact (proj1 H)|framed; reflexivity] end.
Qed.

Lemma renew_enters `{ContractValidation} cmd e s v s' :
  Renewer.Handle cmd e s = Ok (v, s') → enters (Renewer.DID cmd) Draft s s'.
Proof.
  unfold Renewer.Handle. intros HR. run_inv.
  match goal with H : ContractRepo.Create _ _ _ = Ok (_, ?x) |- _ => rename H into HC, x into s1 end.
  match goal with H : emit _ _ _ _ _ = Ok (_, ?x) |- _ => rename x into s' end.
  assert (Hcol : column (λ c, (c_state c, c_did c)) s' = column (λ c, (c_state c, c_did c)) s1 ∧
                 elsewhere (Renewer.DID cmd) s' = elsewhere (Renewer.DID cmd) s1).
  { split; [frame (column (λ c, (c_state c, c_did c)))|frame (elsewhere (Renewer.DID cmd))]; by framed. }
  destruct Hcol as [Hcol Helse].
  eapply (created_enters _ _ _ _ _ s1) in HC as [(Hnone & Hne & He & _) Hrow]; [|done].
  simpl in Hnone, Hne, He, Hrow. unfold enters. rewrite Helse. split_and!; [done..|].
  eapply column_row in Hcol as (row & Hrow' & E); [|exact Hrow]. exists row. by injection E.
Qed.

(** ** Lemmas: renewal *)
Definition renews_link (public_url did : string) (version : Z) : json :=
  JObj (<["@id" := JStr (ResourceIRI public_url "contract" did)]>
    (<["dcs:version" := jint version]> ∅)).

Lemma renewal_document_spec `{ContractValidation} url cmd original resp doc :
  Renewer.renewal_document url cmd original resp = Ok doc →
  Forall unattributed (parties_of doc) ∧
  field "dcs:renewsContract" doc =
    Some (renews_link url (Renewer.OriginalDID cmd) (c_contract_version original)).
Proof.
  unfold Renewer.renewal_document, wrap_err, mbind, result_bind.
  destruct (NormalizeContractDataForPersistence _ _ _) as [normalized|]; [|done].
  destruct (unsignRenewedDocument normalized) as [unsigned|] eqn:Eu; [|done].
  destruct (attachRenewsContractReference _ _ _ _) as [linked|] eqn:El; [|done].
  destruct (SeedPartiesAndSignatureFields _ _) as [[seeded ch]|] eqn:Es; [|done].
  intros [= <-].
  assert (El' : doc_set unsigned "dcs:renewsContract"
     (renews_link url (Renewer.OriginalDID cmd) (c_contract_version original)) = Ok linked).
  { unfold attachRenewsContractReference, mbind, result_bind in El. by destruct (wrap_err _ _). }
  destruct (doc_set_Ok _ _ _ _ El') as (m & -> & ->).
  destruct (unsign_spec _ _ Eu) as (m0 & m1 & -> & [= ->] & Hparties & _); [done|].
  assert (Hp : parties_of (JObj (<["dcs:renewsContract" :=
     renews_link url (Renewer.OriginalDID cmd) (c_contract_version original)]> m1)) =
     map unsign_node (parties_of (JObj m0))).
  { rewrite <-Hparties. unfold parties_of. simpl. by rewrite lookup_insert_ne. }
  assert (Hun : Forall unattributed (map unsign_node (parties_of (JObj m0)))).
  { apply Forall_fmap, Forall_forall. intros x _. apply unsign_node_unattributed. }
  destruct ch.
  - apply Seed_obj in Es as (m' & -> & HP & HK); [|eauto]. rewrite HP, Hp. split.
    + apply Forall_app. split; [done|]. apply Forall_fmap, Forall_forall. intros.
      apply party_node_unattributed.
    + simpl. rewrite HK by done. simpl. by rewrite lookup_insert_eq.
  - apply Seed_unchanged in Es as ->; [|eauto]. rewrite Hp. split; [done|].
    simpl. by rewrite lookup_insert_eq.
Qed.

(** The columns of a renewed contract that its term dates leave alone. *)
Definition renewal_columns (c : Contract) :=
  (c_state c, c_contract_version c, c_origin c, c_contract_data c, c_created_at c, c_responsible c).

(** A renewal makes a new contract and leaves the renewed one, and every other
    contract, as it was.  It is refused unless the original is approved, signed,
    active, terminated or expired and was not changed since it was displayed.  The
    new contract is a DRAFT at version 1 owned by this instance; no party node of
    its document keeps a signature attribution of the previous term, and the
    document links to the original at its version, which the command returns.  The
    creation time it stores is the zero time. *)
Theorem renewal_is_a_fresh_unsigned_draft `{ContractValidation} (cmd : Renewer.RenewCmd) (e : Env)
    (s s' : Store) (v : Z) :
  Renewer.Handle cmd e s = Ok (v, s') →
  ∃ original row doc local,
    contracts s !! Renewer.OriginalDID cmd = Some original ∧ v = c_contract_version original ∧
    effective_state (env_now e) original ∈ [Approved; Signed; Active; Terminated; Expired] ∧
    Unix (c_updated_at original) <= Unix (Renewer.UpdatedAt cmd) ∧
    env_local_peer e = Some local ∧
    contracts s !! Renewer.DID cmd = None ∧ elsewhere (Renewer.DID cmd) s' = contracts s ∧
    contracts s' !! Renewer.DID cmd = Some row ∧
    renewal_columns row =
      (Draft, 1, local, Some doc, ContractRepo.time_zero,
       Some (Renewer.renewal_responsible local original)) ∧
    Forall unattributed (parties_of doc) ∧
    field "dcs:renewsContract" doc =
      Some (renews_link (env_public_url e) (Renewer.OriginalDID cmd) v).
Proof.
  unfold Renewer.Handle. intros HR. run_inv.
  match goal with H : contracts s !! Renewer.OriginalDID cmd = Some ?o |- _ =>
    rename H into Ho, o into original end.
  match goal with H : Renewer.renewal_document _ _ _ _ = Ok ?d |- _ =>
    apply renewal_document_spec in H as [Hun Hlink]; rename d into doc end.
  match goal with H : ContractRepo.Create _ _ _ = Ok (_, ?x) |- _ => rename H into HC, x into s1 end.
  match goal with H : emit _ _ _ _ _ = Ok (_, ?x) |- _ => rename x into s' end.
  assert (Hafter : renewal_columns <$> contracts s' !! Renewer.DID cmd =
                   renewal_columns <$> contracts s1 !! Renewer.DID cmd ∧
                   elsewhere (Renewer.DID cmd) s' = elsewhere (Renewer.DID cmd) s1).
  { split.
    - frame (column renewal_columns).
      rewrite <-!lookup_fmap. change (column renewal_columns s' !! Renewer.DID cmd =
        column renewal_columns s1 !! Renewer.DID cmd). by framed.
    - frame (elsewhere (Renewer.DID cmd)). by framed. }
  destruct Hafter as [Hcol Helse].
  apply Create_Ok in HC as (Hnone & _ & ->). simpl in Hnone, Hcol. rewrite lookup_insert_eq in Hcol.
  destruct (contracts s' !! Renewer.DID cmd) as [row|] eqn:Hrow; [|done]. apply Some_inj in Hcol.
  exists original, row, doc. eexists. bool_to_prop.
  unfold Renewer.renewableStates in *. bool_to_prop.
  split_and!; [done..| |done| |done|done].
  - rewrite Helse. unfold elsewhere. simpl. by apply delete_insert_id.
  - exact Hcol.
Qed.
(** A template repository with one template and a hub with one shape. *)
Definition demo_derivation : ContractDerivation := {|
  ReadContractTemplateDataByID := λ _,
    Ok {| tpl_TemplateData := Some (JObj ∅); tpl_TemplateVersion := 1; tpl_Name := Some "SLA";
          tpl_Description := None |};
  ConvertTemplateDataToContractData := λ d _ _, Ok d;
  ResolveEffectiveBundle :=
    Ok {| ContextVersion := 1; ProfileVersion := 1;
          Shapes := [{| sc_Name := "facis-dcs"; sc_Version := 1 |}]; Libraries := [] |};
  PinSemanticBundle := λ j refs,
    match j with JObj m => Ok (JObj (<["sh:shapesGraph" := JStr (ref_CanonicalShapes refs)]> m)) | _ => Ok j end;
  isAbsoluteRoleURI := λ s, HasPrefix s "https://" |}.

Definition demo_renewal : Renewer.RenewCmd :=
  {| Renewer.DID := "did:c2"; Renewer.OriginalDID := "did:c1"; Renewer.RenewedBy := "Org A";
     Renewer.UpdatedAt := 1785500000000000; Renewer.NewStartDate := None;
     Renewer.NewExpDate := Some 1900000000000000; Renewer.NewExpPolicy := None;
     Renewer.NewExpNoticePeriod := None |}.

(** A signed contract whose party node records who signed. *)
Definition demo_signed : Store :=
  demo_store (demo_contract "did:c1" Signed (JObj
    (<["dcs:parties" := JArr [JObj (<["@id" := JStr "did:web:a.example"]>
       (<["dcs:hasSignatory" := JStr "Alice"]> ∅))]]> ∅))).

Lemma renewal_witness :
  let s' := (run (Renewer.Handle (H := lenient_validation) demo_renewal) demo_env demo_signed).2 in
  contracts s' !! "did:c1" = contracts demo_signed !! "did:c1" ∧
  ∃ row doc, contracts s' !! "did:c2" = Some row ∧ c_contract_data row = Some doc ∧
    Forall unattributed (parties_of doc).
Proof.
  intros s'.
  destruct (renewal_is_a_fresh_unsigned_draft (H := lenient_validation) demo_renewal demo_env
    demo_signed s' 1)
    as (original & row & doc & p & Ho & _ & _ & _ & _ & _ & Helse & Hrow & Hcols & Hun & _).
  - vm_compute. reflexivity.
  - split.
    + rewrite <-Helse. symmetry. unfold elsewhere. by apply lookup_delete_ne.
    + exists row, doc. split; [exact Hrow|]. split; [|exact Hun].
      exact (f_equal (λ x, x.1.1.2) Hcols).
Defined.

(** ** Lemmas: the parent chain *)

(** The locally stored parent of [x], empty when there is none. *)
Definition parent_of (s : Store) (x : string) : string :=
  match contracts s !! x with
  | Some c => extractParentContractDID (c_contract_data c)
  | None => EmptyString
  end.

(** The steps of the chain. *)
Definition parent_step (s : Store) (x y : string) : Prop := y ≠ EmptyString ∧ parent_of s x = y.
Definition ancestor (s : Store) : string → string → Prop := rtc (parent_step s).

Lemma walk_S fuel e s self visited current :
  Updater.walk (S fuel) e s self visited current =
  if bool_decide (current = EmptyString) then Some (Ok ())
  else if bool_decide (current = self)
  then Some (Err (Wrapf "updating would loop the parent chain back to itself"
                    (Sentinel ErrContractHierarchyCycle)))
  else if bool_decide (current ∈ visited) then Some (Ok ())
  else match contracts s !! current with
       | None => Some (Ok ())
       | Some _ => Updater.walk fuel e s self (current :: visited) (parent_of s current)
       end.
Proof.
  simpl. unfold ContractRepo.ReadDataByDID, parent_of.
  destruct (contracts s !! current); [|done]. reflexivity.
Qed.

(** The walk ends: every turn visits another stored contract. *)
Lemma walk_total fuel e s self visited current :
  NoDup visited → (∀ x, x ∈ visited → is_Some (contracts s !! x)) →
  (S (S (size (contracts s))) <= fuel + length visited)%nat →
  is_Some (Updater.walk fuel e s self visited current).
Proof.
  revert visited current. induction fuel as [|fuel IH]; intros visited current HND Hv Hf.
  - exfalso. assert (Hl : (length visited <= size (contracts s))%nat); [|simpl in Hf; lia].
    rewrite <-(size_list_to_set (C := gset string)) by done.
    rewrite <-size_dom. apply subseteq_size. intros x Hx%elem_of_list_to_set.
    apply elem_of_dom. auto.
  - rewrite walk_S. repeat case_bool_decide; eauto.
    destruct (contracts s !! current) eqn:E; [|eauto].
    apply IH.
    + by constructor.
    + intros x [->|Hx]%elem_of_cons; eauto.
    + simpl. lia.
Qed.

Lemma walk_exact fuel e s self visited current r :
  self ≠ EmptyString →
  (∀ v, v ∈ visited → v ≠ self ∧ (parent_of s v ∈ visited ∨ parent_of s v = current)) →
  Updater.walk fuel e s self visited current = Some r →
  (is_ok r = false ↔ current ≠ EmptyString ∧ ancestor s current self) ∧
  (∀ err, r = Err err → errors_Is err ErrContractHierarchyCycle = true).
Proof.
  intros Hself. revert visited current. induction fuel as [|fuel IH]; [done|].
  intros visited current Hv. rewrite walk_S.
  case_bool_decide as H1; [intros [= <-]; split; [split; [done|intros [? _]; done]|done]|].
  case_bool_decide as H2.
  { intros [= <-]. split; [|by intros err [= <-]]. split; [|done]. intros _. split; [done|].
    subst. constructor. }
  case_bool_decide as H3.
  { intros [= <-]. split; [|done]. split; [done|]. intros [_ Ha]. exfalso. clear IH H2 H1.
    assert (Hclosed : ∀ x y, ancestor s x y → x ∈ visited → y ∈ visited).
    { intros x y HR. induction HR as [x|x y z [_ Hxy] _ IH']; [done|]. intros Hx. apply IH'.
      subst y. destruct (Hv x Hx) as [_ [Hp|Hp]]; [done|]. by rewrite Hp. }
    by destruct (Hv self (Hclosed _ _ Ha H3)). }
  destruct (contracts s !! current) as [c|] eqn:E.
  - intros HW. apply IH in HW as [HW HE].
    2:{ intros v [->|Hin]%elem_of_cons; [by eauto|]. destruct (Hv v Hin) as [Hne [Hp|Hp]];
          (split; [done|]); left; [by right|rewrite Hp; left]. }
    split; [|done]. rewrite HW. split.
    + intros [Hne Ha]. split; [done|]. by apply (rtc_l _ current (parent_of s current)).
    + intros [_ Ha]. apply rtc_inv in Ha as [->|(y & [Hy <-] & Ha)]; [done|]. done.
  - intros [= <-]. split; [|done]. split; [done|]. intros [_ Ha]. exfalso.
    apply rtc_inv in Ha as [->|(y & [Hy Hp] & _)]; [done|].
    unfold parent_of in Hp. by rewrite E in Hp.
Qed.

(** C40: The parent-chain check of an update terminates on every store, loops in
    the stored data included, and is exact: it refuses precisely when the chain
    of locally stored parents leads from the proposed parent back to the contract
    itself, and then with the hierarchy-cycle error. *)
Theorem checkNoParentCycle_is_exact (e : Env) (s : Store) (selfDID proposed : string) :
  selfDID ≠ EmptyString → proposed ≠ EmptyString →
  (Updater.checkNoParentCycle selfDID proposed e s = Ok ((), s) ↔ ¬ ancestor s proposed selfDID) ∧
  (ancestor s proposed selfDID →
     ∃ err, Updater.checkNoParentCycle selfDID proposed e s = Err err ∧
       errors_Is err ErrContractHierarchyCycle = true).
Proof.
  intros Hself Hprop. unfold Updater.checkNoParentCycle.
  destruct (walk_total (Updater.walk_fuel s) e s selfDID [] proposed) as [r Hr].
  - constructor.
  - intros x []%elem_of_nil.
  - unfold Updater.walk_fuel. simpl. lia.
  - rewrite Hr. apply walk_exact in Hr as [Hiff Herr]; [|done|intros v []%elem_of_nil].
    destruct r as [[]|err]; simpl in Hiff.
    + split; [|intros Ha; destruct Hiff as [_ Hiff]; exfalso; by discriminate Hiff].
      split; [|done]. intros _ Ha. destruct Hiff as [_ Hiff]. by discriminate Hiff.
    + split; [split; [done|intros Hn; destruct Hn; by apply Hiff]|]. intros _. eauto.
Qed.

(** Two contracts, the second a child of the first. *)
Definition demo_family : Store :=
  set_contracts
    (insert "did:c2" (demo_contract "did:c2" Draft
       (JObj (<["dcs:parentContract" := JObj (<["@id" := JStr "did:c1"]> ∅)]> ∅))))
    (demo_store (demo_contract "did:c1" Draft (JObj ∅))).

Lemma checkNoParentCycle_witness :
  (∃ err, Updater.checkNoParentCycle "did:c1" "did:c2" demo_env demo_family = Err err ∧
    errors_Is err ErrContractHierarchyCycle = true) ∧
  ¬ ancestor demo_family "did:c1" "did:c2".
Proof.
  split.
  - apply (checkNoParentCycle_is_exact demo_env demo_family "did:c1" "did:c2"); [done|done|].
    apply (rtc_l _ _ "did:c1"); [split; [done|vm_compute; reflexivity]|constructor].
  - apply (checkNoParentCycle_is_exact demo_env demo_family "did:c2" "did:c1"); [done|done|].
    vm_compute. reflexivity.
Defined.
