(* ===== verification/Anchors.v ===== *)
(** Semantic Hub anchors: the versioned URLs a document carries
    (internal/base/validation/shapesource.go, declaredlibraries.go), the bundle
    that creation pins into a document and that validation reads back
    (documentdata.go: PinSemanticBundle and its helpers).

    [contextRef] stands for the process-wide anchor
    [currentJSONLDContextRef()]. *)
From S2P Require Import Prelude Json Merkle Document Authoring.
Import GoStrings.

(** ** Text *)

(** The text after the first occurrence of [sub]: [s[strings.Index(s, sub)+len(sub):]]. *)
Fixpoint after_first (sub s : string) : option string :=
  match cut_prefix sub s with
  | Some rest => Some rest
  | None => match s with EmptyString => None | String _ s' => after_first sub s' end
  end.

(** The text before the first byte that satisfies [p]. *)
Fixpoint before_any (p : ascii → bool) (s : string) : string :=
  match s with
  | EmptyString => EmptyString
  | String c s' => if p c then EmptyString else String c (before_any p s')
  end.

Definition is_byte (b c : ascii) : bool := bool_decide (c = b).

(** [url.PathUnescape]. *)
Fixpoint PathUnescape (s : string) : option string :=
  match s with
  | EmptyString => Some EmptyString
  | String c s' =>
      if is_byte "%" c then
        match s' with
        | String a (String b rest) =>
            match hex_nibble a, hex_nibble b with
            | Some h, Some l =>
                String (Ascii.ascii_of_nat (Z.to_nat (16 * h + l))) <$> PathUnescape rest
            | _, _ => None
            end
        | _ => None
        end
      else String c <$> PathUnescape s'
  end.

(** Decimal digits and their value. *)
Definition is_digit (c : ascii) : bool :=
  let n := Ascii.nat_of_ascii c in (48 <=? n)%nat && (n <=? 57)%nat.
Definition digits (s : string) : string := before_any (λ c, negb (is_digit c)) s.
Fixpoint decimal_from (acc : Z) (s : string) : Z :=
  match s with
  | EmptyString => acc
  | String c s' => decimal_from (10 * acc + (Z.of_nat (Ascii.nat_of_ascii c) - 48)) s'
  end.
Definition decimal (s : string) : Z := decimal_from 0 s.

(** ** shapesource.go *)
Definition anchorIRI (value : option json) : string :=
  match value with
  | Some (JStr s) => s
  | Some (JObj m) => as_string (m !! "@id")
  | _ => EmptyString
  end.

Definition hubShapesAnchorPath : string := "/semantic/shapes/".
Definition hubContextAnchorPath : string := "/semantic/context/".

Definition anchorShapesName (iri : string) : option string :=
  match after_first hubShapesAnchorPath iri with
  | None => None
  | Some rest =>
      match PathUnescape (before_any (λ c, is_byte "?" c || is_byte "#" c) rest) with
      | None | Some EmptyString => None
      | Some name => Some name
      end
  end.

(** The group of the leftmost match of [[?&]version=(\d+)]. *)
Fixpoint pinnedVersion (s : string) : option string :=
  match s with
  | EmptyString => None
  | String c s' =>
      let here :=
        if is_byte "?" c || is_byte "&" c then
          match cut_prefix "version=" s' with
          | Some t => if bool_decide (digits t = EmptyString) then None else Some (digits t)
          | None => None
          end
        else None in
      match here with Some ds => Some ds | None => pinnedVersion s' end
  end.

(** [fmt.Sscanf] refuses what a 64-bit int cannot hold. *)
Definition anchorVersion (iri : string) : Z :=
  match pinnedVersion iri with
  | None => 0
  | Some ds => if decimal ds <? 2 ^ 63 then decimal ds else 0
  end.

Record shapesGraphDeclaration := { decl_Name : string; decl_Version : Z; decl_IRI : string }.

(** The hub entry and version an anchor names ([shapesGraphAnchor]). *)
Definition anchor_of (iri : string) : option (string * Z) :=
  name ← anchorShapesName iri; Some (name, anchorVersion iri).

(** The loop [collect]: one declaration per hub entry and version. *)
Fixpoint collect (seen : list (string * Z)) (entries : list json) : list shapesGraphDeclaration :=
  match entries with
  | [] => []
  | entry :: rest =>
      let iri := anchorIRI (Some entry) in
      match anchor_of iri with
      | None => collect seen rest
      | Some anchor =>
          if bool_decide (anchor ∈ seen) then collect seen rest
          else {| decl_Name := anchor.1; decl_Version := anchor.2; decl_IRI := iri |}
               :: collect (anchor :: seen) rest
      end
  end.

Definition declaration_entries (value : option json) : list json :=
  match value with Some (JArr l) => l | Some v => [v] | None => [] end.

Definition declaredShapesGraphDeclarations (value : option json) : list shapesGraphDeclaration :=
  collect [] (declaration_entries value).

Definition declaredShapesGraphs (data : gmap string json) : list (string * Z) :=
  (λ d, (decl_Name d, decl_Version d)) <$> declaredShapesGraphDeclarations (data !! "sh:shapesGraph").

Definition DeclaredShapesGraphs (data : gmap string json) : list (string * Z) := declaredShapesGraphs data.

Definition pinnedHubShapesVersion (contract : gmap string json) (canonicalName : string) : Z :=
  default 0 (snd <$> List.find (λ a, bool_decide (a.1 = canonicalName)) (declaredShapesGraphs contract)).

Definition pinnedHubProfileVersion (contract : gmap string json) : Z :=
  anchorVersion (anchorIRI (contract !! "dcterms:conformsTo")).

Definition effective_ref (item : json) : result (string * Z) :=
  let iri := anchorIRI (Some item) in
  match after_first hubShapesAnchorPath iri with
  | None => Err (Errorf "invalid effective shapes reference")
  | Some rest =>
      if anchorVersion iri <=? 0 then Err (Errorf "invalid effective shapes reference") else
      let name := before_any (is_byte "?") rest in
      if bool_decide (TrimSpace name = EmptyString) then Err (Errorf "invalid effective shapes reference")
      else Ok (name, anchorVersion iri)
  end.

Fixpoint effective_refs (items : list json) : result (list (string * Z)) :=
  match items with
  | [] => Ok []
  | item :: rest => ref ← effective_ref item; refs ← effective_refs rest; Ok (ref :: refs)
  end.

Definition EffectiveShapeRefs (contract : gmap string json) : result (list (string * Z)) :=
  match contract !! "dcs:effectiveShapes" with
  | None => Ok []
  | Some (JArr (item :: items)) => effective_refs (item :: items)
  | Some _ => Err (Errorf "dcs:effectiveShapes must be a non-empty array")
  end.

Definition SchemaJSONLDContextV1 : string := "https://w3id.org/facis/dcs/context/v1".

Section context.
Context (contextRef : string).

Definition isHubContextAnchor (iri : string) : bool :=
  Contains iri hubContextAnchorPath || bool_decide (iri = SchemaJSONLDContextV1) || bool_decide (iri = contextRef).

Fixpoint first_pinned (entries : list json) : Z :=
  match entries with
  | [] => 0
  | JStr url :: rest =>
      if isHubContextAnchor url && (0 <? anchorVersion url) then anchorVersion url else first_pinned rest
  | _ :: rest => first_pinned rest
  end.

Definition pinnedHubContextVersion (contract : gmap string json) : Z :=
  match contract !! "@context" with
  | Some (JStr context) => if isHubContextAnchor context then anchorVersion context else 0
  | Some (JArr entries) => first_pinned entries
  | _ => 0
  end.

Definition external_iri (entry : json) : option string :=
  match entry with JStr iri => if isHubContextAnchor iri then None else Some iri | _ => None end.

Definition externalContextIRIs (data : gmap string json) : list string :=
  match data !! "@context" with
  | Some (JStr context) => omap external_iri [JStr context]
  | Some (JArr entries) => omap external_iri entries
  | _ => []
  end.

(** ** documentdata.go: the pinned bundle *)
Definition ref_node (ref : string) : json := JObj {["@id" := JStr ref]}.

(** [bundleByName]: the last reference of a name wins. *)
Definition bundleByName (activeLibraryRefs : list string) (name : string) : option string :=
  List.find (λ ref, bool_decide (anchorShapesName ref = Some name)) (rev activeLibraryRefs).

Definition library_anchor (canonicalName : string) (activeLibraryRefs : list string)
    (d : shapesGraphDeclaration) : option string :=
  if bool_decide (decl_Name d = canonicalName) then None
  else if decl_Version d <=? 0 then bundleByName activeLibraryRefs (decl_Name d)
  else Some (decl_IRI d).

Definition declaredShapeLibraryAnchors (declared : option json) (canonicalShapesRef : string)
    (activeLibraryRefs : list string) : list string :=
  match anchorShapesName canonicalShapesRef with
  | None => []
  | Some canonicalName =>
      omap (library_anchor canonicalName activeLibraryRefs) (declaredShapesGraphDeclarations declared)
  end.

(** The libraries the envelope does not carry at that exact version. *)
Fixpoint unpinned (pinned : list (string * Z)) (libraries : list string) : list string :=
  match libraries with
  | [] => []
  | library :: rest =>
      match anchor_of library with
      | None => unpinned pinned rest
      | Some anchor =>
          if bool_decide (anchor ∈ pinned) then unpinned pinned rest
          else library :: unpinned (anchor :: pinned) rest
      end
  end.

Definition effectiveShapesBundle (envelopeRefs libraries : list string) : list json :=
  ref_node <$> (envelopeRefs ++ unpinned (omap anchor_of envelopeRefs) libraries).

Definition context_entries (ref : string) (current : option json) : list json :=
  JStr ref ::
  match current with
  | Some (JArr l) => List.filter (λ entry, match entry with JStr iri => negb (isHubContextAnchor iri) | _ => true end) l
  | Some (JObj m) => [JObj m]
  | _ => []
  end.

Definition shapes_graph (canonicalShapesRef : string) (libraries : list string) : json :=
  match libraries with
  | [] => ref_node canonicalShapesRef
  | _ => JArr (ref_node canonicalShapesRef :: (ref_node <$> libraries))
  end.

Definition blank (s : string) : bool := bool_decide (TrimSpace s = EmptyString).

Definition PinSemanticBundle (raw : option json) (refs : semanticBundleRefs) : result json :=
  match raw with
  | None => Err (Errorf "complete semantic bundle references are required")
  | Some doc =>
      if blank (ref_Context refs) || blank (ref_CanonicalShapes refs)
         || bool_decide (ref_Shapes refs = []) || blank (ref_Profile refs)
      then Err (Errorf "complete semantic bundle references are required")
      else
        match Unmarshal_map doc with
        | Err err => Err (Wrapf "decode semantic bundle document" err)
        | Ok data =>
            if bool_decide (doc = JNull) then Err (Panic "assignment to entry in nil map") else
            let libraries := declaredShapeLibraryAnchors (data !! "sh:shapesGraph")
                               (ref_CanonicalShapes refs) (ref_Libraries refs) in
            Ok (JObj (<["dcterms:conformsTo" := ref_node (ref_Profile refs)]>
                     (<["dcs:effectiveShapes" := JArr (effectiveShapesBundle (ref_Shapes refs) libraries)]>
                     (<["sh:shapesGraph" := shapes_graph (ref_CanonicalShapes refs) libraries]>
                     (<["@context" := JArr (context_entries (ref_Context refs) (data !! "@context"))]> data)))))
        end
  end.
End context.

(** ** declaredlibraries.go *)
Definition DeclaredShapeLibraries (raw : option json) : result (list shapesGraphDeclaration) :=
  data ← decodeDocumentData raw;
  Ok (declaredShapesGraphDeclarations (data !! "sh:shapesGraph")).

(** ** Lemmas: text *)
Fixpoint all_chars (p : ascii → bool) (s : string) : bool :=
  match s with EmptyString => true | String c s' => p c && all_chars p s' end.

Lemma all_chars_app p a b : all_chars p (a +:+ b) = all_chars p a && all_chars p b.
Proof. induction a as [|c a IH]; [done|]. cbn. by rewrite <-andb_assoc, <-IH. Qed.

Lemma before_any_all p s : all_chars (λ c, negb (p c)) s = true → before_any p s = s.
Proof.
  induction s as [|c s IH]; [done|]. cbn [all_chars before_any]. intros [Hc%negb_true_iff Hs]%andb_true_iff.
  rewrite Hc. by rewrite IH.
Qed.

Lemma before_any_app p s c t :
  all_chars (λ c, negb (p c)) s = true → p c = true → before_any p (s +:+ String c t) = s.
Proof.
  intros Hs Hc. induction s as [|d s IH]; cbn [all_chars] in Hs.
  - change (before_any p (String c t) = EmptyString). cbn. by rewrite Hc.
  - apply andb_true_iff in Hs as [Hd%negb_true_iff Hs].
    change (before_any p (String d (s +:+ String c t)) = String d s). cbn [before_any]. rewrite Hd.
    f_equal. by apply IH.
Qed.

Lemma cut_prefix_app pre s : cut_prefix pre (pre +:+ s) = Some s.
Proof.
  induction pre as [|c pre IH]; [done|]. change (cut_prefix (String c pre) (String c (pre +:+ s)) = Some s).
  cbn [cut_prefix]. by rewrite bool_decide_eq_true_2.
Qed.

(** A prefix no longer than the first part lies inside it. *)
Lemma cut_prefix_inside pre s t r :
  (String.length pre <= String.length s)%nat → cut_prefix pre (s +:+ t) = Some r → String.prefix pre s = true.
Proof.
  revert s. induction pre as [|c pre IH]; intros [|d s]; try done; [cbn; lia|]. intros Hl.
  change (String d s +:+ t) with (String d (s +:+ t)). cbn [cut_prefix String.prefix].
  case_bool_decide as E; [|done]. subst d. destruct (ascii_dec c c); [|done]. apply IH. cbn in Hl. lia.
Qed.

Fixpoint but_last (s : string) : string :=
  match s with EmptyString | String _ EmptyString => EmptyString | String c s' => String c (but_last s') end.

Lemma length_but_last c s : String.length (String c s) = S (String.length (but_last (String c s))).
Proof. revert c. induction s as [|d s IH]; intros c; [done|]. specialize (IH d). cbn in *. lia. Qed.

Lemma but_last_app c s : ∃ d, String c s = but_last (String c s) +:+ String d EmptyString.
Proof.
  revert c. induction s as [|d s IH]; intros c; [by exists c|]. destruct (IH d) as [x E]. exists x.
  change (String c (String d s) = String c (but_last (String d s) +:+ String x EmptyString)). by rewrite <-E.
Qed.

Lemma app_assoc_string (a b c : string) : a +:+ (b +:+ c) = (a +:+ b) +:+ c.
Proof. induction a as [|x a IH]; [done|]. exact (f_equal (String x) IH). Qed.

Lemma length_app_string (a b : string) : String.length (a +:+ b) = (String.length a + String.length b)%nat.
Proof. induction a as [|x a IH]; [done|]. exact (f_equal S IH). Qed.

(** The marker is found where it was written, when it does not occur before. *)
Lemma after_first_written b c sub r :
  Contains (b +:+ but_last (String c sub)) (String c sub) = false →
  after_first (String c sub) (b +:+ (String c sub +:+ r)) = Some r.
Proof.
  set (m := String c sub). intros H.
  assert (Hm : String.length m = S (String.length (but_last m))) by apply length_but_last.
  destruct (but_last_app c sub) as [d Hd]. fold m in Hd.
  induction b as [|x b IH].
  - change (EmptyString +:+ (m +:+ r)) with (m +:+ r). pose proof (cut_prefix_app m r) as E.
    destruct (m +:+ r) as [|y s] eqn:Es; cbn [after_first]; by rewrite E.
  - change (String x b +:+ but_last m) with (String x (b +:+ but_last m)) in H.
    cbn [Contains] in H. apply orb_false_iff in H as [H1 H2].
    change ((String x b) +:+ (m +:+ r)) with (String x (b +:+ (m +:+ r))). cbn [after_first].
    destruct (cut_prefix m (String x (b +:+ (m +:+ r)))) as [rest|] eqn:E; [|by apply IH].
    exfalso. rewrite Hd in E at 2.
    change (String x (b +:+ ((but_last m +:+ String d EmptyString) +:+ r)))
      with ((String x b) +:+ ((but_last m +:+ String d EmptyString) +:+ r)) in E.
    rewrite <-(app_assoc_string (but_last m)), app_assoc_string in E. apply cut_prefix_inside in E.
    + change (String.prefix m (String x (b +:+ but_last m)) = true) in E. congruence.
    + rewrite length_app_string. change (String.length (String x b)) with (S (String.length b)). lia.
Qed.

Lemma PathUnescape_plain s : all_chars (λ c, negb (is_byte "%" c)) s = true → PathUnescape s = Some s.
Proof.
  induction s as [|c s IH]; [done|]. cbn [all_chars PathUnescape]. intros [Hc%negb_true_iff Hs]%andb_true_iff.
  rewrite Hc. by rewrite IH.
Qed.

(** ** Lemmas: decimal numbers *)
Lemma digit_value x : (x < 10)%N →
  is_digit (pretty_N_char x) = true ∧ Z.of_nat (Ascii.nat_of_ascii (pretty_N_char x)) - 48 = Z.of_N x.
Proof.
  intros Hx.
  assert (x = 0 ∨ x = 1 ∨ x = 2 ∨ x = 3 ∨ x = 4 ∨ x = 5 ∨ x = 6 ∨ x = 7 ∨ x = 8 ∨ x = 9)%N
    as Hcases by lia.
  destruct_or! Hcases; subst; by vm_compute.
Qed.

Lemma decimal_pretty_go x s :
  decimal_from 0 (pretty_N_go x s) = decimal_from (Z.of_N x) s ∧
  (all_chars is_digit s = true → all_chars is_digit (pretty_N_go x s) = true).
Proof.
  revert s. induction (N.lt_wf_0 x) as [x _ IH]. intros s.
  destruct (decide (x = 0)%N) as [->|Hx]; [done|]. rewrite pretty_N_go_step by lia.
  destruct (digit_value (x `mod` 10)) as [Hd Hv]; [by apply N.mod_lt|].
  destruct (IH (x `div` 10)%N ltac:(apply N.div_lt; lia) (String (pretty_N_char (x `mod` 10)) s)) as [H1 H2].
  split.
  - rewrite H1. cbn. rewrite Hv. f_equal.
    pose proof (N.div_mod' x 10) as E. lia.
  - intros Hs. apply H2. cbn. by rewrite Hd.
Qed.

Lemma decimal_pretty v : 0 <= v →
  decimal (pretty v) = v ∧ all_chars is_digit (pretty v) = true ∧ pretty v ≠ EmptyString.
Proof.
  intros Hv. destruct v as [|p|p]; [done| |lia].
  change (pretty (Zpos p)) with (pretty (Npos p)). unfold pretty, pretty_N. cbn [decide].
  destruct (decide (N.pos p = 0)%N); [done|]. destruct (decimal_pretty_go (Npos p) "") as [H1 H2].
  repeat split; [exact H1 | by apply H2|]. intros E. rewrite E in H1. cbn in H1. discriminate H1.
Qed.

Lemma digits_all s : all_chars is_digit s = true → digits s = s.
Proof.
  intros H. apply before_any_all. revert H. induction s as [|c s IH]; [done|]. cbn.
  rewrite negb_involutive. intros [-> Hs]%andb_true_iff. by apply IH.
Qed.

(** ** An anchor reads back *)
Definition hub_base (public_url : string) : string :=
  trim_right (λ c, bool_decide (c = "/"%char)) (TrimSpace public_url).

(** The public URL names no hub path and carries no query. *)
Definition hub_origin (public_url : string) : bool :=
  all_chars (λ c, negb (is_byte "?" c || is_byte "&" c)) (hub_base public_url) &&
  negb (Contains (hub_base public_url +:+ "/semantic/shapes") hubShapesAnchorPath).

(** A name that is written into a URL as it is. *)
Definition hub_name (name : string) : bool :=
  negb (blank name) &&
  all_chars (λ c, negb (is_byte "?" c || is_byte "#" c || is_byte "%" c || is_byte "&" c)) name.

Lemma all_chars_impl (p q : ascii → bool) s :
  (∀ c, p c = true → q c = true) → all_chars p s = true → all_chars q s = true.
Proof.
  intros H. induction s as [|c s IH]; [done|]. cbn [all_chars]. intros [Hc Hs]%andb_true_iff.
  rewrite (H c Hc). by apply IH.
Qed.

Lemma hub_name_chars name b :
  hub_name name = true → b ∈ ["?"; "#"; "%"; "&"]%char → all_chars (λ c, negb (is_byte b c)) name = true.
Proof.
  intros [_ H]%andb_true_iff Hb. revert H. apply all_chars_impl. intros c Hc. bool_to_prop.
  repeat apply elem_of_cons in Hb as [-> | Hb]; try (by apply negb_true_iff); by apply elem_of_nil in Hb.
Qed.

Lemma hub_name_not_empty name : hub_name name = true → blank name = false ∧ name ≠ EmptyString.
Proof.
  intros [H _]%andb_true_iff. apply negb_true_iff in H. split; [done|]. by intros ->.
Qed.

Lemma pinnedVersion_written p ds :
  all_chars (λ c, negb (is_byte "?" c || is_byte "&" c)) p = true → all_chars is_digit ds = true →
  ds ≠ EmptyString → pinnedVersion (p +:+ ("?version=" +:+ ds)) = Some ds.
Proof.
  intros Hp Hd Hne. induction p as [|c p IH].
  - change (pinnedVersion (String "?" ("version=" +:+ ds)) = Some ds). cbn [pinnedVersion].
    change (is_byte "?" "?" || is_byte "&" "?") with true. cbn iota. rewrite cut_prefix_app.
    rewrite digits_all by done. by rewrite bool_decide_eq_false_2.
  - cbn [all_chars] in Hp. apply andb_true_iff in Hp as [Hc%negb_true_iff Hp].
    change (pinnedVersion (String c (p +:+ ("?version=" +:+ ds))) = Some ds). cbn [pinnedVersion].
    rewrite Hc. by apply IH.
Qed.

(** The version of any anchor the hub writes. *)
Lemma anchorVersion_written u kind name v :
  hub_origin u = true → hub_name name = true → 0 <= v < 2 ^ 63 →
  all_chars (λ c, negb (is_byte "?" c || is_byte "&" c)) kind = true →
  anchorVersion (AnchorURL u kind name v) = v.
Proof.
  intros [Hu _]%andb_true_iff Hn [Hv Hb] Hk. destruct (decimal_pretty v Hv) as (Hd & Ha & Hne).
  unfold anchorVersion. replace (AnchorURL u kind name v) with
    ((hub_base u +:+ ("/semantic/" +:+ (kind +:+ ("/" +:+ name)))) +:+ ("?version=" +:+ pretty v)).
  - rewrite pinnedVersion_written; [|rewrite !all_chars_app, Hu, Hk| done..].
    + rewrite Hd. by apply Z.ltb_lt in Hb as ->.
    + cbn. apply andb_true_iff in Hn as [_ Hn]. revert Hn. apply all_chars_impl.
      intros c Hc. by destruct (is_byte "?" c), (is_byte "#" c), (is_byte "%" c), (is_byte "&" c).
  - unfold AnchorURL. rewrite <-!app_assoc_string. reflexivity.
Qed.

(** The text after the marker of a shapes anchor. *)
Lemma shapes_anchor_rest u name v : hub_origin u = true →
  after_first hubShapesAnchorPath (AnchorURL u "shapes" name v) = Some (name +:+ ("?version=" +:+ pretty v)).
Proof.
  intros [_ Hu%negb_true_iff]%andb_true_iff.
  change (AnchorURL u "shapes" name v) with
    (hub_base u +:+ (hubShapesAnchorPath +:+ (name +:+ ("?version=" +:+ pretty v)))).
  by apply after_first_written.
Qed.

Lemma anchorShapesName_written u name v :
  hub_origin u = true → hub_name name = true → anchorShapesName (AnchorURL u "shapes" name v) = Some name.
Proof.
  intros Hu Hn. unfold anchorShapesName. rewrite shapes_anchor_rest by done.
  change ("?version=" +:+ pretty v) with (String "?" ("version=" +:+ pretty v)).
  rewrite before_any_app; [|revert Hn; intros [_ Hn]%andb_true_iff; revert Hn; apply all_chars_impl|done].
  - rewrite PathUnescape_plain by (apply hub_name_chars; [done|set_solver]).
    destruct (hub_name_not_empty _ Hn) as [_ Hne]. by destruct name.
  - intros c Hc. by destruct (is_byte "?" c), (is_byte "#" c), (is_byte "%" c), (is_byte "&" c).
Qed.

Lemma effective_ref_written u name v :
  hub_origin u = true → hub_name name = true → 0 < v < 2 ^ 63 →
  effective_ref (ref_node (AnchorURL u "shapes" name v)) = Ok (name, v).
Proof.
  intros Hu Hn Hv. unfold effective_ref.
  change (anchorIRI (Some (ref_node ?x))) with x.
  rewrite shapes_anchor_rest, anchorVersion_written by (done || lia).
  destruct (v <=? 0) eqn:E; [bool_to_prop; lia|].
  change ("?version=" +:+ pretty v) with (String "?" ("version=" +:+ pretty v)).
  rewrite before_any_app by (done || (apply hub_name_chars; [done|set_solver])).
  destruct (hub_name_not_empty _ Hn) as [Hb _]. unfold blank in Hb. by rewrite Hb.
Qed.

(** ** The pinned bundle *)

(** A declared anchor whose name the two readers spell alike. *)
Definition plain_anchor (iri : string) : bool :=
  match after_first hubShapesAnchorPath iri with
  | Some rest =>
      let name := before_any (is_byte "?") rest in
      negb (blank name) && all_chars (λ c, negb (is_byte "#" c || is_byte "%" c)) name
  | None => true
  end.

Lemma before_any_twice (p q : ascii → bool) s :
  all_chars (λ c, negb (q c)) (before_any p s) = true → before_any (λ c, p c || q c) s = before_any p s.
Proof.
  induction s as [|c s IH]; [done|]. cbn [before_any]. destruct (p c) eqn:Ep; [done|]. cbn [all_chars orb].
  intros [Hq%negb_true_iff Hs]%andb_true_iff. rewrite Hq. f_equal. by apply IH.
Qed.

Lemma anchor_of_effective iri name v :
  plain_anchor iri = true → anchor_of iri = Some (name, v) → 0 < v → effective_ref (ref_node iri) = Ok (name, v).
Proof.
  unfold plain_anchor, anchor_of, anchorShapesName, effective_ref.
  change (anchorIRI (Some (ref_node iri))) with iri.
  destruct (after_first hubShapesAnchorPath iri) as [rest|]; [|done].
  intros [Hb%negb_true_iff Hc]%andb_true_iff. rewrite (before_any_twice (is_byte "?") (is_byte "#")).
  - rewrite PathUnescape_plain.
    + unfold blank in Hb. rewrite Hb. destruct (before_any _ _) as [|c n]; [done|].
      intros [= <- <-] Hv. destruct (_ <=? 0) eqn:E; [bool_to_prop; lia|done].
    + revert Hc. apply all_chars_impl. intros c. by destruct (is_byte "#" c), (is_byte "%" c).
  - revert Hc. apply all_chars_impl. intros c. by destruct (is_byte "#" c), (is_byte "%" c).
Qed.

Lemma collect_sound seen entries d :
  d ∈ collect seen entries →
  ∃ e, e ∈ entries ∧ decl_IRI d = anchorIRI (Some e) ∧ anchor_of (decl_IRI d) = Some (decl_Name d, decl_Version d).
Proof.
  revert seen. induction entries as [|e entries IH]; intros seen; [by intros []%elem_of_nil|]. cbn [collect].
  destruct (anchor_of (anchorIRI (Some e))) as [[n v]|] eqn:E.
  - case_bool_decide; [intros (x & Hx & ?)%IH; exists x; by rewrite elem_of_cons; auto|].
    rewrite elem_of_cons. intros [-> | (x & Hx & ?)%IH]; [exists e; by rewrite elem_of_cons; auto|].
    exists x. by rewrite elem_of_cons; auto.
  - intros (x & Hx & ?)%IH. exists x. by rewrite elem_of_cons; auto.
Qed.

Lemma unpinned_covers pinned libraries l a :
  l ∈ libraries → anchor_of l = Some a → a ∈ pinned ∨ ∃ l', l' ∈ unpinned pinned libraries ∧ anchor_of l' = Some a.
Proof.
  revert pinned. induction libraries as [|x libraries IH]; intros pinned; [by intros []%elem_of_nil|].
  cbn [unpinned]. rewrite elem_of_cons. intros [<- | Hl] Ha.
  - rewrite Ha. case_bool_decide; [by left|]. right. exists l. by rewrite elem_of_cons; auto.
  - destruct (anchor_of x) as [b|] eqn:Eb; [|by apply IH].
    case_bool_decide as Hb; [by apply IH|]. destruct (IH (b :: pinned) Hl Ha) as [Hin | (l' & Hl' & ?)].
    + apply elem_of_cons in Hin as [-> | Hin]; [|by left]. right. exists x. by rewrite elem_of_cons; auto.
    + right. exists l'. by rewrite elem_of_cons; auto.
Qed.

Lemma unpinned_sub pinned libraries l : l ∈ unpinned pinned libraries → l ∈ libraries ∧ is_Some (anchor_of l).
Proof.
  revert pinned. induction libraries as [|x libraries IH]; intros pinned; [by intros []%elem_of_nil|].
  cbn [unpinned]. rewrite elem_of_cons. destruct (anchor_of x) as [b|] eqn:Eb; [|intros []%IH; auto].
  case_bool_decide; [intros []%IH; auto|]. rewrite elem_of_cons. intros [-> | []%IH]; eauto.
Qed.

Lemma effective_refs_ok iris (readable : ∀ iri, iri ∈ iris → ∃ a, anchor_of iri = Some a ∧ effective_ref (ref_node iri) = Ok a) :
  effective_refs (ref_node <$> iris) = Ok (omap anchor_of iris).
Proof.
  induction iris as [|iri iris IH]; [done|]. destruct (readable iri) as (a & Ha & He); [by left|].
  rewrite fmap_cons. cbn [effective_refs omap list_omap]. rewrite He, Ha. cbn [mbind result_bind].
  rewrite IH; [done|]. intros x Hx. apply readable. by right.
Qed.

(** A bundle whose entries the hub can write into a URL. *)
Definition entry_ok (e : Schema) : Prop := hub_name (sc_Name e) = true ∧ 0 < sc_Version e < 2 ^ 63.
Definition bundle_ok (b : EffectiveBundle) : Prop :=
  Forall entry_ok (Shapes b) ∧ Forall entry_ok (Libraries b) ∧
  ContextVersion b < 2 ^ 63 ∧ ProfileVersion b < 2 ^ 63.

Definition entry_anchor (e : Schema) : string * Z := (sc_Name e, sc_Version e).

Lemma shapeAnchors_eq u entries anchors :
  shapeAnchors u entries = Ok anchors → anchors = (λ e, AnchorURL u "shapes" (sc_Name e) (sc_Version e)) <$> entries.
Proof.
  revert anchors. induction entries as [|e entries IH]; intros anchors; cbn [shapeAnchors]; [by intros [= <-]|].
  case_match; [done|]. destruct (shapeAnchors u entries) as [l|] eqn:E; [|done].
  cbn. intros [= <-]. by rewrite (IH l eq_refl).
Qed.

Lemma entry_anchor_of u e : hub_origin u = true → entry_ok e →
  anchor_of (AnchorURL u "shapes" (sc_Name e) (sc_Version e)) = Some (entry_anchor e).
Proof.
  intros Hu [Hn Hv]. unfold anchor_of. rewrite anchorShapesName_written by done. cbn [mbind option_bind].
  by rewrite anchorVersion_written by (done || lia).
Qed.

Lemma entries_anchor_of u entries : hub_origin u = true → Forall entry_ok entries →
  omap anchor_of ((λ e, AnchorURL u "shapes" (sc_Name e) (sc_Version e)) <$> entries) = entry_anchor <$> entries.
Proof.
  intros Hu. induction 1 as [|e entries He _ IH]; [done|]. rewrite !fmap_cons. cbn [omap list_omap].
  rewrite entry_anchor_of by done. by f_equal.
Qed.

Section pinned.
Context (contextRef : string).

(** What pinning writes, spelled out. *)
Lemma PinSemanticBundle_Ok doc refs data' :
  PinSemanticBundle contextRef (Some doc) refs = Ok (JObj data') →
  ∃ data, doc = JObj data ∧
    let libraries := declaredShapeLibraryAnchors (data !! "sh:shapesGraph") (ref_CanonicalShapes refs) (ref_Libraries refs) in
    data' !! "dcterms:conformsTo" = Some (ref_node (ref_Profile refs)) ∧
    data' !! "dcs:effectiveShapes" = Some (JArr (effectiveShapesBundle (ref_Shapes refs) libraries)) ∧
    data' !! "sh:shapesGraph" = Some (shapes_graph (ref_CanonicalShapes refs) libraries) ∧
    data' !! "@context" = Some (JArr (context_entries contextRef (ref_Context refs) (data !! "@context"))).
Proof.
  unfold PinSemanticBundle. case_match; [done|]. destruct doc; try done. cbn [Unmarshal_map].
  rewrite bool_decide_eq_false_2 by done. intros [= <-]. eexists. split; [done|].
  cbv zeta. by simplify_map_eq.
Qed.
End pinned.

Lemma prefix_app m r : String.prefix m (m +:+ r) = true.
Proof.
  induction m as [|c m IH]; [by destruct r|]. change (String.prefix (String c m) (String c (m +:+ r)) = true).
  cbn [String.prefix]. by destruct (ascii_dec c c).
Qed.

Lemma Contains_written b m r : Contains (b +:+ (m +:+ r)) m = true.
Proof.
  induction b as [|c b IH].
  - change (Contains (m +:+ r) m = true). pose proof (prefix_app m r) as H.
    destruct (m +:+ r); cbn [Contains]; by rewrite H.
  - change (Contains (String c (b +:+ (m +:+ r))) m = true). cbn [Contains]. by rewrite IH, orb_true_r.
Qed.

Lemma effectiveBundleRefs_Ok u b refs :
  effectiveBundleRefs u b = Ok refs →
  ∃ canonical rest, Shapes b = canonical :: rest ∧ sc_Name canonical = "facis-dcs" ∧
    0 < ContextVersion b ∧ 0 < ProfileVersion b ∧
    ref_Context refs = AnchorURL u "context" "facis-dcs" (ContextVersion b) ∧
    ref_Profile refs = AnchorURL u "profile" "facis.sla.basic" (ProfileVersion b) ∧
    ref_CanonicalShapes refs = AnchorURL u "shapes" (sc_Name canonical) (sc_Version canonical) ∧
    ref_Shapes refs = (λ e, AnchorURL u "shapes" (sc_Name e) (sc_Version e)) <$> Shapes b ∧
    ref_Libraries refs = (λ e, AnchorURL u "shapes" (sc_Name e) (sc_Version e)) <$> Libraries b.
Proof.
  unfold effectiveBundleRefs. destruct (Shapes b) as [|canonical rest]; [done|].
  case_match eqn:E1; [done|]. case_match eqn:E2; [done|]. bool_to_prop.
  destruct (shapeAnchors u (canonical :: rest)) as [es|] eqn:Ee; [|done].
  destruct (shapeAnchors u (Libraries b)) as [ls|] eqn:El; [|done]. cbn [mbind result_bind].
  intros [= <-]. apply shapeAnchors_eq in Ee as ->, El as ->. by exists canonical, rest.
Qed.

(** Every library a pin keeps reads the same as a declaration and as an
    effective reference. *)
Lemma kept_library_reads u b canonical declared l :
  hub_origin u = true → Forall entry_ok (Libraries b) →
  (∀ d, d ∈ declaredShapesGraphDeclarations declared → plain_anchor (decl_IRI d) = true) →
  l ∈ declaredShapeLibraryAnchors declared canonical
        ((λ e, AnchorURL u "shapes" (sc_Name e) (sc_Version e)) <$> Libraries b) →
  ∃ a, anchor_of l = Some a ∧ effective_ref (ref_node l) = Ok a.
Proof.
  intros Hu Hb Hplain. unfold declaredShapeLibraryAnchors.
  destruct (anchorShapesName canonical) as [name|]; [|by intros []%elem_of_nil].
  intros (d & Hd & Hl)%list_elem_of_omap. unfold library_anchor in Hl.
  case_bool_decide; [done|]. pose proof (collect_sound _ _ _ Hd) as (e & _ & _ & Ha).
  case_match; simplify_eq.
  - apply find_some in Hl as [Hin _]. apply in_rev, list_elem_of_In, list_elem_of_fmap in Hin as (x & -> & Hx).
    rewrite Forall_forall in Hb. specialize (Hb x Hx). exists (entry_anchor x).
    split; [by apply entry_anchor_of|]. destruct Hb as [Hn Hv]. by apply effective_ref_written.
  - exists (decl_Name d, decl_Version d). split; [done|]. apply anchor_of_effective; [by apply Hplain|done|].
    bool_to_prop. lia.
Qed.

Lemma elem_of_DeclaredShapesGraphs data canonical libraries a :
  data !! "sh:shapesGraph" = Some (shapes_graph canonical libraries) →
  a ∈ DeclaredShapesGraphs data → ∃ iri, iri ∈ canonical :: libraries ∧ anchor_of iri = Some a.
Proof.
  intros E. unfold DeclaredShapesGraphs, declaredShapesGraphs, declaredShapesGraphDeclarations. rewrite E.
  intros (d & -> & Hd)%list_elem_of_fmap. apply collect_sound in Hd as (e & He & Hiri & Ha).
  rewrite Hiri in Ha. exists (anchorIRI (Some e)). split; [|done].
  assert (declaration_entries (Some (shapes_graph canonical libraries)) = ref_node <$> (canonical :: libraries)) as E'
    by (destruct libraries; reflexivity).
  rewrite E' in He. apply list_elem_of_fmap in He as (x & -> & Hx). exact Hx.
Qed.

(** what creation pins into a document is what validation reads out of it:
    the context, profile and canonical shapes versions of the bundle, the
    envelope graphs first among the effective shapes, and no graph that is
    declared without being in the effective bundle. *)
Theorem pinned_bundle_reads_back contextRef u bundle refs data pinned :
  hub_origin u = true → bundle_ok bundle → effectiveBundleRefs u bundle = Ok refs →
  (∀ d, d ∈ declaredShapesGraphDeclarations (data !! "sh:shapesGraph") → plain_anchor (decl_IRI d) = true) →
  PinSemanticBundle contextRef (Some (JObj data)) refs = Ok (JObj pinned) →
  pinnedHubContextVersion contextRef pinned = ContextVersion bundle ∧
  pinnedHubProfileVersion pinned = ProfileVersion bundle ∧
  Some (pinnedHubShapesVersion pinned "facis-dcs") = sc_Version <$> head (Shapes bundle) ∧
  ∃ libraries,
    EffectiveShapeRefs pinned = Ok ((entry_anchor <$> Shapes bundle) ++ libraries) ∧
    ∀ a, a ∈ DeclaredShapesGraphs pinned → a ∈ (entry_anchor <$> Shapes bundle) ++ libraries.
Proof.
  intros Hu (Hshapes & Hlibs & Hcv & Hpv) Hrefs Hplain Hpin.
  apply effectiveBundleRefs_Ok in Hrefs as (canonical & rest & Esh & Hname & Hc & Hp & Ectx & Eprof & Ecan & Eshapes & Elib).
  apply PinSemanticBundle_Ok in Hpin as (data0 & [= <-] & Hprof & Heff & Hgraph & Hcontext).
  assert (entry_ok canonical) as [Hcn Hcver] by (rewrite Esh in Hshapes; by inversion Hshapes).
  rewrite Elib, Ecan in *. set (libs := declaredShapeLibraryAnchors _ _ _) in *.
  assert (Hkept : ∀ l, l ∈ libs → ∃ a, anchor_of l = Some a ∧ effective_ref (ref_node l) = Ok a)
    by (intros l; by apply kept_library_reads).
  split_and!.
  - unfold pinnedHubContextVersion. rewrite Hcontext, Ectx. cbn [context_entries first_pinned].
    unfold isHubContextAnchor. rewrite anchorVersion_written by (done || lia).
    replace (Contains _ hubContextAnchorPath) with true
      by (symmetry; exact (Contains_written (hub_base u) hubContextAnchorPath
            ("facis-dcs" +:+ ("?version=" +:+ pretty (ContextVersion bundle))))).
    cbn [orb].
    by destruct (0 <? ContextVersion bundle) eqn:E; [|bool_to_prop; lia].
  - unfold pinnedHubProfileVersion. rewrite Hprof, Eprof. by apply anchorVersion_written; [done..|lia|].
  - unfold pinnedHubShapesVersion, declaredShapesGraphs, declaredShapesGraphDeclarations.
    rewrite Hgraph, Esh. replace (declaration_entries _) with (ref_node <$> (AnchorURL u "shapes" (sc_Name canonical) (sc_Version canonical) :: libs))
      by (by destruct libs).
    rewrite fmap_cons. cbn [collect]. change (anchorIRI (Some (ref_node ?x))) with x.
    rewrite entry_anchor_of by done. rewrite bool_decide_eq_false_2 by apply not_elem_of_nil.
    rewrite fmap_cons. cbn [List.find entry_anchor fst snd decl_Name decl_Version].
    by rewrite Hname, bool_decide_eq_true_2.
  - set (extra := unpinned (entry_anchor <$> Shapes bundle) libs).
    exists (omap anchor_of extra). split.
    + unfold EffectiveShapeRefs. rewrite Heff. unfold effectiveShapesBundle.
      rewrite Eshapes, entries_anchor_of by done. fold extra.
      rewrite <-(entries_anchor_of u) by done. rewrite <-omap_app, <-effective_refs_ok.
      * by rewrite Esh.
      * intros iri [(e & -> & He)%list_elem_of_fmap | Hin]%elem_of_app; [|apply unpinned_sub in Hin as [Hin _]; auto].
        rewrite Forall_forall in Hshapes. specialize (Hshapes e He). exists (entry_anchor e).
        split; [by apply entry_anchor_of|]. destruct Hshapes. by apply effective_ref_written.
    + intros a Ha. eapply elem_of_DeclaredShapesGraphs in Ha as (iri & [-> | Hin]%elem_of_cons & Ha); [| |exact Hgraph].
      * rewrite entry_anchor_of in Ha by done. simplify_eq. rewrite Esh. apply elem_of_app. left. left.
      * destruct (unpinned_covers (entry_anchor <$> Shapes bundle) libs iri a Hin Ha) as [Hp' | (l & Hl & Hla)].
        -- by apply elem_of_app; left.
        -- apply elem_of_app. right. apply list_elem_of_omap. eauto.
Qed.

(** ** Concrete runs *)
Definition demo_bundle : EffectiveBundle :=
  {| ContextVersion := 4; ProfileVersion := 2;
     Shapes := [{| sc_Name := "facis-dcs"; sc_Version := 12 |}; {| sc_Name := "clause-catalog"; sc_Version := 3 |}];
     Libraries := [{| sc_Name := "hosting"; sc_Version := 7 |}] |}.

Definition demo_refs : semanticBundleRefs :=
  match effectiveBundleRefs "https://a.example/" demo_bundle with
  | Ok refs => refs
  | Err _ => {| ref_Context := EmptyString; ref_CanonicalShapes := EmptyString; ref_Shapes := [];
                ref_Libraries := []; ref_Profile := EmptyString |}
  end.

(** A federated document: one library pinned by its author, one without a
    version, which this hub has active. *)
Definition demo_document (library : string) : gmap string json :=
  {["sh:shapesGraph" := JArr [ref_node library; ref_node "/semantic/shapes/hosting"]]}.

Definition demo_pinned (library : string) : gmap string json :=
  match PinSemanticBundle SchemaJSONLDContextV1 (Some (JObj (demo_document library))) demo_refs with
  | Ok (JObj m) => m
  | _ => ∅
  end.

Definition gaia_library : string := "https://b.example/semantic/shapes/gaia?version=5".

Lemma pinned_bundle_witness :
  EffectiveShapeRefs (demo_pinned gaia_library) =
    Ok [("facis-dcs", 12); ("clause-catalog", 3); ("gaia", 5); ("hosting", 7)] ∧
  pinnedHubContextVersion SchemaJSONLDContextV1 (demo_pinned gaia_library) = 4.
Proof.
  split; [by vm_compute|].
  apply (pinned_bundle_reads_back SchemaJSONLDContextV1 "https://a.example/" demo_bundle demo_refs
           (demo_document gaia_library) (demo_pinned gaia_library)).
  - by vm_compute.
  - repeat split; repeat constructor; by vm_compute.
  - by vm_compute.
  - apply Forall_forall. vm_compute. repeat constructor.
  - by vm_compute.
Defined.

(** The two readers of a pinned document part ways on a library whose name is
    percent-encoded: the declaration is decoded, the effective reference is not. *)
Example an_escaped_library_splits_the_pin :
  ("gaia-x", 5) ∈ DeclaredShapesGraphs (demo_pinned "https://b.example/semantic/shapes/gaia%2Dx?version=5") ∧
  EffectiveShapeRefs (demo_pinned "https://b.example/semantic/shapes/gaia%2Dx?version=5") =
    Ok [("facis-dcs", 12); ("clause-catalog", 3); ("gaia%2Dx", 5); ("hosting", 7)].
Proof. split; [apply list_elem_of_In; vm_compute; tauto | by vm_compute]. Qed.
