(* ===== verification/Policies.v ===== *)
(** The policy part of a document: the ODRL shape rules and the constraint trees of
    internal/base/validation/documentdata.go.

    A policy is one enclosing odrl:Offer or odrl:Agreement whose rules sit in bucket
    properties; a rule's constraints and duties nest.  The recursive walks follow a
    property of a node: they are written over the images of the node's fields, and
    each has its equation in the form of the source. *)
From S2P Require Import Prelude Json.
Import GoStrings.

(** ** Helpers *)

(** The text after the last [:], if there is one. *)
Fixpoint after_last_colon (s : string) : option string :=
  match s with
  | EmptyString => None
  | String c s' =>
      match after_last_colon s' with
      | Some t => Some t
      | None => if bool_decide (c = ":"%char) then Some s' else None
      end
  end.

Definition compactTerm (value : string) : string :=
  match after_last_colon value with
  | Some t => if bool_decide (t = EmptyString) then value else t
  | None => value
  end.

(** Printed maps come in the order of their keys. *)
Definition key_le (a b : string * string) : Prop := String.leb a.1 b.1 = true.
#[export] Instance key_le_dec a b : Decision (key_le a b).
Proof. unfold key_le. apply _. Defined.

(** [fmt.Sprint] of a decoded value; a number as its literal, which no term equals
    in either form. *)
Fixpoint Sprint (v : json) : string :=
  match v with
  | JNull => "<nil>"
  | JBool b => if b then "true" else "false"
  | JNum lit => lit
  | JStr s => s
  | JArr items => String.append "[" (String.append (String.concat " " (map Sprint items)) "]")
  | JObj fields =>
      let field (kv : string * string) := String.append kv.1 (String.append ":" kv.2) in
      String.append "map[" (String.append
        (String.concat " " (map field (merge_sort key_le (map_to_list (Sprint <$> fields))))) "]")
  end.

(** [compactTerm(fmt.Sprint(node["@type"]))]. *)
Definition type_term (node : gmap string json) : string := compactTerm (Sprint (default JNull (node !! "@type"))).

Definition jsonLDList (value : option json) : option (list json) :=
  match value with
  | Some (JObj container) => match container !! "@list" with Some (JArr items) => Some items | _ => None end
  | _ => None
  end.

(** A property written as an [@list] or as a plain array. *)
Definition list_or_array (value : option json) : option (list json) :=
  match jsonLDList value with
  | Some items => Some items
  | None => match value with Some (JArr items) => Some items | _ => None end
  end.

Definition stringMapValue (values : gmap string json) (key : string) : string := as_string (values !! key).

Definition blank (s : string) : bool := bool_decide (TrimSpace s = EmptyString).

(** A loop that stops at the first error. *)
Fixpoint first_error (checks : list (result ())) : result () :=
  match checks with [] => Ok () | c :: rest => _ ← c; first_error rest end.

Definition objects_of (items : list json) : list (gmap string json) := omap (λ i, as_object (Some i)) items.

Definition policyConstraints (raw : option json) : list (gmap string json) :=
  match raw with
  | Some (JArr items) => objects_of items
  | Some (JObj constraint) => [constraint]
  | _ => []
  end.

(** ** Constraint trees *)
Definition logicalKeys : list string :=
  ["odrl:and"; "and"; "odrl:or"; "or"; "odrl:xone"; "xone"; "odrl:andSequence"; "andSequence"].

Definition logical_key (constraint : gmap string json) : option string :=
  List.find (λ key, bool_decide (is_Some (constraint !! key))) logicalKeys.

(** The leaves of a node; of anything but an object, none. *)
Fixpoint leaves (node : json) : list (gmap string json) :=
  match node with
  | JObj constraint =>
      match logical_key constraint with
      | None => [constraint]
      | Some key =>
          default [] (((λ raw, match raw with
                               | JArr items => concat (map leaves items)
                               | _ => leaves raw
                               end) <$> constraint) !! key)
      end
  | _ => []
  end.

Definition compactConstraintLeaves (constraint : gmap string json) : list (gmap string json) := leaves (JObj constraint).

Fixpoint dutyConstraints (raw : json) : list (gmap string json) :=
  let of_duty (duty : gmap string json) :=
    policyConstraints (duty !! "odrl:constraint") ++ default [] ((dutyConstraints <$> duty) !! "odrl:consequence") in
  match raw with
  | JArr items => concat (map (λ item, match item with JObj duty => of_duty duty | _ => [] end) items)
  | JObj duty => of_duty duty
  | _ => []
  end.

(** ** Rules *)
Definition odrlRuleBucketKeys : list string := ["odrl:permission"; "odrl:prohibition"; "odrl:obligation"].

Definition collectODRLSetRules (set : gmap string json) : list (gmap string json) :=
  concat (map (λ key, policyConstraints (set !! key)) odrlRuleBucketKeys).

Definition collectODRLPolicyRules (policies : option json) : list (gmap string json) :=
  match policies with Some (JObj set) => collectODRLSetRules set | _ => [] end.

(** A rule's action: present, and not an empty array. *)
Definition action_shape (what : string) (node : gmap string json) : result () :=
  match node !! "odrl:action" with
  | None => Err (Errorf (String.append what " is missing odrl:action"))
  | Some (JArr []) => Err (Errorf (String.append what " must declare at least one odrl:action"))
  | Some _ => Ok ()
  end.

Definition prose_shape (what : string) (node : gmap string json) : result () :=
  if blank (node_id (default JNull (node !! "dcs:prose")))
  then Err (Errorf (String.append what " is missing dcs:prose")) else Ok ().

Fixpoint validateODRLDutyFragment (node : json) : result () :=
  let validate_all (raw : json) :=
    match raw with
    | JArr items => first_error (map (λ item, match item with JObj _ => validateODRLDutyFragment item | _ => Ok () end) items)
    | JObj _ => validateODRLDutyFragment raw
    | _ => Ok ()
    end in
  match node with
  | JObj duty =>
      let t := type_term duty in
      if negb (bool_decide (t = EmptyString)) && negb (bool_decide (t = "Duty"))
      then Err (Errorf "a duty must be an odrl:Duty")
      else
        _ ← action_shape "duty" duty;
        _ ← prose_shape "duty" duty;
        wrap_err "odrl:consequence" (default (Ok ()) ((validate_all <$> duty) !! "odrl:consequence"))
  | _ => Ok ()
  end.

Definition rule_types : list string := ["Duty"; "Permission"; "Prohibition"].

Definition validateODRLRuleShape (rule : gmap string json) : result () :=
  if negb (bool_decide (type_term rule ∈ rule_types)) then Err (Errorf "unsupported rule @type") else
  _ ← action_shape "rule" rule;
  _ ← first_error (map (λ key, if bool_decide (is_Some (rule !! key)) then Ok ()
                               else Err (Errorf (String.append "rule is missing " key)))
                     ["odrl:assigner"; "odrl:assignee"; "odrl:target"]);
  _ ← prose_shape "rule" rule;
  match rule !! "odrl:duty" with
  | None => Ok ()
  | Some rawDuty =>
      if negb (bool_decide (type_term rule = "Permission"))
      then Err (Errorf "odrl:duty may only be attached to a Permission")
      else wrap_err "odrl:duty" (first_error (map (λ duty, validateODRLDutyFragment (JObj duty)) (policyConstraints (Some rawDuty))))
  end.

Definition validateODRLPolicySet (set : gmap string json) (policyTypes : list string) : result () :=
  if negb (bool_decide (type_term set ∈ policyTypes)) then Err (Errorf "dcs:policies enclosing node @type")
  else if bool_decide (is_Some (set !! "odrl:duty")) then Err (Errorf "odrl:duty is not a policy-level property in ODRL 2.2")
  else if bool_decide (is_Some (set !! "uid")) then Err (Errorf "the policy's identity is its @id")
  else if blank (as_string (set !! "@id")) then Err (Errorf "dcs:policies requires an @id (its odrl:uid)")
  else if bool_decide (set !! "odrl:profile" = None) then Err (Errorf "dcs:policies must declare odrl:profile")
  else wrap_err "dcs:policies rule" (first_error (map validateODRLRuleShape (collectODRLSetRules set))).

Definition validateODRLPoliciesShape (policies : json) (policyTypes : list string) : result () :=
  match policies with
  | JArr [] => Ok ()
  | JArr _ => Err (Errorf "dcs:policies is a bare rule array")
  | JObj typed => validateODRLPolicySet typed policyTypes
  | _ => Err (Errorf "dcs:policies must be an object (or an empty array)")
  end.

(** [odrlContextOperandIRIs], without the common prefix. *)
Definition odrlContextOperands : list string :=
  ["absolutePosition"; "absoluteSpatialPosition"; "absoluteTemporalPosition"; "absoluteSize"; "count"; "dateTime";
   "delayPeriod"; "deliveryChannel"; "elapsedTime"; "event"; "fileFormat"; "industry"; "language"; "media";
   "meteredTime"; "payAmount"; "percentage"; "product"; "purpose"; "recipient"; "relativePosition";
   "relativeSpatialPosition"; "relativeTemporalPosition"; "relativeSize"; "resolution"; "spatial";
   "spatialCoordinates"; "systemDevice"; "timeInterval"; "unitOfCount"; "version"; "virtualLocation"].

Definition isODRLContextOperandTerm (operandID : string) : bool := bool_decide (compactTerm operandID ∈ odrlContextOperands).

(** The constraints of a rule: its own and its duties'. *)
Definition rule_constraints (policy : gmap string json) : list (gmap string json) :=
  policyConstraints (policy !! "odrl:constraint") ++ dutyConstraints (default JNull (policy !! "odrl:duty")).

Definition leaf_operand (leaf : gmap string json) : string := node_id (default JNull (leaf !! "odrl:leftOperand")).

Definition operand_known (fieldIDs : list string) (leaf : gmap string json) : result () :=
  let operandID := leaf_operand leaf in
  if bool_decide (operandID = EmptyString) || isODRLContextOperandTerm operandID || bool_decide (operandID ∈ fieldIDs)
  then Ok () else Err (Errorf "policy references nonexistent contract data field").

Definition rule_operands (fieldIDs : list string) (policy : gmap string json) : result () :=
  if negb (bool_decide (type_term policy ∈ rule_types)) then Err (Errorf "policy has unsupported @type")
  else first_error (map (operand_known fieldIDs) (concat (map compactConstraintLeaves (rule_constraints policy)))).

Definition validatePolicyOperands (policies : option json) (fieldIDs : list string) : result () :=
  first_error (map (rule_operands fieldIDs) (collectODRLPolicyRules policies)).

(** ** Lemmas *)
Lemma first_error_Ok checks : first_error checks = Ok () ↔ Forall (λ c, c = Ok ()) checks.
Proof.
  induction checks as [|[[]|e] rest IH]; cbn.
  - by split.
  - rewrite IH, Forall_cons. naive_solver.
  - split; [done|]. by intros [? _]%Forall_cons.
Qed.

Lemma first_error_map {A} (f : A → result ()) l : first_error (map f l) = Ok () ↔ ∀ x, x ∈ l → f x = Ok ().
Proof.
  rewrite first_error_Ok, Forall_forall. setoid_rewrite list_elem_of_In. setoid_rewrite in_map_iff. naive_solver.
Qed.

Lemma elem_of_concat_map {A B} (f : A → list B) l y : y ∈ concat (map f l) ↔ ∃ x, x ∈ l ∧ y ∈ f x.
Proof.
  induction l as [|x l IH]; cbn; [set_solver|]. rewrite elem_of_app, IH. set_solver.
Qed.

(** A property's value as a list of nodes. *)
Definition members (raw : json) : list json := match raw with JArr items => items | _ => [raw] end.

Lemma depth_member m k raw c : m !! k = Some raw → c ∈ members raw → (depth c < depth (JObj m))%nat.
Proof.
  intros Hk%depth_field Hc. destruct raw; cbn [members] in Hc; try (apply list_elem_of_singleton in Hc as ->; done).
  apply depth_item in Hc. lia.
Qed.

(** Induction along the properties of a node, one-element lists or not. *)
Lemma json_member_ind (P : json → Prop) :
  (∀ j, (∀ m k raw c, j = JObj m → m !! k = Some raw → c ∈ members raw → P c) → P j) → ∀ j, P j.
Proof.
  intros HP j. remember (depth j) as n eqn:Hn. revert j Hn.
  induction (Nat.lt_wf_0 n) as [n _ IH]. intros j ->. apply HP. intros m k raw c -> Hk Hc.
  eapply IH; [by eapply depth_member|done].
Qed.

Lemma elem_of_objects items (o : gmap string json) : o ∈ objects_of items ↔ JObj o ∈ items.
Proof.
  unfold objects_of. rewrite list_elem_of_omap. split; [|by intros H; exists (JObj o)].
  intros (i & Hi & Ho). destruct i; by simplify_eq/=.
Qed.

Lemma policyConstraints_members raw : policyConstraints (Some raw) = objects_of (members raw).
Proof. by destruct raw. Qed.

Lemma elem_of_policyConstraints raw (o : gmap string json) : o ∈ policyConstraints (Some raw) ↔ JObj o ∈ members raw.
Proof. by rewrite policyConstraints_members, elem_of_objects. Qed.

Lemma default_fmap {A B} (f : A → B) (d : A) (o : option A) : default (f d) (f <$> o) = f (default d o).
Proof. by destruct o. Qed.

(** *** Leaves of a constraint *)
Inductive leaf_of : json → gmap string json → Prop :=
  | leaf_here m : logical_key m = None → leaf_of (JObj m) m
  | leaf_under m key raw child l : logical_key m = Some key → m !! key = Some raw → child ∈ members raw →
      leaf_of child l → leaf_of (JObj m) l.

Lemma leaves_under m key raw : logical_key m = Some key → m !! key = Some raw →
  leaves (JObj m) = concat (map leaves (members raw)).
Proof.
  intros Hk Hr. cbn [leaves]. rewrite Hk, lookup_fmap, Hr. destruct raw; cbn; by rewrite ?app_nil_r.
Qed.

Lemma logical_key_present m key : logical_key m = Some key → is_Some (m !! key).
Proof. unfold logical_key. intros [_ H]%List.find_some. by apply bool_decide_eq_true in H. Qed.

Lemma leaves_spec j l : l ∈ leaves j ↔ leaf_of j l.
Proof.
  revert l. induction j as [j IH] using json_member_ind. intros l. destruct j as [| | | | |m];
    try (split; [by intros ?%elem_of_nil | by inversion 1]).
  destruct (logical_key m) as [key|] eqn:Ek.
  - destruct (logical_key_present _ _ Ek) as [raw Hr]. rewrite (leaves_under _ _ _ Ek Hr), elem_of_concat_map. split.
    + intros (c & Hc & Hl). apply (leaf_under m key raw c); [done..|]. by apply (IH m key raw c eq_refl Hr Hc).
    + inversion 1 as [|? key' raw' c ? E1 E2 Hc Hl]; simplify_eq. exists c. split; [done|].
      by apply (IH m key raw c eq_refl Hr Hc).
  - cbn [leaves]. rewrite Ek, list_elem_of_singleton. split; [intros ->; by constructor|].
    inversion 1; [done|congruence].
Qed.

(** *** Duties and their consequences *)
Inductive duty_within : json → gmap string json → Prop :=
  | duty_here raw d : JObj d ∈ members raw → duty_within raw d
  | duty_next raw d next c : JObj d ∈ members raw → d !! "odrl:consequence" = Some next → duty_within next c →
      duty_within raw c.

Lemma dutyConstraints_eq raw :
  dutyConstraints raw =
  concat (map (λ duty, policyConstraints (duty !! "odrl:constraint")
                       ++ dutyConstraints (default JNull (duty !! "odrl:consequence"))) (policyConstraints (Some raw))).
Proof.
  destruct raw as [| | | |items|d]; try done; cbn [policyConstraints dutyConstraints].
  - induction items as [|i items IH]; [done|]. unfold objects_of in *. destruct i as [| | | | |d]; cbn in *; try exact IH.
    rewrite <-IH. f_equal. f_equal. rewrite lookup_fmap. by apply (default_fmap dutyConstraints JNull).
  - cbn. rewrite app_nil_r, lookup_fmap. f_equal. by apply (default_fmap dutyConstraints JNull).
Qed.

Lemma dutyConstraints_spec raw c : c ∈ dutyConstraints raw ↔
  ∃ d, duty_within raw d ∧ c ∈ policyConstraints (d !! "odrl:constraint").
Proof.
  revert c. remember (depth raw) as n eqn:Hn. revert raw Hn. induction (Nat.lt_wf_0 n) as [n _ IH]. intros raw -> c.
  rewrite dutyConstraints_eq, elem_of_concat_map. setoid_rewrite elem_of_policyConstraints. setoid_rewrite elem_of_app.
  assert (Hlt : ∀ d next, JObj d ∈ members raw → d !! "odrl:consequence" = Some next → (depth next < depth raw)%nat).
  { intros d next Hd Hx. apply depth_field in Hx. destruct raw; cbn [members] in Hd;
      try (apply list_elem_of_singleton in Hd; by simplify_eq). apply depth_item in Hd. lia. }
  split.
  - intros (d & Hd & [Hc | Hc]); [exists d; split; [by constructor|done]|].
    destruct (d !! "odrl:consequence") as [next|] eqn:En; [|by apply elem_of_nil in Hc].
    apply (IH (depth next)) in Hc as (d' & H1 & H2); [|by eapply Hlt|done]. exists d'. split; [by eapply duty_next|done].
  - intros (d & Hd & Hc). destruct Hd as [raw d Hd|raw d next c' Hd En Hn]; exists d; (split; [done|]); [by left|right].
    rewrite En. apply (IH (depth next)); [by eapply Hlt|done|]. by exists c'.
Qed.

(** *** Shapes *)
Definition acts (node : gmap string json) : Prop := ∃ a, node !! "odrl:action" = Some a ∧ a ≠ JArr [].
Definition has_prose (node : gmap string json) : Prop := TrimSpace (node_id (default JNull (node !! "dcs:prose"))) ≠ EmptyString.

Lemma action_shape_Ok what node : action_shape what node = Ok () ↔ acts node.
Proof.
  unfold action_shape, acts. destruct (node !! "odrl:action") as [[| | | |[]|]|]; split; try done; intros; eauto; naive_solver.
Qed.

Lemma prose_shape_Ok what node : prose_shape what node = Ok () ↔ has_prose node.
Proof. unfold prose_shape, blank, has_prose. by case_bool_decide. Qed.

Lemma wrap_err_Ok msg (r : result ()) : wrap_err msg r = Ok () ↔ r = Ok ().
Proof. destruct r as [[]|]; by split. Qed.

Lemma result_then {A} (r1 : result ()) (r2 : result A) a : (_ ← r1; r2) = Ok a ↔ r1 = Ok () ∧ r2 = Ok a.
Proof. destruct r1 as [[]|]; cbn; naive_solver. Qed.

Lemma refuse_or {A} (b : bool) (err : error) (r : result A) a : (if b then Err err else r) = Ok a ↔ b = false ∧ r = Ok a.
Proof. destruct b; naive_solver. Qed.

Definition duty_ok (d : gmap string json) : Prop :=
  (type_term d = EmptyString ∨ type_term d = "Duty") ∧ acts d ∧ has_prose d.

Lemma duty_fragment_eq d :
  validateODRLDutyFragment (JObj d) = Ok () ↔
  duty_ok d ∧ ∀ next c, d !! "odrl:consequence" = Some next → JObj c ∈ members next →
    validateODRLDutyFragment (JObj c) = Ok ().
Proof.
  cbn [validateODRLDutyFragment]. rewrite refuse_or, !result_then, action_shape_Ok, prose_shape_Ok, wrap_err_Ok, lookup_fmap.
  unfold duty_ok. rewrite andb_false_iff, !negb_false_iff, !bool_decide_eq_true.
  enough (H : default (Ok ()) ((λ raw : json, match raw with
      | JArr items => first_error (map (λ item, match item with JObj _ => validateODRLDutyFragment item | _ => Ok () end) items)
      | JObj _ => validateODRLDutyFragment raw
      | _ => Ok () end) <$> d !! "odrl:consequence") = Ok () ↔
    ∀ next c, d !! "odrl:consequence" = Some next → JObj c ∈ members next → validateODRLDutyFragment (JObj c) = Ok ())
    by (rewrite H; tauto).
  destruct (d !! "odrl:consequence") as [next|]; cbn [fmap option_fmap option_map default from_option id]; [|naive_solver].
  destruct next as [| | | |items|c]; cbn [members];
    try (split; [intros _ ? ? [= <-] Hc; cbn in Hc; apply list_elem_of_singleton in Hc; discriminate | done]).
  - rewrite first_error_map. split; [intros H ? c [= <-] Hc; exact (H _ Hc)|].
    intros H i Hi. destruct i as [| | | | |c]; try done. by apply (H (JArr items)).
  - split; [intros H ? c' [= <-] Hc; cbn in Hc; apply list_elem_of_singleton in Hc; by simplify_eq|].
    intros H. apply (H (JObj c)); [done|]. cbn. by left.
Qed.

Lemma validateODRLDutyFragment_spec d :
  validateODRLDutyFragment (JObj d) = Ok () ↔ ∀ c, duty_within (JObj d) c → duty_ok c.
Proof.
  remember (JObj d) as j eqn:Ej. revert d Ej. induction j as [j IH] using json_member_ind. intros d ->.
  rewrite duty_fragment_eq. split.
  - intros [Hd Hn] c Hc. inversion Hc as [raw c' Hm|raw c' next c'' Hm En Hw]; subst; cbn in Hm;
      apply list_elem_of_singleton in Hm; simplify_eq; [done|].
    inversion Hw as [raw c0 Hc0|raw c0 next0 c1 Hc0 En0 Hw0]; subst.
    + pose proof (proj1 (IH d _ next (JObj c) eq_refl En Hc0 c eq_refl) (Hn next c En Hc0)) as Hok.
      by apply Hok, duty_here, list_elem_of_singleton.
    + apply (proj1 (IH d _ next (JObj c0) eq_refl En Hc0 c0 eq_refl) (Hn next c0 En Hc0)).
      eapply duty_next; [by apply list_elem_of_singleton|exact En0|exact Hw0].
  - intros H. split; [by apply H, duty_here, list_elem_of_singleton|]. intros next c En Hc.
    apply (IH d "odrl:consequence" next (JObj c) eq_refl En Hc c eq_refl). intros c' Hc'. apply H.
    eapply duty_next; [by apply list_elem_of_singleton|exact En|].
    inversion Hc' as [raw c0 Hm|raw c0 next0 c1 Hm En0 Hw0]; subst; cbn in Hm; apply list_elem_of_singleton in Hm; simplify_eq;
      [by constructor|by eapply duty_next].
Qed.

(** A rule the shape check admits. *)
Definition rule_ok (rule : gmap string json) : Prop :=
  type_term rule ∈ rule_types ∧ acts rule ∧ has_prose rule ∧
  (∀ key, key ∈ ["odrl:assigner"; "odrl:assignee"; "odrl:target"] → is_Some (rule !! key)) ∧
  ∀ raw, rule !! "odrl:duty" = Some raw → type_term rule = "Permission" ∧ ∀ d, duty_within raw d → duty_ok d.

Lemma duty_within_members raw d : duty_within raw d ↔ ∃ e, JObj e ∈ members raw ∧ duty_within (JObj e) d.
Proof.
  split.
  - intros [raw' d' Hm|raw' d' next c Hm En Hw]; exists d'; (split; [done|]).
    + by apply duty_here, list_elem_of_singleton.
    + eapply duty_next; [by apply list_elem_of_singleton|done..].
  - intros (e & He & H). inversion H as [raw' d' Hm|raw' d' next c Hm En Hw]; subst; cbn in Hm;
      apply list_elem_of_singleton in Hm; simplify_eq; [by constructor|by eapply duty_next].
Qed.

Lemma validateODRLRuleShape_spec rule : validateODRLRuleShape rule = Ok () ↔ rule_ok rule.
Proof.
  unfold validateODRLRuleShape, rule_ok. rewrite refuse_or, negb_false_iff, bool_decide_eq_true, !result_then,
    action_shape_Ok, prose_shape_Ok, first_error_map.
  assert (Hkeys : (∀ key, key ∈ ["odrl:assigner"; "odrl:assignee"; "odrl:target"] →
      (if bool_decide (is_Some (rule !! key)) then Ok () else Err (Errorf (String.append "rule is missing " key))) = Ok ()) ↔
    ∀ key, key ∈ ["odrl:assigner"; "odrl:assignee"; "odrl:target"] → is_Some (rule !! key)).
  { split; intros H key Hk; specialize (H key Hk); by case_bool_decide. }
  rewrite Hkeys. destruct (rule !! "odrl:duty") as [raw|]; [|naive_solver].
  rewrite refuse_or, negb_false_iff, bool_decide_eq_true, wrap_err_Ok, first_error_map.
  setoid_rewrite elem_of_policyConstraints. setoid_rewrite validateODRLDutyFragment_spec.
  assert (Hd : (∀ x, JObj x ∈ members raw → ∀ c, duty_within (JObj x) c → duty_ok c) ↔ ∀ d, duty_within raw d → duty_ok d).
  { setoid_rewrite (duty_within_members raw). naive_solver. }
  rewrite Hd. naive_solver.
Qed.

(** A policy node the shape check admits. *)
Definition policy_ok (policyTypes : list string) (policies : json) : Prop :=
  policies = JArr [] ∨
  ∃ set, policies = JObj set ∧ type_term set ∈ policyTypes ∧ TrimSpace (as_string (set !! "@id")) ≠ EmptyString ∧
    is_Some (set !! "odrl:profile") ∧ set !! "odrl:duty" = None ∧ set !! "uid" = None ∧
    ∀ rule, rule ∈ collectODRLSetRules set → rule_ok rule.

Lemma validateODRLPoliciesShape_spec policies policyTypes :
  validateODRLPoliciesShape policies policyTypes = Ok () ↔ policy_ok policyTypes policies.
Proof.
  unfold validateODRLPoliciesShape, policy_ok. destruct policies as [| | | |[|]|set]; try naive_solver.
  unfold validateODRLPolicySet. rewrite !refuse_or, wrap_err_Ok, first_error_map, negb_false_iff, bool_decide_eq_true.
  unfold blank. rewrite !bool_decide_eq_false, <-!eq_None_not_Some. setoid_rewrite validateODRLRuleShape_spec.
  setoid_rewrite <-not_eq_None_Some. naive_solver.
Qed.

(** *** Operands *)

(** Every operand of a policy's constraints, wherever it nests, is a context
    operand of ODRL or one of the fields. *)
Definition operands_resolve (fields : list string) (policies : option json) : Prop :=
  ∀ rule, rule ∈ collectODRLPolicyRules policies → type_term rule ∈ rule_types ∧
    ∀ c l, c ∈ policyConstraints (rule !! "odrl:constraint") ∨
             (∃ raw d, rule !! "odrl:duty" = Some raw ∧ duty_within raw d ∧ c ∈ policyConstraints (d !! "odrl:constraint")) →
      leaf_of (JObj c) l →
      leaf_operand l = EmptyString ∨ isODRLContextOperandTerm (leaf_operand l) = true ∨ leaf_operand l ∈ fields.

Lemma operand_known_Ok fields l : operand_known fields l = Ok () ↔
  leaf_operand l = EmptyString ∨ isODRLContextOperandTerm (leaf_operand l) = true ∨ leaf_operand l ∈ fields.
Proof.
  unfold operand_known. destruct (isODRLContextOperandTerm _); repeat case_bool_decide; cbn; naive_solver.
Qed.

Lemma validatePolicyOperands_spec policies fields :
  validatePolicyOperands policies fields = Ok () ↔ operands_resolve fields policies.
Proof.
  unfold validatePolicyOperands, operands_resolve. rewrite first_error_map.
  apply forall_proper. intros rule. apply forall_proper. intros _. unfold rule_operands.
  rewrite refuse_or, negb_false_iff, bool_decide_eq_true, first_error_map. apply and_iff_compat_l.
  setoid_rewrite operand_known_Ok. setoid_rewrite elem_of_concat_map. unfold compactConstraintLeaves, rule_constraints.
  setoid_rewrite leaves_spec. setoid_rewrite elem_of_app.
  assert (Hd : ∀ c, c ∈ dutyConstraints (default JNull (rule !! "odrl:duty")) ↔
    ∃ raw d, rule !! "odrl:duty" = Some raw ∧ duty_within raw d ∧ c ∈ policyConstraints (d !! "odrl:constraint")).
  { intros c. rewrite dutyConstraints_spec. destruct (rule !! "odrl:duty") as [raw|]; cbn; [naive_solver|].
    split; [|naive_solver]. intros (d & Hw & _). apply duty_within_members in Hw as (e & He & _). cbn in He.
    by apply list_elem_of_singleton in He. }
  setoid_rewrite Hd. split; intros H.
  - intros c l Hc Hl. apply H. by exists c.
  - intros l (c & Hc & Hl). by eapply H.
Qed.
