(* ===== verification/Envelopes.v ===== *)
(** The canonical envelope of templates and contracts: normalisation and the
    checks of internal/base/validation/documentdata.go and contractgraph.go.

    The hub's process-wide references are a record; a document decoded from JSON is
    a map, and edits made in place on the tree are functions on it.  Which of
    several errors a loop over a Go map reports first is left open there; here it is
    the first in the order of [map_to_list]. *)
From S2P Require Import Prelude Json Document Identity Anchors Policies.
Import GoStrings.

(** What a hub activation installs. *)
Record Hub := {
  schemaRefJSONLDContext : string;
  schemaRefSHACLShapes : string;
  canonicalOntologyIRIs : gmap string string;
  (** By target class: the name and the anchor URL of the library. *)
  shapeLibraryAnchors : gmap string (string * string);
  (** [activeShapeSource.ContextByIRI]: which contexts resolve; [None] before
      SetShapeSource. *)
  ContextByIRI : option (string → bool)
}.

(** ** Top-level values *)
Definition topLevelValueExists (data : gmap string json) (localName : string) : option json :=
  match data !! String.append "dcs:" localName with
  | Some value => Some value
  | None => data !! localName
  end.

Definition isCanonicalEnvelope (data : gmap string json) : bool :=
  bool_decide (is_Some (data !! "dcs:documentStructure")) || bool_decide (is_Some (data !! "documentStructure")).

(** ** @context *)
Definition conflicting_prefix (canonical : gmap string string) (kv : string * json) : bool :=
  match kv.2, canonical !! kv.1 with
  | JStr supplied, Some iri => negb (bool_decide (supplied = iri))
  | _, _ => false
  end.

Definition enforceCanonicalOntologyIRIMap (context : gmap string json) (canonical : gmap string string) : result () :=
  if existsb (conflicting_prefix canonical) (map_to_list context)
  then Err (Wrapf "%w: document @context redefines prefix" (Sentinel ErrDocumentSchemaConflict)) else Ok ().

Definition enforceCanonicalOntologyIRIs (canonical : gmap string string) (data : gmap string json) : result () :=
  match data !! "@context" with
  | Some (JObj context) => enforceCanonicalOntologyIRIMap context canonical
  | Some (JArr entries) => first_error (map (λ inline, enforceCanonicalOntologyIRIMap inline canonical) (objects_of entries))
  | _ => Ok ()
  end.

Section hub.
Context (hub : Hub).
Notation anchor := (schemaRefJSONLDContext hub).

Definition hub_entry (entry : json) : bool := match entry with JStr url => isHubContextAnchor anchor url | _ => false end.

Definition normalizeCanonicalContext (data : gmap string json) : gmap string json :=
  match data !! "@context" with
  | Some (JStr context) =>
      if isHubContextAnchor anchor context then data else <["@context" := JArr [JStr anchor; JStr context]]> data
  | Some (JArr entries) =>
      if existsb hub_entry entries then data else <["@context" := JArr (JStr anchor :: entries)]> data
  | Some (JObj context) => <["@context" := JArr [JStr anchor; JObj context]]> data
  | _ => <["@context" := JStr anchor]> data
  end.

Definition validateExternalContextsResolvable (data : gmap string json) : result () :=
  match ContextByIRI hub with
  | None => Ok ()
  | Some resolves =>
      if forallb resolves (externalContextIRIs anchor data) then Ok ()
      else Err (Wrapf "%w: @context references an IRI which is not registered in the Semantic Hub"
                  (Sentinel ErrDocumentSchemaConflict))
  end.

(** ** Shape libraries *)

(** The types a document asserts: [walk], without the order and the duplicates. *)
Definition own_types (node : gmap string json) : list string :=
  match node !! "@type" with
  | Some (JStr iri) => [iri]
  | Some (JArr entries) => omap (λ e, match e with JStr iri => Some iri | _ => None end) entries
  | _ => []
  end.

Fixpoint walk_types (node : json) : list string :=
  match node with
  | JObj typed => own_types typed ++ concat (map_to_list (delete "@type" (walk_types <$> typed))).*2
  | JArr items => concat (map walk_types items)
  | _ => []
  end.

Definition string_le (a b : string) : Prop := String.leb a b = true.
#[local] Instance string_le_dec a b : Decision (string_le a b).
Proof. unfold string_le. apply _. Defined.

Definition assertedTypeIRIs (data : gmap string json) : list string :=
  merge_sort string_le (dedup_from [] (walk_types (JObj data))).

Fixpoint added_anchors (declared : list (string * Z)) (classes : list string) : list string :=
  match classes with
  | [] => []
  | class :: rest =>
      match shapeLibraryAnchors hub !! class with
      | None => added_anchors declared rest
      | Some (name, url) =>
          let declaration := (name, anchorVersion url) in
          if bool_decide (declaration ∈ declared) then added_anchors declared rest
          else url :: added_anchors (declaration :: declared) rest
      end
  end.

Definition declareShapeLibraries (data : gmap string json) : gmap string json :=
  match added_anchors (declaredShapesGraphs data) (assertedTypeIRIs data) with
  | [] => data
  | added =>
      let existing := match data !! "sh:shapesGraph" with Some (JArr l) => l | v => [default JNull v] end in
      <["sh:shapesGraph" := JArr (existing ++ (ref_node <$> added))]> data
  end.

(** ** Layout nodes *)
Definition typed_node (node : json) : json :=
  match node with
  | JObj n => if bool_decide (as_string (n !! "@type") = EmptyString)
              then JObj (<["@type" := JStr "dcs:LayoutNode"]> n) else node
  | _ => node
  end.

Definition typed_layout (rawLayout : json) : json :=
  match rawLayout with
  | JObj container =>
      match container !! "@list" with
      | Some (JArr nodes) => JObj (<["@list" := JArr (map typed_node nodes)]> container)
      | _ => rawLayout
      end
  | JArr nodes => JArr (map typed_node nodes)
  | _ => rawLayout
  end.

(** Rewrite the value of a top-level property, if there is one. *)
Definition update_top (localName : string) (f : json → json) (data : gmap string json) : gmap string json :=
  let key := top_level_key data localName in
  match data !! key with Some v => <[key := f v]> data | None => data end.

Definition typeLayoutNodes (data : gmap string json) : gmap string json :=
  update_top "documentStructure"
    (λ v, match v with JObj structure => JObj (update_top "layout" typed_layout structure) | _ => v end) data.

(** ** normalizeCanonicalEnvelope *)
Definition with_default (localName : string) (data : gmap string json) : gmap string json :=
  match topLevelValueExists data localName with
  | Some _ => data
  | None => <[String.append "dcs:" localName := JArr []]> data
  end.

Definition with_type (documentType : string) (data : gmap string json) : gmap string json :=
  if Policies.blank (as_string (data !! "@type")) then <["@type" := JStr documentType]> data else data.

Definition with_shapes (data : gmap string json) : gmap string json :=
  match data !! "sh:shapesGraph" with
  | Some _ => data
  | None => <["sh:shapesGraph" := ref_node (schemaRefSHACLShapes hub)]> data
  end.

Definition normalizeCanonicalEnvelope (documentType : string) (data : gmap string json) : gmap string json :=
  let anchored := with_shapes (with_type documentType (normalizeCanonicalContext data)) in
  let declared := declareShapeLibraries anchored in
  typeLayoutNodes (with_default "policies" (with_default "contractFields" (with_default "contractData" declared))).
End hub.

(** ** Blocks and layout *)

(** The first loop over the blocks: their identifiers and types. *)
Fixpoint read_blocks (seen : list (string * string)) (blocks : list json) : result (list (string * string)) :=
  match blocks with
  | [] => Ok seen
  | JObj block :: rest =>
      let id := as_string (block !! "@id") in
      if Policies.blank id then Err (Errorf "documentStructure.dcs:blocks @id is required")
      else if bool_decide (id ∈ seen.*1) then Err (Errorf "duplicate document block @id")
      else read_blocks (seen ++ [(id, as_string (block !! "@type"))]) rest
  | _ :: _ => Err (Errorf "documentStructure.dcs:blocks must be an object")
  end.

Definition isTrueValue (value : option json) : bool := match value with Some (JBool b) => b | _ => false end.

Definition layout_child (blockIDs : list string) (child : json) : result string :=
  match child with
  | JObj _ =>
      if bool_decide (node_id child ∈ blockIDs) then Ok (node_id child)
      else Err (Errorf "layout references nonexistent block")
  | _ => Err (Errorf "layout child must be an @id reference")
  end.

(** One layout node: whether it is a root, and the blocks it places. *)
Definition layout_node (blockIDs : list string) (node : json) : result (bool * list string) :=
  match node with
  | JObj n =>
      let root := isTrueValue (n !! "dcs:isRoot") in
      if negb root && negb (bool_decide (node_id node ∈ blockIDs)) then Err (Errorf "layout references nonexistent block")
      else match jsonLDList (n !! "dcs:children") with
           | None => Err (Errorf "documentStructure.dcs:layout dcs:children must be an @list")
           | Some children => placed ← mapM (layout_child blockIDs) children; Ok (root, placed)
           end
  | _ => Err (Errorf "documentStructure.dcs:layout must be an object")
  end.

Definition roots (nodes : list (bool * list string)) : nat := length (filter (λ n, n.1 = true) nodes).

(** ** Fields *)
Definition field_id (seen : list string) (rawField : json) : result string :=
  match rawField with
  | JObj field =>
      let id := as_string (field !! "@id") in
      if Policies.blank id then Err (Errorf "contractFields @id is required")
      else if bool_decide (id ∈ seen) then Err (Errorf "duplicate contract field @id")
      else if negb (bool_decide (type_term field = "ContractField")) then Err (Errorf "contract field must have @type dcs:ContractField")
      else if Policies.blank (stringMapValue field "dcs:label") then Err (Errorf "contract field has no dcs:label")
      else if Policies.blank (stringMapValue field "dcs:datatype") then Err (Errorf "contract field has no dcs:datatype")
      else match field !! "dcs:required" with
           | Some (JBool _) => Ok id
           | Some _ => Err (Errorf "contract field dcs:required must be boolean")
           | None => Err (Errorf "contract field has no dcs:required")
           end
  | _ => Err (Errorf "contractFields must be a ContractField object")
  end.

Fixpoint field_ids (seen : list string) (fields : list json) : result (list string) :=
  match fields with
  | [] => Ok seen
  | f :: rest => id ← field_id seen f; field_ids (seen ++ [id]) rest
  end.

Definition canonicalFieldIDs (data : gmap string json) : result (list string) :=
  field_ids [] (as_list (topLevelValueExists data "contractFields")).

(** ** Clause content and contract data *)
Definition segment_known (fieldIDs : list string) (segment : json) : result () :=
  if Policies.blank (node_id segment) || bool_decide (node_id segment ∈ fieldIDs) then Ok ()
  else Err (Errorf "clause content references nonexistent contract field").

Definition validateBlockFieldReferences (fieldIDs : list string) (block : json) : result () :=
  match block with
  | JObj b => first_error (map (segment_known fieldIDs) (default [] (jsonLDList (b !! "dcs:content"))))
  | _ => Err (Panic "interface conversion")
  end.

Definition isExternalResourceIRI (id documentID : string) : bool :=
  if HasPrefix id "urn:uuid:" then false
  else if negb (bool_decide (documentID = EmptyString))
          && (bool_decide (id = documentID) || HasPrefix id (String.append documentID "#")) then false
  else Contains id "://" || HasPrefix id "did:" || HasPrefix id "urn:".

Definition validateContractDataValue (documentID : string) (fieldIDs objectIDs : list string) (value : json) : result () :=
  let other (object : gmap string json) :=
    if bool_decide (is_Some (object !! "@value")) then Ok ()
    else Err (Errorf "must be a literal, a contract-field reference, or a reference to another domain object") in
  match value with
  | JObj object =>
      match object !! "@id" with
      | Some (JStr id) =>
          if bool_decide (size object = 1%nat) then
            if bool_decide (id ∈ fieldIDs) || bool_decide (id ∈ objectIDs) || isExternalResourceIRI id documentID then Ok ()
            else Err (Errorf "references neither a declared contract field nor a domain object in this document")
          else other object
      | _ => other object
      end
  | _ => Ok ()
  end.

Definition object_id (rawObject : json) : result string :=
  match rawObject with
  | JObj object =>
      if Policies.blank (as_string (object !! "@id")) then Err (Errorf "contractData needs an @id")
      else if Policies.blank (as_string (object !! "@type")) then Err (Errorf "contractData @type is required")
      else Ok (as_string (object !! "@id"))
  | _ => Err (Errorf "contractData must be a domain object")
  end.

(** The values of an object's properties, keywords aside. *)
Definition property_values (object : gmap string json) : list json :=
  concat ((λ kv : string * json, if HasPrefix kv.1 "@" then [] else members kv.2) <$> map_to_list object).

Definition validateContractDataGraph (data : gmap string json) (fieldIDs : list string) : result () :=
  let contractData := as_list (topLevelValueExists data "contractData") in
  objectIDs ← mapM object_id contractData;
  first_error (map (validateContractDataValue (as_string (data !! "@id")) fieldIDs objectIDs)
                 (concat (map property_values (objects_of contractData)))).

(** ** The envelope *)

(** A block no layout node places, clauses aside. *)
Definition unplaced (placed : list string) (block : string * string) : bool :=
  negb (bool_decide (block.1 ∈ placed)) && negb (bool_decide (block.2 = "dcs:Clause")).

Definition validateCanonicalReferences (data documentStructure : gmap string json) : result () :=
  match list_or_array (documentStructure !! "dcs:blocks") with
  | None => Err (Errorf "documentStructure.dcs:blocks must be an array")
  | Some blocks =>
      match list_or_array (documentStructure !! "dcs:layout") with
      | None => Err (Errorf "documentStructure.dcs:layout must be an array")
      | Some layout =>
          ids ← read_blocks [] blocks;
          nodes ← mapM (layout_node ids.*1) layout;
          if negb (bool_decide (roots nodes = 1%nat)) then Err (Errorf "documentStructure must contain exactly one root layout node")
          else if existsb (unplaced (concat nodes.*2)) ids then Err (Errorf "document block is not referenced by layout")
          else
            fieldIDs ← canonicalFieldIDs data;
            _ ← first_error (map (validateBlockFieldReferences fieldIDs) blocks);
            _ ← validateContractDataGraph data fieldIDs;
            validatePolicyOperands (topLevelValueExists data "policies") fieldIDs
      end
  end.

Fixpoint containsODRLTerms (value : json) : bool :=
  match value with
  | JObj typed =>
      let term (nested : json) := match nested with JStr raw => HasPrefix raw "odrl:" | _ => false end in
      existsb (λ kv : string * bool, HasPrefix kv.1 "odrl:" || kv.2)
        (map_to_list ((λ nested, term nested || containsODRLTerms nested) <$> typed))
  | JArr items => existsb containsODRLTerms items
  | _ => false
  end.

Definition expectedPolicyTypes (documentType : string) : list string :=
  if bool_decide (documentType = "dcs:Contract") then ["Offer"; "Agreement"] else ["Offer"].

(** A top-level value that is present has the shape [ok]. *)
Definition if_present (data : gmap string json) (localName : string) (ok : json → result ()) : result () :=
  match topLevelValueExists data localName with Some v => ok v | None => Ok () end.

Definition is_object (what : string) (v : json) : result () :=
  match v with JObj _ => Ok () | _ => Err (Errorf (String.append what " must be an object")) end.
Definition is_array (what : string) (v : json) : result () :=
  match v with JArr _ => Ok () | _ => Err (Errorf (String.append what " must be an array")) end.

Definition validateCanonicalEnvelope (data : gmap string json) (policyTypes : list string) : result () :=
  match topLevelValueExists data "documentStructure" with
  | Some (JObj documentStructure) =>
      if containsODRLTerms (JObj documentStructure) then Err (Errorf "documentStructure must not contain ODRL policy terms")
      else
        _ ← if_present data "metadata" (is_object "metadata");
        _ ← if_present data "contractData" (is_array "contractData");
        _ ← if_present data "contractFields" (is_array "contractFields");
        _ ← if_present data "policies" (λ policies, validateODRLPoliciesShape policies policyTypes);
        validateCanonicalReferences data documentStructure
  | _ => Err (Errorf "documentStructure must be an object")
  end.

(** contractgraph.go. *)
Definition validateContractMetadataType (data : gmap string json) : result () :=
  if negb (bool_decide (compactTerm (as_string (data !! "@type")) = "Contract")) then Ok () else
  match topLevelValueExists data "metadata" with
  | Some (JObj metadata) =>
      let term := compactTerm (as_string (metadata !! "@type")) in
      if negb (bool_decide (term = EmptyString)) && negb (bool_decide (term = "ContractMetadata"))
      then Err (Errorf "a dcs:Contract document's dcs:metadata must be typed dcs:ContractMetadata") else Ok ()
  | _ => Ok ()
  end.

(** ** Entry points *)
Section entry.
Context (hub : Hub).

Definition NormalizeTemplateData (raw : option json) : result json :=
  data ← decodeDocumentData raw;
  if negb (isCanonicalEnvelope data) then Err (Errorf "template data must use the canonical dcs:documentStructure envelope") else
  _ ← enforceCanonicalOntologyIRIs (canonicalOntologyIRIs hub) data;
  let normal := normalizeCanonicalEnvelope hub "dcs:ContractTemplate" data in
  _ ← validateExternalContextsResolvable hub normal;
  _ ← validateCanonicalEnvelope normal (expectedPolicyTypes "dcs:ContractTemplate");
  Ok (JObj normal).

Definition NormalizeTemplateDataForPersistence (public_url : string) (raw : option json) (did : string) : result json :=
  normalized ← NormalizeTemplateData raw;
  addDocumentIdentity (Some normalized) (ResourceIRI public_url "template" did) [did].

Definition NormalizeContractData (raw : option json) : result json :=
  data ← decodeDocumentData raw;
  _ ← validateContractHierarchyInvariants data;
  if negb (isCanonicalEnvelope data) then Err (Errorf "contract data must use the canonical dcs:documentStructure envelope") else
  _ ← enforceCanonicalOntologyIRIs (canonicalOntologyIRIs hub) data;
  let normal := normalizeCanonicalEnvelope hub "dcs:Contract" data in
  _ ← validateContractMetadataType normal;
  _ ← validateExternalContextsResolvable hub normal;
  _ ← validateCanonicalEnvelope normal (expectedPolicyTypes "dcs:Contract");
  Ok (JObj normal).

Definition NormalizeContractDataForPersistence (public_url : string) (raw : option json) (did : string) : result json :=
  normalized ← NormalizeContractData raw;
  anchored ← addDocumentIdentity (Some normalized) (ResourceIRI public_url "contract" did) [did];
  canonicalizeContractReferences public_url (Some anchored).
End entry.

Definition ValidateContractSemantics (raw : option json) : result () :=
  data ← decodeDocumentData raw;
  if negb (isCanonicalEnvelope data) then Err (Errorf "contract data must use the canonical dcs:documentStructure envelope") else
  validateCanonicalEnvelope data (expectedPolicyTypes "dcs:Contract").
