(* ===== verification/EnvelopeChecks.v ===== *)
(** What the envelope checks accept: a declarative reading of
    [validateCanonicalEnvelope]. *)
From S2P Require Import Prelude Json Document Identity Anchors Policies Envelopes.
Import GoStrings.

(** ** Loops that build a list *)
Lemma result_bind_Ok {A B} (r : result A) (f : A → result B) b : (r ≫= f) = Ok b ↔ ∃ a, r = Ok a ∧ f a = Ok b.
Proof. destruct r; cbn; naive_solver. Qed.

Lemma mapM_Ok {A B} (f : A → result B) l k : mapM f l = Ok k ↔ Forall2 (λ x y, f x = Ok y) l k.
Proof.
  revert k. induction l as [|x l IH]; intros k; cbn.
  - split; [intros [= <-]; constructor|]. by inversion 1.
  - rewrite result_bind_Ok. setoid_rewrite result_bind_Ok. split.
    + intros (y & Hy & ys & Hys & [= <-]). constructor; [done|]. by apply IH.
    + inversion 1 as [|? y ? ys Hy Hys]; subst. exists y. split; [done|]. exists ys. split; [by apply IH|done].
Qed.

(** A loop whose results are a function of the elements that pass. *)
Lemma mapM_spec {A B} (f : A → result B) (g : A → B) (P : A → Prop) l k :
  (∀ x y, f x = Ok y ↔ P x ∧ y = g x) → mapM f l = Ok k ↔ Forall P l ∧ k = g <$> l.
Proof.
  intros Hf. rewrite mapM_Ok. revert k. induction l as [|x l IH]; intros k.
  - split; [by inversion 1|]. intros [_ ->]. constructor.
  - rewrite Forall_cons. split.
    + inversion 1 as [|? y ? ys Hx Hl]; subst. apply Hf in Hx as [Hx ->]. by apply IH in Hl as [Hl ->].
    + intros [[Hx Hl] ->]. constructor; [by apply Hf|by apply IH].
Qed.

Definition nonblank (s : string) : Prop := TrimSpace s ≠ EmptyString.

Lemma blank_false s : Policies.blank s = false ↔ nonblank s.
Proof. unfold Policies.blank, nonblank. by rewrite bool_decide_eq_false. Qed.

Definition is_node (j : json) : Prop := ∃ m, j = JObj m.
Definition node_type (j : json) : string := match j with JObj m => as_string (m !! "@type") | _ => EmptyString end.

(** ** Blocks *)
Definition blocks_ok (blocks : list json) : Prop :=
  NoDup (node_id <$> blocks) ∧ Forall (λ b, is_node b ∧ nonblank (node_id b)) blocks.

Definition block_entry (b : json) : string * string := (node_id b, node_type b).

Lemma read_blocks_Ok seen blocks ids : NoDup seen.*1 → read_blocks seen blocks = Ok ids ↔
  ids = seen ++ (block_entry <$> blocks) ∧ NoDup (seen.*1 ++ (node_id <$> blocks)) ∧
  Forall (λ b, is_node b ∧ nonblank (node_id b)) blocks.
Proof.
  revert seen. induction blocks as [|b blocks IH]; intros seen Hseen; cbn [read_blocks].
  { rewrite !app_nil_r. naive_solver. }
  destruct b as [| | | | |m]; try (split; [done|by intros (_ & _ & [[[? [=]] _] _]%Forall_cons)]).
  cbv zeta. rewrite !refuse_or, blank_false, bool_decide_eq_false, Forall_cons. cbn [fmap list_fmap].
  set (entry := (as_string (m !! "@id"), as_string (m !! "@type"))).
  specialize (IH (seen ++ [entry])). rewrite fmap_app, <-!app_assoc in IH. cbn [fmap list_fmap app] in IH.
  change (entry.1) with (node_id (JObj m)) in IH. change (block_entry (JObj m)) with entry.
  assert (Hn : as_string (m !! "@id") ∉ seen.*1 ↔ NoDup (seen.*1 ++ [node_id (JObj m)])).
  { rewrite NoDup_app. split; [|intros (_ & H & _) Hin; apply (H _ Hin); by left].
    intros Hn. split_and!; [done| |apply NoDup_singleton]. intros x Hx ->%list_elem_of_singleton. done. }
  rewrite Hn. unfold is_node. split.
  - intros (Hb & Hs & Hr%(IH Hs)). naive_solver.
  - intros (-> & Hnd & [[_ Hb] Hall]). split; [done|]. assert (Hs : NoDup (seen.*1 ++ [node_id (JObj m)])).
    { rewrite cons_middle, app_assoc in Hnd. by apply NoDup_app in Hnd as [Hnd _]. }
    split; [done|]. by apply (IH Hs).
Qed.

Lemma read_all_blocks blocks ids :
  read_blocks [] blocks = Ok ids ↔ ids = (block_entry <$> blocks) ∧ blocks_ok blocks.
Proof. rewrite read_blocks_Ok by constructor. unfold blocks_ok. cbn. naive_solver. Qed.

Lemma block_entry_ids blocks : (block_entry <$> blocks).*1 = node_id <$> blocks.
Proof. by rewrite <-list_fmap_compose. Qed.

(** ** Layout *)
Definition is_root (node : json) : bool := match node with JObj n => isTrueValue (n !! "dcs:isRoot") | _ => false end.
Definition children_of (node : json) : list json :=
  match node with JObj n => default [] (jsonLDList (n !! "dcs:children")) | _ => [] end.
Definition has_children (node : json) : Prop := ∃ n, node = JObj n ∧ is_Some (jsonLDList (n !! "dcs:children")).

Definition layout_node_ok (blockIDs : list string) (node : json) : Prop :=
  has_children node ∧ (is_root node = false → node_id node ∈ blockIDs) ∧
  Forall (λ c, is_node c ∧ node_id c ∈ blockIDs) (children_of node).

Definition placed_by (layout : list json) : list string := concat ((λ n, node_id <$> children_of n) <$> layout).

Definition layout_ok (blocks layout : list json) : Prop :=
  Forall (layout_node_ok (node_id <$> blocks)) layout ∧
  length (filter (λ n, is_root n = true) layout) = 1%nat ∧
  ∀ b, b ∈ blocks → node_type b ≠ "dcs:Clause" → node_id b ∈ placed_by layout.

Lemma layout_child_Ok blockIDs c y : layout_child blockIDs c = Ok y ↔ (is_node c ∧ node_id c ∈ blockIDs) ∧ y = node_id c.
Proof.
  unfold layout_child, is_node. destruct c as [| | | | |m]; try naive_solver. case_bool_decide; naive_solver.
Qed.

Lemma layout_node_Ok blockIDs node y : layout_node blockIDs node = Ok y ↔
  layout_node_ok blockIDs node ∧ y = (is_root node, node_id <$> children_of node).
Proof.
  unfold layout_node, layout_node_ok, has_children.
  destruct node as [| | | | |n]; try (split; [done|intros [Hn _]; naive_solver]).
  cbv zeta. rewrite refuse_or, andb_false_iff, !negb_false_iff, bool_decide_eq_true. cbn [is_root children_of].
  destruct (jsonLDList (n !! "dcs:children")) as [children|] eqn:E; cbn [default from_option id].
  - rewrite result_bind_Ok. setoid_rewrite (mapM_spec _ node_id _ children _ (layout_child_Ok blockIDs)). split.
    + intros (Hr & a & [Hc ->] & [= <-]). split; [|done]. split; [exists n; by rewrite E|]. split; [|done].
      intros Hf. rewrite Hf in Hr. by destruct Hr.
    + intros [(_ & Hr & Hc) ->]. split; [|by eexists]. destruct (isTrueValue _); auto.
  - split; [by intros [_ ?]|]. intros [[(n' & [= <-] & [? En]) _] _]. congruence.
Qed.

Lemma roots_filter layout :
  roots ((λ n, (is_root n, node_id <$> children_of n)) <$> layout) = length (filter (λ n, is_root n = true) layout).
Proof.
  unfold roots. induction layout as [|n l IH]; [done|]. cbn [fmap list_fmap]. rewrite !filter_cons. cbn [fst].
  by destruct (decide (is_root n = true)); cbn [length]; rewrite IH.
Qed.

Lemma layout_Ok blocks layout :
  (∃ nodes, mapM (layout_node (node_id <$> blocks)) layout = Ok nodes ∧ roots nodes = 1%nat ∧
            existsb (unplaced (concat nodes.*2)) (block_entry <$> blocks) = false) ↔ layout_ok blocks layout.
Proof.
  setoid_rewrite (mapM_spec _ (λ n, (is_root n, node_id <$> children_of n)) _ layout _ (layout_node_Ok _)).
  unfold layout_ok, placed_by. split.
  - intros (nodes & [Hall ->] & Hroots & Hplaced). rewrite roots_filter in Hroots. split; [done|split; [done|]].
    intros b Hb Hty. rewrite existsb_false_iff in Hplaced.
    specialize (Hplaced (block_entry b) (list_elem_of_fmap_2 _ _ _ Hb)). unfold unplaced in Hplaced.
    rewrite <-list_fmap_compose in Hplaced. apply andb_false_iff in Hplaced as [H | H]; apply negb_false_iff, bool_decide_eq_true in H;
      [exact H|done].
  - intros (Hall & Hroots & Hplaced). eexists. split; [by split|]. rewrite roots_filter. split; [done|].
    apply existsb_false_iff. intros e (b & -> & Hb)%list_elem_of_fmap. unfold unplaced. rewrite <-list_fmap_compose.
    apply andb_false_iff. rewrite !negb_false_iff, !bool_decide_eq_true.
    destruct (decide (node_type b = "dcs:Clause")); [by right|left]. exact (Hplaced b Hb n).
Qed.

(** ** Fields *)
Definition field_ok (f : json) : Prop :=
  ∃ m, f = JObj m ∧ nonblank (as_string (m !! "@id")) ∧ type_term m = "ContractField" ∧
    nonblank (stringMapValue m "dcs:label") ∧ nonblank (stringMapValue m "dcs:datatype") ∧
    ∃ b, m !! "dcs:required" = Some (JBool b).

Definition fields_ok (fields : list json) : Prop := NoDup (node_id <$> fields) ∧ Forall field_ok fields.

Lemma field_id_Ok seen f id : field_id seen f = Ok id ↔ (field_ok f ∧ node_id f ∉ seen) ∧ id = node_id f.
Proof.
  unfold field_id, field_ok.
  destruct f as [| | | | |m]; try (split; [done|intros [[(? & ? & _) _] _]; discriminate]). cbv zeta.
  rewrite !refuse_or, !blank_false, bool_decide_eq_false, negb_false_iff, bool_decide_eq_true.
  cbn [node_id]. destruct (m !! "dcs:required") as [[]|] eqn:E; naive_solver.
Qed.

Lemma field_ids_Ok seen fields ids : NoDup seen → field_ids seen fields = Ok ids ↔
  ids = seen ++ (node_id <$> fields) ∧ NoDup (seen ++ (node_id <$> fields)) ∧ Forall field_ok fields.
Proof.
  revert seen. induction fields as [|f fields IH]; intros seen Hseen; cbn [field_ids].
  { rewrite app_nil_r. naive_solver. }
  rewrite result_bind_Ok. setoid_rewrite field_id_Ok. rewrite Forall_cons. cbn [fmap list_fmap].
  specialize (IH (seen ++ [node_id f])). rewrite <-!app_assoc in IH. cbn [app] in IH.
  assert (Hn : node_id f ∉ seen ↔ NoDup (seen ++ [node_id f])).
  { rewrite NoDup_app. split; [|intros (_ & H & _) Hin; apply (H _ Hin); by left].
    intros Hn. split_and!; [done| |apply NoDup_singleton]. by intros x Hx ->%list_elem_of_singleton. }
  split.
  - intros (id & [[Hf Hs%Hn] ->] & Hr%(IH Hs)). naive_solver.
  - intros (-> & Hnd & [Hf Hall]). assert (Hs : NoDup (seen ++ [node_id f])).
    { rewrite cons_middle, app_assoc in Hnd. by apply NoDup_app in Hnd as [Hnd _]. }
    exists (node_id f). rewrite Hn. split; [done|]. by apply (IH Hs).
Qed.

Definition fields_of_document (data : gmap string json) : list json := as_list (topLevelValueExists data "contractFields").

Lemma canonicalFieldIDs_Ok data ids :
  canonicalFieldIDs data = Ok ids ↔ ids = node_id <$> fields_of_document data ∧ fields_ok (fields_of_document data).
Proof. unfold canonicalFieldIDs. rewrite field_ids_Ok by constructor. unfold fields_ok. naive_solver. Qed.

(** ** Clause content *)
Definition content_ok (fieldIDs : list string) (block : json) : Prop :=
  ∀ m items s, block = JObj m → jsonLDList (m !! "dcs:content") = Some items → s ∈ items →
    nonblank (node_id s) → node_id s ∈ fieldIDs.

Lemma content_Ok fieldIDs block :
  is_node block → validateBlockFieldReferences fieldIDs block = Ok () ↔ content_ok fieldIDs block.
Proof.
  intros [m ->]. cbn [validateBlockFieldReferences]. unfold content_ok. rewrite first_error_map.
  assert (Hs : ∀ s, segment_known fieldIDs s = Ok () ↔ (nonblank (node_id s) → node_id s ∈ fieldIDs)).
  { intros s. unfold segment_known. rewrite <-blank_false. destruct (Policies.blank _); cbn; [naive_solver|].
    case_bool_decide; naive_solver. }
  setoid_rewrite Hs. destruct (jsonLDList (m !! "dcs:content")) as [items|] eqn:E; cbn; [naive_solver|].
  split; [|set_solver]. intros _ m' ? ? [= <-]. congruence.
Qed.

(** ** The contract-data graph *)
Definition object_ok (o : json) : Prop :=
  ∃ m, o = JObj m ∧ nonblank (as_string (m !! "@id")) ∧ nonblank (as_string (m !! "@type")).

Definition reference_to (x : gmap string json) (id : string) : Prop := size x = 1%nat ∧ x !! "@id" = Some (JStr id).

(** A value is a literal, or refers to a field, to an object of the document or to
    something outside it. *)
Definition value_ok (documentID : string) (fieldIDs objectIDs : list string) (x : json) : Prop :=
  ∀ o, x = JObj o →
    (∃ id, reference_to o id ∧ (id ∈ fieldIDs ∨ id ∈ objectIDs ∨ isExternalResourceIRI id documentID = true)) ∨
    (is_Some (o !! "@value") ∧ ∀ id, ¬ reference_to o id).

Definition data_ok (documentID : string) (fieldIDs : list string) (objects : list json) : Prop :=
  Forall object_ok objects ∧
  ∀ o k v x, JObj o ∈ objects → o !! k = Some v → HasPrefix k "@" = false → x ∈ members v →
    value_ok documentID fieldIDs (node_id <$> objects) x.

Lemma object_id_Ok o y : object_id o = Ok y ↔ object_ok o ∧ y = node_id o.
Proof.
  unfold object_id, object_ok. destruct o as [| | | | |m]; try naive_solver.
  rewrite !refuse_or, !blank_false. cbn [node_id]. naive_solver.
Qed.

Lemma value_Ok documentID fieldIDs objectIDs x :
  validateContractDataValue documentID fieldIDs objectIDs x = Ok () ↔ value_ok documentID fieldIDs objectIDs x.
Proof.
  unfold validateContractDataValue, value_ok, reference_to. destruct x as [| | | | |o]; try (split; [intros _ ? [=]|done]).
  assert (Hother : (∀ id, ¬ (size o = 1%nat ∧ o !! "@id" = Some (JStr id))) →
    (if bool_decide (is_Some (o !! "@value")) then Ok () else
       Err (Errorf "must be a literal, a contract-field reference, or a reference to another domain object")) = Ok () ↔
    ∀ o', JObj o = JObj o' →
      (∃ id, (size o' = 1%nat ∧ o' !! "@id" = Some (JStr id)) ∧
         (id ∈ fieldIDs ∨ id ∈ objectIDs ∨ isExternalResourceIRI id documentID = true)) ∨
      (is_Some (o' !! "@value") ∧ ∀ id, ¬ (size o' = 1%nat ∧ o' !! "@id" = Some (JStr id)))).
  { intros Hno. case_bool_decide; split; try done; [intros _ o' [= <-]; by right|].
    intros Hv. destruct (Hv o eq_refl) as [(id & Hid & _) | [? _]]; [by destruct (Hno id)|done]. }
  cbv zeta. destruct (o !! "@id") as [[| | |id| |]|] eqn:E; try (apply Hother; intros ? [_ [=]]).
  destruct (bool_decide_reflect (size o = 1%nat)) as [Hsize | Hsize]; [|apply Hother; by intros ? [? _]].
  destruct (bool_decide (id ∈ fieldIDs) || bool_decide (id ∈ objectIDs) || isExternalResourceIRI id documentID) eqn:Eb.
  - split; [|done]. intros _ o' [= <-]. left. exists id. split; [done|]. rewrite !orb_true_iff, !bool_decide_eq_true in Eb. tauto.
  - split; [done|]. intros Hv. rewrite !orb_false_iff, !bool_decide_eq_false in Eb.
    destruct (Hv o eq_refl) as [(id' & [_ Hid] & Hin) | [_ Hno]]; [|by destruct (Hno id)].
    rewrite E in Hid. simplify_eq. destruct Eb as [[? ?] ?]. destruct Hin as [?|[?|?]]; congruence.
Qed.

Lemma elem_of_property_values o x : x ∈ property_values o ↔
  ∃ k v, o !! k = Some v ∧ HasPrefix k "@" = false ∧ x ∈ members v.
Proof.
  unfold property_values. change (_ <$> map_to_list o) with
    (map (λ kv : string * json, if HasPrefix kv.1 "@" then [] else members kv.2) (map_to_list o)).
  rewrite elem_of_concat_map. split.
  - intros ([k v] & Hin & Hx). apply elem_of_map_to_list in Hin. cbn [fst snd] in Hx.
    destruct (HasPrefix k "@") eqn:Ek; [by apply elem_of_nil in Hx|eauto].
  - intros (k & v & Hv & Hk & Hx). exists (k, v). cbn [fst snd]. rewrite Hk. split; [|done]. by apply elem_of_map_to_list.
Qed.

Lemma data_Ok data fieldIDs :
  validateContractDataGraph data fieldIDs = Ok () ↔
  data_ok (as_string (data !! "@id")) fieldIDs (as_list (topLevelValueExists data "contractData")).
Proof.
  unfold validateContractDataGraph, data_ok. set (objects := as_list _). rewrite result_bind_Ok.
  setoid_rewrite (mapM_spec _ node_id _ objects _ object_id_Ok). setoid_rewrite first_error_map.
  setoid_rewrite value_Ok. setoid_rewrite elem_of_concat_map. setoid_rewrite elem_of_objects.
  setoid_rewrite elem_of_property_values. split.
  - intros (ids & [Hall ->] & Hv). split; [done|]. intros o k v x Ho Hk Hp Hx. apply Hv. eauto 8.
  - intros [Hall Hv]. eexists. split; [by split|]. intros x (o & Ho & k & v & Hk & Hp & Hx). by eapply Hv.
Qed.

(** ** The envelope *)
Record references_ok (data : gmap string json) (blocks layout : list json) : Prop := {
  ref_blocks : blocks_ok blocks;
  ref_layout : layout_ok blocks layout;
  ref_fields : fields_ok (fields_of_document data);
  ref_content : Forall (content_ok (node_id <$> fields_of_document data)) blocks;
  ref_data : data_ok (as_string (data !! "@id")) (node_id <$> fields_of_document data)
               (as_list (topLevelValueExists data "contractData"));
  ref_operands : operands_resolve (node_id <$> fields_of_document data) (topLevelValueExists data "policies")
}.

Lemma references_Ok data structure :
  validateCanonicalReferences data structure = Ok () ↔
  ∃ blocks layout, list_or_array (structure !! "dcs:blocks") = Some blocks ∧
    list_or_array (structure !! "dcs:layout") = Some layout ∧ references_ok data blocks layout.
Proof.
  unfold validateCanonicalReferences.
  destruct (list_or_array (structure !! "dcs:blocks")) as [blocks|]; [|naive_solver].
  destruct (list_or_array (structure !! "dcs:layout")) as [layout|]; [|naive_solver].
  rewrite result_bind_Ok. setoid_rewrite read_all_blocks. split.
  - intros (ids & [-> Hb] & H). apply result_bind_Ok in H as (nodes & Hm & H). rewrite !refuse_or in H.
    destruct H as (Hr%negb_false_iff%bool_decide_eq_true & Hp & H).
    apply result_bind_Ok in H as (fids & [-> Hf]%canonicalFieldIDs_Ok & H).
    rewrite !result_then, first_error_map, data_Ok, validatePolicyOperands_spec in H. destruct H as (Hc & Hd & Ho).
    rewrite block_entry_ids in Hm.
    exists blocks, layout. split_and!; [done..|]. split; try done.
    + apply layout_Ok. by exists nodes.
    + apply Forall_forall. intros b Hin. apply content_Ok; [|by apply Hc].
      destruct Hb as [_ Hb]. by apply (proj1 (Forall_forall _ _) Hb) in Hin as [? _].
  - intros (? & ? & [= <-] & [= <-] & [Hb Hl Hf Hc Hd Ho]).
    apply layout_Ok in Hl as (nodes & Hm & Hr & Hp). eexists. split; [by split|]. rewrite block_entry_ids.
    apply result_bind_Ok. exists nodes. split; [done|]. rewrite !refuse_or, negb_false_iff, bool_decide_eq_true.
    split_and!; [done..|]. apply result_bind_Ok. eexists. rewrite canonicalFieldIDs_Ok. split; [by split|].
    rewrite !result_then, first_error_map, data_Ok, validatePolicyOperands_spec. split_and!; [|done..].
    intros b Hin. apply content_Ok; [|by apply (proj1 (Forall_forall _ _) Hc)].
    destruct Hb as [_ Hb]. by apply (proj1 (Forall_forall _ _) Hb) in Hin as [? _].
Qed.

(** A document whose envelope is well-formed and closed under its references. *)
Definition well_formed (policyTypes : list string) (data : gmap string json) : Prop :=
  ∃ structure blocks layout,
    topLevelValueExists data "documentStructure" = Some (JObj structure) ∧
    containsODRLTerms (JObj structure) = false ∧
    (∀ v, topLevelValueExists data "metadata" = Some v → is_node v) ∧
    (∀ v, topLevelValueExists data "contractData" = Some v → ∃ l, v = JArr l) ∧
    (∀ v, topLevelValueExists data "contractFields" = Some v → ∃ l, v = JArr l) ∧
    (∀ v, topLevelValueExists data "policies" = Some v → policy_ok policyTypes v) ∧
    list_or_array (structure !! "dcs:blocks") = Some blocks ∧
    list_or_array (structure !! "dcs:layout") = Some layout ∧
    references_ok data blocks layout.

Lemma if_present_Ok data name ok (P : json → Prop) : (∀ v, ok v = Ok () ↔ P v) →
  if_present data name ok = Ok () ↔ ∀ v, topLevelValueExists data name = Some v → P v.
Proof. intros H. unfold if_present. destruct (topLevelValueExists data name); rewrite ?H; naive_solver. Qed.

