(* ===== verification/EnvelopeNormal.v ===== *)
(** Normalising a document twice changes nothing: every step of
    [normalizeCanonicalEnvelope] is the identity on its result. *)
From S2P Require Import Prelude Json Document Identity Anchors Policies Envelopes EnvelopeChecks.
Import GoStrings.

(** ** The types a document asserts *)
Lemma elem_of_walk_obj m t : t ∈ walk_types (JObj m) ↔
  t ∈ own_types m ∨ ∃ k v, k ≠ "@type" ∧ m !! k = Some v ∧ t ∈ walk_types v.
Proof.
  cbn [walk_types]. rewrite elem_of_app. apply or_iff_compat_l.
  change (concat (map_to_list (delete "@type" (walk_types <$> m))).*2)
    with (concat (map snd (map_to_list (delete "@type" (walk_types <$> m))))).
  rewrite elem_of_concat_map. split.
  - intros ([k l] & [Hk Hl]%elem_of_map_to_list%lookup_delete_Some & Ht). rewrite lookup_fmap in Hl.
    apply fmap_Some in Hl as (v & Hv & ->). exists k, v. by split.
  - intros (k & v & Hk & Hv & Ht). exists (k, walk_types v). split; [|done]. apply elem_of_map_to_list.
    by rewrite lookup_delete_ne, lookup_fmap, Hv.
Qed.

Lemma elem_of_walk_arr l t : t ∈ walk_types (JArr l) ↔ ∃ v, v ∈ l ∧ t ∈ walk_types v.
Proof. apply elem_of_concat_map. Qed.

Lemma walk_insert k v m t : k ≠ "@type" →
  t ∈ walk_types (JObj (<[k := v]> m)) → t ∈ walk_types v ∨ t ∈ walk_types (JObj m).
Proof.
  intros Hk. rewrite !elem_of_walk_obj. unfold own_types. rewrite lookup_insert_ne by done.
  intros [Ht | (k' & v' & Hk' & [[-> ->] | [Hne Hv]]%lookup_insert_Some & Ht)]; [auto..|]. right. eauto 6.
Qed.

Lemma walk_field k v m t : bool_decide (k = "@type") = false → m !! k = Some v → t ∈ walk_types v → t ∈ walk_types (JObj m).
Proof. intros ?%bool_decide_eq_false_1 ??. apply elem_of_walk_obj. eauto 6. Qed.

Lemma elem_of_assertedTypeIRIs data t : t ∈ assertedTypeIRIs data ↔ t ∈ walk_types (JObj data).
Proof.
  unfold assertedTypeIRIs. rewrite merge_sort_Permutation, dedup_from_spec. set_solver.
Qed.

(** ** What a document declares *)
Lemma elem_of_collected seen entries a :
  a ∈ ((λ d, (decl_Name d, decl_Version d)) <$> collect seen entries) ↔
  a ∉ seen ∧ ∃ e, e ∈ entries ∧ anchor_of (anchorIRI (Some e)) = Some a.
Proof.
  revert seen. induction entries as [|e entries IH]; intros seen; cbn [collect fmap list_fmap].
  { split; [by intros ?%elem_of_nil|]. by intros (_ & ? & ?%elem_of_nil & _). }
  destruct (anchor_of (anchorIRI (Some e))) as [b|] eqn:Eb; cbn zeta.
  - case_bool_decide as Hb.
    + rewrite IH. setoid_rewrite elem_of_cons. naive_solver.
    + cbn [fmap list_fmap]. rewrite elem_of_cons, IH. setoid_rewrite elem_of_cons. destruct b as [name ver]. cbn [fst snd].
      destruct (decide (a = (name, ver))) as [->|Hne]; naive_solver.
  - rewrite IH. setoid_rewrite elem_of_cons. naive_solver.
Qed.

Lemma elem_of_declared data a : a ∈ declaredShapesGraphs data ↔
  ∃ e, e ∈ declaration_entries (data !! "sh:shapesGraph") ∧ anchor_of (anchorIRI (Some e)) = Some a.
Proof. unfold declaredShapesGraphs, declaredShapesGraphDeclarations. rewrite elem_of_collected. set_solver. Qed.

(** ** Layout nodes *)
Lemma update_top_ne name f data k : k ≠ String.append "dcs:" name → k ≠ name → update_top name f data !! k = data !! k.
Proof.
  intros H1 H2. unfold update_top. case_match; [|done].
  apply lookup_insert_ne. by destruct (top_level_key_cases data name) as [-> | ->].
Qed.

Lemma update_top_is_Some name f data k : is_Some (update_top name f data !! k) ↔ is_Some (data !! k).
Proof.
  unfold update_top. destruct (data !! top_level_key data name) as [v|] eqn:E; [|done].
  rewrite lookup_insert_is_Some. destruct (decide (top_level_key data name = k)) as [<-|]; naive_solver.
Qed.

Lemma update_top_settled name f data : (∀ v, f (f v) = f v) → update_top name f (update_top name f data) = update_top name f data.
Proof.
  intros Hf. unfold update_top at 1. rewrite (top_level_key_same data) by (intros; apply update_top_is_Some).
  unfold update_top. destruct (data !! top_level_key data name) as [v|] eqn:E; [|by rewrite E].
  rewrite lookup_insert_eq, Hf. apply insert_insert_eq.
Qed.

Lemma update_top_types name f data t (P : Prop) : name ≠ "@type" → (∀ v, t ∈ walk_types (f v) → t ∈ walk_types v ∨ P) →
  t ∈ walk_types (JObj (update_top name f data)) → t ∈ walk_types (JObj data) ∨ P.
Proof.
  intros Hn Hf. unfold update_top. destruct (data !! top_level_key data name) as [v|] eqn:E; [|by left].
  assert (Hk : top_level_key data name ≠ "@type") by (by destruct (top_level_key_cases data name) as [-> | ->]).
  intros [[H | H]%Hf | H]%walk_insert; [|by right|by left|done].
  left. eapply walk_field; [by apply bool_decide_eq_false_2|exact E|exact H].
Qed.

Lemma typed_node_settled node : typed_node (typed_node node) = typed_node node.
Proof.
  destruct node as [| | | | |n]; try done. cbn [typed_node]. case_bool_decide as H; cbn [typed_node].
  - by rewrite lookup_insert_eq.
  - by rewrite bool_decide_eq_false_2.
Qed.

Lemma typed_node_types node t : t ∈ walk_types (typed_node node) → t ∈ walk_types node ∨ t = "dcs:LayoutNode".
Proof.
  destruct node as [| | | | |n]; try (by left). cbn [typed_node]. case_bool_decide; [|by left].
  rewrite !elem_of_walk_obj. unfold own_types at 1. rewrite lookup_insert_eq.
  intros [?%list_elem_of_singleton | (k & v & Hk & Hv & Ht)]; [by right|].
  rewrite lookup_insert_ne in Hv by done. left. eauto 6.
Qed.

Lemma typed_nodes_settled nodes : map typed_node (map typed_node nodes) = map typed_node nodes.
Proof. rewrite map_map. apply map_ext, typed_node_settled. Qed.

Lemma typed_nodes_types nodes t : t ∈ walk_types (JArr (map typed_node nodes)) → t ∈ walk_types (JArr nodes) ∨ t = "dcs:LayoutNode".
Proof.
  rewrite !elem_of_walk_arr. intros (v & (n & -> & Hn)%list_elem_of_fmap & [Ht | ->]%typed_node_types); [|by right].
  left. eauto.
Qed.

Lemma typed_layout_settled v : typed_layout (typed_layout v) = typed_layout v.
Proof.
  destruct v as [| | | |nodes|container]; try done; cbn [typed_layout]; [by rewrite typed_nodes_settled|].
  destruct (container !! "@list") as [[| | | |nodes|]|] eqn:E; cbn [typed_layout]; try by rewrite E.
  by rewrite lookup_insert_eq, typed_nodes_settled, insert_insert_eq.
Qed.

Lemma typed_layout_types v t : t ∈ walk_types (typed_layout v) → t ∈ walk_types v ∨ t = "dcs:LayoutNode".
Proof.
  destruct v as [| | | |nodes|container]; cbn [typed_layout]; try (by left); [apply typed_nodes_types|].
  destruct (container !! "@list") as [[| | | |nodes|]|] eqn:E; try (by left).
  intros [[H | H]%typed_nodes_types | H]%walk_insert; [|by right|by left|done].
  left. exact (walk_field "@list" _ _ _ eq_refl E H).
Qed.

Lemma typeLayoutNodes_settled data : typeLayoutNodes (typeLayoutNodes data) = typeLayoutNodes data.
Proof.
  apply update_top_settled. intros []; try done. by rewrite update_top_settled by apply typed_layout_settled.
Qed.

Lemma typeLayoutNodes_types data t : t ∈ walk_types (JObj (typeLayoutNodes data)) →
  t ∈ walk_types (JObj data) ∨ t = "dcs:LayoutNode".
Proof.
  apply update_top_types; [done|]. intros [| | | | |structure]; try (by left).
  apply update_top_types; [done|]. intros v. apply typed_layout_types.
Qed.

Section normal.
Context (hub : Hub).

(** The installed index: a library's URL reads back as its name, and no library
    governs the layout nodes. *)
Definition index_ok : Prop :=
  (∀ class name url, shapeLibraryAnchors hub !! class = Some (name, url) → anchor_of url = Some (name, anchorVersion url)) ∧
  shapeLibraryAnchors hub !! "dcs:LayoutNode" = None.

(** Every class the document uses is under its library. *)
Definition libraries_declared (d : gmap string json) : Prop :=
  ∀ class name url, class ∈ walk_types (JObj d) → shapeLibraryAnchors hub !! class = Some (name, url) →
    (name, anchorVersion url) ∈ declaredShapesGraphs d.

Lemma added_anchors_nil declared classes :
  (∀ class name url, class ∈ classes → shapeLibraryAnchors hub !! class = Some (name, url) →
     (name, anchorVersion url) ∈ declared) → added_anchors hub declared classes = [].
Proof.
  induction classes as [|c classes IH]; intros H; [done|]. cbn [added_anchors].
  assert (IH' : added_anchors hub declared classes = []) by (apply IH; intros; eapply H; [by right|done]).
  destruct (shapeLibraryAnchors hub !! c) as [[name url]|] eqn:E; [|done].
  rewrite bool_decide_eq_true_2; [done|]. eapply H; [by left|done].
Qed.

Lemma added_anchors_cover declared classes class name url :
  class ∈ classes → shapeLibraryAnchors hub !! class = Some (name, url) →
  (name, anchorVersion url) ∈ declared ∨
  ∃ class' url', url' ∈ added_anchors hub declared classes ∧ shapeLibraryAnchors hub !! class' = Some (name, url') ∧
    anchorVersion url' = anchorVersion url.
Proof.
  revert declared. induction classes as [|c classes IH]; intros declared; [by intros ?%elem_of_nil|].
  intros Hin Hl. cbn [added_anchors]. apply elem_of_cons in Hin as [<- | Hin].
  - rewrite Hl. case_bool_decide; [by left|]. right. exists class, url. split; [by left|done].
  - destruct (shapeLibraryAnchors hub !! c) as [[n u]|] eqn:E; [|by apply IH]. case_bool_decide; [by apply IH|].
    destruct (IH ((n, anchorVersion u) :: declared) Hin Hl) as [Hd | (class' & url' & Hu & Hl' & Hv)].
    + apply elem_of_cons in Hd as [Hd | Hd]; [|by left]. simplify_eq. right. exists c, u. split; [by left|done].
    + right. exists class', url'. split; [by right|done].
Qed.

Lemma declare_settled d : libraries_declared d → declareShapeLibraries hub d = d.
Proof.
  intros H. unfold declareShapeLibraries. rewrite added_anchors_nil; [done|].
  intros class name url Hc. apply H. by apply elem_of_assertedTypeIRIs.
Qed.

Lemma declare_ne d k : k ≠ "sh:shapesGraph" → declareShapeLibraries hub d !! k = d !! k.
Proof. intros Hk. unfold declareShapeLibraries. case_match; [done|]. by apply lookup_insert_ne. Qed.

(** What declaring adds asserts no type. *)
Lemma declare_types d t : t ∈ walk_types (JObj (declareShapeLibraries hub d)) → t ∈ walk_types (JObj d).
Proof.
  unfold declareShapeLibraries. set (added := added_anchors _ _ _). destruct added as [|url rest]; [done|].
  intros [H | H]%walk_insert; [|done..]. apply elem_of_walk_arr in H as (v & [Hv | Hv]%elem_of_app & Ht).
  - destruct (d !! "sh:shapesGraph") as [[| | | |l|]|] eqn:E; cbn [default from_option id] in Hv;
      try (apply list_elem_of_singleton in Hv as ->; apply (walk_field "sh:shapesGraph" _ _ _ eq_refl E Ht)).
    + apply (walk_field "sh:shapesGraph" _ _ _ eq_refl E), elem_of_walk_arr. eauto.
    + apply list_elem_of_singleton in Hv as ->. by apply elem_of_nil in Ht.
  - apply list_elem_of_fmap in Hv as (u & -> & _). apply elem_of_walk_obj in Ht as [Ht | (k & v & _ & Hv & Ht)].
    + by apply elem_of_nil in Ht.
    + apply lookup_singleton_Some in Hv as [<- <-]. by apply elem_of_nil in Ht.
Qed.

Lemma declare_declares d : index_ok → is_Some (d !! "sh:shapesGraph") → libraries_declared (declareShapeLibraries hub d).
Proof.
  intros [Hix _] [v Hv] class name url Hc Hl. apply declare_types, elem_of_assertedTypeIRIs in Hc.
  destruct (added_anchors_cover (declaredShapesGraphs d) _ _ _ _ Hc Hl) as [Hd | (class' & url' & Hu & Hl' & Hver)].
  - unfold declareShapeLibraries. case_match; [done|]. apply elem_of_declared in Hd as (e & He & Ha).
    apply elem_of_declared. exists e. split; [|done]. rewrite lookup_insert_eq, Hv in *. cbn [declaration_entries] in *.
    apply elem_of_app. left. by destruct v.
  - unfold declareShapeLibraries. destruct (added_anchors _ _ _) as [|u us] eqn:E; [by apply elem_of_nil in Hu|].
    apply elem_of_declared. exists (ref_node url'). rewrite lookup_insert_eq. cbn [declaration_entries]. split.
    + apply elem_of_app. right. by apply list_elem_of_fmap_2.
    + change (anchorIRI (Some (ref_node url'))) with url'. rewrite <-Hver. by eapply Hix.
Qed.

(** ** The stages before *)
Lemma normalizeCanonicalContext_ne d k : k ≠ "@context" → normalizeCanonicalContext hub d !! k = d !! k.
Proof. intros Hk. unfold normalizeCanonicalContext. repeat case_match; rewrite ?lookup_insert_ne by done; done. Qed.

Lemma own_anchor : isHubContextAnchor (schemaRefJSONLDContext hub) (schemaRefJSONLDContext hub) = true.
Proof. unfold isHubContextAnchor. rewrite (bool_decide_eq_true_2 (_ = _) eq_refl). apply orb_true_r. Qed.

(** The context is the hub's, or an array that names the hub's. *)
Definition context_settled (context : option json) : bool :=
  match context with
  | Some (JStr c) => isHubContextAnchor (schemaRefJSONLDContext hub) c
  | Some (JArr entries) => existsb (hub_entry hub) entries
  | _ => false
  end.

Lemma normalizeCanonicalContext_settles d : context_settled (normalizeCanonicalContext hub d !! "@context") = true.
Proof.
  unfold normalizeCanonicalContext.
  destruct (d !! "@context") as [[| | |c|l|m]|] eqn:E; rewrite ?lookup_insert_eq; cbn [context_settled existsb hub_entry];
    rewrite ?own_anchor; try done.
  - destruct (isHubContextAnchor _ c) eqn:H; rewrite ?E, ?lookup_insert_eq; cbn [context_settled existsb hub_entry];
      by rewrite ?own_anchor.
  - destruct (existsb (hub_entry hub) l) eqn:H; rewrite ?E, ?lookup_insert_eq; cbn [context_settled existsb hub_entry];
      by rewrite ?own_anchor.
Qed.

Lemma normalizeCanonicalContext_id d : context_settled (d !! "@context") = true → normalizeCanonicalContext hub d = d.
Proof. unfold context_settled, normalizeCanonicalContext. repeat case_match; intros; simplify_eq; congruence. Qed.

Lemma normalizeCanonicalContext_ontology canonical d :
  enforceCanonicalOntologyIRIs canonical (normalizeCanonicalContext hub d) = enforceCanonicalOntologyIRIs canonical d.
Proof.
  unfold enforceCanonicalOntologyIRIs, normalizeCanonicalContext.
  destruct (d !! "@context") as [[| | |c|l|m]|] eqn:E; rewrite ?lookup_insert_eq; try done.
  - destruct (isHubContextAnchor _ c); by rewrite ?E, ?lookup_insert_eq.
  - destruct (existsb _ l); by rewrite ?E, ?lookup_insert_eq.
  - cbn. by destruct (enforceCanonicalOntologyIRIMap m canonical) as [[]|].
Qed.

Lemma with_type_id T d : Policies.blank (as_string (d !! "@type")) = false → with_type T d = d.
Proof. unfold with_type. by intros ->. Qed.

Lemma with_type_settles T d : Policies.blank T = false → Policies.blank (as_string (with_type T d !! "@type")) = false.
Proof. intros HT. unfold with_type. destruct (Policies.blank (as_string (d !! _))) eqn:E; [by rewrite lookup_insert_eq|done]. Qed.

Lemma with_type_ne T d k : k ≠ "@type" → with_type T d !! k = d !! k.
Proof. intros. unfold with_type. case_match; [by apply lookup_insert_ne|done]. Qed.

Lemma with_shapes_id d : is_Some (d !! "sh:shapesGraph") → with_shapes hub d = d.
Proof. unfold with_shapes. by intros [v ->]. Qed.

Lemma with_shapes_settles d : is_Some (with_shapes hub d !! "sh:shapesGraph").
Proof. unfold with_shapes. destruct (d !! "sh:shapesGraph") eqn:E; [by rewrite E|by rewrite lookup_insert_eq]. Qed.

Lemma with_shapes_ne d k : k ≠ "sh:shapesGraph" → with_shapes hub d !! k = d !! k.
Proof. intros. unfold with_shapes. case_match; [done|by apply lookup_insert_ne]. Qed.

Lemma topLevelValueExists_is_Some d name :
  is_Some (topLevelValueExists d name) ↔ is_Some (d !! String.append "dcs:" name) ∨ is_Some (d !! name).
Proof. unfold topLevelValueExists. destruct (d !! String.append "dcs:" name); naive_solver. Qed.

Lemma with_default_id name d : is_Some (topLevelValueExists d name) → with_default name d = d.
Proof. unfold with_default. by intros [v ->]. Qed.

Lemma with_default_settles name d : is_Some (topLevelValueExists (with_default name d) name).
Proof.
  unfold with_default. destruct (topLevelValueExists d name) as [v|] eqn:E; [by rewrite E|].
  apply topLevelValueExists_is_Some. left. by rewrite lookup_insert_eq.
Qed.

Lemma with_default_Some name d k : is_Some (d !! k) → with_default name d !! k = d !! k.
Proof.
  intros [v Hv]. unfold with_default. destruct (topLevelValueExists d name) as [w|] eqn:E; [done|].
  apply lookup_insert_ne. intros <-. unfold topLevelValueExists in E. by rewrite Hv in E.
Qed.

Lemma with_default_ne name d k : k ≠ String.append "dcs:" name → with_default name d !! k = d !! k.
Proof. intros. unfold with_default. case_match; [done|by apply lookup_insert_ne]. Qed.

Lemma with_default_types name d t : t ∈ walk_types (JObj (with_default name d)) → t ∈ walk_types (JObj d).
Proof. unfold with_default. case_match; [done|]. by intros [?%elem_of_nil | ?]%walk_insert. Qed.

(** ** The whole *)

(** What normalisation leaves alone from then on. *)
Record settled (e : gmap string json) : Prop := {
  s_context : context_settled (e !! "@context") = true;
  s_type : Policies.blank (as_string (e !! "@type")) = false;
  s_shapes : is_Some (e !! "sh:shapesGraph");
  s_libraries : libraries_declared e;
  s_defaults : ∀ name, name ∈ ["contractData"; "contractFields"; "policies"] → is_Some (topLevelValueExists e name);
  s_layout : typeLayoutNodes e = e
}.

Lemma settled_id T e : settled e → normalizeCanonicalEnvelope hub T e = e.
Proof.
  intros [Hc Ht Hs Hl Hd Hn]. unfold normalizeCanonicalEnvelope. cbv zeta.
  rewrite (normalizeCanonicalContext_id _ Hc), (with_type_id _ _ Ht), (with_shapes_id _ Hs), (declare_settled _ Hl).
  rewrite (with_default_id "contractData") by (apply Hd; set_solver).
  rewrite (with_default_id "contractFields"), (with_default_id "policies") by (apply Hd; set_solver). exact Hn.
Qed.

Definition defaulted (d : gmap string json) : gmap string json :=
  with_default "policies" (with_default "contractFields" (with_default "contractData" d)).

Lemma with_default_is_Some name d k : is_Some (d !! k) → is_Some (with_default name d !! k).
Proof. intros H. by rewrite with_default_Some. Qed.

Lemma defaulted_Some d k : is_Some (d !! k) → defaulted d !! k = d !! k.
Proof. intros H. unfold defaulted. by rewrite !with_default_Some by auto using with_default_is_Some. Qed.

Lemma with_default_keeps name name' d :
  is_Some (topLevelValueExists d name) → is_Some (topLevelValueExists (with_default name' d) name).
Proof. rewrite !topLevelValueExists_is_Some. intros [H | H]; auto using with_default_is_Some. Qed.

Lemma defaulted_settles d name :
  name ∈ ["contractData"; "contractFields"; "policies"] → is_Some (topLevelValueExists (defaulted d) name).
Proof.
  unfold defaulted. intros H. repeat (apply elem_of_cons in H as [-> | H]); [..|by apply elem_of_nil in H];
    auto using with_default_keeps, with_default_settles.
Qed.

Lemma typeLayoutNodes_ne d k : k ≠ "dcs:documentStructure" → k ≠ "documentStructure" → typeLayoutNodes d !! k = d !! k.
Proof. apply update_top_ne. Qed.

Lemma typeLayoutNodes_is_Some d k : is_Some (typeLayoutNodes d !! k) ↔ is_Some (d !! k).
Proof. apply update_top_is_Some. Qed.

Lemma normalizeCanonicalEnvelope_settles T d :
  index_ok → Policies.blank T = false → settled (normalizeCanonicalEnvelope hub T d).
Proof.
  intros Hix HT. unfold normalizeCanonicalEnvelope. cbv zeta.
  set (d1 := with_shapes _ _). set (d2 := declareShapeLibraries hub d1). fold (defaulted d2).
  assert (Hlate : ∀ k, k ≠ "dcs:documentStructure" → k ≠ "documentStructure" → is_Some (d2 !! k) →
    typeLayoutNodes (defaulted d2) !! k = d2 !! k).
  { intros k H1 H2 H3. by rewrite typeLayoutNodes_ne, defaulted_Some. }
  assert (Hc : context_settled (d2 !! "@context") = true).
  { unfold d2, d1. rewrite declare_ne, with_shapes_ne, with_type_ne by done. apply normalizeCanonicalContext_settles. }
  assert (Ht : Policies.blank (as_string (d2 !! "@type")) = false).
  { unfold d2, d1. rewrite declare_ne, with_shapes_ne by done. by apply with_type_settles. }
  assert (H1 : is_Some (d1 !! "sh:shapesGraph")) by apply with_shapes_settles.
  assert (Hs : is_Some (d2 !! "sh:shapesGraph")).
  { unfold d2, declareShapeLibraries. case_match; [done|]. by rewrite lookup_insert_eq. }
  split.
  - rewrite Hlate; try done. by destruct (d2 !! "@context").
  - rewrite Hlate; try done. by destruct (d2 !! "@type").
  - by rewrite Hlate.
  - intros class name url [Hin | ->]%typeLayoutNodes_types Hl; [|destruct Hix; congruence].
    unfold declaredShapesGraphs. rewrite Hlate by done.
    apply (declare_declares d1 Hix H1 class name url); [|done]. unfold defaulted in Hin. eauto using with_default_types.
  - intros name Hn. rewrite topLevelValueExists_is_Some, !typeLayoutNodes_is_Some, <-topLevelValueExists_is_Some.
    by apply defaulted_settles.
  - apply typeLayoutNodes_settled.
Qed.

(** What normalisation never writes. *)
Lemma normalizeCanonicalEnvelope_ne T d k :
  k ∉ ["@context"; "@type"; "sh:shapesGraph"; "dcs:contractData"; "dcs:contractFields"; "dcs:policies";
       "dcs:documentStructure"; "documentStructure"] → normalizeCanonicalEnvelope hub T d !! k = d !! k.
Proof.
  rewrite !not_elem_of_cons. intros (? & ? & ? & ? & ? & ? & ? & ? & _). unfold normalizeCanonicalEnvelope. cbv zeta.
  by rewrite typeLayoutNodes_ne, !with_default_ne, declare_ne, with_shapes_ne, with_type_ne, normalizeCanonicalContext_ne.
Qed.

Lemma normalizeCanonicalEnvelope_structure T d k : k = "dcs:documentStructure" ∨ k = "documentStructure" →
  is_Some (normalizeCanonicalEnvelope hub T d !! k) ↔ is_Some (d !! k).
Proof.
  intros Hk. unfold normalizeCanonicalEnvelope. cbv zeta. rewrite typeLayoutNodes_is_Some.
  destruct Hk as [-> | ->];
    by rewrite !with_default_ne, declare_ne, with_shapes_ne, with_type_ne, normalizeCanonicalContext_ne.
Qed.

Lemma normalizeCanonicalEnvelope_context T d :
  normalizeCanonicalEnvelope hub T d !! "@context" = normalizeCanonicalContext hub d !! "@context".
Proof.
  unfold normalizeCanonicalEnvelope. cbv zeta.
  by rewrite typeLayoutNodes_ne, !with_default_ne, declare_ne, with_shapes_ne, with_type_ne.
Qed.

(** The checks made before normalising pass on the result. *)
Lemma normal_still_canonical T d : isCanonicalEnvelope (normalizeCanonicalEnvelope hub T d) = isCanonicalEnvelope d.
Proof.
  unfold isCanonicalEnvelope.
  rewrite (bool_decide_ext _ _ (normalizeCanonicalEnvelope_structure T d _ (or_introl eq_refl))).
  by rewrite (bool_decide_ext _ _ (normalizeCanonicalEnvelope_structure T d _ (or_intror eq_refl))).
Qed.

Lemma normal_same_prefixes canonical T d :
  enforceCanonicalOntologyIRIs canonical (normalizeCanonicalEnvelope hub T d) = enforceCanonicalOntologyIRIs canonical d.
Proof.
  rewrite <-(normalizeCanonicalContext_ontology canonical d). unfold enforceCanonicalOntologyIRIs.
  by rewrite normalizeCanonicalEnvelope_context.
Qed.

Lemma normal_same_hierarchy T d :
  validateContractHierarchyInvariants (normalizeCanonicalEnvelope hub T d) = validateContractHierarchyInvariants d.
Proof.
  unfold validateContractHierarchyInvariants, childEnumeratingProperties. cbn [existsb].
  by rewrite !normalizeCanonicalEnvelope_ne by (rewrite !not_elem_of_cons, elem_of_nil; naive_solver).
Qed.
End normal.

(** What a document that passes every check is stored as. *)
Lemma contract_Ok hub raw doc : NormalizeContractData hub raw = Ok doc ↔
  ∃ d, decodeDocumentData raw = Ok d ∧ validateContractHierarchyInvariants d = Ok () ∧ isCanonicalEnvelope d = true ∧
    enforceCanonicalOntologyIRIs (canonicalOntologyIRIs hub) d = Ok () ∧
    let e := normalizeCanonicalEnvelope hub "dcs:Contract" d in
    validateContractMetadataType e = Ok () ∧ validateExternalContextsResolvable hub e = Ok () ∧
    validateCanonicalEnvelope e (expectedPolicyTypes "dcs:Contract") = Ok () ∧ doc = JObj e.
Proof.
  unfold NormalizeContractData. rewrite result_bind_Ok. apply exist_proper. intros d. cbv zeta.
  rewrite result_then, refuse_or, !result_then, negb_false_iff. naive_solver.
Qed.

Lemma template_Ok hub raw doc : NormalizeTemplateData hub raw = Ok doc ↔
  ∃ d, decodeDocumentData raw = Ok d ∧ isCanonicalEnvelope d = true ∧
    enforceCanonicalOntologyIRIs (canonicalOntologyIRIs hub) d = Ok () ∧
    let e := normalizeCanonicalEnvelope hub "dcs:ContractTemplate" d in
    validateExternalContextsResolvable hub e = Ok () ∧
    validateCanonicalEnvelope e (expectedPolicyTypes "dcs:ContractTemplate") = Ok () ∧ doc = JObj e.
Proof.
  unfold NormalizeTemplateData. rewrite result_bind_Ok. apply exist_proper. intros d. cbv zeta.
  rewrite refuse_or, !result_then, negb_false_iff. naive_solver.
Qed.

(** Normalising is idempotent: a template or contract that was normalised
    passes every check again and comes back unchanged - its context, types, shape
    library declarations, defaults and layout types are all settled by the first
    pass - as long as no registered library governs the layout nodes, which are typed
    after the libraries are declared. *)
Theorem normalization_is_idempotent hub raw doc (index : index_ok hub) :
  (NormalizeContractData hub raw = Ok doc → NormalizeContractData hub (Some doc) = Ok doc) ∧
  (NormalizeTemplateData hub raw = Ok doc → NormalizeTemplateData hub (Some doc) = Ok doc).
Proof.
  assert (Hid : ∀ T d, Policies.blank T = false →
    normalizeCanonicalEnvelope hub T (normalizeCanonicalEnvelope hub T d) = normalizeCanonicalEnvelope hub T d).
  { intros. by apply settled_id, normalizeCanonicalEnvelope_settles. }
  split.
  - intros (d & _ & Hh & Hc & Ho & Hm & He & Hv & ->)%contract_Ok. apply contract_Ok.
    exists (normalizeCanonicalEnvelope hub "dcs:Contract" d). rewrite normal_same_hierarchy, normal_still_canonical,
      normal_same_prefixes. cbv zeta. by rewrite Hid.
  - intros (d & _ & Hc & Ho & He & Hv & ->)%template_Ok. apply template_Ok.
    exists (normalizeCanonicalEnvelope hub "dcs:ContractTemplate" d). rewrite normal_still_canonical,
      normal_same_prefixes. cbv zeta. by rewrite Hid.
Qed.

(** A service contract whose one object is governed by a registered library. *)
Definition sample_hub : Hub := {|
  schemaRefJSONLDContext := "https://dcs.example/semantic/context/facis-dcs?version=3";
  schemaRefSHACLShapes := "https://dcs.example/semantic/shapes/facis-dcs?version=3";
  canonicalOntologyIRIs := {["dcs" := "https://w3id.org/facis/dcs/ontology/v1#"]};
  shapeLibraryAnchors :=
    {["ex:Service" := ("services", "https://dcs.example/semantic/shapes/services?version=2")]};
  ContextByIRI := Some (λ iri, bool_decide (iri = "https://schema.example/v1"))
|}.

Definition sample_contract : gmap string json :=
  <["@context" := JStr "https://schema.example/v1"]>
  (<["dcs:documentStructure" := JObj
      (<["dcs:blocks" := JArr [JObj {["@id" := JStr "#intro"]}]]>
       {["dcs:layout" := JArr [JObj
          (<["dcs:isRoot" := JBool true]>
           {["dcs:children" := JObj {["@list" := JArr [JObj {["@id" := JStr "#intro"]}]]}]})]]})]>
   {["dcs:contractData" := JArr [JObj (<["@id" := JStr "#service"]> {["@type" := JStr "ex:Service"]})]]}).

Lemma normalization_is_idempotent_witness :
  ∃ doc, NormalizeContractData sample_hub (Some (JObj sample_contract)) = Ok doc ∧
    NormalizeContractData sample_hub (Some doc) = Ok doc ∧ doc ≠ JObj sample_contract.
Proof.
  assert (ix : index_ok sample_hub).
  { split; [|reflexivity]. intros class name url Hl. unfold sample_hub in Hl. cbn [shapeLibraryAnchors] in Hl.
    apply lookup_singleton_Some in Hl as [<- [= <- <-]]. vm_compute. reflexivity. }
  destruct (NormalizeContractData sample_hub (Some (JObj sample_contract))) as [doc|e] eqn:H; [|vm_compute in H; discriminate].
  exists doc. split; [done|]. split; [exact (proj1 (normalization_is_idempotent _ _ _ ix) H)|].
  vm_compute in H. injection H as <-. vm_compute. discriminate.
Defined.
