(* ===== verification/Receive.v ===== *)
(** Receiving a contract a counterparty shipped as a PDF:
    internal/contractworkflowengine/command/receivepdf.go.

    The artifact store and the text Postgres renders a JSONB column as are
    reached through [ArtifactServices].  The advisory lock that queues concurrent
    receipts of one contract has no row of its own: transactions are atomic here. *)
From S2P Require Import Prelude Json ContractState Store Repos Sha256 Document Lifecycle Merging Negotiation Authoring.
Import GoStrings.

Class ArtifactServices := {
  (** [artifactstore.Store.Put] under the scope of a contract: the content id. *)
  Put : string → bytes → result string;
  (** The bytes of the [contract_data] column as it reads back. *)
  jsonb_text : option json → bytes
}.

Record PeerPdfReceiveCmd := {
  ContractIRI : string;
  Counterparty : string;
  LocalPeer : string;
  Payload : json;
  Pdf : bytes;
  AdoptRevoked : bool
}.

(** ** parseShippedContractMeta *)

(** [s[strings.LastIndex(s, "/")+1:]]. *)
Definition after_last_slash (s : string) : string := default EmptyString (last (split_on "/" s)).

(** [int(v)] of a JSON number: the digits before the point, with the exponent
    applied; exact for every number a float64 holds exactly. *)
Fixpoint span_digits (l : list ascii) : list ascii * list ascii :=
  match l with
  | c :: l' =>
      let n := Ascii.nat_of_ascii c in
      if bool_decide (48 <= n)%nat && bool_decide (n <= 57)%nat
      then let '(d, rest) := span_digits l' in (c :: d, rest) else ([], l)
  | [] => ([], [])
  end.

Definition exponent_of (l : list ascii) : Z :=
  match l with
  | ("e"%char | "E"%char) :: "-"%char :: ds => - default 0 (digits_Z 0 ds)
  | ("e"%char | "E"%char) :: "+"%char :: ds => default 0 (digits_Z 0 ds)
  | ("e"%char | "E"%char) :: ds => default 0 (digits_Z 0 ds)
  | _ => 0
  end.

Definition magnitude (l : list ascii) : Z :=
  let '(whole, rest) := span_digits l in
  let '(frac, rest) := match rest with "."%char :: r => span_digits r | _ => ([], rest) end in
  let m := default 0 (digits_Z 0 (whole ++ frac)) in
  let e := exponent_of rest - Z.of_nat (length frac) in
  if 0 <=? e then m * 10 ^ e else m / 10 ^ (- e).

Definition int_of_float (lit : string) : Z :=
  match String.list_ascii_of_string lit with
  | "-"%char :: ds => - magnitude ds
  | ds => magnitude ds
  end.

Definition parseShippedContractMeta (payload : json) : string * Z * option string :=
  match Unmarshal_map payload with
  | Err _ => (EmptyString, 0, None)
  | Ok doc =>
      let '(templateIRI, templateVersion) :=
        match as_object (doc !! "derivedFromTemplate") with
        | Some prov =>
            (match prov !! "@id" with Some (JStr id) => after_last_slash id | _ => EmptyString end,
             match prov !! "version" with Some (JNum v) => int_of_float v | _ => 0 end)
        | None => (EmptyString, 0)
        end in
      let title :=
        match as_object (doc !! "dcs:metadata") with
        | Some meta => as_string (meta !! "dcs:title")
        | None => EmptyString
        end in
      (templateIRI, templateVersion, if bool_decide (title = EmptyString) then None else Some title)
  end.

(** ** Handle *)
Definition shipped (cmd : PeerPdfReceiveCmd) (t createdAt : Z) (st : ContractState)
    (origin createdBy : string) (version : Z) (resp : option Responsible) : Contract :=
  let '(templateIRI, templateVersion, name) := parseShippedContractMeta (Payload cmd) in
  {| c_did := ContractIRI cmd; c_origin := origin; c_contract_version := version; c_state := st;
     c_created_by := createdBy; c_created_at := createdAt; c_updated_at := t;
     c_start_date := None; c_exp_date := None; c_exp_policy := None; c_exp_notice_period := None;
     c_name := name; c_description := None; c_responsible := resp;
     c_contract_data := Some (Payload cmd); c_template_did := templateIRI;
     c_template_version := templateVersion; c_target_id := None; c_content_updated_at := 0;
     c_pdf := no_pdf |}.

Definition landing_state (cmd : PeerPdfReceiveCmd) (own : ContractState) : ContractState :=
  if AdoptRevoked cmd then Revoked else own.

(** The parties of a copy received for the first time. *)
Definition received_responsible (cmd : PeerPdfReceiveCmd) : Responsible :=
  {| Creator := Counterparty cmd; Approvers := [LocalPeer cmd]; Reviewers := [LocalPeer cmd];
     Negotiators := [LocalPeer cmd]; Store.Counterparty := LocalPeer cmd |}.

Definition refresh_copy (cmd : PeerPdfReceiveCmd) (t : Z) (existing : Contract) : Tx ContractState :=
  let st := landing_state cmd (c_state existing) in
  let version := c_contract_version existing + 1 in
  _ ← wrap "could not update local contract copy" (ContractRepo.RemoteUpdate
        (shipped cmd t ContractRepo.time_zero st (c_origin existing) (c_created_by existing) version None));
  _ ← wrap "could not carry negotiation tasks to the new contract version"
        (NegotiationTaskRepo.RollForward (ContractIRI cmd) (c_contract_version existing) version);
  mret st.

Definition create_copy (cmd : PeerPdfReceiveCmd) (t : Z) : Tx ContractState :=
  let st := landing_state cmd Offered in
  let resp := received_responsible cmd in
  _ ← wrap "could not create local contract copy" (ContractRepo.RemoteCreate
        (shipped cmd t t st (Counterparty cmd) (Counterparty cmd) 1 (Some resp)));
  _ ← createReviewAndApprovalTasks (ContractIRI cmd) (LocalPeer cmd) resp;
  mret st.

Section handler.
Context `{ArtifactServices}.

Definition carry_over_pdf (cmd : PeerPdfReceiveCmd) (st : ContractState) : Tx () :=
  storedCID ← wrap "could not store carried-over peer PDF in IPFS" (lift (Put (ContractIRI cmd) (Pdf cmd)));
  c2paState ← wrap "could not map contract state to C2PA lifecycle"
    (lift (ArtifactC2PAState (state_String st) (Pdf cmd)));
  persisted ← wrap "could not re-read persisted contract data" (ContractRepo.ReadDataByDID (ContractIRI cmd));
  wrap "could not record carried-over PDF state"
    (ContractRepo.UpdatePDFState (ContractIRI cmd)
      {| IPFSCID := storedCID; RendererVersion := EmptyString; C2PAState := c2paState;
         PayloadHash := EncodeToString (Sum256
           match c_contract_data persisted with
           | Some _ => jsonb_text (c_contract_data persisted)
           | None => []
           end) |}).

Definition Handle (cmd : PeerPdfReceiveCmd) : Tx () :=
  existing ← wrap "could not read local contract copy"
    (ContractRepo.ReadProcessDataByDIDOrNil (ContractIRI cmd));
  t ← now;
  st ← match existing with
       | Some row => refresh_copy cmd t row
       | None => create_copy cmd t
       end;
  when (negb (bool_decide (Pdf cmd = []))) (carry_over_pdf cmd st).

End handler.

(** ** Lemmas *)
Lemma shipped_state cmd t ca st o cb v r : c_state (shipped cmd t ca st o cb v r) = st.
Proof. unfold shipped. by destruct (parseShippedContractMeta _) as [[? ?] ?]. Qed.

Lemma shipped_did cmd t ca st o cb v r : c_did (shipped cmd t ca st o cb v r) = ContractIRI cmd.
Proof. unfold shipped. by destruct (parseShippedContractMeta _) as [[? ?] ?]. Qed.

(** The stored row a remote update makes of [row], up to the trigger columns. *)
Lemma RemoteUpdate_row data e s u s' row :
  ContractRepo.RemoteUpdate data e s = Ok (u, s') → contracts s !! c_did data = Some row →
  contracts s' = <[c_did data := contracts_before_update (env_now e) row
                     (ContractRepo.createRemoteQuery data row)]> (contracts s).
Proof.
  unfold ContractRepo.RemoteUpdate. intros ->%update_row_Ok Hrow. simpl.
  apply map_eq. intros i. destruct (decide (i = c_did data)) as [->|Hne].
  - by rewrite lookup_alter_eq, Hrow, lookup_insert_eq.
  - by rewrite lookup_alter_ne, lookup_insert_ne.
Qed.

Lemma RollForward_Ok did v w e s u s' :
  NegotiationTaskRepo.RollForward did v w e s = Ok (u, s') →
  negotiation_tasks s' =
    update_where (NegotiationTaskRepo.of_round did v) (NegotiationTaskRepo.with_round w NTOpen)
      (negotiation_tasks s) ∧ contracts s' = contracts s.
Proof. unfold NegotiationTaskRepo.RollForward. intros HR. run_inv. done. Qed.

Lemma keeps_carry_over `{ArtifactServices} {B} (f : Store → B) cmd st :
  (∀ p, keeps f (ContractRepo.UpdatePDFState (ContractIRI cmd) p)) → keeps f (carry_over_pdf cmd st).
Proof. intros HF. unfold carry_over_pdf. keeps_tac. Qed.

Lemma column_insert {A} (col : Contract → A) did row (cs : gmap string Contract) :
  col <$> <[did := row]> cs = <[did := col row]> (col <$> cs).
Proof. apply fmap_insert. Qed.

(** A re-ship moves one state: to REVOKED when the peer revoked, else to the state
    the copy already reads. *)
Lemma refresh_states cmd t e s row st s' :
  contracts s !! ContractIRI cmd = Some row →
  refresh_copy cmd t (effective (env_now e) row) e s = Ok (st, s') →
  st = landing_state cmd (effective_state (env_now e) row) ∧
  column c_state s' = <[ContractIRI cmd := st]> (column c_state s).
Proof.
  intros Hrow. unfold refresh_copy. intros HR. run_inv.
  match goal with H : NegotiationTaskRepo.RollForward _ _ _ _ _ = _ |- _ =>
    apply RollForward_Ok in H as [_ E] end.
  match goal with H : ContractRepo.RemoteUpdate _ _ _ = _ |- _ =>
    eapply RemoteUpdate_row in H; [|rewrite shipped_did; exact Hrow] end.
  split; [done|]. unfold column. rewrite E. 
  match goal with H : contracts _ = insert _ _ _ |- _ => rewrite H end.
  rewrite column_insert, before_update_state, shipped_did. simpl. by rewrite shipped_state.
Qed.

Lemma create_states cmd t e s st s' :
  create_copy cmd t e s = Ok (st, s') →
  contracts s !! ContractIRI cmd = None ∧ st = landing_state cmd Offered ∧
  column c_state s' = <[ContractIRI cmd := st]> (column c_state s).
Proof.
  unfold create_copy. intros HR. run_inv.
  assert (K : keeps contracts (createReviewAndApprovalTasks (ContractIRI cmd) (LocalPeer cmd)
              (received_responsible cmd))) by (unfold createReviewAndApprovalTasks; keeps_tac).
  match goal with H : createReviewAndApprovalTasks _ _ _ _ _ = _ |- _ => apply K in H; rename H into E end.
  match goal with H : ContractRepo.RemoteCreate _ _ _ = _ |- _ =>
    unfold ContractRepo.RemoteCreate in H; run_inv end.
  match goal with H : ContractRepo.insert_row _ _ _ = _ |- _ =>
    apply insert_row_Ok in H as (Hnone & _ & ->) end.
  simpl in Hnone, E. rewrite shipped_did in Hnone, E. split; [done|]. split; [done|].
  unfold column. rewrite E. rewrite column_insert. simpl. by rewrite shipped_state.
Qed.
(** What a re-ship may not touch, and what it writes. *)
Definition local_columns (c : Contract) :=
  (c_state c, c_contract_version c, c_responsible c, c_origin c, c_created_by c, c_contract_data c,
   c_created_at c).

Lemma keeps_carry_over_column `{ArtifactServices} {A} (col : Contract → A) cmd st b :
  unstamped col → keeps (column col) (when b (carry_over_pdf cmd st)).
Proof.
  intros Hu. apply keeps_when, keeps_carry_over. intros. by apply keeps_column_UpdatePDFState.
Qed.

Lemma keeps_carry_over_table `{ArtifactServices} {B} (f : Store → B) cmd st b :
  (∀ s g, f (set_contracts g s) = f s) → keeps f (when b (carry_over_pdf cmd st)).
Proof.
  intros Hf. apply keeps_when, keeps_carry_over. intros. by apply keeps_UpdatePDFState.
Qed.

(** The tables of the local workflow. *)
Definition local_tables (s : Store) :=
  (review_tasks s, approval_tasks s, negotiations s, decisions s, settlements s).

(** C38: A re-ship refreshes the content of the local copy and nothing of this
    instance's own progress: the state is the one the copy already read (REVOKED
    when the counterparty revoked), the parties, origin and creator stay, the
    review and approval tasks, negotiations, decisions and settlements stay, the
    version is bumped and the tasks of the superseded round are carried, reopened,
    to the new one.  The creation time does not survive: it becomes the zero
    time. *)
Theorem reship_keeps_local_progress `{ArtifactServices} (cmd : PeerPdfReceiveCmd) (e : Env)
    (s s' : Store) (row : Contract) :
  contracts s !! ContractIRI cmd = Some row → 0 <= c_contract_version row →
  Handle cmd e s = Ok ((), s') →
  (∃ row', contracts s' !! ContractIRI cmd = Some row' ∧
    local_columns row' =
      (landing_state cmd (effective_state (env_now e) row), c_contract_version row + 1,
       c_responsible row, c_origin row, c_created_by row,
       if IsNotNullValue (Some (Payload cmd)) then Some (Payload cmd) else c_contract_data row,
       ContractRepo.time_zero)) ∧
  local_tables s' = local_tables s ∧
  negotiation_tasks s' =
    update_where (NegotiationTaskRepo.of_round (ContractIRI cmd) (c_contract_version row))
      (NegotiationTaskRepo.with_round (c_contract_version row + 1) NTOpen) (negotiation_tasks s).
Proof.
  intros Hrow Hv. unfold Handle. intros HR. run_inv.
  match goal with H : ContractRepo.ReadProcessDataByDIDOrNil _ _ _ = _ |- _ =>
    apply gets_Ok in H as [-> _] end.
  rewrite Hrow in *. simpl in *.
  match goal with H : refresh_copy _ _ _ _ _ = Ok (_, ?x) |- _ => rename H into HR1, x into s1 end.
  assert (HT : local_tables s1 = local_tables s).
  { assert (K : keeps local_tables (refresh_copy cmd (env_now e) (effective (env_now e) row))).
    - unfold refresh_copy. keeps_tac.
    - exact (K _ _ _ _ HR1). }
  assert (HT2 : local_tables s' = local_tables s1 ∧ negotiation_tasks s' = negotiation_tasks s1).
  { split; eapply keeps_carry_over_table in HR; eauto. }
  eapply (keeps_carry_over_column local_columns) in HR; [|by intros ? ? ? ?].
  unfold refresh_copy in HR1. run_inv.
  match goal with H : NegotiationTaskRepo.RollForward _ _ _ _ _ = _ |- _ =>
    apply RollForward_Ok in H as [ET E] end.
  match goal with H : ContractRepo.RemoteUpdate _ _ ?s = Ok (_, ?s2) |- _ =>
    assert (Ent : negotiation_tasks s2 = negotiation_tasks s) by
      (eapply (keeps_RemoteUpdate negotiation_tasks); [done|exact H]);
    eapply RemoteUpdate_row in H; [rename H into EC|rewrite shipped_did; exact Hrow] end.
  split; [|split; [destruct HT2; congruence|destruct HT2 as [_ ->]; rewrite ET, Ent; done]].
  rewrite EC, shipped_did in E. eapply column_row in HR as (row' & Hrow' & Hcol).
  2:{ rewrite E. apply lookup_insert_eq. }
  exists row'. split; [done|]. rewrite Hcol.
  rewrite (before_update_column local_columns) by (by intros ? ? ? ?).
  unfold local_columns, ContractRepo.createRemoteQuery, shipped.
  destruct (parseShippedContractMeta _) as [[? ?] ?]. simpl.
  rewrite (proj2 (Z.ltb_lt _ _)) by lia. done.
Qed.
(** An artifact store that files everything under one id. *)
Definition demo_artifacts : ArtifactServices :=
  {| Put := λ scope _, Ok (String.append "cid-of-" scope); jsonb_text := λ _, of_string "{}" |}.

Definition demo_shipment (revoked : bool) : PeerPdfReceiveCmd :=
  {| ContractIRI := "did:c1"; Counterparty := "did:web:b.example"; LocalPeer := "did:web:a.example";
     Payload := JObj (<["dcs:revision" := JStr "r2"]> ∅); Pdf := of_string "%PDF-1.7";
     AdoptRevoked := revoked |}.

Definition demo_negotiating : Store :=
  set_negotiation_tasks (λ _,
    [{| nt_id := "t1"; nt_did := "did:c1"; nt_contract_version := 1; nt_state := NTAccepted;
        nt_negotiator := "did:web:a.example"; nt_created_by := "Org A"; nt_created_at := 0 |}])
    (demo_store (demo_contract "did:c1" Submitted (JObj (<["dcs:revision" := JStr "r1"]> ∅)))).

Lemma reship_witness :
  let s' := (run (Handle (H := demo_artifacts) (demo_shipment false)) demo_env demo_negotiating).2 in
  (c_state <$> contracts s' !! "did:c1") = Some Submitted ∧
  (λ t, (nt_contract_version t, nt_state t)) <$> negotiation_tasks s' = [(2, NTOpen)].
Proof.
  intros s'.
  destruct (reship_keeps_local_progress (H := demo_artifacts) (demo_shipment false) demo_env
    demo_negotiating s'
    (demo_contract "did:c1" Submitted (JObj (<["dcs:revision" := JStr "r1"]> ∅))))
    as ((row' & Hrow & Hcols) & _ & ->).
  - reflexivity.
  - simpl. lia.
  - vm_compute. reflexivity.
  - cbn [ContractIRI demo_shipment] in Hrow. rewrite Hrow.
    split; [|vm_compute; reflexivity]. simpl. f_equal.
    exact (f_equal (λ x, x.1.1.1.1.1.1) Hcols).
Defined.

(** A first receipt is an inbound offer and no engagement with it: the copy is
    OFFERED (REVOKED when the shipment declares a revocation) at version 1, owned
    by the peer that shipped it, with this instance as the other party; one open
    review task and one open approval task of this instance are minted and no
    negotiation task; every other contract stays as it was. *)
Theorem first_receipt_is_an_offer `{ArtifactServices} (cmd : PeerPdfReceiveCmd) (e : Env) (s s' : Store) :
  contracts s !! ContractIRI cmd = None → Handle cmd e s = Ok ((), s') →
  (∃ row', contracts s' !! ContractIRI cmd = Some row' ∧
    local_columns row' =
      (landing_state cmd Offered, 1, Some (received_responsible cmd), Counterparty cmd, Counterparty cmd,
       Some (Payload cmd), env_now e)) ∧
  tasks_opened (ContractIRI cmd) [LocalPeer cmd] (review_tasks s) (review_tasks s') ∧
  tasks_opened (ContractIRI cmd) [LocalPeer cmd] (approval_tasks s) (approval_tasks s') ∧
  negotiation_tasks s' = negotiation_tasks s ∧
  elsewhere (ContractIRI cmd) s' = elsewhere (ContractIRI cmd) s.
Proof.
  intros Hnone. unfold Handle. intros HR. run_inv.
  match goal with H : ContractRepo.ReadProcessDataByDIDOrNil _ _ _ = _ |- _ =>
    apply gets_Ok in H as [-> _] end.
  rewrite Hnone in *. simpl in *.
  match goal with H : create_copy _ _ _ _ = Ok (_, ?x) |- _ => rename H into HR1, x into s1 end.
  assert (HK : review_tasks s' = review_tasks s1 ∧ approval_tasks s' = approval_tasks s1 ∧
               negotiation_tasks s' = negotiation_tasks s1 ∧
               elsewhere (ContractIRI cmd) s' = elsewhere (ContractIRI cmd) s1).
  { split_and!; [eapply keeps_carry_over_table in HR; eauto..|].
    refine (keeps_when _ _ _ _ _ _ _ _ HR). apply keeps_carry_over. eauto with tx. }
  destruct HK as (-> & -> & -> & ->).
  eapply (keeps_carry_over_column local_columns) in HR; [|by intros ? ? ? ?].
  unfold create_copy in HR1. run_inv.
  match goal with H : ContractRepo.RemoteCreate _ _ _ = _ |- _ =>
    unfold ContractRepo.RemoteCreate in H; run_inv end.
  match goal with H : ContractRepo.insert_row _ _ _ = _ |- _ => apply insert_row_Ok in H as (_ & _ & ->) end.
  match goal with H : createReviewAndApprovalTasks _ _ _ _ _ = _ |- _ => rename H into HT end.
  assert (HC := keeps_createTasks contracts _ _ _ (λ _ _, eq_refl) (λ _ _, eq_refl) (λ _ _, eq_refl) _ _ _ _ HT).
  assert (HN := keeps_createTasks negotiation_tasks _ _ _ (λ _ _, eq_refl) (λ _ _, eq_refl) (λ _ _, eq_refl) _ _ _ _ HT).
  apply createTasks_Ok in HT as [HT1 HT2]. simpl in HC, HN. rewrite shipped_did in HC.
  split; [|split; [done|split; [done|split; [done|]]]].
  - eapply column_row in HR as (row' & Hrow' & Hcol); [|rewrite HC; apply lookup_insert_eq].
    exists row'. split; [done|]. rewrite Hcol. unfold local_columns, shipped.
    destruct (parseShippedContractMeta _) as [[? ?] ?]. simpl. by destruct (bool_decide (env_now e = ContractRepo.time_zero)).
  - unfold elsewhere. rewrite HC. by rewrite delete_insert_eq.
Qed.

Lemma first_receipt_witness :
  let s' := (run (Handle (H := demo_artifacts) (demo_shipment true)) demo_env empty_store).2 in
  (c_state <$> contracts s' !! "did:c1") = Some Revoked ∧
  tasks_opened "did:c1" ["did:web:a.example"] [] (review_tasks s').
Proof.
  intros s'.
  destruct (first_receipt_is_an_offer (H := demo_artifacts) (demo_shipment true) demo_env empty_store s')
    as ((row' & Hrow & Hcols) & Ht & _).
  - reflexivity.
  - vm_compute. reflexivity.
  - cbn [ContractIRI demo_shipment] in Hrow. rewrite Hrow. split; [|exact Ht]. simpl. f_equal.
    exact (f_equal (λ x, x.1.1.1.1.1.1) Hcols).
Defined.

Example a_version_number : int_of_float "3" = 3 ∧ int_of_float "2.5e1" = 25 ∧ int_of_float "-1.5" = -1.
Proof. done. Qed.
