(* ===== verification/Signing.v ===== *)
(** Signing management, as far as it is modelled: the gates a signature passes and
    the revocation of a signature (internal/signingmanagement/command/apply.go and
    revoke.go, db/pg/contractrepository.go).

    The repository of this package reads the contracts table itself, not the
    effective view: a contract past its date reads its stored state here. *)
From S2P Require Import Prelude Json ContractState DidWeb Extrinsic Store Repos Lifecycle Settlement Negotiation.
Import GoStrings.

(** ** db/pg/contractrepository.go *)
Module SigningRepo.

Definition ReadDataByDID (did : string) : Tx Contract := λ e s,
  match contracts s !! did with
  | Some c => Ok (c, s)
  | None => Err (Errorf "contract with DID not found")
  end.

Definition ReadProcessDataByDID (did : string) : Tx Contract := λ e s,
  match contracts s !! did with
  | Some c => Ok (c, s)
  | None => Err (Errorf "could not found contract with DID")
  end.

Definition UpdateState (did : string) (state : ContractState) : Tx () :=
  ContractRepo.update_row did (with_state state).

Definition LoadSignatures (did : string) : Tx (list SignatureRow) :=
  gets (λ _ s, rows_where (λ g, bool_decide (sg_contract_did g = did)) (signatures s)).

Definition revocable (did signerDID : string) (g : SignatureRow) : bool :=
  bool_decide (sg_contract_did g = did) && bool_decide (sg_signer_did g = signerDID)
  && negb (bool_decide (sg_status g = "REVOKED")).

Definition revoked (g : SignatureRow) : SignatureRow :=
  {| sg_contract_did := sg_contract_did g; sg_signer_did := sg_signer_did g;
     sg_field_name := sg_field_name g; sg_status := "REVOKED";
     sg_credential_type := sg_credential_type g; sg_ipfs_cid := sg_ipfs_cid g; sg_ceremony_id := sg_ceremony_id g;
     sg_pdf_hash := sg_pdf_hash g; sg_content_hash := sg_content_hash g; sg_jades_signature := sg_jades_signature g |}.

Definition RevokeSignature (did signerDID : string) : Tx () :=
  affected ← gets (λ _ s, exists_where (revocable did signerDID) (signatures s));
  _ ← refuse (negb affected) (Wrapf "no revocable signature" (Sentinel ErrSignatureNotFound));
  modify (λ _, set_signatures (update_where (revocable did signerDID) revoked)).

End SigningRepo.

(** ** apply.go: the gates *)
Definition assertFieldUnsigned (records : list SignatureRow) (fieldName : string) : result () :=
  if existsb (λ rec, bool_decide (sg_status rec = "SIGNED") && bool_decide (sg_field_name rec = Some fieldName))
       records
  then Err (Wrapf fieldName (Sentinel ErrFieldAlreadySigned)) else Ok ().

Definition partyDIDs (resp : option Responsible) : list string :=
  match resp with Some r => [Creator r; Counterparty r] | None => [] end.

Definition remote_fields (localPeer : string) (resp : option Responsible) (declared : list string) :
    list string :=
  rows_where (IsRemotePartyField (partyDIDs resp) localPeer) declared.

(** The loop over the remote parties, against the digest this instance settled. *)
Fixpoint settled_by_all (did own_digest : string) (remote : list string) : Tx () :=
  match remote with
  | [] => mret ()
  | party :: rest =>
      settlement ← wrap "could not read the settlement" (SyncRepo.GetSettlement did party);
      match settlement with
      | None => throw (Wrapf "no settlement is held" (Sentinel ErrCounterpartyNotSettled))
      | Some st =>
          _ ← refuse (negb (bool_decide (s_document_digest st = own_digest)))
                (Wrapf "settled another document" (Sentinel ErrCounterpartyNotSettled));
          settled_by_all did own_digest rest
      end
  end.

Definition assertCounterpartiesSettled (did localPeer : string) (resp : option Responsible)
    (declaredFields : list string) : Tx () :=
  let remote := remote_fields localPeer resp declaredFields in
  if bool_decide (remote = []) then mret () else
  own ← wrap "could not read this instance's settlement" (SyncRepo.GetSettlement did localPeer);
  match own with
  | None => throw (Wrapf "this instance has not settled" (Sentinel ErrCounterpartyNotSettled))
  | Some own => settled_by_all did (s_document_digest own) remote
  end.

(** ** revoke.go *)
Definition NormalizeRevocationReason (reason : string) : result string :=
  let r := TrimSpace reason in
  if bool_decide (r = EmptyString) then Err (Sentinel ErrRevocationReasonRequired) else Ok r.

Record RevokeCmd := { DID : string; SignerDID : string; Reason : string; RevokedBy : string }.

Definition Revoker_Handle (cmd : RevokeCmd) : Tx () :=
  reason ← lift (NormalizeRevocationReason (Reason cmd));
  processData ← wrap "could not read process data" (SigningRepo.ReadProcessDataByDID (DID cmd));
  _ ← wrap "could not revoke signature" (SigningRepo.RevokeSignature (DID cmd) (SignerDID cmd));
  _ ← lift (ValidateTransition (c_state processData) EventRevoke);
  _ ← wrap "could not update contract state to revoked" (SigningRepo.UpdateState (DID cmd) Revoked);
  occurredAt ← now;
  _ ← emit "REVOKE_SIGNATURE" (DID cmd)
    [("contract_version", jint (c_contract_version processData)); ("reason", JStr reason);
     ("revoked_by", JStr (RevokedBy cmd))];
  status ← lift (MapCWEStateToC2PA (state_String Revoked));
  EnqueueTx (DID cmd) status reason occurredAt.

(** ** Lemmas *)
Lemma reads_SigningRead did : reads (SigningRepo.ReadProcessDataByDID did).
Proof. intros e s a s'. unfold SigningRepo.ReadProcessDataByDID. case_match; naive_solver. Qed.
Lemma SigningRead_Ok did e s c s' :
  SigningRepo.ReadProcessDataByDID did e s = Ok (c, s') → s' = s ∧ contracts s !! did = Some c.
Proof. unfold SigningRepo.ReadProcessDataByDID. case_match; naive_solver. Qed.
Lemma keeps_RevokeSignature {B} (f : Store → B) did signer :
  (∀ s g, f (set_signatures g s) = f s) → keeps f (SigningRepo.RevokeSignature did signer).
Proof. intros Hf. unfold SigningRepo.RevokeSignature. keeps_tac. apply keeps_modify. auto. Qed.
#[export] Hint Resolve reads_SigningRead : tx.
#[export] Hint Extern 2 (keeps _ (SigningRepo.RevokeSignature _ _)) =>
  apply keeps_RevokeSignature; reflexivity : tx.

Lemma revoke_edge st o : Transitions st EventRevoke = Some o → Revoked ∈ o.
Proof. destruct st; simpl; intros [= <-]; left. Qed.

(** What a revocation leaves of each table it touches. *)
Lemma revoke_Ok cmd e s u s' :
  Revoker_Handle cmd e s = Ok (u, s') →
  ∃ row, contracts s !! DID cmd = Some row ∧ c_state row ∈ [Signed; Active] ∧
    TrimSpace (Reason cmd) ≠ EmptyString ∧
    (∃ g, g ∈ signatures s ∧ SigningRepo.revocable (DID cmd) (SignerDID cmd) g = true) ∧
    signatures s' = update_where (SigningRepo.revocable (DID cmd) (SignerDID cmd)) SigningRepo.revoked
                      (signatures s) ∧
    column c_state s' = <[DID cmd := Revoked]> (column c_state s) ∧
    elsewhere (DID cmd) s' = elsewhere (DID cmd) s ∧
    exists_where (λ q, bool_decide (q_contract_did q = DID cmd) && bool_decide (q_status q = "suspended"))
      (status_queue s') = true.
Proof.
  unfold Revoker_Handle. intros HR. run_inv.
  match goal with H : SigningRepo.ReadProcessDataByDID _ _ _ = _ |- _ =>
    apply SigningRead_Ok in H as [_ Hrow] end.
  match goal with H : SigningRepo.UpdateState _ _ _ _ = _ |- _ => rename H into HU end.
  match goal with H : MapCWEStateToC2PA _ = Ok _ |- _ => vm_compute in H; injection H as <- end.
  match goal with H : emit _ _ _ _ _ = _ |- _ => apply emit_Ok in H as -> end.
  match goal with H : SigningRepo.RevokeSignature _ _ _ _ = _ |- _ =>
    unfold SigningRepo.RevokeSignature in H; run_inv end.
  match goal with H : ValidateTransition _ _ = _ |- _ => rename H into HV end.
  match goal with H : NormalizeRevocationReason _ = _ |- _ => rename H into HN end.
  match goal with H : negb (exists_where _ _) = false |- _ =>
    apply negb_false_iff, exists_where_true in H; rename H into Hex end.
  assert (HE : contracts s' = contracts x8 ∧ signatures s' = signatures x8 ∧
    exists_where (λ q, bool_decide (q_contract_did q = DID cmd) && bool_decide (q_status q = "suspended"))
      (status_queue s') = true).
  { unfold EnqueueTx in HR. run_inv. simpl in *. unfold when in HR.
    match type of HR with (if negb ?b then _ else _) _ _ = _ => destruct b eqn:Eq end; simpl in HR.
    - by apply ret_Ok in HR as [_ ->].
    - apply modify_Ok in HR as ->. simpl. split_and!; [done..|]. unfold exists_where.
      rewrite existsb_app. simpl. rewrite !bool_decide_eq_true_2 by done. by rewrite orb_true_r. }
  destruct HE as (HEc & HEs & HEq).
  eexists. split; [exact Hrow|]. split.
  { unfold ValidateTransition, EventAllowed in HV. destruct (c_state _); try done; set_solver. }
  split; [unfold NormalizeRevocationReason in HN; by case_bool_decide|]. split; [exact Hex|].
  split; [|split; [|split; [|exact HEq]]].
  - rewrite HEs. by apply update_row_Ok in HU as ->.
  - unfold column at 1. rewrite HEc. exact (UpdateState_column _ _ _ _ _ _ _ HU Hrow).
  - unfold elsewhere at 1. rewrite HEc. exact (keeps_elsewhere_update_row _ _ _ _ _ _ HU).
Qed.

(** A signature of this signer on this contract that is not yet revoked. *)
Definition standing (cmd : RevokeCmd) (g : SignatureRow) : Prop :=
  sg_contract_did g = DID cmd ∧ sg_signer_did g = SignerDID cmd ∧ sg_status g ≠ "REVOKED".

Lemma standing_iff cmd g : SigningRepo.revocable (DID cmd) (SignerDID cmd) g = true ↔ standing cmd g.
Proof. unfold SigningRepo.revocable, standing. rewrite !andb_true_iff, negb_true_iff, !bool_decide_eq_true, bool_decide_eq_false. tauto. Qed.

(** C36: Revoking a signature needs a reason and a signature of that signer on that
    contract that is not yet revoked, on a contract stored as SIGNED or ACTIVE.  It
    then revokes every signature of the signer on the contract, leaves every row of
    another contract or another signer as it was, moves exactly that contract to
    REVOKED, queues the publication of its suspension, and leaves a contract that
    can no longer be deployed. *)
Theorem revocation_suspends_the_contract (cmd : RevokeCmd) (e : Env) (s s' : Store) :
  Revoker_Handle cmd e s = Ok ((), s') →
  (∃ row, contracts s !! DID cmd = Some row ∧ c_state row ∈ [Signed; Active]) ∧
  TrimSpace (Reason cmd) ≠ EmptyString ∧
  (∃ g, g ∈ signatures s ∧ standing cmd g) ∧
  Forall2 (λ g g', sg_contract_did g' = sg_contract_did g ∧ sg_signer_did g' = sg_signer_did g ∧
                   sg_field_name g' = sg_field_name g ∧
                   (standing cmd g → sg_status g' = "REVOKED") ∧ (¬ standing cmd g → g' = g))
    (signatures s) (signatures s') ∧
  column c_state s' = <[DID cmd := Revoked]> (column c_state s) ∧
  elsewhere (DID cmd) s' = elsewhere (DID cmd) s ∧
  exists_where (λ q, bool_decide (q_contract_did q = DID cmd) && bool_decide (q_status q = "suspended"))
    (status_queue s') = true ∧
  EventAllowed Revoked EventDeploy = false.
Proof.
  intros (row & Hrow & Hst & Hreason & (g & Hg & Hrev) & Hsig & Hcol & Helse & Hq)%revoke_Ok.
  split; [eauto|]. split; [done|]. split; [exists g; by rewrite <-standing_iff|]. split; [|by split_and!].
  rewrite Hsig. apply Forall2_fmap_r, Forall_Forall2_diag, Forall_forall. intros x _.
  split_and!; try intros Hx; destruct (SigningRepo.revocable (DID cmd) (SignerDID cmd) x) eqn:E; try done.
  - apply standing_iff in Hx. congruence.
  - by apply standing_iff in E.
Qed.

Definition demo_revocable : Store :=
  set_signatures (λ _,
    [bare_signature "did:c1" "did:key:alice" None "SIGNED"; bare_signature "did:c1" "did:key:bob" None "SIGNED"])
    (demo_store (demo_contract "did:c1" Active (JObj ∅))).

Definition demo_revocation : RevokeCmd :=
  {| DID := "did:c1"; SignerDID := "did:key:alice"; Reason := " key lost "; RevokedBy := "Alice" |}.

Lemma revocation_witness :
  let s' := (run (Revoker_Handle demo_revocation) demo_env demo_revocable).2 in
  column c_state s' = <["did:c1" := Revoked]> (column c_state demo_revocable) ∧
  sg_status <$> signatures s' = ["REVOKED"; "SIGNED"].
Proof.
  intros s'. destruct (revocation_suspends_the_contract demo_revocation demo_env demo_revocable s')
    as (_ & _ & _ & Hsig & Hcol & _).
  - vm_compute. reflexivity.
  - split; [exact Hcol|].
    apply Forall2_cons_inv_l in Hsig as (x & l & (_ & _ & _ & Hx & _) & Hl & ->).
    apply Forall2_cons_inv_l in Hl as (y & l' & (_ & _ & _ & _ & Hy) & Hnil%Forall2_nil_inv_l & ->). subst l'.
    rewrite !fmap_cons, Hx by by split_and!. rewrite Hy by by intros (_ & ? & _). reflexivity.
Defined.

(** ** Lemmas: the counterparties *)
Lemma settled_by_all_iff did digest remote e s :
  settled_by_all did digest remote e s = Ok ((), s) ↔
  ∀ party, party ∈ remote →
    ∃ st, own_settlement s party did = Some st ∧ s_document_digest st = digest.
Proof.
  induction remote as [|p l IH]; simpl.
  - split; [by intros _ x []%elem_of_nil|done].
  - unfold mbind, tx_bind, wrap, SyncRepo.GetSettlement, gets. fold (own_settlement s p did).
    destruct (own_settlement s p did) as [st|] eqn:E.
    + unfold refuse. case_bool_decide as Hd; simpl.
      * rewrite IH. split.
        -- intros H x [->|Hx]%elem_of_cons; eauto.
        -- intros H x Hx. apply H. by right.
      * split; [done|]. intros H. destruct (H p) as (st' & E' & Hd'); [left|]. congruence.
    + split; [done|]. intros H. destruct (H p) as (st' & E' & _); [left|]. congruence.
Qed.

Lemma settled_by_all_Err did digest remote e s err :
  settled_by_all did digest remote e s = Err err → errors_Is err ErrCounterpartyNotSettled = true.
Proof.
  induction remote as [|p l IH]; simpl; [done|].
  unfold mbind, tx_bind, wrap, SyncRepo.GetSettlement, gets, refuse.
  destruct (SyncRepo.newest _) as [st|]; [|by intros [= <-]].
  case_bool_decide; simpl; [exact IH|by intros [= <-]].
Qed.

(** C9: A signature waits for every counterparty.  The settlement gate passes
    exactly when the contract declares no slot of a remote party, or when this
    instance holds a settlement of its own and the latest settlement of every
    remote party with a slot names the same document digest; otherwise it refuses
    with the counterparty-not-settled error.  It never writes. *)
Theorem signing_waits_for_every_counterparty (did localPeer : string) (resp : option Responsible)
    (declared : list string) (e : Env) (s : Store) :
  (assertCounterpartiesSettled did localPeer resp declared e s = Ok ((), s) ↔
   remote_fields localPeer resp declared = [] ∨
   ∃ own, own_settlement s localPeer did = Some own ∧
     ∀ party, party ∈ declared → IsRemotePartyField (partyDIDs resp) localPeer party = true →
       ∃ st, own_settlement s party did = Some st ∧ s_document_digest st = s_document_digest own) ∧
  (∀ err, assertCounterpartiesSettled did localPeer resp declared e s = Err err →
     errors_Is err ErrCounterpartyNotSettled = true).
Proof.
  unfold assertCounterpartiesSettled. case_bool_decide as Hr.
  { split; [|done]. split; [by left|done]. }
  unfold mbind, tx_bind, wrap, SyncRepo.GetSettlement, gets. fold (own_settlement s localPeer did).
  destruct (own_settlement s localPeer did) as [own|] eqn:E.
  - split; [|apply settled_by_all_Err]. rewrite settled_by_all_iff. split.
    + intros H. right. exists own. split; [done|]. intros p Hp Hrem. apply H.
      by apply elem_of_rows_where.
    + intros [H|(own' & [= <-] & H)]; [done|]. intros p [Hrem Hp]%elem_of_rows_where. auto.
  - split; [|by intros err [= <-]]. split; [done|]. intros [H|(own' & Ho & _)]; done.
Qed.
