(* ===== verification/Sealing.v ===== *)
(** Sealing a contract document for its first signature: the offered policy set
    becomes an agreement, an open party placeholder becomes the counterparty, the
    signatory is recorded on the party that signs
    (internal/signingmanagement/command/apply.go).

    The code mutates the decoded tree in place; here each step returns the tree it
    leaves. *)
From S2P Require Import Prelude Json Store Document Anchors.
Import GoStrings.

(** ** Party nodes *)
Definition is_party (id : string) (node : json) : bool :=
  match node with JObj n => bool_decide (as_string (n !! "@id") = id) | _ => false end.

Definition parties (doc : gmap string json) : list json := as_list (doc !! "dcs:parties").

(** [partyNodeByID]: the first party node under an identifier. *)
Definition partyNodeByID (doc : gmap string json) (id : string) : option (gmap string json) :=
  match List.find (is_party id) (parties doc) with Some (JObj n) => Some n | _ => None end.

(** An assignment through that node. *)
Fixpoint update_first (id : string) (f : gmap string json → gmap string json) (nodes : list json) : list json :=
  match nodes with
  | [] => []
  | node :: rest =>
      if is_party id node then match node with JObj n => JObj (f n) :: rest | _ => node :: rest end
      else node :: update_first id f rest
  end.

Definition update_party (id : string) (f : gmap string json → gmap string json) (doc : gmap string json) : gmap string json :=
  match doc !! "dcs:parties" with
  | Some (JArr nodes) => <["dcs:parties" := JArr (update_first id f nodes)]> doc
  | _ => doc
  end.

Definition set_function (role : string) (node : gmap string json) : gmap string json :=
  <["odrl:function" := ref_node role]> node.

(** ** Placeholders *)

(** [strconv.Atoi] succeeds: a sign at most, digits, within 64 bits. *)
Definition is_int (s : string) : bool :=
  let unsigned := match s with
                  | String c s' => if is_byte "+" c || is_byte "-" c then s' else s
                  | EmptyString => s
                  end in
  let bound := if HasPrefix s "-" then 2 ^ 63 else 2 ^ 63 - 1 in
  negb (bool_decide (unsigned = EmptyString)) && bool_decide (digits unsigned = unsigned) && (decimal unsigned <=? bound).

(** An identifier derived from a role, not from an index. *)
Definition is_placeholder (iri : string) : bool :=
  match after_first "#party-" iri with Some role => negb (is_int role) | None => false end.

Definition open_placeholder (node : json) : option string :=
  match node with
  | JObj n => if is_placeholder (as_string (n !! "@id")) then Some (as_string (n !! "@id")) else None
  | _ => None
  end.

Definition open_placeholders (doc : gmap string json) : list string := omap open_placeholder (parties doc).

Definition singleOpenPartyPlaceholder (doc : gmap string json) : string :=
  match open_placeholders doc with [iri] => iri | _ => EmptyString end.

(** ** Rewriting *)
Fixpoint replaceNodeIRI (old new : string) (current : json) : json :=
  match current with
  | JObj value =>
      let nested := replaceNodeIRI old new <$> value in
      JObj (if bool_decide (as_string (value !! "@id") = old) then <["@id" := JStr new]> nested else nested)
  | JArr items => JArr (map (replaceNodeIRI old new) items)
  | _ => current
  end.

Definition replace_in (old new : string) (doc : gmap string json) : gmap string json :=
  match replaceNodeIRI old new (JObj doc) with JObj d => d | _ => doc end.

(** The nodes under [id], folded into the first: what it carries wins. *)
Definition folded (id : string) (nodes : list json) : gmap string json :=
  foldl (λ kept node, match node with JObj n => if is_party id node then kept ∪ n else kept | _ => kept end) ∅ nodes.

Fixpoint place (id : string) (kept : gmap string json) (nodes : list json) : list json :=
  match nodes with
  | [] => []
  | node :: rest =>
      if is_party id node then JObj kept :: rows_where (λ node, negb (is_party id node)) rest
      else node :: place id kept rest
  end.

Definition merged (id : string) (nodes : list json) : list json := place id (folded id nodes) nodes.

Definition mergePartyNodes (id : string) (doc : gmap string json) : gmap string json :=
  <["dcs:parties" := JArr (merged id (parties doc))]> doc.

(** ** The seal *)
Definition counterpartyIdentity (responsible : option Responsible) (signerDID : string) : string :=
  match responsible with
  | Some r => if bool_decide (Counterparty r = EmptyString) then signerDID else Counterparty r
  | None => signerDID
  end.

Definition retype_policies (doc : gmap string json) : gmap string json :=
  match doc !! "dcs:policies" with
  | Some (JObj policies) => <["dcs:policies" := JObj (<["@type" := JStr "odrl:Agreement"]> policies)]> doc
  | _ => doc
  end.

Definition name_creator (responsible : option Responsible) (doc : gmap string json) : gmap string json :=
  match responsible with
  | Some r => if bool_decide (Creator r = EmptyString) then doc
              else update_party (Creator r) (set_function "odrl:contractingParty") doc
  | None => doc
  end.

Definition bind_counterparty (counterparty : string) (doc : gmap string json) : gmap string json :=
  let placeholder := singleOpenPartyPlaceholder doc in
  if bool_decide (placeholder = EmptyString) then doc
  else update_party counterparty (set_function "odrl:contractedParty")
         (mergePartyNodes counterparty (replace_in placeholder counterparty doc)).

(** [datatype.NewJSON] of the decoded map: a nil map, which a null document
    decodes to and nothing above writes to, encodes as null. *)
Definition encode (raw : json) (doc : gmap string json) : json := match raw with JNull => JNull | _ => JObj doc end.

Definition sealAgreementForSigning (raw : json) (responsible : option Responsible) (signerDID : string) : result json :=
  doc ← wrap_err "decode contract data" (Unmarshal_map raw);
  Ok (encode raw (bind_counterparty (counterpartyIdentity responsible signerDID)
                    (name_creator responsible (retype_policies doc)))).

(** ** The signatory *)

(** The identifier under which [signingPartyNode] finds a node. *)
Definition signing_party (doc : gmap string json) (responsible : option Responsible) (signerDID signingParty : string) : option string :=
  let party := TrimSpace signingParty in
  let found id := bool_decide (is_Some (partyNodeByID doc id)) in
  if negb (bool_decide (party = EmptyString)) && found party then Some party
  else let counterparty := counterpartyIdentity responsible signerDID in
       if found counterparty then Some counterparty else None.

Definition attribute (signerDID poaOrganization : string) (node : gmap string json) : gmap string json :=
  let signed := <["dcs:hasSignatory" := ref_node signerDID]> node in
  if bool_decide (poaOrganization = EmptyString) then signed
  else <["dcs:hasPowerOfAttorney" := ref_node poaOrganization]> signed.

Definition recordSignatory (raw : json) (responsible : option Responsible)
    (signerDID poaOrganization signingParty : string) : result json :=
  doc ← wrap_err "decode contract data" (Unmarshal_map raw);
  match signing_party doc responsible signerDID signingParty with
  | None => Ok raw
  | Some party => Ok (encode raw (update_party party (attribute signerDID poaOrganization) doc))
  end.

(** The document a signature covers, and whether it differs from the stored one. *)
Definition contractDocumentForSignature (raw : json) (responsible : option Responsible)
    (signerDID poaOrganization signingParty : string) (artifactFrozen : bool) : result (json * bool) :=
  if artifactFrozen then Ok (raw, false) else
  sealed ← wrap_err "seal agreement for signing" (sealAgreementForSigning raw responsible signerDID);
  attributed ← wrap_err "record signatory" (recordSignatory sealed responsible signerDID poaOrganization signingParty);
  Ok (attributed, true).

(** ** The identifiers of the party nodes *)
Definition iri_of (node : json) : option string := match node with JObj n => Some (as_string (n !! "@id")) | _ => None end.

Lemma is_party_iri id node : is_party id node = bool_decide (iri_of node = Some id).
Proof. destruct node; cbn; try (symmetry; by apply bool_decide_eq_false_2). apply bool_decide_ext. naive_solver. Qed.

Lemma is_party_true id node : is_party id node = true ↔ ∃ n, node = JObj n ∧ as_string (n !! "@id") = id.
Proof. destruct node; cbn; rewrite ?bool_decide_eq_true; naive_solver. Qed.

Lemma open_placeholder_same node node' : iri_of node' = iri_of node → open_placeholder node' = open_placeholder node.
Proof. destruct node, node'; cbn; intros H; try done. injection H as ->. done. Qed.

(** The first node under an identifier. *)
Definition first_party (id : string) (nodes : list json) : option (gmap string json) :=
  match List.find (is_party id) nodes with Some (JObj n) => Some n | _ => None end.

Lemma first_party_cons id node nodes : first_party id (node :: nodes) =
  if is_party id node then match node with JObj n => Some n | _ => None end else first_party id nodes.
Proof. unfold first_party. cbn [List.find]. by destruct (is_party id node). Qed.

(** Edits that leave a node's identifier alone. *)
Definition keeps_id (f : gmap string json → gmap string json) : Prop := ∀ n, as_string (f n !! "@id") = as_string (n !! "@id").

Lemma update_first_iris id f nodes : keeps_id f → iri_of <$> update_first id f nodes = iri_of <$> nodes.
Proof.
  intros Hf. induction nodes as [|node nodes IH]; [done|]. cbn [update_first]. destruct (is_party id node).
  - destruct node; try done. cbn. by rewrite Hf.
  - by rewrite !fmap_cons, IH.
Qed.

Lemma is_party_keeps id f n : keeps_id f → is_party id (JObj (f n)) = is_party id (JObj n).
Proof. intros Hf. cbn. by rewrite Hf. Qed.

Lemma first_update_eq id f nodes : keeps_id f → first_party id (update_first id f nodes) = f <$> first_party id nodes.
Proof.
  intros Hf. induction nodes as [|node nodes IH]; [done|]. cbn [update_first]. rewrite first_party_cons.
  destruct (is_party id node) eqn:E; [|by rewrite first_party_cons, E].
  apply is_party_true in E as (n & -> & E). rewrite first_party_cons, is_party_keeps by done. cbn. by rewrite E, bool_decide_eq_true_2.
Qed.

Lemma first_update_ne id id' f nodes : keeps_id f → id ≠ id' → first_party id (update_first id' f nodes) = first_party id nodes.
Proof.
  intros Hf Hne. induction nodes as [|node nodes IH]; [done|]. cbn [update_first].
  destruct (is_party id' node) eqn:E; [|by rewrite !first_party_cons, IH].
  apply is_party_true in E as (n & -> & E). rewrite !first_party_cons, is_party_keeps by done.
  cbn. rewrite E, bool_decide_eq_false_2 by congruence. done.
Qed.

Lemma update_first_id id f nodes : (∀ n, first_party id nodes = Some n → f n = n) → update_first id f nodes = nodes.
Proof.
  induction nodes as [|node nodes IH]; intros H; [done|]. cbn [update_first]. rewrite first_party_cons in H.
  destruct (is_party id node).
  - destruct node; try done. by rewrite H.
  - by rewrite IH.
Qed.

Lemma parties_update id f doc : parties (update_party id f doc) = update_first id f (parties doc).
Proof.
  unfold parties, update_party. destruct (doc !! "dcs:parties") as [[| | | |nodes|]|] eqn:E; rewrite ?E; try done.
  by rewrite lookup_insert_eq.
Qed.

Lemma update_party_id id f doc : (∀ n, first_party id (parties doc) = Some n → f n = n) → update_party id f doc = doc.
Proof.
  intros H. unfold update_party. destruct (doc !! "dcs:parties") as [[| | | |nodes|]|] eqn:E; try done.
  rewrite update_first_id; [by apply insert_id|]. unfold parties in H. by rewrite E in H.
Qed.

Lemma update_party_ne id f doc k : k ≠ "dcs:parties" → update_party id f doc !! k = doc !! k.
Proof. intros. unfold update_party. repeat case_match; try done. by apply lookup_insert_ne. Qed.

Lemma placeholders_same doc doc' : iri_of <$> parties doc' = iri_of <$> parties doc → open_placeholders doc' = open_placeholders doc.
Proof.
  unfold open_placeholders. generalize (parties doc) (parties doc'). intros l. induction l as [|x l IH]; intros [|y l'] H; try done.
  injection H as H1 H2. cbn. by rewrite (open_placeholder_same _ _ H1), (IH _ H2).
Qed.

Lemma keeps_function role : keeps_id (set_function role).
Proof. intros n. unfold set_function. by rewrite lookup_insert_ne. Qed.

Lemma keeps_attribute signer poa : keeps_id (attribute signer poa).
Proof. intros n. unfold attribute. case_bool_decide; by rewrite ?lookup_insert_ne. Qed.

(** ** Replacing an identifier *)
Lemma replace_in_ne old new doc k : k ≠ "@id" → replace_in old new doc !! k = replaceNodeIRI old new <$> doc !! k.
Proof.
  intros Hk. unfold replace_in. cbn [replaceNodeIRI]. case_bool_decide; rewrite ?lookup_insert_ne by done; apply lookup_fmap.
Qed.

Lemma parties_replace old new doc : parties (replace_in old new doc) = map (replaceNodeIRI old new) (parties doc).
Proof. unfold parties. rewrite replace_in_ne by done. by destruct (doc !! "dcs:parties") as [[]|]. Qed.

Lemma iri_replace old new node : iri_of (replaceNodeIRI old new node) =
  (λ iri, if bool_decide (iri = old) then new else iri) <$> iri_of node.
Proof.
  destruct node as [| | | | |n]; try done. cbn [replaceNodeIRI iri_of fmap option_fmap option_map]. case_bool_decide as H.
  - by rewrite lookup_insert_eq.
  - rewrite lookup_fmap. by destruct (n !! "@id") as [[]|].
Qed.

Lemma first_replace id old new nodes : id ≠ old → id ≠ new →
  first_party id (map (replaceNodeIRI old new) nodes) = replace_in old new <$> first_party id nodes.
Proof.
  intros H1 H2. induction nodes as [|node nodes IH]; [done|]. cbn [map]. rewrite !first_party_cons, IH.
  replace (is_party id (replaceNodeIRI old new node)) with (is_party id node); [by destruct (is_party id node), node|].
  rewrite !is_party_iri, iri_replace. destruct (iri_of node) as [iri|]; [|done]. cbn.
  apply bool_decide_ext. case_bool_decide; naive_solver.
Qed.

(** ** Merging the nodes of a party *)
Lemma folded_from id nodes kept : (kept = ∅ ∧ existsb (is_party id) nodes = true) ∨ as_string (kept !! "@id") = id →
  let fold := foldl (λ kept node, match node with JObj n => if is_party id node then kept ∪ n else kept | _ => kept end) in
  as_string (fold kept nodes !! "@id") = id.
Proof.
  cbv zeta. revert kept. induction nodes as [|node nodes IH]; intros kept Hk; cbn [foldl].
  { by destruct Hk as [[_ Hk] | Hk]. }
  apply IH. destruct (is_party id node) eqn:E.
  - pose proof E as (n & -> & En)%is_party_true. right.
    rewrite lookup_union. destruct Hk as [[-> _] | Hk].
    + by rewrite lookup_empty, (left_id_L None _).
    + destruct (kept !! "@id") as [v|] eqn:Ev; [by destruct (n !! "@id") as [[]|]|]. by rewrite (left_id_L None _).
  - destruct Hk as [[-> Hk] | Hk].
    + left. cbn [existsb] in Hk. rewrite E in Hk. split; [by destruct node|done].
    + right. by destruct node.
Qed.

Lemma folded_id id nodes : existsb (is_party id) nodes = true → as_string (folded id nodes !! "@id") = id.
Proof. intros H. apply folded_from. by left. Qed.

Lemma first_others id id' nodes : id ≠ id' →
  first_party id (rows_where (λ node, negb (is_party id' node)) nodes) = first_party id nodes.
Proof.
  intros Hne. unfold rows_where. induction nodes as [|node nodes IH]; [done|]. rewrite filter_cons.
  destruct (is_party id' node) eqn:E; cbn [negb].
  - rewrite decide_False by done. rewrite first_party_cons, IH.
    rewrite is_party_iri in E. apply bool_decide_eq_true in E. rewrite is_party_iri, E, bool_decide_eq_false_2; [done|congruence].
  - rewrite decide_True by done. by rewrite !first_party_cons, IH.
Qed.

Lemma first_place id id' kept nodes : id ≠ id' → as_string (kept !! "@id") = id' →
  first_party id (place id' kept nodes) = first_party id nodes.
Proof.
  intros Hne Hk. induction nodes as [|node nodes IH]; [done|]. cbn [place]. destruct (is_party id' node) eqn:E.
  - rewrite !first_party_cons, first_others by done. rewrite is_party_iri in E. apply bool_decide_eq_true in E.
    rewrite !is_party_iri, E. cbn [iri_of]. rewrite Hk, !bool_decide_eq_false_2 by congruence. done.
  - by rewrite !first_party_cons, IH.
Qed.

Lemma place_absent id kept nodes : existsb (is_party id) nodes = false → place id kept nodes = nodes.
Proof.
  induction nodes as [|node nodes IH]; [done|]. cbn [existsb place]. intros [-> H]%orb_false_iff. by rewrite IH.
Qed.

Lemma first_merged id id' nodes : id ≠ id' → first_party id (merged id' nodes) = first_party id nodes.
Proof.
  intros Hne. unfold merged. destruct (existsb (is_party id') nodes) eqn:E; [by apply first_place, folded_id|].
  by rewrite place_absent.
Qed.

(** One node is left under the identifier. *)
Lemma others_none id nodes : rows_where (is_party id) (rows_where (λ node, negb (is_party id node)) nodes) = [].
Proof.
  unfold rows_where. induction nodes as [|node nodes IH]; [done|]. rewrite filter_cons.
  destruct (is_party id node) eqn:E; cbn [negb]; [by rewrite decide_False|]. rewrite decide_True, filter_cons by done.
  by rewrite E, decide_False.
Qed.

Lemma merged_one id nodes : existsb (is_party id) nodes = true →
  rows_where (is_party id) (merged id nodes) = [JObj (folded id nodes)].
Proof.
  intros H. unfold merged. pose proof (folded_id _ _ H) as Hk. revert Hk H. generalize (folded id nodes). intros kept Hk H.
  induction nodes as [|node nodes IH]; [done|]. cbn [place existsb] in *. unfold rows_where. destruct (is_party id node) eqn:E.
  - rewrite filter_cons, decide_True; [|cbn; by apply bool_decide_eq_true_2]. f_equal. apply others_none.
  - rewrite filter_cons, E, decide_False by done. by apply IH.
Qed.

(** Every identifier that is left was there. *)
Lemma merged_iris id nodes iri : Some iri ∈ iri_of <$> merged id nodes → Some iri ∈ iri_of <$> nodes.
Proof.
  unfold merged. destruct (existsb (is_party id) nodes) eqn:Hex; [|by rewrite place_absent].
  pose proof (folded_id _ _ Hex) as Hk. revert Hk. clear Hex. generalize (folded id nodes). intros kept Hk.
  induction nodes as [|node nodes IH]; [done|]. cbn [place]. destruct (is_party id node) eqn:E.
  - rewrite is_party_iri in E. apply bool_decide_eq_true in E. rewrite !fmap_cons, !elem_of_cons. cbn [iri_of]. rewrite Hk, E.
    intros [H | H]; [by left|right]. apply list_elem_of_fmap in H as (y & -> & Hy). apply list_elem_of_filter in Hy as [_ Hy].
    by apply list_elem_of_fmap_2.
  - rewrite !fmap_cons, !elem_of_cons. intros [H | H]; auto.
Qed.

(** ** Sealing settles *)
Lemma elem_of_placeholders doc iri :
  iri ∈ open_placeholders doc ↔ Some iri ∈ iri_of <$> parties doc ∧ is_placeholder iri = true.
Proof.
  unfold open_placeholders. rewrite list_elem_of_omap, list_elem_of_fmap. split.
  - intros (node & Hin & Ho). destruct node as [| | | | |n]; try done. cbn in Ho. destruct (is_placeholder _) eqn:E; [|done].
    injection Ho as <-. split; [|done]. by exists (JObj n).
  - intros [(node & Hiri & Hin) Hp]. exists node. split; [done|]. destruct node; try done. injection Hiri as ->. cbn. by rewrite Hp.
Qed.

Lemma single_placeholder doc : singleOpenPartyPlaceholder doc ≠ EmptyString →
  open_placeholders doc = [singleOpenPartyPlaceholder doc].
Proof. unfold singleOpenPartyPlaceholder. by destruct (open_placeholders doc) as [|? []]. Qed.

Lemma partyNodeByID_first doc id : partyNodeByID doc id = first_party id (parties doc).
Proof. done. Qed.

Lemma found_update id id' f nodes : keeps_id f →
  is_Some (first_party id (update_first id' f nodes)) ↔ is_Some (first_party id nodes).
Proof.
  intros Hf. destruct (decide (id = id')) as [->|Hne]; [|by rewrite first_update_ne].
  rewrite first_update_eq by done. apply fmap_is_Some.
Qed.

Section settled.
Context (responsible : option Responsible) (signerDID poa party : string).
Notation counterparty := (counterpartyIdentity responsible signerDID).

(** The parties are told apart, and neither is itself an open placeholder. *)
Definition parties_apart : Prop :=
  is_placeholder counterparty = false ∧
  ∀ r, responsible = Some r → Creator r ≠ counterparty ∧ is_placeholder (Creator r) = false.

Definition agreed (doc : gmap string json) : Prop :=
  ∀ p, doc !! "dcs:policies" = Some (JObj p) → p !! "@type" = Some (JStr "odrl:Agreement").

Definition creator_named (doc : gmap string json) : Prop :=
  ∀ r n, responsible = Some r → Creator r ≠ EmptyString → first_party (Creator r) (parties doc) = Some n →
    n !! "odrl:function" = Some (ref_node "odrl:contractingParty").

Definition attributed (doc : gmap string json) : Prop :=
  ∀ p n, signing_party doc responsible signerDID party = Some p → first_party p (parties doc) = Some n →
    attribute signerDID poa n = n.

Record sealed (doc : gmap string json) : Prop := {
  se_agreed : agreed doc;
  se_creator : creator_named doc;
  se_closed : singleOpenPartyPlaceholder doc = EmptyString;
  se_attributed : attributed doc
}.

Definition bound (doc : gmap string json) : gmap string json :=
  bind_counterparty counterparty (name_creator responsible (retype_policies doc)).

Definition signed_document (doc : gmap string json) : gmap string json :=
  match signing_party (bound doc) responsible signerDID party with
  | Some p => update_party p (attribute signerDID poa) (bound doc)
  | None => bound doc
  end.

Lemma document_for_signature doc :
  contractDocumentForSignature (JObj doc) responsible signerDID poa party false = Ok (JObj (signed_document doc), true).
Proof.
  unfold contractDocumentForSignature, sealAgreementForSigning, recordSignatory, signed_document. cbn.
  fold (bound doc). by destruct (signing_party _ _ _ _).
Qed.

Lemma sealed_id doc : sealed doc → signed_document doc = doc.
Proof.
  intros [Ha Hc Ho Hs]. unfold signed_document. enough (bound doc = doc) as ->.
  { destruct (signing_party doc _ _ _) eqn:E; [|done]. apply update_party_id. intros n. by apply Hs. }
  unfold bound. assert (retype_policies doc = doc) as ->.
  { unfold retype_policies. destruct (doc !! "dcs:policies") as [[| | | | |p]|] eqn:E; try done.
    rewrite (insert_id p) by (by apply Ha). by apply insert_id. }
  assert (name_creator responsible doc = doc) as ->.
  { unfold name_creator. destruct responsible as [r|] eqn:Er; [|done]. case_bool_decide; [done|].
    apply update_party_id. intros n Hn. apply insert_id. by eapply Hc. }
  unfold bind_counterparty. by rewrite Ho.
Qed.

Lemma signing_party_same doc doc' : (∀ id, is_Some (first_party id (parties doc')) ↔ is_Some (first_party id (parties doc))) →
  signing_party doc' responsible signerDID party = signing_party doc responsible signerDID party.
Proof.
  intros H. unfold signing_party. cbv zeta. rewrite !partyNodeByID_first.
  by rewrite (bool_decide_ext _ _ (H (TrimSpace party))), (bool_decide_ext _ _ (H counterparty)).
Qed.

Lemma attribute_twice n : attribute signerDID poa (attribute signerDID poa n) = attribute signerDID poa n.
Proof.
  unfold attribute. apply map_eq. intros k. case_bool_decide; rewrite !lookup_insert; by repeat case_decide.
Qed.

(** ** What the first seal establishes *)
Lemma retype_agreed doc : agreed (retype_policies doc).
Proof.
  unfold agreed, retype_policies. intros p Hp. destruct (doc !! "dcs:policies") as [[| | | | |q]|] eqn:E; try congruence.
  rewrite lookup_insert_eq in Hp. injection Hp as <-. by rewrite lookup_insert_eq.
Qed.

Lemma retype_parties doc : parties (retype_policies doc) = parties doc.
Proof. unfold parties, retype_policies. repeat case_match; try done. by rewrite lookup_insert_ne. Qed.

Lemma name_creator_parties doc : iri_of <$> parties (name_creator responsible doc) = iri_of <$> parties doc.
Proof.
  unfold name_creator. destruct responsible; [|done]. case_bool_decide; [done|].
  rewrite parties_update. apply update_first_iris, keeps_function.
Qed.

Lemma name_creator_ne doc k : k ≠ "dcs:parties" → name_creator responsible doc !! k = doc !! k.
Proof. intros. unfold name_creator. repeat case_match; try done. by apply update_party_ne. Qed.

Lemma name_creator_names doc : creator_named (name_creator responsible doc).
Proof.
  intros r n Hr Hc Hn. unfold name_creator in Hn. rewrite Hr, bool_decide_eq_false_2 in Hn by done.
  rewrite parties_update, first_update_eq in Hn by apply keeps_function.
  apply fmap_Some in Hn as (m & _ & ->). apply lookup_insert_eq.
Qed.

Lemma parties_merged id doc : parties (mergePartyNodes id doc) = merged id (parties doc).
Proof. unfold mergePartyNodes, parties at 1. by rewrite lookup_insert_eq. Qed.

(** The party nodes once the placeholder is bound. *)
Definition bound_parties (placeholder : string) (nodes : list json) : list json :=
  update_first counterparty (set_function "odrl:contractedParty")
    (merged counterparty (map (replaceNodeIRI placeholder counterparty) nodes)).

Lemma bind_parties doc (P := singleOpenPartyPlaceholder doc) : P ≠ EmptyString →
  parties (bind_counterparty counterparty doc) = bound_parties P (parties doc).
Proof.
  intros HP. unfold bind_counterparty, bound_parties. fold P. rewrite bool_decide_eq_false_2 by done.
  by rewrite parties_update, parties_merged, parties_replace.
Qed.

Lemma bind_other doc (P := singleOpenPartyPlaceholder doc) k : k ≠ "dcs:parties" → k ≠ "@id" → P ≠ EmptyString →
  bind_counterparty counterparty doc !! k = replaceNodeIRI P counterparty <$> doc !! k.
Proof.
  intros H1 H2 HP. unfold bind_counterparty. fold P. rewrite bool_decide_eq_false_2 by done.
  rewrite update_party_ne by done. unfold mergePartyNodes. rewrite lookup_insert_ne by done. by apply replace_in_ne.
Qed.

Lemma bound_closed doc : parties_apart → singleOpenPartyPlaceholder (bind_counterparty counterparty doc) = EmptyString.
Proof.
  intros [Hcp _]. destruct (decide (singleOpenPartyPlaceholder doc = EmptyString)) as [E|E].
  { unfold bind_counterparty. by rewrite E. }
  pose proof (single_placeholder _ E) as Hone. unfold singleOpenPartyPlaceholder at 1.
  enough (open_placeholders (bind_counterparty counterparty doc) = []) as ->; [done|].
  apply elem_of_nil_inv. intros iri [Hin Hp]%elem_of_placeholders. rewrite bind_parties in Hin by done.
  unfold bound_parties in Hin. rewrite update_first_iris in Hin by apply keeps_function. apply merged_iris in Hin.
  apply list_elem_of_fmap in Hin as (node & Hiri & Hin). apply list_elem_of_fmap in Hin as (node0 & -> & Hin).
  rewrite iri_replace in Hiri. symmetry in Hiri. apply fmap_Some in Hiri as (iri0 & H0 & ->).
  case_bool_decide as Heq; [congruence|]. apply Heq.
  assert (H : iri0 ∈ open_placeholders doc).
  { apply elem_of_placeholders. split; [|done]. rewrite <-H0. by apply list_elem_of_fmap_2. }
  rewrite Hone in H. by apply list_elem_of_singleton in H.
Qed.

Lemma bound_agreed doc : agreed doc → agreed (bind_counterparty counterparty doc).
Proof.
  intros Ha p Hp. destruct (decide (singleOpenPartyPlaceholder doc = EmptyString)) as [E|E].
  { unfold bind_counterparty in Hp. rewrite E, bool_decide_eq_true_2 in Hp by done. by apply Ha. }
  rewrite bind_other in Hp by done. apply fmap_Some in Hp as (q & Hq & Hp). destruct q as [| | | | |q]; try done.
  apply Ha in Hq. injection Hp as ->. case_bool_decide; rewrite ?lookup_insert_ne by done; by rewrite lookup_fmap, Hq.
Qed.

Lemma bound_creator doc : parties_apart → creator_named doc → creator_named (bind_counterparty counterparty doc).
Proof.
  intros [Hcp Happ] Hc r n Hr Hne Hn. destruct (Happ _ Hr) as [Hrc Hrp].
  destruct (decide (singleOpenPartyPlaceholder doc = EmptyString)) as [E|E].
  { unfold bind_counterparty in Hn. rewrite E, bool_decide_eq_true_2 in Hn by done. by eapply Hc. }
  assert (HP : is_placeholder (singleOpenPartyPlaceholder doc) = true).
  { apply (elem_of_placeholders doc). rewrite (single_placeholder _ E). by left. }
  rewrite bind_parties in Hn by done. unfold bound_parties in Hn.
  rewrite first_update_ne, first_merged, first_replace in Hn by (done || apply keeps_function || congruence).
  apply fmap_Some in Hn as (m & Hm & ->). rewrite replace_in_ne by done. rewrite (Hc _ _ Hr Hne Hm).
  cbn [fmap option_fmap option_map]. f_equal. unfold ref_node. cbn [replaceNodeIRI].
  rewrite lookup_singleton_eq. cbn [as_string]. rewrite bool_decide_eq_false_2.
  - by rewrite map_fmap_singleton.
  - intros H. rewrite <-H in HP. done.
Qed.

Lemma signed_document_sealed doc : parties_apart → sealed (signed_document doc).
Proof.
  intros Hap. set (b := bound doc).
  assert (Hb : agreed b ∧ creator_named b ∧ singleOpenPartyPlaceholder b = EmptyString).
  { unfold b, bound. split_and!.
    - apply bound_agreed. intros p. rewrite name_creator_ne by done. apply retype_agreed.
    - by apply bound_creator, name_creator_names.
    - by apply bound_closed. }
  destruct Hb as (Ha & Hc & Ho). unfold signed_document. fold b.
  destruct (signing_party b responsible signerDID party) as [p|] eqn:Ep; [|split; try done; intros ? ? ?; congruence].
  pose proof (keeps_attribute signerDID poa) as Hk. split.
  - intros q. rewrite update_party_ne by done. apply Ha.
  - intros r n Hr Hne. rewrite parties_update. destruct (decide (Creator r = p)) as [<-|Hrp].
    + rewrite first_update_eq by done. intros (m & Hm & ->)%fmap_Some.
      unfold attribute. case_bool_decide; rewrite !lookup_insert_ne by done; by eapply Hc.
    + rewrite first_update_ne by done. by eapply Hc.
  - unfold singleOpenPartyPlaceholder. rewrite (placeholders_same b); [exact Ho|]. rewrite parties_update. by apply update_first_iris.
  - intros q n Hq. rewrite (signing_party_same b), Ep in Hq by (intros; rewrite parties_update; by apply found_update).
    injection Hq as <-. rewrite parties_update, first_update_eq by done. intros (m & _ & ->)%fmap_Some. apply attribute_twice.
Qed.

Lemma only_party_update id id' f nodes n : keeps_id f → rows_where (is_party id) nodes = [JObj n] →
  rows_where (is_party id) (update_first id' f nodes) = [JObj (if bool_decide (id = id') then f n else n)].
Proof.
  intros Hf. unfold rows_where. revert n. induction nodes as [|node nodes IH]; intros n; [done|]. cbn [update_first].
  destruct (is_party id' node) eqn:E'.
  - pose proof E' as (m & -> & Em)%is_party_true. rewrite !filter_cons, is_party_keeps by done.
    destruct (is_party id (JObj m)) eqn:E.
    + apply is_party_true in E as (m' & [= <-] & Em'). rewrite bool_decide_eq_true_2 by congruence.
      rewrite !decide_True by done. by intros [= -> ->].
    + rewrite !decide_False by done. rewrite bool_decide_eq_false_2; [done|].
      intros ->. cbn in E. by rewrite bool_decide_eq_true_2 in E.
  - rewrite !filter_cons. destruct (is_party id node) eqn:E; [|rewrite !decide_False by done; apply IH].
    rewrite !decide_True by done. intros [= -> Hnil]. rewrite bool_decide_eq_false_2 by (intros ->; congruence). f_equal.
    clear IH E E'. induction nodes as [|y nodes IH]; [done|]. rewrite filter_cons in Hnil. case_decide as Hy; [done|].
    cbn [update_first]. destruct (is_party id' y) eqn:Ey.
    + apply is_party_true in Ey as (k & -> & Ek). rewrite filter_cons, is_party_keeps, decide_False by done. done.
    + rewrite filter_cons, decide_False by done. by apply IH.
Qed.

(** The counterparty's one node. *)
Lemma bound_once doc : singleOpenPartyPlaceholder doc ≠ EmptyString → ∃ n,
  rows_where (is_party counterparty) (parties (bind_counterparty counterparty doc)) = [JObj n] ∧
  n !! "odrl:function" = Some (ref_node "odrl:contractedParty").
Proof.
  intros HP. rewrite bind_parties by done. set (P := singleOpenPartyPlaceholder doc) in *. unfold bound_parties.
  set (nodes := map _ _). assert (Hex : existsb (is_party counterparty) nodes = true).
  { assert (HPin : P ∈ open_placeholders doc) by (unfold P; rewrite single_placeholder by done; by left).
    apply elem_of_placeholders in HPin as [(node & Hiri & Hin)%list_elem_of_fmap _].
    apply existsb_exists. exists (replaceNodeIRI P counterparty node). split.
    - apply list_elem_of_In. by apply list_elem_of_fmap_2.
    - rewrite is_party_iri, iri_replace, <-Hiri. cbn. by rewrite (bool_decide_eq_true_2 (P = P)), bool_decide_eq_true_2. }
  eexists. rewrite (only_party_update _ _ _ _ _ (keeps_function _) (merged_one _ _ Hex)), bool_decide_eq_true_2 by done.
  split; [done|]. apply lookup_insert_eq.
Qed.
End settled.


Definition sample_party (id : string) : json := JObj {["@id" := JStr id]}.
Definition sample_offer : gmap string json :=
  <["dcs:parties" := JArr [sample_party "did:web:a.example"; sample_party "did:web:b.example";
                           sample_party "urn:contract:1#party-buyer"]]>
  {["dcs:policies" := JObj (<["@type" := JStr "odrl:Offer"]>
     {["odrl:assignee" := ref_node "urn:contract:1#party-buyer"]})]}.
Definition sample_parties : option Responsible :=
  Some {| Creator := "did:web:a.example"; Approvers := []; Reviewers := []; Negotiators := [];
          Counterparty := "did:web:b.example" |}.


(** The condition is needed: without a counterparty the signer is the accepting
    party, and an originator who signs takes over both roles in turn. *)
Example one_party_changes_role :
  let alone := Some {| Creator := "did:key:alice"; Approvers := []; Reviewers := []; Negotiators := []; Counterparty := EmptyString |} in
  let offer := {["dcs:parties" := JArr [sample_party "did:key:alice"; sample_party "urn:contract:1#party-buyer"]]} in
  let sign doc := contractDocumentForSignature doc alone "did:key:alice" EmptyString EmptyString false in
  let once := (p ← sign (JObj offer); Ok p.1) in
  (once ≫= sign) ≠ (p ← sign (JObj offer); Ok p).
Proof. vm_compute. discriminate. Qed.
