(* ===== verification/SignatureChecks.v ===== *)
(** What a submitted signature is checked for: levels, the signatory's name, the
    signing certificate, the nonce in the payload signature
    (internal/signingmanagement/command/apply.go, dss/client.go,
    base/validation/signaturefields.go). *)
From S2P Require Import Prelude Json Sha256 Lifecycle Envelope Anchors.
Import GoStrings.

(** ** dss/client.go: the validation report *)
Record Report := {
  Indication : string;
  SubIndication : string;
  SignedBy : string;
  SigningTime : string;
  Qualification : string
}.

Definition EqualFold (a b : string) : bool := bool_decide (ToUpper a = ToUpper b).

Definition Passed (r : Report) : bool := EqualFold (Indication r) "TOTAL-PASSED".

Definition cryptoFailureSubIndications : list string :=
  ["SIG_CRYPTO_FAILURE"; "HASH_FAILURE"; "FORMAT_FAILURE"; "SIGNED_DATA_NOT_FOUND"].

Definition AssertValidAES (r : Report) : result () :=
  if EqualFold (Indication r) "TOTAL-FAILED" || bool_decide (ToUpper (TrimSpace (SubIndication r)) ∈ cryptoFailureSubIndications)
  then Err (Errorf "dss: signature failed validation")
  else if bool_decide (TrimSpace (SignedBy r) = EmptyString) then Err (Errorf "dss: signature carries no signing certificate")
  else Ok ().

Definition AssertValidQES (r : Report) : result () :=
  _ ← AssertValidAES r;
  if negb (Passed r) then Err (Errorf "dss: QES requires indication TOTAL-PASSED")
  else if negb (bool_decide (ToUpper (TrimSpace (Qualification r)) = "QESIG"))
       then Err (Errorf "dss: QES requires a QESig qualification determination")
  else Ok ().

(** ** Levels *)
Definition credentialTypeRank (level : string) : Z :=
  let l := ToUpper (TrimSpace level) in
  if bool_decide (l = "QES") then 2 else if bool_decide (l = "AES") then 1 else 0.

Definition credentialTypeAtLeast (offered required : string) : bool := credentialTypeRank required <=? credentialTypeRank offered.

(** A property under its prefixed or its compacted name. *)
Definition either_name (node : gmap string json) (name : string) : string :=
  let prefixed := as_string (node !! String.append "dcs:" name) in
  if bool_decide (prefixed = EmptyString) then as_string (node !! name) else prefixed.

Definition names_field (field : string) (item : json) : bool :=
  match item with JObj node => bool_decide (TrimSpace (either_name node "signatoryName") = field) | _ => false end.

Definition RequiredCredentialType (contractData : json) (field : string) : string :=
  match Unmarshal_map contractData with
  | Err _ => "AES"
  | Ok doc =>
      let raw := match doc !! "dcs:signatureFields" with Some (JArr l) => l | _ => as_list (doc !! "signatureFields") end in
      match List.find (names_field field) raw with
      | Some (JObj node) =>
          let level := ToUpper (TrimSpace (either_name node "requiredCredentialType")) in
          if bool_decide (level = EmptyString) then "AES" else level
      | _ => "AES"
      end
  end.

(** ** Names *)

(** [strings.Fields]. *)
Fixpoint Fields_from (word s : string) : list string :=
  let flush := if bool_decide (word = EmptyString) then [] else [word] in
  match s with
  | EmptyString => flush
  | String c s' => if is_space c then flush ++ Fields_from EmptyString s'
                   else Fields_from (String.append word (String c EmptyString)) s'
  end.
Definition Fields (s : string) : list string := Fields_from EmptyString s.

Definition normalizeName (s : string) : string := String.concat " " (Fields (ToUpper s)).

Definition namesMatch (pidGiven pidFamily certGiven certSurname : string) : bool :=
  let empty s := bool_decide (s = EmptyString) in
  if empty pidGiven || empty pidFamily then false
  else if empty certGiven && empty certSurname then false
  else bool_decide (normalizeName pidGiven = normalizeName certGiven)
       && bool_decide (normalizeName pidFamily = normalizeName certSurname).

Definition pidGivenFamilyName (pidClaims : option json) : string * string :=
  match pidClaims with
  | Some (JObj claims) =>
      let name a b := let v := as_string (claims !! a) in if bool_decide (v = EmptyString) then as_string (claims !! b) else v in
      (TrimSpace (name "given_name" "givenName"), TrimSpace (name "family_name" "familyName"))
  | _ => (EmptyString, EmptyString)
  end.

(** ** The signing certificate *)

(** A parsed certificate: the attributes of its subject (type and, when it is
    text, value) and its serial number. *)
Record Certificate := { Names : list (list Z * option string); SerialNumber : bytes }.

Definition oidGivenName : list Z := [2; 5; 4; 42].
Definition oidSurname : list Z := [2; 5; 4; 4].

Definition certGivenSurname (cert : Certificate) : string * string :=
  foldl (λ acc atv,
    match atv.2 with
    | None => acc
    | Some s => if bool_decide (atv.1 = oidGivenName) then (s, acc.2)
                else if bool_decide (atv.1 = oidSurname) then (acc.1, s) else acc
    end) (EmptyString, EmptyString) (Names cert).

(** What follows the first occurrence of [marker]. *)
Fixpoint after_marker (marker raw : bytes) : option bytes :=
  if bool_decide (take (length marker) raw = marker) then Some (drop (length marker) raw)
  else match raw with [] => None | _ :: rest => after_marker marker rest end.

Fixpoint skip_blanks (raw : bytes) : bytes :=
  match raw with b :: rest => if bool_decide (b ∈ [32; 9; 13; 10]) then skip_blanks rest else raw | [] => [] end.

(** The bytes before the first [stop], if there is one. *)
Fixpoint until_byte (stop : Z) (raw : bytes) : option bytes :=
  match raw with
  | [] => None
  | b :: rest => if b =? stop then Some [] else cons b <$> until_byte stop rest
  end.

Definition hex_value (b : Z) : option Z :=
  if (48 <=? b) && (b <=? 57) then Some (b - 48)
  else if (97 <=? b) && (b <=? 102) then Some (b - 87)
  else if (65 <=? b) && (b <=? 70) then Some (b - 55) else None.

Fixpoint hex_decode (digits : bytes) : option bytes :=
  match digits with
  | [] => Some []
  | [_] => None
  | a :: b :: rest => x ← hex_value a; y ← hex_value b; tail ← hex_decode rest; Some (16 * x + y :: tail)
  end.

(** The separators of [bytes.Fields]. *)
Definition is_blank (b : Z) : bool := bool_decide (b ∈ [32; 9; 10; 11; 12; 13]).

Definition extractContentsDER (raw : bytes) : result bytes :=
  match after_marker (of_string "/Contents") raw with
  | None => Err (Errorf "no /Contents entry found")
  | Some tail =>
      match skip_blanks tail with
      | 60 :: rest =>
          match until_byte 62 rest with
          | None => Err (Errorf "/Contents hex string has no closing '>'")
          | Some digits =>
              match hex_decode (rows_where (λ b, negb (is_blank b)) digits) with
              | Some der => Ok der
              | None => Err (Errorf "decode /Contents hex")
              end
          end
      | _ => Err (Errorf "/Contents is not a hex string")
      end
  end.

(** [pkcs7.Parse] and [GetOnlySigner]: [Ok None] for a message without a matching
    signer certificate. *)
Definition signerCertificateFromIncrementalUpdate (parse : bytes → result (option Certificate))
    (signedPDF preparedPDF : bytes) : result Certificate :=
  if (length signedPDF <? length preparedPDF)%nat then Err (Errorf "signed PDF is shorter than the prepared document")
  else
    der ← wrap_err "locate the newly-added signature's /Contents" (extractContentsDER (drop (length preparedPDF) signedPDF));
    p7 ← wrap_err "parse the newly-added signature's CMS SignerInfo" (parse der);
    match p7 with
    | Some cert => Ok cert
    | None => Err (Errorf "the newly-added signature's CMS carries no matching signer certificate")
    end.

(** ** The payload signature *)
Definition jws_segments (compact : string) : result (string * string) :=
  match split_on "."%char compact with
  | [header; payload; _] => Ok (header, payload)
  | _ => Err (Errorf "expected a compact JWS with three segments")
  end.

Definition jwsPayloadBytes (compact : string) : result bytes :=
  '(_, payload) ← jws_segments compact; RawURL_Decode payload.

(** [parse] is [json.Unmarshal] into a map. *)
Definition jwsProtectedHeaderClaim (parse : bytes → result json) (compact claim : string) : result string :=
  '(header, _) ← jws_segments compact;
  raw ← wrap_err "decode protected header" (RawURL_Decode header);
  decoded ← wrap_err "parse protected header" (parse raw);
  claims ← wrap_err "parse protected header" (Unmarshal_map decoded);
  Ok (as_string (claims !! claim)).
