(* ===== verification/Ceremonies.v ===== *)
(** Signing ceremonies: the table, its statements and the requests of a wallet
    before it signs (internal/signingmanagement/command/ceremony.go,
    db/ceremony.go, db/pg/ceremonyrepository.go, internal/service/
    signature_request.go).

    The nullable columns of a ceremony are written in groups - by the presentation,
    by [PinPreparedBytes], by the publication, by the acceptance of a signature - and
    each group is one optional record here.  [Cert], the verified credentials and
    the wallet's request object are outside. *)
From S2P Require Import Prelude Json Sha256 Store Transactions Anchors Erasure.
Import GoStrings.

(** ** db/ceremony.go *)
Inductive CeremonyStatus := CeremonyPending | CeremonyVerified | CeremonyExpired | CeremonyFailed.
#[export] Instance CeremonyStatus_eq_dec : EqDecision CeremonyStatus.
Proof. solve_decision. Defined.

(** signer_did .. verified_at, written by [MarkCeremonyVerified]. *)
Record VerifiedPresentation := {
  vp_SignerDID : string;
  vp_VpToken : string;
  vp_PidClaims : option json;
  vp_KbSdHash : string;
  vp_PoAOrganization : string;
  vp_PoARoles : option json;
  vp_PoAVpToken : option string;
  vp_VerifiedAt : Z
}.

Record PinnedBytes := {
  PreparedPDF : bytes;
  PreparedPDFSHA256 : string;
  PinnedPayload : bytes;
  PinnedPayloadSHA256 : string;
  PinnedContentHash : string;
  PinnedRendererVersion : string;
  PinnedSignedCount : Z;
  PinnedContractVersion : Z;
  RequiredCredentialType : string
}.

(** request_nonce .. published_roles, written by [StorePreparedRequest]. *)
Record PreparedRequest := {
  RequestNonce : string;
  RequestExpiresAt : Z;
  rq_CredentialType : string;
  PublishedBy : string;
  rq_HolderDID : string;
  rq_Roles : json
}.

Record SignatureCeremony := {
  cm_ID : string;
  cm_ContractDID : string;
  cm_FieldName : string;
  cm_RequestedBy : string;
  cm_Status : CeremonyStatus;
  cm_WalletURI : string;
  cm_Nonce : string;
  cm_CreatedAt : Z;
  cm_ExpiresAt : Z;
  cm_presented : option VerifiedPresentation;
  cm_summary_vc : option json;
  cm_request : option PreparedRequest;
  cm_pinned : option PinnedBytes;
  cm_ConsumedAt : option Z;
  (** signer_cert_subject and signer_cert_serial. *)
  cm_SignerCert : option (string * string)
}.

(** The archive entry of a signed version. *)
Record ContractArchiveEntry := {
  ae_DID : string;
  ae_ContractVersion : Z;
  ae_StoredBy : string;
  ae_StoredAt : Z;
  ae_ContractSnapshot : json;
  ae_ContentHash : string;
  ae_SnapshotCID : string;
  ae_SignatureMeta : json;
  ae_CredentialHashes : json;
  ae_TSAReceipt : option json;
  ae_Evidence : json
}.

(** ** The store of signing: the contract tables and its own. *)
Record SStore := {
  base : Store;
  ceremonies : gmap string SignatureCeremony;
  archive_entries : gmap (string * Z) ContractArchiveEntry;
  (** What the artifact store holds, by content id. *)
  artifacts : gmap string bytes
}.

Definition set_base f (s : SStore) : SStore :=
  {| base := f (base s); ceremonies := ceremonies s; archive_entries := archive_entries s; artifacts := artifacts s |}.
Definition set_ceremonies f (s : SStore) : SStore :=
  {| base := base s; ceremonies := f (ceremonies s); archive_entries := archive_entries s; artifacts := artifacts s |}.
Definition set_archive_entries f (s : SStore) : SStore :=
  {| base := base s; ceremonies := ceremonies s; archive_entries := f (archive_entries s); artifacts := artifacts s |}.
Definition set_artifacts f (s : SStore) : SStore :=
  {| base := base s; ceremonies := ceremonies s; archive_entries := archive_entries s; artifacts := f (artifacts s) |}.

Notation STx := (Txn Env SStore) (only parsing).

(** A transaction of the contract tables. *)
Definition in_base {A} (m : Tx A) : STx A := λ e s,
  match m e (base s) with Ok (a, b) => Ok (a, set_base (λ _, b) s) | Err err => Err err end.

Definition s_now : STx Z := query (λ e _, env_now e).

(** ** db/pg/ceremonyrepository.go *)
Module CeremonyRepo.

Definition in_ceremony (c : SignatureCeremony) (presented : option VerifiedPresentation) (summary : option json)
    (request : option PreparedRequest) (pinned : option PinnedBytes) (consumed : option Z) (cert : option (string * string)) :
    SignatureCeremony :=
  {| cm_ID := cm_ID c; cm_ContractDID := cm_ContractDID c; cm_FieldName := cm_FieldName c; cm_RequestedBy := cm_RequestedBy c;
     cm_Status := cm_Status c; cm_WalletURI := cm_WalletURI c; cm_Nonce := cm_Nonce c; cm_CreatedAt := cm_CreatedAt c;
     cm_ExpiresAt := cm_ExpiresAt c; cm_presented := presented; cm_summary_vc := summary; cm_request := request;
     cm_pinned := pinned; cm_ConsumedAt := consumed; cm_SignerCert := cert |}.

Definition with_status (st : CeremonyStatus) (c : SignatureCeremony) : SignatureCeremony :=
  {| cm_ID := cm_ID c; cm_ContractDID := cm_ContractDID c; cm_FieldName := cm_FieldName c; cm_RequestedBy := cm_RequestedBy c;
     cm_Status := st; cm_WalletURI := cm_WalletURI c; cm_Nonce := cm_Nonce c; cm_CreatedAt := cm_CreatedAt c;
     cm_ExpiresAt := cm_ExpiresAt c; cm_presented := cm_presented c; cm_summary_vc := cm_summary_vc c;
     cm_request := cm_request c; cm_pinned := cm_pinned c; cm_ConsumedAt := cm_ConsumedAt c; cm_SignerCert := cm_SignerCert c |}.

Definition with_presented p c := in_ceremony c p (cm_summary_vc c) (cm_request c) (cm_pinned c) (cm_ConsumedAt c) (cm_SignerCert c).
Definition with_summary v c := in_ceremony c (cm_presented c) v (cm_request c) (cm_pinned c) (cm_ConsumedAt c) (cm_SignerCert c).
Definition with_request r c := in_ceremony c (cm_presented c) (cm_summary_vc c) r (cm_pinned c) (cm_ConsumedAt c) (cm_SignerCert c).
Definition with_pinned p c := in_ceremony c (cm_presented c) (cm_summary_vc c) (cm_request c) p (cm_ConsumedAt c) (cm_SignerCert c).
Definition with_consumed t c := in_ceremony c (cm_presented c) (cm_summary_vc c) (cm_request c) (cm_pinned c) t (cm_SignerCert c).
Definition with_cert x c := in_ceremony c (cm_presented c) (cm_summary_vc c) (cm_request c) (cm_pinned c) (cm_ConsumedAt c) x.

(** [UPDATE ... WHERE id = $1 AND p], with the number of rows. *)
Definition update_if (id : string) (p : SignatureCeremony → bool) (f : SignatureCeremony → SignatureCeremony) : STx bool := λ e s,
  match ceremonies s !! id with
  | Some c => if p c then Ok (true, set_ceremonies (insert id (f c)) s) else Ok (false, s)
  | None => Ok (false, s)
  end.

Definition CreateCeremony (c : SignatureCeremony) : STx () :=
  within "create signature ceremony"
    (known ← query (λ _ s, (contracts (base s) !! cm_ContractDID c, ceremonies s !! cm_ID c));
     _ ← reject_if (bool_decide (known.1 = None)) (PgError "signature_ceremonies_contract_did_fkey");
     _ ← reject_if (bool_decide (is_Some known.2)) (PgError "signature_ceremonies_pkey");
     exec (λ _, set_ceremonies (insert (cm_ID c) c))).

(** This statement does not select poa_vp_token. *)
Definition unread_token (p : VerifiedPresentation) : VerifiedPresentation :=
  {| vp_SignerDID := vp_SignerDID p; vp_VpToken := vp_VpToken p; vp_PidClaims := vp_PidClaims p;
     vp_KbSdHash := vp_KbSdHash p; vp_PoAOrganization := vp_PoAOrganization p; vp_PoARoles := vp_PoARoles p;
     vp_PoAVpToken := None; vp_VerifiedAt := vp_VerifiedAt p |}.

(** No reader selects summary_vc. *)
Definition by_id (c : SignatureCeremony) : SignatureCeremony :=
  in_ceremony c (unread_token <$> cm_presented c) None (cm_request c) (cm_pinned c) (cm_ConsumedAt c) (cm_SignerCert c).

Definition GetCeremonyByID (id : string) : STx (option SignatureCeremony) := query (λ _ s, by_id <$> ceremonies s !! id).

(** Of the columns written after the presentation, these statements select none. *)
Definition presented_only (c : SignatureCeremony) : SignatureCeremony := in_ceremony c (cm_presented c) None None None None None.

(** [ORDER BY verified_at DESC NULLS LAST LIMIT 1]. *)
Definition verified_before (a b : SignatureCeremony) : bool :=
  match vp_VerifiedAt <$> cm_presented a, vp_VerifiedAt <$> cm_presented b with
  | Some ta, Some tb => ta <? tb
  | None, Some _ => true
  | _, None => false
  end.
Definition newest (rows : list SignatureCeremony) : option SignatureCeremony :=
  foldl (λ best c, match best with None => Some c | Some b => if verified_before b c then Some c else best end) None rows.

Definition find_verified (p : SignatureCeremony → bool) : STx (option SignatureCeremony) :=
  query (λ _ s, presented_only <$> newest (rows_where (λ c, bool_decide (cm_Status c = CeremonyVerified) && p c)
                                             (map_to_list (ceremonies s)).*2)).

Definition FindVerifiedCeremonyByField (contractDID fieldName : string) : STx (option SignatureCeremony) :=
  find_verified (λ c, bool_decide (cm_ContractDID c = contractDID) && bool_decide (cm_FieldName c = fieldName)).

Definition signed_by (c : SignatureCeremony) : option string := vp_SignerDID <$> cm_presented c.

Definition FindVerifiedCeremony (contractDID signerDID : string) : STx (option SignatureCeremony) :=
  find_verified (λ c, bool_decide (cm_ContractDID c = contractDID) && bool_decide (signed_by c = Some signerDID)).

Definition is_status (st : CeremonyStatus) (c : SignatureCeremony) : bool := bool_decide (cm_Status c = st).

Definition MarkCeremonyVerified (id : string) (v : VerifiedPresentation) : STx () :=
  affected ← update_if id (is_status CeremonyPending) (λ c, with_status CeremonyVerified (with_presented (Some v) c));
  reject_if (negb affected) (Errorf "ceremony is not in pending state").

Definition RecordSummaryVC (id : string) (summary : json) : STx () :=
  _ ← update_if id (λ _, true) (with_summary (Some summary)); mret ().

Definition StorePreparedRequest (id : string) (req : PreparedRequest) : STx () :=
  affected ← update_if id (is_status CeremonyVerified) (λ c, with_consumed None (with_request (Some req) c));
  reject_if (negb affected) (Errorf "ceremony is not in verified state").

Definition PinPreparedBytes (id : string) (p : PinnedBytes) : STx () :=
  _ ← update_if id (λ _, true) (with_pinned (Some p)); mret ().

Definition RecordSignerCertificate (id subject serial : string) : STx () :=
  _ ← update_if id (λ _, true) (with_cert (Some (subject, serial))); mret ().

Definition MarkCeremonyConsumed (id : string) : STx () :=
  t ← s_now;
  affected ← update_if id (λ c, bool_decide (cm_ConsumedAt c = None)) (with_consumed (Some t));
  reject_if (negb affected) (Errorf "ceremony signing request is already consumed").

End CeremonyRepo.

(** ** Wallet links *)
Definition hex_upper (n : nat) : ascii := Ascii.ascii_of_nat (if (n <? 10)%nat then 48 + n else 55 + n).
Definition percent (c : ascii) : string :=
  let n := Ascii.nat_of_ascii c in String "%" (String (hex_upper (n / 16)) (String (hex_upper (n mod 16)) EmptyString)).
Definition unreserved (c : ascii) : bool :=
  let n := Ascii.nat_of_ascii c in
  ((48 <=? n) && (n <=? 57) || (65 <=? n) && (n <=? 90) || (97 <=? n) && (n <=? 122))%nat
  || is_byte "-" c || is_byte "_" c || is_byte "." c || is_byte "~" c.
Definition in_segment (c : ascii) : bool :=
  unreserved c || is_byte "$" c || is_byte "&" c || is_byte "+" c || is_byte "=" c || is_byte ":" c || is_byte "@" c.

Fixpoint PathEscape (s : string) : string :=
  match s with
  | EmptyString => EmptyString
  | String c s' => if in_segment c then String c (PathEscape s') else String.append (percent c) (PathEscape s')
  end.
Fixpoint QueryEscape (s : string) : string :=
  match s with
  | EmptyString => EmptyString
  | String c s' => if unreserved c then String c (QueryEscape s')
                   else if is_byte " " c then String "+" (QueryEscape s') else String.append (percent c) (QueryEscape s')
  end.

Definition signatureRequestURL (baseURL ceremonyID leaf : string) : string :=
  String.append (trim_right (is_byte "/") baseURL)
    (String.append "/signature/request/" (String.append (PathEscape ceremonyID) (String.append "/" leaf))).

Definition buildCeremonyWalletURI (baseURL ceremonyID clientID : string) : string :=
  String.append "openid4vp://?client_id=" (String.append (QueryEscape clientID)
    (String.append "&request_uri=" (String.append (QueryEscape (signatureRequestURL baseURL ceremonyID "object"))
      "&request_uri_method=post"))).

(** ** command/ceremony.go *)
Definition ceremonyTTL : Z := 15 * 60 * 1000000.

Record StartCeremonyCmd := { st_ContractDID : string; st_FieldName : string; st_RequestedBy : string; st_BaseURL : string; st_ClientID : string }.

Definition StartCeremony (cmd : StartCeremonyCmd) : STx SignatureCeremony :=
  _ ← reject_if (bool_decide (TrimSpace (st_ClientID cmd) = EmptyString)) (Errorf "openid4vp client_id is not configured");
  t ← s_now;
  id ← in_base NewUUID;
  nonce ← in_base NewUUID;
  let ceremony :=
    {| cm_ID := id; cm_ContractDID := st_ContractDID cmd; cm_FieldName := st_FieldName cmd; cm_RequestedBy := st_RequestedBy cmd;
       cm_Status := CeremonyPending; cm_WalletURI := buildCeremonyWalletURI (st_BaseURL cmd) id (st_ClientID cmd);
       cm_Nonce := nonce; cm_CreatedAt := t; cm_ExpiresAt := t + ceremonyTTL; cm_presented := None; cm_summary_vc := None;
       cm_request := None; cm_pinned := None; cm_ConsumedAt := None; cm_SignerCert := None |} in
  _ ← CeremonyRepo.CreateCeremony ceremony;
  mret ceremony.

Record PresentationCmd := {
  pr_CeremonyID : string;
  pr_SignerDID : string;
  pr_SDHash : string;
  pr_VpToken : string;
  pr_PidClaims : option json;
  pr_PoAOrganization : string;
  pr_PoARoles : option json;
  pr_PoAVpToken : string
}.

Definition CompletePresentation (cmd : PresentationCmd) : STx SignatureCeremony :=
  ceremony ← CeremonyRepo.GetCeremonyByID (pr_CeremonyID cmd);
  match ceremony with
  | None => raise (Sentinel ErrCeremonyNotFound)
  | Some ceremony =>
      t ← s_now;
      _ ← reject_if (cm_ExpiresAt ceremony <? t) (Wrapf "ceremony expired" (Sentinel ErrCeremonyExpired));
      _ ← reject_if (bool_decide (TrimSpace (pr_SignerDID cmd) = EmptyString))
            (Errorf "presentation carries no verified signatory DID");
      let poaOrganization := TrimSpace (pr_PoAOrganization cmd) in
      _ ← reject_if (bool_decide (poaOrganization = EmptyString))
            (Wrapf "no Power of Attorney credential was presented at signing" (Sentinel ErrPoAUnauthorized));
      _ ← reject_if (negb (bool_decide (poaOrganization = cm_FieldName ceremony)))
            (Wrapf "Power of Attorney does not authorize the signed party" (Sentinel ErrPoAUnauthorized));
      let presented :=
        {| vp_SignerDID := pr_SignerDID cmd; vp_VpToken := pr_VpToken cmd; vp_PidClaims := pr_PidClaims cmd;
           vp_KbSdHash := pr_SDHash cmd; vp_PoAOrganization := poaOrganization; vp_PoARoles := pr_PoARoles cmd;
           vp_PoAVpToken := Some (TrimSpace (pr_PoAVpToken cmd)); vp_VerifiedAt := t |} in
      _ ← CeremonyRepo.MarkCeremonyVerified (pr_CeremonyID cmd) presented;
      mret (CeremonyRepo.with_status CeremonyVerified (CeremonyRepo.with_presented (Some presented) ceremony))
  end.

(** ** service/signature_request.go *)
Definition signingRequestTTL : Z := 15 * 60 * 1000000.
Definition NotFound (e : error) : error := Wrapf "not_found" e.

Definition getCeremony (id : string) : STx (option SignatureCeremony) := within "internal_error" (CeremonyRepo.GetCeremonyByID id).

Definition loadPendingCeremony (id : string) : STx SignatureCeremony :=
  ceremony ← getCeremony id;
  match ceremony with
  | None => raise (NotFound (Errorf "ceremony not found"))
  | Some c =>
      _ ← reject_if (negb (CeremonyRepo.is_status CeremonyPending c)) (NotFound (Errorf "ceremony not found"));
      t ← s_now;
      _ ← reject_if (negb (t <? cm_ExpiresAt c)) (BadRequest (Errorf "ceremony expired"));
      mret c
  end.

(** The published request of a ceremony, with what the endpoints read of it. *)
Definition loadPublishedCeremony (id : string) : STx (SignatureCeremony * PreparedRequest * PinnedBytes * string) :=
  ceremony ← getCeremony id;
  match ceremony with
  | None => raise (NotFound (Errorf "ceremony not found"))
  | Some c =>
      match cm_request c, cm_pinned c, CeremonyRepo.signed_by c with
      | Some request, Some pinned, Some signer =>
          t ← s_now;
          _ ← reject_if (RequestExpiresAt request <? t) (BadRequest (Errorf "signing request has expired"));
          mret (c, request, pinned, signer)
      | _, _, _ => raise (NotFound (Errorf "ceremony has no published signing request"))
      end
  end.

Definition assertPreparedDocumentDigestConsistent (pinned : PinnedBytes) : result () :=
  if bool_decide (EncodeToString (Sum256 (PreparedPDF pinned)) = ToLower (TrimSpace (PreparedPDFSHA256 pinned))) then Ok ()
  else Err (Errorf "prepared document no longer matches its pinned digest").

Definition SignatureRequestDocument (id : string) : STx bytes :=
  '(_, _, pinned, _) ← loadPublishedCeremony id;
  _ ← reject_if (bool_decide (PreparedPDF pinned = [])) (NotFound (Errorf "ceremony has no prepared document"));
  _ ← within "internal_error" (of_result (assertPreparedDocumentDigestConsistent pinned));
  mret (PreparedPDF pinned).

Definition SignatureRequestPayload (id : string) : STx bytes :=
  '(_, _, pinned, _) ← loadPublishedCeremony id;
  _ ← reject_if (bool_decide (PinnedPayload pinned = [])) (NotFound (Errorf "ceremony has no pinned payload"));
  mret (PinnedPayload pinned).

(** What the request object asks the wallet for. *)
Inductive RequestObject := DocumentRetrieval (pinned : PinnedBytes) (nonce : string) | IdentityPresentation (nonce : string).

Definition SignatureRequestObject (id : string) : STx RequestObject :=
  ceremony ← getCeremony id;
  match ceremony with
  | None => raise (NotFound (Errorf "ceremony not found"))
  | Some c =>
      match cm_request c, cm_pinned c, CeremonyRepo.signed_by c with
      | Some _, Some _, Some _ =>
          '(_, request, pinned, _) ← loadPublishedCeremony id;
          _ ← within "internal_error" (of_result (assertPreparedDocumentDigestConsistent pinned));
          mret (DocumentRetrieval pinned (RequestNonce request))
      | _, _, _ => pending ← loadPendingCeremony id; mret (IdentityPresentation (cm_Nonce pending))
      end
  end.
