(* ===== verification/Preparing.v ===== *)
(** Preparing a signature: every step up to the signature itself, and the pinning of
    the document the signatory signs (internal/signingmanagement/command/apply.go
    [prepare], [Prepare], and the publication of the request in
    internal/service/signature_request.go). *)
From S2P Require Import Prelude Json ContractState Extrinsic Sha256 Store Repos Transactions Document Lifecycle Validation Erasure Signing.
From S2P Require Import Sealing SignatureChecks Ceremonies.
Import GoStrings.

(** How waiting for the per-contract regeneration lock ends. *)
Inductive LockOutcome := LockTaken | LockWaitedOut | LockFailed.

(** pdf-core, the credential issuers, the validator of signatures, the artifact
    store, the archive's notary and time stamps, and Go's encoders. *)
Class SigningServices := {
  EmbedEvidence : bytes → json → result bytes;
  MatchContent : bytes → bytes → result bool;
  ExtractPayload : bytes → result bytes;
  Reanchor : bytes → string → result bytes;
  Download : bytes → result bytes;
  Update : bytes → bytes → bytes → string → result (bytes * string);
  IssueContractLifecycleVC : string → string → string → string → result bytes;
  CreateCredential : json → result json;
  (** The status list credential and the index of a contract's entry. *)
  EntryFor : option (string → result (string * Z));
  SHACLEvidence : json → result (Z * string);
  ValidatePDF : option (bytes → string → result Report);
  ParsePKCS7 : bytes → result (option Certificate);
  Put : string → bytes → result string;
  (** Why the store would not give an object back. *)
  Get_fault : string → string → option error;
  NotarizeArchiveEntry : option (json → result json);
  TimestampBytes : option (bytes → result json);
  Marshal : json → bytes;
  Unmarshal : bytes → result json;
  Canonicalize : json → result bytes;
  (** The text of a jsonb column. *)
  jsonb_text : json → bytes;
  Format_RFC3339 : Z → string;
  Format_RFC3339Nano : Z → string;
  Parse_RFC3339 : string → option Z;
  AESCertNameMatchRequired : bool;
  IssuerDID : string;
  (** [url.Parse] finds a scheme. *)
  absolute_uri : string → bool;
  regeneration_lock : string → LockOutcome
}.

Record ApplyCmd := {
  DID : string;
  SignerDID : string;
  FieldName : string;
  CeremonyID : string;
  CredentialType : string;
  AppliedBy : string;
  HolderDID : string
}.

Definition hash_hex (bs : bytes) : string := EncodeToString (Sum256 bs).

Definition RemoteManifestURL (public_url did : string) : string :=
  if bool_decide (TrimSpace did = EmptyString) then EmptyString
  else String.append (trim_right (λ c, bool_decide (c = "/"%char)) (TrimSpace public_url))
         (String.append "/c2pa/manifest/" did).

(** ** The repository of the contract row *)
Definition with_document (doc : json) (c : Contract) : Contract :=
  {| c_did := c_did c; c_origin := c_origin c; c_contract_version := c_contract_version c;
     c_state := c_state c; c_created_by := c_created_by c; c_created_at := c_created_at c;
     c_updated_at := c_updated_at c; c_start_date := c_start_date c; c_exp_date := c_exp_date c;
     c_exp_policy := c_exp_policy c; c_exp_notice_period := c_exp_notice_period c;
     c_name := c_name c; c_description := c_description c; c_responsible := c_responsible c;
     c_contract_data := Some doc; c_template_did := c_template_did c;
     c_template_version := c_template_version c; c_target_id := c_target_id c;
     c_content_updated_at := c_content_updated_at c; c_pdf := c_pdf c |}.

Definition UpdateContractData (did : string) (doc : json) : Tx () := ContractRepo.update_row did (with_document doc).

(** ** Evidence *)
Definition signingEvidenceAttachment (summary : json) (poaVPToken : option string) : json :=
  let presentation := default EmptyString poaVPToken in
  JObj (<["summary" := summary]>
    (if bool_decide (presentation = EmptyString) then ∅ else {["poa_presentation" := JStr presentation]})).

Record SigningSummary := {
  sm_ContractID : string;
  sm_SignerDID : string;
  sm_CeremonyID : string;
  sm_FieldName : string;
  sm_ContentHash : string;
  sm_PDFHash : string;
  sm_CredentialType : string;
  sm_KBSDHash : string;
  sm_SignedAt : Z;
  sm_SchemaVersion : Z;
  sm_ValidationReportHash : string
}.

Record preparedSignature := {
  p_ceremony : SignatureCeremony;
  p_basePDF : bytes;
  p_evidence : json;
  p_jadesPayload : bytes;
  p_contentHash : string;
  p_signedCount : Z;
  p_rendererVersion : string;
  p_contractVersion : Z;
  p_requiredCredentialType : string
}.

Section prepare.
Context {V : ContractValidation} {S : SigningServices}.

Definition acquireRegenerationLock (did : string) : result () :=
  match regeneration_lock did with
  | LockTaken => Ok ()
  | LockWaitedOut => Err (Wrapf did (Sentinel ErrRegenerationInFlight))
  | LockFailed => Err (Errorf "acquire per-contract PDF regeneration lock")
  end.

(** base/jades [BuildContractPayload]. *)
Definition BuildContractPayload (did : string) (contractVersion : Z) (document : json) : result bytes :=
  Canonicalize (JObj (<["dcs:contractDid" := JStr did]> (<["dcs:contractVersion" := jint contractVersion]>
    {["dcs:contractDocument" := document]}))).

(** provenance/signing_summary.go. *)
Definition summary_context : json :=
  let terms := <["dcs" := JStr "https://w3id.org/facis/dcs/ontology/v1#"]>
    (<["ContractSigningSummaryCredential" := JStr "dcs:ContractSigningSummaryCredential"]>
    (<["contract_id" := JStr "dcs:contractId"]> (<["ceremony_id" := JStr "dcs:ceremonyId"]>
    (<["field_name" := JStr "dcs:fieldName"]> (<["content_hash" := JStr "dcs:contentHash"]>
    (<["pdf_hash" := JStr "dcs:pdfHash"]> (<["credential_type" := JStr "dcs:credentialType"]>
    (<["kb_sd_hash" := JStr "dcs:kbSdHash"]> (<["schema_version" := JStr "dcs:schemaVersion"]>
    (<["validation_report_hash" := JStr "dcs:validationReportHash"]>
    {["signed_at" := JObj (<["@id" := JStr "dcs:signedAt"]>
                             {["@type" := JStr "http://www.w3.org/2001/XMLSchema#dateTime"]})]})))))))))) in
  JArr [JStr "https://www.w3.org/ns/credentials/v2"; JStr "https://w3id.org/security/data-integrity/v2"; JObj terms].

Definition normalizeSubjectID (raw : string) : string :=
  let s := TrimSpace raw in
  if negb (bool_decide (s = EmptyString)) && absolute_uri s then s
  else String.append "urn:dcs:subject:" (hash_hex (of_string s)).

Definition summary_subject (s : SigningSummary) : gmap string json :=
  let claims := <["id" := JStr (normalizeSubjectID (sm_SignerDID s))]> (<["contract_id" := JStr (sm_ContractID s)]>
    (<["ceremony_id" := JStr (sm_CeremonyID s)]> (<["field_name" := JStr (sm_FieldName s)]>
    (<["content_hash" := JStr (sm_ContentHash s)]> (<["pdf_hash" := JStr (sm_PDFHash s)]>
    (<["kb_sd_hash" := JStr (sm_KBSDHash s)]> {["signed_at" := JStr (Format_RFC3339 (sm_SignedAt s))]})))))) in
  let levelled := if bool_decide (sm_CredentialType s = EmptyString) then claims
                  else <["credential_type" := JStr (sm_CredentialType s)]> claims in
  if bool_decide (sm_ValidationReportHash s = EmptyString) then levelled
  else <["schema_version" := jint (sm_SchemaVersion s)]>
         (<["validation_report_hash" := JStr (sm_ValidationReportHash s)]> levelled).

Definition buildCredentialStatus (status : string * Z) : option json :=
  if bool_decide (status.1 = EmptyString) then None
  else Some (JObj (<["id" := JStr (String.append status.1 (String.append "#" (pretty status.2)))]>
       (<["type" := JStr "TokenStatusList"]> (<["statusPurpose" := JStr "revocation"]>
       (<["statusListIndex" := JStr (pretty status.2)]> {["statusListCredential" := JStr status.1]}))))).

(** The credential is identified by the hash of its text without an identifier. *)
Definition IssueSigningSummaryVC (status : string * Z) (s : SigningSummary) : result json :=
  let body := <["@context" := summary_context]>
    (<["type" := JArr [JStr "VerifiableCredential"; JStr "ContractSigningSummaryCredential"]]>
    (<["issuer" := JStr IssuerDID]> (<["validFrom" := JStr (Format_RFC3339 (sm_SignedAt s))]>
    {["credentialSubject" := JObj (summary_subject s)]}))) in
  let unsigned := match buildCredentialStatus status with Some v => <["credentialStatus" := v]> body | None => body end in
  let with_id id := JObj (<["id" := JStr id]> unsigned) in
  wrap_err "sign signing-summary VC"
    (CreateCredential (with_id (String.append "urn:dcs:vc:" (hash_hex (Marshal (with_id EmptyString)))))).

(** ** The artifact *)
Definition fetch (did cid : string) : STx bytes :=
  stored ← query (λ _ s, artifacts s !! cid);
  match Get_fault did cid, stored with
  | Some err, _ => raise err
  | None, Some pdf => mret pdf
  | None, None => raise (Errorf "artifact not found")
  end.

(** [FetchContractPDFBytes]. *)
Definition FetchContractPDFBytes (did : string) : STx bytes :=
  cid ← query (λ _ s, match contracts (base s) !! did with Some c => IPFSCID (c_pdf c) | None => EmptyString end);
  if bool_decide (cid = EmptyString) then mret [] else fetch did cid.

Definition loadBasePDF (storedPDF jsonld : bytes) : result bytes :=
  match storedPDF with [] => wrap_err "render base PDF" (Download jsonld) | _ => Ok storedPDF end.

Definition stampLifecycleForSigning (public_url did : string) (jsonld pdf : bytes) : result (bytes * string) :=
  vc ← wrap_err "issue lifecycle VC" (IssueContractLifecycleVC did (hash_hex pdf) "active" "Contract activated for execution");
  wrap_err "pdf-core update" (Update pdf jsonld vc (RemoteManifestURL public_url did)).

(** ** resolveCeremony *)
Definition resolveCeremony (cmd : ApplyCmd) : STx SignatureCeremony :=
  if negb (bool_decide (CeremonyID cmd = EmptyString)) then
    ceremony ← CeremonyRepo.GetCeremonyByID (CeremonyID cmd);
    match ceremony with
    | None => raise (Sentinel ErrCeremonyRequired)
    | Some c =>
        _ ← reject_if (negb (CeremonyRepo.is_status CeremonyVerified c) || negb (bool_decide (cm_ContractDID c = DID cmd))
                       || negb (bool_decide (CeremonyRepo.signed_by c = Some (SignerDID cmd)))) (Sentinel ErrCeremonyRequired);
        mret c
    end
  else
    ceremony ← (if negb (bool_decide (FieldName cmd = EmptyString))
                then CeremonyRepo.FindVerifiedCeremonyByField (DID cmd) (FieldName cmd)
                else CeremonyRepo.FindVerifiedCeremony (DID cmd) (SignerDID cmd));
    match ceremony with Some c => mret c | None => raise (Sentinel ErrCeremonyRequired) end.

(** The declared fields of this instance without a verified ceremony. *)
Fixpoint missing_ceremonies (did localPeer : string) (parties : list string) (fields : list string) : STx (list string) :=
  match fields with
  | [] => mret []
  | f :: rest =>
      if IsRemotePartyField parties localPeer f then missing_ceremonies did localPeer parties rest
      else
        c ← CeremonyRepo.FindVerifiedCeremonyByField did f;
        missing ← missing_ceremonies did localPeer parties rest;
        mret (match c with None => f :: missing | Some _ => missing end)
  end.

Definition is_signed (g : SignatureRow) : bool := bool_decide (sg_status g = "SIGNED").

(** The gates of a contract that declares its fields. *)
Definition declared_field_gates (did localPeer field : string) (parties requiredFields : list string) (signedCount : Z) : STx () :=
  if bool_decide (requiredFields = []) then mret () else
  _ ← reject_if (negb (bool_decide (field ∈ requiredFields))) (Wrapf field (Sentinel ErrUnknownSignatureField));
  if negb (signedCount =? 0) then mret () else
  missing ← missing_ceremonies did localPeer parties requiredFields;
  reject_if (negb (bool_decide (missing = []))) (Wrapf "missing ceremonies" (Sentinel ErrCeremoniesIncomplete)).

(** ** prepare *)
Definition prepare (localPeer : string) (cmd : ApplyCmd) : STx preparedSignature :=
  _ ← of_result (acquireRegenerationLock (DID cmd));
  data ← within "could not read contract" (in_base (SigningRepo.ReadDataByDID (DID cmd)));
  match c_contract_data data with
  | None => raise (Errorf "contract has no contract data for policy validation")
  | Some stored =>
      ceremony ← resolveCeremony cmd;
      let field := cm_FieldName ceremony in
      let required := SignatureChecks.RequiredCredentialType stored field in
      _ ← reject_if (negb (credentialTypeAtLeast (CredentialType cmd) required)) (Wrapf field (Sentinel ErrLevelBelowRequired));
      _ ← of_result (ValidateTransition (c_state data) EventSign);
      let requiredFields := RequiredSignatureFields stored in
      _ ← in_base (assertCounterpartiesSettled (DID cmd) localPeer (c_responsible data) requiredFields);
      existingRecords ← within "could not load existing signatures" (in_base (SigningRepo.LoadSignatures (DID cmd)));
      _ ← of_result (assertFieldUnsigned existingRecords field);
      let signedCount := Z.of_nat (length (rows_where is_signed existingRecords)) in
      _ ← declared_field_gates (DID cmd) localPeer field (partyDIDs (c_responsible data)) requiredFields signedCount;
      storedPDF ← within "fetch contract PDF" (FetchContractPDFBytes (DID cmd));
      let artifactFrozen := (0 <? signedCount) || CarriesPAdESSignature storedPDF in
      let poaOrganization := default EmptyString (vp_PoAOrganization <$> cm_presented ceremony) in
      '(document, mutated) ← of_result (contractDocumentForSignature stored (c_responsible data) (SignerDID cmd)
                                          poaOrganization field artifactFrozen);
      _ ← only_if mutated (within "persist sealed agreement and signatory attribution" (in_base (UpdateContractData (DID cmd) document)));
      let text := if mutated : bool then Marshal document else jsonb_text stored in
      _ ← of_result (ValidateContractPolicySatisfaction (Some document) (pretty (c_contract_version data)));
      _ ← within "signature application blocked" (of_result (ValidateContractClosed (Some document)));
      _ ← within "signature application blocked" (of_result (RequireHubConformance (Some document)));
      '(schemaVersion, reportHash) ← within "SHACL evidence for signing-summary credential" (of_result (SHACLEvidence document));
      basePDF ← of_result (loadBasePDF storedPDF text);
      public_url ← query (λ e _, env_public_url e);
      '(stampedPDF, rendererVersion) ← (if artifactFrozen : bool then mret (basePDF, EmptyString)
        else within "stamp active lifecycle assertion before signing"
               (of_result (stampLifecycleForSigning public_url (DID cmd) text basePDF)));
      signedAt ← s_now;
      match EntryFor with
      | None => raise (Errorf "no status list entries source")
      | Some entry_for =>
          statusEntry ← within "status list entry" (of_result (entry_for (DID cmd)));
          summary ← within "issue signing-summary VC" (of_result (IssueSigningSummaryVC statusEntry
            {| sm_ContractID := DID cmd; sm_SignerDID := SignerDID cmd; sm_CeremonyID := cm_ID ceremony; sm_FieldName := field;
               sm_ContentHash := hash_hex text; sm_PDFHash := hash_hex stampedPDF; sm_CredentialType := CredentialType cmd;
               sm_KBSDHash := default EmptyString (vp_KbSdHash <$> cm_presented ceremony); sm_SignedAt := signedAt;
               sm_SchemaVersion := schemaVersion; sm_ValidationReportHash := reportHash |}));
          _ ← CeremonyRepo.RecordSummaryVC (cm_ID ceremony) summary;
          jadesPayload ← within "build JAdES payload" (of_result (BuildContractPayload (DID cmd) (c_contract_version data) document));
          mret {| p_ceremony := ceremony; p_basePDF := stampedPDF;
                  p_evidence := signingEvidenceAttachment summary (cm_presented ceremony ≫= vp_PoAVpToken);
                  p_jadesPayload := jadesPayload; p_contentHash := hash_hex text; p_signedCount := signedCount;
                  p_rendererVersion := rendererVersion; p_contractVersion := c_contract_version data;
                  p_requiredCredentialType := required |}
      end
  end.

(** [Applier.Prepare]; the applier reads its own identity first. *)
Definition Prepare (cmd : ApplyCmd) : STx bytes :=
  localPeer ← within "could not read this instance's own peer identity" (in_base GetID);
  prepared ← prepare localPeer cmd;
  toBeSigned ← within "embed signing evidence" (of_result (EmbedEvidence (p_basePDF prepared) (p_evidence prepared)));
  _ ← within "pin prepared signature bytes" (CeremonyRepo.PinPreparedBytes (cm_ID (p_ceremony prepared))
        {| PreparedPDF := toBeSigned; PreparedPDFSHA256 := hash_hex toBeSigned;
           PinnedPayload := p_jadesPayload prepared; PinnedPayloadSHA256 := hash_hex (p_jadesPayload prepared);
           PinnedContentHash := p_contentHash prepared; PinnedRendererVersion := p_rendererVersion prepared;
           PinnedSignedCount := p_signedCount prepared; PinnedContractVersion := p_contractVersion prepared;
           RequiredCredentialType := p_requiredCredentialType prepared |});
  mret toBeSigned.
End prepare.
