(* ===== verification/Accepting.v ===== *)
(** Accepting a signature the signatory made: [SubmitSignature] and [finalize] of
    internal/signingmanagement/command/apply.go, and the archive entry of the signed
    version (internal/contractworkflowengine/command/archive.go and archive_tsa.go).

    The code decides first, over reads and calls that take seconds, and then takes
    the regeneration lock, looks at the signatures again and writes.  Other
    transactions commit in between, so the two halves are two definitions: [accept]
    reads one store, [record] runs on whatever store it finds. *)
From S2P Require Import Prelude Json ContractState Sha256 Store Repos Transactions Document Negotiation Validation Signing.
From S2P Require Import Envelope Sealing SignatureChecks Ceremonies Preparing.
Import GoStrings.

Record SubmitSignatureCmd := { sub_Apply : ApplyCmd; SignedPDF : bytes; JAdESSignature : string }.

(** ** archive.go *)
Record ArchiveSigningEvidence := {
  se_Signer : string;
  se_CredentialType : string;
  se_CeremonyID : string;
  se_Field : string;
  se_SignedAt : Z;
  se_PDFCID : string;
  se_PDFHash : string;
  se_CredentialHashes : gmap string json
}.

Record finalizeInput := {
  f_ceremony : SignatureCeremony;
  f_signedPDF : bytes;
  f_jadesSignature : string;
  f_pinned : PinnedBytes;
  f_vpToken : string;
  f_kbSDHash : string;
  f_signedAt : Z
}.

Section accept.
Context {V : ContractValidation} {S : SigningServices}.

Definition without_prefix (s : string) : string := default s (cut_prefix "sha256:" s).

Definition option_time (t : option Z) : json := match t with Some t => JStr (Format_RFC3339Nano t) | None => JNull end.

Definition responsible_json (r : option Responsible) : json :=
  match r with
  | None => JNull
  | Some r => JObj (<["creator" := JStr (Creator r)]> (<["approvers" := JArr (JStr <$> Approvers r)]>
      (<["reviewers" := JArr (JStr <$> Reviewers r)]> (<["negotiators" := JArr (JStr <$> Negotiators r)]>
      {["counterparty" := JStr (Counterparty r)]}))))
  end.

Definition buildContractSnapshot (c : Contract) : json :=
  JObj (<["did" := JStr (c_did c)]> (<["contract_version" := jint (c_contract_version c)]>
    (<["state" := JStr (state_String (c_state c))]> (<["name" := JStr (default EmptyString (c_name c))]>
    (<["description" := JStr (default EmptyString (c_description c))]> (<["created_by" := JStr (c_created_by c)]>
    (<["created_at" := option_time (Some (c_created_at c))]> (<["updated_at" := option_time (Some (c_updated_at c))]>
    (<["start_date" := option_time (c_start_date c)]> (<["exp_date" := option_time (c_exp_date c)]>
    (<["exp_policy" := JStr (default EmptyString (c_exp_policy c))]>
    (<["exp_notice_period" := match c_exp_notice_period c with Some n => jint n | None => JNull end]>
    (<["responsible" := responsible_json (c_responsible c)]>
    {["contract_data" := match c_contract_data c with
                         | None | Some JNull => JObj ∅ | Some doc => doc end]}))))))))))))).

(** Decoding and re-encoding sorts the keys: the encoding of the value. *)
Definition HashArchiveSnapshot (snapshot : json) : string := String.append "sha256:" (hash_hex (Marshal snapshot)).

Definition BuildArchiveEntry (contract : Contract) (storedBy : string) (signing : ArchiveSigningEvidence) (now : Z) :
    result ContractArchiveEntry :=
  if negb (bool_decide (c_state contract = Signed)) then Err (Errorf "contract must be signed before archive storage") else
  let snapshot := buildContractSnapshot contract in
  Ok {| ae_DID := c_did contract; ae_ContractVersion := c_contract_version contract; ae_StoredBy := storedBy; ae_StoredAt := now;
        ae_ContractSnapshot := snapshot; ae_ContentHash := HashArchiveSnapshot snapshot; ae_SnapshotCID := EmptyString;
        ae_SignatureMeta := JObj (<["status" := JStr "SIGNED"]> (<["signer" := JStr (se_Signer signing)]>
          (<["credential_type" := JStr (se_CredentialType signing)]> (<["ceremony_id" := JStr (se_CeremonyID signing)]>
          (<["field" := JStr (se_Field signing)]> (<["signed_at" := JStr (Format_RFC3339Nano (se_SignedAt signing))]>
          (<["pdf_cid" := JStr (se_PDFCID signing)]>
          {["pdf_hash" := JStr (String.append "sha256:" (without_prefix (se_PDFHash signing)))]})))))));
        ae_CredentialHashes := JObj (se_CredentialHashes signing); ae_TSAReceipt := None;
        ae_Evidence := JObj (<["source" := JStr "SIGNING_WORKFLOW_COMPLETION"]> (<["stored_by" := JStr storedBy]>
          (<["stored_state" := JStr "SIGNED"]> {["snapshot_hash_algorithm" := JStr "SHA-256"]}))) |}.

Definition in_archive (e : ContractArchiveEntry) (cid : string) (tsa : option json) : ContractArchiveEntry :=
  {| ae_DID := ae_DID e; ae_ContractVersion := ae_ContractVersion e; ae_StoredBy := ae_StoredBy e; ae_StoredAt := ae_StoredAt e;
     ae_ContractSnapshot := ae_ContractSnapshot e; ae_ContentHash := ae_ContentHash e; ae_SnapshotCID := cid;
     ae_SignatureMeta := ae_SignatureMeta e; ae_CredentialHashes := ae_CredentialHashes e; ae_TSAReceipt := tsa;
     ae_Evidence := ae_Evidence e |}.

Definition notary_payload (e : ContractArchiveEntry) (storedBy : string) : gmap string json :=
  <["eventType" := JStr "ARCHIVE_STORED"]>
    (<["archiveEntryId" := JStr (String.append (ae_DID e) (String.append "#" (pretty (ae_ContractVersion e))))]>
    (<["did" := JStr (ae_DID e)]> (<["contractVersion" := jint (ae_ContractVersion e)]>
    (<["contentHash" := JStr (ae_ContentHash e)]> (<["snapshotCid" := JStr (ae_SnapshotCID e)]>
    (<["storedBy" := JStr storedBy]> {["storedAt" := JStr (Format_RFC3339Nano (ae_StoredAt e))]})))))).

(** archive_tsa.go [BuildArchiveTimestampEvidence]: the payload with the notary's
    event hash. *)
Definition BuildArchiveTimestampEvidence (payload : gmap string json) (receipt : json) : result (gmap string json) :=
  let field k := match receipt with JObj r => default JNull (r !! k) | _ => JNull end in
  if bool_decide (as_string (Some (field "eventHash")) = EmptyString)
  then Err (Errorf "archive notary receipt event hash is required for TSA evidence")
  else Ok (<["notaryEventHash" := field "eventHash"]> (<["notaryPreviousHash" := field "previousHash"]>
            (<["notaryReceivedAt" := field "receivedAt"]> (delete "eventType" payload)))).

(** [INSERT ... ON CONFLICT (did, contract_version) DO NOTHING]. *)
Definition StoreArchiveEntry (e : ContractArchiveEntry) : STx () :=
  exec (λ _, set_archive_entries (λ m, match m !! (ae_DID e, ae_ContractVersion e) with
                                      | Some _ => m | None => <[(ae_DID e, ae_ContractVersion e) := e]> m end)).

(** [artifactstore.Store.Put]: an object of a transaction that fails later stays
    in the store, under an id nothing names. *)
Definition put (did : string) (object : bytes) : STx string :=
  cid ← of_result (Put did object);
  _ ← exec (λ _, set_artifacts (insert cid object));
  mret cid.

Definition archiveSignedContract (did appliedBy : string) (signing : ArchiveSigningEvidence) : STx () :=
  signedContract ← within "could not read signed contract for archive storage" (in_base (ContractRepo.ReadDataByDID did));
  t ← s_now;
  entry ← within "could not build archive entry" (of_result (BuildArchiveEntry signedContract appliedBy signing t));
  snapshotCID ← within "could not store archive snapshot in IPFS" (put did (Marshal (ae_ContractSnapshot entry)));
  _ ← reject_if (bool_decide (snapshotCID = EmptyString)) (Errorf "archive snapshot IPFS storer returned empty CID");
  let payload := notary_payload (in_archive entry snapshotCID None) appliedBy in
  receipt ← match NotarizeArchiveEntry with
            | None => mret None
            | Some notarize => r ← within "could not notarize archive entry" (of_result (notarize (JObj payload))); mret (Some r)
            end;
  tsa ← match TimestampBytes, receipt with
        | Some stamp, Some r =>
            evidence ← within "could not build archive TSA evidence" (of_result (BuildArchiveTimestampEvidence payload r));
            token ← within "could not timestamp archive entry" (of_result (stamp (Marshal (JObj evidence))));
            mret (Some token)
        | _, _ => mret None
        end;
  _ ← within "could not store contract in archive" (StoreArchiveEntry (in_archive entry snapshotCID tsa));
  within "could not create archive store event" (in_base (CreateEvent
    {| o_event_type := "STORE_ARCHIVED_CONTRACT"; o_did := did;
       o_body := [("contract_version", jint (c_contract_version signedContract)); ("stored_by", JStr appliedBy);
                  ("content_hash", JStr (ae_ContentHash entry)); ("snapshot_cid", JStr snapshotCID);
                  ("notary_receipt", default JNull receipt); ("tsa_receipt", default JNull tsa)] |})).

(** ** finalize *)
Definition SetSignedPDF (did cid rendererVersion c2paState payloadHash : string) : Tx () :=
  ContractRepo.update_row did (λ c, with_stamps (c_updated_at c) (c_content_updated_at c)
    {| IPFSCID := cid;
       RendererVersion := if bool_decide (rendererVersion = EmptyString) then RendererVersion (c_pdf c) else rendererVersion;
       C2PAState := c2paState; PayloadHash := payloadHash |} c).

(** [INSERT], under the partial unique index of SIGNED rows. *)
Definition clashes (row : SignatureRow) (g : SignatureRow) : bool :=
  is_signed g && is_signed row && bool_decide (sg_contract_did g = sg_contract_did row)
  && bool_decide (is_Some (sg_field_name row)) && bool_decide (sg_field_name g = sg_field_name row).

Definition CreateSignature (row : SignatureRow) : Tx () :=
  taken ← gets (λ _ s, exists_where (clashes row) (signatures s));
  _ ← refuse taken (PgError "idx_contract_signatures_one_signed_per_field");
  modify (λ _, set_signatures (λ l, l ++ [row])).

Definition credential_hashes (vpToken kbSDHash : string) : gmap string json :=
  let presentation := if bool_decide (vpToken = EmptyString) then ∅
    else {["presentation" := JStr (String.append "sha256:" (hash_hex (of_string vpToken)))]} in
  if bool_decide (kbSDHash = EmptyString) then presentation
  else <["key_binding" := JStr (String.append "sha256:" (without_prefix kbSDHash))]> presentation.

Definition signature_row (cmd : ApplyCmd) (f : finalizeInput) (cid pdfHash : string) : SignatureRow :=
  {| sg_contract_did := DID cmd; sg_signer_did := SignerDID cmd; sg_field_name := Some (cm_FieldName (f_ceremony f));
     sg_status := "SIGNED"; sg_credential_type := CredentialType cmd; sg_ipfs_cid := Some cid;
     sg_ceremony_id := Some (cm_ID (f_ceremony f)); sg_pdf_hash := Some pdfHash;
     sg_content_hash := Some (PinnedContentHash (f_pinned f)); sg_jades_signature := Some (f_jadesSignature f) |}.

Definition finalize (cmd : ApplyCmd) (f : finalizeInput) : STx () :=
  public_url ← query (λ e _, env_public_url e);
  signedPDF ← within "re-anchor provenance over the signature"
                (of_result (Reanchor (f_signedPDF f) (RemoteManifestURL public_url (DID cmd))));
  let pdfHash := hash_hex signedPDF in
  cid ← within "store signed PDF in IPFS" (put (DID cmd) signedPDF);
  readback ← within "signed PDF CID not resolvable after store" (fetch (DID cmd) cid);
  _ ← reject_if (bool_decide (readback = [])) (Errorf "signed PDF CID not resolvable after store");
  _ ← in_base (SetSignedPDF (DID cmd) cid (PinnedRendererVersion (f_pinned f)) "active" (PinnedContentHash (f_pinned f)));
  _ ← within "could not create signature" (in_base (CreateSignature (signature_row cmd f cid pdfHash)));
  _ ← within "could not update contract state" (in_base (SigningRepo.UpdateState (DID cmd) Signed));
  _ ← only_if (PinnedSignedCount (f_pinned f) =? 0) (archiveSignedContract (DID cmd) (AppliedBy cmd)
        {| se_Signer := SignerDID cmd; se_CredentialType := CredentialType cmd; se_CeremonyID := cm_ID (f_ceremony f);
           se_Field := cm_FieldName (f_ceremony f); se_SignedAt := f_signedAt f; se_PDFCID := cid; se_PDFHash := pdfHash;
           se_CredentialHashes := credential_hashes (f_vpToken f) (f_kbSDHash f) |});
  in_base (emit "APPLIED_SIGNATURE" (DID cmd)
    [("contract_version", jint (PinnedContractVersion (f_pinned f))); ("credential_type", JStr (CredentialType cmd));
     ("applied_by", JStr (AppliedBy cmd))]).

(** ** SubmitSignature *)
Definition assertPreparedContent (submitted prepared : bytes) : result () :=
  same ← wrap_err "could not content-match the submitted document" (MatchContent submitted prepared);
  if same : bool then Ok () else Err (Wrapf "content" (Sentinel ErrContentMismatch)).

Definition assertPreparedPayload (submitted prepared : bytes) : result () :=
  a ← wrap_err "could not read the machine-readable contract of the submission" (ExtractPayload submitted);
  b ← wrap_err "could not read the machine-readable contract of the prepared document" (ExtractPayload prepared);
  if bool_decide (a = []) || bool_decide (b = []) then Err (Wrapf "no payload to compare" (Sentinel ErrPayloadMismatch))
  else if bool_decide (Sum256 a = Sum256 b) then Ok () else Err (Wrapf "payload" (Sentinel ErrPayloadMismatch)).

Definition has_prefix (submitted prepared : bytes) : bool := bool_decide (take (length prepared) submitted = prepared).

(** The level the contract requires against the one achieved. *)
Definition level_of (report : Report) (required : string) : result string :=
  let achievedQES := is_ok (AssertValidQES report) in
  if bool_decide (ToUpper (TrimSpace required) = "QES") && negb achievedQES
  then Err (Wrapf "required level" (Sentinel ErrLevelBelowRequired))
  else Ok (if achievedQES then "QES" else "AES").

Definition nameMatchRequired (required : string) : bool :=
  bool_decide (ToUpper (TrimSpace required) = "QES") || AESCertNameMatchRequired.

Definition certificate_of (ceremony : SignatureCeremony) (pinned : PinnedBytes) (signedPDF : bytes) : result Certificate :=
  cert ← match signerCertificateFromIncrementalUpdate ParsePKCS7 signedPDF (PreparedPDF pinned) with
         | Ok c => Ok c | Err _ => Err (Wrapf "certificate" (Sentinel ErrCertPIDMismatch)) end;
  let '(pidGiven, pidFamily) := pidGivenFamilyName (cm_presented ceremony ≫= vp_PidClaims) in
  let '(given, surname) := certGivenSurname cert in
  if nameMatchRequired (Ceremonies.RequiredCredentialType pinned) && negb (namesMatch pidGiven pidFamily given surname)
  then Err (Wrapf "names" (Sentinel ErrCertPIDMismatch)) else Ok cert.

(** The same signatory signs a contract with one certificate. *)
Fixpoint consistent_certificate (signer signedBy : string) (records : list SignatureRow) : STx () :=
  match records with
  | [] => mret ()
  | rec :: rest =>
      match sg_ceremony_id rec with
      | Some id =>
          if negb (bool_decide (sg_signer_did rec = signer)) then consistent_certificate signer signedBy rest else
          prior ← within "could not resolve prior ceremony" (CeremonyRepo.GetCeremonyByID id);
          match prior ≫= cm_SignerCert with
          | Some (subject, _) =>
              _ ← reject_if (negb (bool_decide (normalizeName subject = normalizeName signedBy)))
                    (Wrapf "certificate" (Sentinel ErrCertInconsistent));
              consistent_certificate signer signedBy rest
          | None => consistent_certificate signer signedBy rest
          end
      | None => consistent_certificate signer signedBy rest
      end
  end.

(** The JAdES over the machine-readable payload, and the nonce it binds. *)
Definition check_jades (validate : bytes → string → result Report) (field : string) (nonce : option string)
    (payload : bytes) (signature : string) : result () :=
  let jades := TrimSpace signature in
  if bool_decide (jades = EmptyString) then
    match nonce with Some _ => Err (Wrapf "a wallet-ceremony signature requires a JAdES" (Sentinel ErrNonceMismatch)) | None => Ok () end
  else
    report ← wrap_err "validate submitted JAdES" (validate (of_string jades) (String.append field "-payload.json"));
    _ ← match AssertValidAES report with Ok u => Ok u | Err _ => Err (Wrapf "JAdES" (Sentinel ErrJAdESInvalid)) end;
    signed ← match jwsPayloadBytes jades with Ok p => Ok p | Err _ => Err (Wrapf "decode JAdES payload" (Sentinel ErrJAdESInvalid)) end;
    if negb (bool_decide (payload = [])) && negb (bool_decide (signed = payload))
    then Err (Wrapf "JAdES payload" (Sentinel ErrDocumentMismatch))
    else match nonce with
         | None => Ok ()
         | Some nonce =>
             claim ← match jwsProtectedHeaderClaim Unmarshal jades "nonce" with
                     | Ok c => Ok c | Err _ => Err (Wrapf "nonce" (Sentinel ErrNonceMismatch)) end;
             if bool_decide (claim = EmptyString) || negb (bool_decide (claim = nonce))
             then Err (Wrapf "nonce" (Sentinel ErrNonceMismatch)) else Ok ()
         end.

(** What the reads and the calls found out. *)
Record Accepted := {
  a_ceremony : SignatureCeremony;
  a_pinned : PinnedBytes;
  a_level : string;
  a_subject : string;
  a_serial : string;
  a_SigningTime : string
}.

Definition accept (cmd : SubmitSignatureCmd) : STx Accepted :=
  let apply := sub_Apply cmd in
  localPeer ← within "could not read this instance's own peer identity" (in_base GetID);
  match ValidatePDF with
  | None => raise (Errorf "a signature validator is required to accept an external signature")
  | Some validate =>
      _ ← reject_if (bool_decide (SignedPDF cmd = [])) (Errorf "no signed document was submitted");
      ceremony ← resolveCeremony apply;
      match cm_pinned ceremony with
      | None => raise (Sentinel ErrCeremonyNotPrepared)
      | Some pinned =>
          _ ← reject_if (bool_decide (PreparedPDF pinned = [])) (Sentinel ErrCeremonyNotPrepared);
          _ ← reject_if (bool_decide (is_Some (cm_ConsumedAt ceremony))) (Sentinel ErrCeremonyConsumed);
          let field := cm_FieldName ceremony in
          data ← within "could not read contract" (in_base (SigningRepo.ReadDataByDID (DID apply)));
          _ ← of_result (ValidateTransition (c_state data) EventSign);
          let declared := match c_contract_data data with
                          | None | Some JNull => [] | Some doc => RequiredSignatureFields doc end in
          _ ← in_base (assertCounterpartiesSettled (DID apply) localPeer (c_responsible data) declared);
          existingRecords ← within "could not load existing signatures" (in_base (SigningRepo.LoadSignatures (DID apply)));
          _ ← of_result (assertFieldUnsigned existingRecords field);
          _ ← reject_if (negb (has_prefix (SignedPDF cmd) (PreparedPDF pinned))) (Wrapf "initial revision" (Sentinel ErrDocumentMismatch));
          _ ← of_result (assertPreparedContent (SignedPDF cmd) (PreparedPDF pinned));
          _ ← of_result (assertPreparedPayload (SignedPDF cmd) (PreparedPDF pinned));
          report ← within "validate submitted signature" (of_result (validate (SignedPDF cmd) field));
          _ ← of_result (match AssertValidAES report with Ok u => Ok u | Err _ => Err (Wrapf "signature" (Sentinel ErrSignatureInvalid)) end);
          level ← of_result (level_of report (Ceremonies.RequiredCredentialType pinned));
          cert ← of_result (certificate_of ceremony pinned (SignedPDF cmd));
          _ ← consistent_certificate (SignerDID apply) (SignedBy report) existingRecords;
          _ ← of_result (check_jades validate field (RequestNonce <$> cm_request ceremony) (PinnedPayload pinned) (JAdESSignature cmd));
          mret {| a_ceremony := ceremony; a_pinned := pinned; a_level := level; a_subject := SignedBy report;
                  a_serial := EncodeToString (SerialNumber cert); a_SigningTime := SigningTime report |}
      end
  end.

Definition with_level (level : string) (cmd : ApplyCmd) : ApplyCmd :=
  {| DID := DID cmd; SignerDID := SignerDID cmd; FieldName := FieldName cmd; CeremonyID := CeremonyID cmd;
     CredentialType := level; AppliedBy := AppliedBy cmd; HolderDID := HolderDID cmd |}.

Definition consume (id : string) : STx () := λ e s,
  match CeremonyRepo.MarkCeremonyConsumed id e s with
  | Ok r => Ok r
  | Err _ => Err (Wrapf "ceremony" (Sentinel ErrCeremonyConsumed))
  end.

Definition record (cmd : SubmitSignatureCmd) (a : Accepted) : STx () :=
  let apply := sub_Apply cmd in
  let ceremony := a_ceremony a in
  _ ← of_result (acquireRegenerationLock (DID apply));
  serialised ← within "could not re-load existing signatures" (in_base (SigningRepo.LoadSignatures (DID apply)));
  _ ← of_result (assertFieldUnsigned serialised (cm_FieldName ceremony));
  _ ← consume (cm_ID ceremony);
  _ ← CeremonyRepo.RecordSignerCertificate (cm_ID ceremony) (a_subject a) (a_serial a);
  t ← s_now;
  finalize (with_level (a_level a) apply)
    {| f_ceremony := ceremony; f_signedPDF := SignedPDF cmd; f_jadesSignature := JAdESSignature cmd; f_pinned := a_pinned a;
       f_vpToken := default EmptyString (vp_VpToken <$> cm_presented ceremony);
       f_kbSDHash := default EmptyString (vp_KbSdHash <$> cm_presented ceremony);
       f_signedAt := default t (Parse_RFC3339 (a_SigningTime a)) |}.

(** Without interference. *)
Definition SubmitSignature (cmd : SubmitSignatureCmd) : STx () := a ← accept cmd; record cmd a.
End accept.
