(* ===== verification/SigningDemo.v ===== *)
(** Concrete services and a run of one signature, for the examples: a pdf-core that
    appends a marker for every step it takes, and a validator that passes. *)
From S2P Require Import Prelude Json ContractState Sha256 Store Repos Transactions Document Lifecycle Validation Envelope Signing.
From S2P Require Import Sealing SignatureChecks Ceremonies Preparing Accepting.
Import GoStrings.

Definition demo_certificate : Certificate :=
  {| Names := [(oidGivenName, Some "Alice"); (oidSurname, Some "Archer")]; SerialNumber := [7] |}.

Definition demo_report : Report :=
  {| Indication := "TOTAL-PASSED"; SubIndication := EmptyString; SignedBy := "CN=Alice Archer"; SigningTime := EmptyString;
     Qualification := EmptyString |}.

#[export] Instance demo_signing : SigningServices := {|
  EmbedEvidence := λ pdf _, Ok (pdf ++ of_string "+evidence");
  MatchContent := λ submitted prepared, Ok (has_prefix submitted prepared);
  ExtractPayload := λ _, Ok (of_string "{}");
  Reanchor := λ pdf _, Ok (pdf ++ of_string "+anchor");
  Download := λ _, Ok (of_string "%PDF");
  Update := λ pdf _ _ _, Ok (pdf ++ of_string "+active", "renderer-1");
  IssueContractLifecycleVC := λ _ _ _ _, Ok [];
  CreateCredential := Ok;
  EntryFor := Some (λ _, Ok ("https://a.example/status/1", 7));
  SHACLEvidence := λ _, Ok (1, "report");
  ValidatePDF := Some (λ _ _, Ok demo_report);
  ParsePKCS7 := λ _, Ok (Some demo_certificate);
  Put := λ _ pdf, Ok (String.append "cid:" (hash_hex pdf));
  Get_fault := λ _ _, None;
  NotarizeArchiveEntry := None;
  TimestampBytes := None;
  Marshal := λ _, of_string "{}";
  Unmarshal := λ _, Ok (JObj ∅);
  Canonicalize := λ _, Ok (of_string "{}");
  jsonb_text := λ _, of_string "{ }";
  Format_RFC3339 := λ t, pretty t;
  Format_RFC3339Nano := λ t, pretty t;
  Parse_RFC3339 := λ _, None;
  AESCertNameMatchRequired := false;
  IssuerDID := "did:web:a.example";
  absolute_uri := λ _, true;
  regeneration_lock := λ _, LockTaken
|}.
#[export] Existing Instance lenient_validation.

(** A contract of two parties, both of them on this instance. *)
Definition party_a : string := "did:web:a.example".
Definition party_b : string := "did:web:b.example".

Definition field_node (party : string) : json := JObj {["dcs:signatoryName" := JStr party]}.
Definition demo_document : json := JObj {["dcs:signatureFields" := JArr [field_node party_a; field_node "office"]]}.

Definition signing_store : SStore :=
  {| base := demo_store (demo_contract "did:c1" Approved demo_document); ceremonies := ∅; archive_entries := ∅; artifacts := ∅ |}.

Definition started (party : string) : StartCeremonyCmd :=
  {| st_ContractDID := "did:c1"; st_FieldName := party; st_RequestedBy := "Alice"; st_BaseURL := "https://a.example/";
     st_ClientID := "x509_san_dns:a.example" |}.
Definition presentation (id party : string) : PresentationCmd :=
  {| pr_CeremonyID := id; pr_SignerDID := "did:key:alice"; pr_SDHash := "sd"; pr_VpToken := "vp"; pr_PidClaims := None;
     pr_PoAOrganization := party; pr_PoARoles := None; pr_PoAVpToken := "poa" |}.
Definition applied (id party : string) : ApplyCmd :=
  {| Preparing.DID := "did:c1"; Preparing.SignerDID := "did:key:alice"; FieldName := party; CeremonyID := id; CredentialType := "AES";
     AppliedBy := "Alice"; HolderDID := "did:key:alice" |}.

(** The wallet appends its signature to the prepared bytes. *)
Definition wallet_signature (party : string) : bytes := of_string (String.append "/Contents <00> by " party).

Definition submission (id party : string) (prepared : bytes) : SubmitSignatureCmd :=
  {| sub_Apply := applied id party; SignedPDF := prepared ++ wallet_signature party; JAdESSignature := EmptyString |}.

Definition ceremony_of (party : string) : STx string :=
  c ← StartCeremony (started party); _ ← CompletePresentation (presentation (cm_ID c) party); mret (cm_ID c).

(** Two parties of this instance present; each prepares before either submits. *)
Definition both_prepared : STx (bytes * bytes) :=
  a ← ceremony_of party_a; b ← ceremony_of "office";
  pa ← Prepare (applied a party_a); pb ← Prepare (applied b "office"); mret (pa, pb).

Definition stored_pdf (s : SStore) : option bytes :=
  match contracts (base s) !! "did:c1" with Some c => artifacts s !! IPFSCID (c_pdf c) | None => None end.

Definition value_of {A} (r : result (A * SStore)) : result A := match r with Ok (a, _) => Ok a | Err err => Err err end.

(** ** What the runs show *)

Definition both_signed : STx () :=
  '(pa, pb) ← both_prepared; _ ← SubmitSignature (submission "uuid-0" party_a pa); SubmitSignature (submission "uuid-2" "office" pb).

(** Both fields count as signed, and the stored document carries the second
    signature alone: each was prepared on the unsigned document. *)
Example second_submission_drops_the_first_signature :
  match both_signed demo_env signing_store with
  | Ok (_, s) =>
      (sg_field_name <$> rows_where is_signed (signatures (base s))) = [Some party_a; Some "office"] ∧
      stored_pdf s = Some (of_string "%PDF+active+evidence" ++ wallet_signature "office" ++ of_string "+anchor")
  | Err _ => False
  end.
Proof. vm_compute. split; reflexivity. Qed.

Definition terminated_meanwhile : STx ContractState :=
  '(pa, _) ← both_prepared;
  a ← accept (submission "uuid-0" party_a pa);
  _ ← in_base (ContractRepo.UpdateState "did:c1" Terminated);
  _ ← record (submission "uuid-0" party_a pa) a;
  query (λ _ s, match contracts (base s) !! "did:c1" with Some c => c_state c | None => Terminated end).

(** The recording does not look at the contract's state again. *)
Example termination_during_validation_is_undone :
  value_of (terminated_meanwhile demo_env signing_store) = Ok Signed.
Proof. vm_compute. reflexivity. Qed.

Definition demo_request : PreparedRequest :=
  {| RequestNonce := "n"; RequestExpiresAt := 0; rq_CredentialType := "AES"; PublishedBy := "Alice"; rq_HolderDID := EmptyString;
     rq_Roles := JNull |}.

Definition published_again : STx (option Z * option Z) :=
  '(pa, _) ← both_prepared;
  _ ← SubmitSignature (submission "uuid-0" party_a pa);
  before ← query (λ _ s, ceremonies s !! "uuid-0" ≫= cm_ConsumedAt);
  _ ← CeremonyRepo.StorePreparedRequest "uuid-0" demo_request;
  after ← query (λ _ s, ceremonies s !! "uuid-0" ≫= cm_ConsumedAt);
  mret (before, after).

(** A request stored after the signature was accepted opens the ceremony again. *)
Example publication_rearms_a_consumed_ceremony :
  value_of (published_again demo_env signing_store) = Ok (Some (env_now demo_env), None).
Proof. vm_compute. reflexivity. Qed.

Definition unnamed_submission : STx () := '(pa, _) ← both_prepared; SubmitSignature (submission EmptyString party_a pa).

(** The ceremony of a field is found without its pinned bytes. *)
Example unnamed_submission_is_refused :
  unnamed_submission demo_env signing_store = Err (Sentinel ErrCeremonyNotPrepared).
Proof. vm_compute. reflexivity. Qed.

Definition evidence_of (id : string) : STx (option json) :=
  _ ← ceremony_of party_a;
  _ ← ceremony_of "office";
  p ← prepare party_a (applied id party_a);
  mret (match p_evidence p with JObj m => m !! "poa_presentation" | _ => None end).

(** The Power of Attorney is embedded when the ceremony is looked up by its field,
    and lost when it is named, as every publication names it. *)
Example named_ceremony_embeds_no_power_of_attorney :
  value_of (evidence_of EmptyString demo_env signing_store) = Ok (Some (JStr "poa")) ∧
  value_of (evidence_of "uuid-0" demo_env signing_store) = Ok None.
Proof. vm_compute. split; reflexivity. Qed.

(** The store after both preparations, and the first party's submission on it. *)
Definition prepared_run : result ((bytes * bytes) * SStore) := both_prepared demo_env signing_store.
Definition prepared_store : SStore := match prepared_run with Ok (_, s) => s | Err _ => signing_store end.
Definition first_submission : SubmitSignatureCmd :=
  submission "uuid-0" party_a (match prepared_run with Ok ((pa, _), _) => pa | Err _ => [] end).
