(* ===== verification/SigningLaws.v ===== *)
(** What a signature that was accepted is bound to: the acceptance only reads,
    and what is recorded afterwards is the submission that was checked, once. *)
From S2P Require Import Prelude Json ContractState Sha256 Store Repos Transactions Document Lifecycle Negotiation Validation Envelope Signing.
From S2P Require Import Sealing SignatureChecks Ceremonies Preparing Accepting SigningDemo.
Import GoStrings.

(** ** Transactions of the contract tables inside those of signing *)
Lemma in_base_Ok {A} (m : Tx A) e s a s' :
  in_base m e s = Ok (a, s') → ∃ b, m e (base s) = Ok (a, b) ∧ s' = set_base (λ _, b) s.
Proof. unfold in_base. destruct (m e (base s)) as [[a' b]|]; naive_solver. Qed.

Lemma set_base_id s : set_base (λ _, base s) s = s.
Proof. by destruct s. Qed.

Lemma in_base_reads {A} (m : Tx A) : reads m → observes (in_base m).
Proof. intros Hm e s a s' (b & H & ->)%in_base_Ok. apply Hm in H as ->. apply set_base_id. Qed.

(** A base transaction leaves the tables of signing, and what it keeps of its own. *)
Lemma frames_in_base {A B} (f : SStore → B) (m : Tx A) : (∀ g s, f (set_base g s) = f s) → frames f (in_base m).
Proof. intros Hf e s a s' (b & _ & ->)%in_base_Ok. apply Hf. Qed.

Lemma keeps_in_base {A B} (g : Store → B) (m : Tx A) : keeps g m → frames (λ s, g (base s)) (in_base m).
Proof. intros Hm e s a s' (b & H & ->)%in_base_Ok. exact (Hm _ _ _ _ H). Qed.

Lemma in_base_reads_Ok {A} (m : Tx A) e s a s' :
  reads m → in_base m e s = Ok (a, s') → s' = s ∧ m e (base s) = Ok (a, base s).
Proof. intros Hm (b & H & ->)%in_base_Ok. pose proof (Hm _ _ _ _ H) as ->. split; [apply set_base_id | done]. Qed.

Lemma reads_LoadSignatures did : reads (SigningRepo.LoadSignatures did).
Proof. apply reads_gets. Qed.
Lemma reads_SigningData did : reads (SigningRepo.ReadDataByDID did).
Proof. intros e s a s'. unfold SigningRepo.ReadDataByDID. case_match; naive_solver. Qed.
Lemma reads_settled_by_all did digest remote : reads (settled_by_all did digest remote).
Proof. induction remote; cbn [settled_by_all]; unfold SyncRepo.GetSettlement; reads_tac. Qed.
Lemma reads_assertCounterpartiesSettled did peer resp fields : reads (assertCounterpartiesSettled did peer resp fields).
Proof. unfold assertCounterpartiesSettled, SyncRepo.GetSettlement. reads_tac. apply reads_settled_by_all. Qed.
#[export] Hint Resolve reads_LoadSignatures reads_SigningData reads_assertCounterpartiesSettled : tx.
#[export] Hint Extern 2 (observes (in_base _)) => apply in_base_reads; eauto 3 with tx : txn.

(** ** Accepting *)
Section accept.
Context {V : ContractValidation} {S : SigningServices}.

Lemma observes_GetCeremonyByID id : observes (CeremonyRepo.GetCeremonyByID id).
Proof. apply observes_query. Qed.

Lemma signed_by_id st : CeremonyRepo.signed_by (CeremonyRepo.by_id st) = CeremonyRepo.signed_by st.
Proof. unfold CeremonyRepo.signed_by. cbn. by destruct (cm_presented st). Qed.

(** The ceremony a command names is verified, of the contract and of the signer. *)
Lemma resolveCeremony_Ok cmd e s c s' :
  resolveCeremony cmd e s = Ok (c, s') →
  s' = s ∧
  ((CeremonyID cmd ≠ EmptyString ∧ CeremonyRepo.is_status CeremonyVerified c = true ∧ cm_ContractDID c = DID cmd ∧
    CeremonyRepo.signed_by c = Some (SignerDID cmd) ∧
    ∃ st, ceremonies s !! CeremonyID cmd = Some st ∧ c = CeremonyRepo.by_id st) ∨
   (CeremonyID cmd = EmptyString ∧ cm_pinned c = None)).
Proof.
  unfold resolveCeremony. case_bool_decide as Hid; cbn [negb]; intros H; txn_inv.
  - match goal with H : match ?o with _ => _ end _ _ = _ |- _ => destruct o as [c'|] eqn:E; txn_inv end.
    match goal with H : _ e s = Ok (Some c', ?x) |- _ => assert (x = s ∧ cm_pinned c' = None) as [-> ?] end; [|by auto].
    destruct (negb _); unfold CeremonyRepo.FindVerifiedCeremonyByField, CeremonyRepo.FindVerifiedCeremony,
      CeremonyRepo.find_verified in *; txn_inv; (split; [done|]);
      match goal with H : Some c' = _ |- _ => symmetry in H; apply fmap_Some in H as (? & _ & ->) end; done.
  - unfold CeremonyRepo.GetCeremonyByID in *. txn_inv.
    match goal with H : match ?o with _ => _ end _ _ = _ |- _ => destruct o as [c'|] eqn:E; txn_inv end.
    bool_to_prop. split; [done|]. left. apply fmap_Some in E as (st & Hst & ->). naive_solver.
Qed.

(** ** What the acceptance established *)

(** The payload signature answers the published request: it is valid, over the pinned
    payload, and binds the request's nonce. *)
Definition answers_request (validate : bytes → string → result Report) (field : string) (payload : bytes) (jades nonce : string) : Prop :=
  nonce ≠ EmptyString ∧
  (∃ report, validate (of_string jades) (String.append field "-payload.json") = Ok report ∧ AssertValidAES report = Ok ()) ∧
  (payload = [] ∨ jwsPayloadBytes jades = Ok payload) ∧
  jwsProtectedHeaderClaim Unmarshal jades "nonce" = Ok nonce.

Record accepted (cmd : SubmitSignatureCmd) (s : SStore) (a : Accepted) : Prop := {
  (** by a presentation of the signer for this contract, whose request is open *)
  acc_ceremony : ∃ st, ceremonies s !! CeremonyID (sub_Apply cmd) = Some st ∧ a_ceremony a = CeremonyRepo.by_id st ∧
    cm_Status st = CeremonyVerified ∧ cm_ContractDID st = DID (sub_Apply cmd) ∧
    CeremonyRepo.signed_by st = Some (SignerDID (sub_Apply cmd)) ∧ cm_pinned st = Some (a_pinned a) ∧ cm_ConsumedAt st = None;
  acc_state : ∃ row, contracts (base s) !! DID (sub_Apply cmd) = Some row ∧ c_state row ∈ [Approved; Signed];
  acc_unsigned : ∀ g, g ∈ signatures (base s) → sg_contract_did g = DID (sub_Apply cmd) →
    sg_status g = "SIGNED" → sg_field_name g ≠ Some (cm_FieldName (a_ceremony a));
  (** the document is the prepared one, and a signature after it *)
  acc_document : ∃ increment, SignedPDF cmd = PreparedPDF (a_pinned a) ++ increment;
  acc_prepared : PreparedPDF (a_pinned a) ≠ [];
  acc_content : MatchContent (SignedPDF cmd) (PreparedPDF (a_pinned a)) = Ok true;
  acc_payload : ∃ x y, ExtractPayload (SignedPDF cmd) = Ok x ∧ ExtractPayload (PreparedPDF (a_pinned a)) = Ok y ∧
    x ≠ [] ∧ Sum256 x = Sum256 y;
  (** the signature is valid and of the level the field asks for *)
  acc_valid : ∃ validate report, ValidatePDF = Some validate ∧
    validate (SignedPDF cmd) (cm_FieldName (a_ceremony a)) = Ok report ∧
    AssertValidAES report = Ok () ∧ (a_level a = "QES" → AssertValidQES report = Ok ()) ∧
    a_subject a = SignedBy report ∧ a_SigningTime a = SigningTime report ∧
    (∀ request, cm_request (a_ceremony a) = Some request →
       answers_request validate (cm_FieldName (a_ceremony a)) (PinnedPayload (a_pinned a)) (TrimSpace (JAdESSignature cmd))
         (RequestNonce request));
  acc_level : credentialTypeAtLeast (a_level a) (Ceremonies.RequiredCredentialType (a_pinned a)) = true;
  (** it was made with a certificate of the presented person, where the level asks for it *)
  acc_person : nameMatchRequired (Ceremonies.RequiredCredentialType (a_pinned a)) = true →
    ∃ cert given family certGiven certSurname,
      signerCertificateFromIncrementalUpdate ParsePKCS7 (SignedPDF cmd) (PreparedPDF (a_pinned a)) = Ok cert ∧
      pidGivenFamilyName (cm_presented (a_ceremony a) ≫= vp_PidClaims) = (given, family) ∧
      certGivenSurname cert = (certGiven, certSurname) ∧ namesMatch given family certGiven certSurname = true
}.

Lemma level_of_Ok report required level :
  level_of report required = Ok level →
  credentialTypeAtLeast level required = true ∧ (level = "QES" → AssertValidQES report = Ok ()).
Proof.
  unfold level_of, credentialTypeAtLeast. set (rank := credentialTypeRank required).
  assert (Hr : rank = if bool_decide (ToUpper (TrimSpace required) = "QES") then 2
               else if bool_decide (ToUpper (TrimSpace required) = "AES") then 1 else 0) by done.
  destruct (AssertValidQES report) as [[]|]; cbn [is_ok negb]; rewrite ?andb_false_r, ?andb_true_r.
  - intros [= <-]. split; [|done]. change (credentialTypeRank "QES") with 2. apply Z.leb_le. repeat case_match; lia.
  - case_bool_decide; [done|]. intros [= <-]. split; [|done]. change (credentialTypeRank "AES") with 1.
    apply Z.leb_le. repeat case_match; lia.
Qed.

Lemma assertPreparedContent_Ok submitted prepared :
  assertPreparedContent submitted prepared = Ok () → MatchContent submitted prepared = Ok true.
Proof. unfold assertPreparedContent. destruct (MatchContent _ _) as [[]|]; by cbn. Qed.

Lemma assertPreparedPayload_Ok submitted prepared :
  assertPreparedPayload submitted prepared = Ok () →
  ∃ x y, ExtractPayload submitted = Ok x ∧ ExtractPayload prepared = Ok y ∧ x ≠ [] ∧ Sum256 x = Sum256 y.
Proof.
  unfold assertPreparedPayload. destruct (ExtractPayload submitted) as [x|]; cbn; [|done].
  destruct (ExtractPayload prepared) as [y|]; cbn; [|done].
  destruct (_ || _) eqn:E; [done|]. bool_to_prop. case_bool_decide; [|done]. eauto 10.
Qed.

Lemma has_prefix_true submitted prepared :
  has_prefix submitted prepared = true → ∃ increment, submitted = prepared ++ increment.
Proof.
  unfold has_prefix. intros E. bool_to_prop. exists (drop (length prepared) submitted).
  rewrite <-E at 1. by rewrite take_drop.
Qed.

Lemma certificate_of_Ok ceremony pinned pdf cert :
  certificate_of ceremony pinned pdf = Ok cert →
  nameMatchRequired (Ceremonies.RequiredCredentialType pinned) = true →
  ∃ given family certGiven certSurname,
    signerCertificateFromIncrementalUpdate ParsePKCS7 pdf (PreparedPDF pinned) = Ok cert ∧
    pidGivenFamilyName (cm_presented ceremony ≫= vp_PidClaims) = (given, family) ∧
    certGivenSurname cert = (certGiven, certSurname) ∧ namesMatch given family certGiven certSurname = true.
Proof.
  unfold certificate_of. intros H E. destruct (signerCertificateFromIncrementalUpdate _ _ _) as [c|]; cbn in H; [|done].
  destruct (pidGivenFamilyName _) as [given family]. destruct (certGivenSurname c) as [certGiven certSurname] eqn:Ec.
  rewrite E in H. destruct (namesMatch _ _ _ _) eqn:En; cbn in H; [|done]. injection H as <-. eauto 10.
Qed.

Lemma check_jades_Ok validate field nonce payload jades :
  check_jades validate field (Some nonce) payload jades = Ok () →
  answers_request validate field payload (TrimSpace jades) nonce.
Proof.
  unfold check_jades, answers_request. cbv zeta. set (j := TrimSpace jades).
  case_bool_decide; [done|]. destruct (validate _ _) as [report|]; cbn; [|done].
  destruct (AssertValidAES report) as [[]|] eqn:Ea; cbn; [|done].
  destruct (jwsPayloadBytes j) as [signed|]; cbn; [|done]. destruct (_ && _) eqn:Ep; [done|].
  destruct (jwsProtectedHeaderClaim _ _ _) as [claim|]; cbn; [|done]. destruct (_ || _) eqn:En; [done|]. intros _.
  bool_to_prop. subst claim. split_and!; [done|eauto| |done].
  apply andb_false_iff in Ep as [Ep|Ep]; bool_to_prop; subst; auto.
Qed.

Lemma assertFieldUnsigned_Ok records field :
  assertFieldUnsigned records field = Ok () ↔
  ∀ g, g ∈ records → sg_status g = "SIGNED" → sg_field_name g ≠ Some field.
Proof.
  unfold assertFieldUnsigned. destruct (existsb _ _) eqn:E.
  - apply existsb_true_iff in E as (g & Hg & E). bool_to_prop. split; [done|]. intros HU. by destruct (HU g Hg).
  - split; [|done]. intros _ g Hg Hs Hf. rewrite existsb_false_iff in E. specialize (E g Hg). cbn in E.
    by rewrite !bool_decide_eq_true_2 in E.
Qed.

Lemma sign_from st : ValidateTransition st EventSign = Ok () → st ∈ [Approved; Signed].
Proof. destruct st; vm_compute; try done; intros _; set_solver. Qed.

Lemma observes_consistent signer signedBy records : observes (consistent_certificate signer signedBy records).
Proof.
  induction records as [|rec rest IH]; cbn [consistent_certificate]; [apply evolves_ret; apply _|].
  unfold CeremonyRepo.GetCeremonyByID. evolves_tac.
Qed.

Lemma accept_Ok cmd e s a s' : accept cmd e s = Ok (a, s') → s' = s ∧ accepted cmd s a.
Proof.
  unfold accept. intros H. cbv zeta in H. txn_inv.
  repeat match goal with H : in_base _ _ _ = Ok _ |- _ => apply in_base_reads_Ok in H as [-> H]; [|by auto with tx] end.
  destruct ValidatePDF as [validate|] eqn:Ev; txn_inv.
  match goal with H : resolveCeremony _ _ _ = _ |- _ => apply resolveCeremony_Ok in H as [-> HC] end.
  match goal with H : match ?o with _ => _ end _ _ = _ |- _ => destruct o as [pinned|] eqn:Ep; txn_inv end.
  bool_to_prop. destruct HC as [(Hid & Hv & Hd & Hs & st & Hst & ->)|[_ HC]]; [|done].
  repeat match goal with H : in_base _ _ _ = Ok _ |- _ => apply in_base_reads_Ok in H as [-> H]; [|by auto with tx] end.
  match goal with H : consistent_certificate _ _ _ _ _ = _ |- _ => apply observes_consistent in H; cbn in H; subst end.
  match goal with H : SigningRepo.ReadDataByDID _ _ _ = Ok (?row, _) |- _ => rename row into c; rename H into Hrow end.
  match goal with H : level_of _ _ = _ |- _ => apply level_of_Ok in H as [Hlevel Hqes] end.
  match goal with H : match AssertValidAES ?r with _ => _ end = _ |- _ => destruct (AssertValidAES r) as [[]|] eqn:Eaes; [|done] end.
  split; [done|]. constructor; cbn.
  - exists st. unfold CeremonyRepo.is_status in Hv. bool_to_prop. rewrite signed_by_id in Hs. split_and!; try done.
    cbn in *. destruct (cm_ConsumedAt st) eqn:Ec; [|done]. match goal with H : ¬ is_Some _ |- _ => destruct H; eauto end.
  - exists c. split; [|by apply sign_from]. unfold SigningRepo.ReadDataByDID in Hrow. destruct (contracts (base s) !! _); congruence.
  - intros g Hg Hdid. match goal with H : assertFieldUnsigned ?l _ = _, HL : SigningRepo.LoadSignatures _ _ _ = _ |- _ =>
      rewrite assertFieldUnsigned_Ok in H; apply H; apply gets_Ok in HL as [-> _] end.
    apply elem_of_rows_where. by rewrite bool_decide_eq_true_2.
  - by apply has_prefix_true.
  - done.
  - by apply assertPreparedContent_Ok.
  - by apply assertPreparedPayload_Ok.
  - exists validate. eexists. split_and!; try done. intros request Hr.
    match goal with H : check_jades _ _ _ _ _ = _ |- _ => cbn in H; rewrite Hr in H; by apply check_jades_Ok in H end.
  - done.
  - intros E. match goal with H : certificate_of _ _ _ = Ok ?cert |- _ => exists cert; by apply (certificate_of_Ok _ _ _ _ H) end.
Qed.

(** ** Recording *)

(** The tables an archive entry and an event leave alone. *)
Definition core (s : SStore) : gmap string Contract * list SignatureRow * gmap string SignatureCeremony :=
  (contracts (base s), signatures (base s), ceremonies s).

Lemma frames_in_base_keeps {A} (m : Tx A) : keeps contracts m → keeps signatures m → frames core (in_base m).
Proof. intros Hc Hg e s a s' (b & H & ->)%in_base_Ok. unfold core. cbn. by rewrite (Hc _ _ _ _ H), (Hg _ _ _ _ H). Qed.

Lemma frames_put did object : frames core (put did object).
Proof. unfold put. evolves_tac. by apply evolves_exec. Qed.

Lemma put_Ok did object e s cid s' : put did object e s = Ok (cid, s') → Put did object = Ok cid ∧ core s' = core s.
Proof. intros H. split; [|exact (frames_put _ _ _ _ _ _ H)]. unfold put in H. by txn_inv. Qed.

Lemma frames_fetch did cid : observes (fetch did cid).
Proof. unfold fetch. evolves_tac. Qed.

Lemma frames_archive did by_ evidence : frames core (archiveSignedContract did by_ evidence).
Proof.
  unfold archiveSignedContract, StoreArchiveEntry. cbv zeta. evolves_tac.
  - apply frames_put.
  - by apply evolves_exec.
  - apply frames_in_base_keeps; keeps_tac.
Qed.

(** The entry a first signature leaves: the contract was signed, on the archive's
    reading of its dates too. *)
Lemma archive_Ok did by_ evidence e s u s' :
  archiveSignedContract did by_ evidence e s = Ok (u, s') →
  ∃ c, contracts (base s) !! did = Some c ∧ effective_state (env_now e) c = Signed ∧
    is_Some (archive_entries s' !! (c_did c, c_contract_version c)).
Proof.
  unfold archiveSignedContract. intros H. cbv zeta in H. txn_inv.
  match goal with H : in_base (ContractRepo.ReadDataByDID _) _ _ = _ |- _ => apply in_base_reads_Ok in H as [-> Hrow]; [|by auto with tx] end.
  apply ReadDataByDID_Ok in Hrow as (_ & c & Hc & ->).
  match goal with H : BuildArchiveEntry _ _ _ _ = _ |- _ => 
    unfold BuildArchiveEntry in H; destruct (bool_decide_reflect (c_state (effective (env_now e) c) = Signed)) as [Hst|]; [|done];
    injection H as <- end.
  exists c. split; [done|]. split; [exact Hst|].
  match goal with H : in_base (CreateEvent _) _ _ = _ |- _ => apply in_base_Ok in H as (b & _ & ->) end.
  match goal with H : StoreArchiveEntry _ _ _ = _ |- _ => apply exec_Ok in H as -> end. cbn.
  match goal with |- is_Some (match ?m !! ?k with _ => _ end !! _) => destruct (m !! k) eqn:E; cbn in E end.
  - rewrite E. eauto.
  - rewrite lookup_insert_eq. eauto.
Qed.

(** ** The row *)
Lemma SetSignedPDF_Ok did cid renderer c2pa hash e s u s' : SetSignedPDF did cid renderer c2pa hash e s = Ok (u, s') →
  signatures s' = signatures s ∧ elsewhere did s' = elsewhere did s ∧
  ∀ c, contracts s !! did = Some c → ∃ c', contracts s' !! did = Some c' ∧ IPFSCID (c_pdf c') = cid ∧
    PayloadHash (c_pdf c') = hash ∧ c_contract_data c' = c_contract_data c.
Proof.
  intros H. split; [|split].
  - exact (keeps_update_row signatures _ _ (λ _ _, eq_refl) _ _ _ _ H).
  - exact (keeps_elsewhere_update_row _ _ _ _ _ _ H).
  - intros c Hc. apply update_row_Ok in H as ->. cbn. rewrite lookup_alter_eq, Hc. cbn. eexists. split; [done|].
    destruct (before_update_data (env_now e) c (with_stamps (c_updated_at c) (c_content_updated_at c)
      {| IPFSCID := cid; RendererVersion := if bool_decide (renderer = EmptyString) then RendererVersion (c_pdf c) else renderer;
         C2PAState := c2pa; PayloadHash := hash |} c)) as (-> & _ & _ & _ & -> & _). done.
Qed.

Lemma SetSigned_Ok did e s u s' : SigningRepo.UpdateState did Signed e s = Ok (u, s') →
  signatures s' = signatures s ∧ elsewhere did s' = elsewhere did s ∧
  ∀ c, contracts s !! did = Some c → ∃ c', contracts s' !! did = Some c' ∧ c_state c' = Signed ∧
    c_pdf c' = c_pdf c ∧ c_contract_data c' = c_contract_data c.
Proof.
  intros H. split; [|split].
  - exact (keeps_update_row signatures _ _ (λ _ _, eq_refl) _ _ _ _ H).
  - exact (keeps_elsewhere_update_row _ _ _ _ _ _ H).
  - intros c Hc. apply update_row_Ok in H as ->. cbn. rewrite lookup_alter_eq, Hc. cbn. eexists. split; [done|].
    rewrite before_update_state. destruct (before_update_data (env_now e) c (with_state Signed c)) as (-> & _ & _ & _ & -> & _). done.
Qed.

Lemma CreateSignature_Ok row e s u s' : CreateSignature row e s = Ok (u, s') →
  exists_where (clashes row) (signatures s) = false ∧ s' = set_signatures (λ l, l ++ [row]) s.
Proof. unfold CreateSignature. intros H. tx_inv. done. Qed.

(** What [finalize] leaves. *)
Lemma finalize_Ok cmd f e s u s' :
  finalize cmd f e s = Ok (u, s') →
  ∃ pdf cid, Reanchor (f_signedPDF f) (RemoteManifestURL (env_public_url e) (DID cmd)) = Ok pdf ∧ Put (DID cmd) pdf = Ok cid ∧
    signatures (base s') = signatures (base s) ++ [signature_row cmd f cid (hash_hex pdf)] ∧
    exists_where (clashes (signature_row cmd f cid (hash_hex pdf))) (signatures (base s)) = false ∧
    elsewhere (DID cmd) (base s') = elsewhere (DID cmd) (base s) ∧ ceremonies s' = ceremonies s ∧
    (∀ c, contracts (base s) !! DID cmd = Some c →
      ∃ c', contracts (base s') !! DID cmd = Some c' ∧ c_state c' = Signed ∧ IPFSCID (c_pdf c') = cid ∧
        PayloadHash (c_pdf c') = PinnedContentHash (f_pinned f) ∧ c_contract_data c' = c_contract_data c) ∧
    (PinnedSignedCount (f_pinned f) = 0 →
      ∃ c, contracts (base s') !! DID cmd = Some c ∧ effective_state (env_now e) c = Signed ∧
        is_Some (archive_entries s' !! (c_did c, c_contract_version c))).
Proof.
  unfold finalize. intros H. cbv zeta in H. txn_inv.
  match goal with H : put _ _ _ _ = _ |- _ => apply put_Ok in H as [Hcid Hput] end.
  match goal with H : fetch _ _ _ _ = _ |- _ => apply frames_fetch in H; cbn in H; subst end.
  match goal with H : in_base (SetSignedPDF _ _ _ _ _) _ _ = _ |- _ => apply in_base_Ok in H as (b1 & (Hs1 & He1 & Hc1)%SetSignedPDF_Ok & ->) end.
  match goal with H : in_base (CreateSignature _) _ _ = _ |- _ => apply in_base_Ok in H as (b2 & [Hclash ->]%CreateSignature_Ok & ->) end.
  match goal with H : in_base (SigningRepo.UpdateState _ _) _ _ = _ |- _ => apply in_base_Ok in H as (b3 & (Hs3 & He3 & Hc3)%SetSigned_Ok & ->) end.
  match goal with H : in_base (emit _ _ _) _ _ = _ |- _ => apply in_base_Ok in H as (b4 & ->%emit_Ok & ->) end.
  match goal with H : only_if _ _ _ _ = Ok (_, ?s') |- _ => apply only_if_Ok in H; rename H into Harch; rename s' into s5 end.
  assert (Hcore : core s5 = (contracts b3, signatures b3, ceremonies s)).
  { unfold core in Hput. injection Hput as Hp1 Hp2 Hp3.
    destruct Harch as [[_ Harch%frames_archive]|[_ ->]]; [cbn in Harch; rewrite Harch|]; unfold core; cbn; by rewrite Hp3. }
  unfold core in Hput, Hcore. cbn in *. injection Hput as Hp1 Hp2 Hp3. injection Hcore as Hq1 Hq2 Hq3.
  unfold elsewhere in *. cbn in *. do 2 eexists. split; [eassumption|]. split; [exact Hcid|].
  rewrite Hq1, Hq2, Hq3, Hs3. cbn. rewrite Hs1, <-Hp2. split; [done|]. split; [by rewrite <-Hs1|].
  split; [congruence|]. split; [done|]. rewrite <-Hp1. split.
  - intros c Hc. apply Hc1 in Hc as (c1 & Hc & E1 & E2 & E3). apply Hc3 in Hc as (c2 & Hc & F1 & F2 & F3).
    exists c2. rewrite F2, F3. done.
  - intros E. destruct Harch as [[_ Harch]|[E' _]]; [|by rewrite E in E'].
    apply archive_Ok in Harch as (c & Hc & He & Ha). cbn in Hc. eauto.
Qed.


Lemma update_if_Ok id p f e s b s' : CeremonyRepo.update_if id p f e s = Ok (b, s') →
  (b = true ∧ ∃ c, ceremonies s !! id = Some c ∧ p c = true ∧ s' = set_ceremonies (insert id (f c)) s) ∨
  (b = false ∧ s' = s ∧ ∀ c, ceremonies s !! id = Some c → p c = false).
Proof.
  unfold CeremonyRepo.update_if. destruct (ceremonies s !! id) as [c|] eqn:E; [destruct (p c) eqn:Ep|];
    intros [= <- <-]; naive_solver.
Qed.

Lemma always_updated id f e s u s' c :
  ceremonies s !! id = Some c → (_ ← CeremonyRepo.update_if id (λ _, true) f; mret ()) e s = Ok (u, s') →
  s' = set_ceremonies (insert id (f c)) s.
Proof.
  intros Hc H. txn_inv. match goal with H : CeremonyRepo.update_if _ _ _ _ _ = _ |- _ => apply update_if_Ok in H end. naive_solver.
Qed.

Lemma consume_Ok id e s u s' : consume id e s = Ok (u, s') →
  ∃ c, ceremonies s !! id = Some c ∧ cm_ConsumedAt c = None ∧
    s' = set_ceremonies (insert id (CeremonyRepo.with_consumed (Some (env_now e)) c)) s.
Proof.
  unfold consume. destruct (CeremonyRepo.MarkCeremonyConsumed id e s) as [[u' s1]|] eqn:E; [|done]. intros [= <- <-].
  unfold CeremonyRepo.MarkCeremonyConsumed, s_now in E. txn_inv.
  match goal with H : CeremonyRepo.update_if _ _ _ _ _ = _ |- _ => apply update_if_Ok in H as [(-> & c & Hc & Hp & ->)|(-> & _)] end; [|done].
  exists c. bool_to_prop. done.
Qed.

Record recorded (cmd : SubmitSignatureCmd) (a : Accepted) (e : Env) (s s' : SStore) : Prop := {
  (** the field was still free *)
  rec_free : ∀ g, g ∈ signatures (base s) → sg_contract_did g = DID (sub_Apply cmd) →
    sg_status g = "SIGNED" → sg_field_name g ≠ Some (cm_FieldName (a_ceremony a));
  (** one signature, over the submission with its provenance re-anchored, which the
      contract now names *)
  rec_row : ∃ pdf cid,
    Reanchor (SignedPDF cmd) (RemoteManifestURL (env_public_url e) (DID (sub_Apply cmd))) = Ok pdf ∧
    Put (DID (sub_Apply cmd)) pdf = Ok cid ∧
    signatures (base s') = signatures (base s) ++
      [{| sg_contract_did := DID (sub_Apply cmd); sg_signer_did := SignerDID (sub_Apply cmd);
          sg_field_name := Some (cm_FieldName (a_ceremony a)); sg_status := "SIGNED"; sg_credential_type := a_level a;
          sg_ipfs_cid := Some cid; sg_ceremony_id := Some (cm_ID (a_ceremony a)); sg_pdf_hash := Some (hash_hex pdf);
          sg_content_hash := Some (PinnedContentHash (a_pinned a)); sg_jades_signature := Some (JAdESSignature cmd) |}] ∧
    ∀ c, contracts (base s) !! DID (sub_Apply cmd) = Some c →
      ∃ c', contracts (base s') !! DID (sub_Apply cmd) = Some c' ∧ c_state c' = Signed ∧
        IPFSCID (c_pdf c') = cid ∧ PayloadHash (c_pdf c') = PinnedContentHash (a_pinned a) ∧
        c_contract_data c' = c_contract_data c;
  rec_others : elsewhere (DID (sub_Apply cmd)) (base s') = elsewhere (DID (sub_Apply cmd)) (base s);
  (** the ceremony was open, and is not any more *)
  rec_ceremony : ∃ c, ceremonies s !! cm_ID (a_ceremony a) = Some c ∧ cm_ConsumedAt c = None ∧
    ceremonies s' = <[cm_ID (a_ceremony a) := CeremonyRepo.with_cert (Some (a_subject a, a_serial a))
                       (CeremonyRepo.with_consumed (Some (env_now e)) c)]> (ceremonies s);
  (** the first signature archives the contract *)
  rec_archived : PinnedSignedCount (a_pinned a) = 0 →
    ∃ c, contracts (base s') !! DID (sub_Apply cmd) = Some c ∧ effective_state (env_now e) c = Signed ∧
      is_Some (archive_entries s' !! (c_did c, c_contract_version c))
}.

Lemma record_Ok cmd a e s u s' : record cmd a e s = Ok (u, s') → recorded cmd a e s s'.
Proof.
  unfold record. intros H. cbv zeta in H. txn_inv.
  match goal with H : in_base (SigningRepo.LoadSignatures _) _ _ = _ |- _ => apply in_base_reads_Ok in H as [-> H]; [|by auto with tx];
    apply gets_Ok in H as [-> _] end.
  match goal with H : consume _ _ _ = _ |- _ => apply consume_Ok in H as (c & Hc & Hopen & ->) end.
  match goal with H : CeremonyRepo.RecordSignerCertificate _ _ _ _ _ = _ |- _ =>
    eapply always_updated in H; [|cbn; apply lookup_insert_eq]; subst end.
  unfold s_now in *. txn_inv. rewrite assertFieldUnsigned_Ok in *.
  match goal with H : finalize _ _ _ _ = _ |- _ =>
    apply finalize_Ok in H as (pdf & cid & HR & HP & Hsig & _ & Helse & Hcer & Hrow & Harch) end.
  cbn in *. constructor; cbn.
  - intros g Hg Hdid. match goal with H : ∀ g, g ∈ rows_where _ _ → _ |- _ => apply H end.
    apply elem_of_rows_where. by rewrite bool_decide_eq_true_2.
  - exists pdf, cid. split_and!; done.
  - done.
  - exists c. by rewrite Hcer, insert_insert_eq.
  - done.
Qed.
End accept.

(** C5: A signature that becomes part of a contract is bound to what was checked.  If a
    submission is accepted on one state of the tables and recorded on a later one,
    then the acceptance wrote nothing; it was for an open ceremony, verified by the
    same signer for the same contract, on a contract that was approved or signed;
    the submitted document is the prepared one followed by an increment, shows the same
    content and carries the same machine-readable contract; the signature was valid
    and of the level the field asks for; the payload signature answers the published
    request, if there is one; and, where the level asks for it, the signing
    certificate names the presented person.  The recording, on its own state, found
    the field free and the ceremony open; it added exactly one signature, over
    exactly that submission, to no other contract, consumed the ceremony, moved the
    contract to SIGNED and, for a first signature, left an archive entry. *)
Theorem accepted_signature_is_bound `{V : ContractValidation} `{S : SigningServices} (cmd : SubmitSignatureCmd) (a : Accepted)
    (e1 e2 : Env) (s1 s1' s2 s2' : SStore) :
  accept cmd e1 s1 = Ok (a, s1') → record cmd a e2 s2 = Ok ((), s2') →
  s1' = s1 ∧ accepted cmd s1 a ∧ recorded cmd a e2 s2 s2'.
Proof. intros [-> Ha]%accept_Ok Hr%record_Ok. done. Qed.

Lemma accepted_signature_witness :
  ∃ a s', accept first_submission demo_env prepared_store = Ok (a, prepared_store) ∧
    record first_submission a demo_env prepared_store = Ok ((), s') ∧
    recorded first_submission a demo_env prepared_store s'.
Proof.
  assert (is_ok (SubmitSignature first_submission demo_env prepared_store) = true) as Hok by (vm_compute; reflexivity). revert Hok.
  destruct (SubmitSignature first_submission demo_env prepared_store) as [[[] s']|] eqn:E; intros Hok; [|discriminate Hok].
  apply txn_bind_Ok in E as (a & s1 & Ha & Hr). assert (s1 = prepared_store) as -> by (by apply accept_Ok in Ha as [-> _]).
  exists a, s'. split; [exact Ha|]. split; [exact Hr|].
  exact (proj2 (proj2 (accepted_signature_is_bound first_submission a demo_env demo_env _ _ _ _ Ha Hr))).
Defined.
