(* ===== verification/SigningInvariant.v ===== *)
(** Signing as a machine: ceremonies, preparations, submissions whose acceptance and
    recording are separated by anything else, and revocations. *)
From S2P Require Import Prelude Json ContractState Store Repos Transactions Lifecycle Validation Signing.
From S2P Require Import Sealing SignatureChecks Ceremonies Preparing Accepting SigningDemo SigningLaws.
Import GoStrings.

(** ** Ceremonies over time *)

(** A ceremony is stored under its own identifier, and is verified by a presentation
    whose Power of Attorney names the party that signs. *)
Definition well_formed (id : string) (c : SignatureCeremony) : Prop :=
  cm_ID c = id ∧
  match cm_presented c with
  | Some v => cm_Status c = CeremonyVerified ∧ vp_PoAOrganization v = cm_FieldName c
  | None => cm_Status c ≠ CeremonyVerified
  end.

(** [c'] is a later state of [c]: a presentation is made once. *)
Definition continues (c c' : SignatureCeremony) : Prop :=
  cm_ID c' = cm_ID c ∧ cm_ContractDID c' = cm_ContractDID c ∧ cm_FieldName c' = cm_FieldName c ∧
  (cm_presented c = None ∨ cm_presented c' = cm_presented c).

#[export] Instance continues_preorder : PreOrder continues.
Proof. split; [by intros c; split_and!; auto|]. intros a b c (?&?&?&?) (?&?&?&?). split_and!; naive_solver congruence. Qed.

Definition sound (s : SStore) : Prop := map_Forall well_formed (ceremonies s).

Definition carries (s s' : SStore) : Prop :=
  ∀ id c, ceremonies s !! id = Some c → ∃ c', ceremonies s' !! id = Some c' ∧ continues c c'.

#[export] Instance carries_preorder : PreOrder carries.
Proof.
  split; [intros s id c H; by exists c|]. intros s1 s2 s3 H1 H2 id c H.
  apply H1 in H as (c' & H & Hc). apply H2 in H as (c2 & H & Hc2). exists c2. split; [done|]. by etrans.
Qed.

(** What every transaction but the recording of a signature and a revocation does. *)
Definition advances (s s' : SStore) : Prop :=
  signatures (base s') = signatures (base s) ∧ (sound s → carries s s' ∧ sound s').

#[export] Instance advances_preorder : PreOrder advances.
Proof.
  split; [by intros s; split|]. intros s1 s2 s3 [E1 H1] [E2 H2]. split; [congruence|].
  intros H. destruct (H1 H) as [C1 S2]. destruct (H2 S2) as [C2 S3]. split; [by etrans|done].
Qed.

Lemma advances_same s s' : signatures (base s') = signatures (base s) → ceremonies s' = ceremonies s → advances s s'.
Proof.
  intros E H. split; [done|]. unfold sound, carries. rewrite H. intros Hs. split; [|done].
  intros id c Hc. exists c. split; [done|reflexivity].
Qed.

Lemma advances_insert s id f c :
  ceremonies s !! id = Some c → (well_formed id c → well_formed id (f c) ∧ continues c (f c)) →
  advances s (set_ceremonies (insert id (f c)) s).
Proof.
  intros Hc Hf. split; [done|]. intros Hs. destruct (Hf (Hs _ _ Hc)) as [Hw Hk]. unfold sound, carries. cbn. split.
  - intros i c0 Hi. destruct (decide (i = id)) as [->|Hne].
    + rewrite lookup_insert_eq. assert (c0 = c) as -> by congruence. eauto.
    + rewrite lookup_insert_ne by done. exists c0. split; [done|]. reflexivity.
  - by apply map_Forall_insert_2.
Qed.

Lemma evolves_in_base {A} (m : Tx A) : keeps signatures m → evolves advances (in_base m).
Proof. intros Hm e s a s' (b & H & ->)%in_base_Ok. apply advances_same; [exact (Hm _ _ _ _ H)|done]. Qed.

Lemma evolves_update_if id p f :
  (∀ c, p c = true → well_formed id c → well_formed id (f c) ∧ continues c (f c)) →
  evolves advances (CeremonyRepo.update_if id p f).
Proof.
  intros Hf e s b s' [(_ & c & Hc & Hp & ->)|(_ & -> & _)]%update_if_Ok; [|reflexivity]. by apply advances_insert; auto.
Qed.

(** A write of the columns after the presentation. *)
Ltac later_columns := intros c _ [Hw Hv]; split; [by split|]; split_and!; auto.

Lemma evolves_RecordSummaryVC id summary : evolves advances (CeremonyRepo.RecordSummaryVC id summary).
Proof. unfold CeremonyRepo.RecordSummaryVC. evolves_tac. apply evolves_update_if. later_columns. Qed.
Lemma evolves_PinPreparedBytes id pinned : evolves advances (CeremonyRepo.PinPreparedBytes id pinned).
Proof. unfold CeremonyRepo.PinPreparedBytes. evolves_tac. apply evolves_update_if. later_columns. Qed.
Lemma evolves_StorePreparedRequest id req : evolves advances (CeremonyRepo.StorePreparedRequest id req).
Proof. unfold CeremonyRepo.StorePreparedRequest. evolves_tac. apply evolves_update_if. later_columns. Qed.
#[export] Hint Resolve evolves_RecordSummaryVC evolves_PinPreparedBytes evolves_StorePreparedRequest : txn.

Lemma CreateCeremony_advances c : well_formed (cm_ID c) c → evolves advances (CeremonyRepo.CreateCeremony c).
Proof.
  intros Hw e s u s' H. unfold CeremonyRepo.CreateCeremony in H. txn_inv. bool_to_prop. cbn in *.
  split; [done|]. intros Hs. unfold sound, carries. cbn. split; [|by apply map_Forall_insert_2].
  intros id c0 Hc0. destruct (decide (id = cm_ID c)) as [->|Hne]; [|rewrite lookup_insert_ne by done; exists c0; split; [done|reflexivity]].
  match goal with H : ¬ is_Some _ |- _ => destruct H; eauto end.
Qed.

Lemma StartCeremony_advances cmd : evolves advances (StartCeremony cmd).
Proof.
  unfold StartCeremony, s_now. cbv zeta. evolves_tac; [apply evolves_in_base, keeps_NewUUID; reflexivity..|].
  by apply CreateCeremony_advances.
Qed.

Lemma CompletePresentation_advances cmd : evolves advances (CompletePresentation cmd).
Proof.
  intros e s c s' H. unfold CompletePresentation, CeremonyRepo.GetCeremonyByID, s_now in H. txn_inv.
  match goal with H : match ?o with _ => _ end _ _ = _ |- _ => destruct o as [c0|] eqn:E; txn_inv end.
  apply fmap_Some in E as (st & Hst & ->). bool_to_prop. cbn in *.
  match goal with H : CeremonyRepo.MarkCeremonyVerified _ _ _ _ = _ |- _ => unfold CeremonyRepo.MarkCeremonyVerified in H; apply txn_bind_Ok in H as (? & ? & HU & H); txn_inv end.
  apply update_if_Ok in HU as [(_ & c & Hc & Hp & ->)|(_ & -> & _)]; [|reflexivity].
  assert (c = st) as -> by congruence. apply (advances_insert _ _ (λ c, CeremonyRepo.with_status CeremonyVerified (CeremonyRepo.with_presented _ c))); [done|].
  intros [Hw Hv]. split; [by split|]. split_and!; try done. left.
  unfold CeremonyRepo.is_status in Hp. bool_to_prop. destruct (cm_presented st) as [v|]; [|done]. destruct Hv. congruence.
Qed.

(** ** Preparations *)
Section machine.
Context {V : ContractValidation} {S : SigningServices}.

Lemma observes_missing did peer parties fields : observes (missing_ceremonies did peer parties fields).
Proof.
  induction fields as [|f rest IH]; cbn [missing_ceremonies]; [apply evolves_ret; apply _|].
  unfold CeremonyRepo.FindVerifiedCeremonyByField, CeremonyRepo.find_verified. evolves_tac.
Qed.

Lemma observes_resolve cmd : observes (resolveCeremony cmd).
Proof. intros e s c s' H. by apply resolveCeremony_Ok in H as [-> _]. Qed.

Lemma observes_gates did peer field parties fields count : observes (declared_field_gates did peer field parties fields count).
Proof. unfold declared_field_gates. evolves_tac. apply observes_missing. Qed.

Lemma observes_FetchPDF did : observes (FetchContractPDFBytes did).
Proof. unfold FetchContractPDFBytes. evolves_tac. apply frames_fetch. Qed.
#[local] Hint Resolve observes_resolve observes_gates observes_FetchPDF : txn.

Lemma prepare_advances peer cmd : evolves advances (prepare peer cmd).
Proof.
  unfold prepare, s_now. cbv zeta. evolves_tac.
  apply evolves_in_base, keeps_update_row. by intros.
Qed.

Lemma Prepare_advances cmd : evolves advances (Prepare cmd).
Proof. unfold Prepare. evolves_tac. apply prepare_advances. Qed.

(** ** The machine *)

(** The tables, and the submissions accepted but not yet recorded. *)
Record World := { tables : SStore; in_flight : list (SubmitSignatureCmd * Accepted) }.

Definition with_tables (w : World) (s : SStore) : World := {| tables := s; in_flight := in_flight w |}.

Inductive step (e : Env) (w : World) : World → Prop :=
| step_start cmd c s : StartCeremony cmd e (tables w) = Ok (c, s) → step e w (with_tables w s)
| step_present cmd c s : CompletePresentation cmd e (tables w) = Ok (c, s) → step e w (with_tables w s)
| step_prepare cmd pdf s : Prepare cmd e (tables w) = Ok (pdf, s) → step e w (with_tables w s)
| step_publish id req u s : CeremonyRepo.StorePreparedRequest id req e (tables w) = Ok (u, s) → step e w (with_tables w s)
| step_accept cmd a s : accept cmd e (tables w) = Ok (a, s) → step e w {| tables := s; in_flight := (cmd, a) :: in_flight w |}
| step_record cmd a u s : (cmd, a) ∈ in_flight w → record cmd a e (tables w) = Ok (u, s) → step e w (with_tables w s)
| step_revoke cmd u s : in_base (Revoker_Handle cmd) e (tables w) = Ok (u, s) → step e w (with_tables w s)
  (** everything else an instance does, which writes no signature *)
| step_other A (m : Tx A) a s : keeps signatures m → in_base m e (tables w) = Ok (a, s) → step e w (with_tables w s).

Inductive reachable : World → Prop :=
| reach_initial s : signatures (base s) = [] → ceremonies s = ∅ → reachable {| tables := s; in_flight := [] |}
| reach_step e w w' : reachable w → step e w w' → reachable w'.

(** ** The invariant *)
Definition signs (did field : string) (g : SignatureRow) : bool :=
  is_signed g && bool_decide (sg_contract_did g = did) && bool_decide (sg_field_name g = Some field).

Definition once (l : list SignatureRow) : Prop := ∀ did field, (length (rows_where (signs did field) l) <= 1)%nat.

(** The ceremony [id] was verified by [signer] for [field] of [did]. *)
Definition presented_for (s : SStore) (id did field signer : string) : Prop :=
  ∃ c v, ceremonies s !! id = Some c ∧ cm_ContractDID c = did ∧ cm_FieldName c = field ∧
    cm_presented c = Some v ∧ vp_SignerDID v = signer ∧ vp_PoAOrganization v = field.

Definition attributed (s : SStore) (g : SignatureRow) : Prop :=
  ∃ id field, sg_ceremony_id g = Some id ∧ sg_field_name g = Some field ∧ presented_for s id (sg_contract_did g) field (sg_signer_did g).

Definition pending_attributed (s : SStore) (p : SubmitSignatureCmd * Accepted) : Prop :=
  presented_for s (cm_ID (a_ceremony p.2)) (Preparing.DID (sub_Apply p.1)) (cm_FieldName (a_ceremony p.2))
    (Preparing.SignerDID (sub_Apply p.1)).

Record invariant (w : World) : Prop := {
  inv_sound : sound (tables w);
  inv_once : once (signatures (base (tables w)));
  inv_rows : ∀ g, g ∈ signatures (base (tables w)) → attributed (tables w) g;
  inv_flight : ∀ p, p ∈ in_flight w → pending_attributed (tables w) p
}.

Lemma presented_carries s s' id did field signer :
  carries s s' → presented_for s id did field signer → presented_for s' id did field signer.
Proof.
  intros Hc (c & v & H & Hd & Hf & Hv & Hs & Ho). destruct (Hc _ _ H) as (c' & H' & _ & Ed & Ef & [E|E]); [congruence|].
  exists c', v. split_and!; congruence.
Qed.

Lemma invariant_advances w s : invariant w → advances (tables w) s → invariant (with_tables w s).
Proof.
  intros [Hs Ho Hr Hf] [E H]. destruct (H Hs) as [Hc Hs']. constructor; cbn; [done|by rewrite E| |].
  - rewrite E. intros g Hg. destruct (Hr g Hg) as (id & field & E1 & E2 & E3). exists id, field. split_and!; try done.
    by apply (presented_carries (tables w)).
  - intros p Hp. by apply (presented_carries (tables w)), Hf.
Qed.

Lemma once_snoc l row did field :
  once l → sg_contract_did row = did → sg_field_name row = Some field →
  (∀ g, g ∈ l → sg_contract_did g = did → sg_status g = "SIGNED" → sg_field_name g ≠ Some field) → once (l ++ [row]).
Proof.
  intros Ho Hd Hf Hfree did' field'. unfold rows_where. rewrite filter_app, length_app.
  specialize (Ho did' field'). unfold rows_where in Ho. rewrite (filter_cons _ row []), filter_nil.
  case_decide as E; cbn; [|lia]. unfold signs in E. bool_to_prop. simplify_eq.
  pose proof (rows_where_nil (signs (sg_contract_did row) field) l) as E0. unfold rows_where in E0. rewrite E0; [done|].
  intros g Hg. apply not_true_is_false. unfold signs, is_signed. intros Hs. bool_to_prop. by apply (Hfree g).
Qed.

Lemma once_update l p f :
  once l → (∀ did field g, p g = true → signs did field (f g) = true → signs did field g = true) → once (update_where p f l).
Proof.
  intros Ho Hf did field. specialize (Ho did field). etrans; [|exact Ho]. clear -Hf. unfold rows_where, update_where.
  induction l as [|g l IH]; cbn [map]; [done|]. rewrite !filter_cons. destruct (p g) eqn:E.
  - repeat case_decide; cbn; try lia. by rewrite Hf in *.
  - case_decide; cbn; lia.
Qed.

Lemma invariant_accept w e cmd a s :
  invariant w → accept cmd e (tables w) = Ok (a, s) → invariant {| tables := s; in_flight := (cmd, a) :: in_flight w |}.
Proof.
  intros [Hs Ho Hr Hf] [-> Ha]%accept_Ok. constructor; cbn; [done..|].
  intros p [-> | Hp]%elem_of_cons; [|by apply Hf].
  destruct (acc_ceremony _ _ _ Ha) as (st & Hst & Ec & _ & Hd & Hsig & _). destruct (Hs _ _ Hst) as [Hid Hv].
  unfold CeremonyRepo.signed_by in Hsig. apply fmap_Some in Hsig as (v & Ev & Hsig). rewrite Ev in Hv. destruct Hv as [_ Hv].
  unfold pending_attributed. cbn. rewrite Ec. cbn. rewrite Hid. exists st, v. done.
Qed.

Lemma invariant_record w e cmd a u s :
  invariant w → (cmd, a) ∈ in_flight w → record cmd a e (tables w) = Ok (u, s) → invariant (with_tables w s).
Proof.
  intros [Hs Ho Hr Hf] Hin [Hfree Hrow _ Hcer _]%record_Ok.
  destruct Hrow as (pdf & cid & _ & _ & Hsig & _). destruct Hcer as (c & Hc & _ & Hcer).
  destruct (advances_insert (tables w) _ (λ c, CeremonyRepo.with_cert (Some (a_subject a, a_serial a))
    (CeremonyRepo.with_consumed (Some (env_now e)) c)) c Hc) as [_ [Hcar Hs']]; [|done|].
  { intros [Hw Hv]. split; [by split|]. split_and!; auto. }
  assert (carries (tables w) s) as Hcar' by (intros i c0 Hi; rewrite Hcer; by apply Hcar in Hi).
  assert (∀ id did field signer, presented_for (tables w) id did field signer → presented_for s id did field signer) as Hmove
    by (intros; by apply (presented_carries (tables w))).
  constructor; cbn.
  - unfold sound. rewrite Hcer. exact Hs'.
  - rewrite Hsig. eapply once_snoc; [done|done|done|]. exact Hfree.
  - intros g. rewrite Hsig. intros [Hg | ->%list_elem_of_singleton]%elem_of_app.
    + destruct (Hr g Hg) as (id & field & E1 & E2 & E3). exists id, field. auto.
    + exists (cm_ID (a_ceremony a)), (cm_FieldName (a_ceremony a)). split; [done|]. split; [done|].
      apply Hmove. exact (Hf _ Hin).
  - intros p Hp. by apply Hmove, Hf.
Qed.

Lemma invariant_revoke w e cmd u s :
  invariant w → in_base (Revoker_Handle cmd) e (tables w) = Ok (u, s) → invariant (with_tables w s).
Proof.
  intros [Hs Ho Hr Hf] (b & (row & _ & _ & _ & _ & Hsig & _)%revoke_Ok & ->)%in_base_Ok. constructor; cbn; [done| | |done].
  - rewrite Hsig. apply once_update; [done|]. intros did field g _ E. unfold signs, is_signed in E. cbn in E. done.
  - rewrite Hsig. intros g (g0 & -> & Hg0)%list_elem_of_fmap. destruct (Hr g0 Hg0) as (id & field & E1 & E2 & E3).
    exists id, field. destruct (SigningRepo.revocable _ _ g0); done.
Qed.

Lemma reachable_invariant w : reachable w → invariant w.
Proof.
  induction 1 as [s Hs Hc|e w w' _ IH Hstep].
  - constructor; cbn.
    + unfold sound. rewrite Hc. apply map_Forall_empty.
    + rewrite Hs. intros did field. cbn. lia.
    + rewrite Hs. by intros g ?%elem_of_nil.
    + by intros p ?%elem_of_nil.
  - destruct Hstep as [cmd c s H|cmd c s H|cmd pdf s H|id req u s H|cmd a s H|cmd a u s Hin H|cmd u s H|A m a s Hm H].
    + exact (invariant_advances _ _ IH (StartCeremony_advances _ _ _ _ _ H)).
    + exact (invariant_advances _ _ IH (CompletePresentation_advances _ _ _ _ _ H)).
    + exact (invariant_advances _ _ IH (Prepare_advances _ _ _ _ _ H)).
    + exact (invariant_advances _ _ IH (evolves_StorePreparedRequest _ _ _ _ _ _ H)).
    + exact (invariant_accept _ _ _ _ _ IH H).
    + exact (invariant_record _ _ _ _ _ _ IH Hin H).
    + exact (invariant_revoke _ _ _ _ _ IH H).
    + exact (invariant_advances _ _ IH (evolves_in_base _ Hm _ _ _ _ H)).
Qed.
End machine.

(** C4: Every signature is authorised and none is made twice, however the submissions
    overlap.  In every state reachable from empty signing tables - by ceremonies,
    presentations, preparations, publications, acceptances that are recorded later or
    never, revocations and any transaction that writes no signature - a field of a
    contract has at most one signature in force, and every signature ever made names a
    ceremony of its contract and field that was verified by its signer with a Power
    of Attorney for exactly that party. *)
Theorem every_signature_is_authorised `{V : ContractValidation} `{S : SigningServices} (w : World) :
  reachable w →
  (∀ did field, (length (rows_where (signs did field) (signatures (base (tables w)))) <= 1)%nat) ∧
  (∀ g, g ∈ signatures (base (tables w)) →
    ∃ id field c v, sg_ceremony_id g = Some id ∧ sg_field_name g = Some field ∧ ceremonies (tables w) !! id = Some c ∧
      cm_Status c = CeremonyVerified ∧ cm_ContractDID c = sg_contract_did g ∧ cm_FieldName c = field ∧
      cm_presented c = Some v ∧ vp_SignerDID v = sg_signer_did g ∧ vp_PoAOrganization v = field).
Proof.
  intros [Hs Ho Hr _]%reachable_invariant. split; [exact Ho|].
  intros g Hg. destruct (Hr g Hg) as (id & field & E1 & E2 & c & v & Hc & Hd & Hf & Hv & Hsig & Hpoa).
  exists id, field, c, v. destruct (Hs _ _ Hc) as [_ Hw]. rewrite Hv in Hw. destruct Hw as [Hw _]. done.
Qed.

(** ** A run of the machine *)
Section runs.
Context {V : ContractValidation} {S : SigningServices}.

Lemma reachable_ceremony party e w id s :
  reachable w → ceremony_of party e (tables w) = Ok (id, s) → reachable (with_tables w s).
Proof.
  intros Hw H. unfold ceremony_of in H. apply txn_bind_Ok in H as (c & s1 & H1 & H). apply txn_bind_Ok in H as (c2 & s2 & H2 & H).
  apply txn_ret_Ok in H as [-> ->]. apply (reach_step e (with_tables w s1)); [|by eapply (step_present _ (with_tables w s1))].
  by apply (reach_step e w); [|eapply step_start].
Qed.

Lemma reachable_prepare cmd e w pdf s : reachable w → Prepare cmd e (tables w) = Ok (pdf, s) → reachable (with_tables w s).
Proof. intros Hw H. apply (reach_step e w); [done|]. by apply (step_prepare _ _ _ _ _ H). Qed.

Lemma reachable_submission cmd e w u s :
  reachable w → SubmitSignature cmd e (tables w) = Ok (u, s) →
  ∃ a, reachable {| tables := s; in_flight := (cmd, a) :: in_flight w |}.
Proof.
  intros Hw H. apply txn_bind_Ok in H as (a & s1 & H1 & H). exists a.
  apply (reach_step e {| tables := s1; in_flight := (cmd, a) :: in_flight w |}); [by apply (reach_step e w); [|eapply step_accept]|].
  eapply (step_record _ {| tables := s1; in_flight := (cmd, a) :: in_flight w |}); [left|exact H].
Qed.
End runs.

Lemma reachable_both_signed e s u s' :
  signatures (base s) = [] → ceremonies s = ∅ → both_signed e s = Ok (u, s') → ∃ w, reachable w ∧ tables w = s'.
Proof.
  intros Hs Hc H. unfold both_signed in H. apply txn_bind_Ok in H as ([pa pb] & s5 & Hprep & H).
  unfold both_prepared in Hprep. apply txn_bind_Ok in Hprep as (a & s1 & H1 & Hprep).
  apply txn_bind_Ok in Hprep as (b & s2 & H2 & Hprep). apply txn_bind_Ok in Hprep as (pa' & s3 & H3 & Hprep).
  apply txn_bind_Ok in Hprep as (pb' & s4 & H4 & Hprep). apply txn_ret_Ok in Hprep as [_ ->].
  apply txn_bind_Ok in H as ([] & s6 & H5 & H6).
  pose proof (reach_initial s Hs Hc) as R0.
  pose proof (reachable_ceremony _ _ _ _ _ R0 H1) as R1. pose proof (reachable_ceremony _ _ _ _ _ R1 H2) as R2.
  pose proof (reachable_prepare _ _ _ _ _ R2 H3) as R3.
  pose proof (reachable_prepare _ _ _ _ _ R3 H4) as R4.
  destruct (reachable_submission _ _ _ _ _ R4 H5) as [a5 R5]. destruct (reachable_submission _ _ _ _ _ R5 H6) as [a6 R6]. eauto.
Qed.

Lemma authorised_witness :
  ∃ w, reachable w ∧ both_signed demo_env signing_store = Ok ((), tables w) ∧
    ∀ did field, (length (rows_where (signs did field) (signatures (base (tables w)))) <= 1)%nat.
Proof.
  assert (is_ok (both_signed demo_env signing_store) = true) as Hok by (vm_compute; reflexivity). revert Hok.
  destruct (both_signed demo_env signing_store) as [[[] s']|] eqn:E; intros Hok; [|discriminate Hok].
  destruct (reachable_both_signed demo_env signing_store () s' eq_refl eq_refl E) as (w & Hw & <-). exists w. split; [exact Hw|]. split; [reflexivity|].
  exact (proj1 (every_signature_is_authorised w Hw)).
Defined.
