(* ===== verification/SigningRequests.v ===== *)
(** The requests a wallet answers: the merged credential query of a pending ceremony,
    the publication of a signing request and the callback the wallet posts to
    (internal/service/signature_request.go, the error classes of
    signature_management.go, and the credential-query helpers of auth_login.go). *)
From S2P Require Import Prelude Json Sha256 ContractState Store Repos Transactions Document Lifecycle Validation Envelope ArtifactStore Erasure.
From S2P Require Import Signing Sealing SignatureChecks Ceremonies Preparing Accepting.
Import GoStrings.

(** ** Credential queries *)

(** [credentials] and [credential_sets] of a query, as [any]. *)
Definition query_object (q : json) : result (gmap string json) :=
  match q with JObj m => Ok m | _ => Err (Errorf "dcql query must be a JSON object") end.

Definition query_credentials (q : gmap string json) : result (list json) :=
  match q !! "credentials" with
  | None => Err (Errorf "missing credentials")
  | Some (JArr (c :: rest)) => Ok (c :: rest)
  | Some _ => Err (Errorf "credentials must be a non-empty array")
  end.

Definition entry_id (entry : json) : option string :=
  match entry with JObj m => Some (TrimSpace (as_string (m !! "id"))) | _ => None end.

Definition nonempty (s : string) : bool := negb (bool_decide (s = EmptyString)).

(** [crossProduct]. *)
Definition crossProduct (left right : list (list string)) : list (list string) :=
  match right with [] => left | _ => l ← left; (λ r, l ++ r) <$> right end.

(** The identifiers an option of a set names. *)
Definition combination (option_ : json) : option (list string) :=
  match option_ with
  | JArr ids => Some (rows_where nonempty (TrimSpace <$> omap (λ id, match id with JStr s => Some s | _ => None end) ids))
  | _ => None
  end.

Definition set_options (set_ : json) : option (list (list string)) :=
  match set_ with
  | JObj m => match m !! "options" with Some (JArr (o :: rest)) => Some (omap combination (o :: rest)) | _ => None end
  | _ => None
  end.

Definition credentialsAndOptionsFromDCQL (dcqlQuery : json) : result (list json * list (list string)) :=
  query ← query_object dcqlQuery;
  credentials ← query_credentials query;
  let ids := rows_where nonempty (omap entry_id credentials) in
  match query !! "credential_sets" with
  | Some (JArr (s :: rest)) => Ok (credentials, foldl crossProduct [[]] (omap set_options (s :: rest)))
  | _ => Ok (credentials, [ids])
  end.

Fixpoint merge_parts (credentials : list json) (combinations : list (list string)) (parts : list json) :
    result (list json * list (list string)) :=
  match parts with
  | [] => Ok (credentials, combinations)
  | part :: rest =>
      '(creds, options) ← credentialsAndOptionsFromDCQL part;
      merge_parts (credentials ++ creds) (crossProduct combinations options) rest
  end.

Definition mergeSigningCeremonyDCQL (parts : list json) : result json :=
  '(credentials, combinations) ← merge_parts [] [[]] parts;
  match credentials with
  | [] => Err (Errorf "no credentials")
  | [_] => Ok (JObj {["credentials" := JArr credentials]})
  | _ => Ok (JObj (<["credential_sets" := JArr [JObj {["options" := JArr ((λ ids, JArr (JStr <$> ids)) <$> combinations)]}]]>
                     {["credentials" := JArr credentials]}))
  end.

(** auth_login.go. *)
Definition credentialQueryIDsFromDCQL (dcqlQuery : json) : result (list string) :=
  query ← query_object dcqlQuery;
  credentials ← query_credentials query;
  match mapM (λ entry, id ← entry_id entry; if nonempty id then Some id else None) credentials with
  | Some ids => Ok ids
  | None => Err (Errorf "credentials[].id is required")
  end.

(** A presentation as [json.Unmarshal] decodes it into a string. *)
Definition presentation_text (j : json) : option string :=
  match j with JStr s => Some s | JNull => Some EmptyString | _ => None end.

Definition presentations_of (j : json) : option (list string) :=
  match j with JArr l => mapM presentation_text l | JNull => Some [] | _ => None end.

Fixpoint answer_under (tokens : gmap string json) (queryIDs : list string) : result string :=
  match queryIDs with
  | [] => Err (Errorf "missing vp_token entry")
  | id :: rest =>
      match tokens !! id with
      | None => answer_under tokens rest
      | Some raw =>
          match presentations_of raw with
          | None => Err (Errorf "vp_token must be an array of strings")
          | Some [p] => let t := TrimSpace p in
                        if nonempty t then Ok t else Err (Errorf "vp_token[0] must be a non-empty string")
          | Some _ => Err (Errorf "vp_token must contain exactly one presentation")
          end
      end
  end.

Definition extractSinglePresentation (parse : string → option json) (rawVPToken : string) (queryIDs : list string) : result string :=
  let raw := TrimSpace rawVPToken in
  if negb (nonempty raw) then Err (Errorf "vp_token is required")
  else if bool_decide (queryIDs = []) then Err (Errorf "no credential query id to read the vp_token under")
  else match parse raw with
       | Some (JObj tokens) => answer_under tokens queryIDs
       | Some JNull => answer_under ∅ queryIDs
       | _ => Err (Errorf "vp_token must be a JSON object")
       end.

(** ** signature_management.go [mapSignatureCommandError] *)
Definition is_any (e : error) (kinds : list sentinel) : bool := existsb (errors_Is e) kinds.

Definition fault_class (e : error) : string :=
  if errors_Is e ErrRegenerationInFlight then "service_unavailable"
  else if is_any e [ErrCeremonyRequired; ErrCeremoniesIncomplete] then "ceremony_required"
  else if errors_Is e ErrCounterpartyNotSettled then "counterparty_not_settled"
  else if is_any e [ErrDocumentMismatch; ErrContentMismatch; ErrPayloadMismatch] then "document_mismatch"
  else if errors_Is e ErrNonceMismatch then "nonce_mismatch"
  else if errors_Is e ErrLevelBelowRequired then "level_below_required"
  else if is_any e [ErrCertPIDMismatch; ErrCertInconsistent] then "cert_pid_mismatch"
  else if errors_Is e ErrJAdESInvalid then "jades_invalid"
  else if errors_Is e ErrSignatureInvalid then "signature_invalid"
  else if is_any e [ErrInvalidTransition; ErrRevocationReasonRequired; ErrUnknownSignatureField; ErrFieldAlreadySigned;
                    ErrCeremonyNotPrepared; ErrCeremonyConsumed; ErrContractNotClosed; ErrSignatureNotFound] then "bad_request"
  else "internal_error".

Definition mapSignatureCommandError (e : error) : error := Wrapf (fault_class e) e.

Definition signatureQualifierFor (credentialType : string) : string :=
  if EqualFold credentialType "QES" then "eu_eidas_qes" else "eu_eidas_aes".

(** ** A request handler: transactions that commit one after the other *)
Definition Request (A : Type) : Type := Env → SStore → result A * SStore.
#[export] Instance request_ret : MRet Request := λ A a _ s, (Ok a, s).
#[export] Instance request_bind : MBind Request := λ A B f m e s,
  match m e s with (Ok a, s') => f a e s' | (Err err, s') => (Err err, s') end.

Definition transaction {A} (m : STx A) : Request A := commit m.
Definition refuse_request {A} (err : error) : Request A := λ _ s, (Err err, s).
Definition require (b : bool) (err : error) : Request () := if b then mret () else refuse_request err.
Definition mapped {A} (f : error → error) (m : Request A) : Request A := λ e s,
  match m e s with (Ok a, s') => (Ok a, s') | (Err err, s') => (Err (f err), s') end.

(** The service's configuration, and the verification of what a wallet presents. *)
Record SigningConfig := {
  request_signer : bool;
  OID4VPClientID : string;
  PublicAPIBase : string;
  PIDDCQLQuery : json;
  DCQLQuery : json
}.

Record VerifiedPoA := { poa_ParticipantDID : string; poa_Roles : option json }.
Record VerifiedPID := { pid_SubjectDID : string; pid_RawClaims : option json }.

Class PresentationVerifier := {
  parse_json : string → option json;
  VerifyPoA : string → string → string → result VerifiedPoA;
  VerifyPID : string → string → string → result VerifiedPID;
  ParsePresentation : string → result string
}.

(** The participant a request is made for. *)
Record Caller := { ParticipantID : string; HolderDID_ : string; UserRoles : json }.

Record SignatureRequest := { res_CeremonyID : string; res_RequestURI : string; res_WalletURI : string; res_Nonce : string; res_ExpiresAt : Z }.

Section requests.
Context {V : ContractValidation} {S : SigningServices} {P : PresentationVerifier}.
Context (cfg : SigningConfig).

(** ** PublishSignatureRequest *)

(** The level the contract asks of the field, unless the request names one; an
    unreadable contract asks for "AES". *)
Definition publish_level (ceremony : SignatureCeremony) (asked : option string) : STx string := λ e s,
  let declared := match SigningRepo.ReadDataByDID (cm_ContractDID ceremony) e (base s) with
                  | Ok (c, _) => match c_contract_data c with
                                 | Some doc => SignatureChecks.RequiredCredentialType doc (cm_FieldName ceremony)
                                 | None => "AES" end
                  | Err _ => "AES" end in
  Ok (match asked with Some level => if nonempty level then level else declared | None => declared end, s).

Definition publish_read (id : string) (asked : option string) (caller : Caller) : STx ApplyCmd :=
  ceremony ← getCeremony id;
  match ceremony with
  | None => raise (NotFound (Errorf "ceremony not found"))
  | Some c =>
      match CeremonyRepo.signed_by c with
      | Some signer =>
          _ ← reject_if (negb (CeremonyRepo.is_status CeremonyVerified c) || negb (nonempty (TrimSpace signer)))
                (BadRequest (Errorf "ceremony has no verified PID presentation to publish a signing request for"));
          level ← publish_level c asked;
          mret {| DID := cm_ContractDID c; SignerDID := signer; FieldName := cm_FieldName c; CeremonyID := cm_ID c;
                  CredentialType := level; AppliedBy := ParticipantID caller; HolderDID := HolderDID_ caller |}
      | None => raise (BadRequest (Errorf "ceremony has no verified PID presentation to publish a signing request for"))
      end
  end.

Definition publish_store (cmd : ApplyCmd) (caller : Caller) : STx SignatureRequest :=
  nonce ← in_base NewUUID;
  t ← s_now;
  let expiresAt := t + signingRequestTTL in
  _ ← within "internal_error" (CeremonyRepo.StorePreparedRequest (CeremonyID cmd)
        {| RequestNonce := nonce; RequestExpiresAt := expiresAt; rq_CredentialType := CredentialType cmd;
           PublishedBy := AppliedBy cmd; rq_HolderDID := HolderDID cmd; rq_Roles := UserRoles caller |});
  let uri := signatureRequestURL (PublicAPIBase cfg) (CeremonyID cmd) "object" in
  mret {| res_CeremonyID := CeremonyID cmd; res_RequestURI := uri;
          res_WalletURI := buildCeremonyWalletURI (PublicAPIBase cfg) (CeremonyID cmd) (OID4VPClientID cfg);
          res_Nonce := nonce; res_ExpiresAt := expiresAt |}.

Definition PublishSignatureRequest (id : string) (asked : option string) (caller : Caller) : Request SignatureRequest :=
  _ ← require (request_signer cfg && nonempty (TrimSpace (OID4VPClientID cfg)))
        (InternalError (Errorf "OID4VP document-retrieval request signer is not configured"));
  _ ← require (nonempty (TrimSpace (PublicAPIBase cfg))) (InternalError (Errorf "public API base URL is not configured"));
  cmd ← transaction (publish_read id asked caller);
  _ ← mapped mapSignatureCommandError (transaction (Prepare cmd));
  transaction (publish_store cmd caller).

(** ** SignatureRequestCallback *)

(** The posted form: the fields in the order Go's map gives them. *)
Definition Form : Type := list (string * list string).
Definition Get (form : Form) (name : string) : string :=
  match List.find (λ kv, bool_decide (kv.1 = name)) form with Some (_, v :: _) => v | _ => EmptyString end.
Definition indexed (name key : string) : bool := match cut_prefix (String.append name "[") key with Some _ => true | None => false end.
Definition formList (form : Form) (name : string) : list string :=
  match concat (snd <$> rows_where (λ kv, indexed name kv.1) form) with
  | [] => match List.find (λ kv, bool_decide (kv.1 = name)) form with Some (_, vs) => vs | None => [] end
  | vs => vs
  end.

(** What a callback answers: the ceremony, the contract and the state now. *)
Record CallbackResult := { cb_CeremonyID : string; cb_Did : option string; cb_Status : string }.

Definition ceremony_label (st : CeremonyStatus) : string :=
  match st with CeremonyPending => "PENDING" | CeremonyVerified => "VERIFIED" | CeremonyExpired => "EXPIRED" | CeremonyFailed => "FAILED" end.

Definition presentation_fault (e : error) : error :=
  if is_any e [ErrPoAUnauthorized; ErrCeremonyExpired] then BadRequest e
  else if errors_Is e ErrCeremonyNotFound then NotFound e else InternalError e.

Definition ceremonyPresentationDirectPost (id vpToken : string) : Request CallbackResult :=
  ceremony ← transaction (loadPendingCeremony id);
  pidIDs ← mapped InternalError (transaction (of_result (credentialQueryIDsFromDCQL (PIDDCQLQuery cfg))));
  poaIDs ← mapped InternalError (transaction (of_result (credentialQueryIDsFromDCQL (DCQLQuery cfg))));
  pid ← mapped BadRequest (transaction (of_result (extractSinglePresentation parse_json vpToken pidIDs)));
  poa ← mapped (λ _, BadRequest (Wrapf "no Power of Attorney credential was presented at signing" (Sentinel ErrPoAUnauthorized)))
          (transaction (of_result (extractSinglePresentation parse_json vpToken poaIDs)));
  verifiedPoA ← mapped BadRequest (transaction (of_result (VerifyPoA poa (cm_Nonce ceremony) (OID4VPClientID cfg))));
  verifiedPID ← mapped BadRequest (transaction (of_result (VerifyPID pid (cm_Nonce ceremony) (OID4VPClientID cfg))));
  sdHash ← mapped BadRequest (transaction (of_result (ParsePresentation pid)));
  verified ← mapped presentation_fault (transaction (CompletePresentation
    {| pr_CeremonyID := id; pr_SignerDID := pid_SubjectDID verifiedPID; pr_SDHash := sdHash; pr_VpToken := pid;
       pr_PidClaims := pid_RawClaims verifiedPID; pr_PoAOrganization := TrimSpace (poa_ParticipantDID verifiedPoA);
       pr_PoARoles := poa_Roles verifiedPoA; pr_PoAVpToken := poa |}));
  mret {| cb_CeremonyID := cm_ID verified; cb_Did := None; cb_Status := ceremony_label (cm_Status verified) |}.

Definition submitted_document (form : Form) : result bytes :=
  match formList form "documentWithSignature" with
  | [] => Err (Errorf "no documentWithSignature was posted")
  | doc :: _ => wrap_err "decode signed document" (Std_Decode (TrimSpace doc))
  end.

Definition callback_command (ceremony : SignatureCeremony) (request : PreparedRequest) (signer : string) (form : Form)
    (signedPDF : bytes) : SubmitSignatureCmd :=
  {| sub_Apply := {| DID := cm_ContractDID ceremony; SignerDID := signer; FieldName := cm_FieldName ceremony;
                     CeremonyID := cm_ID ceremony;
                     CredentialType := if nonempty (rq_CredentialType request) then rq_CredentialType request else "AES";
                     AppliedBy := PublishedBy request; HolderDID := rq_HolderDID request |};
     SignedPDF := signedPDF;
     JAdESSignature := match formList form "signatureObject" with o :: _ => TrimSpace o | [] => EmptyString end |}.

Definition SignatureRequestCallback (id : string) (form : Form) : Request CallbackResult :=
  _ ← require (negb (nonempty (TrimSpace (Get form "error")))) (BadRequest (Errorf "wallet reported an error"));
  _ ← require (negb (nonempty (TrimSpace (Get form "state"))) || bool_decide (TrimSpace (Get form "state") = id))
        (BadRequest (Errorf "callback state does not match ceremony"));
  if nonempty (TrimSpace (Get form "vp_token")) then ceremonyPresentationDirectPost id (TrimSpace (Get form "vp_token")) else
  '(ceremony, request, _, signer) ← transaction (loadPublishedCeremony id);
  _ ← require (bool_decide (cm_ConsumedAt ceremony = None))
        (BadRequest (Errorf "ceremony signing request has already been consumed"));
  signedPDF ← mapped BadRequest (transaction (of_result (submitted_document form)));
  _ ← mapped mapSignatureCommandError (transaction (SubmitSignature (callback_command ceremony request signer form signedPDF)));
  processData ← mapped InternalError (transaction (in_base (SigningRepo.ReadProcessDataByDID (cm_ContractDID ceremony))));
  mret {| cb_CeremonyID := id; cb_Did := Some (cm_ContractDID ceremony); cb_Status := state_String (c_state processData) |}.

(** ** CeremonyStatus *)
Definition CeremonyStatusHandler_Handle (id : string) : STx SignatureCeremony :=
  ceremony ← getCeremony id;
  match ceremony with None => raise (NotFound (Errorf "ceremony not found")) | Some c => mret c end.
End requests.
