(* ===== verification/RequestLaws.v ===== *)
(** What the signing requests promise the wallet: the merged query asks for both
    credentials, and the endpoints of a published request serve what was prepared. *)
From S2P Require Import Prelude Json Sha256 Merkle ContractState Store Repos Transactions Document Lifecycle Validation Envelope ArtifactStore.
From S2P Require Import Erasure Signing Sealing SignatureChecks Ceremonies Preparing Accepting SigningDemo SigningLaws SigningInvariant SigningRequests.
Import GoStrings.

(** ** Text *)
Lemma trim_left_idem p s : trim_left p (trim_left p s) = trim_left p s.
Proof. induction s as [|c s IH]; [done|]. cbn. destruct (p c) eqn:E; [done|]. cbn. by rewrite E. Qed.

Lemma trim_right_idem p s : trim_right p (trim_right p s) = trim_right p s.
Proof.
  induction s as [|c s IH]; [done|]. cbn. destruct (trim_right p s) as [|d t] eqn:E.
  - destruct (p c) eqn:Ec; [done|]. cbn. by rewrite Ec.
  - cbn in IH |- *. by rewrite IH.
Qed.

Lemma trim_right_head p s : trim_left p s = s → trim_left p (trim_right p s) = trim_right p s.
Proof.
  destruct s as [|c s]; [done|]. cbn. destruct (p c) eqn:Ec.
  - intros H. exfalso. assert (Hl : ∀ t, (String.length (trim_left p t) <= String.length t)%nat).
    { induction t as [|d t IH]; [done|]. cbn. destruct (p d); cbn; lia. }
    specialize (Hl s). rewrite H in Hl. cbn in Hl. lia.
  - intros _. destruct (trim_right p s); cbn; by rewrite Ec.
Qed.

Lemma TrimSpace_idem s : TrimSpace (TrimSpace s) = TrimSpace s.
Proof. unfold TrimSpace. rewrite trim_right_head by apply trim_left_idem. apply trim_right_idem. Qed.

(** Text that trimming and lowering leave alone. *)
Fixpoint plain (s : string) : bool :=
  match s with EmptyString => true | String c s' => negb (is_space c) && bool_decide (ascii_lower c = c) && plain s' end.

Lemma plain_cons c s : plain (String c s) = true → is_space c = false ∧ ascii_lower c = c ∧ plain s = true.
Proof. cbn. intros H. bool_to_prop. done. Qed.

Lemma plain_trim s : plain s = true → trim_right is_space s = s.
Proof.
  induction s as [|c s IH]; [done|]. intros (Hc & _ & Hs)%plain_cons. cbn. rewrite IH, Hc by done. by destruct s.
Qed.

Lemma plain_text s : plain s = true → ToLower (TrimSpace s) = s.
Proof.
  intros H. assert (TrimSpace s = s) as ->.
  - unfold TrimSpace. destruct s as [|c s]; [done|]. cbn [trim_left]. pose proof H as (-> & _ & _)%plain_cons. by apply plain_trim.
  - induction s as [|c s IH]; [done|]. apply plain_cons in H as (_ & Hc & Hs). unfold ToLower in *. cbn. by rewrite Hc, IH.
Qed.

Lemma plain_digit n : 0 <= n < 16 → negb (is_space (hex_digit n)) && bool_decide (ascii_lower (hex_digit n) = hex_digit n) = true.
Proof.
  intros Hn. assert (In n [0;1;2;3;4;5;6;7;8;9;10;11;12;13;14;15]) as H by (cbn; lia). cbn in H.
  repeat destruct H as [<-|H]; by vm_compute.
Qed.

Lemma plain_hex bs : is_bytes bs → plain (EncodeToString bs) = true.
Proof.
  induction 1 as [|b bs Hb _ IH]; [done|]. cbn [EncodeToString plain].
  rewrite IH, !plain_digit; [done|apply Z.mod_pos_bound; lia|]. split; [apply Z.div_pos; lia|apply Z.div_lt_upper_bound; lia].
Qed.

Lemma hash_text bs : ToLower (TrimSpace (hash_hex bs)) = hash_hex bs.
Proof. apply plain_text, plain_hex, Sum256_range. Qed.

(** ** Credential queries *)

(** A wallet that holds the credentials of the identifiers [held] satisfies the
    alternatives [options]. *)
Definition satisfied (options : list (list string)) (held : list string) : Prop :=
  ∃ option_, option_ ∈ options ∧ ∀ id, id ∈ option_ → id ∈ held.

(** The identifiers as a query carries them: trimmed, not empty. *)
Definition clean (ids : list string) : Prop := ∀ id, id ∈ ids → TrimSpace id = id ∧ nonempty id = true.

Lemma satisfied_cross left right held :
  right ≠ [] → (satisfied (crossProduct left right) held ↔ satisfied left held ∧ satisfied right held).
Proof.
  intros Hr. unfold crossProduct, satisfied. destruct right as [|r0 rs]; [done|]. set (right := r0 :: rs). split.
  - intros (o & Ho & Hall). apply list_elem_of_bind in Ho as (l & Ho & Hl). apply list_elem_of_fmap in Ho as (r & -> & Hr').
    split; [exists l|exists r]; (split; [done|]); intros id Hid; apply Hall, elem_of_app; auto.
  - intros [(l & Hl & Hal) (r & Hr' & Har)]. exists (l ++ r). split.
    + apply list_elem_of_bind. exists l. split; [|done]. apply list_elem_of_fmap. by exists r.
    + intros id [H|H]%elem_of_app; auto.
Qed.

Lemma crossProduct_nonempty left right : left ≠ [] → crossProduct left right ≠ [].
Proof. intros Hl. unfold crossProduct. destruct right; [done|]. destruct left; [done|]. done. Qed.

Lemma crossProduct_clean left right : Forall clean left → Forall clean right → Forall clean (crossProduct left right).
Proof.
  intros Hl Hr. unfold crossProduct. destruct right as [|r0 rs]; [done|]. apply Forall_forall. intros o Ho.
  apply list_elem_of_bind in Ho as (l & Ho & Hl'). apply list_elem_of_fmap in Ho as (r & -> & Hr').
  rewrite Forall_forall in Hl, Hr. intros id [H|H]%elem_of_app; [by apply (Hl l)|by apply (Hr r)].
Qed.

Lemma clean_ids l : clean (rows_where nonempty (TrimSpace <$> l)).
Proof. intros id [Hid Hne]%elem_of_rows_where. apply list_elem_of_fmap in Hid as (s & -> & _). by rewrite TrimSpace_idem. Qed.

Lemma combination_clean o ids : combination o = Some ids → clean ids.
Proof. destruct o; try done. intros [= <-]. apply clean_ids. Qed.

Lemma set_options_clean j options : set_options j = Some options → Forall clean options.
Proof.
  unfold set_options. intros H. destruct j as [| | | | |m]; try done.
  destruct (m !! "options") as [[| | | |[|o rest]|]|]; try done. injection H as <-.
  change (Forall clean (omap combination (o :: rest))). apply Forall_forall. intros ids (x & _ & Hx)%list_elem_of_omap.
  by apply (combination_clean x).
Qed.

Lemma folded_shape acc sets :
  acc ≠ [] → Forall clean acc → Forall (Forall clean) sets →
  foldl crossProduct acc sets ≠ [] ∧ Forall clean (foldl crossProduct acc sets).
Proof.
  revert acc. induction sets as [|s sets IH]; intros acc Hn Hc Hs; [done|]. inversion_clear Hs. cbn.
  apply IH; [by apply crossProduct_nonempty|by apply crossProduct_clean|done].
Qed.

Lemma entry_ids_clean l : clean (rows_where nonempty (omap entry_id l)).
Proof.
  intros id [Hid Hne]%elem_of_rows_where. apply list_elem_of_omap in Hid as (x & _ & Hx).
  destruct x; try done. injection Hx as <-. by rewrite TrimSpace_idem.
Qed.

Lemma Ok_pair {A B} (a c : A) (b d : B) : Ok (a, b) = Ok (c, d) → a = c ∧ b = d.
Proof. by intros [= -> ->]. Qed.

Lemma options_shape q creds options :
  credentialsAndOptionsFromDCQL q = Ok (creds, options) → creds ≠ [] ∧ options ≠ [] ∧ Forall clean options.
Proof.
  unfold credentialsAndOptionsFromDCQL. destruct (query_object q) as [m|]; cbn [mbind result_bind]; [|done].
  unfold query_credentials. destruct (m !! "credentials") as [[| | | |[|c rest]|]|]; cbn [mbind result_bind]; try done.
  destruct (m !! "credential_sets") as [[| | | |[|s0 sets]|]|]; intros [<- <-]%Ok_pair; (split; [done|]).
  all: try (split; [done|]; constructor; [apply entry_ids_clean|constructor]).
  apply folded_shape; [done|constructor; [by intros ? ?%elem_of_nil|constructor]|].
  apply Forall_forall. intros o (x & _ & Hx)%list_elem_of_omap. by apply set_options_clean in Hx.
Qed.

(** The combinations of the merged query, read back. *)
Lemma combination_reads ids : clean ids → combination (JArr (JStr <$> ids)) = Some ids.
Proof.
  intros Hc. cbn. f_equal. assert (omap (λ id, match id with JStr s => Some s | _ => None end) (JStr <$> ids) = ids) as ->.
  { clear Hc. induction ids as [|i ids IH]; [done|]. cbn. by rewrite IH. }
  induction ids as [|i ids IH]; [done|]. unfold rows_where in *. rewrite fmap_cons, filter_cons.
  destruct (Hc i) as [-> Hn]; [left|]. rewrite decide_True by done. f_equal. apply IH. intros j Hj. apply Hc. by right.
Qed.

Lemma options_read combos : combos ≠ [] → Forall clean combos →
  omap set_options [JObj {["options" := JArr ((λ ids, JArr (JStr <$> ids)) <$> combos)]}] = [combos].
Proof.
  intros Hn Hc. cbn [omap list_omap]. unfold set_options. rewrite lookup_singleton_eq. destruct combos as [|c0 cs]; [done|].
  cbn [fmap list_fmap]. f_equal. rewrite <-(fmap_cons (λ ids, JArr (JStr <$> ids)) c0 cs). revert Hc.
  generalize (c0 :: cs). clear. intros l Hc. induction Hc as [|ids l Hids _ IH]; [done|].
  cbn [fmap list_fmap omap list_omap]. by rewrite combination_reads, IH.
Qed.

Lemma crossProduct_unit l : l ≠ [] → crossProduct [[]] l = l.
Proof. intros H. unfold crossProduct. destruct l as [|x l]; [done|]. cbn. rewrite app_nil_r. f_equal. clear. induction l; cbn; congruence. Qed.

Lemma merge_parts_Ok parts : ∀ creds combos creds' combos',
  merge_parts creds combos parts = Ok (creds', combos') → combos ≠ [] → Forall clean combos →
  (length creds + length parts <= length creds')%nat ∧ combos' ≠ [] ∧ Forall clean combos' ∧
  ∀ held, satisfied combos' held ↔ satisfied combos held ∧
    ∀ part, part ∈ parts → ∃ c o, credentialsAndOptionsFromDCQL part = Ok (c, o) ∧ satisfied o held.
Proof.
  induction parts as [|part parts IH]; intros creds combos creds' combos'; cbn [merge_parts].
  - intros [<- <-]%Ok_pair Hn Hc. cbn. split_and!; [lia|done|done|]. intros held. split; [|tauto]. intros H. split; [done|].
    by intros p ?%elem_of_nil.
  - destruct (credentialsAndOptionsFromDCQL part) as [[c o]|] eqn:E; cbn [mbind result_bind]; [|done].
    intros H Hn Hc. destruct (options_shape _ _ _ E) as (Hcr & Ho & Hoc).
    apply IH in H as (Hl & Hn' & Hc' & Hs); [|by apply crossProduct_nonempty|by apply crossProduct_clean].
    rewrite length_app in Hl. destruct c as [|c0 cs]; [done|]. cbn in Hl |- *. split_and!; [lia|done|done|].
    intros held. rewrite Hs, satisfied_cross by done. split.
    + intros [[Ha Hb] Hp]. split; [done|]. intros p [-> | Hin]%elem_of_cons; eauto.
    + intros [Ha Hp]. split; [split; [done|]|].
      * destruct (Hp part) as (c' & o' & E' & Hs'); [left|]. congruence.
      * intros p Hin. apply Hp. by right.
Qed.

(** The request of a pending ceremony asks for every credential it needs and for
    nothing else.  When the queries of two or more credentials are merged, the merged
    query reads back, and a wallet's credentials satisfy it exactly if they satisfy
    each of the queries, by some alternative of each. *)
Theorem merged_query_asks_for_every_part (parts : list json) (q : json) :
  mergeSigningCeremonyDCQL parts = Ok q → (1 < length parts)%nat →
  ∃ creds options, credentialsAndOptionsFromDCQL q = Ok (creds, options) ∧
    ∀ held, satisfied options held ↔
      ∀ part, part ∈ parts → ∃ c o, credentialsAndOptionsFromDCQL part = Ok (c, o) ∧ satisfied o held.
Proof.
  unfold mergeSigningCeremonyDCQL. destruct (merge_parts [] [[]] parts) as [[creds combos]|] eqn:E; cbn [mbind result_bind]; [|done].
  intros H Hl. apply merge_parts_Ok in E as (Hlen & Hn & Hc & Hs); [|done|constructor; [by intros ? ?%elem_of_nil|constructor]].
  destruct creds as [|c0 [|c1 cs]]; cbn in Hlen; [lia..|]. injection H as <-. exists (c0 :: c1 :: cs), combos. split.
  - unfold credentialsAndOptionsFromDCQL. cbn [query_object mbind result_bind]. unfold query_credentials.
    rewrite (lookup_insert_ne _ "credential_sets" "credentials") by discriminate. rewrite lookup_singleton_eq. cbn [mbind result_bind]. rewrite lookup_insert_eq.
    rewrite options_read by done. cbn [foldl]. by rewrite crossProduct_unit.
  - intros held. rewrite Hs. split; [tauto|]. intros H. split; [|done]. exists []. split; [left|by intros ? ?%elem_of_nil].
Qed.

(** One credential under two format identifiers, and a single one. *)
Definition credential (id : string) : json := JObj {["id" := JStr id]}.
Definition demo_pid_query : json :=
  JObj (<["credential_sets" := JArr [JObj {["options" := JArr [JArr [JStr "pid"]; JArr [JStr "pid-vc"]]]}]]>
    {["credentials" := JArr [credential "pid"; credential "pid-vc"]]}).
Definition demo_poa_query : json := JObj {["credentials" := JArr [credential "poa"]]}.

Lemma merged_query_witness :
  ∃ q, mergeSigningCeremonyDCQL [demo_pid_query; demo_poa_query] = Ok q ∧
    ∃ creds options, credentialsAndOptionsFromDCQL q = Ok (creds, options).
Proof.
  destruct (mergeSigningCeremonyDCQL [demo_pid_query; demo_poa_query]) as [q|] eqn:E; [|vm_compute in E; discriminate E].
  exists q. split; [reflexivity|].
  destruct (merged_query_asks_for_every_part _ _ E ltac:(cbn; lia)) as (creds & options & H & _). exists creds, options. exact H.
Defined.

(** ** A published request *)
Section published.
Context {V : ContractValidation} {S : SigningServices}.

(** What the answer of a successful run satisfies, whatever was read on the way. *)
Definition returns {A} (P : A → Prop) (m : STx A) : Prop := ∀ e s a s', m e s = Ok (a, s') → P a.

Lemma returns_bind {A B} (P : B → Prop) (m : STx A) f : (∀ a, returns P (f a)) → returns P (m ≫= f).
Proof. intros Hf e s b s' (a & s1 & _ & H)%txn_bind_Ok. by eapply Hf. Qed.
Lemma returns_ret {A} (P : A → Prop) a : P a → returns P (mret a : STx A).
Proof. by intros HP e s b s' [-> _]%txn_ret_Ok. Qed.
Lemma returns_raise {A} (P : A → Prop) err : returns P (raise err : STx A).
Proof. by intros e s a s'. Qed.

Ltac returns_step :=
  match goal with
  | |- returns _ (mbind _ _) => apply returns_bind; intros ?
  | |- returns _ (match ?x with _ => _ end) => destruct x
  | |- returns _ (raise _) => apply returns_raise
  | |- returns _ (mret _) => apply returns_ret
  end.

Lemma prepare_Ok peer cmd e s p s' :
  prepare peer cmd e s = Ok (p, s') → resolveCeremony cmd e s = Ok (p_ceremony p, s).
Proof.
  intros H. unfold prepare in H. apply txn_bind_Ok in H as (u & s1 & [_ ->]%of_result_Ok & H).
  apply txn_bind_Ok in H as (data & s2 & H1%within_Ok & H). apply in_base_reads_Ok in H1 as [-> _]; [|by auto with tx].
  destruct (c_contract_data data) as [stored|]; [|done]. apply txn_bind_Ok in H as (c & s3 & HR & H).
  pose proof (observes_resolve _ _ _ _ _ HR) as Eo. cbn in Eo. subst s3. rewrite HR. do 2 f_equal.
  revert H. cbv zeta. match goal with |- ?m e s = _ → _ => assert (returns (λ p, p_ceremony p = c) m) as Hp end.
  { repeat returns_step. done. }
  intros H. symmetry. exact (Hp _ _ _ _ H).
Qed.

(** After a preparation by name, the named ceremony holds the document and the
    digest that goes with it. *)
Lemma Prepare_pins cmd e s pdf s' :
  sound s → CeremonyID cmd ≠ EmptyString → Prepare cmd e s = Ok (pdf, s') →
  sound s' ∧ ∃ c pinned, ceremonies s' !! CeremonyID cmd = Some c ∧ cm_pinned c = Some pinned ∧
    PreparedPDF pinned = pdf ∧ PreparedPDFSHA256 pinned = hash_hex pdf ∧ cm_Status c = CeremonyVerified.
Proof.
  intros Hs Hid H. split; [exact (proj2 (proj2 (Prepare_advances _ _ _ _ _ H) Hs))|].
  unfold Prepare in H. apply txn_bind_Ok in H as (peer & s1 & H1%within_Ok & H).
  apply in_base_reads_Ok in H1 as [-> _]; [|by auto with tx].
  apply txn_bind_Ok in H as (p & s1 & Hprep & H). pose proof (prepare_advances _ _ _ _ _ _ Hprep) as [_ Hadv].
  destruct (Hadv Hs) as [Hcar Hs1]. apply prepare_Ok, resolveCeremony_Ok in Hprep as [_ [(_ & Hv & _ & _ & st & Hst & Hp)|[? _]]]; [|done].
  apply txn_bind_Ok in H as (doc & s2 & [_ ->]%within_Ok%of_result_Ok & H).
  apply txn_bind_Ok in H as (u & s3 & Hpin%within_Ok & [-> ->]%txn_ret_Ok).
  destruct (Hs _ _ Hst) as [Ekey Hwf]. destruct (Hcar _ _ Hst) as (c & Hc & Hcont).
  assert (cm_ID (p_ceremony p) = CeremonyID cmd) as Ekey' by (rewrite Hp; exact Ekey). rewrite Ekey' in Hpin.
  apply (always_updated _ _ _ _ _ _ _ Hc) in Hpin as ->. cbn. rewrite lookup_insert_eq. do 2 eexists. split; [done|].
  cbn. split; [done|]. split; [done|]. split; [done|].
  destruct (Hs1 _ _ Hc) as [_ Hw]. rewrite Hp in Hv. unfold CeremonyRepo.is_status in Hv. bool_to_prop. cbn in Hv.
  destruct Hcont as (_ & _ & _ & [E|E]); destruct (cm_presented st) eqn:E1; try done; rewrite ?E in Hw; naive_solver.
Qed.

(** The endpoints of a ceremony that holds a pinned document and a request. *)
Lemma published_endpoints id c request pinned signer e s :
  ceremonies s !! id = Some c → cm_request c = Some request → cm_pinned c = Some pinned →
  CeremonyRepo.signed_by c = Some signer → PreparedPDFSHA256 pinned = hash_hex (PreparedPDF pinned) →
  env_now e <= RequestExpiresAt request →
  SignatureRequestObject id e s = Ok (DocumentRetrieval pinned (RequestNonce request), s) ∧
  (PreparedPDF pinned ≠ [] → SignatureRequestDocument id e s = Ok (PreparedPDF pinned, s)) ∧
  (PinnedPayload pinned ≠ [] → SignatureRequestPayload id e s = Ok (PinnedPayload pinned, s)).
Proof.
  intros Hc Hr Hp Hsig Hd Ht.
  assert (getCeremony id e s = Ok (Some (CeremonyRepo.by_id c), s)) as Hget.
  { unfold getCeremony, CeremonyRepo.GetCeremonyByID, within, query. by rewrite Hc. }
  assert (loadPublishedCeremony id e s = Ok (CeremonyRepo.by_id c, request, pinned, signer, s)) as Hload.
  { unfold loadPublishedCeremony, mbind, txn_bind. rewrite Hget, signed_by_id, Hsig. cbn. rewrite Hr, Hp. cbn.
    unfold s_now, query. by rewrite (proj2 (Z.ltb_ge _ _) Ht). }
  assert (assertPreparedDocumentDigestConsistent pinned = Ok ()) as Hdig.
  { unfold assertPreparedDocumentDigestConsistent. rewrite Hd, hash_text. by rewrite bool_decide_eq_true_2. }
  split; [|split].
  - unfold SignatureRequestObject, mbind, txn_bind. rewrite Hget, signed_by_id, Hsig. cbn. rewrite Hr, Hp, Hload.
    unfold within, of_result. by rewrite Hdig.
  - intros Hne. unfold SignatureRequestDocument, mbind, txn_bind. rewrite Hload.
    unfold reject_if, within, of_result. rewrite bool_decide_eq_false_2 by done. by rewrite Hdig.
  - intros Hne. unfold SignatureRequestPayload, mbind, txn_bind. rewrite Hload.
    unfold reject_if. by rewrite bool_decide_eq_false_2.
Qed.

Lemma expired_endpoints id c request pinned signer e s :
  ceremonies s !! id = Some c → cm_request c = Some request → cm_pinned c = Some pinned →
  CeremonyRepo.signed_by c = Some signer → RequestExpiresAt request < env_now e →
  is_ok (SignatureRequestObject id e s) = false ∧ is_ok (SignatureRequestDocument id e s) = false ∧
  is_ok (SignatureRequestPayload id e s) = false.
Proof.
  intros Hc Hr Hp Hsig Ht.
  assert (getCeremony id e s = Ok (Some (CeremonyRepo.by_id c), s)) as Hget.
  { unfold getCeremony, CeremonyRepo.GetCeremonyByID, within, query. by rewrite Hc. }
  assert (∃ err, loadPublishedCeremony id e s = Err err) as [err Hload].
  { unfold loadPublishedCeremony, mbind, txn_bind. rewrite Hget, signed_by_id, Hsig. cbn. rewrite Hr, Hp. cbn.
    unfold s_now, query. rewrite (proj2 (Z.ltb_lt _ _) Ht). cbn. eauto. }
  split_and!.
  - unfold SignatureRequestObject, mbind, txn_bind. rewrite Hget, signed_by_id, Hsig. cbn. by rewrite Hr, Hp, Hload.
  - unfold SignatureRequestDocument, mbind, txn_bind. by rewrite Hload.
  - unfold SignatureRequestPayload, mbind, txn_bind. by rewrite Hload.
Qed.

Lemma request_bind_Ok {A B} (m : Request A) (f : A → Request B) e s b s' :
  (m ≫= f) e s = (Ok b, s') → ∃ a s1, m e s = (Ok a, s1) ∧ f a e s1 = (Ok b, s').
Proof. unfold mbind, request_bind. destruct (m e s) as [[a|] s1]; [eauto|done]. Qed.

Lemma transaction_Ok {A} (m : STx A) e s a s' : transaction m e s = (Ok a, s') → m e s = Ok (a, s').
Proof. unfold transaction, commit. destruct (m e s) as [[b s1]|]; naive_solver. Qed.

Lemma mapped_Ok {A} f (m : Request A) e s a s' : mapped f m e s = (Ok a, s') → m e s = (Ok a, s').
Proof. unfold mapped. destruct (m e s) as [[b|] s1]; naive_solver. Qed.

Lemma publish_read_Ok id asked caller e s cmd s' :
  publish_read id asked caller e s = Ok (cmd, s') →
  s' = s ∧ ∃ c, ceremonies s !! id = Some c ∧ CeremonyID cmd = cm_ID c.
Proof.
  unfold publish_read, getCeremony, CeremonyRepo.GetCeremonyByID. intros H. txn_inv.
  destruct (ceremonies s !! id) as [c|]; cbn in H; [|done].
  match type of H with match ?o with _ => _ end _ _ = _ => destruct o; txn_inv end.
  match goal with H : publish_level _ _ _ _ = _ |- _ => unfold publish_level in H; injection H as _ <- end. eauto.
Qed.

(** C26: A published signing request serves what was prepared.  When a publication
    succeeds, the ceremony is open for submission, and until the request expires its
    request object asks for exactly the pinned document under the nonce that was
    returned, and the document and payload endpoints return the pinned bytes, whose
    digest check passes; after that every one of the three refuses. *)
Theorem published_request_serves_the_prepared_document (cfg : SigningConfig) (id : string) (asked : option string) (caller : Caller)
    (e : Env) (s s' : SStore) (res : SignatureRequest) :
  sound s → id ≠ EmptyString → PublishSignatureRequest cfg id asked caller e s = (Ok res, s') →
  ∃ c pinned, ceremonies s' !! id = Some c ∧ cm_pinned c = Some pinned ∧ cm_ConsumedAt c = None ∧
    (∀ e', env_now e' <= res_ExpiresAt res →
       SignatureRequestObject id e' s' = Ok (DocumentRetrieval pinned (res_Nonce res), s') ∧
       (PreparedPDF pinned ≠ [] → SignatureRequestDocument id e' s' = Ok (PreparedPDF pinned, s')) ∧
       (PinnedPayload pinned ≠ [] → SignatureRequestPayload id e' s' = Ok (PinnedPayload pinned, s'))) ∧
    (∀ e', res_ExpiresAt res < env_now e' →
       is_ok (SignatureRequestObject id e' s') = false ∧ is_ok (SignatureRequestDocument id e' s') = false ∧
       is_ok (SignatureRequestPayload id e' s') = false).
Proof.
  intros Hs Hid H. unfold PublishSignatureRequest in H.
  apply request_bind_Ok in H as (u1 & s1 & H1 & H). unfold require in H1. destruct (_ && _) in H1; [|done]. injection H1 as _ <-.
  apply request_bind_Ok in H as (u2 & s2 & H2 & H). unfold require in H2. destruct (nonempty _) in H2; [|done]. injection H2 as _ <-.
  apply request_bind_Ok in H as (cmd & s3 & Hread%transaction_Ok & H).
  apply publish_read_Ok in Hread as [-> (c0 & Hc0 & Ecmd)]. rewrite (proj1 (Hs _ _ Hc0)) in Ecmd.
  apply request_bind_Ok in H as (pdf & s4 & Hprep%mapped_Ok%transaction_Ok & Hstore%transaction_Ok).
  apply Prepare_pins in Hprep as (Hs4 & c & pinned & Hc & Hpin & Hpdf & Hsha & Hst); [|done|by rewrite Ecmd].
  unfold publish_store, s_now in Hstore. cbv zeta in Hstore. txn_inv.
  match goal with H : in_base NewUUID _ _ = _ |- _ => apply in_base_Ok in H as (b & _ & ->) end.
  match goal with H : CeremonyRepo.StorePreparedRequest _ _ _ _ = _ |- _ => unfold CeremonyRepo.StorePreparedRequest in H; txn_inv end.
  match goal with H : CeremonyRepo.update_if _ _ _ _ _ = _ |- _ => apply update_if_Ok in H as [(-> & c1 & Hc1 & _ & ->)|(-> & _)]; [|done] end.
  cbn in Hc1. assert (c1 = c) as -> by congruence. cbn.
  destruct (Hs4 _ _ Hc) as [_ Hw]. assert (is_Some (CeremonyRepo.signed_by c)) as [signer Hsig].
  { unfold CeremonyRepo.signed_by. destruct (cm_presented c); [eauto|done]. }
  match goal with |- context [set_ceremonies (insert _ (CeremonyRepo.with_consumed None (CeremonyRepo.with_request (Some ?r) c)))] =>
    set (request := r); set (c' := CeremonyRepo.with_consumed None (CeremonyRepo.with_request (Some request) c)) end.
  assert (∀ t : SStore, ceremonies (set_ceremonies (insert (CeremonyID cmd) c') t) !! CeremonyID cmd = Some c') as Hc2
    by (intros t; apply lookup_insert_eq).
  exists c', pinned. split; [apply Hc2|]. split; [exact Hpin|]. split; [done|]. split; intros e' Ht.
  - apply (published_endpoints _ c' request pinned signer e' _ (Hc2 _) eq_refl Hpin Hsig); [by subst|exact Ht].
  - apply (expired_endpoints _ c' request pinned signer e' _ (Hc2 _) eq_refl Hpin Hsig Ht).
Qed.
End published.

(** The verified ceremonies of the demonstration contract; one is published. *)
Definition verified_store : SStore :=
  match (_ ← ceremony_of party_a; ceremony_of "office") Store.demo_env signing_store with Ok (_, s) => s | Err _ => signing_store end.

Lemma verified_store_sound : sound verified_store.
Proof.
  unfold verified_store. pose proof (reach_initial signing_store eq_refl eq_refl) as R0.
  destruct ((_ ← ceremony_of party_a; ceremony_of "office") Store.demo_env signing_store) as [[id s]|] eqn:E.
  - apply txn_bind_Ok in E as (a & s1 & E1 & E2). pose proof (reachable_ceremony _ _ _ _ _ R0 E1) as R1.
    exact (inv_sound _ (reachable_invariant _ (reachable_ceremony _ _ _ _ _ R1 E2))).
  - exact (inv_sound _ (reachable_invariant _ R0)).
Qed.

Definition demo_config : SigningConfig :=
  {| request_signer := true; OID4VPClientID := "x509_san_dns:a.example"; PublicAPIBase := "https://a.example/api/";
     PIDDCQLQuery := demo_pid_query; DCQLQuery := demo_poa_query |}.
Definition demo_caller : Caller := {| ParticipantID := "Alice"; HolderDID_ := "did:key:alice"; UserRoles := JArr [] |}.

Lemma published_request_witness :
  ∃ res s', PublishSignatureRequest demo_config "uuid-0" None demo_caller Store.demo_env verified_store = (Ok res, s') ∧
    ∃ c pinned, ceremonies s' !! "uuid-0" = Some c ∧ cm_pinned c = Some pinned ∧ cm_ConsumedAt c = None.
Proof.
  assert (is_ok (PublishSignatureRequest demo_config "uuid-0" None demo_caller Store.demo_env verified_store).1 = true) as Hok
    by (vm_compute; reflexivity). revert Hok.
  destruct (PublishSignatureRequest demo_config "uuid-0" None demo_caller Store.demo_env verified_store) as [[res|] s'] eqn:E;
    intros Hok; [|discriminate Hok].
  exists res, s'. split; [reflexivity|].
  destruct (published_request_serves_the_prepared_document demo_config "uuid-0" None demo_caller Store.demo_env verified_store s' res
    verified_store_sound ltac:(discriminate) E) as (c & pinned & Hc & Hp & Hn & _).
  exists c, pinned. split; [exact Hc|]. split; [exact Hp|exact Hn].
Defined.
