(* ===== verification/Deployment.v ===== *)
(** Deploying a signed contract to its target system and hearing back from it:
    internal/contractworkflowengine/command/deploy.go and callback.go.

    The outbound call, the timestamp authority and the text encodings of Go's
    encoding/json and time packages are reached through [DeploymentServices]; the
    content hash and the receipt hash are SHA-256 (Sha256.v) over that text. *)
From S2P Require Import Prelude Json ContractState DidWeb Extrinsic Store Repos Sha256 Document.
Import GoStrings.

(** The execution-evidence receipt, its fields in the order they are encoded. *)
Record DeploymentReceiptPayload := {
  rc_CorrelationID : string;
  rc_PayloadHash : string;
  rc_ActivatedAt : string
}.

Class DeploymentServices := {
  (** [ContractTargetClient.DeployTo]; [None] is the nil client. *)
  DeployTo : option (string → json → result ());
  (** [ArchiveTimestampIssuer.TimestampBytes] when the issuer is enabled. *)
  TimestampBytes : option (bytes → result string);
  (** The compact encoding of [json.Encoder] without HTML escaping. *)
  Encode : json → string;
  (** [json.Marshal] of a receipt. *)
  Marshal : DeploymentReceiptPayload → string;
  Format_RFC3339Nano : Z → string
}.

(** ** deploy.go *)
Record DeployCmd := {
  DID : string;
  RequestedBy : string;
  LocalPeer : string;
  TargetIDOverride : string
}.

Record DeployResult := {
  r_DID : string;
  r_ContractVersion : Z;
  r_ContentHash : string;
  r_Timestamp : Z;
  r_CorrelationID : string;
  r_Payload : gmap string json;
  r_TargetID : string;
  r_TargetName : string
}.

Definition odrlRuleProperties : list string := ["odrl:permission"; "odrl:prohibition"; "odrl:obligation"].

(** [if v, ok := from[property]; ok { into[property] = v }]. *)
Definition copy_property (from : gmap string json) (into : gmap string json) (property : string) :
    gmap string json :=
  match from !! property with Some v => <[property := v]> into | None => into end.

Definition deploymentPolicy (contractDocument : gmap string json) (correlationID : string) : json :=
  let policy : gmap string json :=
    <["@id" := JStr (String.append "urn:uuid:deployment-policy-" correlationID)]>
    (<["@type" := JStr "odrl:Set"]> ∅) in
  match as_object (contractDocument !! "dcs:policies") with
  | None => JObj policy
  | Some policies =>
      JObj (foldl (copy_property policies) (copy_property policies policy "odrl:profile")
              odrlRuleProperties)
  end.

Definition nestedRuleProperties : list string := ["odrl:duty"; "odrl:consequence"].

(** [collectRuleIDs] over [ruleNodes]: a slot holds one node or an array of them. *)
Fixpoint collectRuleIDs (rules : json) : list string :=
  match rules with
  | JObj rule =>
      let nested := collectRuleIDs <$> rule in
      let id := TrimSpace (as_string (rule !! "@id")) in
      (if bool_decide (id = EmptyString) then [] else [id])
      ++ default [] (nested !! "odrl:duty") ++ default [] (nested !! "odrl:consequence")
  | JArr items =>
      concat (map (λ item, match item with JObj _ => collectRuleIDs item | _ => [] end) items)
  | _ => []
  end.

Definition deployedRuleIDs (contractDocument : gmap string json) : list string :=
  match as_object (contractDocument !! "dcs:policies") with
  | None => []
  | Some policies =>
      concat (map (λ property, default [] (collectRuleIDs <$> policies !! property)) odrlRuleProperties)
  end.

Definition signatureEvidence (required signedLocally : list string) (resp : option Responsible)
    (localPeer : string) (peerSig : option string) : SignatureEvidence :=
  {| Declared := required; SignedLocally := signedLocally;
     Parties := match resp with Some r => [Creator r; Counterparty r] | None => [] end;
     Extrinsic.LocalPeer := localPeer;
     PeerSigners := match peerSig with Some from => [from] | None => [] end |}.

(** The multi-signer gate. *)
Definition require_signatures (cmd : DeployCmd) (data : Contract) : Tx () :=
  match c_contract_data data with
  | Some doc =>
      if negb (IsNotNullValue (c_contract_data data)) then mret () else
      let required := RequiredSignatureFields doc in
      if bool_decide (required = []) then mret () else
      signedFields ← wrap "could not read signed signature fields"
        (ContractRepo.ReadSignedSignatureFieldNames (DID cmd));
      peerSig ← wrap "could not read the counterparty signature" (SyncRepo.GetSyncSignature (DID cmd));
      let missing := Unsigned (signatureEvidence required signedFields (c_responsible data)
                                 (LocalPeer cmd) peerSig) in
      refuse (negb (bool_decide (missing = []))) (Wrapf "unsigned signature fields" (Sentinel ErrSigningIncomplete))
  | None => mret ()
  end.

Definition target_of (cmd : DeployCmd) (data : Contract) : string :=
  let targetID := TrimSpace (TargetIDOverride cmd) in
  if bool_decide (targetID = EmptyString)
  then match c_target_id data with Some t => TrimSpace t | None => targetID end
  else targetID.

Definition payload_context : json :=
  JObj (<["dcs" := JStr "https://w3id.org/facis/dcs/ontology/v1#"]>
       (<["odrl" := JStr "http://www.w3.org/ns/odrl/2/"]> ∅)).

Section deploy.
Context `{DeploymentServices}.

Definition hashDeploymentPayload (payload : gmap string json) : string :=
  String.append "sha256:" (EncodeToString (Sum256 (of_string (Encode (JObj payload))))).

(** The payload without its hash. *)
Definition deployment_payload (cmd : DeployCmd) (version t : Z) (correlationID : string)
    (contractDocument : gmap string json) : gmap string json :=
  list_to_map
    [("@context", payload_context);
     ("@type", JStr "dcs:ContractDeployment");
     ("dcs:contractDid", JStr (DID cmd));
     ("dcs:contractVersion", jint version);
     ("dcs:timestamp", JStr (Format_RFC3339Nano t));
     ("dcs:correlationId", JStr correlationID);
     ("dcs:contractDocument", JObj contractDocument);
     ("odrl:policy", deploymentPolicy contractDocument correlationID)].

(** The first transaction: the gates, the payload and the record. *)
Definition dispatch (cmd : DeployCmd) : Tx (DeployResult * string) :=
  data ← wrap "could not read contract" (ContractRepo.ReadDataByDID (DID cmd));
  _ ← lift (ValidateTransition (c_state data) EventDeploy);
  _ ← require_signatures cmd data;
  contractDocument ← wrap "could not decode contract document"
    (lift (decodeDocumentData (c_contract_data data)));
  correlationID ← NewUUID;
  t ← now;
  let payload := deployment_payload cmd (c_contract_version data) t correlationID contractDocument in
  let contentHash := hashDeploymentPayload payload in
  let targetID := target_of cmd data in
  _ ← refuse (bool_decide (targetID = EmptyString)) (Sentinel ErrNoTargetDesignated);
  found ← wrap "could not read target system" (DeploymentRepo.ReadTarget targetID);
  match found with
  | None => throw (Wrapf targetID (Sentinel ErrTargetNotRegistered))
  | Some target =>
      _ ← refuse (negb (tg_enabled target)) (Wrapf (tg_name target) (Sentinel ErrTargetDisabled));
      _ ← wrap "could not store deployment record" (DeploymentRepo.CreateDeployment
            {| dp_did := DID cmd; dp_contract_version := c_contract_version data;
               dp_correlation_id := correlationID; dp_content_hash := contentHash;
               dp_target_id := Some (tg_id target); dp_target_url := Some (tg_url target);
               dp_status := "DISPATCHED"; dp_requested_by := RequestedBy cmd; dp_requested_at := t;
               dp_acknowledged_at := None; dp_receipt_hash := EmptyString;
               dp_tsa_token := EmptyString; dp_dispatch_error := EmptyString |});
      mret ({| r_DID := DID cmd; r_ContractVersion := c_contract_version data; r_ContentHash := contentHash;
               r_Timestamp := t; r_CorrelationID := correlationID;
               r_Payload := <["dcs:contentHash" := JStr contentHash]> payload;
               r_TargetID := tg_id target; r_TargetName := tg_name target |}, tg_url target)
  end.

(** The message of an error, for [dispatch_error]. *)
Fixpoint error_text (err : error) : string :=
  match err with
  | Sentinel _ => "sentinel"
  | Errorf msg | PgError msg | Panic msg => msg
  | Wrapf msg inner => String.append msg (String.append ": " (error_text inner))
  | ShreddedError kind id | TamperedError kind id _ => String.append kind (String.append " " id)
  end.

Definition recordDispatchFailure (correlationID : string) (cause : error) : Tx () :=
  DeploymentRepo.MarkDispatchFailed correlationID (error_text cause).

(** [Deployer.Handle]: the record is committed, then the target is called, and a
    failed call is recorded in a transaction of its own. *)
Definition Deployer_Handle (cmd : DeployCmd) (e : Env) (s : Store) : result DeployResult * Store :=
  match run (dispatch cmd) e s with
  | (Err err, s1) => (Err err, s1)
  | (Ok (res, url), s1) =>
      match DeployTo with
      | Some deploy =>
          match deploy url (JObj (r_Payload res)) with
          | Err cause => (Ok res, (run (recordDispatchFailure (r_CorrelationID res) cause) e s1).2)
          | Ok _ => (Ok res, s1)
          end
      | None => (Ok res, s1)
      end
  end.

End deploy.

(** ** callback.go *)
Record DeploymentCallbackCmd := {
  CallerClientID : string;
  CorrelationID : string;
  Status : string;
  Receipt : option DeploymentReceiptPayload;
  KPIMetric : string;
  KPIValue : string;
  KPIVerdict : string;
  KPIRule : string
}.

Definition authorizeCaller (deployment : ContractDeployment) (callerClientID : string) : Tx () :=
  let unauthorized := Sentinel ErrDeploymentCallbackUnauthorized in
  match dp_target_id deployment with
  | None => throw unauthorized
  | Some id =>
      _ ← refuse (bool_decide (TrimSpace id = EmptyString)) unauthorized;
      target ← wrap "could not read the target of deployment" (DeploymentRepo.ReadTarget id);
      match (t ← target; tg_oauth_client_id t) with
      | None => throw unauthorized
      | Some clientID =>
          refuse (negb (bool_decide (TrimSpace clientID = TrimSpace callerClientID))) unauthorized
      end
  end.

Definition KPIVerdictSatisfied : string := "satisfied".
Definition KPIVerdictViolated : string := "violated".
Definition KPIVerdictNotEvaluated : string := "not_evaluated".

Definition reportedVerdict (reported : string) : result string :=
  let v := TrimSpace reported in
  if bool_decide (v = EmptyString) then Ok KPIVerdictNotEvaluated
  else if bool_decide (v ∈ [KPIVerdictSatisfied; KPIVerdictViolated; KPIVerdictNotEvaluated]) then Ok v
  else Err (Wrapf "verdict" (Sentinel ErrKPIVerdictUnknown)).

Definition attributedRule (did : string) (cmd : DeploymentCallbackCmd) : Tx (option string) :=
  let rule := TrimSpace (KPIRule cmd) in
  if bool_decide (rule = EmptyString) then
    if negb (bool_decide (TrimSpace (KPIVerdict cmd) = EmptyString))
    then throw (Wrapf "verdict names no rule" (Sentinel ErrKPIRuleMissing))
    else mret None
  else
    contract ← wrap "could not read contract" (ContractRepo.ReadDataByDID did);
    _ ← refuse (negb (IsNotNullValue (c_contract_data contract)))
          (Errorf "could not resolve the reported rule: the contract holds no document");
    document ← wrap "could not decode contract document"
      (lift (Unmarshal_map (default JNull (c_contract_data contract))));
    _ ← refuse (negb (bool_decide (rule ∈ deployedRuleIDs document)))
          (Wrapf rule (Sentinel ErrKPIRuleUnknown));
    mret (Some rule).

Definition applyKPIReport (deployment : ContractDeployment) (cmd : DeploymentCallbackCmd) : Tx () :=
  verdict ← lift (reportedVerdict (KPIVerdict cmd));
  ruleID ← attributedRule (dp_did deployment) cmd;
  t ← now;
  wrap "could not store KPI report" (DeploymentRepo.CreateKPI
    {| k_did := dp_did deployment; k_correlation_id := Some (CorrelationID cmd);
       k_metric := KPIMetric cmd; k_value := KPIValue cmd; k_observed_at := t;
       k_verdict := verdict; k_rule_id := ruleID |}).

Section callback.
Context `{DeploymentServices}.

(** The receipt that is sealed: the reported fields, with the dispatched hash and
    the time of arrival for those the target left out. *)
Definition sealed_receipt (deployment : ContractDeployment) (cmd : DeploymentCallbackCmd) (t : Z) :
    DeploymentReceiptPayload :=
  let or_else (v d : string) := if bool_decide (v = EmptyString) then d else v in
  let hash := match Receipt cmd with
              | Some r => or_else (rc_PayloadHash r) (dp_content_hash deployment)
              | None => dp_content_hash deployment end in
  let at_ := match Receipt cmd with Some r => rc_ActivatedAt r | None => EmptyString end in
  {| rc_CorrelationID := CorrelationID cmd; rc_PayloadHash := hash;
     rc_ActivatedAt := or_else at_ (Format_RFC3339Nano t) |}.

Definition applyAcknowledgement (deployment : ContractDeployment) (cmd : DeploymentCallbackCmd) : Tx () :=
  activatedAt ← now;
  let receiptBytes := of_string (Marshal (sealed_receipt deployment cmd activatedAt)) in
  let receiptHash := String.append "sha256:" (EncodeToString (Sum256 receiptBytes)) in
  tsaToken ← match TimestampBytes with
             | Some stamp => wrap "could not timestamp execution-evidence receipt" (lift (stamp receiptBytes))
             | None => mret EmptyString
             end;
  _ ← wrap "could not acknowledge deployment"
    (DeploymentRepo.AcknowledgeDeployment (CorrelationID cmd) receiptHash tsaToken activatedAt);
  processData ← wrap "could not read contract" (ContractRepo.ReadProcessDataByDID (dp_did deployment));
  _ ← lift (ValidateTransition (c_state processData) EventDeploy);
  wrap "could not activate contract" (ContractRepo.UpdateState (dp_did deployment) Active).

Definition acknowledges (cmd : DeploymentCallbackCmd) : bool :=
  negb (bool_decide (TrimSpace (Status cmd) = EmptyString))
  || match Receipt cmd with Some _ => true | None => false end.

Definition reports_kpi (cmd : DeploymentCallbackCmd) : bool :=
  negb (bool_decide (TrimSpace (KPIMetric cmd) = EmptyString)).

Definition Callback_Handle (cmd : DeploymentCallbackCmd) : Tx () :=
  _ ← refuse (bool_decide (TrimSpace (CallerClientID cmd) = EmptyString))
        (Sentinel ErrDeploymentCallbackUnauthorized);
  found ← wrap "could not read deployment" (DeploymentRepo.FindDeploymentByCorrelationID (CorrelationID cmd));
  match found with
  | None => throw (Sentinel ErrDeploymentNotFound)
  | Some deployment =>
      _ ← authorizeCaller deployment (CallerClientID cmd);
      _ ← when (acknowledges cmd) (applyAcknowledgement deployment cmd);
      when (reports_kpi cmd) (applyKPIReport deployment cmd)
  end.

End callback.

(** ** Lemmas: deployment *)
Lemma deploy_states st : EventAllowed st EventDeploy = true ↔ st = Signed ∨ st = Active.
Proof. split; [destruct st; vm_compute; auto; discriminate|by intros [->| ->]]. Qed.

Lemma Unsigned_collected ev : Unsigned ev = [] ↔ AllSignaturesCollected ev = true.
Proof.
  unfold AllSignaturesCollected. rewrite bool_decide_eq_true. split; [by intros ->|].
  by intros ?%nil_length_inv.
Qed.

Lemma deploy_transition_Ok st evt u : ValidateTransition st evt = Ok u → EventAllowed st evt = true.
Proof. unfold ValidateTransition. by destruct (EventAllowed st evt). Qed.

(** The evidence the gate reads about a contract. *)
Definition evidence_of (cmd : DeployCmd) (s : Store) (row : Contract) (doc : json) : SignatureEvidence :=
  signatureEvidence (RequiredSignatureFields doc)
    (omap sg_field_name
      (rows_where (λ g, bool_decide (sg_contract_did g = DID cmd) && bool_decide (sg_status g = "SIGNED"))
         (signatures s)))
    (c_responsible row) (LocalPeer cmd) (sync_signatures s !! DID cmd).

(** The gate is the shared predicate over that evidence. *)
Lemma require_signatures_eq cmd data e s :
  require_signatures cmd data e s =
  match c_contract_data data with
  | Some doc =>
      if bool_decide (Unsigned (evidence_of cmd s data doc) = []) then Ok ((), s)
      else Err (Wrapf "unsigned signature fields" (Sentinel ErrSigningIncomplete))
  | None => Ok ((), s)
  end.
Proof.
  unfold require_signatures. destruct (c_contract_data data) as [doc|]; [|done].
  destruct (IsNotNullValue (Some doc)) eqn:En; simpl.
  - case_bool_decide as Hr.
    + unfold evidence_of. rewrite Hr. done.
    + unfold mbind, tx_bind. simpl. unfold evidence_of. by case_bool_decide.
  - destruct doc; try done.
Qed.

Lemma reads_require_signatures cmd data : reads (require_signatures cmd data).
Proof.
  intros e s u s'. rewrite require_signatures_eq. destruct (c_contract_data data); [|by intros [= <- <-]].
  case_bool_decide; [by intros [= <- <-]|done].
Qed.
#[export] Hint Resolve reads_require_signatures : tx.

Lemma deployment_payload_hash `{DeploymentServices} cmd v t id doc h :
  delete "dcs:contentHash" (<["dcs:contentHash" := h]> (deployment_payload cmd v t id doc)) =
  deployment_payload cmd v t id doc.
Proof. apply delete_insert_id. vm_compute. reflexivity. Qed.

(** ** Lemmas: the record of a dispatch *)
Lemma CreateDeployment_Ok d e s u s' :
  DeploymentRepo.CreateDeployment d e s = Ok (u, s') →
  (∀ r, r ∈ deployments s → dp_correlation_id r ≠ dp_correlation_id d) ∧
  s' = set_deployments (λ l, l ++ [d]) s.
Proof.
  unfold DeploymentRepo.CreateDeployment. intros HR. run_inv.
  split; [|done]. intros r Hr E.
  match goal with H : exists_where _ _ = false |- _ => rename H into Hex end.
  eapply exists_where_false in Hex; [|exact Hr]. by rewrite bool_decide_eq_true_2 in Hex.
Qed.

(** The record that [dispatch] appends. *)
Definition dispatched (cmd : DeployCmd) (e : Env) (row : Contract) (target : ContractTarget)
    (id hash status err : string) : ContractDeployment :=
  {| dp_did := DID cmd; dp_contract_version := c_contract_version row; dp_correlation_id := id;
     dp_content_hash := hash; dp_target_id := Some (tg_id target); dp_target_url := Some (tg_url target);
     dp_status := status; dp_requested_by := RequestedBy cmd; dp_requested_at := env_now e;
     dp_acknowledged_at := None; dp_receipt_hash := EmptyString; dp_tsa_token := EmptyString;
     dp_dispatch_error := err |}.

Lemma dispatch_Ok `{DeploymentServices} cmd e s res url s1 :
  dispatch cmd e s = Ok ((res, url), s1) →
  ∃ row target doc,
    contracts s !! DID cmd = Some row ∧
    EventAllowed (effective_state (env_now e) row) EventDeploy = true ∧
    require_signatures cmd (effective (env_now e) row) e s = Ok ((), s) ∧
    targets s !! target_of cmd (effective (env_now e) row) = Some target ∧ tg_enabled target = true ∧
    let id := uuid (next_uuid s) in
    let payload := deployment_payload cmd (c_contract_version row) (env_now e) id doc in
    r_CorrelationID res = id ∧ r_ContentHash res = hashDeploymentPayload payload ∧
    r_Payload res = <["dcs:contentHash" := JStr (r_ContentHash res)]> payload ∧
    url = tg_url target ∧ (∀ r, r ∈ deployments s → dp_correlation_id r ≠ id) ∧
    deployments s1 = deployments s ++
      [dispatched cmd e row target id (r_ContentHash res) "DISPATCHED" EmptyString] ∧
    contracts s1 = contracts s.
Proof.
  unfold dispatch. intros HR. run_inv.
  match goal with H : require_signatures _ _ _ _ = Ok (?u, _) |- _ => destruct u end.
  match goal with H : DeploymentRepo.ReadTarget _ _ _ = Ok (?f, _) |- _ =>
    apply gets_Ok in H as [-> _] end.
  match type of HR with context [match ?f with Some _ => _ | None => _ end] =>
    destruct f as [target|] eqn:Etarget end; [|done].
  run_inv.
  match goal with H : ValidateTransition _ _ = _ |- _ => apply deploy_transition_Ok in H end.
  match goal with H : DeploymentRepo.CreateDeployment _ _ _ = _ |- _ =>
    apply CreateDeployment_Ok in H as [Hfresh ->] end.
  match goal with H : contracts s !! DID cmd = Some ?r |- _ => exists r end.
  match goal with H : decodeDocumentData _ = Ok ?d |- _ => exists target, d end.
  match goal with H : (res, url) = _ |- _ => injection H as -> -> end.
  bool_to_prop. simpl in *. by split_and!.
Qed.

Lemma mark_failed `{DeploymentServices} cmd e s s1 row target id hash cause :
  (∀ r, r ∈ deployments s → dp_correlation_id r ≠ id) →
  deployments s1 = deployments s ++ [dispatched cmd e row target id hash "DISPATCHED" EmptyString] →
  let s2 := (run (recordDispatchFailure id cause) e s1).2 in
  deployments s2 = deployments s ++
    [dispatched cmd e row target id hash "DISPATCH_FAILED" (error_text cause)] ∧
  contracts s2 = contracts s1.
Proof.
  intros Hfresh E. split; [|done]. simpl. rewrite E. unfold update_where. rewrite map_app. f_equal.
  - apply update_where_none. intros x Hx. rewrite bool_decide_eq_false_2 by auto. done.
  - simpl. by rewrite !bool_decide_eq_true_2.
Qed.

(** The status a dispatch leaves: the outbound call decides. *)
Definition delivery `{DeploymentServices} (url : string) (payload : json) : string * string :=
  match DeployTo with
  | Some deploy =>
      match deploy url payload with
      | Ok _ => ("DISPATCHED", EmptyString)
      | Err cause => ("DISPATCH_FAILED", error_text cause)
      end
  | None => ("DISPATCHED", EmptyString)
  end.

(** C34: A deployment that succeeds is one of a contract that reads SIGNED or
    ACTIVE, whose declared signature fields are all signed (locally, or by the
    remote party they are named after), and whose designated or overridden target
    is registered and enabled.  It appends exactly one record, which keeps the
    target's address of that moment and is marked DISPATCH_FAILED precisely when
    the outbound call failed, changes no contract, and its content hash is the one
    the target recomputes from the payload without the hash. *)
Theorem deployment_is_gated_and_recorded `{DeploymentServices} (cmd : DeployCmd) (e : Env) (s s' : Store)
    (res : DeployResult) :
  Deployer_Handle cmd e s = (Ok res, s') →
  ∃ row target,
    contracts s !! DID cmd = Some row ∧ effective_state (env_now e) row ∈ [Signed; Active] ∧
    (∀ doc, c_contract_data row = Some doc →
       AllSignaturesCollected (evidence_of cmd s row doc) = true) ∧
    targets s !! target_of cmd row = Some target ∧ tg_enabled target = true ∧
    (let '(status, err) := delivery (tg_url target) (JObj (r_Payload res)) in
     deployments s' = deployments s ++
       [dispatched cmd e row target (r_CorrelationID res) (r_ContentHash res) status err]) ∧
    contracts s' = contracts s ∧
    hashDeploymentPayload (delete "dcs:contentHash" (r_Payload res)) = r_ContentHash res.
Proof.
  unfold Deployer_Handle, run. destruct (dispatch cmd e s) as [[[res0 url] s1]|] eqn:ED; [|done].
  apply dispatch_Ok in ED as (row & target & doc & Hrow & Hst & Hsig & Htg & Hen & Hid & Hhash & Hpay &
    -> & Hfresh & Hdep & Hcon). intros HR.
  assert (res0 = res) as ->.
  { destruct DeployTo as [deploy|]; [destruct (deploy _ _)|]; by injection HR. }
  exists row, target. split; [done|]. split; [by apply deploy_states in Hst as [->| ->]; set_solver|].
  split; [|split; [done|split; [done|]]].
  { intros d Hd. rewrite require_signatures_eq in Hsig. simpl in Hsig. rewrite Hd in Hsig.
    apply Unsigned_collected. by case_bool_decide. }
  split; [|split].
  - unfold delivery. rewrite <-Hid in Hfresh. rewrite <-Hid in Hdep.
    destruct DeployTo as [deploy|]; [destruct (deploy _ _) as [|cause]|]; injection HR as <-; try done.
    by apply (mark_failed cmd e s s1 row target _ _ cause).
  - destruct DeployTo as [deploy|]; [destruct (deploy _ _)|]; by injection HR as <-.
  - rewrite Hpay, deployment_payload_hash. done.
Qed.

(** A target that cannot be reached, no timestamp authority, and the encodings of
    one field each. *)
Definition demo_services : DeploymentServices :=
  {| DeployTo := Some (λ _ _, Err (Errorf "connection refused")); TimestampBytes := None;
     Encode := λ j, match j with JObj m => as_string (m !! "dcs:correlationId") | _ => EmptyString end;
     Marshal := rc_CorrelationID; Format_RFC3339Nano := λ t, pretty t |}.

Definition demo_target : ContractTarget :=
  {| tg_id := "t1"; tg_name := "ERP"; tg_url := "https://erp.example"; tg_enabled := true;
     tg_oauth_client_id := Some "client-t1" |}.

Definition demo_policies : json :=
  JObj (<["odrl:permission" := JArr [JObj (<["@id" := JStr "urn:rule:1"]> ∅)]]> ∅).

(** A signed contract with one declared signatory per party. *)
Definition demo_document : json :=
  JObj (<["dcs:signatureFields" := JArr
           [JObj (<["dcs:signatoryName" := JStr "did:web:a.example"]> ∅);
            JObj (<["dcs:signatoryName" := JStr "did:web:b.example"]> ∅)]]>
       (<["dcs:policies" := demo_policies]> ∅)).

Definition demo_deployable (peer : list (string * string)) : Store :=
  set_targets (λ _, <["t1" := demo_target]> ∅)
  (set_signatures (λ _, [bare_signature "did:c1" "did:key:alice" (Some "did:web:a.example") "SIGNED"])
  (set_sync_signatures (λ _, list_to_map peer)
  (demo_store (demo_contract "did:c1" Signed demo_document)))).

Definition demo_deploy : DeployCmd :=
  {| DID := "did:c1"; RequestedBy := "Org A"; LocalPeer := "did:web:a.example";
     TargetIDOverride := "t1" |}.

Lemma deployment_witness :
  let r := Deployer_Handle (H := demo_services) demo_deploy demo_env
             (demo_deployable [("did:c1", "did:web:b.example")]) in
  dp_status <$> deployments r.2 = ["DISPATCH_FAILED"] ∧
  AllSignaturesCollected (evidence_of demo_deploy (demo_deployable [("did:c1", "did:web:b.example")])
    (demo_contract "did:c1" Signed demo_document) demo_document) = true.
Proof.
  intros r.
  destruct (deployment_is_gated_and_recorded (H := demo_services) demo_deploy demo_env
    (demo_deployable [("did:c1", "did:web:b.example")]) r.2
    (match r.1 with Ok res => res | Err _ => {| r_DID := EmptyString; r_ContractVersion := 0;
       r_ContentHash := EmptyString; r_Timestamp := 0; r_CorrelationID := EmptyString; r_Payload := ∅; r_TargetID := EmptyString;
       r_TargetName := EmptyString |} end))
    as (row & target & Hrow & _ & Hsig & _ & _ & Hdep & _).
  - vm_compute. reflexivity.
  - assert (row = demo_contract "did:c1" Signed demo_document) as ->.
    { apply Some_inj. rewrite <-Hrow. reflexivity. }
    split; [|apply Hsig; reflexivity].
    clearbody r. simpl in Hdep. by rewrite Hdep.
Defined.

(** A half-signed contract is never deployed: when some declared signature
    field is neither signed locally nor evidenced by the remote party it is named
    after, the request is refused with the signing-incomplete error, nothing is
    stored and the target is not called. *)
Theorem half_signed_is_refused `{DeploymentServices} (cmd : DeployCmd) (e : Env) (s : Store)
    (row : Contract) (doc : json) :
  contracts s !! DID cmd = Some row → effective_state (env_now e) row ∈ [Signed; Active] →
  c_contract_data row = Some doc → AllSignaturesCollected (evidence_of cmd s row doc) = false →
  ∃ err, Deployer_Handle cmd e s = (Err err, s) ∧ errors_Is err ErrSigningIncomplete = true.
Proof.
  intros Hrow Hst Hdoc Hev.
  assert (Hal : EventAllowed (effective_state (env_now e) row) EventDeploy = true).
  { apply deploy_states. set_solver. }
  exists (Wrapf "unsigned signature fields" (Sentinel ErrSigningIncomplete)). split; [|done].
  unfold Deployer_Handle, run, dispatch, mbind, tx_bind, wrap, ContractRepo.ReadDataByDID, lift,
    ValidateTransition.
  rewrite Hrow. simpl. rewrite Hal, require_signatures_eq. simpl. rewrite Hdoc.
  case_bool_decide as HU; [|done]. apply Unsigned_collected in HU.
  change (evidence_of cmd s (effective (env_now e) row) doc) with (evidence_of cmd s row doc) in HU.
  congruence.
Qed.

Lemma half_signed_witness :
  ∃ err, Deployer_Handle (H := demo_services) demo_deploy demo_env (demo_deployable []) =
      (Err err, demo_deployable []) ∧ errors_Is err ErrSigningIncomplete = true.
Proof.
  apply (half_signed_is_refused (H := demo_services) demo_deploy demo_env (demo_deployable [])
    (demo_contract "did:c1" Signed demo_document) demo_document);
    [reflexivity|left|reflexivity|vm_compute; reflexivity].
Defined.

(** ** Lemmas: the callback *)

(** The deployment a callback is about and the credential it must come with. *)
Definition authorized (cmd : DeploymentCallbackCmd) (s : Store) (d : ContractDeployment) : Prop :=
  d ∈ deployments s ∧ dp_correlation_id d = CorrelationID cmd ∧
  ∃ id target client, dp_target_id d = Some id ∧ targets s !! id = Some target ∧
    tg_oauth_client_id target = Some client ∧ TrimSpace client = TrimSpace (CallerClientID cmd) ∧
    TrimSpace client ≠ EmptyString.

Lemma authorizeCaller_Ok d client e s u s' :
  authorizeCaller d client e s = Ok (u, s') →
  s' = s ∧ ∃ id target c, dp_target_id d = Some id ∧ targets s !! id = Some target ∧
    tg_oauth_client_id target = Some c ∧ TrimSpace c = TrimSpace client.
Proof.
  unfold authorizeCaller. destruct (dp_target_id d) as [id|]; [|done]. intros HR. run_inv.
  match goal with H : DeploymentRepo.ReadTarget _ _ _ = Ok (?f, _) |- _ =>
    apply gets_Ok in H as [-> _] end.
  destruct (targets s !! id) as [target|] eqn:Et; [|done]. simpl in HR.
  destruct (tg_oauth_client_id target) as [c|] eqn:Ec; [|done].
  apply refuse_Ok in HR as [Hr ->]. bool_to_prop. eauto 10.
Qed.

Lemma reads_attributedRule did cmd : reads (attributedRule did cmd).
Proof. unfold attributedRule. reads_tac. Qed.
#[export] Hint Resolve reads_attributedRule : tx.

Lemma callback_Ok `{DeploymentServices} cmd e s u s' :
  Callback_Handle cmd e s = Ok (u, s') →
  ∃ d s1 u1, authorized cmd s d ∧
    when (acknowledges cmd) (applyAcknowledgement d cmd) e s = Ok (u1, s1) ∧
    when (reports_kpi cmd) (applyKPIReport d cmd) e s1 = Ok (u, s').
Proof.
  unfold Callback_Handle. intros HR. run_inv.
  match goal with H : DeploymentRepo.FindDeploymentByCorrelationID _ _ _ = Ok (?f, _) |- _ =>
    apply gets_Ok in H as [-> _] end.
  destruct (List.find _ _) as [d|] eqn:Ef; [|done]. apply find_some in Ef as [Hin Hid].
  run_inv. match goal with H : authorizeCaller _ _ _ _ = _ |- _ =>
    apply authorizeCaller_Ok in H as (-> & id & target & c & Hid' & Htarget & Hclient & Htrim) end.
  bool_to_prop. do 3 eexists. split; [|eauto]. split; [by apply list_elem_of_In|]. split; [done|].
  exists id, target, c. rewrite Htrim. eauto.
Qed.

Lemma acknowledgement_Ok `{DeploymentServices} d cmd e s u s' :
  applyAcknowledgement d cmd e s = Ok (u, s') →
  (∃ row, contracts s !! dp_did d = Some row ∧ effective_state (env_now e) row ∈ [Signed; Active]) ∧
  column c_state s' = <[dp_did d := Active]> (column c_state s) ∧
  column c_contract_data s' = column c_contract_data s ∧
  elsewhere (dp_did d) s' = elsewhere (dp_did d) s ∧ kpis s' = kpis s ∧
  ∃ receipt tsa at_, deployments s' = update_where (λ r, bool_decide (dp_correlation_id r = CorrelationID cmd))
    (λ r, DeploymentRepo.with_status "ACKNOWLEDGED" receipt tsa (dp_dispatch_error r) (Some at_) r) (deployments s).
Proof.
  unfold applyAcknowledgement. intros HR. run_inv.
  match goal with H : match TimestampBytes with _ => _ end _ _ = Ok (?x, ?y) |- _ =>
    assert (y = s) as -> by (destruct TimestampBytes; [by apply wrap_Ok, lift_Ok in H as [_ ->]|
                               by apply ret_Ok in H as [_ ->]]); clear H end.
  match goal with H : DeploymentRepo.AcknowledgeDeployment _ _ _ _ _ _ = _ |- _ =>
    apply modify_Ok in H as -> end.
  match goal with H : ValidateTransition _ _ = _ |- _ => apply deploy_transition_Ok, deploy_states in H end.
  match goal with H : contracts _ !! dp_did d = Some ?r |- _ => rename H into Hrow, r into row end.
  simpl in *. split; [exists row; split; [done|set_solver]|].
  split; [|split; [|split; [|split]]].
  - by rewrite (UpdateState_column _ _ _ _ _ _ _ HR Hrow).
  - eapply (keeps_column_UpdateState c_contract_data) in HR; [done|by intros ? ? ? ?|done].
  - by apply keeps_elsewhere_update_row in HR.
  - eapply (keeps_UpdateState kpis) in HR; done.
  - eapply (keeps_UpdateState deployments) in HR; [|done..]. do 3 eexists. rewrite HR. reflexivity.
Qed.

Lemma kpi_Ok d cmd e s u s' :
  applyKPIReport d cmd e s = Ok (u, s') →
  ∃ k, kpis s' = kpis s ++ [k] ∧ contracts s' = contracts s ∧ deployments s' = deployments s ∧
    k_did k = dp_did d ∧ k_metric k = KPIMetric cmd ∧ k_value k = KPIValue cmd ∧
    reportedVerdict (KPIVerdict cmd) = Ok (k_verdict k) ∧
    attributedRule (dp_did d) cmd e s = Ok (k_rule_id k, s).
Proof.
  unfold applyKPIReport, DeploymentRepo.CreateKPI. intros HR. run_inv.
  eexists. simpl. split; [reflexivity|]. by split_and!.
Qed.

(** A deployment that was acknowledged. *)
Definition acknowledged (d d' : ContractDeployment) : Prop :=
  dp_status d' = "ACKNOWLEDGED" ∧ is_Some (dp_acknowledged_at d') ∧
  dp_did d' = dp_did d ∧ dp_contract_version d' = dp_contract_version d ∧
  dp_correlation_id d' = dp_correlation_id d ∧ dp_content_hash d' = dp_content_hash d ∧
  dp_target_id d' = dp_target_id d ∧ dp_dispatch_error d' = dp_dispatch_error d.

(** C35: A callback speaks for its own deployment only.  Whatever it changes, it was
    made with the credential of the target that very deployment was dispatched to
    and it changes no other contract and the row of no deployment under another
    correlation id.  A KPI report alone changes no contract and no deployment; an
    acknowledgement marks the deployments of its correlation id ACKNOWLEDGED,
    leaving what they were dispatched with, and moves exactly the deployed contract
    to ACTIVE, and only from a state that reads SIGNED or ACTIVE.  Any non-blank
    status counts as an acknowledgement, whatever it says. *)
Theorem callback_speaks_for_its_deployment `{DeploymentServices} (cmd : DeploymentCallbackCmd) (e : Env)
    (s s' : Store) :
  Callback_Handle cmd e s = Ok ((), s') →
  ∃ d, authorized cmd s d ∧ elsewhere (dp_did d) s' = elsewhere (dp_did d) s ∧
    Forall2 (λ x x', dp_correlation_id x ≠ CorrelationID cmd → x' = x) (deployments s) (deployments s') ∧
    (acknowledges cmd = false → contracts s' = contracts s ∧ deployments s' = deployments s) ∧
    (acknowledges cmd = true →
       Forall2 (λ x x', dp_correlation_id x = CorrelationID cmd → acknowledged x x') (deployments s) (deployments s') ∧
       (∃ row, contracts s !! dp_did d = Some row ∧ effective_state (env_now e) row ∈ [Signed; Active]) ∧
       column c_state s' = <[dp_did d := Active]> (column c_state s)).
Proof.
  intros (d & s1 & u1 & Hauth & H1 & H2)%callback_Ok. exists d. split; [done|].
  assert (Hk : contracts s' = contracts s1 ∧ deployments s' = deployments s1).
  { destruct (reports_kpi cmd); simpl in H2; [|by apply ret_Ok in H2 as [_ ->]].
    by apply kpi_Ok in H2 as (k & _ & -> & -> & _). }
  destruct Hk as [Hc Hd]. unfold elsewhere, column in *. rewrite Hc, Hd.
  destruct (acknowledges cmd); simpl in H1.
  - apply acknowledgement_Ok in H1 as (Hrow & Hcol & _ & Helse & _ & receipt & tsa & at_ & ->).
    split; [exact Helse|]. split; [|split; [done|]].
    + apply Forall2_fmap_r, Forall_Forall2_diag, Forall_forall. intros x _ Hx. by rewrite bool_decide_eq_false_2.
    + intros _. split; [|by split]. apply Forall2_fmap_r, Forall_Forall2_diag, Forall_forall. intros x _ Hx.
      rewrite bool_decide_eq_true_2 by done. by repeat split.
  - apply ret_Ok in H1 as [_ ->]. split; [done|]. split; [|split; [done|by intros]].
    by apply Forall_Forall2_diag, Forall_forall.
Qed.

Definition demo_deployed : Store :=
  set_deployments (λ _,
    [dispatched demo_deploy demo_env (demo_contract "did:c1" Signed demo_document) demo_target
       "corr-1" "sha256:00" "DISPATCHED" EmptyString]) (demo_deployable []).

(** A report of a failure, from the target's own client. *)
Definition demo_callback : DeploymentCallbackCmd :=
  {| CallerClientID := "client-t1"; CorrelationID := "corr-1"; Status := "FAILED"; Receipt := None;
     KPIMetric := "uptime"; KPIValue := "99.9"; KPIVerdict := "satisfied"; KPIRule := "urn:rule:1" |}.

Lemma callback_witness :
  let s' := (run (Callback_Handle (H := demo_services) demo_callback) demo_env demo_deployed).2 in
  ∃ d, authorized demo_callback demo_deployed d ∧
    column c_state s' = <[dp_did d := Active]> (column c_state demo_deployed).
Proof.
  intros s'.
  destruct (callback_speaks_for_its_deployment (H := demo_services) demo_callback demo_env
    demo_deployed s') as (d & Hauth & _ & _ & _ & Hack).
  - vm_compute. reflexivity.
  - exists d. split; [exact Hauth|]. apply Hack. vm_compute. reflexivity.
Defined.

Lemma reportedVerdict_Ok reported v :
  reportedVerdict reported = Ok v →
  (TrimSpace reported = EmptyString ∧ v = KPIVerdictNotEvaluated) ∨
  (v = TrimSpace reported ∧ v ∈ [KPIVerdictSatisfied; KPIVerdictViolated; KPIVerdictNotEvaluated]).
Proof.
  unfold reportedVerdict. case_bool_decide as H1; [intros [= <-]; by left|].
  case_bool_decide as H2; [|done]. intros [= <-]. by right.
Qed.

Lemma attributedRule_Ok did cmd e s r s1 :
  attributedRule did cmd e s = Ok (r, s1) →
  match r with
  | None => TrimSpace (KPIRule cmd) = EmptyString ∧ TrimSpace (KPIVerdict cmd) = EmptyString
  | Some rule => rule = TrimSpace (KPIRule cmd) ∧
      ∃ row doc, contracts s !! did = Some row ∧ c_contract_data row = Some (JObj doc) ∧
        rule ∈ deployedRuleIDs doc
  end.
Proof.
  unfold attributedRule. case_bool_decide as H1.
  - case_bool_decide as H2; simpl; [|done]. by intros [-> _]%ret_Ok.
  - intros HR. run_inv. split; [done|]. bool_to_prop. simpl in *.
    match goal with H : contracts _ !! did = Some ?r |- _ => exists r end.
    destruct (c_contract_data _) as [[| | | | |m]|]; try done. simpl in *. simplify_eq. eauto.
Qed.

(** Every stored KPI row is attributable: it is recorded verbatim for the
    contract of the acknowledged deployment, its verdict is one of the three that
    are defined, a verdict that was stated names a rule of that contract's own
    deployed policy, and only a silent report (no rule and no verdict, stored as
    not evaluated) names none. *)
Theorem kpi_rows_are_attributable `{DeploymentServices} (cmd : DeploymentCallbackCmd) (e : Env)
    (s s' : Store) :
  Callback_Handle cmd e s = Ok ((), s') → reports_kpi cmd = true →
  ∃ d k, authorized cmd s d ∧ kpis s' = kpis s ++ [k] ∧ k_did k = dp_did d ∧
    k_metric k = KPIMetric cmd ∧ k_value k = KPIValue cmd ∧
    k_verdict k ∈ [KPIVerdictSatisfied; KPIVerdictViolated; KPIVerdictNotEvaluated] ∧
    match k_rule_id k with
    | None => TrimSpace (KPIVerdict cmd) = EmptyString ∧ k_verdict k = KPIVerdictNotEvaluated
    | Some rule => rule = TrimSpace (KPIRule cmd) ∧
        ∃ row doc, contracts s !! dp_did d = Some row ∧ c_contract_data row = Some (JObj doc) ∧
          rule ∈ deployedRuleIDs doc
    end.
Proof.
  intros (d & s1 & u1 & Hauth & H1 & H2)%callback_Ok Hkpi. rewrite Hkpi in H2. simpl in H2.
  apply kpi_Ok in H2 as (k & Hk & _ & _ & Hdid & Hm & Hval & Hv & Hr).
  assert (Hs1 : kpis s1 = kpis s ∧ column c_contract_data s1 = column c_contract_data s).
  { destruct (acknowledges cmd); simpl in H1; [|by apply ret_Ok in H1 as [_ ->]].
    by apply acknowledgement_Ok in H1 as (_ & _ & ? & _ & ? & _). }
  destruct Hs1 as [Hks Hcol]. rewrite Hks in Hk.
  exists d, k. split; [done|]. split; [done|]. split; [done|]. split; [done|]. split; [done|].
  apply reportedVerdict_Ok in Hv. apply attributedRule_Ok in Hr.
  split; [destruct Hv as [[_ ->]|[_ ?]]; [set_solver|done]|].
  destruct (k_rule_id k) as [rule|].
  - destruct Hr as (-> & row & doc & Hrow & Hdoc & Hin). split; [done|].
    eapply column_row in Hrow as (row0 & Hrow0 & E); [|symmetry; exact Hcol].
    exists row0, doc. by rewrite E.
  - destruct Hr as [_ Hblank]. split; [done|]. destruct Hv as [[_ ->]|[-> Hin]]; [done|].
    rewrite Hblank in Hin. exfalso. by apply (bool_decide_pack _) in Hin.
Qed.

Lemma kpi_witness :
  let s' := (run (Callback_Handle (H := demo_services) demo_callback) demo_env demo_deployed).2 in
  ∃ d k, authorized demo_callback demo_deployed d ∧ kpis s' = [k] ∧ k_did k = dp_did d.
Proof.
  intros s'.
  destruct (kpi_rows_are_attributable (H := demo_services) demo_callback demo_env demo_deployed s')
    as (d & k & Hauth & Hk & Hd & _).
  - vm_compute. reflexivity.
  - vm_compute. reflexivity.
  - exists d, k. split; [exact Hauth|]. split; [exact Hk|exact Hd].
Defined.

Lemma copy_property_eq from into p : from !! p = None → copy_property from into p = into.
Proof. unfold copy_property. by intros ->. Qed.

Lemma copy_property_lookup from into p q :
  copy_property from into p !! q =
  if decide (p = q) then match from !! p with Some v => Some v | None => into !! q end else into !! q.
Proof.
  unfold copy_property. destruct (decide (p = q)) as [->|Hne].
  - destruct (from !! q); [apply lookup_insert_eq|done].
  - destruct (from !! p); [by apply lookup_insert_ne|done].
Qed.

(** The rules a verdict may name are exactly the rules that travelled: the rule
    identifiers of the contract document, nested duties and consequences included,
    are those found in the policy of the deployment envelope. *)
Theorem attribution_matches_the_envelope (doc : gmap string json) (correlationID : string) :
  deployedRuleIDs doc =
  deployedRuleIDs (<["dcs:policies" := deploymentPolicy doc correlationID]> ∅).
Proof.
  unfold deployedRuleIDs at 2. rewrite lookup_insert_eq. unfold deployedRuleIDs, deploymentPolicy.
  destruct (as_object (doc !! "dcs:policies")) as [policies|]; [|reflexivity]. simpl as_object.
  f_equal. apply map_ext_in. intros p Hp. f_equal. f_equal. cbn [foldl odrlRuleProperties].
  rewrite !copy_property_lookup.
  repeat (destruct Hp as [<-|Hp]); [..|done];
    repeat (rewrite decide_False by done || rewrite decide_True by done);
    by destruct (policies !! _) eqn:E.
Qed.
