(* ===== verification/Workflow.v ===== *)
(** The contract workflow engine as one machine: the commands of one instance, each
    run as its own transaction, and what they may do to the lifecycle states.

    A command that fails is rolled back ([run]); the deployer commits before it
    calls the target; a tick of the expiry job is a sequence of transactions.
    Applying a signature is not a command here (Signing.v): it is the only way
    into SIGNED, which the theorems below show of everything else. *)
From S2P Require Import Prelude Json ContractState Store Repos Document Validation Settlement Merging Negotiation Submit Decision Expiry Authoring Receive Signing Deployment.

Inductive Command :=
  | CCreate (cmd : Creator.CreateCmd)
  | CUpdate (cmd : Updater.UpdateCmd)
  | CRenew (cmd : Renewer.RenewCmd)
  | COffer (cmd : Offerer.OfferCmd)
  | CNegotiate (cmd : Negotiator.NegotiationCmd)
  | CAcceptOffer (cmd : OfferAcceptor.AcceptOfferCmd)
  | CAcceptNegotiation (cmd : NegotiationAcceptor.AcceptNegotiationCmd)
  | CRejectNegotiation (cmd : NegotiationRejector.RejectNegotiationCmd)
  | CSaveDraft (cmd : NegotiationDraft.SaveNegotiationDraftCmd)
  | CDeleteDraft (did savedBy : string) (userRoles : list string)
  | CReview (did reviewedBy : string)
  | CSubmit (cmd : SubmitCmd)
  | CApprove (cmd : Approver.ApproveCmd)
  | CReject (cmd : Rejecter.RejectCmd)
  | CWithdraw (cmd : Withdrawer.WithdrawCmd)
  | CTerminate (cmd : Terminator.TerminateCmd)
  | CRecordEvidence (cmd : EvidenceRecorder.RecordEvidenceCmd)
  | CReceive (cmd : PeerPdfReceiveCmd)
  | CRevoke (cmd : RevokeCmd)
  | CDeploy (cmd : DeployCmd)
  | CCallback (cmd : DeploymentCallbackCmd)
  | CExpire.

Section machine.
Context `{VAL : ContractValidation} `{DER : ContractDerivation} `{ART : ArtifactServices} `{DEP : DeploymentServices}.
Context (Parse_RFC3339 : string → result Z).

(** The store after a command. *)
Definition execute (c : Command) (e : Env) (s : Store) : Store :=
  match c with
  | CCreate cmd => (run (Creator.Handle cmd) e s).2
  | CUpdate cmd => (run (Updater.Handle cmd) e s).2
  | CRenew cmd => (run (Renewer.Handle cmd) e s).2
  | COffer cmd => (run (Offerer.Handle cmd) e s).2
  | CNegotiate cmd => (run (Negotiator.Handle cmd) e s).2
  | CAcceptOffer cmd => (run (OfferAcceptor.Handle cmd) e s).2
  | CAcceptNegotiation cmd => (run (NegotiationAcceptor.Handle cmd) e s).2
  | CRejectNegotiation cmd => (run (NegotiationRejector.Handle cmd) e s).2
  | CSaveDraft cmd => (run (NegotiationDraft.SaveHandle cmd) e s).2
  | CDeleteDraft did savedBy roles => (run (NegotiationDraft.DeleteHandle did savedBy roles) e s).2
  | CReview did reviewedBy => (run (Reviewer_Handle did reviewedBy) e s).2
  | CSubmit cmd => (run (Submit.Handle Parse_RFC3339 cmd) e s).2
  | CApprove cmd => (run (Approver.Handle cmd) e s).2
  | CReject cmd => (run (Rejecter.Handle cmd) e s).2
  | CWithdraw cmd => (run (Withdrawer.Handle cmd) e s).2
  | CTerminate cmd => (run (Terminator.Handle cmd) e s).2
  | CRecordEvidence cmd => (run (EvidenceRecorder.Handle cmd) e s).2
  | CReceive cmd => (run (Receive.Handle cmd) e s).2
  | CRevoke cmd => (run (Revoker_Handle cmd) e s).2
  | CDeploy cmd => (Deployer_Handle cmd e s).2
  | CCallback cmd => (run (Callback_Handle cmd) e s).2
  | CExpire => sweep e s
  end.

Fixpoint execute_all (l : list (Command * Env)) (s : Store) : Store :=
  match l with [] => s | (c, e) :: l' => execute_all l' (execute c e s) end.

(** The stored state of a contract, if it is stored. *)
Definition state_of (s : Store) (did : string) : option ContractState := c_state <$> contracts s !! did.

(** ** What a command may do to one contract *)

(** The event of the transition table a command raises on its contract. *)
Definition raises (c : Command) : option Event :=
  match c with
  | COffer _ => Some EventOffer
  | CNegotiate _ | CAcceptOffer _ => Some EventNegotiate
  | CSubmit _ => Some EventSubmit
  | CApprove _ => Some EventApprove
  | CReject _ => Some EventReject
  | CWithdraw _ => Some EventWithdraw
  | CTerminate _ => Some EventTerminate
  | CRevoke _ => Some EventRevoke
  | CCallback _ => Some EventDeploy
  | _ => None
  end.

(** The contract whose state a command may move: the one it names; of a callback,
    the one the acknowledged deployment is of; of the expiry job, any. *)
Definition subject (c : Command) (s : Store) (did : string) : Prop :=
  match c with
  | CCreate cmd => did = Creator.DID cmd
  | CRenew cmd => did = Renewer.DID cmd
  | COffer cmd => did = Offerer.DID cmd
  | CNegotiate cmd => did = Negotiator.DID cmd
  | CAcceptOffer cmd => did = OfferAcceptor.DID cmd
  | CSubmit cmd => did = Submit.DID cmd
  | CApprove cmd => did = Approver.DID cmd
  | CReject cmd => did = Rejecter.DID cmd
  | CWithdraw cmd => did = Withdrawer.DID cmd
  | CTerminate cmd => did = Terminator.DID cmd
  | CReceive cmd => did = ContractIRI cmd
  | CRevoke cmd => did = Signing.DID cmd
  | CCallback cmd => ∃ d, d ∈ deployments s ∧ dp_correlation_id d = CorrelationID cmd ∧ dp_did d = did
  | CExpire => True
  | _ => False
  end.

(** The command is a shipment, one that does not declare a revocation or one that
    does. *)
Definition ships (c : Command) : Prop :=
  match c with CReceive cmd => AdoptRevoked cmd = false | _ => False end.
Definition peer_revokes (c : Command) : Prop :=
  match c with CReceive cmd => AdoptRevoked cmd = true | _ => False end.

(** What [c] may do to the state of its contract: nothing; give birth to it (DRAFT
    when it is created or renewed here, OFFERED or REVOKED when it is received);
    take an edge the table lists under the event [c] raises; EXPIRED, by the expiry
    job or a shipment, once the contract's date has passed; REVOKED, by a shipment
    that declares the counterparty's revocation. *)
Inductive Move (c : Command) (past_date : Prop) : option ContractState → option ContractState → Prop :=
  | move_stay x : Move c past_date x x
  | move_created cmd : c = CCreate cmd → Move c past_date None (Some Draft)
  | move_renewed cmd : c = CRenew cmd → Move c past_date None (Some Draft)
  | move_received : ships c → Move c past_date None (Some Offered)
  | move_received_revoked : peer_revokes c → Move c past_date None (Some Revoked)
  | move_edge a evt b : raises c = Some evt → Edge a evt b → Move c past_date (Some a) (Some b)
  | move_expire a : c = CExpire ∨ ships c → past_date → Move c past_date (Some a) (Some Expired)
  | move_peer_revokes a : peer_revokes c → Move c past_date (Some a) (Some Revoked).

(** The contract reads EXPIRED at the time of the command. *)
Definition past_date (e : Env) (s : Store) (did : string) : Prop :=
  ∃ row, contracts s !! did = Some row ∧ effective_state (env_now e) row = Expired.

Definition moves (c : Command) (e : Env) (s s' : Store) : Prop :=
  ∀ did, Move c (past_date e s did) (state_of s did) (state_of s' did) ∧
    (state_of s' did ≠ state_of s did → subject c s did).

Lemma state_of_column s did : state_of s did = column c_state s !! did.
Proof. unfold state_of, column. by rewrite lookup_fmap. Qed.

Lemma moves_same c e s s' : column c_state s' = column c_state s → moves c e s s'.
Proof. intros E did. rewrite !state_of_column, E. split; [constructor|done]. Qed.

Lemma moves_at c e s s' did new :
  column c_state s' = <[did := new]> (column c_state s) → subject c s did →
  Move c (past_date e s did) (state_of s did) (Some new) → moves c e s s'.
Proof.
  intros E Hs HM x. destruct (decide (x = did)) as [->|Hne].
  - rewrite (state_of_column s'), E, lookup_insert_eq. by split.
  - rewrite !state_of_column, E, lookup_insert_ne by done. split; [constructor|done].
Qed.

Lemma moves_edge c e s s' did evt :
  raises c = Some evt → subject c s did → state_moves did evt s s' → moves c e s s'.
Proof.
  intros Hevt Hs (row & new & Hrow & E & Hnew). eapply moves_at; [exact E|exact Hs|].
  unfold state_of. rewrite Hrow. simpl. destruct Hnew as [->|Hedge]; [constructor|by eapply move_edge].
Qed.

Lemma moves_enter c e s s' did : subject c s did → Move c (past_date e s did) None (Some Draft) →
  enters did Draft s s' → moves c e s s'.
Proof.
  intros Hs HM (Hnone & _ & Helse & row & Hrow & Hst & _) x. unfold state_of. destruct (decide (x = did)) as [->|Hne].
  - rewrite Hnone, Hrow. simpl. rewrite Hst. by split.
  - rewrite <-Helse. unfold elsewhere. rewrite lookup_delete_ne by done. split; [constructor|done].
Qed.

(** A transaction that is rolled back moves nothing. *)
Lemma moves_run {A} c (m : Tx A) e s :
  (∀ a s', m e s = Ok (a, s') → moves c e s s') → moves c e s (run m e s).2.
Proof.
  intros Hm. unfold run. destruct (m e s) as [[a s']|]; simpl; [by eapply Hm|by apply moves_same].
Qed.

Lemma moves_keeps {A} c (m : Tx A) e s : keeps (column c_state) m → moves c e s (run m e s).2.
Proof. intros K. apply moves_run. intros a s' HR. apply moves_same. by apply (K _ _ _ _ HR). Qed.

Lemma reads_checkNoParentCycle self proposed : reads (Updater.checkNoParentCycle self proposed).
Proof. intros e s u s'. unfold Updater.checkNoParentCycle. destruct (Updater.walk _ _ _ _ _ _) as [[]|]; naive_solver. Qed.

Lemma keeps_state_update cmd : keeps (column c_state) (Updater.Handle cmd).
Proof. pose proof reads_checkNoParentCycle. unfold Updater.Handle. keeps_tac. Qed.

Lemma receive_moves cmd e s u s' :
  Receive.Handle cmd e s = Ok (u, s') → moves (CReceive cmd) e s s'.
Proof.
  unfold Receive.Handle. intros HR. run_inv.
  match goal with H : ContractRepo.ReadProcessDataByDIDOrNil _ _ _ = _ |- _ =>
    apply gets_Ok in H as [-> _] end.
  match goal with H : match _ with Some _ => _ | None => _ end _ _ = Ok (?a, ?b) |- _ =>
    rename H into HC, a into st, b into s1 end.
  eapply (keeps_carry_over_column c_state) in HR; [|by intros ????].
  destruct (contracts s !! ContractIRI cmd) as [row|] eqn:Hrow; simpl in HC.
  - apply (refresh_states _ _ _ _ row) in HC as [-> Hcol]; [|done]. rewrite <-HR in Hcol.
    eapply moves_at; [exact Hcol|done|]. unfold state_of, landing_state. rewrite Hrow. simpl.
    destruct (AdoptRevoked cmd) eqn:Ead; [by apply move_peer_revokes|].
    destruct (decide (effective_state (env_now e) row = c_state row)) as [->|Hne]; [constructor|].
    assert (effective_state (env_now e) row = Expired) as HE.
    { unfold effective_state in *. destruct (c_exp_date row); [|done]. by destruct (_ && _). }
    rewrite HE. apply move_expire; [by right|by exists row].
  - apply create_states in HC as (_ & -> & Hcol). rewrite <-HR in Hcol.
    eapply moves_at; [exact Hcol|done|]. unfold state_of, landing_state. rewrite Hrow. simpl.
    destruct (AdoptRevoked cmd) eqn:Ead; [by apply move_received_revoked|by apply move_received].
Qed.

Lemma callback_moves cmd e s u s' : Callback_Handle cmd e s = Ok (u, s') → moves (CCallback cmd) e s s'.
Proof.
  intros (d & s1 & u1 & Hauth & H1 & H2)%callback_Ok.
  assert (E : column c_state s' = column c_state s1).
  { unfold column. destruct (reports_kpi cmd); simpl in H2; [|by apply ret_Ok in H2 as [_ ->]].
    by apply kpi_Ok in H2 as (k & _ & -> & _). }
  destruct (acknowledges cmd); simpl in H1; [|apply ret_Ok in H1 as [_ ->]; by apply moves_same].
  apply acknowledgement_Ok in H1 as ((row & Hrow & Hst) & Hcol & _). rewrite <-E in Hcol.
  eapply moves_at; [exact Hcol|exists d; by destruct Hauth as (? & ? & _)|]. unfold state_of. rewrite Hrow. simpl.
  eapply (move_edge _ _ _ EventDeploy); [done|]. apply (effective_edge (env_now e)).
  apply edge_b_iff. by repeat (apply elem_of_cons in Hst as [->|Hst]); [..|apply elem_of_nil in Hst].
Qed.

Lemma revoke_moves cmd e s u s' : Revoker_Handle cmd e s = Ok (u, s') → moves (CRevoke cmd) e s s'.
Proof.
  intros (row & Hrow & Hst & _ & _ & _ & Hcol & _)%revoke_Ok.
  eapply moves_at; [exact Hcol|done|]. unfold state_of. rewrite Hrow. simpl.
  eapply (move_edge _ _ _ EventRevoke); [done|]. apply edge_b_iff.
  by repeat (apply elem_of_cons in Hst as [->|Hst]); [..|apply elem_of_nil in Hst].
Qed.

Lemma deploy_moves cmd e s : moves (CDeploy cmd) e s (Deployer_Handle cmd e s).2.
Proof.
  apply moves_same. unfold Deployer_Handle, run.
  destruct (dispatch cmd e s) as [[[res url] s1]|] eqn:ED; [|done].
  apply dispatch_Ok in ED as (row & target & doc & _ & _ & _ & _ & _ & _ & _ & _ & _ & _ & _ & Hcon).
  unfold column. destruct DeployTo as [deploy|]; simpl; [destruct (deploy _ _); simpl|]; by rewrite Hcon.
Qed.

Lemma expire_moves e s : keyed s → moves CExpire e s (sweep e s).
Proof.
  intros HK did. split; [|done]. unfold state_of. destruct (contracts s !! did) as [c|] eqn:Hc.
  - pose proof (sweep_row e s did c HK Hc) as Hr.
    destruct (ContractRepo.is_expired (env_now e) c && known_policy c) eqn:Ex.
    + destruct Hr as (c' & -> & Hst). simpl. rewrite Hst. apply move_expire; [by left|].
      apply andb_true_iff in Ex as [Ex _]. exists c. split; [done|]. by apply is_expired_effective.
    + rewrite Hr. constructor.
  - pose proof (sweep_readings e s HK) as HR. apply (f_equal (.!! did)) in HR.
    unfold readings in HR. rewrite !lookup_fmap, Hc in HR.
    destruct (contracts (sweep e s) !! did); [done|]. constructor.
Qed.

(** ** Keys: every row is stored under its own DID *)
Lemma keyed_column s : keyed s ↔ ∀ did x, column c_did s !! did = Some x → x = did ∧ did ≠ EmptyString.
Proof.
  unfold keyed, column. split.
  - intros HK did x. rewrite lookup_fmap. destruct (contracts s !! did) as [c|] eqn:E; [|done].
    intros [= <-]. by apply HK.
  - intros HK did c E. apply HK. by rewrite lookup_fmap, E.
Qed.

Lemma keyed_same s s' : column c_did s' = column c_did s → keyed s → keyed s'.
Proof. rewrite !keyed_column. by intros ->. Qed.

Lemma keeps_did_Update d : keeps (column c_did) (ContractRepo.Update d).
Proof.
  apply keeps_column_Update; [by intros ????|]. intros f c. unfold ContractRepo.createQuery.
  destruct (_ && _); [done|]. by intros [= <-].
Qed.

#[local] Hint Resolve keeps_did_Update : tx.

Lemma reads_Merge did v : reads (MergeChangeRequests Parse_RFC3339 did v).
Proof. unfold MergeChangeRequests. reads_tac. Qed.
#[local] Hint Resolve reads_Merge reads_checkNoParentCycle : tx.

Lemma keeps_did_dispatch cmd : keeps (column c_did) (dispatch cmd).
Proof. unfold dispatch. keeps_tac. Qed.

Lemma keyed_enters did st s s' : enters did st s s' → keyed s → keyed s'.
Proof.
  intros (Hnone & Hdid & Helse & row & Hrow & _ & Hc) HK x c Hx.
  destruct (decide (x = did)) as [->|Hne]; [by assert (c = row) as -> by congruence|].
  apply HK. rewrite <-Helse. unfold elsewhere. by rewrite lookup_delete_ne.
Qed.

Definition keeps_keys (c : Command) : Prop := ∀ e s, keyed s → keyed (execute c e s).

Lemma run_keyed {A} (m : Tx A) e s : keeps (column c_did) m → keyed s → keyed (run m e s).2.
Proof.
  intros K. apply keyed_same. unfold run. destruct (m e s) as [[a s']|] eqn:E; [|done].
  by apply (K _ _ _ _ E).
Qed.

Lemma keyed_simple c :
  match c with CCreate _ | CRenew _ | CReceive _ | CExpire | CDeploy _ | CCallback _ => True
  | _ => keeps_keys c end.
Proof.
  destruct c; try exact I; intros e s; apply run_keyed.
  - unfold Updater.Handle. keeps_tac.
  - unfold Offerer.Handle. keeps_tac.
  - unfold Negotiator.Handle. keeps_tac.
  - unfold OfferAcceptor.Handle. keeps_tac.
  - unfold NegotiationAcceptor.Handle. keeps_tac.
  - unfold NegotiationRejector.Handle. keeps_tac.
  - unfold NegotiationDraft.SaveHandle. keeps_tac.
  - unfold NegotiationDraft.DeleteHandle. keeps_tac.
  - unfold Reviewer_Handle. keeps_tac.
  - unfold Submit.Handle, submit_branch, submit_draft_or_offered, submit_rejected, submit_negotiation,
      submit_submitted, submit_reviewed, merge_round, write_next_state, admit_draft,
      contractDataForSemanticValidation. keeps_tac.
  - unfold Approver.Handle, Approver.complete_approval. keeps_tac.
  - unfold Rejecter.Handle. keeps_tac.
  - unfold Withdrawer.Handle. keeps_tac.
  - unfold Terminator.Handle. keeps_tac.
  - unfold EvidenceRecorder.Handle. keeps_tac.
  - unfold Revoker_Handle, SigningRepo.UpdateState. keeps_tac. apply keeps_column_update_row; done.
Qed.

Lemma keyed_receive cmd e s : keyed s → keyed (run (Receive.Handle cmd) e s).2.
Proof.
  unfold run. destruct (Receive.Handle cmd e s) as [[u s']|] eqn:HR; simpl; [|done]. intros HK.
  unfold Receive.Handle in HR. run_inv.
  match goal with H : ContractRepo.ReadProcessDataByDIDOrNil _ _ _ = _ |- _ =>
    apply gets_Ok in H as [-> _] end.
  match goal with H : match _ with Some _ => _ | None => _ end _ _ = Ok (?a, ?b) |- _ =>
    rename H into HC, b into s1 end.
  eapply (keeps_carry_over_column c_did) in HR; [|by intros ????]. eapply keyed_same; [exact HR|].
  destruct (contracts s !! ContractIRI cmd) as [row|] eqn:Hrow; simpl in HC.
  - unfold refresh_copy in HC. run_inv.
    match goal with H : NegotiationTaskRepo.RollForward _ _ _ _ _ = _ |- _ =>
      apply RollForward_Ok in H as [_ E] end.
    match goal with H : ContractRepo.RemoteUpdate _ _ _ = _ |- _ =>
      eapply (keeps_column_update_row c_did) in H; [rename H into HU|by intros ????|done] end.
    eapply keyed_same; [|exact HK]. unfold column in *. by rewrite E.
  - unfold create_copy, ContractRepo.RemoteCreate in HC. run_inv.
    match goal with H : createReviewAndApprovalTasks _ _ _ _ _ = _ |- _ =>
      apply (keeps_createTasks contracts) in H; [rename H into E|done..] end.
    match goal with H : ContractRepo.insert_row _ _ _ = _ |- _ =>
      apply insert_row_Ok in H as (_ & Hne & ->) end.
    intros x c. rewrite E. simpl. intros [[<- <-]|[_ Hc]]%lookup_insert_Some; [done|by apply HK].
Qed.

Lemma keyed_sweep e s : keyed s → keyed (sweep e s).
Proof.
  unfold sweep. generalize (readExpiredContracts e s). intros l. revert s.
  induction l as [|c l IH]; intros s HK; [done|]. simpl. apply IH. apply run_keyed; [|done].
  unfold callExpirationLogic. keeps_tac.
Qed.

(** Every command keeps the rows under their own DIDs. *)
Lemma execute_keyed c e s : keyed s → keyed (execute c e s).
Proof.
  pose proof (keyed_simple c) as HS. destruct c; try exact (HS e s); simpl.
  - unfold run. destruct (Creator.Handle cmd e s) as [[u s']|] eqn:E; [|done].
    apply create_enters in E. by eapply keyed_enters.
  - unfold run. destruct (Renewer.Handle cmd e s) as [[u s']|] eqn:E; [|done].
    apply renew_enters in E. by eapply keyed_enters.
  - apply keyed_receive.
  - apply keyed_same. unfold Deployer_Handle, run.
    destruct (dispatch cmd e s) as [[[res url] s1]|] eqn:ED; [|done].
    apply keeps_did_dispatch in ED.
    destruct DeployTo as [deploy|]; simpl; [destruct (deploy _ _); simpl|]; exact ED.
  - apply run_keyed. unfold Callback_Handle, authorizeCaller, applyAcknowledgement, applyKPIReport. keeps_tac.
  - apply keyed_sweep.
Qed.

Lemma execute_moves c e s : keyed s → moves c e s (execute c e s).
Proof.
  intros HK. destruct c; simpl; try (apply moves_run; intros u s' HR).
  - eapply moves_enter; [reflexivity|by eapply move_created|by eapply create_enters].
  - apply moves_same. by apply keeps_state_update in HR.
  - eapply moves_enter; [reflexivity|by eapply move_renewed|by eapply renew_enters].
  - by eapply (moves_edge _ _ _ _ _ EventOffer); [| |eapply offer_moves].
  - by eapply (moves_edge _ _ _ _ _ EventNegotiate); [| |eapply negotiate_moves].
  - by eapply (moves_edge _ _ _ _ _ EventNegotiate); [| |eapply accept_offer_moves].
  - apply moves_same. unfold column. by apply accept_keeps_contracts in HR as ->.
  - apply moves_same. assert (K : keeps (column c_state) (NegotiationRejector.Handle cmd)).
    { unfold NegotiationRejector.Handle. keeps_tac. } by apply K in HR.
  - apply moves_same. assert (K : keeps (column c_state) (NegotiationDraft.SaveHandle cmd)).
    { unfold NegotiationDraft.SaveHandle. keeps_tac. } by apply K in HR.
  - apply moves_same. assert (K : keeps (column c_state) (NegotiationDraft.DeleteHandle did savedBy userRoles)).
    { unfold NegotiationDraft.DeleteHandle. keeps_tac. } by apply K in HR.
  - apply moves_same. assert (K : keeps (column c_state) (Reviewer_Handle did reviewedBy)).
    { unfold Reviewer_Handle. keeps_tac. } by apply K in HR.
  - by eapply (moves_edge _ _ _ _ _ EventSubmit); [| |eapply submit_moves].
  - by eapply (moves_edge _ _ _ _ _ EventApprove); [| |eapply approve_moves].
  - by eapply (moves_edge _ _ _ _ _ EventReject); [| |eapply reject_moves].
  - by eapply (moves_edge _ _ _ _ _ EventWithdraw); [| |eapply withdraw_moves].
  - by eapply (moves_edge _ _ _ _ _ EventTerminate); [| |eapply terminate_moves].
  - apply moves_same. unfold column. by apply record_evidence_keeps_contracts in HR as ->.
  - by eapply receive_moves.
  - by eapply revoke_moves.
  - apply deploy_moves.
  - by eapply callback_moves.
  - by apply expire_moves.
Qed.

(** ** What no sequence of commands can do *)
Lemma execute_all_ind (P : option ContractState → Prop) (ok : Command → Prop) did l s :
  (∀ past c x y, ok c → Move c (past ∧ ∀ a, x = Some a → a ≠ Terminated) x y → P x → P y) →
  keyed s → Forall (λ ce, ok ce.1) l → P (state_of s did) → P (state_of (execute_all l s) did).
Proof.
  intros HP. revert s. induction l as [|[c e] l IH]; intros s HK Hok Hs; [done|].
  apply Forall_cons in Hok as [Hc Hok]. simpl. apply IH; [by apply execute_keyed|done|].
  refine (HP _ c _ _ Hc _ Hs). destruct (execute_moves c e s HK did) as [HM _].
  inversion HM as [|cmd|cmd| | |a evt b ? ? Ea Eb|a Hc' Hp Ea Eb|a]; try (by constructor).
  - by eapply move_created.
  - by eapply move_renewed.
  - by eapply move_edge.
  - apply move_expire; [done|]. split; [exact Hp|]. destruct Hp as (row & Hrow & HE).
    intros a0 [= <-]. unfold state_of in Ea. rewrite Hrow in Ea. injection Ea as ->.
    intros HT. revert HE. unfold effective_state. rewrite HT. destruct (c_exp_date row); [|done].
    by rewrite andb_false_r.
Qed.

(** C1: Every command of the workflow engine, a failed one included, moves the
    stored state of the contract it names along an edge the published transition
    table lists under the event the command raises, or not at all, and moves the
    state of no other contract.  The only other moves are births (DRAFT when
    created or renewed, OFFERED or, with a declared revocation, REVOKED when
    received), EXPIRED by the expiry job or a shipment on a contract that already
    reads EXPIRED, and REVOKED when a shipment declares the counterparty's
    revocation.  No command raises the signing event. *)
Theorem workflow_refines_the_transition_table (c : Command) (e : Env) (s : Store) :
  keyed s → raises c ≠ Some EventSign ∧
  ∀ did, Move c (past_date e s did) (state_of s did) (state_of (execute c e s) did) ∧
    (state_of (execute c e s) did ≠ state_of s did → subject c s did).
Proof. intros HK. split; [by destruct c|]. by apply execute_moves. Qed.

(** C2: No sequence of workflow commands, at whatever times, brings a contract
    into SIGNED or ACTIVE that was not in one of them before: an agreement becomes
    binding only by applying a signature. *)
Theorem only_a_signature_binds (l : list (Command * Env)) (s : Store) (did : string) :
  keyed s → state_of s did ≠ Some Signed → state_of s did ≠ Some Active →
  state_of (execute_all l s) did ≠ Some Signed ∧ state_of (execute_all l s) did ≠ Some Active.
Proof.
  intros HK H1 H2.
  apply (execute_all_ind (λ x, x ≠ Some Signed ∧ x ≠ Some Active) (λ _, True)); [|done| |done].
  - intros past c x y _ HM [Hs Ha].
    inversion HM as [|cmd|cmd| | |a evt b Hevt Hedge Ea Eb|a Hc Hp Ea Eb|a Hp Ea Eb]; subst; try (split; congruence).
    assert (evt ≠ EventSign) by (intros ->; by destruct c).
    apply edge_b_iff in Hedge. destruct a, evt; try congruence; destruct b; vm_compute in Hedge; split; congruence.
  - apply Forall_forall. done.
Qed.


End machine.

(** ** Concrete runs *)
Definition demo_execute : Command → Env → Store → Store :=
  execute (VAL := lenient_validation) (DER := demo_derivation) (ART := demo_artifacts)
    (DEP := demo_services) (λ _, Err (Errorf "no date")).

Definition demo_signed_store : Store := demo_store (demo_contract "did:c1" Signed (JObj ∅)).

Definition demo_terminate : Command :=
  CTerminate {| Terminator.DID := "did:c1"; Terminator.TerminatedBy := "Org A"; Terminator.Reason := "breach";
                Terminator.UpdatedAt := 1785500000000000; Terminator.CauserDID := "did:web:a.example" |}.

Lemma workflow_witness :
  Move demo_terminate (past_date demo_env demo_signed_store "did:c1") (Some Signed) (Some Terminated).
Proof.
  refine (proj1 (proj2 (workflow_refines_the_transition_table (VAL := lenient_validation) (DER := demo_derivation)
    (ART := demo_artifacts) (DEP := demo_services) (λ _, Err (Errorf "no date")) demo_terminate demo_env
    demo_signed_store _) "did:c1")).
  by apply demo_keyed.
Defined.

Definition demo_runs : list (Command * Env) :=
  [(COffer {| Offerer.DID := "did:c1"; Offerer.UpdatedAt := 1785500000000000; Offerer.OfferedBy := "Org A";
              Offerer.UserRoles := [ContractCreator]; Offerer.CauserDID := "did:web:a.example" |}, demo_env);
   (CReceive (demo_shipment false), demo_env); (demo_terminate, demo_env); (CExpire, demo_env)].

Lemma only_a_signature_binds_witness :
  state_of (execute_all (VAL := lenient_validation) (DER := demo_derivation) (ART := demo_artifacts)
    (DEP := demo_services) (λ _, Err (Errorf "no date")) demo_runs
    (demo_store (demo_contract "did:c1" Draft (JObj ∅)))) "did:c1" ≠ Some Active.
Proof.
  refine (proj2 (only_a_signature_binds (VAL := lenient_validation) (DER := demo_derivation)
    (ART := demo_artifacts) (DEP := demo_services) (λ _, Err (Errorf "no date")) demo_runs
    (demo_store (demo_contract "did:c1" Draft (JObj ∅))) "did:c1" _ _ _)).
  - by apply demo_keyed.
  - done.
  - done.
Defined.


(** The exception is real: a shipment that declares a revocation takes a terminated
    contract to REVOKED. *)
Example a_peer_revocation_leaves_TERMINATED :
  state_of (demo_execute (CReceive (demo_shipment true)) demo_env
    (demo_store (demo_contract "did:c1" Terminated (JObj ∅)))) "did:c1" = Some Revoked.
Proof. vm_compute. reflexivity. Qed.
