(* ===== verification/OutboxJobs.v ===== *)
(** The tamper-evident audit trail: internal/base/event/outboxprocessor.go over
    internal/base/db/pq (postgresoutbox.go, postgresaudittrail.go) and
    internal/base/auditfilter.go.

    One state, [World]: the outbox, the trail's three tables, the IPFS objects and
    the stored checkpoints.  One definition per job tick.  What a tick cannot
    decide itself (clock, locks held by others, outcomes of network calls and
    commits, the order in which concurrent writers finish) is its [Tick] argument.
    A tick's concurrent chain writers run here one after the other, in the order
    [t_group_rank] gives: they touch different chains and different rows, and the
    batch is sorted again before it is committed. *)
From S2P Require Import Prelude Sha256 Merkle Scopes.
Import GoStrings.

(** ** Events, entries and rows *)
Definition ContractTemplateRepo := "CONTRACT_TEMPLATE_REPOSITORY".
Definition ContractWorkflowEngine := "CONTRACT_WORKFLOW_ENGINE".
Definition ContractStorageArchive := "CONTRACT_STORAGE_ARCHIVE".
Definition ProcessAuditAndCompliance := "PROCESS_AUDIT_AND_COMPLIANCE".
Definition SignatureManagement := "SIGNATURE_MANAGEMENT".
Definition TemplateCatalogueIntegration := "TEMPLATE_CATALOGUE_INTEGRATION".
Definition System := "SYSTEM".

Record OutboxEvent := {
  ID : Z;
  Component : string;
  EventType : string;
  EventData : bytes;
  DID : option string;
  CreatedAt : Z
}.

Record OutboxRow := {
  event : OutboxEvent;
  processed : bool;
  processed_at : option Z;
  published : bool;
  published_at : option Z;
  anchor_attempts : Z;
  (** The column holds the text of the error. *)
  anchor_error : option error;
  dead_lettered_at : option Z
}.

Record AuditLogEntry := {
  le_ID : Z;
  le_Component : string;
  le_EventType : string;
  le_EventData : bytes;
  le_DID : option string;
  le_CreatedAt : Z;
  le_ResLogPredCID : option string;
  le_CEKScopeKind : string;
  le_CEKScopeID : string;
  le_Nonce : string
}.

(** The text of a JSON object with the one member "erased", true. *)
Definition ErasedEventData : bytes := of_string "{" ++ [34] ++ of_string "erased" ++ [34] ++ of_string ":true}".

Definition IsErased (e : AuditLogEntry) : bool := bool_decide (le_EventData e = ErasedEventData).

Record AuditCheckpoint := {
  cp_Root : string;
  cp_PrevRoot : option string;
  cp_LeafHashes : list string;
  cp_LeafCIDs : list string;
  cp_CreatedAt : Z
}.

Record AuditCheckpointRecord := {
  r_Seq : Z;
  r_CID : string;
  r_Root : string;
  r_PrevRoot : option string;
  r_LeafCount : Z;
  r_TsaSignature : option string;
  r_CreatedAt : Z;
  r_TimestampedAt : option Z
}.

Record CheckpointLeaf := {
  checkpoint_seq : Z;
  idx : Z;
  entry_cid : string;
  leaf_hash : string
}.

Record chainKey := { component : string; did : string }.

#[export] Instance chainKey_eq_dec : EqDecision chainKey.
Proof. solve_decision. Defined.
#[export] Instance chainKey_countable : Countable chainKey :=
  inj_countable' (λ k, (component k, did k)) (λ p, {| component := p.1; did := p.2 |}) (λ '(Build_chainKey _ _), eq_refl).

Record World := {
  outbox : list OutboxRow;
  (** [audit_trail_log]: [UpdateLogCID] inserts a row only where none is, so a
      chain has one. *)
  logs : gmap chainKey (option string);
  checkpoints : list AuditCheckpointRecord;
  leaves : list CheckpointLeaf;
  next_seq : Z;
  ipfs : gmap string bytes;
  (** The artifacts stored under the instance scope, by CID. *)
  artifacts : gmap string bytes
}.

Definition set_outbox f (w : World) : World :=
  {| outbox := f (outbox w); logs := logs w; checkpoints := checkpoints w; leaves := leaves w;
     next_seq := next_seq w; ipfs := ipfs w; artifacts := artifacts w |}.
Definition set_logs f (w : World) : World :=
  {| outbox := outbox w; logs := f (logs w); checkpoints := checkpoints w; leaves := leaves w;
     next_seq := next_seq w; ipfs := ipfs w; artifacts := artifacts w |}.
Definition set_checkpoints f (w : World) : World :=
  {| outbox := outbox w; logs := logs w; checkpoints := f (checkpoints w); leaves := leaves w;
     next_seq := next_seq w; ipfs := ipfs w; artifacts := artifacts w |}.
Definition set_leaves f (w : World) : World :=
  {| outbox := outbox w; logs := logs w; checkpoints := checkpoints w; leaves := f (leaves w);
     next_seq := next_seq w; ipfs := ipfs w; artifacts := artifacts w |}.
Definition set_next_seq f (w : World) : World :=
  {| outbox := outbox w; logs := logs w; checkpoints := checkpoints w; leaves := leaves w;
     next_seq := f (next_seq w); ipfs := ipfs w; artifacts := artifacts w |}.
Definition set_ipfs f (w : World) : World :=
  {| outbox := outbox w; logs := logs w; checkpoints := checkpoints w; leaves := leaves w;
     next_seq := next_seq w; ipfs := f (ipfs w); artifacts := artifacts w |}.
Definition set_artifacts f (w : World) : World :=
  {| outbox := outbox w; logs := logs w; checkpoints := checkpoints w; leaves := leaves w;
     next_seq := next_seq w; ipfs := ipfs w; artifacts := f (artifacts w) |}.

(** ** Services *)

(** The code of the trail that lives elsewhere: the encodings, IPFS addressing
    and the time-stamp service. *)
Class AuditServices := {
  Marshal : AuditLogEntry → bytes;
  Unmarshal : bytes → option AuditLogEntry;
  (** [json.Marshal] of a byte slice, and back. *)
  MarshalBytes : bytes → bytes;
  UnmarshalBytes : bytes → option bytes;
  MarshalCheckpoint : AuditCheckpoint → bytes;
  UnmarshalCheckpoint : bytes → option AuditCheckpoint;
  (** The CID IPFS gives to a content. *)
  cid_of : bytes → string;
  (** [TSAClient.Verify] accepts the receipt for the root. *)
  Verify : string → string → bool;
  ownDID : string
}.

(** What the trail relies on: decoding inverts encoding, and IPFS addresses
    contents. *)
Class AuditServicesLaws `{AuditServices} := {
  Unmarshal_Marshal e : Unmarshal (Marshal e) = Some e;
  UnmarshalBytes_Marshal b : UnmarshalBytes (MarshalBytes b) = Some b;
  UnmarshalCheckpoint_Marshal c : UnmarshalCheckpoint (MarshalCheckpoint c) = Some c;
  cid_of_inj a b : cid_of a = cid_of b → a = b
}.

Inductive Encrypted := Sealed (ciphertext : bytes) | Shredded | EncryptFailed (cause : error).

(** What the environment of one tick decides. *)
Record Tick := {
  t_now : Z;
  (** Rows another transaction holds, which SKIP LOCKED leaves out. *)
  t_locked : Z → bool;
  (** The order of rows with the same creation time. *)
  t_rank : Z → Z;
  (** The order in which the groups of a batch are written. *)
  t_group_rank : chainKey → Z;
  (** 16 random bytes, as drawn for an event. *)
  t_rand : Z → option bytes;
  t_encrypt : Scope → bytes → Encrypted;
  (** [CreateFile] and the [FetchFile] that confirms it, per event. *)
  t_create : Z → bool;
  t_resolves : Z → bool;
  (** [Artifacts.Put] of the checkpoint, and the [FetchFile] that confirms it. *)
  t_put : option string;
  t_put_resolves : bool;
  t_timestamp : string → result string;
  (** [Publish] to the broker, per event. *)
  t_publish : Z → bool;
  (** Transactions that commit: per event for the small ones, and the tick's own. *)
  t_event_commit : Z → bool;
  t_commit : bool
}.

(** ** auditfilter.go *)
Definition IsAuditVisibleEventType (eventType : string) : bool :=
  let normalized := ToUpper (TrimSpace eventType) in
  if bool_decide (normalized = EmptyString) then true
  else negb (HasPrefix normalized "RETRIEVE_") && negb (HasPrefix normalized "SEARCH_").

(** ** postgresoutbox.go *)
Module OutboxRepo.

Definition has_id (id : Z) (r : OutboxRow) : bool := bool_decide (ID (event r) = id).

(** The row [PersistEvent] inserts; [id] and [createdAt] are column defaults. *)
Definition new_row (e : OutboxEvent) : OutboxRow :=
  {| event := e; processed := false; processed_at := None; published := false; published_at := None;
     anchor_attempts := 0; anchor_error := None; dead_lettered_at := None |}.

Definition PersistEvent (e : OutboxEvent) : World → World := set_outbox (λ l, l ++ [new_row e]).

Definition mark_processed (now : Z) (r : OutboxRow) : OutboxRow :=
  {| event := event r; processed := true; processed_at := Some now; published := published r;
     published_at := published_at r; anchor_attempts := anchor_attempts r; anchor_error := anchor_error r;
     dead_lettered_at := dead_lettered_at r |}.

Definition UpdateOutboxEvent (now id : Z) : World → World :=
  set_outbox (update_where (has_id id) (mark_processed now)).

Definition mark_published (now : Z) (r : OutboxRow) : OutboxRow :=
  {| event := event r; processed := processed r; processed_at := processed_at r; published := true;
     published_at := Some now; anchor_attempts := anchor_attempts r; anchor_error := anchor_error r;
     dead_lettered_at := dead_lettered_at r |}.

Definition MarkOutboxEventPublished (now id : Z) : World → World :=
  set_outbox (update_where (has_id id) (mark_published now)).

Definition count_failure (now maxAttempts : Z) (cause : error) (r : OutboxRow) : OutboxRow :=
  {| event := event r; processed := processed r; processed_at := processed_at r; published := published r;
     published_at := published_at r; anchor_attempts := anchor_attempts r + 1; anchor_error := Some cause;
     dead_lettered_at := if maxAttempts <=? anchor_attempts r + 1 then Some now else dead_lettered_at r |}.

Definition RecordOutboxAnchorFailure (now id : Z) (cause : error) (maxAttempts : Z) : World → World :=
  set_outbox (update_where (has_id id) (count_failure now maxAttempts cause)).

End OutboxRepo.

Definition OutboxAnchorMaxAttempts : Z := 50.
Definition AuditCheckpointReadLimit : nat := 500.

(** ** postgresaudittrail.go *)
Module AuditTrailRepo.

Definition UpdateLogCID (key : chainKey) (lastLogDID : option string) : World → World :=
  set_logs (λ m, <[key := lastLogDID]> m).

Definition ReadLogCID (w : World) (key : chainKey) : option string := default None (logs w !! key).

Definition ReadLogCIDs (w : World) (c : string) : list (option string) :=
  (map_to_list (filter (λ p, component p.1 = c) (logs w))).*2.

Definition AppendCheckpoint (now : Z) (cid root : string) (prevRoot : option string) (leafCount : Z)
    (tsaSignature : option string) (w : World) : Z * World :=
  let seq := next_seq w in
  (seq, set_next_seq (λ n, n + 1) (set_checkpoints (λ l, l ++
     [{| r_Seq := seq; r_CID := cid; r_Root := root; r_PrevRoot := prevRoot; r_LeafCount := leafCount;
         r_TsaSignature := tsaSignature; r_CreatedAt := now;
         r_TimestampedAt := match tsaSignature with None => None | Some _ => Some now end |}]) w)).

(** [ORDER BY seq DESC] of the table. *)
Definition newest_first (w : World) : list AuditCheckpointRecord :=
  order_by (λ r, - r_Seq r) (checkpoints w).

Definition ReadLatestCheckpoint (w : World) : option AuditCheckpointRecord := head (newest_first w).
Definition ReadLatestCheckpointRoot (w : World) : option string := r_Root <$> head (newest_first w).
Definition ReadCheckpoints (w : World) (limit : nat) : list AuditCheckpointRecord :=
  take limit (newest_first w).
Definition ReadCheckpointBySequence (w : World) (seq : Z) : option AuditCheckpointRecord :=
  head (rows_where (λ r, bool_decide (r_Seq r = seq)) (checkpoints w)).

Definition ReadCheckpointsAwaitingTimestamp (w : World) (limit : nat) : list AuditCheckpointRecord :=
  take limit (order_by r_Seq (rows_where (λ r, bool_decide (r_TsaSignature r = None)) (checkpoints w))).

Definition stamp (now : Z) (tsaSignature : string) (r : AuditCheckpointRecord) : AuditCheckpointRecord :=
  {| r_Seq := r_Seq r; r_CID := r_CID r; r_Root := r_Root r; r_PrevRoot := r_PrevRoot r;
     r_LeafCount := r_LeafCount r; r_TsaSignature := Some tsaSignature; r_CreatedAt := r_CreatedAt r;
     r_TimestampedAt := Some now |}.

Definition UpdateCheckpointTimestamp (now seq : Z) (tsaSignature : string) : World → World :=
  set_checkpoints (update_where
    (λ r, bool_decide (r_Seq r = seq) && bool_decide (r_TsaSignature r = None)) (stamp now tsaSignature)).

(** The rows of one checkpoint, numbered from [i]. *)
Fixpoint leaf_rows (seq i : Z) (entryCIDs leafHashes : list string) : list CheckpointLeaf :=
  match entryCIDs, leafHashes with
  | cid :: cids, hash :: hashes =>
      {| checkpoint_seq := seq; idx := i; entry_cid := cid; leaf_hash := hash |} :: leaf_rows seq (i + 1) cids hashes
  | _, _ => []
  end.

Definition AppendCheckpointLeaves (seq : Z) (entryCIDs leafHashes : list string) (w : World) : result World :=
  if negb (bool_decide (length entryCIDs = length leafHashes))
  then Err (Errorf "checkpoint leaves: CID and hash counts differ")
  else Ok (set_leaves (λ l, l ++ leaf_rows seq 0 entryCIDs leafHashes) w).

(** The outer option is the error of a missing checkpoint row. *)
Definition ReadCheckpointForEntry (w : World) (entryCID : string) :
    result (option (AuditCheckpointRecord * list string * Z)) :=
  match order_by checkpoint_seq (rows_where (λ l, bool_decide (entry_cid l = entryCID)) (leaves w)) with
  | [] => Ok None
  | located :: _ =>
      match ReadCheckpointBySequence w (checkpoint_seq located) with
      | None => Err (Errorf "sql: no rows in result set")
      | Some record =>
          let rows := rows_where (λ l, bool_decide (checkpoint_seq l = checkpoint_seq located)) (leaves w) in
          Ok (Some (record, leaf_hash <$> order_by idx rows, idx located))
      end
  end.

End AuditTrailRepo.
Import OutboxRepo AuditTrailRepo.

(** ** outboxprocessor.go *)
Section Processor.
Context `{AuditServices}.

Definition isResourceDID (d : option string) : bool :=
  match d with
  | None => false
  | Some s => (1 <? Z.of_nat (String.length s)) && negb (bool_decide (s = "*"))
  end.

(** The resource chain a component and a DID name. *)
Definition chain_key (c : string) (d : option string) : option chainKey :=
  match d with
  | None => None
  | Some s =>
      if isResourceDID d then Some {| component := c; did := s |}
      else if bool_decide (c = System) && (1 <? Z.of_nat (String.length s))
           then Some {| component := c; did := s |}
      else None
  end.

Definition chainKeyFor (e : OutboxEvent) : option chainKey := chain_key (Component e) (DID e).

Definition InstanceScope : Scope := {| s_Kind := KindInstance; s_ID := ownDID |}.

Definition erasureRecordEventTypes : list string := ["KEY_SHREDDED"; "DELETE_ARCHIVED_CONTRACT"].

Definition scopeForEvent (e : OutboxEvent) : Scope :=
  match DID e with
  | Some d =>
      if negb (isResourceDID (DID e)) || bool_decide (EventType e ∈ erasureRecordEventTypes) then InstanceScope
      else if bool_decide (Component e ∈ [ContractWorkflowEngine; SignatureManagement; ContractStorageArchive])
           then ContractScope d
      else if bool_decide (Component e ∈ [ContractTemplateRepo; TemplateCatalogueIntegration])
           then TemplateScope d
      else InstanceScope
  | None => InstanceScope
  end.

(** The body to store, and the scope to name on the entry. *)
Definition sealBody (t : Tick) (e : OutboxEvent) : result (bytes * string * string) :=
  let scope := scopeForEvent e in
  match t_encrypt t scope (EventData e) with
  | Sealed body => Ok (MarshalBytes body, kind_string (s_Kind scope), s_ID scope)
  | Shredded => Ok (ErasedEventData, EmptyString, EmptyString)
  | EncryptFailed cause => Err (Wrapf "could not encrypt the body of event" cause)
  end.

Record anchoredEntry := { eventID : Z; cid : string; leafHash : string }.

Definition entry_of (e : OutboxEvent) (predCID : option string) (body : bytes * string * string)
    (nonce : bytes) : AuditLogEntry :=
  {| le_ID := ID e; le_Component := Component e; le_EventType := EventType e; le_EventData := body.1.1;
     le_DID := DID e; le_CreatedAt := CreatedAt e; le_ResLogPredCID := predCID;
     le_CEKScopeKind := body.1.2; le_CEKScopeID := body.2; le_Nonce := EncodeToString nonce |}.

Definition writeEntry (t : Tick) (e : OutboxEvent) (predCID : option string) (w : World) :
    World * result anchoredEntry :=
  match t_rand t (ID e) with
  | None => (w, Err (Errorf "could not draw a blinding nonce for event"))
  | Some nonce =>
      match sealBody t e with
      | Err err => (w, Err err)
      | Ok body =>
          let raw := Marshal (entry_of e predCID body nonce) in
          if negb (t_create t (ID e)) then (w, Err (Errorf "could not create IPFS file for event"))
          else
            let w' := set_ipfs (λ m, <[cid_of raw := raw]> m) w in
            if negb (t_resolves t (ID e)) then (w', Err (Errorf "audit entry CID not resolvable after store"))
            else (w', Ok {| eventID := ID e; cid := cid_of raw; leafHash := MerkleLeafHash raw |})
      end
  end.

(** Its own transaction; a failure of it is only logged. *)
Definition recordAnchorFailure (t : Tick) (e : OutboxEvent) (cause : error) (w : World) : World :=
  if t_event_commit t (ID e)
  then RecordOutboxAnchorFailure (t_now t) (ID e) cause OutboxAnchorMaxAttempts w
  else w.

(** What the writers share: the world, the entries written and the touched
    chains' new heads. *)
Record Written := { written : World; anchored : list anchoredEntry; updatedHeads : gmap chainKey string }.

(** The writer of one chain: it stops at its first failure. *)
Fixpoint write_chain (t : Tick) (key : chainKey) (pred : option string) (chain : list OutboxEvent)
    (st : Written) : Written :=
  match chain with
  | [] => st
  | e :: rest =>
      match writeEntry t e pred (written st) with
      | (w, Err cause) =>
          {| written := recordAnchorFailure t e cause w; anchored := anchored st;
             updatedHeads := updatedHeads st |}
      | (w, Ok entry) =>
          write_chain t key (Some (cid entry)) rest
            {| written := w; anchored := anchored st ++ [entry];
               updatedHeads := <[key := cid entry]> (updatedHeads st) |}
      end
  end.

(** The writer of one event without a chain. *)
Definition write_unchained (t : Tick) (st : Written) (e : OutboxEvent) : Written :=
  match writeEntry t e None (written st) with
  | (w, Err cause) =>
      {| written := recordAnchorFailure t e cause w; anchored := anchored st; updatedHeads := updatedHeads st |}
  | (w, Ok entry) =>
      {| written := w; anchored := anchored st ++ [entry]; updatedHeads := updatedHeads st |}
  end.

(** [readChainHeads]: the heads at the start of the batch. *)
Definition readChainHeads (w : World) (key : chainKey) : option string := ReadLogCID w key.

Definition chain_of (key : chainKey) (events : list OutboxEvent) : list OutboxEvent :=
  rows_where (λ e, bool_decide (chainKeyFor e = Some key)) events.

Definition unchained_of (events : list OutboxEvent) : list OutboxEvent :=
  rows_where (λ e, bool_decide (chainKeyFor e = None)) events.

Definition touched_chains (t : Tick) (events : list OutboxEvent) : list chainKey :=
  order_by (t_group_rank t) (dedup_from [] (omap chainKeyFor events)).

Definition writeEntries (t : Tick) (events : list OutboxEvent) (w : World) : Written :=
  let chained := foldl (λ st key, write_chain t key (readChainHeads w key) (chain_of key events) st)
                   {| written := w; anchored := []; updatedHeads := ∅ |} (touched_chains t events) in
  foldl (write_unchained t) chained (unchained_of events).

Definition timestampRoot (t : Tick) (root : string) : result string :=
  receipt ← wrap_err "could not timestamp root" (t_timestamp t root);
  if Verify receipt root then Ok receipt else Err (Errorf "timestamp verification failed for root").

(** The transaction of [anchorBatch] after the checkpoint is stored at
    [checkpointCID].  A rollback gives everything back but the sequence number. *)
Definition commit_checkpoint (t : Tick) (checkpointCID root : string) (prevRoot : option string)
    (tsaSignature : option string) (batch : list anchoredEntry) (heads : gmap chainKey string)
    (w : World) : World * result () :=
  let '(seq, appended) := AppendCheckpoint (t_now t) checkpointCID root prevRoot
                            (Z.of_nat (length batch)) tsaSignature w in
  let rolled_back := set_next_seq (λ n, n + 1) w in
  match AppendCheckpointLeaves seq (cid <$> batch) (leafHash <$> batch) appended with
  | Err err => (rolled_back, Err (Wrapf "could not record the leaves of checkpoint" err))
  | Ok with_leaves =>
      let with_heads := map_fold (λ key c, UpdateLogCID key (Some c)) with_leaves heads in
      let done := foldl (λ w' id, UpdateOutboxEvent (t_now t) id w') with_heads (eventID <$> batch) in
      if t_commit t then (done, Ok ()) else (rolled_back, Err (Errorf "could not commit checkpoint"))
  end.

Definition anchorBatch (t : Tick) (events : list OutboxEvent) (w : World) : World * result () :=
  let st := writeEntries t events w in
  if bool_decide (anchored st = [])
  then (written st, Err (Errorf "no audit entry of this batch could be written, retrying next tick"))
  else
    let batch := order_by eventID (anchored st) in
    let prevRoot := ReadLatestCheckpointRoot (written st) in
    match MerkleRoot (leafHash <$> batch) with
    | Err err => (written st, Err (Wrapf "could not compute the checkpoint root" err))
    | Ok root =>
        let checkpoint := {| cp_Root := root; cp_PrevRoot := prevRoot; cp_LeafHashes := leafHash <$> batch;
                             cp_LeafCIDs := cid <$> batch; cp_CreatedAt := t_now t |} in
        match t_put t with
        | None => (written st, Err (Errorf "could not store checkpoint"))
        | Some checkpointCID =>
            let stored := set_artifacts (λ m, <[checkpointCID := MarshalCheckpoint checkpoint]> m) (written st) in
            if negb (t_put_resolves t) then (stored, Err (Errorf "checkpoint CID not resolvable after store"))
            else
              let tsaSignature := match timestampRoot t root with Ok s => Some s | Err _ => None end in
              commit_checkpoint t checkpointCID root prevRoot tsaSignature batch (updatedHeads st) stored
        end
    end.

(** [processUnanchoredEvent], whose failure the caller only logs. *)
Definition processUnanchoredEvent (t : Tick) (w : World) (e : OutboxEvent) : World :=
  if t_event_commit t (ID e) then UpdateOutboxEvent (t_now t) (ID e) w else w.

(** A backlog query: [ORDER BY created_at LIMIT n FOR UPDATE SKIP LOCKED]. *)
Definition backlog (t : Tick) (pending : OutboxRow → bool) (limit : nat) (w : World) : list OutboxEvent :=
  take limit (order_by CreatedAt (order_by (λ e, t_rank t (ID e))
    (event <$> rows_where (λ r, pending r && negb (t_locked t (ID (event r)))) (outbox w)))).

Definition awaits_anchoring (r : OutboxRow) : bool :=
  negb (processed r) && bool_decide (dead_lettered_at r = None).

Definition processing_tick (t : Tick) (w : World) : World * result () :=
  let events := backlog t awaits_anchoring 100 w in
  let lookups := rows_where (λ e, negb (IsAuditVisibleEventType (EventType e))) events in
  let anchorable := rows_where (λ e, IsAuditVisibleEventType (EventType e)) events in
  let w' := foldl (processUnanchoredEvent t) w lookups in
  if bool_decide (anchorable = []) then (w', Ok ()) else anchorBatch t anchorable w'.

(** One tick of the publishing job, with the events handed to the broker.  An
    event the broker takes is on the wire even when the tick's transaction then
    fails. *)
Definition publishing_tick (t : Tick) (w : World) : World * list OutboxEvent :=
  let events := backlog t (λ r, negb (published r)) 200 w in
  let sent := rows_where (λ e, t_publish t (ID e)) events in
  (if t_commit t then foldl (λ w' e, MarkOutboxEventPublished (t_now t) (ID e) w') w sent else w, sent).

Fixpoint timestamp_all (t : Tick) (pending : list AuditCheckpointRecord) (w : World) : World * result () :=
  match pending with
  | [] => (w, Ok ())
  | checkpoint :: rest =>
      match timestampRoot t (r_Root checkpoint) with
      | Err err => (w, Err (Wrapf "could not timestamp checkpoint" err))
      | Ok signature =>
          if t_event_commit t (r_Seq checkpoint)
          then timestamp_all t rest (UpdateCheckpointTimestamp (t_now t) (r_Seq checkpoint) signature w)
          else (w, Err (Errorf "could not store the timestamp of checkpoint"))
      end
  end.

Definition timestamping_tick (t : Tick) (w : World) : World * result () :=
  timestamp_all t (ReadCheckpointsAwaitingTimestamp w 50) w.

End Processor.
