(* ===== verification/AuditTrail.v ===== *)
(** Reading the audit trail (internal/base/audittrail.go and
    internal/processauditandcompliance/query/querycheckpoint.go), and what every
    run of the outbox jobs guarantees to its readers.

    [step] interleaves the commands that append events with ticks of the three
    jobs, each in an arbitrary environment; the theorems are about every reachable
    [World].  The walk along a resource's chain is a loop of the source without a
    bound: here it takes fuel, and one step per anchored entry is enough. *)
From S2P Require Import Prelude Sha256 Merkle Scopes OutboxJobs.
Import OutboxRepo AuditTrailRepo.

(** ** audittrail.go *)

(** [Artifacts.Decrypt] at the time of the read. *)
Inductive Decrypted := Plain (plaintext : bytes) | Gone | DecryptFailed (cause : error).

Section Readers.
Context `{AuditServices} (decrypt : Scope → bytes → Decrypted).

Definition with_body (e : AuditLogEntry) (body : bytes) : AuditLogEntry :=
  {| le_ID := le_ID e; le_Component := le_Component e; le_EventType := le_EventType e;
     le_EventData := body; le_DID := le_DID e; le_CreatedAt := le_CreatedAt e;
     le_ResLogPredCID := le_ResLogPredCID e; le_CEKScopeKind := le_CEKScopeKind e;
     le_CEKScopeID := le_CEKScopeID e; le_Nonce := le_Nonce e |}.

Definition scope_named (kind id : string) : option Scope :=
  if bool_decide (kind = "contract") then Some {| s_Kind := KindContract; s_ID := id |}
  else if bool_decide (kind = "template") then Some {| s_Kind := KindTemplate; s_ID := id |}
  else if bool_decide (kind = "instance") then Some {| s_Kind := KindInstance; s_ID := id |}
  else None.

Definition openAuditLogEntry (data : bytes) : result AuditLogEntry :=
  match Unmarshal data with
  | None => Err (Errorf "unmarshal")
  | Some e =>
      if bool_decide (le_CEKScopeKind e = EmptyString) || bool_decide (le_EventData e = []) then Ok e else
      match UnmarshalBytes (le_EventData e) with
      | None => Err (Errorf "decode encrypted body of entry")
      | Some body =>
          match scope_named (le_CEKScopeKind e) (le_CEKScopeID e) with
          | None => Err (Errorf "decrypt body of entry")
          | Some scope =>
              match decrypt scope body with
              | Plain plaintext => Ok (with_body e plaintext)
              | Gone => Ok (with_body e ErasedEventData)
              | DecryptFailed cause => Err (Wrapf "decrypt body of entry" cause)
              end
          end
      end
  end.

Definition FetchFile (w : World) (c : string) : result bytes :=
  match ipfs w !! c with Some data => Ok data | None => Err (Errorf "DataIdentifier not found") end.

(** The walk from a head to the first entry of its chain; [None] while the loop
    is still running when the fuel is spent. *)
Fixpoint walk (fuel : nat) (w : World) (currentCID : string) : option (result (list AuditLogEntry)) :=
  match fuel with
  | O => None
  | S fuel' =>
      match (data ← wrap_err "read body" (FetchFile w currentCID);
             wrap_err "decode response" (openAuditLogEntry data)) with
      | Err err => Some (Err err)
      | Ok logEntry =>
          match le_ResLogPredCID logEntry with
          | None => Some (Ok [logEntry])
          | Some pred =>
              rest ← walk fuel' w pred;
              Some (logEntries ← rest; Ok (logEntry :: logEntries))
          end
      end
  end.

Definition ReadAuditLogEntriesByComponentAndDID (fuel : nat) (w : World) (key : chainKey) :
    option (result (list AuditLogEntry)) :=
  match ReadLogCID w key with
  | None => Some (Ok [])
  | Some c => walk fuel w c
  end.

(** The chains of a component are walked concurrently; the result does not
    depend on the interleaving, and the first error fails the read. *)
Fixpoint walk_all (fuel : nat) (w : World) (heads : list string) : option (result (list (list AuditLogEntry))) :=
  match heads with
  | [] => Some (Ok [])
  | headCID :: rest =>
      chain ← walk fuel w headCID;
      chains ← walk_all fuel w rest;
      Some (c ← chain; cs ← chains; Ok (c :: cs))
  end.

Definition ReadAuditLogEntriesByComponent (fuel : nat) (w : World) (c : string) :
    option (result (list (list AuditLogEntry))) :=
  walk_all fuel w (omap id (ReadLogCIDs w c)).

Fixpoint read_leaves (w : World) (cids : list string) : result (list AuditLogEntry) :=
  match cids with
  | [] => Ok []
  | c :: rest =>
      data ← wrap_err "read entry" (FetchFile w c);
      entry ← wrap_err "decode entry" (openAuditLogEntry data);
      entries ← read_leaves w rest;
      Ok (entry :: entries)
  end.

(** [Artifacts.Get] and the decoding of a stored checkpoint. *)
Definition read_checkpoint (w : World) (record : AuditCheckpointRecord) : result AuditCheckpoint :=
  match artifacts w !! r_CID record with
  | None => Err (Errorf "read checkpoint")
  | Some fetched =>
      match UnmarshalCheckpoint fetched with
      | None => Err (Errorf "decode checkpoint")
      | Some checkpoint => Ok checkpoint
      end
  end.

Fixpoint read_checkpoints (w : World) (records : list AuditCheckpointRecord) : result (list AuditLogEntry) :=
  match records with
  | [] => Ok []
  | record :: rest =>
      checkpoint ← read_checkpoint w record;
      entries ← read_leaves w (cp_LeafCIDs checkpoint);
      older ← read_checkpoints w rest;
      Ok (reverse entries ++ older)
  end.

Definition ReadAllAuditLogEntries (w : World) : result (list AuditLogEntry) :=
  read_checkpoints w (ReadCheckpoints w AuditCheckpointReadLimit).

End Readers.

(** ** querycheckpoint.go *)
Record CheckpointHead := {
  h_Seq : Z;
  h_Root : string;
  h_PrevRoot : option string;
  h_LeafCount : Z;
  h_CreatedAt : Z;
  h_TsaTimestamp : option string;
  h_TimestampedAt : option Z
}.

Record CheckpointProof := {
  p_EntryCID : string;
  p_LeafHash : string;
  p_LeafIndex : Z;
  p_Siblings : list string;
  p_Head : CheckpointHead
}.

Definition headOf (record : AuditCheckpointRecord) : CheckpointHead :=
  {| h_Seq := r_Seq record; h_Root := r_Root record; h_PrevRoot := r_PrevRoot record;
     h_LeafCount := r_LeafCount record; h_CreatedAt := r_CreatedAt record;
     h_TsaTimestamp := r_TsaSignature record; h_TimestampedAt := r_TimestampedAt record |}.

Definition Head (w : World) : option CheckpointHead := headOf <$> ReadLatestCheckpoint w.

Definition BySequence (w : World) (seq : Z) : option CheckpointHead := headOf <$> ReadCheckpointBySequence w seq.

Definition Proof_ (w : World) (entryCID : string) : result (option CheckpointProof) :=
  located ← wrap_err "could not locate the checkpoint of entry" (ReadCheckpointForEntry w entryCID);
  match located with
  | None => Ok None
  | Some (record, leafHashes, index) =>
      siblings ← wrap_err "could not build the inclusion proof for entry" (MerkleInclusionProof leafHashes index);
      match leafHashes !! Z.to_nat index with
      | None => Err (Panic "index out of range")
      | Some leaf =>
          if VerifyMerkleInclusion leaf siblings index (Z.of_nat (length leafHashes)) (r_Root record)
          then Ok (Some {| p_EntryCID := entryCID; p_LeafHash := leaf; p_LeafIndex := index;
                           p_Siblings := siblings; p_Head := headOf record |})
          else Err (Errorf "inclusion proof for entry does not reproduce the checkpoint's root")
      end
  end.

(** ** Runs *)
Section Runs.
Context `{AuditServices}.

(** A command appends an event; the id is a fresh one of the sequence. *)
Inductive step : World → World → Prop :=
  | step_persist e w :
      ID e ∉ (λ r, ID (event r)) <$> outbox w → step w (PersistEvent e w)
  | step_process t w :
      (** The store gives a new artifact a new CID. *)
      (∀ c, t_put t = Some c → artifacts w !! c = None) →
      step w (processing_tick t w).1
  | step_publish t w : step w (publishing_tick t w).1
  | step_timestamp t w : step w (timestamping_tick t w).1.

Definition empty_world : World :=
  {| outbox := []; logs := ∅; checkpoints := []; leaves := []; next_seq := 1; ipfs := ∅; artifacts := ∅ |}.

Inductive reachable : World → Prop :=
  | reachable_empty : reachable empty_world
  | reachable_step w w' : reachable w → step w w' → reachable w'.

End Runs.
