(* ===== verification/AuditLog.v ===== *)
(** The outbox jobs implement an append-only log of batches of entries.

    [represents w batches] relates a [World] to the log it stores: one checkpoint
    per batch, chained by its predecessor's root; one leaf row per entry; one
    stored object per entry; one backward chain per resource; and for every event
    that readers may see, one entry exactly when its outbox row is processed. *)
From S2P Require Import Prelude Sha256 Merkle Scopes OutboxJobs AuditTrail.
Import OutboxRepo AuditTrailRepo.

Section Log.
Context `{AuditServicesLaws}.

(** ** The log *)
Definition object (e : AuditLogEntry) : bytes := Marshal e.
Definition entry_id (e : AuditLogEntry) : string := cid_of (object e).
Definition entry_hash (e : AuditLogEntry) : string := MerkleLeafHash (object e).
Definition entry_key (e : AuditLogEntry) : option chainKey := chain_key (le_Component e) (le_DID e).

Definition is_stored (m : gmap string bytes) (e : AuditLogEntry) : Prop := m !! entry_id e = Some (object e).

(** Every object is found under its own address. *)
Definition addressed (m : gmap string bytes) : Prop := ∀ c data, m !! c = Some data → c = cid_of data.

(** The chain of a resource, from its newest entry back. *)
Inductive chain (m : gmap string bytes) : option string → list AuditLogEntry → Prop :=
  | chain_nil : chain m None []
  | chain_cons e L : is_stored m e → chain m (le_ResLogPredCID e) L → chain m (Some (entry_id e)) (e :: L).

Definition visible (r : OutboxRow) : bool := IsAuditVisibleEventType (EventType (event r)).
Definition row_id (r : OutboxRow) : Z := ID (event r).

(** The entry of an event: its header is the event's, its body sealed or erased. *)
Definition well_sealed (le : AuditLogEntry) : Prop :=
  le_CEKScopeKind le = EmptyString ∨
  ∃ body k, le_EventData le = MarshalBytes body ∧ le_CEKScopeKind le = kind_string k.

Definition entry_for (e : OutboxEvent) (le : AuditLogEntry) : Prop :=
  le_ID le = ID e ∧ le_Component le = Component e ∧ le_EventType le = EventType e ∧ le_DID le = DID e ∧
  le_CreatedAt le = CreatedAt e ∧ well_sealed le.

(** The attempts of a row stay within their budget, and exhausting it is what
    dead-letters the row. *)
Definition row_ok (r : OutboxRow) : Prop :=
  0 <= anchor_attempts r <= OutboxAnchorMaxAttempts ∧
  (is_Some (dead_lettered_at r) ↔ anchor_attempts r = OutboxAnchorMaxAttempts).

Definition batch_leaves (r : AuditCheckpointRecord) (b : list AuditLogEntry) : list CheckpointLeaf :=
  leaf_rows (r_Seq r) 0 (entry_id <$> b) (entry_hash <$> b).

Record committed (w : World) (r : AuditCheckpointRecord) (b : list AuditLogEntry) : Prop := {
  cm_root : MerkleRoot (entry_hash <$> b) = Ok (r_Root r);
  cm_count : r_LeafCount r = Z.of_nat (length b);
  cm_artifact : artifacts w !! r_CID r = Some (MarshalCheckpoint
    {| cp_Root := r_Root r; cp_PrevRoot := r_PrevRoot r; cp_LeafHashes := entry_hash <$> b;
       cp_LeafCIDs := entry_id <$> b; cp_CreatedAt := r_CreatedAt r |});
  cm_size : (length b <= 100)%nat;
  cm_timestamp : ∀ s, r_TsaSignature r = Some s → Verify s (r_Root r) = true
}.

(** Each checkpoint names the root of the one before it. *)
Fixpoint linked (prev : option string) (l : list AuditCheckpointRecord) : Prop :=
  match l with
  | [] => True
  | r :: l' => r_PrevRoot r = prev ∧ linked (Some (r_Root r)) l'
  end.

Record represents (w : World) (batches : list (list AuditLogEntry)) : Prop := {
  rp_ids : NoDup (row_id <$> outbox w);
  rp_rows : Forall row_ok (outbox w);
  rp_addressed : addressed (ipfs w);
  rp_stored : Forall (is_stored (ipfs w)) (concat batches);
  rp_checkpoints : Forall2 (committed w) (checkpoints w) batches;
  rp_linked : linked None (checkpoints w);
  rp_seqs : StronglySorted Z.lt (r_Seq <$> checkpoints w);
  rp_next : Forall (λ r, r_Seq r < next_seq w) (checkpoints w);
  rp_leaves : leaves w = concat (zip_with batch_leaves (checkpoints w) batches);
  rp_once : NoDup (le_ID <$> concat batches);
  rp_rows_of : ∀ r, r ∈ outbox w →
    (row_id r ∈ le_ID <$> concat batches ↔ processed r = true ∧ visible r = true);
  rp_entries : Forall (λ e, ∃ r, r ∈ outbox w ∧ entry_for (event r) e) (concat batches);
  rp_chains : ∀ key, ∃ L, chain (ipfs w) (ReadLogCID w key) L ∧
    L ≡ₚ rows_where (λ e, bool_decide (entry_key e = Some key)) (concat batches)
}.

(** ** Objects *)
Lemma addressed_insert m data : addressed m → addressed (<[cid_of data := data]> m).
Proof. intros Hm c d. rewrite lookup_insert_Some. intros [[<- <-]|[_ ?]]; [done|by apply Hm]. Qed.

(** Storing an object never displaces another one. *)
Lemma addressed_subseteq m data : addressed m → m ⊆ <[cid_of data := data]> m.
Proof.
  intros Hm. apply map_subseteq_spec. intros c d Hc. pose proof (Hm _ _ Hc) as ->.
  destruct (decide (cid_of data = cid_of d)) as [E|E].
  - apply cid_of_inj in E as ->. apply lookup_insert_eq.
  - by rewrite lookup_insert_ne.
Qed.

Lemma is_stored_mono m m' e : m ⊆ m' → is_stored m e → is_stored m' e.
Proof. unfold is_stored. intros Hm He. by eapply lookup_weaken. Qed.

Lemma chain_mono m m' h L : m ⊆ m' → chain m h L → chain m' h L.
Proof. intros Hm. induction 1; constructor; [by eapply is_stored_mono|done]. Qed.

(** ** Writing one entry *)
Definition anchors (le : AuditLogEntry) (a : anchoredEntry) : Prop :=
  eventID a = le_ID le ∧ cid a = entry_id le ∧ leafHash a = entry_hash le.

Definition put_object (data : bytes) (w : World) : World := set_ipfs (λ m, <[cid_of data := data]> m) w.

Lemma sealBody_Ok t e body le :
  sealBody t e = Ok body → le_EventData le = body.1.1 → le_CEKScopeKind le = body.1.2 → well_sealed le.
Proof.
  unfold sealBody, well_sealed. intros Hb -> ->. destruct (t_encrypt _ _ _); simplify_eq/=; [right; eauto|by left].
Qed.

Lemma writeEntry_Ok t e pred w w' a :
  writeEntry t e pred w = (w', Ok a) →
  ∃ le, w' = put_object (object le) w ∧ entry_for e le ∧ le_ResLogPredCID le = pred ∧ anchors le a.
Proof.
  unfold writeEntry. destruct (t_rand t (ID e)) as [nonce|]; [|done].
  destruct (sealBody t e) as [body|] eqn:Es; [|done].
  destruct (t_create t (ID e)); [|done]. destruct (t_resolves t (ID e)); [|done]. cbn [negb].
  intros [= <- <-]. exists (entry_of e pred body nonce). split; [done|]. split; [|done].
  do 5 (split; [done|]). eapply sealBody_Ok; [exact Es|done|done].
Qed.

Lemma writeEntry_Err t e pred w w' c :
  writeEntry t e pred w = (w', Err c) → w' = w ∨ ∃ data, w' = put_object data w.
Proof.
  unfold writeEntry. destruct (t_rand t (ID e)) as [nonce|]; [|intros [= <- _]; by left].
  destruct (sealBody t e) as [body|]; [|intros [= <- _]; by left].
  destruct (t_create t (ID e)); cbn [negb]; [|intros [= <- _]; by left].
  destruct (t_resolves t (ID e)); [done|]. intros [= <- _]. right. eauto.
Qed.

(** ** Failures of a batch *)
Definition apply_failures (t : Tick) (fails : list (Z * error)) (rows : list OutboxRow) : list OutboxRow :=
  foldl (λ l f, update_where (has_id f.1) (count_failure (t_now t) OutboxAnchorMaxAttempts f.2) l) rows fails.

(** A batch counts at most one failure for a row. *)
Lemma apply_failures_rows t fails rows :
  NoDup fails.*1 →
  Forall2 (λ r r', r' = r ∧ row_id r ∉ fails.*1 ∨
    row_id r ∈ fails.*1 ∧ ∃ c, r' = count_failure (t_now t) OutboxAnchorMaxAttempts c r)
    rows (apply_failures t fails rows).
Proof.
  revert rows. induction fails as [|[id c] fails IH]; intros rows; simpl.
  - intros _. induction rows; constructor; [|done]. left. split; [done|]. by apply not_elem_of_nil.
  - intros [Hid HND]%NoDup_cons. specialize (IH (update_where (has_id id) (count_failure (t_now t) OutboxAnchorMaxAttempts c) rows) HND).
    apply Forall2_same_length_lookup. split.
    { rewrite <-(Forall2_length _ _ _ IH). unfold update_where. by rewrite length_map. }
    intros i r r' Hr Hr'. destruct (Forall2_lookup_r _ _ _ _ _ IH Hr') as (r1 & Hr1 & Hcase).
    unfold update_where in Hr1. rewrite list_lookup_fmap, Hr in Hr1. simpl in Hr1. injection Hr1 as <-.
    unfold has_id, row_id in *. case_bool_decide as E; rewrite elem_of_cons.
    + right. split; [by left|]. destruct Hcase as [[-> _]|[Hin _]]; [by exists c|]. by rewrite <-E in Hid.
    + destruct Hcase as [[-> Hn]|[Hin [c' ->]]]; [left|right; eauto]. split; [done|]. intros [|]; done.
Qed.

Lemma apply_failures_app t f1 f2 rows :
  apply_failures t (f1 ++ f2) rows = apply_failures t f2 (apply_failures t f1 rows).
Proof. apply foldl_app. Qed.

(** ** Writing a batch *)

(** The head of a chain as its writer sees it. *)
Definition head_now (w0 : World) (st : Written) (key : chainKey) : option string :=
  match updatedHeads st !! key with Some c => Some c | None => ReadLogCID w0 key end.

(** What the writers of a batch that started in [w0] did for the events
    [handled] so far: the entries written and the failures counted. *)
Record wrote (t : Tick) (w0 : World) (handled : list OutboxEvent) (st : Written)
    (entries : list AuditLogEntry) (fails : list (Z * error)) : Prop := {
  wr_world : written st = set_outbox (apply_failures t fails) (set_ipfs (λ _, ipfs (written st)) w0);
  wr_addressed : addressed (ipfs (written st));
  wr_grows : ipfs w0 ⊆ ipfs (written st);
  wr_stored : Forall (is_stored (ipfs (written st))) entries;
  wr_anchors : Forall2 anchors entries (anchored st);
  wr_ids : (le_ID <$> entries) ++ fails.*1 ⊆+ ID <$> handled;
  wr_from : Forall (λ le, ∃ e, e ∈ handled ∧ entry_for e le) entries;
  wr_heads : ∀ key, is_Some (updatedHeads st !! key) → ∃ e, e ∈ handled ∧ chainKeyFor e = Some key;
  wr_chains : ∀ key L, chain (ipfs w0) (ReadLogCID w0 key) L →
    chain (ipfs (written st)) (head_now w0 st key)
      (rows_where (λ e, bool_decide (entry_key e = Some key)) (reverse entries) ++ L)
}.

(** A tick whose small transactions commit, so that every failure is counted. *)
Definition counts_failures (t : Tick) : Prop := ∀ id, t_event_commit t id = true.

Definition effort (entries : list AuditLogEntry) (fails : list (Z * error)) : nat :=
  (length entries + length fails)%nat.

Lemma entry_for_key e le : entry_for e le → entry_key le = chainKeyFor e.
Proof. intros (_ & Hc & _ & Hd & _). unfold entry_key, chainKeyFor. by rewrite Hc, Hd. Qed.

(** Passing an event by. *)
Lemma wrote_skip t w0 handled more st entries fails :
  wrote t w0 handled st entries fails → wrote t w0 (handled ++ more) st entries fails.
Proof.
  intros []. constructor; try done.
  - rewrite fmap_app. by apply submseteq_inserts_r.
  - eapply Forall_impl; [done|]. intros le (e & He & ?). exists e. split; [set_solver|done].
  - intros key Hk. destruct (wr_heads0 key Hk) as (e & He & ?). exists e. split; [set_solver|done].
Qed.

(** One more event, whatever became of it. *)
Lemma wrote_failure t w0 handled st entries fails e pred w' cause :
  wrote t w0 handled st entries fails →
  writeEntry t e pred (written st) = (w', Err cause) →
  ∃ fails', wrote t w0 (handled ++ [e])
      {| written := recordAnchorFailure t e cause w'; anchored := anchored st; updatedHeads := updatedHeads st |}
      entries fails' ∧
    (counts_failures t → (effort entries fails < effort entries fails')%nat) ∧
    (effort entries fails <= effort entries fails')%nat.
Proof.
  intros Hw Hwrite. destruct (wrote_skip _ _ _ [e] _ _ _ Hw) as [Eworld Haddr Hgrow Hst Han Hids Hfrom Hheads Hchains].
  set (w1 := written st) in *.
  assert (Hw' : w' = set_ipfs (λ _, ipfs w') w1 ∧ addressed (ipfs w') ∧ ipfs w1 ⊆ ipfs w').
  { destruct (writeEntry_Err _ _ _ _ _ _ Hwrite) as [->|[data ->]]; [by destruct w1|].
    split; [done|]. split; [by apply addressed_insert|by apply addressed_subseteq]. }
  destruct Hw' as (Ew' & Haddr' & Hgrow').
  assert (Hipfs : ipfs (recordAnchorFailure t e cause w') = ipfs w')
    by (unfold recordAnchorFailure; by destruct (t_event_commit _ _)).
  exists (if t_event_commit t (ID e) then fails ++ [(ID e, cause)] else fails). split.
  - constructor; cbn [written anchored updatedHeads]; rewrite ?Hipfs; try done.
    + unfold recordAnchorFailure. rewrite Ew', Eworld.
      destruct (t_event_commit t (ID e)); [|done]. cbn. unfold set_outbox, set_ipfs. cbn.
      by rewrite apply_failures_app.
    + by transitivity (ipfs w1).
    + eapply Forall_impl; [exact Hst|]. intros le. by apply is_stored_mono.
    + destruct (t_event_commit t (ID e)); [|exact Hids]. rewrite !fmap_app, app_assoc in *.
      apply submseteq_app; [|done]. by destruct Hw.
    + intros key L HL. eapply chain_mono; [done|]. by apply Hchains.
  - unfold effort. split; [intros Hc|]; [rewrite Hc|destruct (t_event_commit _ _)]; rewrite ?length_app; simpl; lia.
Qed.

Lemma wrote_entry t w0 handled st entries fails e pred w' a heads :
  wrote t w0 handled st entries fails →
  writeEntry t e pred (written st) = (w', Ok a) →
  match chainKeyFor e with
  | Some key => pred = head_now w0 st key ∧ heads = <[key := cid a]> (updatedHeads st)
  | None => heads = updatedHeads st
  end →
  ∃ le, wrote t w0 (handled ++ [e]) {| written := w'; anchored := anchored st ++ [a]; updatedHeads := heads |}
      (entries ++ [le]) fails ∧ entry_for e le ∧ cid a = entry_id le.
Proof.
  intros Hw Hwrite Hkey. destruct (writeEntry_Ok _ _ _ _ _ _ Hwrite) as (le & -> & Hfor & Hpred & Hanch).
  pose proof (wr_ids _ _ _ _ _ _ Hw) as Hids0.
  destruct (wrote_skip _ _ _ [e] _ _ _ Hw) as [Eworld Haddr Hgrow Hst Han Hids Hfrom Hheads Hchains].
  set (w1 := written st) in *. pose proof (addressed_subseteq _ (object le) Haddr) as Hsub.
  assert (Hstored : is_stored (ipfs (put_object (object le) w1)) le) by apply lookup_insert_eq.
  exists le. split; [|by destruct Hanch as (_ & ? & _)]. constructor; cbn [written anchored updatedHeads].
  - rewrite Eworld at 1. done.
  - by apply addressed_insert.
  - by transitivity (ipfs w1).
  - apply Forall_app. split; [|by constructor]. eapply Forall_impl; [exact Hst|]. intros ?. by apply is_stored_mono.
  - by apply Forall2_app; [|constructor].
  - destruct Hfor as (Eid & _). rewrite !fmap_app. simpl. rewrite Eid, <-app_assoc, (Permutation_app_comm [ID e]), app_assoc.
    apply submseteq_app; [exact Hids0|done].
  - apply Forall_app. split; [done|]. constructor; [|done]. exists e. split; [set_solver|done].
  - intros key Hk. destruct (chainKeyFor e) as [k|] eqn:Ek; [|subst heads; by apply Hheads].
    destruct Hkey as [_ ->]. apply lookup_insert_is_Some in Hk as [->|[_ Hk]]; [|by apply Hheads].
    exists e. split; [set_solver|done].
  - intros key L HL. specialize (Hchains key L HL). rewrite reverse_snoc. unfold rows_where.
    apply entry_for_key in Hfor as Elk. rewrite filter_cons, Elk.
    destruct (chainKeyFor e) as [k|] eqn:Ek.
    + destruct Hkey as [-> ->]. unfold head_now. cbn [updatedHeads]. destruct (decide (k = key)) as [->|Hne].
      * rewrite lookup_insert_eq, decide_True by (by apply bool_decide_eq_true).
        destruct Hanch as (_ & -> & _). simpl. constructor; [done|].
        rewrite Hpred. by eapply chain_mono.
      * rewrite lookup_insert_ne, decide_False by (by rewrite ?bool_decide_eq_true; congruence).
        by eapply chain_mono.
    + subst heads. rewrite decide_False by (by rewrite bool_decide_eq_true). by eapply chain_mono.
Qed.

(** Progress: every event handled by a tick that counts its failures is either
    anchored or counted, up to the first failure of its chain. *)
Definition wrote_on (t : Tick) (w0 : World) (handled : list OutboxEvent) (st : Written) (before : nat)
    (some : Prop) : Prop :=
  ∃ entries fails, wrote t w0 handled st entries fails ∧ (before <= effort entries fails)%nat ∧
    (counts_failures t → some → (before < effort entries fails)%nat).

Lemma write_chain_wrote t w0 key chain : ∀ pred handled st entries fails,
  wrote t w0 handled st entries fails → pred = head_now w0 st key →
  Forall (λ e, chainKeyFor e = Some key) chain →
  wrote_on t w0 (handled ++ chain) (write_chain t key pred chain st) (effort entries fails) (chain ≠ []).
Proof.
  induction chain as [|e chain IH]; intros pred handled st entries fails Hw Hpred Hkeys; cbn [write_chain].
  { exists entries, fails. rewrite app_nil_r. split; [done|]. split; [done|]. by intros _ []. }
  inversion Hkeys as [|? ? He Hrest]; subst. rewrite cons_middle, app_assoc.
  destruct (writeEntry t e _ (written st)) as [w' [a|cause]] eqn:Ewrite.
  - destruct (wrote_entry _ _ _ _ _ _ _ _ _ _ (<[key := cid a]> (updatedHeads st)) Hw Ewrite) as (le & Hw' & _ & _);
      [by rewrite He|].
    destruct (IH (Some (cid a)) _ _ _ _ Hw') as (es & fs & Hd & Hle & _); [|done|].
    { unfold head_now. cbn [updatedHeads]. by rewrite lookup_insert_eq. }
    exists es, fs. split; [done|]. unfold effort in *. rewrite length_app in Hle. simpl in Hle. split; intros; lia.
  - destruct (wrote_failure _ _ _ _ _ _ _ _ _ _ Hw Ewrite) as (fs & Hd & Hlt & Hle).
    exists entries, fs. split; [by apply wrote_skip|]. split; [done|]. auto.
Qed.

Lemma write_unchained_wrote t w0 events : ∀ handled st entries fails,
  wrote t w0 handled st entries fails → Forall (λ e, chainKeyFor e = None) events →
  wrote_on t w0 (handled ++ events) (foldl (write_unchained t) st events) (effort entries fails) (events ≠ []).
Proof.
  induction events as [|e events IH]; intros handled st entries fails Hw Hkeys; cbn [foldl].
  { exists entries, fails. rewrite app_nil_r. split; [done|]. split; [done|]. by intros _ []. }
  inversion Hkeys as [|? ? He Hrest]; subst. rewrite cons_middle, app_assoc. unfold write_unchained at 2.
  destruct (writeEntry t e None (written st)) as [w' [a|cause]] eqn:Ewrite.
  - destruct (wrote_entry _ _ _ _ _ _ _ _ _ _ (updatedHeads st) Hw Ewrite) as (le & Hw' & _ & _);
      [by rewrite He|].
    destruct (IH _ _ _ _ Hw' Hrest) as (es & fs & Hd & Hle & _).
    exists es, fs. split; [done|]. unfold effort in *. rewrite length_app in Hle. simpl in Hle. split; intros; lia.
  - destruct (wrote_failure _ _ _ _ _ _ _ _ _ _ Hw Ewrite) as (fs & Hd & Hlt & Hle).
    destruct (IH _ _ _ _ Hd Hrest) as (es & fs' & Hd' & Hle' & _).
    exists es, fs'. split; [done|]. split; [lia|]. intros Hc _. specialize (Hlt Hc). lia.
Qed.

Lemma elem_of_chain_of key events e : e ∈ chain_of key events ↔ e ∈ events ∧ chainKeyFor e = Some key.
Proof. unfold chain_of. by rewrite elem_of_rows_where, bool_decide_eq_true. Qed.

Lemma write_groups_wrote t w0 events keys : ∀ handled st entries fails,
  wrote t w0 handled st entries fails → NoDup keys →
  (∀ key e, key ∈ keys → e ∈ handled → chainKeyFor e ≠ Some key) →
  wrote_on t w0 (handled ++ concat ((λ key, chain_of key events) <$> keys))
    (foldl (λ st key, write_chain t key (readChainHeads w0 key) (chain_of key events) st) st keys)
    (effort entries fails) (∃ key, key ∈ keys ∧ chain_of key events ≠ []).
Proof.
  induction keys as [|key keys IH]; intros handled st entries fails Hw HND Hnew; cbn [foldl fmap list_fmap concat].
  { exists entries, fails. rewrite app_nil_r. split; [done|]. split; [done|].
    intros _ (? & []%elem_of_nil & _). }
  apply NoDup_cons in HND as [Hkey HND]. rewrite app_assoc.
  destruct (write_chain_wrote t w0 key (chain_of key events) (readChainHeads w0 key) _ _ _ _ Hw) as (es & fs & Hw' & Hle & Hlt).
  { unfold head_now, readChainHeads. destruct (updatedHeads st !! key) as [c|] eqn:E; [|done].
    destruct (wr_heads _ _ _ _ _ _ Hw key) as (e & He & Hk); [by rewrite E|].
    by destruct (Hnew key e ltac:(left) He). }
  { apply Forall_forall. intros e. by intros [_ ?]%elem_of_chain_of. }
  destruct (IH _ _ _ _ Hw' HND) as (es' & fs' & Hw'' & Hle' & Hlt').
  { intros k e Hk [He|[_ He]%elem_of_chain_of]%elem_of_app; [by apply Hnew; [right|]|]. intros E. congruence. }
  exists es', fs'. split; [done|]. split; [lia|].
  intros Hc (k & [->|Hk]%elem_of_cons & Hne); [specialize (Hlt Hc Hne); lia|].
  assert (effort es fs < effort es' fs')%nat by eauto. lia.
Qed.

(** ** The batch as a whole *)
Lemma elem_of_concat {A} (x : A) (ls : list (list A)) : x ∈ concat ls ↔ ∃ l, x ∈ l ∧ l ∈ ls.
Proof. rewrite list_elem_of_In, in_concat. setoid_rewrite list_elem_of_In. naive_solver. Qed.

Lemma touched_chains_NoDup t events : NoDup (touched_chains t events).
Proof. unfold touched_chains. rewrite order_by_Permutation. apply NoDup_dedup_from. Qed.

Lemma elem_of_touched_chains t events key :
  key ∈ touched_chains t events ↔ ∃ e, e ∈ events ∧ chainKeyFor e = Some key.
Proof.
  unfold touched_chains. rewrite elem_of_order_by, dedup_from_spec, list_elem_of_omap. set_solver.
Qed.

Lemma handled_submseteq t events :
  NoDup events →
  concat ((λ key, chain_of key events) <$> touched_chains t events) ++ unchained_of events ⊆+ events.
Proof.
  intros HND. apply NoDup_submseteq.
  - apply NoDup_app. split_and!.
    + assert (Hk := touched_chains_NoDup t events). induction (touched_chains t events) as [|key keys IH]; simpl; [constructor|].
      apply NoDup_cons in Hk as [Hkey Hk]. apply NoDup_app. split_and!; [by apply NoDup_filter| |by apply IH].
      intros e [_ He]%elem_of_chain_of (l & He' & (k & -> & Hin)%list_elem_of_fmap)%elem_of_concat. apply elem_of_chain_of in He' as [_ He']. congruence.
    + intros e (l & He & (k & -> & Hin)%list_elem_of_fmap)%elem_of_concat. apply elem_of_chain_of in He as [_ He].
      unfold unchained_of. rewrite elem_of_rows_where, bool_decide_eq_true. intros [_ ?]. congruence.
    + by apply NoDup_filter.
  - intros e [(l & He & (k & -> & _)%list_elem_of_fmap)%elem_of_concat|He]%elem_of_app; [by apply elem_of_chain_of in He as [He _]|].
    by apply elem_of_rows_where in He as [He _].
Qed.

Lemma writeEntries_wrote t w events :
  addressed (ipfs w) → NoDup events →
  ∃ entries fails, wrote t w events (writeEntries t events w) entries fails ∧
    (counts_failures t → events ≠ [] → (0 < effort entries fails)%nat).
Proof.
  intros Haddr HND. unfold writeEntries.
  assert (H0 : wrote t w [] {| written := w; anchored := []; updatedHeads := ∅ |} [] []).
  { constructor; cbn; try done; [by destruct w|]. by intros key [? Hk]. }
  destruct (write_groups_wrote t w events (touched_chains t events) _ _ _ _ H0) as (es & fs & Hw & _ & Hlt).
  { apply touched_chains_NoDup. } { intros ? ? _ []%elem_of_nil. }
  destruct (write_unchained_wrote t w (unchained_of events) _ _ _ _ Hw) as (es' & fs' & Hw' & Hle & Hlt').
  { apply Forall_forall. intros e. unfold unchained_of. rewrite elem_of_rows_where, bool_decide_eq_true. tauto. }
  exists es', fs'. split.
  - pose proof (handled_submseteq t events HND) as Hsub. simpl in Hw'. destruct Hw'. constructor; try done.
    + etransitivity; [exact wr_ids0|]. by apply fmap_submseteq.
    + eapply Forall_impl; [exact wr_from0|]. intros le (e & He & ?). exists e.
      split; [|done]. by eapply elem_of_submseteq.
    + intros key Hk. destruct (wr_heads0 key Hk) as (e & He & ?). exists e.
      split; [|done]. by eapply elem_of_submseteq.
  - intros Hc Hne. destruct events as [|e events]; [done|].
    destruct (chainKeyFor e) as [key|] eqn:Ek.
    + assert (0 < effort es fs)%nat; [|lia]. apply Hlt; [done|]. exists key. split.
      * apply elem_of_touched_chains. exists e. split; [left|done].
      * intros Hnil. assert (He : e ∈ chain_of key (e :: events)) by (apply elem_of_chain_of; split; [left|done]).
        rewrite Hnil in He. by apply elem_of_nil in He.
    + assert (effort es fs < effort es' fs')%nat; [|lia]. apply Hlt'; [done|]. intros Hnil.
      assert (He : e ∈ unchained_of (e :: events))
        by (apply elem_of_rows_where; split; [left|by apply bool_decide_eq_true]).
      rewrite Hnil in He. by apply elem_of_nil in He.
Qed.

(** ** Steps that leave the log as it is *)
Definition same_row (r r' : OutboxRow) : Prop :=
  event r' = event r ∧ (processed r' = processed r ∨ visible r = false) ∧ row_ok r'.

Lemma committed_mono w w' r b : artifacts w ⊆ artifacts w' → committed w r b → committed w' r b.
Proof. intros Ha []. constructor; try done. by eapply lookup_weaken. Qed.

Lemma committed_all w w' rs bs : artifacts w ⊆ artifacts w' → Forall2 (committed w) rs bs → Forall2 (committed w') rs bs.
Proof. intros Ha HF. eapply Forall2_impl; [exact HF|]. intros r b. by apply committed_mono. Qed.

Lemma represents_outbox w rows batches :
  represents w batches → Forall2 same_row (outbox w) rows → represents (set_outbox (λ _, rows) w) batches.
Proof.
  intros [] HF. assert (Hids : row_id <$> rows = row_id <$> outbox w).
  { clear -HF. induction HF as [|r r' ? ? (E & _)]; [done|]. rewrite !fmap_cons, IHHF. unfold row_id. by rewrite E. }
  constructor; cbn; try done.
  - by rewrite Hids.
  - clear -HF. induction HF as [|? ? ? ? (_ & _ & ?)]; by constructor.
  - by apply (committed_all w).
  - intros r' Hr'. apply list_elem_of_lookup in Hr' as [i Hi].
    destruct (Forall2_lookup_r _ _ _ _ _ HF Hi) as (r & Hr & Ee & Hp & _).
    apply list_elem_of_lookup_2, rp_rows_of0 in Hr. unfold row_id, visible in *. rewrite Ee.
    destruct Hp as [->|Hv]; [done|]. rewrite Hr, Hv. naive_solver.
  - eapply Forall_impl; [exact rp_entries0|]. intros e (r & Hr & Eid). apply list_elem_of_lookup in Hr as [i Hi].
    destruct (Forall2_lookup_l _ _ _ _ _ HF Hi) as (r' & Hr' & Ee & _).
    exists r'. split; [by eapply list_elem_of_lookup_2|]. by rewrite Ee.
Qed.

Lemma represents_ipfs w m batches :
  represents w batches → ipfs w ⊆ m → addressed m → represents (set_ipfs (λ _, m) w) batches.
Proof.
  intros [] Hm Ha. constructor; cbn; try done.
  - eapply Forall_impl; [exact rp_stored0|]. intros e. by apply is_stored_mono.
  - by apply (committed_all w).
  - intros key. destruct (rp_chains0 key) as (L & HL & ?). exists L. split; [|done]. by eapply chain_mono.
Qed.

Lemma represents_artifact w c data batches :
  represents w batches → artifacts w !! c = None →
  represents (set_artifacts (λ m, <[c := data]> m) w) batches.
Proof.
  intros [] Hc. constructor; cbn; try done. apply (committed_all w); [|done]. by apply insert_subseteq.
Qed.

Lemma represents_next_seq w batches : represents w batches → represents (set_next_seq (λ n, n + 1) w) batches.
Proof.
  intros []. constructor; cbn; try done; [|].
  - by apply (committed_all w).
  - eapply Forall_impl; [exact rp_next0|]. cbn. intros. lia.
Qed.

(** ** Committing a batch *)
Lemma insert_by_last {A} (key : A → Z) x l : Forall (λ y, key y < key x) l → insert_by key x l = l ++ [x].
Proof. induction 1; [done|]. simpl. rewrite (proj2 (Z.leb_gt _ _)) by done. by f_equal. Qed.

Lemma newest_first_reverse w :
  StronglySorted Z.lt (r_Seq <$> checkpoints w) → newest_first w = reverse (checkpoints w).
Proof.
  unfold newest_first. generalize (checkpoints w). intros l.
  induction l as [|r l IH]; [done|]. rewrite fmap_cons. inversion 1 as [|? ? Hs Hr]; subst.
  change (order_by ?k (r :: l)) with (insert_by k r (order_by k l)). rewrite IH, reverse_cons by done. apply insert_by_last. apply Forall_reverse.
  apply (Forall_fmap r_Seq) in Hr. eapply Forall_impl; [exact Hr|]. cbn. lia.
Qed.

Lemma latest_root w : StronglySorted Z.lt (r_Seq <$> checkpoints w) →
  ReadLatestCheckpointRoot w = r_Root <$> last (checkpoints w).
Proof. intros Hs. unfold ReadLatestCheckpointRoot. by rewrite newest_first_reverse, head_reverse. Qed.

Lemma linked_snoc prev l r :
  linked prev l → r_PrevRoot r = match last l with Some p => Some (r_Root p) | None => prev end →
  linked prev (l ++ [r]).
Proof.
  revert prev. induction l as [|x l IH]; intros prev; cbn [linked app]; [done|].
  intros [Hx Hl] Hr. split; [done|]. apply IH; [done|]. rewrite Hr, last_cons. by destruct (last l).
Qed.

Lemma StronglySorted_snoc (l : list Z) x :
  StronglySorted Z.lt l → Forall (λ y, y < x) l → StronglySorted Z.lt (l ++ [x]).
Proof.
  induction 1 as [|y l Hs IH Hy]; intros Hx; simpl; [repeat constructor|].
  inversion Hx; subst. constructor; [by apply IH|]. apply Forall_app. by repeat constructor.
Qed.

Lemma mark_all_processed now ids w :
  outbox (foldl (λ w' id, UpdateOutboxEvent now id w') w ids) =
    map (λ r, if bool_decide (row_id r ∈ ids) then mark_processed now r else r) (outbox w).
Proof.
  revert w. induction ids as [|id ids IH]; intros w; cbn [foldl].
  { symmetry. etransitivity; [|apply map_id]. apply map_ext. intros r.
    by rewrite bool_decide_eq_false_2 by apply not_elem_of_nil. }
  rewrite IH. cbn. unfold update_where. rewrite map_map. apply map_ext. intros r.
  unfold has_id, row_id. destruct (decide (ID (event r) = id)) as [<-|E].
  - rewrite !(bool_decide_eq_true_2 (_ = _)), (bool_decide_eq_true_2 (_ ∈ _ :: _)) by (done || left).
    by case_bool_decide.
  - rewrite (bool_decide_eq_false_2 (_ = _)) by done.
    by rewrite (bool_decide_ext (ID (event r) ∈ id :: ids) (ID (event r) ∈ ids)) by set_solver.
Qed.

Lemma mark_all_frame now ids w :
  foldl (λ w' id, UpdateOutboxEvent now id w') w ids =
    set_outbox (λ _, map (λ r, if bool_decide (row_id r ∈ ids) then mark_processed now r else r) (outbox w)) w.
Proof.
  rewrite <-mark_all_processed. revert w. induction ids as [|id ids IH]; intros w; [by destruct w|].
  cbn [foldl]. by rewrite IH.
Qed.

Lemma update_heads heads w :
  map_fold (λ key c, UpdateLogCID key (Some c)) w heads = set_logs (λ m, (Some <$> heads) ∪ m) w.
Proof.
  revert heads. apply (map_fold_weak_ind (λ r h, r = set_logs (λ m, (Some <$> h) ∪ m) w)).
  - unfold set_logs. rewrite fmap_empty, map_empty_union. by destruct w.
  - intros key c h r Hk ->. unfold UpdateLogCID, set_logs. cbn. f_equal.
    by rewrite fmap_insert, insert_union_l.
Qed.

Lemma order_by_fmap {A B} (f : A → B) key (l : list A) : order_by key (f <$> l) = f <$> order_by (key ∘ f) l.
Proof.
  assert (Hins : ∀ x k, insert_by key (f x) (f <$> k) = f <$> insert_by (key ∘ f) x k).
  { intros x k. induction k as [|y k IH]; [done|]. cbn. destruct (_ <=? _); [done|]. cbn. by rewrite IH. }
  induction l as [|x l IH]; [done|]. cbn. unfold order_by in *. simpl. by rewrite IH, Hins.
Qed.

Definition anchor_of (e : AuditLogEntry) : anchoredEntry :=
  {| eventID := le_ID e; cid := entry_id e; leafHash := entry_hash e |}.

Lemma anchors_fmap entries anchored : Forall2 anchors entries anchored → anchored = anchor_of <$> entries.
Proof. induction 1 as [|e [] ? ? (E1 & E2 & E3)]; [done|]. cbn in *. by subst. Qed.

Lemma Forall2_mono_in {A B} (P Q : A → B → Prop) l k :
  Forall2 P l k → (∀ x y, x ∈ l → P x y → Q x y) → Forall2 Q l k.
Proof. induction 1; intros HPQ; constructor; [apply HPQ; [left|done]|]. apply IHForall2. intros; apply HPQ; [by right|done]. Qed.

(** The events of a batch: distinct, and each awaiting its anchoring. *)
Definition pending_in (w : World) (events : list OutboxEvent) : Prop :=
  NoDup (ID <$> events) ∧
  ∀ e, e ∈ events → ∃ r, r ∈ outbox w ∧ event r = e ∧ awaits_anchoring r = true ∧ visible r = true.

Lemma row_unique w r r' : NoDup (row_id <$> outbox w) → r ∈ outbox w → r' ∈ outbox w → row_id r = row_id r' → r = r'.
Proof.
  intros HND [i Hi]%list_elem_of_lookup [j Hj]%list_elem_of_lookup E.
  assert (i = j) as ->; [|congruence].
  eapply NoDup_lookup; [exact HND| |]; rewrite list_lookup_fmap; [by rewrite Hi|]. rewrite Hj. cbn. by rewrite E.
Qed.

Lemma pending_row w events r :
  NoDup (row_id <$> outbox w) → pending_in w events → r ∈ outbox w → row_id r ∈ ID <$> events →
  awaits_anchoring r = true ∧ visible r = true.
Proof.
  intros HND [_ Hp] Hr (e & Ee & He)%list_elem_of_fmap. destruct (Hp e He) as (r' & Hr' & Hev & Hw & Hv).
  assert (r = r') as ->; [|done]. apply (row_unique w); try done. unfold row_id in *. by rewrite Hev.
Qed.

Lemma awaits_row r : row_ok r → awaits_anchoring r = true →
  processed r = false ∧ dead_lettered_at r = None ∧ anchor_attempts r < OutboxAnchorMaxAttempts.
Proof.
  intros [Hr Hd] Ha. unfold awaits_anchoring in Ha. apply andb_true_iff in Ha as [Hp Ha].
  apply negb_true_iff in Hp. apply bool_decide_eq_true in Ha. split_and!; try done.
  rewrite Ha in Hd. assert (anchor_attempts r ≠ OutboxAnchorMaxAttempts); [|lia].
  intros E. apply Hd in E as [? E]. done.
Qed.

Lemma count_failure_ok now c r : row_ok r → awaits_anchoring r = true →
  row_ok (count_failure now OutboxAnchorMaxAttempts c r).
Proof.
  intros Hr Ha. destruct (awaits_row r Hr Ha) as (_ & Hd & Hlt). destruct Hr as [Hr _].
  split; cbn; [lia|]. destruct (_ <=? _) eqn:E; bool_to_prop.
  - split; [lia|]. by exists now.
  - rewrite Hd. split; [by intros []|lia].
Qed.

Lemma wrote_ids t w events st entries fails :
  wrote t w events st entries fails → NoDup (ID <$> events) →
  NoDup (le_ID <$> entries) ∧ NoDup fails.*1 ∧
  (∀ id, id ∈ le_ID <$> entries ∨ id ∈ fails.*1 → id ∈ ID <$> events) ∧
  (∀ id, id ∈ le_ID <$> entries → id ∉ fails.*1).
Proof.
  intros Hw HND. pose proof (wr_ids _ _ _ _ _ _ Hw) as Hids.
  destruct (submseteq_Permutation _ _ Hids) as [rest Hperm].
  rewrite Hperm in HND. apply NoDup_app in HND as [Happ _]. apply NoDup_app in Happ as (H2 & H3 & H4).
  split_and!; try done. intros id Hid. eapply elem_of_submseteq; [|exact Hids]. by apply elem_of_app.
Qed.

Lemma wrote_represents t w events st entries fails batches :
  wrote t w events st entries fails → represents w batches → pending_in w events →
  represents (written st) batches.
Proof.
  intros Hw Hrep Hpend. destruct (wrote_ids _ _ _ _ _ _ Hw (proj1 Hpend)) as (_ & Hnd & Hsub & _).
  rewrite (wr_world _ _ _ _ _ _ Hw). set (w1 := set_ipfs _ w).
  assert (Hrep1 : represents w1 batches) by (apply represents_ipfs; [done|apply Hw|apply Hw]).
  refine (represents_outbox w1 (apply_failures t fails (outbox w)) batches Hrep1 _).
  eapply Forall2_mono_in; [exact (apply_failures_rows t fails (outbox w) Hnd)|].
  pose proof (proj1 (Forall_forall _ _) (rp_rows _ _ Hrep)) as Hok.
  intros r r' Hr [[-> _]|[Hin [c ->]]]; (split; [done|]); (split; [by left|]); [by apply Hok|].
  apply count_failure_ok; [by apply Hok|]. apply (pending_row w events); [apply Hrep|done..|by apply Hsub; right].
Qed.

(** The state after the transaction of a batch. *)
Definition appended (now : Z) (c root : string) (prev tsa : option string) (b : list AuditLogEntry)
    (heads : gmap chainKey string) (w : World) : World :=
  {| outbox := map (λ r, if bool_decide (row_id r ∈ le_ID <$> b) then mark_processed now r else r) (outbox w);
     logs := (Some <$> heads) ∪ logs w;
     checkpoints := checkpoints w ++
       [{| r_Seq := next_seq w; r_CID := c; r_Root := root; r_PrevRoot := prev;
           r_LeafCount := Z.of_nat (length b); r_TsaSignature := tsa; r_CreatedAt := now;
           r_TimestampedAt := match tsa with None => None | Some _ => Some now end |}];
     leaves := leaves w ++ leaf_rows (next_seq w) 0 (entry_id <$> b) (entry_hash <$> b);
     next_seq := next_seq w + 1; ipfs := ipfs w; artifacts := artifacts w |}.

Lemma commit_checkpoint_eq t c root prev tsa b heads w :
  (commit_checkpoint t c root prev tsa (anchor_of <$> b) heads w).1 =
    if t_commit t then appended (t_now t) c root prev tsa b heads w else set_next_seq (λ n, n + 1) w.
Proof.
  unfold commit_checkpoint. cbn [AppendCheckpoint]. unfold AppendCheckpointLeaves.
  rewrite !length_fmap, bool_decide_eq_true_2 by done. cbn [negb].
  rewrite update_heads, mark_all_frame, <-!list_fmap_compose.
  destruct (t_commit t); done.
Qed.

Definition fresh_batch (w : World) (b : list AuditLogEntry) : Prop :=
  Forall (is_stored (ipfs w)) b ∧ NoDup (le_ID <$> b) ∧
  Forall (λ e, ∃ r, r ∈ outbox w ∧ entry_for (event r) e ∧ awaits_anchoring r = true ∧ visible r = true) b.

Lemma represents_append now c root tsa b heads w batches :
  represents w batches → fresh_batch w b →
  MerkleRoot (entry_hash <$> b) = Ok root → (length b <= 100)%nat →
  artifacts w !! c = Some (MarshalCheckpoint
    {| cp_Root := root; cp_PrevRoot := ReadLatestCheckpointRoot w; cp_LeafHashes := entry_hash <$> b;
       cp_LeafCIDs := entry_id <$> b; cp_CreatedAt := now |}) →
  (∀ s, tsa = Some s → Verify s root = true) →
  (∀ key, ∃ L,
     chain (ipfs w) (match heads !! key with Some h => Some h | None => ReadLogCID w key end) L ∧
     L ≡ₚ rows_where (λ e, bool_decide (entry_key e = Some key)) (concat batches ++ b)) →
  represents (appended now c root (ReadLatestCheckpointRoot w) tsa b heads w) (batches ++ [b]).
Proof.
  intros Hrep (Hst & Hnd & Hrow) Hroot Hsize Hart Htsa Hch. destruct Hrep.
  pose proof (Forall2_length _ _ _ rp_checkpoints0) as Hlen.
  assert (Hids : row_id <$> outbox (appended now c root (ReadLatestCheckpointRoot w) tsa b heads w) = row_id <$> outbox w).
  { cbn. change (map ?f ?l) with (f <$> l). rewrite <-list_fmap_compose. apply list_fmap_ext. intros _ r _. cbn.
    by case_bool_decide. }
  constructor; rewrite ?Hids; try done; cbn [outbox logs checkpoints leaves next_seq ipfs artifacts appended].
  - apply Forall_fmap. eapply Forall_impl; [exact rp_rows0|]. intros r Hr. cbn. by case_bool_decide.
  - rewrite concat_app. apply Forall_app. split; [done|]. cbn. by rewrite app_nil_r.
  - apply Forall2_app; [by apply (committed_all w)|]. constructor; [|done]. by constructor.
  - apply linked_snoc; [done|]. cbn. rewrite latest_root by done. by destruct (last _).
  - rewrite fmap_app. apply StronglySorted_snoc; [done|]. cbn. by apply Forall_fmap.
  - apply Forall_app. split; [|constructor; [cbn; lia|done]]. eapply Forall_impl; [exact rp_next0|]. cbn. lia.
  - rewrite rp_leaves0, zip_with_app, concat_app by done. cbn. by rewrite app_nil_r.
  - rewrite concat_app, fmap_app. cbn. rewrite app_nil_r. apply NoDup_app. split_and!; try done.
    intros id Hold (e & -> & He)%list_elem_of_fmap. rewrite Forall_forall in Hrow.
    destruct (Hrow e He) as (r & Hr & (Eid & _) & Ha & _). rewrite Eid in Hold. apply rp_rows_of0 in Hold as [Hp _]; [|done].
    unfold awaits_anchoring in Ha. by rewrite Hp in Ha.
  - intros r' (r & -> & Hr)%list_elem_of_fmap. rewrite concat_app, fmap_app, elem_of_app. cbn. rewrite app_nil_r.
    rewrite Forall_forall in Hrow. specialize (rp_rows_of0 r Hr). unfold row_id, visible in *.
    case_bool_decide as Hin; cbn.
    + assert (Hv : IsAuditVisibleEventType (EventType (event r)) = true).
      { apply list_elem_of_fmap in Hin as (e & Ee & He). destruct (Hrow e He) as (r2 & Hr2 & (Eid & _) & _ & Hv).
        by rewrite (row_unique w r r2 rp_ids0 Hr Hr2) by (unfold row_id; congruence). }
      tauto.
    + rewrite <-rp_rows_of0. tauto.
  - rewrite concat_app. apply Forall_app. cbn. rewrite app_nil_r.
    assert (Hkeep : ∀ r e, r ∈ outbox w → entry_for (event r) e → ∃ r', r' ∈ map (λ r, if bool_decide (row_id r ∈ le_ID <$> b)
        then mark_processed now r else r) (outbox w) ∧ entry_for (event r') e).
    { intros r e Hr Eid. eexists. split; [by apply list_elem_of_fmap_2|]. by case_bool_decide. }
    split.
    + eapply Forall_impl; [exact rp_entries0|]. intros e (r & Hr & Eid). by eapply Hkeep.
    + eapply Forall_impl; [exact Hrow|]. intros e (r & Hr & Eid & _). by eapply Hkeep.
  - intros key. destruct (Hch key) as (L & HL & HP). exists L. rewrite concat_app. cbn. rewrite app_nil_r.
    split; [|done]. unfold ReadLogCID in *. cbn. rewrite lookup_union, lookup_fmap.
    by destruct (heads !! key), (logs w !! key).
Qed.

(** What [anchorBatch] leaves behind, given what its writers did. *)
Lemma anchorBatch_cases t w events entries fails :
  wrote t w events (writeEntries t events w) entries fails →
  let st := writeEntries t events w in
  let b := order_by le_ID entries in
  let w' := (anchorBatch t events w).1 in
  w' = written st ∨
  ∃ root c data, MerkleRoot (entry_hash <$> b) = Ok root ∧ t_put t = Some c ∧
    let stored := set_artifacts (λ m, <[c := MarshalCheckpoint data]> m) (written st) in
    data = {| cp_Root := root; cp_PrevRoot := ReadLatestCheckpointRoot stored; cp_LeafHashes := entry_hash <$> b;
              cp_LeafCIDs := entry_id <$> b; cp_CreatedAt := t_now t |} ∧
    (w' = stored ∨ w' = set_next_seq (λ n, n + 1) stored ∨
     ∃ tsa, t_put_resolves t = true ∧ t_commit t = true ∧ (∀ s, tsa = Some s → Verify s root = true) ∧
       w' = appended (t_now t) c root (ReadLatestCheckpointRoot stored) tsa b (updatedHeads st) stored).
Proof.
  intros Hw st b w'. unfold w', anchorBatch. fold st.
  case_bool_decide as Hnil; [by left|].
  pose proof (anchors_fmap _ _ (wr_anchors _ _ _ _ _ _ Hw)) as Ea. fold st in Ea. rewrite Ea, order_by_fmap. change (eventID ∘ anchor_of) with le_ID.
  fold b. rewrite <-!list_fmap_compose. change (leafHash ∘ anchor_of) with entry_hash.
  change (cid ∘ anchor_of) with entry_id.
  destruct (MerkleRoot (entry_hash <$> b)) as [root|]; [|by left].
  destruct (t_put t) as [c|]; [|by left].
  right. exists root, c, {| cp_Root := root; cp_PrevRoot := ReadLatestCheckpointRoot (written st);
    cp_LeafHashes := entry_hash <$> b; cp_LeafCIDs := entry_id <$> b; cp_CreatedAt := t_now t |}.
  split; [done|]. split; [done|]. split; [reflexivity|].
  destruct (t_put_resolves t); [|by left]. cbn [negb]. right. rewrite commit_checkpoint_eq.
  destruct (t_commit t); [right|by left]. eexists. split; [done|]. split; [done|]. split; [|reflexivity].
  intros s. unfold timestampRoot. destruct (t_timestamp t root) as [receipt|]; [|done]. cbn.
  destruct (Verify receipt root) eqn:Ev; [|done]. by intros [= <-].
Qed.

Lemma wrote_fresh_batch t w events st entries fails batches :
  wrote t w events st entries fails → represents w batches → pending_in w events →
  fresh_batch (written st) (order_by le_ID entries).
Proof.
  intros Hw Hrep [Hnd Hp]. destruct (wrote_ids _ _ _ _ _ _ Hw Hnd) as (Hids & Hnf & Hsub & Hdisj).
  pose proof (order_by_Permutation le_ID entries) as Hperm. unfold fresh_batch.
  split; [eapply Forall_Permutation; [intros ?; reflexivity|exact Hperm|apply Hw]|].
  split; [eapply NoDup_Permutation_proper; [apply fmap_Permutation, Hperm|done]|].
  apply Forall_forall. intros le Hle. apply (elem_of_Permutation_proper _ _ _ Hperm) in Hle. assert (Hin : le_ID le ∈ le_ID <$> entries) by by apply list_elem_of_fmap_2.
  destruct (proj1 (Forall_forall _ _) (wr_from _ _ _ _ _ _ Hw) le Hle) as (e & He & Hfor).
  pose proof (proj1 Hfor) as Eid.
  destruct (Hp e He) as (r & Hr & <- & Ha & Hv).
  rewrite (wr_world _ _ _ _ _ _ Hw). cbn.
  apply list_elem_of_lookup in Hr as [i Hi].
  destruct (Forall2_lookup_l _ _ _ _ _ (apply_failures_rows t fails (outbox w) Hnf) Hi) as (r' & Hr' & [[-> _]|[Hf _]]).
  - exists r. split; [by eapply list_elem_of_lookup_2|]. done.
  - exfalso. apply (Hdisj (le_ID le)); [done|]. rewrite Eid. exact Hf.
Qed.

Lemma anchorBatch_represents t w events batches :
  represents w batches → pending_in w events → (length events <= 100)%nat →
  (∀ c, t_put t = Some c → artifacts w !! c = None) →
  ∃ new, (length new <= 1)%nat ∧ represents (anchorBatch t events w).1 (batches ++ new).
Proof.
  intros Hrep Hpend Hevents Hput.
  destruct (writeEntries_wrote t w events) as (entries & fails & Hw & _); [apply Hrep|by eapply NoDup_fmap_1, Hpend|].
  set (st := writeEntries t events w) in *.
  pose proof (wrote_represents _ _ _ _ _ _ _ Hw Hrep Hpend) as Hst.
  pose proof (wrote_fresh_batch _ _ _ _ _ _ _ Hw Hrep Hpend) as Hfresh.
  destruct (anchorBatch_cases _ _ _ _ _ Hw) as [->|(root & c & data & Hroot & Hc & Hdata & Hcase)];
    [exists []; by rewrite app_nil_r; split; [simpl; lia|]|].
  set (stored := set_artifacts _ _) in *.
  assert (Hlogs : logs stored = logs w) by exact (f_equal logs (wr_world _ _ _ _ _ _ Hw)).
  assert (Hstored : represents stored batches).
  { apply represents_artifact; [done|]. pose proof (f_equal artifacts (wr_world _ _ _ _ _ _ Hw)) as Ha.
    exact (eq_trans (f_equal (λ m, m !! c) Ha) (Hput c Hc)). }
  destruct Hcase as [->|[->|(tsa & _ & _ & Htsa & ->)]];
    [exists []; rewrite app_nil_r; split; [simpl; lia|done]
    |exists []; rewrite app_nil_r; split; [simpl; lia|by apply represents_next_seq]|].
  exists [order_by le_ID entries]. split; [simpl; lia|]. apply represents_append; try done.
  - pose proof (submseteq_length _ _ (wr_ids _ _ _ _ _ _ Hw)) as Hlen.
    rewrite (order_by_Permutation le_ID entries). rewrite length_app, !length_fmap in Hlen. lia.
  - cbn. by rewrite lookup_insert_eq, Hdata.
  - intros key. destruct (rp_chains _ _ Hrep key) as (L & HL & HP). eexists. split.
    + pose proof (wr_chains _ _ _ _ _ _ Hw key L HL) as Hch. unfold head_now in Hch.
      replace (ReadLogCID stored key) with (ReadLogCID w key); [exact Hch|].
      unfold ReadLogCID. by rewrite <-Hlogs.
    + unfold rows_where in *. rewrite filter_app, HP, reverse_Permutation, (order_by_Permutation le_ID entries).
      apply Permutation_app_comm.
Qed.

(** ** The ticks *)
Lemma elem_of_take_in {A} n (l : list A) x : x ∈ take n l → x ∈ l.
Proof. intros Hx. rewrite <-(take_drop n l). apply elem_of_app. by left. Qed.

Lemma elem_of_backlog t p n w e :
  e ∈ backlog t p n w → ∃ r, r ∈ outbox w ∧ event r = e ∧ p r = true.
Proof.
  intros He%elem_of_take_in. rewrite !elem_of_order_by in He.
  apply list_elem_of_fmap in He as (r & -> & [Hr Hp]%elem_of_rows_where). apply andb_true_iff in Hp as [Hp _]. eauto.
Qed.

Lemma backlog_NoDup t p n w : NoDup (row_id <$> outbox w) → NoDup (ID <$> backlog t p n w).
Proof.
  intros HND. unfold backlog.
  assert (Hall : NoDup (ID <$> (event <$> rows_where (λ r, p r && negb (t_locked t (ID (event r)))) (outbox w)))).
  { rewrite <-list_fmap_compose. by apply (NoDup_fmap_rows_where row_id). }
  set (l := event <$> _) in *.
  assert (Hord : NoDup (ID <$> order_by CreatedAt (order_by (λ e, t_rank t (ID e)) l)))
    by (by rewrite !order_by_Permutation).
  rewrite <-(take_drop n (order_by CreatedAt _)), fmap_app in Hord. by apply NoDup_app in Hord as [? _].
Qed.

Lemma Forall2_update_where {A} (R : A → A → Prop) p f (l : list A) :
  (∀ x, x ∈ l → p x = true → R x (f x)) → (∀ x, x ∈ l → p x = false → R x x) → Forall2 R l (update_where p f l).
Proof.
  unfold update_where. induction l as [|x l IH]; intros Hf Hid; constructor.
  - destruct (p x) eqn:E; [apply Hf|apply Hid]; (left || done).
  - apply IH; intros y Hy; [apply Hf|apply Hid]; by right.
Qed.

(** Marking the rows of an event readers never see. *)
Definition unseen (w : World) (e : OutboxEvent) : Prop :=
  ∀ r, r ∈ outbox w → row_id r = ID e → visible r = false.

Lemma unseen_update t w e e' : unseen w e → unseen (processUnanchoredEvent t w e') e.
Proof.
  intros Hu r'. unfold processUnanchoredEvent. destruct (t_event_commit _ _); [|apply Hu]. cbn.
  intros (r & Hr & ->)%elem_of_update_where. specialize (Hu r Hr). by destruct (has_id _ _).
Qed.

Lemma lookups_keep t lookups w batches :
  represents w batches → (∀ e, e ∈ lookups → unseen w e) →
  let w' := foldl (processUnanchoredEvent t) w lookups in
  represents w' batches ∧ artifacts w' = artifacts w ∧
  (∀ r, r ∈ outbox w → visible r = true → r ∈ outbox w').
Proof.
  revert w. induction lookups as [|e lookups IH]; intros w Hrep Hun; cbn [foldl]; [done|].
  assert (Hrep' : represents (processUnanchoredEvent t w e) batches).
  { unfold processUnanchoredEvent. destruct (t_event_commit _ _); [|done].
    refine (represents_outbox w (update_where _ _ (outbox w)) batches Hrep _).
    pose proof (proj1 (Forall_forall _ _) (rp_rows _ _ Hrep)) as Hok.
    apply Forall2_update_where; intros r Hr Hid; (split; [done|]); (split; [|exact (Hok r Hr)]); [|by left].
    right. apply (Hun e); [left|done|]. by apply bool_decide_eq_true in Hid. }
  destruct (IH (processUnanchoredEvent t w e) Hrep') as (H2 & H3 & H4).
  { intros e' He'. apply unseen_update, Hun. by right. }
  split; [done|]. split.
  - rewrite H3. unfold processUnanchoredEvent. by destruct (t_event_commit _ _).
  - intros r Hr Hv. apply H4; [|done]. unfold processUnanchoredEvent. destruct (t_event_commit _ _); [|done].
    cbn. apply elem_of_update_where. exists r. split; [done|]. unfold has_id. case_bool_decide as Hid; [|done].
    rewrite (Hun e ltac:(left) r Hr Hid) in Hv. done.
Qed.

Lemma processing_represents t w batches :
  represents w batches → (∀ c, t_put t = Some c → artifacts w !! c = None) →
  ∃ new, (length new <= 1)%nat ∧ represents (processing_tick t w).1 (batches ++ new).
Proof.
  intros Hrep Hput. unfold processing_tick. pose proof (rp_ids _ _ Hrep) as Hids.
  set (events := backlog t awaits_anchoring 100 w).
  destruct (lookups_keep t (rows_where (λ e, negb (IsAuditVisibleEventType (EventType e))) events) w batches Hrep)
    as (Hrep' & Hart & Hkeep).
  { intros e [He Hv]%elem_of_rows_where r Hr Hid. apply negb_true_iff in Hv.
    apply elem_of_backlog in He as (r' & Hr' & <- & _). by rewrite (row_unique w r r'). }
  case_bool_decide; [exists []; rewrite app_nil_r; split; [simpl; lia|done]|].
  apply anchorBatch_represents; [done| | |by rewrite Hart].
  split.
  - apply (NoDup_fmap_rows_where ID); [by apply backlog_NoDup|done].
  - intros e [He Hv]%elem_of_rows_where. apply elem_of_backlog in He as (r & Hr & <- & Hp).
    exists r. split; [by apply Hkeep|done].
  - etransitivity; [apply length_filter|]. unfold events, backlog. rewrite length_take. lia.
Qed.

Lemma publishing_represents t w batches : represents w batches → represents (publishing_tick t w).1 batches.
Proof.
  intros Hrep. unfold publishing_tick. cbn [fst]. destruct (t_commit t); [|done].
  generalize (rows_where (λ e, t_publish t (ID e)) (backlog t (λ r, negb (published r)) 200 w)).
  intros sent. revert w Hrep. induction sent as [|e sent IH]; intros w Hrep; cbn [foldl]; [done|].
  apply IH. refine (represents_outbox w (update_where _ _ (outbox w)) batches Hrep _).
  pose proof (proj1 (Forall_forall _ _) (rp_rows _ _ Hrep)) as Hok.
  apply Forall2_update_where; intros r Hr _; (split; [done|]); (split; [by left|]); exact (Hok r Hr).
Qed.

Lemma represents_stamp now seq s w batches :
  represents w batches → (∀ r, r ∈ checkpoints w → r_Seq r = seq → Verify s (r_Root r) = true) →
  represents (UpdateCheckpointTimestamp now seq s w) batches.
Proof.
  intros [] Hv. unfold UpdateCheckpointTimestamp. set (p := λ r, _ && _).
  assert (Hsame : ∀ {B} (g : AuditCheckpointRecord → B) l, (∀ r, g (stamp now s r) = g r) →
            g <$> update_where p (stamp now s) l = g <$> l).
  { intros B g l Hg. unfold update_where. change (map ?f ?l) with (f <$> l). rewrite <-list_fmap_compose.
    apply list_fmap_ext. intros _ r _. cbn. by destruct (p r). }
  constructor; cbn; try done.
  - clear -rp_checkpoints0 Hv. unfold update_where. apply Forall2_fmap_l.
    eapply Forall2_mono_in; [exact rp_checkpoints0|]. intros r b Hr Hc. cbn. destruct (p r) eqn:E; [|by apply (committed_mono w)].
    destruct Hc. constructor; try done. cbn. intros ? [= <-]. apply Hv; [done|].
    apply andb_true_iff in E as [E _]. by apply bool_decide_eq_true in E.
  - revert rp_linked0. clear. generalize (@None string). induction (checkpoints w) as [|r l IH]; intros prev; [done|].
    cbn. intros [Hr Hl]. destruct (p r); (split; [done|]); by apply IH.
  - by rewrite Hsame.
  - apply Forall_fmap. eapply Forall_impl; [exact rp_next0|]. intros r Hr. cbn. by destruct (p r).
  - rewrite rp_leaves0. f_equal. clear. revert batches. induction (checkpoints w) as [|r l IH]; intros [|b batches]; try done.
    cbn. f_equal; [by destruct (p r)|]. apply IH.
Qed.

Lemma timestamp_all_represents t pending w batches :
  represents w batches →
  (∀ c r, c ∈ pending → r ∈ checkpoints w → r_Seq r = r_Seq c → r_Root r = r_Root c) →
  represents (timestamp_all t pending w).1 batches.
Proof.
  revert w. induction pending as [|c pending IH]; intros w Hrep Hroot; cbn [timestamp_all]; [done|].
  destruct (timestampRoot t (r_Root c)) as [s|] eqn:Es; [|done]. destruct (t_event_commit _ _); [|done].
  apply IH.
  - apply represents_stamp; [done|]. intros r Hr Hseq. rewrite (Hroot c r) by (done || left).
    unfold timestampRoot in Es. destruct (t_timestamp t (r_Root c)); [|done]. cbn in Es.
    destruct (Verify _ _) eqn:Ev; [|done]. by injection Es as <-.
  - intros c' r' Hc' Hr'. cbn in Hr'. apply elem_of_update_where in Hr' as (r & Hr & ->).
    specialize (Hroot c' r ltac:(by right) Hr). by destruct (_ && _).
Qed.

Lemma timestamping_represents t w batches : represents w batches → represents (timestamping_tick t w).1 batches.
Proof.
  intros Hrep. apply timestamp_all_represents; [done|]. intros c r Hc Hr E.
  unfold ReadCheckpointsAwaitingTimestamp in Hc. apply elem_of_take_in in Hc.
  rewrite elem_of_order_by, elem_of_rows_where in Hc. destruct Hc as [Hc _].
  pose proof (rp_seqs _ _ Hrep) as Hs. f_equal.
  assert (HND : NoDup (r_Seq <$> checkpoints w)).
  { clear -Hs. induction Hs as [|x l _ IH Hx]; constructor; [|done]. intros Hin.
    rewrite Forall_forall in Hx. specialize (Hx x Hin). lia. }
  apply list_elem_of_lookup in Hc as [i Hi]. apply list_elem_of_lookup in Hr as [j Hj].
  assert (i = j) as ->; [|congruence]. eapply NoDup_lookup; [exact HND| |]; rewrite list_lookup_fmap; [by rewrite Hi|].
  rewrite Hj. cbn. by rewrite E.
Qed.

Lemma persist_represents e w batches :
  represents w batches → ID e ∉ row_id <$> outbox w → represents (PersistEvent e w) batches.
Proof.
  intros [] Hid. unfold PersistEvent. constructor; cbn; try done.
  - rewrite fmap_app. apply NoDup_app. split_and!; [done| |apply NoDup_singleton].
    intros id Hin ->%list_elem_of_singleton. by apply Hid.
  - apply Forall_app. split; [done|]. constructor; [|done]. split; cbn; [unfold OutboxAnchorMaxAttempts; lia|].
    split; [by intros []|done].
  - by apply (committed_all w).
  - intros r [Hr| ->%list_elem_of_singleton]%elem_of_app; [by apply rp_rows_of0|]. split; [|by intros [? _]].
    intros Hin. exfalso. apply Hid. apply list_elem_of_fmap in Hin as (le & E & Hle).
    destruct (proj1 (Forall_forall _ _) rp_entries0 le Hle) as (r & Hr & Er). change (row_id (new_row e)) with (ID e) in E.
    rewrite E, (proj1 Er). exact (list_elem_of_fmap_2 row_id _ _ Hr).
  - eapply Forall_impl; [exact rp_entries0|]. intros le (r & Hr & Er). exists r. split; [set_solver|done].
Qed.

Lemma step_represents w w' batches :
  represents w batches → step w w' → ∃ new, (length new <= 1)%nat ∧ represents w' (batches ++ new).
Proof.
  intros Hrep Hstep. revert Hrep. destruct Hstep as [e w1 Hid|t w1 Hput|t w1|t w1]; intros Hrep.
  - exists []. rewrite app_nil_r. split; [simpl; lia|apply persist_represents; [done|exact Hid]].
  - by apply processing_represents.
  - exists []. rewrite app_nil_r. split; [simpl; lia|by apply publishing_represents].
  - exists []. rewrite app_nil_r. split; [simpl; lia|by apply timestamping_represents].
Qed.

Lemma represents_empty : represents empty_world [].
Proof.
  constructor; cbn; try done; [by constructor..| |].
  - by intros r []%elem_of_nil.
  - intros key. exists []. split; [constructor|done].
Qed.

Lemma reachable_represents w : reachable w → ∃ batches, represents w batches.
Proof.
  induction 1 as [|w w' _ [batches IH] Hstep]; [exists []; apply represents_empty|].
  destruct (step_represents w w' batches IH Hstep) as (new & _ & ?). eauto.
Qed.

(** ** What the rows say of the log *)

(** The entry a leaf row points at. *)
Definition stored_entry (w : World) (l : CheckpointLeaf) : option AuditLogEntry := ipfs w !! entry_cid l ≫= Unmarshal.

Lemma leaf_rows_entries w seq i b : Forall (is_stored (ipfs w)) b →
  stored_entry w <$> leaf_rows seq i (entry_id <$> b) (entry_hash <$> b) = Some <$> b.
Proof.
  intros Hb. revert i. induction Hb as [|e b He _ IH]; intros i; [done|]. rewrite !fmap_cons. cbn [leaf_rows].
  rewrite fmap_cons, IH. f_equal. unfold stored_entry. cbn. rewrite He. cbn. apply Unmarshal_Marshal.
Qed.

Lemma leaves_entries w batches : represents w batches →
  stored_entry w <$> leaves w = Some <$> concat batches.
Proof.
  intros []. rewrite rp_leaves0. clear -rp_stored0 rp_checkpoints0 H1.
  induction rp_checkpoints0 as [|r b rs bs _ _ IH]; [done|]. cbn in *. apply Forall_app in rp_stored0 as [Hb Hbs].
  rewrite !fmap_app, IH by done. f_equal. by apply leaf_rows_entries.
Qed.

Lemma omap_entries w batches : represents w batches → omap (stored_entry w) (leaves w) = concat batches.
Proof.
  intros Hrep. apply leaves_entries in Hrep. revert Hrep. generalize (concat batches).
  induction (leaves w) as [|l ls IH]; intros [|e es]; try done. rewrite !fmap_cons. intros [= Hl Hls].
  cbn. rewrite Hl. f_equal. by apply IH.
Qed.

(** C12: The outbox jobs implement an append-only log.  In whatever order events are
    appended and the three jobs tick, and whatever fails in them (locks,
    encryption, IPFS, the time-stamp service, commits), a world that represents a
    log of batches steps to one that represents the same log, at most one batch
    longer: no step edits, removes or reorders an entry, and the database goes on
    holding one checkpoint per batch, with the Merkle root of its entries, the
    root of the checkpoint before it, and a verified timestamp if any. *)
Theorem trail_is_an_append_only_log :
  represents empty_world [] ∧
  ∀ w w' batches, represents w batches → step w w' →
    ∃ new, (length new <= 1)%nat ∧ represents w' (batches ++ new).
Proof. split; [exact represents_empty|]. intros w w' batches. apply step_represents. Qed.

(** C13: Every event is anchored exactly once.  In every reachable world, every
    leaf of the trail leads to a stored entry, and the ids of these entries are,
    without repetition, the ids of the events that readers may see and that are
    marked processed; each entry carries its event's header. *)
Theorem events_are_anchored_exactly_once w :
  reachable w →
  let entries := omap (stored_entry w) (leaves w) in
  length entries = length (leaves w) ∧
  le_ID <$> entries ≡ₚ row_id <$> rows_where (λ r, processed r && visible r) (outbox w) ∧
  ∀ e, e ∈ entries → ∃ r, r ∈ outbox w ∧ entry_for (event r) e.
Proof.
  intros (batches & Hrep)%reachable_represents. cbn zeta. pose proof (leaves_entries w batches Hrep) as Hlen.
  rewrite (omap_entries w batches Hrep). apply (f_equal length) in Hlen. rewrite !length_fmap in Hlen.
  destruct Hrep. split; [done|]. split.
  - apply NoDup_Permutation; [done|by apply (NoDup_fmap_rows_where row_id)|]. intros id. split.
    + intros Hin. pose proof Hin as (e & -> & He)%list_elem_of_fmap.
      destruct (proj1 (Forall_forall _ _) rp_entries0 e He) as (r & Hr & (Eid & _)).
      apply list_elem_of_fmap. exists r. split; [done|]. apply elem_of_rows_where. split; [done|].
      apply andb_true_iff, rp_rows_of0; [done|]. unfold row_id. by rewrite <-Eid.
    + intros (r & -> & [Hr Hp]%elem_of_rows_where)%list_elem_of_fmap. by apply rp_rows_of0, andb_true_iff.
  - exact (proj1 (Forall_forall _ _) rp_entries0).
Qed.

(** The retry budget holds.  In every reachable world every outbox row has
    between 0 and 50 counted failures and is dead-lettered exactly when it has
    50; and every checkpoint commits to at least one and at most 100 entries. *)
Theorem retries_and_batches_are_bounded w :
  reachable w →
  Forall row_ok (outbox w) ∧ Forall (λ r, 1 <= r_LeafCount r <= 100) (checkpoints w).
Proof.
  intros (batches & [])%reachable_represents. split; [done|]. clear -rp_checkpoints0.
  induction rp_checkpoints0 as [|r b ? ? [] _ IH]; constructor; [|done].
  destruct b as [|e b]; [done|]. rewrite cm_count0. simpl in *. lia.
Qed.

End Log.

(** ** A demonstration trail

    Concrete services: a record is the list of its fields' codes, and a content's
    address spells its own code. *)
Definition field {A} `{Countable A} (x : A) : Z := Zpos (encode x).
Definition unfield {A} `{Countable A} (z : Z) : option A := match z with Zpos p => decode p | _ => None end.

Lemma unfield_field {A} `{Countable A} (x : A) : unfield (field x) = Some x.
Proof. apply decode_encode. Qed.

Definition entry_fields (e : AuditLogEntry) : bytes :=
  [field (le_ID e); field (le_Component e); field (le_EventType e); field (le_EventData e); field (le_DID e);
   field (le_CreatedAt e); field (le_ResLogPredCID e); field (le_CEKScopeKind e); field (le_CEKScopeID e);
   field (le_Nonce e)].

Definition entry_of_fields (b : bytes) : option AuditLogEntry :=
  match b with
  | [i; c; ty; d; did; ca; p; k; s; n] =>
      i ← unfield i; c ← unfield c; ty ← unfield ty; d ← unfield d; did ← unfield did; ca ← unfield ca;
      p ← unfield p; k ← unfield k; s ← unfield s; n ← unfield n;
      Some {| le_ID := i; le_Component := c; le_EventType := ty; le_EventData := d; le_DID := did;
              le_CreatedAt := ca; le_ResLogPredCID := p; le_CEKScopeKind := k; le_CEKScopeID := s; le_Nonce := n |}
  | _ => None
  end.

Definition checkpoint_fields (c : AuditCheckpoint) : bytes :=
  [field (cp_Root c); field (cp_PrevRoot c); field (cp_LeafHashes c); field (cp_LeafCIDs c); field (cp_CreatedAt c)].

Definition checkpoint_of_fields (b : bytes) : option AuditCheckpoint :=
  match b with
  | [r; p; hs; cs; t] =>
      r ← unfield r; p ← unfield p; hs ← unfield hs; cs ← unfield cs; t ← unfield t;
      Some {| cp_Root := r; cp_PrevRoot := p; cp_LeafHashes := hs; cp_LeafCIDs := cs; cp_CreatedAt := t |}
  | _ => None
  end.

Fixpoint spell (p : positive) : string :=
  match p with
  | xH => EmptyString
  | xO p' => String "0" (spell p')
  | xI p' => String "1" (spell p')
  end.

Lemma spell_inj p q : spell p = spell q → p = q.
Proof. revert q. induction p; intros []; simpl; intros E; simplify_eq; f_equal; auto. Qed.

Definition demo_services : AuditServices :=
  {| Marshal := entry_fields; Unmarshal := entry_of_fields; MarshalBytes := λ b, [field b];
     UnmarshalBytes := λ b, match b with [z] => unfield z | _ => None end;
     MarshalCheckpoint := checkpoint_fields; UnmarshalCheckpoint := checkpoint_of_fields;
     cid_of := λ b, spell (encode (A := bytes) b); Verify := λ s root, bool_decide (s = root);
     ownDID := "did:web:a.example" |}.

Lemma demo_services_laws : @AuditServicesLaws demo_services.
Proof.
  constructor; cbn -[field unfield].
  - intros []. unfold entry_fields, entry_of_fields. cbn -[field unfield]. by rewrite !unfield_field; cbn -[field unfield]; rewrite ?unfield_field.
  - apply unfield_field.
  - intros []. unfold checkpoint_fields, checkpoint_of_fields. cbn -[field unfield]. by rewrite !unfield_field.
  - intros a b E. by apply spell_inj, encode_inj in E.
Qed.

Definition demo_event (id : Z) (type : string) (created : Z) : OutboxEvent :=
  {| ID := id; Component := ContractWorkflowEngine; EventType := type; EventData := [7]; DID := Some "c1";
     CreatedAt := created |}.

Definition demo_tick : Tick :=
  {| t_now := 10; t_locked := λ _, false; t_rank := λ id, id; t_group_rank := λ _, 0;
     t_rand := λ id, Some [id]; t_encrypt := λ _ body, Sealed body; t_create := λ _, true; t_resolves := λ _, true;
     t_put := Some "checkpoint-1"; t_put_resolves := true; t_timestamp := λ root, Ok root;
     t_publish := λ _, true; t_event_commit := λ _, true; t_commit := true |}.

(** Two changes of a contract and a lookup, and the tick that anchors them. *)
Definition demo_backlog : World :=
  PersistEvent (demo_event 3 "RETRIEVE_BY_ID" 3)
    (PersistEvent (demo_event 2 "SUBMIT" 2) (PersistEvent (demo_event 1 "CREATE" 1) (@empty_world))).

Definition demo_world : World := (@processing_tick demo_services demo_tick demo_backlog).1.

Lemma demo_backlog_reachable : @reachable demo_services demo_backlog.
Proof.
  do 3 (eapply reachable_step; [|by apply step_persist; apply (bool_decide_unpack _); vm_compute]). apply reachable_empty.
Qed.

Lemma demo_reachable : @reachable demo_services demo_world.
Proof. apply reachable_step with demo_backlog; [apply demo_backlog_reachable|by apply step_process]. Qed.

Lemma append_only_witness :
  ∃ batches new, @represents demo_services demo_backlog batches ∧ (length new <= 1)%nat ∧
    @represents demo_services demo_world (batches ++ new) ∧ length (checkpoints demo_world) = 1%nat.
Proof.
  destruct (@trail_is_an_append_only_log demo_services demo_services_laws) as [H0 Hstep].
  assert (Hb : ∃ batches, @represents demo_services demo_backlog batches).
  { assert (Hp : ∀ e w, (∃ b, @represents demo_services w b) → bool_decide (ID e ∉ (λ r, ID (event r)) <$> outbox w) = true →
      ∃ b, @represents demo_services (PersistEvent e w) b).
    { intros e w [b Hr] Hid. destruct (Hstep w (PersistEvent e w) b Hr) as (n & _ & Hn); [|eauto].
      apply step_persist. by apply bool_decide_eq_true in Hid. }
    apply Hp; [apply Hp; [apply Hp; [eauto|reflexivity]|reflexivity]|reflexivity]. }
  destruct Hb as [batches Hb].
  destruct (Hstep demo_backlog demo_world batches Hb) as (new & Hl & Hn); [by apply step_process|].
  exists batches, new. split; [exact Hb|]. split; [exact Hl|]. split; [exact Hn|]. vm_compute. reflexivity.
Defined.

Lemma exactly_once_witness :
  le_ID <$> omap (@stored_entry demo_services demo_world) (leaves demo_world) ≡ₚ [1; 2].
Proof.
  destruct (@events_are_anchored_exactly_once demo_services demo_services_laws demo_world demo_reachable) as (_ & HP & _).
  rewrite HP. vm_compute. reflexivity.
Defined.

Lemma bounded_witness : Forall row_ok (outbox demo_world).
Proof. exact (proj1 (@retries_and_batches_are_bounded demo_services demo_services_laws demo_world demo_reachable)). Defined.
