(* ===== verification/AuditReads.v ===== *)
(** What the readers of the audit trail get: the walk along a resource's chain,
    the read of the whole trail, and inclusion proofs (audittrail.go and
    querycheckpoint.go), over the log the outbox jobs keep. *)
From S2P Require Import Prelude Sha256 Merkle Scopes OutboxJobs AuditTrail AuditLog.
Import OutboxRepo AuditTrailRepo.

Section Reads.
Context `{AuditServicesLaws} (decrypt : Scope → bytes → Decrypted).

(** The header of an entry, which stays readable. *)
Definition header (e : AuditLogEntry) : AuditLogEntry := with_body e [].

(** [l] is what a reader gets for the stored entry [e]. *)
Definition opens (e l : AuditLogEntry) : Prop :=
  openAuditLogEntry decrypt (object e) = Ok l ∧ header l = header e.

(** Decryption answers with the body, or with the fact that its key is gone. *)
Definition keys_answer : Prop := ∀ s b cause, decrypt s b ≠ DecryptFailed cause.

(** The entries of the trail, in the order of its leaves. *)
Definition trail_entries (w : World) : list AuditLogEntry := omap (stored_entry w) (leaves w).

(** Among the newest [n] checkpoints: fewer than [n] are newer. *)
Definition among_newest (n : nat) (rs : list AuditCheckpointRecord) (seq : Z) : bool :=
  Nat.ltb (length (rows_where (λ r, seq <? r_Seq r) rs)) n.

(** The entries of the newest [n] checkpoints, in the order of their leaves. *)
Definition newest_entries (n : nat) (w : World) : list AuditLogEntry :=
  omap (stored_entry w) (rows_where (λ l, among_newest n (checkpoints w) (checkpoint_seq l)) (leaves w)).

(** A digest as it is stored: the hexadecimal text of 32 bytes. *)
Definition is_digest (s : string) : Prop := ∃ h, is_hash h ∧ s = EncodeToString h.

(** A proof that verifies for stored bytes, against a checkpoint of the trail. *)
Definition proves (w : World) (p : CheckpointProof) (data : bytes) : Prop :=
  p_LeafHash p = MerkleLeafHash data ∧ 0 <= p_LeafIndex p < h_LeafCount (p_Head p) ∧
  VerifyMerkleInclusion (p_LeafHash p) (p_Siblings p) (p_LeafIndex p) (h_LeafCount (p_Head p))
    (h_Root (p_Head p)) = true ∧
  BySequence w (h_Seq (p_Head p)) = Some (p_Head p).

Lemma scope_named_kind k id : scope_named (kind_string k) id = Some {| s_Kind := k; s_ID := id |}.
Proof. by destruct k. Qed.

Lemma open_stored e : keys_answer → well_sealed e → ∃ l, opens e l.
Proof.
  intros Hk Hs. unfold opens, openAuditLogEntry. rewrite Unmarshal_Marshal.
  destruct Hs as [->|(body & k & -> & ->)]; [by exists e|].
  case_match; [by exists e|]. rewrite UnmarshalBytes_Marshal, scope_named_kind.
  destruct (decrypt _ _) as [p| |cause] eqn:E; [by eexists|by eexists|]. by destruct (Hk _ _ _ E).
Qed.

Lemma batches_sealed w batches : represents w batches → Forall well_sealed (concat batches).
Proof.
  intros Hrep. eapply Forall_impl; [exact (rp_entries _ _ Hrep)|]. by intros e (r & _ & _ & _ & _ & _ & _ & ?).
Qed.

(** ** Along a chain *)
Lemma fetch_stored w e : is_stored (ipfs w) e → FetchFile w (entry_id e) = Ok (object e).
Proof. unfold FetchFile. by intros ->. Qed.

Lemma walk_chain w head S : chain (ipfs w) head S → keys_answer → Forall well_sealed S →
  ∀ fuel c, head = Some c → (length S <= fuel)%nat →
  ∃ L, walk decrypt fuel w c = Some (Ok L) ∧ Forall2 opens S L.
Proof.
  intros Hch Hk. induction Hch as [|e S He Hch IH]; intros Hs fuel c; [done|].
  intros [= <-] Hfuel. inversion Hs as [|? ? Hse HsS]; subst.
  destruct (open_stored e Hk Hse) as (l & Hl). destruct fuel as [|fuel]; [simpl in Hfuel; lia|].
  cbn [walk]. rewrite fetch_stored by done. cbn [wrap_err mbind result_bind]. rewrite (proj1 Hl). cbn [wrap_err].
  assert (Epred : le_ResLogPredCID l = le_ResLogPredCID e) by exact (f_equal le_ResLogPredCID (proj2 Hl)).
  rewrite Epred. destruct (le_ResLogPredCID e) as [p|] eqn:Ep.
  - destruct (IH HsS fuel p eq_refl) as (L & -> & HL); [simpl in Hfuel; lia|].
    exists (l :: L). split; [done|]. by constructor.
  - inversion Hch; subst. exists [l]. split; [done|]. constructor; [exact Hl|constructor].
Qed.

(** A resource's trail reads back completely.  In every reachable world, with
    keys that answer, the walk from the head of a resource's chain stops after at
    most one step per leaf of the trail and returns, newest link first, exactly
    the entries of that resource: none is missing, none is foreign, every header
    is as stored, and every body is the decrypted one or the erased marker. *)
Theorem resource_reads_are_complete w key :
  reachable w → keys_answer →
  ∃ C L, ReadAuditLogEntriesByComponentAndDID decrypt (S (length (leaves w))) w key = Some (Ok L) ∧
    Forall2 opens C L ∧ chain (ipfs w) (ReadLogCID w key) C ∧
    C ≡ₚ rows_where (λ e, bool_decide (entry_key e = Some key)) (trail_entries w).
Proof.
  intros (batches & Hrep)%reachable_represents Hk. unfold trail_entries. rewrite (omap_entries w batches Hrep).
  destruct (rp_chains _ _ Hrep key) as (C & HC & HP). exists C.
  assert (Hlen : (length C <= length (leaves w))%nat).
  { rewrite HP. etransitivity; [apply length_filter|]. pose proof (f_equal length (leaves_entries w batches Hrep)) as E.
    rewrite !length_fmap in E. lia. }
  assert (Hs : Forall well_sealed C).
  { rewrite HP. apply Forall_forall. intros e [He _]%elem_of_rows_where.
    by apply (proj1 (Forall_forall _ _) (batches_sealed w batches Hrep)). }
  unfold ReadAuditLogEntriesByComponentAndDID. destruct (ReadLogCID w key) as [c|] eqn:E.
  - destruct (walk_chain w (Some c) C HC Hk Hs (S (length (leaves w))) c eq_refl) as (L & HL & HF); [lia|].
    by exists L.
  - inversion HC; subst. exists []. repeat split; done.
Qed.

(** ** The whole trail *)
Lemma read_leaves_stored w b : keys_answer → Forall well_sealed b → Forall (is_stored (ipfs w)) b →
  ∃ L, read_leaves decrypt w (entry_id <$> b) = Ok L ∧ Forall2 opens b L.
Proof.
  intros Hk. induction 1 as [|e b Hse _ IH]; intros Hst; [by exists []|]. inversion Hst; subst.
  destruct (open_stored e Hk Hse) as (l & Hl). destruct IH as (L & HL & HF); [done|].
  exists (l :: L). rewrite fmap_cons. cbn [read_leaves]. rewrite fetch_stored by done.
  cbn [wrap_err mbind result_bind]. rewrite (proj1 Hl). cbn [wrap_err mbind result_bind]. rewrite HL.
  split; [done|]. by constructor.
Qed.

Lemma read_checkpoint_committed w r b : committed w r b →
  ∃ c, read_checkpoint w r = Ok c ∧ cp_LeafCIDs c = entry_id <$> b.
Proof. intros Hc. unfold read_checkpoint. rewrite (cm_artifact _ _ _ Hc), UnmarshalCheckpoint_Marshal. by eexists. Qed.

Lemma read_checkpoints_committed w rs bs : keys_answer → Forall2 (committed w) rs bs →
  Forall well_sealed (concat bs) → Forall (is_stored (ipfs w)) (concat bs) →
  ∃ L, read_checkpoints decrypt w rs = Ok L ∧ Forall2 opens (concat (reverse <$> bs)) L.
Proof.
  intros Hk. induction 1 as [|r b rs bs Hc _ IH]; [by exists []|]. cbn [concat].
  intros [Hs1 Hs2]%Forall_app [Hi1 Hi2]%Forall_app. destruct (IH Hs2 Hi2) as (older & Hold & HF).
  destruct (read_checkpoint_committed w r b Hc) as (c & Hc' & Ecids).
  destruct (read_leaves_stored w b Hk Hs1 Hi1) as (L & HL & HFL).
  exists (reverse L ++ older). cbn [read_checkpoints]. rewrite Hc'. cbn [mbind result_bind].
  rewrite Ecids, HL. cbn [mbind result_bind]. rewrite Hold. split; [done|]. rewrite fmap_cons. cbn [concat].
  apply Forall2_app; [by apply Forall2_reverse|done].
Qed.

Lemma concat_reverse {A} (bs : list (list A)) : concat (reverse <$> reverse bs) = reverse (concat bs).
Proof.
  induction bs as [|b bs IH]; [done|]. rewrite reverse_cons, fmap_app, concat_app, IH.
  cbn [concat fmap list_fmap]. by rewrite app_nil_r, reverse_app.
Qed.

Lemma take_reverse {A} n (l : list A) : take n (reverse l) = reverse (drop (length l - n) l).
Proof.
  destruct (decide (length l <= n)%nat) as [Hle|Hgt].
  - rewrite take_ge by (rewrite length_reverse; lia). by replace (length l - n)%nat with 0%nat by lia.
  - rewrite <-(take_drop (length l - n) l) at 1. rewrite reverse_app, take_app_length'; [done|].
    rewrite length_reverse, length_drop. lia.
Qed.

Lemma leaf_rows_seq seq i cids hashes l : l ∈ leaf_rows seq i cids hashes → checkpoint_seq l = seq.
Proof.
  revert i hashes. induction cids as [|c cids IH]; intros i [|h hashes]; cbn [leaf_rows];
    try (by intros []%elem_of_nil). intros [->|Hl]%elem_of_cons; [done|]. by eapply IH.
Qed.

Lemma list_filter_all {A} (P : A → Prop) `{∀ x, Decision (P x)} l : Forall P l → l = filter P l.
Proof. induction 1; [done|]. rewrite filter_cons_True by done. by f_equal. Qed.

Lemma newer_than pre r post : StronglySorted Z.lt (r_Seq <$> pre ++ r :: post) →
  rows_where (λ x, r_Seq r <? r_Seq x) (pre ++ r :: post) = post.
Proof.
  induction pre as [|x pre IH]; cbn [app]; rewrite fmap_cons; intros [Hs Hlt]%StronglySorted_inv; rewrite Forall_fmap in Hlt.
  - unfold rows_where. rewrite filter_cons_False by lia. symmetry. apply list_filter_all.
    eapply Forall_impl; [exact Hlt|]. intros x Hx. cbn in Hx. lia.
  - unfold rows_where. rewrite filter_cons_False; [by apply IH|].
    rewrite Forall_forall in Hlt. specialize (Hlt r ltac:(set_solver)). cbn in Hlt. lia.
Qed.

Lemma newest_leaves n pre rs bs : StronglySorted Z.lt (r_Seq <$> pre ++ rs) → length rs = length bs →
  rows_where (λ l, among_newest n (pre ++ rs) (checkpoint_seq l)) (concat (zip_with batch_leaves rs bs)) =
  concat (zip_with batch_leaves (drop (length rs - n) rs) (drop (length rs - n) bs)).
Proof.
  revert pre bs. induction rs as [|r rs IH]; intros pre [|b bs] Hs Hlen; try done. cbn [zip_with concat].
  assert (Hs' : StronglySorted Z.lt (r_Seq <$> (pre ++ [r]) ++ rs)) by by rewrite <-app_assoc.
  specialize (IH (pre ++ [r]) bs Hs' ltac:(cbn in Hlen; lia)). rewrite <-app_assoc in IH. cbn [app] in IH.
  unfold rows_where in *. rewrite filter_app, IH.
  assert (Hb : Forall (λ l, among_newest n (pre ++ r :: rs) (checkpoint_seq l) = (length rs <? n)%nat) (batch_leaves r b)).
  { apply Forall_forall. intros l ->%leaf_rows_seq. unfold among_newest. by rewrite newer_than. }
  destruct (Nat.ltb_spec (length rs) n) as [Hn|Hn].
  - rewrite <-(list_filter_all _ (batch_leaves r b)) by exact Hb. cbn [length].
    replace (length rs - n)%nat with 0%nat by lia. by replace (S (length rs) - n)%nat with 0%nat by lia.
  - replace (filter _ (batch_leaves r b)) with (@nil CheckpointLeaf).
    + cbn [length app]. by replace (S (length rs) - n)%nat with (S (length rs - n)) by lia.
    + symmetry. apply rows_where_nil. intros l Hl. rewrite Forall_forall in Hb. by apply Hb.
Qed.

Lemma omap_leaves w rs bs : length rs = length bs → Forall (is_stored (ipfs w)) (concat bs) →
  omap (stored_entry w) (concat (zip_with batch_leaves rs bs)) = concat bs.
Proof.
  revert bs. induction rs as [|r rs IH]; intros [|b bs] Hlen Hb; try done. cbn [zip_with concat] in *.
  apply Forall_app in Hb as [Hb Hbs]. rewrite omap_app, IH by (by cbn in Hlen; lia || done). f_equal.
  pose proof (leaf_rows_entries w (r_Seq r) 0 b Hb) as E. fold (batch_leaves r b) in E. revert E. generalize (batch_leaves r b).
  clear. intros l. revert b. induction l as [|x l IH]; intros [|e b]; try done. rewrite !fmap_cons. intros [= Hx Hl].
  cbn. rewrite Hx. f_equal. by apply IH.
Qed.

(** C32: The whole trail reads back, newest first.  In every reachable world, with
    keys that answer, the read of the trail returns the entries of the newest 500
    checkpoints, every one of them and no other, in the reverse of the order they
    were committed in; while there are at most 500 checkpoints these are all the
    entries of the trail. *)
Theorem trail_reads_back_newest_first w :
  reachable w → keys_answer →
  ∃ L, ReadAllAuditLogEntries decrypt w = Ok L ∧ Forall2 opens (reverse (newest_entries 500 w)) L ∧
    ((length (checkpoints w) <= 500)%nat → newest_entries 500 w = trail_entries w).
Proof.
  intros (batches & Hrep)%reachable_represents Hk. pose proof (Forall2_length _ _ _ (rp_checkpoints _ _ Hrep)) as Hlen.
  pose proof (batches_sealed w batches Hrep) as Hs. pose proof (rp_stored _ _ Hrep) as Hi.
  assert (Hnew : ∀ n, newest_entries n w = concat (drop (length (checkpoints w) - n) batches)).
  { intros n. unfold newest_entries. rewrite (rp_leaves _ _ Hrep).
    pose proof (newest_leaves n [] (checkpoints w) batches (rp_seqs _ _ Hrep) Hlen) as E. cbn [app] in E. rewrite E.
    apply omap_leaves.
    - rewrite !length_drop. lia.
    - rewrite <-(take_drop (length (checkpoints w) - n) batches), concat_app in Hi. by apply Forall_app in Hi as [_ Hi]. }
  rewrite Hnew. set (k := (length (checkpoints w) - 500)%nat).
  rewrite <-(take_drop k batches), concat_app in Hs, Hi. apply Forall_app in Hs as [_ Hs]. apply Forall_app in Hi as [_ Hi].
  destruct (read_checkpoints_committed w (reverse (drop k (checkpoints w))) (reverse (drop k batches)) Hk) as (L & HL & HF).
  - by apply Forall2_reverse, Forall2_drop, Hrep.
  - by rewrite (reverse_Permutation (drop k batches)).
  - by rewrite (reverse_Permutation (drop k batches)).
  - exists L. split; [|split].
    + unfold ReadAllAuditLogEntries, ReadCheckpoints. rewrite newest_first_reverse by apply Hrep.
      by rewrite take_reverse.
    + by rewrite <-concat_reverse.
    + intros Hle. unfold trail_entries. rewrite (omap_entries w batches Hrep). unfold k.
      by replace (length (checkpoints w) - 500)%nat with 0%nat by lia.
Qed.

(** ** Inclusion proofs *)
Lemma leaf_rows_at seq i b l : l ∈ leaf_rows seq i (entry_id <$> b) (entry_hash <$> b) →
  ∃ j e, b !! j = Some e ∧ idx l = i + Z.of_nat j ∧ entry_cid l = entry_id e ∧ leaf_hash l = entry_hash e.
Proof.
  revert i. induction b as [|e b IH]; intros i; [by intros []%elem_of_nil|]. rewrite !fmap_cons. cbn [leaf_rows].
  intros [->|Hl]%elem_of_cons; [exists 0%nat, e; cbn; split_and!; [done|lia|done|done]|].
  destruct (IH _ Hl) as (j & e' & Hj & Hi & ?). exists (S j), e'. split; [done|]. split; [lia|done].
Qed.

Lemma leaf_rows_hashes seq i b : leaf_hash <$> order_by idx (leaf_rows seq i (entry_id <$> b) (entry_hash <$> b)) = entry_hash <$> b.
Proof.
  assert (Hord : ∀ i, ordered_by idx (leaf_rows seq i (entry_id <$> b) (entry_hash <$> b))).
  { induction b as [|e b IH]; intros j; [constructor|]. rewrite !fmap_cons. cbn [leaf_rows].
    constructor; [apply IH|]. apply Forall_forall. intros l (k & ? & _ & Hk & _)%leaf_rows_at. cbn. lia. }
  rewrite order_by_ordered by apply Hord. clear Hord. revert i. induction b as [|e b IH]; intros i; [done|].
  rewrite !fmap_cons. cbn [leaf_rows]. by rewrite fmap_cons, IH.
Qed.

(** The rows of one sequence number are the leaves of that checkpoint. *)
Lemma batch_rows rs bs r b i : StronglySorted Z.lt (r_Seq <$> rs) → length rs = length bs →
  rs !! i = Some r → bs !! i = Some b →
  rows_where (λ l, bool_decide (checkpoint_seq l = r_Seq r)) (concat (zip_with batch_leaves rs bs)) = batch_leaves r b ∧
  head (rows_where (λ x, bool_decide (r_Seq x = r_Seq r)) rs) = Some r.
Proof.
  revert bs i. induction rs as [|x rs IH]; intros [|y bs] [|i] Hs Hlen; try done; cbn in *;
    inversion Hs as [|? ? Hs' Hlt]; subst; clear Hs; rewrite (Forall_fmap r_Seq) in Hlt; unfold rows_where in *.
  - intros [= ->] [= ->]. rewrite filter_app. split.
    + replace (filter _ (concat _)) with (@nil CheckpointLeaf).
      * rewrite app_nil_r. symmetry. apply list_filter_all.
        apply Forall_forall. intros l Hl%leaf_rows_seq. by apply bool_decide_eq_true.
      * symmetry. apply rows_where_nil. intros l (ls & Hl & Hin)%elem_of_concat. apply bool_decide_eq_false.
        apply elem_of_lookup_zip_with in Hin as (k & r' & b' & -> & Hr' & _). apply leaf_rows_seq in Hl as ->.
        apply list_elem_of_lookup_2 in Hr'. rewrite Forall_forall in Hlt. specialize (Hlt r' Hr'). cbn in Hlt. lia.
    + rewrite decide_True by by apply bool_decide_eq_true. done.
  - intros Hr Hb. destruct (IH bs i Hs' ltac:(lia) Hr Hb) as [E1 E2].
    assert (Hne : r_Seq x ≠ r_Seq r).
    { apply list_elem_of_lookup_2 in Hr. rewrite Forall_forall in Hlt. specialize (Hlt r Hr). cbn in Hlt. lia. }
    rewrite filter_app, decide_False by (by rewrite bool_decide_eq_true). split; [|done].
    replace (filter _ (batch_leaves x y)) with (@nil CheckpointLeaf); [done|].
    symmetry. apply rows_where_nil. intros l Hl%leaf_rows_seq. apply bool_decide_eq_false. by rewrite Hl.
Qed.

Lemma located_leaf w batches l : represents w batches → l ∈ leaves w →
  ∃ r b j e, ReadCheckpointBySequence w (checkpoint_seq l) = Some r ∧ committed w r b ∧
    b !! j = Some e ∧ idx l = Z.of_nat j ∧ entry_cid l = entry_id e ∧ leaf_hash l = entry_hash e ∧ is_stored (ipfs w) e ∧
    leaf_hash <$> order_by idx (rows_where (λ x, bool_decide (checkpoint_seq x = checkpoint_seq l)) (leaves w)) =
      entry_hash <$> b.
Proof.
  intros Hrep Hl. pose proof (Forall2_length _ _ _ (rp_checkpoints _ _ Hrep)) as Hlen. rewrite (rp_leaves _ _ Hrep) in *.
  apply elem_of_concat in Hl as (ls & Hl & (i & r & b & -> & Hr & Hb)%elem_of_lookup_zip_with).
  destruct (batch_rows _ _ r b i (rp_seqs _ _ Hrep) Hlen Hr Hb) as [E1 E2].
  rewrite (leaf_rows_seq _ _ _ _ _ Hl). apply leaf_rows_at in Hl as (j & e & He & Hj & Hid & Hh).
  exists r, b, j, e. unfold ReadCheckpointBySequence. split; [done|]. split.
  { destruct (Forall2_lookup_l _ _ _ _ _ (rp_checkpoints _ _ Hrep) Hr) as (b' & Hb' & ?). congruence. }
  split_and!; try done.
  - apply (proj1 (Forall_forall _ _) (rp_stored _ _ Hrep)). apply elem_of_concat. exists b.
    split; by eapply list_elem_of_lookup_2.
  - rewrite E1. apply leaf_rows_hashes.
Qed.

Lemma read_sequence w seq r : ReadCheckpointBySequence w seq = Some r → r_Seq r = seq.
Proof.
  unfold ReadCheckpointBySequence. intros Hh%head_Some_elem_of. apply elem_of_rows_where in Hh as [_ Hh].
  by apply bool_decide_eq_true in Hh.
Qed.

Lemma encode_width h : String.length (EncodeToString h) = (2 * length h)%nat.
Proof. induction h as [|x h IH]; [done|]. cbn. rewrite IH. cbn. lia. Qed.

Lemma digest_width s : is_digest s → is_digest s ∧ String.length s = 64%nat.
Proof. intros Hs. split; [done|]. destruct Hs as (h & [Hl _] & ->). by rewrite encode_width, Hl. Qed.

Lemma root_loop_hash fuel level : Forall is_hash level → level ≠ [] → is_hash (root_loop fuel level).
Proof.
  revert level. induction fuel as [|fuel IH]; intros [|a [|b level]] Hl Hne; try done; cbn [root_loop];
    try (by inversion Hl).
  apply IH; [by apply next_level_hashes|done].
Qed.

Lemma root_is_digest (b : list AuditLogEntry) root : MerkleRoot (entry_hash <$> b) = Ok root → is_digest root.
Proof.
  intros (level & Hd & Hne & ->)%MerkleRoot_Ok. exists (root_loop (length level) level). split; [|done].
  apply root_loop_hash; [|done].
  assert (E : entry_hash <$> b = MerkleLeafHash <$> (object <$> b)) by by rewrite <-list_fmap_compose.
  rewrite E, decode_leaf_hashes in Hd. injection Hd as <-.
  apply Forall_fmap, Forall_forall. intros; apply Sum256_hash.
Qed.

(** C31: Every anchored entry can be proved.  In every reachable world, the proof
    query answers for every leaf of the trail: it returns the leaf hash of the
    very bytes stored under the entry's CID, an index below the leaf count, and
    siblings with which that hash verifies against the root of the checkpoint the
    entry is in. *)
Theorem every_anchored_entry_has_a_proof w l :
  reachable w → l ∈ leaves w →
  ∃ p data, Proof_ w (entry_cid l) = Ok (Some p) ∧ ipfs w !! entry_cid l = Some data ∧
    proves w p data.
Proof.
  intros (batches & Hrep)%reachable_represents Hl. unfold Proof_, ReadCheckpointForEntry.
  destruct (order_by checkpoint_seq _) as [|loc rest] eqn:Eloc.
  { exfalso. apply (not_elem_of_nil l). rewrite <-Eloc, elem_of_order_by, elem_of_rows_where.
    split; [done|]. by apply bool_decide_eq_true. }
  assert (Hloc : loc ∈ leaves w ∧ entry_cid loc = entry_cid l).
  { rewrite <-(bool_decide_eq_true (_ = _)), <-(elem_of_rows_where (λ x, bool_decide (entry_cid x = entry_cid l))),
      <-(elem_of_order_by checkpoint_seq), Eloc. left. }
  destruct Hloc as [Hin Ecid].
  destruct (located_leaf w batches loc Hrep Hin) as (r & b & j & e & Hread & Hc & Hj & Hidx & Hid & Hh & Hst & Hhashes).
  rewrite Hread, Hhashes. cbn [wrap_err mbind result_bind].
  destruct (MerkleRoot_Ok _ _ (cm_root _ _ _ Hc)) as (level & Hd & _ & Hroot).
  assert (Hleaf : (entry_hash <$> b) !! j = Some (entry_hash e)) by by rewrite list_lookup_fmap, Hj.
  destruct (level_proof_verifies _ _ _ _ Hd Hleaf) as [Hproof Hver]. rewrite <-Hroot in Hver.
  rewrite Hidx, Hproof. cbn [wrap_err mbind result_bind]. rewrite Nat2Z.id, Hleaf, Hver.
  eexists _, (object e). split; [reflexivity|]. unfold proves. cbn. rewrite <-Ecid, Hid, (cm_count _ _ _ Hc).
  rewrite length_fmap in Hver. apply lookup_lt_Some in Hj as Hlt.
  split; [done|]. split; [done|]. split; [lia|]. split; [done|].
  unfold BySequence. by rewrite (read_sequence _ _ _ Hread), Hread.
Qed.

Lemma linked_prev prev l i r : linked prev l → l !! i = Some r →
  r_PrevRoot r = match i with O => prev | S j => r_Root <$> l !! j end.
Proof.
  revert prev i. induction l as [|x l IH]; intros prev [|i] Hl Hi; try done; destruct Hl as [Hx Hl].
  - by injection Hi as <-.
  - cbn in Hi |- *. rewrite (IH _ _ Hl Hi). by destruct i.
Qed.

(** C33: The stored hashes are the digests they stand for.  In every reachable world
    the hash of every leaf is the lower-case hexadecimal text of the SHA-256 of the
    byte 0 and the bytes stored under the leaf's CID; the root of every checkpoint
    is the Merkle root of the hashes of its own leaves, in the order of their
    indices; every checkpoint names the root of the one before it, the first none;
    and hashes and roots have 64 characters, the width of their columns. *)
Theorem stored_hashes_are_digests w :
  reachable w →
  (∀ l, l ∈ leaves w → String.length (leaf_hash l) = 64%nat ∧
     ∃ data, ipfs w !! entry_cid l = Some data ∧ leaf_hash l = EncodeToString (Sum256 (0 :: data))) ∧
  (∀ i r, checkpoints w !! i = Some r →
     is_digest (r_Root r) ∧ String.length (r_Root r) = 64%nat ∧
     MerkleRoot (leaf_hash <$> order_by idx (rows_where (λ l, bool_decide (checkpoint_seq l = r_Seq r)) (leaves w)))
       = Ok (r_Root r) ∧
     r_PrevRoot r = match i with O => None | S j => r_Root <$> checkpoints w !! j end).
Proof.
  intros (batches & Hrep)%reachable_represents. split.
  - intros l Hl. destruct (located_leaf w batches l Hrep Hl) as (_ & _ & _ & e & _ & _ & _ & _ & Hcid & -> & Hst & _).
    split; [|exists (object e); by rewrite Hcid].
    apply digest_width. exists (Sum256 (merkleLeafPrefix ++ object e)). split; [apply Sum256_hash|done].
  - intros i r Hi. destruct (Forall2_lookup_l _ _ _ _ _ (rp_checkpoints _ _ Hrep) Hi) as (b & Hb & Hc).
    pose proof (cm_root _ _ _ Hc) as Hroot. destruct (digest_width _ (root_is_digest _ _ Hroot)) as [Hd Hw].
    split; [done|]. split; [done|]. split; [|by apply (linked_prev None _ i), Hi; apply Hrep].
    rewrite (rp_leaves _ _ Hrep).
    destruct (batch_rows _ _ r b i (rp_seqs _ _ Hrep) (Forall2_length _ _ _ (rp_checkpoints _ _ Hrep)) Hi Hb) as [-> _].
    unfold batch_leaves. by rewrite leaf_rows_hashes.
Qed.

End Reads.

(** ** The demonstration trail, read *)
Definition demo_decrypt (s : Scope) (b : bytes) : Decrypted := Plain b.
Definition demo_key : chainKey := {| component := ContractWorkflowEngine; did := "c1" |}.
Definition demo_leaf : CheckpointLeaf := Eval vm_compute in
  match leaves demo_world with _ :: l :: _ => l | _ => {| checkpoint_seq := 0; idx := 0; entry_cid := EmptyString; leaf_hash := EmptyString |} end.

Lemma demo_keys_answer : keys_answer demo_decrypt.
Proof. intros s b cause. discriminate. Qed.

Lemma resource_reads_witness :
  ∃ L, @ReadAuditLogEntriesByComponentAndDID demo_services demo_decrypt 3 demo_world demo_key = Some (Ok L) ∧
    le_ID <$> L = [2; 1] ∧ le_EventData <$> L = [[7]; [7]].
Proof.
  destruct (@resource_reads_are_complete demo_services demo_services_laws demo_decrypt demo_world demo_key
              demo_reachable demo_keys_answer) as (C & L & HL & _).
  exists L. split; [exact HL|]. vm_compute in HL. injection HL as <-. split; reflexivity.
Defined.

Lemma trail_reads_witness :
  ∃ L, @ReadAllAuditLogEntries demo_services demo_decrypt demo_world = Ok L ∧ le_ID <$> L = [2; 1].
Proof.
  destruct (@trail_reads_back_newest_first demo_services demo_services_laws demo_decrypt demo_world
              demo_reachable demo_keys_answer) as (L & HL & _).
  exists L. split; [exact HL|]. vm_compute in HL. injection HL as <-. reflexivity.
Defined.

Lemma demo_leaf_stored : demo_leaf ∈ leaves demo_world.
Proof. apply (list_elem_of_lookup_2 _ 1%nat). vm_compute. reflexivity. Qed.

Lemma anchored_proof_witness :
  ∃ p, Proof_ demo_world (entry_cid demo_leaf) = Ok (Some p) ∧ p_LeafIndex p = 1.
Proof.
  destruct (@every_anchored_entry_has_a_proof demo_services demo_services_laws demo_world demo_leaf
              demo_reachable demo_leaf_stored) as (p & data & Hp & _).
  exists p. split; [exact Hp|]. vm_compute in Hp. injection Hp as <-. reflexivity.
Defined.

Lemma digests_witness : Forall (λ l, String.length (leaf_hash l) = 64%nat) (leaves demo_world).
Proof.
  apply Forall_forall. intros l Hl.
  exact (proj1 (proj1 (@stored_hashes_are_digests demo_services demo_services_laws demo_world demo_reachable) l Hl)).
Defined.
