(* ===== verification/AuditDrain.v ===== *)
(** The backlog of the outbox drains: how many processing ticks it takes until
    every event is anchored or dead-lettered.

    Entries may fail to be written in any way, for ever; what the argument asks of
    a tick is that its own database transactions commit, that no other transaction
    holds the rows, and that the checkpoint can be stored. *)
From S2P Require Import Prelude Sha256 Merkle Scopes OutboxJobs AuditTrail AuditLog.
Import OutboxRepo AuditTrailRepo.

(** ** The measure *)

(** How many more failures a row can take. *)
Definition budget (r : OutboxRow) : nat :=
  if awaits_anchoring r then Z.to_nat (OutboxAnchorMaxAttempts - anchor_attempts r) else 0.

Definition measure (w : World) : nat := sum_list (budget <$> outbox w).

Definition settled (w : World) : Prop := Forall (λ r, awaits_anchoring r = false) (outbox w).

(** Rows of one world against the rows of a later one. *)
Definition lighter (rows rows' : list OutboxRow) : Prop := Forall2 (λ r r', (budget r' <= budget r)%nat) rows rows'.

Lemma lighter_refl rows : lighter rows rows.
Proof. induction rows; constructor; [lia|done]. Qed.

Lemma lighter_sum rows rows' : lighter rows rows' → (sum_list (budget <$> rows') <= sum_list (budget <$> rows))%nat.
Proof. induction 1; [done|]. rewrite !fmap_cons. simpl. lia. Qed.

Lemma lighter_sum_strict rows rows' i r r' : lighter rows rows' →
  rows !! i = Some r → rows' !! i = Some r' → (budget r' < budget r)%nat →
  (sum_list (budget <$> rows') < sum_list (budget <$> rows))%nat.
Proof.
  intros HF. revert i. induction HF as [|x y l k Hxy HF IH]; intros [|i] Hr Hr' Hlt; try done; rewrite !fmap_cons; simpl in *.
  - simplify_eq. pose proof (lighter_sum _ _ HF). lia.
  - specialize (IH i Hr Hr' Hlt). lia.
Qed.

Lemma budget_pos r : row_ok r → awaits_anchoring r = true → (0 < budget r)%nat.
Proof. intros Hr Ha. destruct (awaits_row r Hr Ha) as (_ & _ & ?). unfold budget. rewrite Ha. lia. Qed.

Lemma budget_processed now r : budget (mark_processed now r) = 0%nat.
Proof. done. Qed.

Lemma budget_counted now c r : row_ok r → awaits_anchoring r = true →
  (budget (count_failure now OutboxAnchorMaxAttempts c r) < budget r)%nat.
Proof.
  intros Hr Ha. destruct (awaits_row r Hr Ha) as (_ & _ & Hlt). destruct Hr as [Hr _]. unfold budget. rewrite Ha.
  destruct (awaits_anchoring (count_failure _ _ _ _)); cbn; lia.
Qed.

(** Marking the rows of some ids processed. *)
Lemma marked_lighter now (p : OutboxRow → bool) rows :
  lighter rows (map (λ r, if p r then mark_processed now r else r) rows).
Proof. induction rows as [|r rows IH]; constructor; [|done]. destruct (p r); [rewrite budget_processed|]; lia. Qed.

Lemma marked_strict now (p : OutboxRow → bool) rows r :
  r ∈ rows → p r = true → row_ok r → awaits_anchoring r = true →
  (sum_list (budget <$> map (λ r, if p r then mark_processed now r else r) rows) < sum_list (budget <$> rows))%nat.
Proof.
  intros [i Hi]%list_elem_of_lookup Hp Hok Ha.
  eapply (lighter_sum_strict rows _ i r (mark_processed now r)); [apply marked_lighter|done| |].
  - rewrite list_lookup_fmap, Hi. cbn. by rewrite Hp.
  - rewrite budget_processed. by apply budget_pos.
Qed.

Section Drain.
Context `{AuditServicesLaws}.

(** ** Ticks that make progress *)
Record healthy (t : Tick) : Prop := {
  hl_unlocked : ∀ id, t_locked t id = false;
  hl_counts : counts_failures t;
  hl_put : is_Some (t_put t);
  hl_resolves : t_put_resolves t = true;
  hl_commit : t_commit t = true
}.

Lemma wrote_lighter t w events st entries fails batches :
  wrote t w events st entries fails → represents w batches → pending_in w events →
  (measure (written st) <= measure w)%nat ∧ (fails ≠ [] → (measure (written st) < measure w)%nat).
Proof.
  intros Hw Hrep Hpend. destruct (wrote_ids _ _ _ _ _ _ Hw (proj1 Hpend)) as (_ & Hnd & Hsub & _).
  unfold measure. rewrite (wr_world _ _ _ _ _ _ Hw). cbn.
  pose proof (apply_failures_rows t fails (outbox w) Hnd) as HF.
  pose proof (proj1 (Forall_forall _ _) (rp_rows _ _ Hrep)) as Hok.
  assert (Hid : ∀ r, r ∈ outbox w → row_id r ∈ fails.*1 → awaits_anchoring r = true ∧ visible r = true).
  { intros r Hr Hin. apply (pending_row w events r); [apply Hrep|done..|]. apply Hsub. by right. }
  assert (HL : lighter (outbox w) (apply_failures t fails (outbox w))).
  { eapply Forall2_mono_in; [exact HF|]. intros r r' Hr [[-> _]|[Hin [c ->]]]; [done|].
    destruct (Hid r Hr Hin) as [Ha _]. pose proof (budget_counted (t_now t) c r (Hok r Hr) Ha). lia. }
  split; [by apply lighter_sum|]. intros Hne. destruct fails as [|[id c] fails]; [done|].
  assert (Hin : id ∈ ID <$> events) by (apply Hsub; right; left).
  apply list_elem_of_fmap in Hin as (e & -> & He). destruct (proj2 Hpend e He) as (r & Hr & <- & Ha & _).
  pose proof Hr as [i Hi]%list_elem_of_lookup. destruct (Forall2_lookup_l _ _ _ _ _ HF Hi) as (r' & Hr' & [[_ Hn]|[_ [c' ->]]]).
  - exfalso. apply Hn. left.
  - eapply lighter_sum_strict; [exact HL|exact Hi|exact Hr'|]. apply budget_counted; [by apply Hok|done].
Qed.

(** A batch of hashed entries always has a root. *)
Lemma batch_has_root (b : list AuditLogEntry) : b ≠ [] → ∃ root, MerkleRoot (entry_hash <$> b) = Ok root.
Proof.
  intros Hb. assert (E : entry_hash <$> b = MerkleLeafHash <$> (object <$> b)) by by rewrite <-list_fmap_compose.
  rewrite E. unfold MerkleRoot. rewrite decode_leaf_hashes.
  destruct b; [done|]. rewrite !fmap_cons. by eexists.
Qed.

Lemma anchorBatch_commits t w events entries fails :
  wrote t w events (writeEntries t events w) entries fails → healthy t → order_by le_ID entries ≠ [] →
  ∃ root c data tsa, (anchorBatch t events w).1 =
    appended (t_now t) c root (ReadLatestCheckpointRoot (written (writeEntries t events w))) tsa
      (order_by le_ID entries) (updatedHeads (writeEntries t events w))
      (set_artifacts (λ m, <[c := data]> m) (written (writeEntries t events w))).
Proof.
  intros Hw [] Hb. unfold anchorBatch. rewrite (anchors_fmap _ _ (wr_anchors _ _ _ _ _ _ Hw)).
  assert (Hne : entries ≠ []) by by intros ->.
  rewrite bool_decide_eq_false_2 by by destruct entries. rewrite order_by_fmap.
  change (eventID ∘ anchor_of) with le_ID. set (b := order_by le_ID entries) in *. rewrite <-!list_fmap_compose.
  change (leafHash ∘ anchor_of) with entry_hash. change (cid ∘ anchor_of) with entry_id.
  destruct (batch_has_root b Hb) as [root Hroot]. rewrite Hroot.
  destruct hl_put0 as [c ->]. rewrite hl_resolves0. cbn [negb]. rewrite commit_checkpoint_eq, hl_commit0. by do 4 eexists.
Qed.

Lemma anchorBatch_progress t w events batches :
  represents w batches → pending_in w events → events ≠ [] →
  (measure (anchorBatch t events w).1 <= measure w)%nat ∧
  (healthy t → (measure (anchorBatch t events w).1 < measure w)%nat).
Proof.
  intros Hrep Hpend Hne.
  destruct (writeEntries_wrote t w events) as (entries & fails & Hw & Heffort);
    [apply Hrep|by eapply NoDup_fmap_1, Hpend|].
  destruct (wrote_lighter _ _ _ _ _ _ _ Hw Hrep Hpend) as [Hle Hlt].
  pose proof (wrote_represents _ _ _ _ _ _ _ Hw Hrep Hpend) as Hst.
  pose proof (wrote_fresh_batch _ _ _ _ _ _ _ Hw Hrep Hpend) as (_ & _ & Hrows).
  set (b := order_by le_ID entries) in *.
  destruct (decide (entries = [])) as [->|Hentries].
  { assert (Ea : anchored (writeEntries t events w) = []) by by rewrite (anchors_fmap _ _ (wr_anchors _ _ _ _ _ _ Hw)).
    unfold anchorBatch. rewrite Ea, bool_decide_eq_true_2 by done. cbn [fst]. split; [done|].
    intros Hh. apply Hlt. intros ->. specialize (Heffort (hl_counts _ Hh) Hne). cbn in Heffort. lia. }
  assert (Hb : b ≠ []).
  { intros E. pose proof (order_by_Permutation le_ID entries) as HP. fold b in HP. rewrite E in HP.
    by apply Permutation_nil in HP. }
  split.
  - destruct (anchorBatch_cases _ _ _ _ _ Hw) as [->|(root & c & data & _ & _ & _ & [->|[->|(tsa & _ & _ & _ & ->)]])];
      try exact Hle.
    etransitivity; [exact (lighter_sum _ _ (marked_lighter _ _ _))|exact Hle].
  - intros Hh. destruct (anchorBatch_commits _ _ _ _ _ Hw Hh Hb) as (root & c & data & tsa & ->).
    assert (∃ e, e ∈ b) as [e He] by (revert Hb; generalize b; intros [|e l] ?; [done|exists e; left]).
    destruct (proj1 (Forall_forall _ _) Hrows e He) as (r0 & Hr & Hfor & Ha & _).
    eapply Nat.lt_le_trans; [|exact Hle].
    refine (marked_strict (t_now t) (λ r, bool_decide (row_id r ∈ le_ID <$> b)) (outbox (written (writeEntries t events w))) r0 Hr _ _ Ha).
    + apply bool_decide_eq_true. unfold row_id. rewrite <-(proj1 Hfor). by apply list_elem_of_fmap_2.
    + by apply (proj1 (Forall_forall _ _) (rp_rows _ _ Hst)).
Qed.

(** ** One tick *)
Lemma lookups_lighter t lookups w batches :
  represents w batches → (∀ e, e ∈ lookups → unseen w e) →
  (measure (foldl (processUnanchoredEvent t) w lookups) <= measure w)%nat.
Proof.
  revert w. induction lookups as [|e lookups IH]; intros w Hrep Hun; cbn [foldl]; [done|].
  destruct (lookups_keep t [e] w batches Hrep) as (Hrep' & _ & _).
  { intros e' ->%list_elem_of_singleton. apply Hun. left. }
  etransitivity; [apply (IH _ Hrep')|].
  - intros e' He'. apply unseen_update, Hun. by right.
  - cbn [foldl]. unfold processUnanchoredEvent. destruct (t_event_commit _ _); [|done].
    apply lighter_sum, marked_lighter.
Qed.

Lemma lookups_progress t lookups w batches :
  represents w batches → (∀ e, e ∈ lookups → unseen w e) → counts_failures t → lookups ≠ [] →
  (∀ e, e ∈ lookups → ∃ r, r ∈ outbox w ∧ event r = e ∧ awaits_anchoring r = true) →
  (measure (foldl (processUnanchoredEvent t) w lookups) < measure w)%nat.
Proof.
  intros Hrep Hun Hc Hne Hrows. destruct lookups as [|e lookups]; [done|]. cbn [foldl].
  destruct (lookups_keep t [e] w batches Hrep) as (Hrep' & _ & _).
  { intros e' ->%list_elem_of_singleton. apply Hun. left. }
  eapply Nat.le_lt_trans; [apply (lookups_lighter t lookups _ batches Hrep')|].
  - intros e' He'. apply unseen_update, Hun. by right.
  - cbn [foldl]. unfold processUnanchoredEvent. rewrite Hc.
    destruct (Hrows e ltac:(left)) as (r & Hr & <- & Ha). apply (marked_strict (t_now t) (has_id (ID (event r))) _ r Hr); [|by apply (proj1 (Forall_forall _ _) (rp_rows _ _ Hrep))|done].
    by apply bool_decide_eq_true.
Qed.

Lemma backlog_nonempty t w : (∀ id, t_locked t id = false) → ¬ settled w → backlog t awaits_anchoring 100 w ≠ [].
Proof.
  intros Hl Hns Hnil. apply Hns. apply Forall_forall. intros r Hr.
  destruct (awaits_anchoring r) eqn:Ea; [|done]. exfalso.
  assert (Hin : event r ∈ order_by CreatedAt (order_by (λ e, t_rank t (ID e))
    (event <$> rows_where (λ r, awaits_anchoring r && negb (t_locked t (ID (event r)))) (outbox w)))).
  { rewrite !elem_of_order_by. apply list_elem_of_fmap_2, elem_of_rows_where. split; [done|]. by rewrite Ea, Hl. }
  unfold backlog in Hnil. destruct (order_by CreatedAt _); [by apply elem_of_nil in Hin|done].
Qed.

Lemma processing_progress t w batches :
  represents w batches →
  (measure (processing_tick t w).1 <= measure w)%nat ∧
  (healthy t → ¬ settled w → (measure (processing_tick t w).1 < measure w)%nat).
Proof.
  intros Hrep. unfold processing_tick. pose proof (rp_ids _ _ Hrep) as Hids.
  set (events := backlog t awaits_anchoring 100 w).
  set (lookups := rows_where (λ e, negb (IsAuditVisibleEventType (EventType e))) events).
  set (anchorable := rows_where (λ e, IsAuditVisibleEventType (EventType e)) events).
  assert (Hev : ∀ e, e ∈ events → ∃ r, r ∈ outbox w ∧ event r = e ∧ awaits_anchoring r = true)
    by (intros e He; by apply elem_of_backlog in He).
  assert (Hun : ∀ e, e ∈ lookups → unseen w e).
  { intros e [He Hv]%elem_of_rows_where r Hr Hid. apply negb_true_iff in Hv.
    destruct (Hev e He) as (r' & Hr' & <- & _). by rewrite (row_unique w r r'). }
  destruct (lookups_keep t lookups w batches Hrep Hun) as (Hrep' & _ & Hkeep).
  pose proof (lookups_lighter t lookups w batches Hrep Hun) as Hle.
  assert (Hlookups : healthy t → lookups ≠ [] → (measure (foldl (processUnanchoredEvent t) w lookups) < measure w)%nat).
  { intros Hh Hne. apply (lookups_progress t lookups w batches); try done; [apply Hh|].
    intros e [He _]%elem_of_rows_where. by apply Hev. }
  case_bool_decide as Hnil.
  - split; [done|]. intros Hh Hns. apply Hlookups; [done|]. intros Hnil'.
    apply (backlog_nonempty t w (hl_unlocked _ Hh) Hns). fold events. destruct events as [|e es]; [done|]. exfalso.
    unfold anchorable, lookups, rows_where in *. rewrite filter_cons in Hnil, Hnil'.
    destruct (IsAuditVisibleEventType _); [by rewrite decide_True in Hnil|by rewrite decide_True in Hnil'].
  - assert (Hpend : pending_in (foldl (processUnanchoredEvent t) w lookups) anchorable).
    { split; [apply (NoDup_fmap_rows_where ID); [by apply backlog_NoDup|done]|].
      intros e [He Hv]%elem_of_rows_where. destruct (Hev e He) as (r & Hr & <- & Ha). exists r.
      split; [by apply Hkeep|done]. }
    destruct (anchorBatch_progress t _ anchorable batches Hrep' Hpend Hnil) as [Hle' Hlt'].
    split; [lia|]. intros Hh _. specialize (Hlt' Hh). lia.
Qed.

Lemma settled_measure w : Forall row_ok (outbox w) → measure w = 0%nat → settled w.
Proof.
  unfold measure, settled. induction 1 as [|r rows Hr _ IH]; [constructor|]. rewrite fmap_cons. simpl. intros Hz.
  constructor; [|apply IH; lia]. destruct (awaits_anchoring r) eqn:Ea; [|done].
  pose proof (budget_pos r Hr Ea). lia.
Qed.

Lemma measure_settled w : settled w → measure w = 0%nat.
Proof.
  unfold measure, settled. induction 1 as [|r rows Hr _ IH]; [done|]. rewrite fmap_cons. simpl. rewrite IH.
  unfold budget. by rewrite Hr.
Qed.

Lemma measure_bound w : Forall row_ok (outbox w) →
  (measure w <= 50 * length (rows_where awaits_anchoring (outbox w)))%nat.
Proof.
  unfold measure, rows_where. induction 1 as [|r rows Hr _ IH]; [done|]. rewrite fmap_cons, filter_cons. simpl.
  unfold budget at 1. destruct (awaits_anchoring r) eqn:Ea.
  - rewrite decide_True by done. simpl. destruct Hr as [[? ?] _]. unfold OutboxAnchorMaxAttempts in *. lia.
  - rewrite decide_False by done. simpl. lia.
Qed.

Lemma mark_published_same now id w : measure (MarkOutboxEventPublished now id w) = measure w.
Proof.
  unfold measure. cbn. f_equal. unfold update_where. change (map ?f ?l) with (f <$> l). rewrite <-list_fmap_compose.
  apply list_fmap_ext. intros _ r _. cbn. by destruct (has_id id r).
Qed.

(** ** Runs of the jobs *)
Inductive Job := Process (t : Tick) | Publish (t : Tick) | Stamp (t : Tick).

Definition run_job (w : World) (j : Job) : World :=
  match j with
  | Process t => (processing_tick t w).1
  | Publish t => (publishing_tick t w).1
  | Stamp t => (timestamping_tick t w).1
  end.

(** Every processing tick of the run is healthy and finds a new CID for its
    checkpoint; the other jobs run in any environment. *)
Fixpoint healthy_run (w : World) (jobs : list Job) : Prop :=
  match jobs with
  | [] => True
  | j :: jobs' =>
      match j with
      | Process t => healthy t ∧ (∀ c, t_put t = Some c → artifacts w !! c = None)
      | _ => True
      end ∧ healthy_run (run_job w j) jobs'
  end.

Definition processing_jobs (jobs : list Job) : nat :=
  length (rows_where (λ j, match j with Process _ => true | _ => false end) jobs).

Lemma timestamp_all_outbox t pending w : outbox (timestamp_all t pending w).1 = outbox w.
Proof.
  revert w. induction pending as [|c pending IH]; intros w; cbn [timestamp_all]; [done|].
  destruct (timestampRoot _ _); [|done]. destruct (t_event_commit _ _); [|done]. by rewrite IH.
Qed.

Lemma job_measure w j batches : represents w batches →
  (measure (run_job w j) <= measure w)%nat.
Proof.
  intros Hrep. destruct j as [t|t|t]; cbn [run_job].
  - by eapply processing_progress.
  - unfold publishing_tick. cbn [fst]. destruct (t_commit t); [|done].
    generalize (rows_where (λ e, t_publish t (ID e)) (backlog t (λ r, negb (published r)) 200 w)). intros sent.
    clear Hrep. revert w. induction sent as [|e sent IH]; intros w; cbn [foldl]; [done|].
    by rewrite IH, mark_published_same.
  - unfold measure, timestamping_tick. by rewrite timestamp_all_outbox.
Qed.

Lemma drain jobs w batches : represents w batches → healthy_run w jobs →
  (measure w <= processing_jobs jobs)%nat → measure (foldl run_job w jobs) = 0%nat ∧
  ∃ batches', represents (foldl run_job w jobs) batches'.
Proof.
  revert w batches. induction jobs as [|j jobs IH]; intros w batches Hrep Hrun Hm; cbn [foldl].
  { split; [cbn in Hm; lia|eauto]. }
  destruct Hrun as [Hj Hrun]. pose proof (job_measure w j batches Hrep) as Hle.
  assert (Hstep : ∃ new, represents (run_job w j) (batches ++ new)).
  { destruct j as [t|t|t]; cbn [run_job].
    - destruct (processing_represents t w batches Hrep (proj2 Hj)) as (new & _ & ?). eauto.
    - exists []. rewrite app_nil_r. by apply publishing_represents.
    - exists []. rewrite app_nil_r. by apply timestamping_represents. }
  destruct Hstep as [new Hrep']. apply (IH _ _ Hrep' Hrun).
  unfold processing_jobs, rows_where in *. rewrite filter_cons in Hm.
  destruct j as [t|t|t]; [rewrite decide_True in Hm by done; cbn in *|rewrite decide_False in Hm by done; lia..].
  destruct (decide (measure w = 0%nat)) as [|Hpos]; [lia|].
  assert (measure (processing_tick t w).1 < measure w)%nat; [|lia].
  eapply processing_progress; [done|apply Hj|]. intros Hs. by apply measure_settled in Hs.
Qed.

(** C14: The backlog drains.  From every reachable world, with no new event, once
    the jobs have run as many healthy processing ticks as 50 times the number of
    events still awaiting their anchoring, whatever the publishing and
    timestamping jobs do in between and however often entries fail to be
    written, every event is processed, or dead-lettered after 50 failed
    attempts.  No event is retried for ever, and none is forgotten. *)
Theorem the_backlog_drains w jobs :
  reachable w → healthy_run w jobs →
  (50 * length (rows_where awaits_anchoring (outbox w)) <= processing_jobs jobs)%nat →
  Forall (λ r, processed r = true ∨ is_Some (dead_lettered_at r) ∧ anchor_attempts r = OutboxAnchorMaxAttempts)
    (outbox (foldl run_job w jobs)).
Proof.
  intros (batches & Hrep)%reachable_represents Hrun Hjobs.
  pose proof (measure_bound w (rp_rows _ _ Hrep)) as Hm.
  destruct (drain jobs w batches Hrep Hrun) as [Hz (batches' & Hrep')]; [lia|].
  pose proof (settled_measure _ (rp_rows _ _ Hrep') Hz) as Hs. pose proof (rp_rows _ _ Hrep') as Hok.
  unfold settled in Hs. rewrite Forall_forall in Hs, Hok. apply Forall_forall. intros r Hr.
  specialize (Hs r Hr). destruct (Hok r Hr) as [_ Hd]. unfold awaits_anchoring in Hs.
  destruct (processed r); [by left|right]. cbn in Hs. apply bool_decide_eq_false in Hs.
  assert (is_Some (dead_lettered_at r)) by by apply not_eq_None_Some. by rewrite <-Hd.
Qed.

End Drain.

(** ** A store that never takes an entry *)
Definition stuck_tick : Tick :=
  {| t_now := 10; t_locked := λ _, false; t_rank := λ id, id; t_group_rank := λ _, 0;
     t_rand := λ id, Some [id]; t_encrypt := λ _ body, Sealed body; t_create := λ _, false; t_resolves := λ _, true;
     t_put := Some "checkpoint-1"; t_put_resolves := true; t_timestamp := λ root, Ok root;
     t_publish := λ _, true; t_event_commit := λ _, true; t_commit := true |}.

Fixpoint demo_fresh (w : World) (n : nat) : bool :=
  match n with
  | O => true
  | S n' => bool_decide (artifacts w !! "checkpoint-1" = None) &&
            demo_fresh (@processing_tick demo_services stuck_tick w).1 n'
  end.

Lemma demo_healthy w n : demo_fresh w n = true → @healthy_run demo_services w (replicate n (Process stuck_tick)).
Proof.
  revert w. induction n as [|n IH]; intros w; [done|]. cbn [demo_fresh replicate healthy_run].
  intros [Hc%bool_decide_eq_true Hn]%andb_true_iff. split; [|by apply IH].
  split; [by constructor|]. intros c [= <-]. exact Hc.
Qed.

Lemma drains_witness :
  Forall (λ r, processed r = true ∨ is_Some (dead_lettered_at r) ∧ anchor_attempts r = 50)
    (outbox (foldl (@run_job demo_services) demo_backlog (replicate 150 (Process stuck_tick)))).
Proof.
  apply (@the_backlog_drains demo_services demo_services_laws).
  - exact demo_backlog_reachable.
  - apply demo_healthy. vm_compute. reflexivity.
  - vm_compute. repeat constructor.
Defined.
