(* ===== verification/TemplateStore.v ===== *)
(** The template repository's tables and statements:
    internal/templaterepository/db/pg (contracttemplaterepository.go,
    reviewtaskrepository.go, approvaltaskrepository.go), the enums of
    internal/templaterepository/datatype, and the triggers and constraints of the
    migrations (20260128, 20260714e, 20260717, 20260721).

    Templates are versioned by copying: every version is its own row with its own
    DID, and [ct_base_template] names the lineage.  Text columns have no width
    here; the version column keeps its 32 bits. *)
From S2P Require Import Prelude Json Transactions.

(** ** datatype *)
Inductive ContractTemplateState :=
  | Draft | Submitted | Rejected | Reviewed | Approved | Registered | Published | Deleted | Deprecated.
#[export] Instance ContractTemplateState_eq_dec : EqDecision ContractTemplateState.
Proof. solve_decision. Defined.

Definition state_label (s : ContractTemplateState) : string :=
  match s with
  | Draft => "DRAFT" | Submitted => "SUBMITTED" | Rejected => "REJECTED" | Reviewed => "REVIEWED"
  | Approved => "APPROVED" | Registered => "REGISTERED" | Published => "PUBLISHED"
  | Deleted => "DELETED" | Deprecated => "DEPRECATED"
  end.

Definition all_states : list ContractTemplateState :=
  [Draft; Submitted; Rejected; Reviewed; Approved; Registered; Published; Deleted; Deprecated].

(** The value of the Postgres enum with a label. *)
Definition enum_state (label : string) : option ContractTemplateState :=
  List.find (λ s, bool_decide (state_label s = label)) all_states.

Definition NewContractTemplateState (s : string) : result ContractTemplateState :=
  match enum_state (GoStrings.ToUpper s) with
  | Some st => Ok st
  | None => Err (Errorf "invalid template state")
  end.

(** The labels of contract_template_type. *)
Definition template_types : list string := ["CONTRACT_TEMPLATE"; "COMPONENT"].

Definition NewContractTemplateType (s : string) : result string :=
  if bool_decide (GoStrings.ToUpper s ∈ template_types) then Ok (GoStrings.ToUpper s)
  else Err (Errorf "invalid template type").

Inductive TemplateTaskState := TaskOpen | TaskRejected | TaskVerified | TaskApproved.
#[export] Instance TemplateTaskState_eq_dec : EqDecision TemplateTaskState.
Proof. solve_decision. Defined.

Inductive ActionFlag := FlagApproval | FlagDraft.

Definition NewActionFlag (s : string) : result ActionFlag :=
  let upper := GoStrings.ToUpper s in
  if bool_decide (upper = "APPROVAL") then Ok FlagApproval
  else if bool_decide (upper = "DRAFT") then Ok FlagDraft
  else Err (Errorf "invalid action flag").

(** ** Rows *)

(** [db.ContractTemplate]. *)
Record ContractTemplate := {
  ct_did : string;
  ct_version : Z;
  ct_state : ContractTemplateState;
  ct_template_type : string;
  ct_name : option string;
  ct_description : option string;
  ct_created_by : string;
  ct_created_at : Z;
  ct_updated_at : Z;
  ct_template_data : option json;
  ct_base_template : option string
}.
#[export] Instance ContractTemplate_eq_dec : EqDecision ContractTemplate.
Proof. solve_decision. Defined.

(** The cached render ([db.ContractTemplatePDFState]); its columns are nullable. *)
Record TemplatePDF := {
  pdf_ipfs_cid : option string;
  pdf_renderer_version : option string;
  pdf_c2pa_state : option string;
  pdf_payload_hash : option string
}.
#[export] Instance TemplatePDF_eq_dec : EqDecision TemplatePDF.
Proof. solve_decision. Defined.

Definition no_render : TemplatePDF :=
  {| pdf_ipfs_cid := None; pdf_renderer_version := None; pdf_c2pa_state := None; pdf_payload_hash := None |}.

(** A row of contract_templates. *)
Record TemplateRow := {
  columns : ContractTemplate;
  content_updated_at : Z;
  render : TemplatePDF
}.
#[export] Instance TemplateRow_eq_dec : EqDecision TemplateRow.
Proof. solve_decision. Defined.

(** A row of contract_templates_review_task (holder: reviewer) or
    contract_templates_approval_task (holder: approver). *)
Record TemplateTask := {
  tt_did : string;
  tt_state : TemplateTaskState;
  tt_holder : string;
  tt_created_by : string;
  tt_created_at : Z
}.

(** [db.TemplateProvenanceCredential]. *)
Record TemplateProvenanceCredential := {
  pc_did : string;
  pc_version : Z;
  pc_vc_id : string;
  pc_previous_vc_id : option string;
  pc_credential : json
}.

(** A row of outbox_events. *)
Record TemplateEvent := {
  te_type : string;
  te_did : string;
  te_body : list (string * json)
}.

Record TStore := {
  templates : gmap string TemplateRow;
  template_history : list ContractTemplate;
  review_tasks : list TemplateTask;
  approval_tasks : list TemplateTask;
  credentials : list TemplateProvenanceCredential;
  template_events : list TemplateEvent
}.

Definition set_templates f (s : TStore) : TStore :=
  {| templates := f (templates s); template_history := template_history s; review_tasks := review_tasks s;
     approval_tasks := approval_tasks s; credentials := credentials s; template_events := template_events s |}.
Definition set_history f (s : TStore) : TStore :=
  {| templates := templates s; template_history := f (template_history s); review_tasks := review_tasks s;
     approval_tasks := approval_tasks s; credentials := credentials s; template_events := template_events s |}.
Definition set_review_tasks f (s : TStore) : TStore :=
  {| templates := templates s; template_history := template_history s; review_tasks := f (review_tasks s);
     approval_tasks := approval_tasks s; credentials := credentials s; template_events := template_events s |}.
Definition set_approval_tasks f (s : TStore) : TStore :=
  {| templates := templates s; template_history := template_history s; review_tasks := review_tasks s;
     approval_tasks := f (approval_tasks s); credentials := credentials s; template_events := template_events s |}.
Definition set_credentials f (s : TStore) : TStore :=
  {| templates := templates s; template_history := template_history s; review_tasks := review_tasks s;
     approval_tasks := approval_tasks s; credentials := f (credentials s); template_events := template_events s |}.
Definition set_events f (s : TStore) : TStore :=
  {| templates := templates s; template_history := template_history s; review_tasks := review_tasks s;
     approval_tasks := approval_tasks s; credentials := credentials s; template_events := f (template_events s) |}.

Definition no_templates : TStore :=
  {| templates := ∅; template_history := []; review_tasks := []; approval_tasks := []; credentials := [];
     template_events := [] |}.

(** The clock, [base.GenerateID] and DCS_PUBLIC_URL. *)
Record TEnv := {
  te_now : Z;
  te_generated : result string;
  te_public_url : string
}.

Notation TTx := (Txn TEnv TStore).

Definition clock : TTx Z := query (λ e _, te_now e).

(** internal/base/event/eventpersistence.go [Create]. *)
Definition Create_event (evt : TemplateEvent) : TTx () :=
  if bool_decide (te_type evt = EmptyString) then raise (Errorf "event type cannot be empty")
  else if bool_decide (te_did evt = EmptyString) then raise (Errorf "did cannot be empty")
  else exec (λ _, set_events (λ l, l ++ [evt])).

(** ** Triggers *)
Definition with_columns (c : ContractTemplate) (r : TemplateRow) : TemplateRow :=
  {| columns := c; content_updated_at := content_updated_at r; render := render r |}.
Definition with_content_stamp (t : Z) (r : TemplateRow) : TemplateRow :=
  {| columns := columns r; content_updated_at := t; render := render r |}.
Definition with_render (p : TemplatePDF) (r : TemplateRow) : TemplateRow :=
  {| columns := columns r; content_updated_at := content_updated_at r; render := p |}.
Definition with_updated_at (t : Z) (c : ContractTemplate) : ContractTemplate :=
  {| ct_did := ct_did c; ct_version := ct_version c; ct_state := ct_state c;
     ct_template_type := ct_template_type c; ct_name := ct_name c; ct_description := ct_description c;
     ct_created_by := ct_created_by c; ct_created_at := ct_created_at c; ct_updated_at := t;
     ct_template_data := ct_template_data c; ct_base_template := ct_base_template c |}.

(** contract_templates_content_updated_at. *)
Definition content_stamp (now : Z) (old new : TemplateRow) : TemplateRow :=
  if bool_decide (ct_template_data (columns new) = ct_template_data (columns old)) then new
  else with_content_stamp now new.

(** What [to_jsonb(NEW) - 'updated_at' - 'pdf_...'] keeps. *)
Definition business_columns (r : TemplateRow) : TemplateRow :=
  with_render no_render (with_columns (with_updated_at 0 (columns r)) r).

(** contract_templates_update_updated_at. *)
Definition update_updated_at_column (now : Z) (old new : TemplateRow) : TemplateRow :=
  if bool_decide (ct_updated_at (columns new) = ct_updated_at (columns old))
     && negb (bool_decide (business_columns new = business_columns old))
  then with_columns (with_updated_at now (columns new)) new
  else new.

(** BEFORE UPDATE triggers fire in the order of their names. *)
Definition before_update (now : Z) (old new : TemplateRow) : TemplateRow :=
  update_updated_at_column now old (content_stamp now old new).

(** ** contract_templates *)
Definition template_rows (s : TStore) : list ContractTemplate := columns <$> (map_to_list (templates s)).*2.

(** [state IN ('REGISTERED', 'PUBLISHED')]. *)
Definition is_active (st : ContractTemplateState) : bool := bool_decide (st ∈ [Registered; Published]).

(** SQL equality of nullable columns, as a condition. *)
Definition same_lineage (a b : option string) : bool :=
  match a, b with Some x, Some y => bool_decide (x = y) | _, _ => false end.

Definition max_int4 : Z := 2 ^ 31 - 1.

Module TemplateRepo.

Definition insert_row (row : TemplateRow) : TTx () :=
  let did := ct_did (columns row) in
  _ ← reject_if (bool_decide (did = EmptyString)) (PgError "chk_did_not_empty");
  old ← query (λ _ s, templates s !! did);
  match old with
  | Some _ => raise (PgError "pk_contract_templates")
  | None => exec (λ _, set_templates (insert did row))
  end.

(** [UPDATE contract_templates SET ... WHERE did = $1]. *)
Definition update_row (did : string) (f : TemplateRow → TemplateRow) : TTx () :=
  exec (λ e, set_templates (alter (λ row, before_update (te_now e) row (f row)) did)).

Definition with_state (st : ContractTemplateState) (r : TemplateRow) : TemplateRow :=
  let c := columns r in
  with_columns
    {| ct_did := ct_did c; ct_version := ct_version c; ct_state := st; ct_template_type := ct_template_type c;
       ct_name := ct_name c; ct_description := ct_description c; ct_created_by := ct_created_by c;
       ct_created_at := ct_created_at c; ct_updated_at := ct_updated_at c;
       ct_template_data := ct_template_data c; ct_base_template := ct_base_template c |} r.

(** The columns the CTE [source] computes. *)
Definition new_version (c : ContractTemplate) : Z :=
  if is_active (ct_state c) then ct_version c + 1 else 1.
Definition new_base_template (copyDID : string) (c : ContractTemplate) : option string :=
  if is_active (ct_state c) then ct_base_template c else Some copyDID.

Definition version_taken (base : option string) (version : Z) (s : TStore) : bool :=
  existsb (λ ct, same_lineage (ct_base_template ct) base && bool_decide (ct_version ct = version)
                 && is_active (ct_state ct)) (template_rows s).

Definition CopyFromDID (did copyDID : string) : TTx Z :=
  source ← query (λ _ s, columns <$> templates s !! did);
  match source with
  | None => raise (Errorf "template with did not found")
  | Some c =>
      let version := new_version c in
      let base := new_base_template copyDID c in
      _ ← reject_if (max_int4 <? version) (PgError "integer out of range");
      taken ← query (λ _ s, version_taken base version s);
      _ ← reject_if (bool_decide (is_Some base) && taken)
            (Errorf "could not create new version for did: a template with the same version already exists in state REGISTERED or PUBLISHED");
      t ← clock;
      _ ← insert_row
            {| columns :=
                 {| ct_did := copyDID; ct_version := version; ct_state := Draft;
                    ct_template_type := ct_template_type c; ct_name := ct_name c;
                    ct_description := ct_description c; ct_created_by := ct_created_by c;
                    ct_created_at := t; ct_updated_at := t; ct_template_data := ct_template_data c;
                    ct_base_template := base |};
               content_updated_at := t; render := no_render |};
      mret version
  end.

Definition CreateHistoryEntryForDID (did : string) : TTx () :=
  exec (λ _ s,
    match templates s !! did with
    | Some row => set_history (λ l, l ++ [columns row]) s
    | None => s
    end).

Definition ReadHistoryByDID (did : string) : TTx (list ContractTemplate) :=
  query (λ _ s, rows_where (λ h, bool_decide (ct_did h = did)) (template_history s)).

(** The columns [Create] does not name take their defaults. *)
Definition Create (data : ContractTemplate) : TTx Z :=
  t ← clock;
  _ ← reject_if (negb (bool_decide (ct_template_type data ∈ template_types))) (PgError "contract_template_type");
  _ ← insert_row
        {| columns :=
             {| ct_did := ct_did data; ct_version := 1; ct_state := ct_state data;
                ct_template_type := ct_template_type data; ct_name := ct_name data;
                ct_description := ct_description data; ct_created_by := ct_created_by data;
                ct_created_at := t; ct_updated_at := t; ct_template_data := ct_template_data data;
                ct_base_template := Some (ct_did data) |};
           content_updated_at := t; render := no_render |};
  mret t.

Definition ReadDataByID (did : string) : TTx ContractTemplate := λ e s,
  match templates s !! did with
  | Some row => Ok (columns row, s)
  | None => Err (Wrapf "%w: did=" (Sentinel ErrContractTemplateNotFound))
  end.

(** did, version, state, created_by and the two clocks of the row. *)
Definition ReadProcessDataByDID (did : string) : TTx TemplateRow := λ e s,
  match templates s !! did with
  | Some row => Ok (row, s)
  | None => Err (Errorf "contract template with DID")
  end.

Definition conflicting (c : ContractTemplate) (s : TStore) : bool :=
  existsb (λ other, bool_decide (ct_version other = ct_version c)
                    && same_lineage (ct_base_template other) (ct_base_template c)
                    && is_active (ct_state other)
                    && negb (bool_decide (ct_did other = ct_did c))) (template_rows s).

Definition UpdateState (did : string) (state : ContractTemplateState) : TTx () :=
  row ← query (λ _ s, templates s !! did);
  match row with
  | Some r =>
      conflict ← query (λ _ s, conflicting (columns r) s);
      if is_active state && conflict
      then raise (Errorf "could not update state for DID: not found or conflicting version already active")
      else update_row did (with_state state)
  | None => raise (Errorf "could not update state for DID: not found or conflicting version already active")
  end.

(** COALESCE of the render columns. *)
Definition ReadPDFState (did : string) : TTx (string * string * string * string) := λ e s,
  match templates s !! did with
  | Some row =>
      let p := render row in
      Ok ((default EmptyString (pdf_ipfs_cid p), default EmptyString (pdf_renderer_version p),
           default EmptyString (pdf_c2pa_state p), default EmptyString (pdf_payload_hash p)), s)
  | None => Err (Errorf "sql: no rows in result set")
  end.

Definition missing_pdf (p : TemplatePDF) : bool :=
  bool_decide (default EmptyString (pdf_ipfs_cid p) = EmptyString).

Definition ReadDIDsMissingStoredPDF (limit : nat) (excludeDIDs : list string) : TTx (list string) :=
  query (λ _ s, take limit (merge_sort String.le
    (omap (λ kv : string * TemplateRow,
       if missing_pdf (render kv.2) && negb (bool_decide (kv.1 ∈ excludeDIDs)) then Some kv.1 else None)
       (map_to_list (templates s))))).

Definition UpdatePDFState (did : string) (data : string * string * string * string) : TTx () :=
  let '(cid, version, c2pa, hash) := data in
  update_row did (with_render
    {| pdf_ipfs_cid := Some cid; pdf_renderer_version := Some version; pdf_c2pa_state := Some c2pa;
       pdf_payload_hash := Some hash |}).

(** [db.ContractTemplateUpdateData]; the empty string leaves [state] and
    [template_type] alone. *)
Record UpdateData := {
  u_did : string;
  u_state : string;
  u_template_type : string;
  u_name : option string;
  u_description : option string;
  u_template_data : option json
}.

(** The SET clause [createQuery] assembles. *)
Inductive Assignment :=
  | SetState (label : string)
  | SetName (v : string)
  | SetDescription (v : string)
  | SetTemplateData (v : json)
  | SetTemplateType (label : string)
  | ClearRender.

Definition createQuery (data : UpdateData) : result (list Assignment) :=
  let state := if bool_decide (u_state data = EmptyString) then [] else [SetState (u_state data)] in
  let content :=
    match u_name data with Some v => [SetName v] | None => [] end ++
    match u_description data with Some v => [SetDescription v] | None => [] end ++
    match u_template_data data with
    | Some v => if IsNotNullValue (Some v) then [SetTemplateData v] else []
    | None => []
    end ++
    (if bool_decide (u_template_type data = EmptyString) then [] else [SetTemplateType (u_template_type data)]) in
  match state ++ content with
  | [] => Err (Errorf "no fields to update")
  | assignments => Ok (assignments ++ match content with [] => [] | _ => [ClearRender] end)
  end.

(** The casts of the parameters to the enum types. *)
Definition cast_ok (a : Assignment) : bool :=
  match a with
  | SetState label => bool_decide (is_Some (enum_state label))
  | SetTemplateType label => bool_decide (label ∈ template_types)
  | _ => true
  end.

Definition with_text (name description : option string) (ttype : string) (data : option json)
    (r : TemplateRow) : TemplateRow :=
  let c := columns r in
  with_columns
    {| ct_did := ct_did c; ct_version := ct_version c; ct_state := ct_state c; ct_template_type := ttype;
       ct_name := name; ct_description := description; ct_created_by := ct_created_by c;
       ct_created_at := ct_created_at c; ct_updated_at := ct_updated_at c; ct_template_data := data;
       ct_base_template := ct_base_template c |} r.

Definition assign (r : TemplateRow) (a : Assignment) : TemplateRow :=
  let c := columns r in
  match a with
  | SetState label => match enum_state label with Some st => with_state st r | None => r end
  | SetName v => with_text (Some v) (ct_description c) (ct_template_type c) (ct_template_data c) r
  | SetDescription v => with_text (ct_name c) (Some v) (ct_template_type c) (ct_template_data c) r
  | SetTemplateData v => with_text (ct_name c) (ct_description c) (ct_template_type c) (Some v) r
  | SetTemplateType label => with_text (ct_name c) (ct_description c) label (ct_template_data c) r
  | ClearRender =>
      with_render {| pdf_ipfs_cid := None; pdf_renderer_version := None;
                     pdf_c2pa_state := pdf_c2pa_state (render r);
                     pdf_payload_hash := pdf_payload_hash (render r) |} r
  end.

Definition Update (data : UpdateData) : TTx () :=
  assignments ← of_result (createQuery data);
  _ ← reject_if (negb (forallb cast_ok assignments)) (PgError "invalid input value for enum");
  update_row (u_did data) (λ r, foldl assign r assignments).

(** ** template_provenance_credentials *)
Definition InsertProvenanceCredential (data : TemplateProvenanceCredential) : TTx () :=
  within "insert template provenance credential" (
    _ ← reject_if (bool_decide (pc_did data = EmptyString)) (PgError "check did");
    issued ← query (λ _ s, exists_where
      (λ c, bool_decide (pc_did c = pc_did data) && bool_decide (pc_version c = pc_version data)) (credentials s));
    _ ← reject_if issued (PgError "uq_template_provenance_version");
    template ← query (λ _ s, templates s !! pc_did data);
    _ ← reject_if (negb (bool_decide (is_Some template))) (PgError "fk_template_provenance_template");
    exec (λ _, set_credentials (λ l, l ++ [data]))).

Definition ReadProvenanceCredentials (did : string) : TTx (list TemplateProvenanceCredential) :=
  query (λ _ s, order_by pc_version (rows_where (λ c, bool_decide (pc_did c = did)) (credentials s))).

(** [ORDER BY version DESC LIMIT 1]. *)
Definition ReadLatestProvenanceVCID (did : string) : TTx (option string) :=
  query (λ _ s, pc_vc_id <$> head (order_by (λ c, - pc_version c)
    (rows_where (λ c, bool_decide (pc_did c = did)) (credentials s)))).

End TemplateRepo.

(** ** contract_templates_review_task and contract_templates_approval_task

    The two tables have the same columns and the same statements. *)
Module TaskRepo.

Inductive Table := ReviewTasks | ApprovalTasks.

Definition tasks (tbl : Table) (s : TStore) : list TemplateTask :=
  match tbl with ReviewTasks => review_tasks s | ApprovalTasks => approval_tasks s end.
Definition set_tasks (tbl : Table) f (s : TStore) : TStore :=
  match tbl with ReviewTasks => set_review_tasks f s | ApprovalTasks => set_approval_tasks f s end.

Definition of_did (did : string) (t : TemplateTask) : bool := bool_decide (tt_did t = did).
Definition of_holder (did holder : string) (t : TemplateTask) : bool :=
  of_did did t && bool_decide (tt_holder t = holder).
Definition with_task_state (st : TemplateTaskState) (t : TemplateTask) : TemplateTask :=
  {| tt_did := tt_did t; tt_state := st; tt_holder := tt_holder t; tt_created_by := tt_created_by t;
     tt_created_at := tt_created_at t |}.

Definition Create (tbl : Table) (did : string) (state : TemplateTaskState) (holder createdBy : string) : TTx Z :=
  t ← clock;
  _ ← reject_if (bool_decide (did = EmptyString)) (PgError "check did");
  _ ← reject_if (bool_decide (holder = EmptyString)) (PgError "check holder");
  template ← query (λ _ s, templates s !! did);
  _ ← reject_if (negb (bool_decide (is_Some template))) (PgError "fk_task_contract_template");
  _ ← exec (λ _, set_tasks tbl (λ l, l ++
        [{| tt_did := did; tt_state := state; tt_holder := holder; tt_created_by := createdBy;
            tt_created_at := t |}]));
  mret t.

(** [IsValidReviewer], [IsValidApprover]. *)
Definition IsValidHolder (tbl : Table) (did holder : string) : TTx bool :=
  query (λ _ s, exists_where (of_holder did holder) (tasks tbl s)).

Definition UpdateStateForAllTasks (tbl : Table) (did : string) (state : TemplateTaskState) : TTx () :=
  exec (λ _, set_tasks tbl (update_where (of_did did) (with_task_state state))).

Definition ReopenTasks (tbl : Table) (did : string) : TTx () := UpdateStateForAllTasks tbl did TaskOpen.

Definition ReadAllByDID (tbl : Table) (did : string) : TTx (list TemplateTask) :=
  query (λ _ s, rows_where (of_did did) (tasks tbl s)).

(** [ReadAllByReviewer], [ReadAllByApprover]. *)
Definition ReadAllByHolder (tbl : Table) (holder : string) : TTx (list TemplateTask) :=
  query (λ _ s, rows_where (λ t, bool_decide (tt_holder t = holder)) (tasks tbl s)).

Definition UpdateState (tbl : Table) (did holder : string) (state : TemplateTaskState) : TTx () :=
  held ← query (λ _ s, exists_where (of_holder did holder) (tasks tbl s));
  _ ← reject_if (negb held) (Errorf "user has no review task for this contract template");
  exec (λ _, set_tasks tbl (update_where (of_holder did holder) (with_task_state state))).

Definition AnyTasksInState (tbl : Table) (did : string) (states : list TemplateTaskState) : TTx bool :=
  query (λ _ s, exists_where (λ t, of_did did t && bool_decide (tt_state t ∈ states)) (tasks tbl s)).

Definition TaskExistsInState (tbl : Table) (did holder : string) (state : TemplateTaskState) : TTx bool :=
  query (λ _ s, exists_where (λ t, of_holder did holder t && bool_decide (tt_state t = state)) (tasks tbl s)).

(** [TaskExist], [TaskExists]. *)
Definition TaskExists (tbl : Table) (did : string) : TTx bool :=
  query (λ _ s, exists_where (of_did did) (tasks tbl s)).

Definition Delete (tbl : Table) (did : string) : TTx () :=
  exec (λ _, set_tasks tbl (rows_where (λ t, negb (of_did did t)))).

End TaskRepo.
