(* ===== verification/Templates.v ===== *)
(** The commands of the template repository: internal/templaterepository/command
    (create.go, copy.go, update.go, updatemanage.go, submit.go, approve.go,
    reject.go, archive.go, publish.go, register.go, provenance.go,
    shapelibraries.go) and query/verify.go; internal/fcasset/asset.go.

    The Federated Catalogue, the credential signer and the Semantic Hub's rows are
    reached through [TemplateServices], and so are the normalisation of a template
    document and the two text encodings whose hashes are taken. *)
From S2P Require Import Prelude Json Transactions Sha256 Document Identity Validation Anchors TemplateStore.
Import GoStrings.

(** ** Interfaces *)

(** An answer of the Federated Catalogue: the status and the error body's code
    and message, empty when there is none. *)
Record FCResponse := { StatusCode : Z; ErrorCode : string; ErrorMessage : string }.

(** A template found in the catalogue ([TemplateCatalogueRetrieveByIDResponse]). *)
Record FCTemplate := {
  fc_Name : option string;
  fc_Description : option string;
  fc_TemplateType : option string;
  fc_TemplateData : option json
}.

Record FederatedCatalogue := {
  PostAsset : json → result FCResponse;
  PostVerification : json → result FCResponse;
  GetByID : string → Z → result (option FCTemplate)
}.

(** [templateProvenanceVC]; its [@context] and [type] are constants. *)
Record templateProvenanceVC := {
  vc_ID : string;
  vc_Issuer : string;
  vc_ValidFrom : string;
  vc_CredentialSubject : gmap string json
}.

Class TemplateServices := {
  NormalizeTemplateData : option json → result json;
  (** The text of a jsonb column as it reads back. *)
  jsonb_text : json → string;
  (** [json.Marshal] of a credential. *)
  MarshalVC : templateProvenanceVC → string;
  Format_RFC3339 : Z → string;
  (** [provenance.VCSigner]; [None] is the nil signer. *)
  CreateCredential : option (templateProvenanceVC → result json);
  IssuerDID : string;
  FCClient : option FederatedCatalogue;
  (** [semantichub.Repo.Get] of kind shapes: name and version. *)
  hub_Get : string → Z → result ();
  (** [json.Unmarshal] of a text. *)
  Unmarshal_text : string → result json
}.

(** ** Roles (internal/base/datatype/userrole) *)
Definition TemplateCreator : string := "Template Creator".
Definition TemplateReviewer : string := "Template Reviewer".
Definition TemplateApprover : string := "Template Approver".
Definition TemplateManager : string := "Template Manager".

(** [errors.New(...)] shared by the handlers. *)
Definition updated_elsewhere : error := Wrapf "contract template %w, please reload" (Sentinel ErrUpdatedElsewhere).

(** [time.Time.Unix]: whole seconds. *)
Definition Unix (t : Z) : Z := t / 1000000.

Definition jint (z : Z) : json := JNum (pretty z).
Definition event (ty did : string) (body : list (string * json)) : TemplateEvent :=
  {| te_type := ty; te_did := did; te_body := ("did", JStr did) :: body |}.

Section handlers.
Context `{SRV : TemplateServices}.

(** base/validation/documentdata.go. *)
Definition NormalizeTemplateDataForPersistence (public_url : string) (raw : option json) (did : string) : result json :=
  normalized ← NormalizeTemplateData raw;
  addDocumentIdentity (Some normalized) (ResourceIRI public_url "template" did) [did].

Definition normalized_for (msg : string) (raw : option json) (did : string) : TTx json :=
  url ← query (λ e _, te_public_url e);
  within msg (of_result (NormalizeTemplateDataForPersistence url raw did)).
End handlers.

(** ** create.go *)
Module Creator.
Record CreateCmd := {
  DID : string;
  CreatedBy : string;
  TemplateType : string;
  Name : option string;
  Description : option string;
  TemplateData : option json
}.

Section handler.
Context `{SRV : TemplateServices}.

Definition Handle (cmd : CreateCmd) : TTx () :=
  data ← normalized_for "template data validation failed" (TemplateData cmd) (DID cmd);
  _ ← within "could not create contract template" (TemplateRepo.Create
        {| ct_did := DID cmd; ct_version := 0; ct_state := Draft; ct_template_type := TemplateType cmd;
           ct_name := Name cmd; ct_description := Description cmd; ct_created_by := CreatedBy cmd;
           ct_created_at := 0; ct_updated_at := 0; ct_template_data := Some data; ct_base_template := None |});
  within "could not create event" (Create_event
    (event "CREATE_CONTRACT_TEMPLATE" (DID cmd) [("created_by", JStr (CreatedBy cmd))])).
End handler.
End Creator.

(** ** copy.go *)
Module Copier.
Record CopyCmd := { NewDID : string; CopyDID : string; CopiedBy : string }.

Section handler.
Context `{SRV : TemplateServices}.

Definition Handle (cmd : CopyCmd) : TTx () :=
  version ← within "could not copy contract template" (TemplateRepo.CopyFromDID (CopyDID cmd) (NewDID cmd));
  copied ← within "could not read copied contract template" (TemplateRepo.ReadDataByID (NewDID cmd));
  data ← normalized_for "copied template data validation failed" (ct_template_data copied) (NewDID cmd);
  _ ← within "could not normalize copied contract template data" (TemplateRepo.Update
        {| TemplateRepo.u_did := NewDID cmd; TemplateRepo.u_state := EmptyString;
           TemplateRepo.u_template_type := EmptyString; TemplateRepo.u_name := None;
           TemplateRepo.u_description := None; TemplateRepo.u_template_data := Some data |});
  (** The event is filed under the source ([CopyEvent.GetDID]). *)
  within "could not create event" (Create_event
    {| te_type := "COPY_CONTRACT_TEMPLATE"; te_did := CopyDID cmd;
       te_body := [("did", JStr (NewDID cmd)); ("copy_did", JStr (CopyDID cmd));
                   ("copied_by", JStr (CopiedBy cmd)); ("new_version", jint version)] |}).
End handler.
End Copier.

(** The fields [UpdateCmd] and [UpdateManageCmd] share. *)
Record UpdateCmd := {
  up_DID : string;
  up_TemplateType : option string;
  up_UpdatedAt : Z;
  up_UpdatedBy : string;
  up_Name : option string;
  up_Description : option string;
  up_TemplateData : option json;
  up_UserRoles : list string
}.

Section update.
Context `{SRV : TemplateServices}.

(** A replacement document is normalised before the transaction. *)
Definition normalized_update (cmd : UpdateCmd) : TTx (option json) :=
  if IsNotNullValue (up_TemplateData cmd)
  then data ← normalized_for "template data validation failed" (up_TemplateData cmd) (up_DID cmd); mret (Some data)
  else mret (up_TemplateData cmd).

Definition update_data (cmd : UpdateCmd) (data : option json) : TemplateRepo.UpdateData :=
  {| TemplateRepo.u_did := up_DID cmd; TemplateRepo.u_state := EmptyString;
     TemplateRepo.u_template_type := default EmptyString (up_TemplateType cmd);
     TemplateRepo.u_name := up_Name cmd; TemplateRepo.u_description := up_Description cmd;
     TemplateRepo.u_template_data := data |}.
End update.

(** ** update.go *)
Module Updater.
Section handler.
Context `{SRV : TemplateServices}.

(** Who may edit a template in a state. *)
Definition may_update (cmd : UpdateCmd) (state : ContractTemplateState) : TTx () :=
  match state with
  | Draft | Rejected =>
      reject_if (negb (HasRoles (up_UserRoles cmd) [TemplateCreator; TemplateManager]))
        (Errorf "invalid user permission")
  | Submitted =>
      _ ← reject_if (negb (HasRoles (up_UserRoles cmd) [TemplateReviewer; TemplateManager]))
            (Errorf "invalid user permission");
      if HasRoles (up_UserRoles cmd) [TemplateReviewer] then
        valid ← TaskRepo.IsValidHolder TaskRepo.ReviewTasks (up_DID cmd) (up_UpdatedBy cmd);
        reject_if (negb valid) (Errorf "user is not a valid reviewer for that contract template")
      else mret ()
  | _ => raise (Errorf "current contract template state is invalid")
  end.

Definition Handle (cmd : UpdateCmd) : TTx () :=
  data ← normalized_update cmd;
  old ← within "could not read template data" (TemplateRepo.ReadDataByID (up_DID cmd));
  _ ← reject_if (Unix (up_UpdatedAt cmd) <? Unix (ct_updated_at old)) updated_elsewhere;
  _ ← may_update cmd (ct_state old);
  _ ← TaskRepo.ReopenTasks TaskRepo.ReviewTasks (up_DID cmd);
  _ ← TaskRepo.ReopenTasks TaskRepo.ApprovalTasks (up_DID cmd);
  _ ← within "could not create history entry" (TemplateRepo.CreateHistoryEntryForDID (up_DID cmd));
  _ ← within "could not update template data" (TemplateRepo.Update (update_data cmd data));
  within "could not create event" (Create_event
    (event "UPDATE_CONTRACT_TEMPLATE" (up_DID cmd) [("updated_by", JStr (up_UpdatedBy cmd))])).
End handler.
End Updater.

(** ** updatemanage.go *)
Module UpdateManager.
Section handler.
Context `{SRV : TemplateServices}.

Definition Handle (cmd : UpdateCmd) : TTx () :=
  data ← normalized_update cmd;
  old ← within "could not read template data" (TemplateRepo.ReadDataByID (up_DID cmd));
  _ ← reject_if (Unix (up_UpdatedAt cmd) <? Unix (ct_updated_at old)) updated_elsewhere;
  _ ← reject_if (bool_decide (ct_state old = Published) || bool_decide (ct_state old = Deprecated)
                 || bool_decide (ct_state old = Registered)) (Errorf "invalid contract template state");
  _ ← within "could not update template data" (TemplateRepo.Update (update_data cmd data));
  within "could not create event" (Create_event
    (event "UPDATE_CONTRACT_TEMPLATE" (up_DID cmd) [("updated_by", JStr (up_UpdatedBy cmd))])).
End handler.
End UpdateManager.

(** ** submit.go *)
Module Submitter.
Record SubmitCmd := {
  DID : string;
  UpdatedAt : Z;
  SubmittedBy : string;
  Flag : option ActionFlag;
  UserRoles : list string
}.

Definition createTasks (cmd : SubmitCmd) : TTx () :=
  _ ← within "could not create review tasks"
        (TaskRepo.Create TaskRepo.ReviewTasks (DID cmd) TaskOpen (SubmittedBy cmd) (SubmittedBy cmd));
  _ ← within "could not create approval task"
        (TaskRepo.Create TaskRepo.ApprovalTasks (DID cmd) TaskOpen (SubmittedBy cmd) (SubmittedBy cmd));
  mret ().

Definition reopen_tasks (did : string) : TTx () :=
  _ ← TaskRepo.ReopenTasks TaskRepo.ReviewTasks did;
  TaskRepo.ReopenTasks TaskRepo.ApprovalTasks did.

(** The case [actionflag.Approval]: the next state, if any. *)
Definition approve_review (did by_whom : string) : TTx (option ContractTemplateState) :=
  exist ← TaskRepo.TaskExistsInState TaskRepo.ReviewTasks did by_whom TaskOpen;
  _ ← reject_if exist (Errorf "contract template needs to be verified before");
  _ ← within "could not update review task" (TaskRepo.UpdateState TaskRepo.ReviewTasks did by_whom TaskApproved);
  open ← within "could not check if review task exists"
           (TaskRepo.AnyTasksInState TaskRepo.ReviewTasks did [TaskOpen; TaskVerified]);
  mret (if (open : bool) then None else Some Reviewed).

Definition permit (cmd : SubmitCmd) (roles : list string) : TTx () :=
  reject_if (negb (HasRoles (UserRoles cmd) roles)) (Errorf "invalid user permission").

(** The chain on the current state; the result is [nextTemplateState]. *)
Definition next_state (cmd : SubmitCmd) (state : ContractTemplateState) : TTx (option ContractTemplateState) :=
  match state with
  | Draft =>
      _ ← permit cmd [TemplateCreator; TemplateManager];
      _ ← createTasks cmd;
      mret (Some Submitted)
  | Rejected =>
      _ ← permit cmd [TemplateCreator; TemplateManager];
      _ ← instead "could not reopen review tasks" (TaskRepo.ReopenTasks TaskRepo.ReviewTasks (DID cmd));
      _ ← instead "could not reopen approval tasks" (TaskRepo.ReopenTasks TaskRepo.ApprovalTasks (DID cmd));
      mret (Some Submitted)
  | Submitted =>
      _ ← permit cmd [TemplateReviewer; TemplateManager];
      valid ← TaskRepo.IsValidHolder TaskRepo.ReviewTasks (DID cmd) (SubmittedBy cmd);
      _ ← reject_if (negb valid) (Errorf "user is not a valid reviewer for that contract template");
      match Flag cmd with
      | Some FlagApproval => approve_review (DID cmd) (SubmittedBy cmd)
      | Some FlagDraft => _ ← reopen_tasks (DID cmd); mret (Some Rejected)
      | None => raise (Errorf "action flag is missing")
      end
  | Reviewed =>
      _ ← permit cmd [TemplateApprover; TemplateManager];
      valid ← TaskRepo.IsValidHolder TaskRepo.ApprovalTasks (DID cmd) (SubmittedBy cmd);
      _ ← reject_if (negb valid) (Errorf "user is not a valid approver for that contract template");
      _ ← reopen_tasks (DID cmd);
      mret (Some Submitted)
  | _ => raise (Errorf "current contract template state is invalid")
  end.

Definition Handle (cmd : SubmitCmd) : TTx () :=
  row ← within "could not process core data" (TemplateRepo.ReadProcessDataByDID (DID cmd));
  _ ← reject_if (Unix (UpdatedAt cmd) <? Unix (content_updated_at row)) updated_elsewhere;
  next ← next_state cmd (ct_state (columns row));
  match next with
  | Some st =>
      if bool_decide (st = ct_state (columns row)) then mret () else
      _ ← within "could not update contract template state" (TemplateRepo.UpdateState (DID cmd) st);
      within "could not create event" (Create_event
        (event "SUBMIT_CONTRACT_TEMPLATE" (DID cmd)
           [("version", jint (ct_version (columns row))); ("submitted_by", JStr (SubmittedBy cmd));
            ("previous_state", JStr (state_label (ct_state (columns row)))); ("new_state", JStr (state_label st))]))
  | None => mret ()
  end.
End Submitter.

(** ** approve.go and reject.go *)
Module Decider.
Record DecideCmd := { DID : string; UpdatedAt : Z; DecidedBy : string }.

(** The two handlers differ in the state they write and the event they file. *)
Definition decide_as (task : TemplateTaskState) (state : ContractTemplateState) (evt actor : string)
    (cmd : DecideCmd) : TTx () :=
  row ← within "could not read process data" (TemplateRepo.ReadProcessDataByDID (DID cmd));
  _ ← reject_if (Unix (UpdatedAt cmd) <? Unix (content_updated_at row)) updated_elsewhere;
  _ ← reject_if (negb (bool_decide (ct_state (columns row) = Reviewed))) (Errorf "invalid contract template state");
  valid ← TaskRepo.IsValidHolder TaskRepo.ApprovalTasks (DID cmd) (DecidedBy cmd);
  _ ← reject_if (negb valid) (Errorf "invalid user");
  _ ← within "could not update approval task state"
        (TaskRepo.UpdateState TaskRepo.ApprovalTasks (DID cmd) (DecidedBy cmd) task);
  _ ← within "could not update current template state" (TemplateRepo.UpdateState (DID cmd) state);
  within "could not create event" (Create_event
    (event evt (DID cmd) [("version", jint (ct_version (columns row))); (actor, JStr (DecidedBy cmd))])).

Definition Approver_Handle : DecideCmd → TTx () :=
  decide_as TaskApproved Approved "APPROVE_CONTRACT_TEMPLATE" "approved_by".
Definition Rejecter_Handle : DecideCmd → TTx () :=
  decide_as TaskRejected Rejected "REJECT_CONTRACT_TEMPLATE" "rejected_by".
End Decider.

(** ** archive.go *)
Module Archiver.
Record ArchiveCmd := { DID : string; UpdatedAt : Z; ArchivedBy : string }.

Definition Handle (cmd : ArchiveCmd) : TTx () :=
  row ← within "could not read process data" (TemplateRepo.ReadProcessDataByDID (DID cmd));
  _ ← reject_if (Unix (UpdatedAt cmd) <? Unix (content_updated_at row)) updated_elsewhere;
  let state := ct_state (columns row) in
  _ ← reject_if (bool_decide (state = Deprecated) || bool_decide (state = Deleted))
        (Errorf "invalid contract template state");
  _ ← within "could not update state" (TemplateRepo.UpdateState (DID cmd)
        (if bool_decide (state = Registered) || bool_decide (state = Published) then Deprecated else Deleted));
  _ ← within "could not create event" (Create_event
        (event "ARCHIVE_CONTRACT_TEMPLATE" (DID cmd)
           [("version", jint (ct_version (columns row))); ("archived_by", JStr (ArchivedBy cmd))]));
  _ ← within "could not delete review tasks" (TaskRepo.Delete TaskRepo.ReviewTasks (DID cmd));
  within "could not delete approval tasks" (TaskRepo.Delete TaskRepo.ApprovalTasks (DID cmd)).
End Archiver.

(** ** provenance.go *)
Module Provenance.
Record TemplateProvenanceClaim := {
  TemplateDID : string;
  Version : Z;
  TemplateHash : string;
  CreatedBy : string;
  ReviewedBy : list string;
  ApprovedBy : list string;
  RegisteredBy : string;
  RegistrarHolderDID : string;
  PreviousCredentialID : string;
  EffectiveAt : Z
}.

(** sha256 over the stored template bytes. *)
Definition TemplateContentHash (templateData : string) : string := EncodeToString (Sum256 (of_string templateData)).

Definition with_list (key : string) (l : list string) (m : gmap string json) : gmap string json :=
  match l with [] => m | _ => <[key := JArr (JStr <$> l)]> m end.
Definition with_text (key v : string) (m : gmap string json) : gmap string json :=
  if bool_decide (v = EmptyString) then m else <[key := JStr v]> m.

Definition credential_subject (claim : TemplateProvenanceClaim) : gmap string json :=
  with_text "previous_credential" (PreviousCredentialID claim)
  (with_text "registrar_holder_did" (RegistrarHolderDID claim)
  (with_list "approved_by" (ApprovedBy claim)
  (with_list "reviewed_by" (ReviewedBy claim)
  (list_to_map [("id", JStr (String.append "urn:dcs:template:" (TemplateDID claim)));
                ("template_did", JStr (TemplateDID claim)); ("version", jint (Version claim));
                ("template_hash", JStr (TemplateHash claim)); ("created_by", JStr (CreatedBy claim));
                ("registered_by", JStr (RegisteredBy claim))])))).

Section issue.
Context `{SRV : TemplateServices}.

(** The signed credential and its id, which hashes the credential without one. *)
Definition IssueTemplateProvenanceVC (signer : templateProvenanceVC → result json) (claim : TemplateProvenanceClaim) :
    result (json * string) :=
  let unsigned := {| vc_ID := EmptyString; vc_Issuer := IssuerDID;
                     vc_ValidFrom := Format_RFC3339 (EffectiveAt claim);
                     vc_CredentialSubject := credential_subject claim |} in
  let vcID := String.append "urn:dcs:vc:template-provenance:"
                (EncodeToString (Sum256 (of_string (MarshalVC unsigned)))) in
  signed ← wrap_err "sign template provenance VC"
    (signer {| vc_ID := vcID; vc_Issuer := vc_Issuer unsigned; vc_ValidFrom := vc_ValidFrom unsigned;
               vc_CredentialSubject := vc_CredentialSubject unsigned |});
  Ok (signed, vcID).
End issue.
End Provenance.

(** ** shapelibraries.go *)
Section shape_libraries.
Context `{SRV : TemplateServices}.

Fixpoint missing_libraries (declared : list shapesGraphDeclaration) : result (list shapesGraphDeclaration) :=
  match declared with
  | [] => Ok []
  | library :: rest =>
      match hub_Get (decl_Name library) (decl_Version library) with
      | Ok _ => missing_libraries rest
      | Err err =>
          if errors_Is err ErrSchemaNotFound
          then missing ← missing_libraries rest; Ok (library :: missing)
          else Err (Wrapf "could not look up shapes in the Semantic Hub" err)
      end
  end.

Definition requireDeclaredShapeLibraries (templateData : option json) : result () :=
  declared ← wrap_err "could not read the shapes graphs the template declares" (DeclaredShapeLibraries templateData);
  missing ← missing_libraries declared;
  match missing with
  | [] => Ok ()
  | _ => Err (Errorf "this template is authored against shape libraries that are not in this instance's Semantic Hub")
  end.
End shape_libraries.

(** ** register.go *)
Module Registrar.
Record RegisterCmd := {
  DID : string;
  Version : Z;
  RegisteredBy : string;
  HolderDID : string
}.

Section handler.
Context `{SRV : TemplateServices}.

(** The first transaction. *)
Definition find_existing (cmd : RegisterCmd) : TTx (option ContractTemplate) := λ e s,
  match TemplateRepo.ReadDataByID (DID cmd) e s with
  | Ok (c, s') => Ok (Some c, s')
  | Err err => if errors_Is err ErrContractTemplateNotFound then Ok (None, s)
               else Err (Wrapf "could not check if contract template already exists" err)
  end.

Definition reviewed (t : TemplateTask) : bool := bool_decide (tt_state t ∈ [TaskVerified; TaskApproved]).
Definition approved (t : TemplateTask) : bool := bool_decide (tt_state t = TaskApproved).

Definition content_hash (existing : ContractTemplate) : string :=
  Provenance.TemplateContentHash
    match ct_template_data existing with Some j => jsonb_text j | None => EmptyString end.

Definition issueProvenanceCredential (cmd : RegisterCmd) (existing : ContractTemplate) : TTx () :=
  match CreateCredential with
  | None => raise (Errorf "template provenance VC issuance is not configured (VCSigner/IssuerDID)")
  | Some signer =>
      _ ← reject_if (bool_decide (IssuerDID = EmptyString))
            (Errorf "template provenance VC issuance is not configured (VCSigner/IssuerDID)");
      issued ← TemplateRepo.ReadProvenanceCredentials (DID cmd);
      if existsb (λ cred, bool_decide (pc_version cred = ct_version existing)) issued then mret () else
      reviews ← within "read review tasks" (TaskRepo.ReadAllByDID TaskRepo.ReviewTasks (DID cmd));
      approvals ← within "read approval tasks" (TaskRepo.ReadAllByDID TaskRepo.ApprovalTasks (DID cmd));
      previousVCID ← TemplateRepo.ReadLatestProvenanceVCID (DID cmd);
      t ← clock;
      vc ← of_result (Provenance.IssueTemplateProvenanceVC signer
        {| Provenance.TemplateDID := DID cmd; Provenance.Version := ct_version existing;
           Provenance.TemplateHash := content_hash existing;
           Provenance.CreatedBy := ct_created_by existing;
           Provenance.ReviewedBy := tt_holder <$> rows_where reviewed reviews;
           Provenance.ApprovedBy := tt_holder <$> rows_where approved approvals;
           Provenance.RegisteredBy := RegisteredBy cmd; Provenance.RegistrarHolderDID := HolderDID cmd;
           Provenance.PreviousCredentialID := default EmptyString previousVCID;
           Provenance.EffectiveAt := t |});
      TemplateRepo.InsertProvenanceCredential
        {| pc_did := DID cmd; pc_version := ct_version existing; pc_vc_id := vc.2;
           pc_previous_vc_id := previousVCID; pc_credential := vc.1 |}
  end.

(** The second transaction, on the template the first one read. *)
Definition seal (cmd : RegisterCmd) (existing : ContractTemplate) : TTx string :=
  _ ← within "could not update registered state" (TemplateRepo.UpdateState (DID cmd) Registered);
  _ ← within "could not issue template provenance credential" (issueProvenanceCredential cmd existing);
  _ ← within "could not create event" (Create_event
        (event "REGISTER_CONTRACT_TEMPLATE" (DID cmd)
           [("registered_by", JStr (RegisteredBy cmd)); ("source_did", JStr (ct_did existing));
            ("source_version", jint (ct_version existing));
            ("previous_state", JStr (state_label (ct_state existing)));
            ("new_state", JStr (state_label Registered))]));
  mret (DID cmd).

Definition templateDataFromAny (raw : json) : result json :=
  match raw with
  | JObj m => Ok (JObj m)
  | JStr value =>
      if bool_decide (TrimSpace value = EmptyString)
      then Err (Errorf "template data is missing from Federated Catalogue") else
      parsed ← wrap_err "parse template data from Federated Catalogue" (Unmarshal_text value);
      m ← wrap_err "parse template data from Federated Catalogue" (Unmarshal_map parsed);
      (** A nil map is marshalled as null. *)
      Ok (if bool_decide (parsed = JNull) then JNull else JObj m)
  | JNull => Err (Errorf "template data is missing from Federated Catalogue")
  | _ => Err (Errorf "invalid template data format from Federated Catalogue")
  end.

(** A template of the catalogue, checked for import. *)
Record Import := { im_data : json; im_type : string; im_name : option string; im_description : option string }.

Definition fetch (cmd : RegisterCmd) : result Import :=
  match FCClient with
  | None => Err (Sentinel ErrFederatedCatalogueNotConfigured)
  | Some fc =>
      found ← wrap_err "could not retrieve template from Federated Catalogue" (GetByID fc (DID cmd) (Version cmd));
      match found with
      | None => Err (Sentinel ErrTemplateNotFoundInFederatedCatalogue)
      | Some t =>
          data ← match fc_TemplateData t with
                 | None => Err (Errorf "template data is missing from Federated Catalogue")
                 | Some raw => templateDataFromAny raw
                 end;
          ttype ← match fc_TemplateType t with
                  | None => Err (Errorf "template type is missing from Federated Catalogue")
                  | Some label =>
                      if bool_decide (TrimSpace label = EmptyString)
                      then Err (Errorf "template type is missing from Federated Catalogue")
                      else wrap_err "invalid template type from Federated Catalogue" (NewContractTemplateType label)
                  end;
          _ ← requireDeclaredShapeLibraries (Some data);
          Ok {| im_data := data; im_type := ttype; im_name := fc_Name t; im_description := fc_Description t |}
      end
  end.

(** The import transaction. *)
Definition import (cmd : RegisterCmd) (newDID : string) (im : Import) : TTx string :=
  _ ← within "could not create registered contract template" (TemplateRepo.Create
        {| ct_did := newDID; ct_version := 0; ct_state := Draft; ct_template_type := im_type im;
           ct_name := im_name im; ct_description := im_description im; ct_created_by := RegisteredBy cmd;
           ct_created_at := 0; ct_updated_at := 0; ct_template_data := Some (im_data im);
           ct_base_template := None |});
  _ ← within "could not create event" (Create_event
        (event "REGISTER_CONTRACT_TEMPLATE" newDID
           [("registered_by", JStr (RegisteredBy cmd)); ("source_did", JStr (DID cmd));
            ("source_version", jint (Version cmd))]));
  mret newDID.

(** [others] is what other requests commit between the two transactions. *)
Definition Handle (cmd : RegisterCmd) (others : TStore → TStore) (e : TEnv) (s : TStore) : result string * TStore :=
  if bool_decide (DID cmd = EmptyString) then (Err (Errorf "did is empty"), s) else
  match find_existing cmd e s with
  | Err err => (Err err, s)
  | Ok (Some existing, _) => commit (seal cmd existing) e (others s)
  | Ok (None, _) =>
      if Version cmd <? 1 then (Err (Errorf "version must be greater than 0"), s) else
      match FCClient with
      | None => (Err (Sentinel ErrFederatedCatalogueNotConfigured), s)
      | Some _ =>
          match te_generated e with
          | Err err => (Err (Wrapf "could not get new DID for contract template" err), s)
          | Ok newDID =>
              match fetch cmd with
              | Err err => (Err err, others s)
              | Ok im => commit (import cmd newDID im) e (others s)
              end
          end
      end
  end.
End handler.
End Registrar.

(** ** internal/fcasset/asset.go *)
Module fcasset.
Record CatalogueSubject := {
  ID : string;
  State : string;
  Name : string;
  Description : string;
  Version : string;
  TemplateType : string
}.

Section payload.
Context `{SRV : TemplateServices}.

Definition TemplateDataString (templateData : option json) : result string :=
  match templateData with
  | Some j => if IsNotNullValue (Some j) then Ok (jsonb_text j) else Err (Errorf "template data is empty")
  | None => Err (Errorf "template data is empty")
  end.

Definition CatalogueSubjectFromRepository (did : string) (version : Z) (state name description ttype : string) :
    CatalogueSubject :=
  {| ID := did; State := ToLower (TrimSpace state); Name := name; Description := description;
     Version := pretty version; TemplateType := ttype |}.

Definition BuildPayload (now : Z) (issuer subjectIRI : string) (validFrom : Z) (subject : CatalogueSubject)
    (templateDataString : string) : result json :=
  if blank subjectIRI then Err (Errorf "template subject iri is empty")
  else if blank (ID subject) then Err (Errorf "template did is empty")
  else if blank issuer then Err (Errorf "issuer is empty")
  else Ok (JObj (list_to_map [
    ("@context", JArr [JStr "https://www.w3.org/ns/credentials/v2";
      JObj (list_to_map [("dcs", JStr "https://w3id.org/facis/dcs/1#"); ("schema", JStr "https://schema.org/");
                         ("prov", JStr "http://www.w3.org/ns/prov#")])]);
    ("id", JStr subjectIRI);
    ("type", JArr [JStr "VerifiableCredential"; JStr "dcs:ContractTemplate"]);
    ("issuer", JStr issuer);
    ("validFrom", JStr (Format_RFC3339 (Z.min validFrom now)));
    ("credentialSubject", JObj (list_to_map [
      ("id", JStr subjectIRI); ("type", JStr "dcs:ContractTemplate"); ("dcs:templateUuid", JStr (ID subject));
      ("dcs:state", JStr (State subject)); ("dcs:templateType", JStr (TemplateType subject));
      ("schema:name", JStr (Name subject)); ("schema:description", JStr (Description subject));
      ("schema:version", JStr (Version subject)); ("dcs:templateDataString", JStr templateDataString)]))])).

(** The payload publish and verify build from a template
    ([buildCatalogueVerificationPayload], the first half of
    [publishTemplateResourceToFC]). *)
Definition template_payload (e : TEnv) (issuer : string) (processData fullTemplate : ContractTemplate) : result json :=
  text ← wrap_err "serialize template data for Federated Catalogue"
           (TemplateDataString (ct_template_data fullTemplate));
  BuildPayload (te_now e) issuer (ResourceIRI (te_public_url e) "template" (ct_did processData))
    (ct_updated_at fullTemplate)
    (CatalogueSubjectFromRepository (ct_did processData) (ct_version processData)
       (state_label (ct_state processData)) (default EmptyString (ct_name fullTemplate))
       (default EmptyString (ct_description fullTemplate)) (ct_template_type fullTemplate))
    text.
End payload.
End fcasset.

(** ** publish.go *)
Module Publisher.
Record PublishCmd := { DID : string; UpdatedAt : Z; PublishedBy : string; InstanceDID : string }.

Section handler.
Context `{SRV : TemplateServices}.

Definition publish_failed (resp : FCResponse) : result () :=
  Err (Errorf (if bool_decide (ErrorMessage resp = EmptyString)
               then "publish template resource failed with status" else "publish template resource failed")).

(** A conflict is a success when the catalogue already holds the template. *)
Definition publishTemplateResourceToFC (fc : FederatedCatalogue) (e : TEnv) (cmd : PublishCmd)
    (template : ContractTemplate) : result () :=
  if bool_decide (InstanceDID cmd = EmptyString) then Err (Errorf "instance did is empty") else
  payload ← wrap_err "build template asset payload failed"
              (fcasset.template_payload e (InstanceDID cmd) template template);
  resp ← wrap_err "publish template resource failed" (PostAsset fc payload);
  if StatusCode resp =? 201 then Ok ()
  else if (StatusCode resp =? 409) && bool_decide (ErrorCode resp = "conflict_error") then Ok ()
  else publish_failed resp.

(** The second transaction. *)
Definition record_publication (cmd : PublishCmd) : TTx () :=
  row ← within "could not read process data" (TemplateRepo.ReadProcessDataByDID (DID cmd));
  let state := ct_state (columns row) in
  if bool_decide (state = Published) then mret () else
  _ ← reject_if (negb (bool_decide (state = Registered)))
        (Errorf "contract template must be in registered state to publish");
  _ ← within "could not update state" (TemplateRepo.UpdateState (DID cmd) Published);
  within "could not create event" (Create_event
    (event "PUBLISH_CONTRACT_TEMPLATE" (DID cmd)
       [("version", jint (ct_version (columns row))); ("published_by", JStr (PublishedBy cmd))])).

(** [others] is what other requests commit during the call to the catalogue. *)
Definition Handle (cmd : PublishCmd) (others : TStore → TStore) (e : TEnv) (s : TStore) : result () * TStore :=
  match templates s !! DID cmd with
  | None => (Err (Wrapf "could not read process data" (Errorf "contract template with DID")), s)
  | Some row =>
      if Unix (UpdatedAt cmd) <? Unix (content_updated_at row) then (Err updated_elsewhere, s)
      else if negb (bool_decide (ct_state (columns row) = Registered))
      then (Err (Errorf "contract template must be in registered state to publish"), s)
      else
        match FCClient with
        | None => (Err (Sentinel ErrFederatedCatalogueNotConfigured), s)
        | Some fc =>
            match publishTemplateResourceToFC fc e cmd (columns row) with
            | Err err => (Err err, others s)
            | Ok _ => commit (record_publication cmd) e (others s)
            end
        end
  end.
End handler.
End Publisher.

(** ** query/verify.go *)
Module Verifier.
Record VerifyQry := { DID : string; VerifiedBy : string; HolderDID : string }.

Section handler.
Context `{SRV : TemplateServices}.

Definition empty_text (v : option string) : bool := bool_decide (v = Some EmptyString).

Definition verifyTemplateResourceSelfDescription (fc : FederatedCatalogue) (e : TEnv) (cmd : VerifyQry)
    (template : ContractTemplate) : result (list string) :=
  let own :=
    (if bool_decide (HolderDID cmd = EmptyString) then ["holder did is empty"] else []) ++
    (if empty_text (ct_name template) then ["name is empty"] else []) ++
    (if empty_text (ct_description template) then ["description is empty"] else []) in
  payload ← fcasset.template_payload e (HolderDID cmd) template template;
  resp ← wrap_err "verify template resource self-description failed" (PostVerification fc payload);
  Ok (own ++
      (if (StatusCode resp <? 200) || (300 <=? StatusCode resp)
       then ["verify template resource self-description failed"] else [])).

Definition Handle (cmd : VerifyQry) : TTx (list string) :=
  row ← within "could not read process data" (TemplateRepo.ReadProcessDataByDID (DID cmd));
  full ← within "could not read template data" (TemplateRepo.ReadDataByID (DID cmd));
  _ ← within "template data validation failed" (of_result (NormalizeTemplateData (ct_template_data full)));
  e ← query (λ e _, e);
  findings ← match FCClient with
             | None => mret []
             | Some fc => of_result (verifyTemplateResourceSelfDescription fc e cmd full)
             end;
  match findings with
  | _ :: _ => mret findings
  | [] =>
      hasTask ← TaskRepo.TaskExistsInState TaskRepo.ReviewTasks (DID cmd) (VerifiedBy cmd) TaskOpen;
      _ ← only_if hasTask (TaskRepo.UpdateState TaskRepo.ReviewTasks (DID cmd) (VerifiedBy cmd) TaskVerified);
      _ ← within "could not create event" (Create_event
            (event "VERIFY_CONTRACT_TEMPLATE" (DID cmd)
               [("version", jint (ct_version (columns row))); ("verified_by", JStr (VerifiedBy cmd))]));
      mret []
  end.
End handler.
End Verifier.

(** ** Services for concrete runs

    Documents pass as they are, a credential is its own signature, and the text
    of a document is its title. *)
Definition demo_services : TemplateServices := {|
  NormalizeTemplateData := λ raw, match raw with Some j => Ok j | None => Err (Errorf "document data is required") end;
  jsonb_text := λ j, match j with JObj m => as_string (m !! "title") | _ => EmptyString end;
  MarshalVC := λ vc, String.append (vc_ValidFrom vc) (as_string (vc_CredentialSubject vc !! "template_hash"));
  Format_RFC3339 := λ t, pretty t;
  CreateCredential := Some (λ vc, Ok (JObj (vc_CredentialSubject vc)));
  IssuerDID := "did:web:a.example";
  FCClient := None;
  hub_Get := λ _ _, Err (Sentinel ErrSchemaNotFound);
  Unmarshal_text := λ _, Err (Errorf "invalid character")
|}.

Definition demo_template_env : TEnv :=
  {| te_now := 1785585600000000; te_generated := Ok "t9"; te_public_url := "https://a.example" |}.

Definition demo_title (title : string) : option json := Some (JObj {["title" := JStr title]}).

Definition demo_create (did title : string) : Creator.CreateCmd :=
  {| Creator.DID := did; Creator.CreatedBy := "ann"; Creator.TemplateType := "COMPONENT";
     Creator.Name := None; Creator.Description := None; Creator.TemplateData := demo_title title |}.
Definition demo_submit (did who : string) (flag : option ActionFlag) (role : string) : Submitter.SubmitCmd :=
  {| Submitter.DID := did; Submitter.UpdatedAt := 1785585600000000; Submitter.SubmittedBy := who;
     Submitter.Flag := flag; Submitter.UserRoles := [role] |}.
Definition demo_verify (did who : string) : Verifier.VerifyQry :=
  {| Verifier.DID := did; Verifier.VerifiedBy := who; Verifier.HolderDID := "did:key:h" |}.
Definition demo_decide (did who : string) : Decider.DecideCmd :=
  {| Decider.DID := did; Decider.UpdatedAt := 1785585600000000; Decider.DecidedBy := who |}.
Definition demo_register (did : string) : Registrar.RegisterCmd :=
  {| Registrar.DID := did; Registrar.Version := 1; Registrar.RegisteredBy := "rob"; Registrar.HolderDID := "did:key:r" |}.
Definition demo_edit (did title role : string) : UpdateCmd :=
  {| up_DID := did; up_TemplateType := None; up_UpdatedAt := 1785585600000000; up_UpdatedBy := "ann";
     up_Name := None; up_Description := None; up_TemplateData := demo_title title; up_UserRoles := [role] |}.
