(* ===== verification/TemplateLaws.v ===== *)
(** The template repository as one machine, and what holds of every run of it.

    A request is one transaction, except registration and publication, which run
    two with other requests in between: registration's first transaction leaves a
    snapshot in flight ([ABegin]) that a later one seals ([ASeal]); publication's
    first only decides whether the second ([APublication]) runs at all.  The
    snapshots are kept, so the theorems also cover a registration that is sent
    again. *)
From S2P Require Import Prelude Json Transactions Sha256 Anchors TemplateStore Templates.

(** ** The machine *)
Inductive Action :=
  | ACreate (cmd : Creator.CreateCmd)
  | ACopy (cmd : Copier.CopyCmd)
  | AUpdate (cmd : UpdateCmd)
  | AUpdateManage (cmd : UpdateCmd)
  | ASubmit (cmd : Submitter.SubmitCmd)
  | AApprove (cmd : Decider.DecideCmd)
  | AReject (cmd : Decider.DecideCmd)
  | AArchive (cmd : Archiver.ArchiveCmd)
  | AVerify (cmd : Verifier.VerifyQry)
  | ARender (did : string) (pdf : string * string * string * string)
  | APublication (cmd : Publisher.PublishCmd)
  | AImport (cmd : Registrar.RegisterCmd) (newDID : string) (im : Registrar.Import)
  | ARegister (cmd : Registrar.RegisterCmd)
  | ABegin (cmd : Registrar.RegisterCmd)
  | ASeal (request : nat).

Record Config := { store : TStore; in_flight : list (Registrar.RegisterCmd * ContractTemplate) }.

Section machine.
Context `{SRV : TemplateServices}.

Definition perform (a : Action) (e : TEnv) (c : Config) : Config :=
  let run {A} (m : TTx A) := {| store := (commit m e (store c)).2; in_flight := in_flight c |} in
  match a with
  | ACreate cmd => run (Creator.Handle cmd)
  | ACopy cmd => run (Copier.Handle cmd)
  | AUpdate cmd => run (Updater.Handle cmd)
  | AUpdateManage cmd => run (UpdateManager.Handle cmd)
  | ASubmit cmd => run (Submitter.Handle cmd)
  | AApprove cmd => run (Decider.Approver_Handle cmd)
  | AReject cmd => run (Decider.Rejecter_Handle cmd)
  | AArchive cmd => run (Archiver.Handle cmd)
  | AVerify cmd => run (Verifier.Handle cmd)
  | ARender did pdf => run (TemplateRepo.UpdatePDFState did pdf)
  | APublication cmd => run (Publisher.record_publication cmd)
  | AImport cmd newDID im => run (Registrar.import cmd newDID im)
  | ARegister cmd =>
      {| store := (Registrar.Handle cmd id e (store c)).2; in_flight := in_flight c |}
  | ABegin cmd =>
      match Registrar.find_existing cmd e (store c) with
      | Ok (Some existing, _) => {| store := store c; in_flight := in_flight c ++ [(cmd, existing)] |}
      | _ => c
      end
  | ASeal i =>
      match in_flight c !! i with
      | Some (cmd, existing) => run (Registrar.seal cmd existing)
      | None => c
      end
  end.

Fixpoint perform_all (l : list (Action * TEnv)) (c : Config) : Config :=
  match l with [] => c | (a, e) :: l' => perform_all l' (perform a e c) end.

Definition start : Config := {| store := no_templates; in_flight := [] |}.
Definition reachable (c : Config) : Prop := ∃ l, c = perform_all l start.
End machine.

(** ** The abstract template *)
Record View := {
  v_state : ContractTemplateState;
  v_content : option json;
  v_version : Z;
  v_lineage : option string;
  v_author : string
}.

Definition view (r : TemplateRow) : View :=
  let c := columns r in
  {| v_state := ct_state c; v_content := ct_template_data c; v_version := ct_version c;
     v_lineage := ct_base_template c; v_author := ct_created_by c |}.

Definition views (s : TStore) : gmap string View := view <$> templates s.

Definition enters (st : ContractTemplateState) (v : View) : View :=
  {| v_state := st; v_content := v_content v; v_version := v_version v; v_lineage := v_lineage v;
     v_author := v_author v |}.
Definition rewritten (content : option json) (v : View) : View :=
  {| v_state := v_state v; v_content := content; v_version := v_version v; v_lineage := v_lineage v;
     v_author := v_author v |}.

(** The states a template may move to.  Registration accepts any state. *)
Definition edge (a b : ContractTemplateState) : bool :=
  match a, b with
  | _, Registered => true
  | Draft, Submitted | Rejected, Submitted | Submitted, Reviewed | Submitted, Rejected
  | Reviewed, Submitted | Reviewed, Approved | Reviewed, Rejected | Registered, Published => true
  | (Registered | Published), Deprecated => true
  | (Draft | Submitted | Rejected | Reviewed | Approved), Deleted => true
  | _, _ => false
  end.

(** The states in which a command may rewrite the content. *)
Definition editable (a : ContractTemplateState) : bool :=
  match a with Registered | Published | Deprecated => false | _ => true end.

(** The version of a new template fits its column. *)
Definition version_fits (v : View) : Prop := v_version v <= max_int4.

Inductive TMove : option View → option View → Prop :=
  | tm_stay v : TMove v v
  | tm_birth v : v_state v = Draft → version_fits v → TMove None (Some v)
  | tm_edge v st : edge (v_state v) st = true → TMove (Some v) (Some (enters st v))
  | tm_edit v content : editable (v_state v) = true → TMove (Some v) (Some (rewritten content v)).

Definition moves (s s' : TStore) : Prop := ∀ did, TMove (views s !! did) (views s' !! did).

(** What one request may do: the template it may create, the template it may
    change, the moves it makes and the states in which it rewrites. *)
Record Reach := {
  newborn : option string;
  subject : option string;
  goes : ContractTemplateState → ContractTemplateState → bool;
  edits : ContractTemplateState → bool
}.

Definition nothing : Reach := {| newborn := None; subject := None; goes := λ _ _, false; edits := λ _, false |}.
Definition creates (did : string) : Reach :=
  {| newborn := Some did; subject := None; goes := λ _ _, false; edits := λ _, false |}.
Definition takes (did : string) (goes : ContractTemplateState → ContractTemplateState → bool) : Reach :=
  {| newborn := None; subject := Some did; goes := goes; edits := λ _, false |}.
Definition rewrites (did : string) (edits : ContractTemplateState → bool) : Reach :=
  {| newborn := None; subject := Some did; goes := λ _ _, false; edits := edits |}.

Definition only (a b x y : ContractTemplateState) : bool := bool_decide (x = a) && bool_decide (y = b).

Definition submit_goes (flag : option ActionFlag) (a b : ContractTemplateState) : bool :=
  match a, b with
  | Draft, Submitted | Rejected, Submitted | Reviewed, Submitted => true
  | Submitted, Reviewed => match flag with Some FlagApproval => true | _ => false end
  | Submitted, Rejected => match flag with Some FlagDraft => true | _ => false end
  | _, _ => false
  end.

Definition archive_goes (a b : ContractTemplateState) : bool :=
  match a, b with
  | (Registered | Published), Deprecated => true
  | (Draft | Submitted | Rejected | Reviewed | Approved), Deleted => true
  | _, _ => false
  end.

Definition update_edits (a : ContractTemplateState) : bool :=
  match a with Draft | Rejected | Submitted => true | _ => false end.

Definition registers (did : string) : Reach := takes did (λ _ b, bool_decide (b = Registered)).

(** The reach of a request: of a registration, which creates or registers, both. *)
Definition reach (a : Action) (e : TEnv) (c : Config) : Reach :=
  match a with
  | ACreate cmd => creates (Creator.DID cmd)
  | ACopy cmd => creates (Copier.NewDID cmd)
  | AUpdate cmd => rewrites (up_DID cmd) update_edits
  | AUpdateManage cmd => rewrites (up_DID cmd) editable
  | ASubmit cmd => takes (Submitter.DID cmd) (submit_goes (Submitter.Flag cmd))
  | AApprove cmd => takes (Decider.DID cmd) (only Reviewed Approved)
  | AReject cmd => takes (Decider.DID cmd) (only Reviewed Rejected)
  | AArchive cmd => takes (Archiver.DID cmd) archive_goes
  | AVerify _ | ARender _ _ | ABegin _ => nothing
  | APublication cmd => takes (Publisher.DID cmd) (only Registered Published)
  | AImport _ newDID _ => creates newDID
  | ARegister cmd =>
      {| newborn := match te_generated e with Ok did => Some did | Err _ => None end;
         subject := Some (Registrar.DID cmd); goes := λ _ b, bool_decide (b = Registered); edits := λ _, false |}
  | ASeal i => match in_flight c !! i with Some (cmd, _) => registers (Registrar.DID cmd) | None => nothing end
  end.

(** A move within a reach. *)
Inductive RMove (r : Reach) (did : string) : option View → option View → Prop :=
  | rm_stay v : RMove r did v v
  | rm_birth v : newborn r = Some did → v_state v = Draft → version_fits v → RMove r did None (Some v)
  | rm_edge v st : subject r = Some did → goes r (v_state v) st = true → RMove r did (Some v) (Some (enters st v))
  | rm_edit v content : subject r = Some did → edits r (v_state v) = true →
      RMove r did (Some v) (Some (rewritten content v)).

Definition moves_within (r : Reach) (s s' : TStore) : Prop := ∀ did, RMove r did (views s !! did) (views s' !! did).

(** Every reach is one of the lifecycle table. *)
Definition lawful (r : Reach) : Prop :=
  (∀ a b, goes r a b = true → edge a b = true) ∧ (∀ a, edits r a = true → editable a = true).

Lemma reach_lawful a e c : lawful (reach a e c).
Proof.
  assert (Hr : ∀ did, lawful (registers did)) by (split; [intros x y; by destruct x, y|done]).
  destruct a; cbn [reach]; try (split; [intros x y; by destruct x, y | intros x; by destruct x]).
  by destruct (in_flight c !! request) as [[? ?]|].
Qed.

Lemma within_moves r s s' : lawful r → moves_within r s s' → moves s s'.
Proof.
  intros [Hg He] H did. destruct (H did) as [|v|v st|v content]; constructor; auto.
Qed.

(** ** Lemmas: what the statements leave alone *)
Lemma before_update_columns now old new :
  let r := before_update now old new in
  view r = view new ∧ ct_did (columns r) = ct_did (columns new).
Proof. unfold before_update, update_updated_at_column, content_stamp. repeat case_match; done. Qed.

Lemma frames_Create_event {B} (f : TStore → B) evt : (∀ s g, f (set_events g s) = f s) → frames f (Create_event evt).
Proof. intros Hf. unfold Create_event. evolves_tac. apply evolves_exec. intros. apply Hf. Qed.

Section tasks.
Context {B : Type} (f : TStore → B).
Context (Hf : ∀ tbl s g, f (TaskRepo.set_tasks tbl g s) = f s).

Lemma frames_task_Create tbl did st holder by_whom : frames f (TaskRepo.Create tbl did st holder by_whom).
Proof. unfold TaskRepo.Create, clock. evolves_tac. apply evolves_exec. intros. apply Hf. Qed.
Lemma frames_task_UpdateState tbl did holder st : frames f (TaskRepo.UpdateState tbl did holder st).
Proof. unfold TaskRepo.UpdateState. evolves_tac. apply evolves_exec. intros. apply Hf. Qed.
Lemma frames_task_Reopen tbl did : frames f (TaskRepo.ReopenTasks tbl did).
Proof. apply evolves_exec. intros. apply Hf. Qed.
Lemma frames_task_Delete tbl did : frames f (TaskRepo.Delete tbl did).
Proof. apply evolves_exec. intros. apply Hf. Qed.
End tasks.

Lemma observes_clock : observes clock.
Proof. apply observes_query. Qed.
Lemma observes_ReadDataByID did : observes (TemplateRepo.ReadDataByID did).
Proof. intros e s c s'. unfold TemplateRepo.ReadDataByID. case_match; naive_solver. Qed.
Lemma observes_ReadProcessData did : observes (TemplateRepo.ReadProcessDataByDID did).
Proof. intros e s c s'. unfold TemplateRepo.ReadProcessDataByDID. case_match; naive_solver. Qed.
Lemma observes_normalized_for `{SRV : TemplateServices} msg raw did : observes (normalized_for msg raw did).
Proof. unfold normalized_for. evolves_tac. Qed.
Lemma observes_normalized_update `{SRV : TemplateServices} cmd : observes (normalized_update cmd).
Proof. pose proof observes_normalized_for. unfold normalized_update. evolves_tac. Qed.
#[export] Hint Resolve observes_clock observes_ReadDataByID observes_ReadProcessData observes_normalized_for
  observes_normalized_update : txn.

(** ** What the statements do to the abstract templates *)
Lemma views_lookup s did : views s !! did = view <$> templates s !! did.
Proof. unfold views. by rewrite lookup_fmap. Qed.

Lemma views_update now (f : TemplateRow → TemplateRow) did row s :
  templates s !! did = Some row →
  views (set_templates (alter (λ r, before_update now r (f r)) did) s) = <[did := view (f row)]> (views s).
Proof.
  intros E. apply map_eq. intros x. rewrite views_lookup. cbn [templates set_templates].
  destruct (decide (x = did)) as [-> | Hne].
  - rewrite lookup_alter_eq, E, lookup_insert_eq. cbn. f_equal. apply before_update_columns.
  - by rewrite lookup_alter_ne, lookup_insert_ne, views_lookup.
Qed.

Lemma views_update_none now (f : TemplateRow → TemplateRow) did s :
  templates s !! did = None → views (set_templates (alter (λ r, before_update now r (f r)) did) s) = views s.
Proof.
  intros E. apply map_eq. intros x. rewrite !views_lookup. cbn [templates set_templates].
  destruct (decide (x = did)) as [-> | Hne]; [by rewrite lookup_alter_eq, E | by rewrite lookup_alter_ne].
Qed.

Lemma views_insert row did s : views (set_templates (insert did row) s) = <[did := view row]> (views s).
Proof. unfold views. cbn [templates set_templates]. by rewrite fmap_insert. Qed.

Lemma UpdateState_Ok did st e s u s' :
  TemplateRepo.UpdateState did st e s = Ok (u, s') →
  ∃ row, templates s !! did = Some row ∧
    is_active st && TemplateRepo.conflicting (columns row) s = false ∧
    s' = set_templates (alter (λ r, before_update (te_now e) r (TemplateRepo.with_state st r)) did) s.
Proof.
  unfold TemplateRepo.UpdateState. intros H. txn_inv. destruct (templates s !! did) as [row|] eqn:E; [|txn_inv].
  txn_inv. destruct (_ && _) eqn:Ec; [txn_inv|]. exists row. split_and!; [done..|]. unfold TemplateRepo.update_row in H.
  by txn_inv.
Qed.

Lemma template_insert_Ok row e s u s' :
  TemplateRepo.insert_row row e s = Ok (u, s') →
  templates s !! ct_did (columns row) = None ∧ ct_did (columns row) ≠ EmptyString ∧
  s' = set_templates (insert (ct_did (columns row)) row) s.
Proof.
  unfold TemplateRepo.insert_row. intros H. txn_inv. destruct (templates s !! _) eqn:E; [txn_inv|]. txn_inv.
  bool_to_prop. done.
Qed.

(** An update that names no state keeps everything but the content. *)
Definition no_state (a : TemplateRepo.Assignment) : bool := match a with TemplateRepo.SetState _ => false | _ => true end.

Lemma rewritten_same v : rewritten (v_content v) v = v.
Proof. by destruct v. Qed.

Lemma assign_view r l : forallb no_state l = true → ∃ content, view (foldl TemplateRepo.assign r l) = rewritten content (view r).
Proof.
  revert r. induction l as [|a l IH]; intros r Hl; [exists (v_content (view r)); by rewrite rewritten_same|].
  cbn in Hl. apply andb_true_iff in Hl as [Ha Hl]. cbn [foldl].
  destruct (IH (TemplateRepo.assign r a) Hl) as [content ->]. exists content.
  by destruct a.
Qed.

Lemma createQuery_no_state data l :
  TemplateRepo.u_state data = EmptyString → TemplateRepo.createQuery data = Ok l → forallb no_state l = true.
Proof.
  unfold TemplateRepo.createQuery. intros ->. rewrite bool_decide_eq_true_2 by done. cbn [app].
  set (content := _ ++ _). assert (Hc : forallb no_state content = true).
  { unfold content. rewrite !forallb_app. repeat case_match; done. }
  destruct content; [done|]. intros [= <-]. cbn [forallb] in *. by rewrite forallb_app, andb_assoc, Hc.
Qed.

Lemma Update_Ok data e s u s' :
  TemplateRepo.u_state data = EmptyString → TemplateRepo.Update data e s = Ok (u, s') →
  ∃ l, TemplateRepo.createQuery data = Ok l ∧ forallb no_state l = true ∧
    s' = set_templates (alter (λ r, before_update (te_now e) r (foldl TemplateRepo.assign r l)) (TemplateRepo.u_did data)) s.
Proof.
  intros Hs H. unfold TemplateRepo.Update in H. txn_inv. unfold TemplateRepo.update_row in H. txn_inv.
  eexists. split_and!; [done| |done]. by eapply createQuery_no_state.
Qed.

(** ** Moves *)
Lemma moves_refl r s : moves_within r s s.
Proof. intros did. constructor. Qed.

Lemma moves_views r s s1 s2 : views s1 = views s → moves_within r s1 s2 → moves_within r s s2.
Proof. intros E H did. rewrite <-E. apply H. Qed.
Lemma moves_then r s s1 s2 : moves_within r s s1 → views s2 = views s1 → moves_within r s s2.
Proof. intros H E did. rewrite E. apply H. Qed.

Lemma template_moves_at r s s' did v :
  views s' = <[did := v]> (views s) → RMove r did (views s !! did) (Some v) → moves_within r s s'.
Proof.
  intros E H x. rewrite E. destruct (decide (x = did)) as [-> | Hne]; [by rewrite lookup_insert_eq|].
  rewrite lookup_insert_ne by done. constructor.
Qed.

Lemma moves_state r did st e s u s' :
  TemplateRepo.UpdateState did st e s = Ok (u, s') →
  subject r = Some did →
  (∀ row, templates s !! did = Some row → goes r (ct_state (columns row)) st = true) → moves_within r s s'.
Proof.
  intros (row & E & _ & ->)%UpdateState_Ok Hsub Hedge. eapply template_moves_at; [by apply views_update|].
  rewrite views_lookup, E. cbn [fmap option_fmap option_map].
  change (view (TemplateRepo.with_state st row)) with (enters st (view row)). constructor; [done|]. by apply Hedge.
Qed.

Lemma moves_content r data e s u s' :
  TemplateRepo.u_state data = EmptyString → TemplateRepo.Update data e s = Ok (u, s') →
  subject r = Some (TemplateRepo.u_did data) →
  (∀ row, templates s !! TemplateRepo.u_did data = Some row → edits r (ct_state (columns row)) = true) → moves_within r s s'.
Proof.
  intros Hs (l & _ & Hl & ->)%Update_Ok Hsub Hed; [|done].
  destruct (templates s !! TemplateRepo.u_did data) as [row|] eqn:E.
  - eapply template_moves_at; [by apply views_update|]. destruct (assign_view row l Hl) as [content ->].
    rewrite views_lookup, E. cbn [fmap option_fmap option_map]. constructor; [done|]. by apply Hed.
  - apply (moves_then _ _ s); [apply moves_refl|]. by apply views_update_none.
Qed.

(** ** What each request may do *)
Lemma ReadProcessData_Ok did e s row s' :
  TemplateRepo.ReadProcessDataByDID did e s = Ok (row, s') → templates s !! did = Some row ∧ s' = s.
Proof. unfold TemplateRepo.ReadProcessDataByDID. case_match; naive_solver. Qed.

Lemma ReadDataByID_Ok did e s c s' :
  TemplateRepo.ReadDataByID did e s = Ok (c, s') → ∃ row, templates s !! did = Some row ∧ c = columns row ∧ s' = s.
Proof. unfold TemplateRepo.ReadDataByID. case_match; naive_solver. Qed.

Lemma frames_Ok {E S A B} (f : S → B) (m : Txn E S A) e s a s' : frames f m → m e s = Ok (a, s') → f s' = f s.
Proof. intros Hm H. by apply (Hm _ _ _ _ H). Qed.

Lemma observes_Ok {E S A} (m : Txn E S A) e s a s' : observes m → m e s = Ok (a, s') → s' = s.
Proof. intros Hm H. by apply (Hm _ _ _ _ H). Qed.

(** The projections that only one group of statements writes. *)
Lemma templates_tasks tbl s g : templates (TaskRepo.set_tasks tbl g s) = templates s.
Proof. by destruct tbl. Qed.
Lemma credentials_tasks tbl s g : credentials (TaskRepo.set_tasks tbl g s) = credentials s.
Proof. by destruct tbl. Qed.

Lemma frames_IsValidHolder {B} (f : TStore → B) tbl did holder : frames f (TaskRepo.IsValidHolder tbl did holder).
Proof. apply evolves_observes; [apply _ | apply observes_query]. Qed.

#[export] Hint Resolve frames_Create_event frames_task_Create frames_task_UpdateState frames_task_Reopen
  frames_task_Delete templates_tasks credentials_tasks frames_IsValidHolder : txn.

(** Replace the outcome of a statement that leaves the templates alone. *)
Ltac step_templates :=
  match goal with
  | H : Create_event _ _ ?s = Ok (_, ?s') |- _ =>
      apply (frames_Ok templates) in H; [|apply frames_Create_event; done]
  | H : TaskRepo.Create _ _ _ _ _ _ ?s = Ok (_, ?s') |- _ =>
      apply (frames_Ok templates) in H; [|apply frames_task_Create, templates_tasks]
  | H : TaskRepo.UpdateState _ _ _ _ _ ?s = Ok (_, ?s') |- _ =>
      apply (frames_Ok templates) in H; [|apply frames_task_UpdateState, templates_tasks]
  | H : TaskRepo.ReopenTasks _ _ _ ?s = Ok (_, ?s') |- _ =>
      apply (frames_Ok templates) in H; [|apply frames_task_Reopen, templates_tasks]
  | H : TaskRepo.Delete _ _ _ ?s = Ok (_, ?s') |- _ =>
      apply (frames_Ok templates) in H; [|apply frames_task_Delete, templates_tasks]
  | H : TemplateRepo.ReadProcessDataByDID _ _ _ = Ok (_, _) |- _ => apply ReadProcessData_Ok in H as [? ?]; subst
  | H : TemplateRepo.ReadDataByID _ _ _ = Ok (_, _) |- _ => apply ReadDataByID_Ok in H as (? & ? & ? & ?); subst
  | H : normalized_for _ _ _ _ _ = Ok (_, _) |- _ => apply observes_Ok in H; [|apply observes_normalized_for]; subst
  | H : normalized_update _ _ _ = Ok (_, _) |- _ => apply observes_Ok in H; [|apply observes_normalized_update]; subst
  | H : TaskRepo.IsValidHolder _ _ _ _ _ = Ok (_, _) |- _ => apply observes_Ok in H; [|apply observes_query]; subst
  | H : TaskRepo.AnyTasksInState _ _ _ _ _ = Ok (_, _) |- _ => apply observes_Ok in H; [|apply observes_query]; subst
  | H : TaskRepo.TaskExistsInState _ _ _ _ _ _ = Ok (_, _) |- _ => apply observes_Ok in H; [|apply observes_query]; subst
  | H : TaskRepo.ReadAllByDID _ _ _ _ = Ok (_, _) |- _ => apply observes_Ok in H; [|apply observes_query]; subst
  | H : clock _ _ = Ok (_, _) |- _ => apply observes_Ok in H; [|apply observes_clock]; subst
  end.
Ltac run_inv := repeat (txn_step || step_templates).

Lemma views_of_templates s s' : templates s' = templates s → views s' = views s.
Proof. unfold views. by intros ->. Qed.

Section handlers.
Context `{SRV : TemplateServices}.

Lemma create_moves cmd e s u s' : Creator.Handle cmd e s = Ok (u, s') → moves_within (creates (Creator.DID cmd)) s s'.
Proof.
  intros H. unfold Creator.Handle, TemplateRepo.Create in H. run_inv.
  match goal with H : TemplateRepo.insert_row _ _ _ = _ |- _ => apply template_insert_Ok in H as (Hn & _ & ->) end.
  eapply moves_then; [|by apply views_of_templates]. eapply template_moves_at; [apply views_insert|].
  rewrite views_lookup, Hn. cbn. by constructor.
Qed.

Lemma import_moves r cmd did im e s u s' :
  newborn r = Some did → Registrar.import cmd did im e s = Ok (u, s') → moves_within r s s'.
Proof.
  intros Hnew H. unfold Registrar.import, TemplateRepo.Create in H. run_inv.
  match goal with H : TemplateRepo.insert_row _ _ _ = _ |- _ => apply template_insert_Ok in H as (Hn & _ & ->) end.
  eapply moves_then; [|by apply views_of_templates]. eapply template_moves_at; [apply views_insert|].
  rewrite views_lookup, Hn. cbn. by constructor.
Qed.

(** A copy: the new row, and the content it is given in the same transaction. *)
Lemma CopyFromDID_Ok did copyDID e s version s' :
  TemplateRepo.CopyFromDID did copyDID e s = Ok (version, s') →
  ∃ source row, templates s !! did = Some source ∧ templates s !! copyDID = None ∧ copyDID ≠ EmptyString ∧
    version = TemplateRepo.new_version (columns source) ∧ version <= max_int4 ∧
    TemplateRepo.version_taken (TemplateRepo.new_base_template copyDID (columns source)) version s
      && bool_decide (is_Some (TemplateRepo.new_base_template copyDID (columns source))) = false ∧
    s' = set_templates (insert copyDID row) s ∧ ct_did (columns row) = copyDID ∧
    view row = {| v_state := Draft; v_content := ct_template_data (columns source); v_version := version;
                  v_lineage := TemplateRepo.new_base_template copyDID (columns source);
                  v_author := ct_created_by (columns source) |}.
Proof.
  intros H. unfold TemplateRepo.CopyFromDID in H. txn_inv.
  destruct (templates s !! did) as [source|] eqn:E; cbn [fmap option_fmap option_map] in H; [|run_inv].
  run_inv. match goal with H : TemplateRepo.insert_row _ _ _ = _ |- _ => apply template_insert_Ok in H as (Hn & Hne & ->) end.
  cbn [columns ct_did] in *. eexists source, _. split_and!; try done; [by bool_to_prop|].
  by rewrite andb_comm.
Qed.

Lemma copy_moves cmd e s u s' : Copier.Handle cmd e s = Ok (u, s') → moves_within (creates (Copier.NewDID cmd)) s s'.
Proof.
  intros H. unfold Copier.Handle in H. run_inv.
  match goal with H : TemplateRepo.CopyFromDID _ _ _ _ = _ |- _ =>
    apply CopyFromDID_Ok in H as (source & row & Hs & Hn & _ & Hv & Hfit & _ & -> & _ & Hrow) end.
  match goal with H : TemplateRepo.Update _ _ _ = _ |- _ => apply Update_Ok in H as (l & _ & Hl & ->); [|done] end.
  eapply moves_then; [|by apply views_of_templates]. cbn [TemplateRepo.u_did].
  destruct (assign_view row l Hl) as [content Ec].
  eapply (template_moves_at _ _ _ (Copier.NewDID cmd)).
  - erewrite views_update by (cbn [templates set_templates]; apply lookup_insert_eq).
    by rewrite views_insert, insert_insert_eq.
  - rewrite views_lookup, Hn, Ec, Hrow. cbn. constructor; [done..|]. unfold version_fits. cbn. by subst.
Qed.

Lemma may_update_Ok cmd st e s u s' :
  Updater.may_update cmd st e s = Ok (u, s') → s' = s ∧ st ∈ [Draft; Rejected; Submitted].
Proof. unfold Updater.may_update. intros H. destruct st; repeat case_match; run_inv; split; try done; set_solver. Qed.

Lemma history_templates did e s u s' :
  TemplateRepo.CreateHistoryEntryForDID did e s = Ok (u, s') → templates s' = templates s.
Proof. intros ->%exec_Ok. by case_match. Qed.

Lemma update_moves cmd e s u s' :
  Updater.Handle cmd e s = Ok (u, s') → moves_within (rewrites (up_DID cmd) update_edits) s s'.
Proof.
  intros H. unfold Updater.Handle in H. run_inv.
  match goal with H : Updater.may_update _ _ _ _ = _ |- _ => apply may_update_Ok in H as [-> Hst] end.
  match goal with H : TemplateRepo.CreateHistoryEntryForDID _ _ _ = _ |- _ => apply history_templates in H end.
  match goal with H : TemplateRepo.Update _ _ _ = _ |- _ => apply (moves_content (rewrites (up_DID cmd) update_edits)) in H as Hm; [|done..|] end.
  - eapply moves_then; [|by apply views_of_templates]. eapply moves_views; [|exact Hm]. apply views_of_templates. congruence.
  - intros row Hrow. replace row with x3 in * by (cbn [TemplateRepo.u_did update_data] in Hrow; congruence).
    set_unfold in Hst. by destruct_or! Hst; rewrite Hst.
Qed.

Lemma update_manage_moves cmd e s u s' :
  UpdateManager.Handle cmd e s = Ok (u, s') → moves_within (rewrites (up_DID cmd) editable) s s'.
Proof.
  intros H. unfold UpdateManager.Handle in H. run_inv. bool_to_prop.
  match goal with H : TemplateRepo.Update _ _ _ = _ |- _ => apply (moves_content (rewrites (up_DID cmd) editable)) in H as Hm; [|done..|] end.
  - eapply moves_then; [exact Hm | by apply views_of_templates].
  - intros row Hrow. cbn [TemplateRepo.u_did update_data] in Hrow. simplify_eq. cbn [edits rewrites].
    match goal with |- editable (ct_state (columns ?r)) = true => by destruct (ct_state (columns r)) end.
Qed.

Lemma frames_next_state {B} (f : TStore → B) cmd st :
  (∀ tbl s g, f (TaskRepo.set_tasks tbl g s) = f s) → frames f (Submitter.next_state cmd st).
Proof.
  intros Hf. unfold Submitter.next_state, Submitter.createTasks, Submitter.reopen_tasks, Submitter.approve_review,
    Submitter.permit, TaskRepo.IsValidHolder, TaskRepo.TaskExistsInState, TaskRepo.AnyTasksInState.
  pose proof (frames_task_Create f Hf). pose proof (frames_task_Reopen f Hf).
  pose proof (frames_task_UpdateState f Hf). unfold frames in *. evolves_tac.
Qed.

Lemma next_state_edge cmd st e s to s' :
  Submitter.next_state cmd st e s = Ok (Some to, s') → submit_goes (Submitter.Flag cmd) st to = true.
Proof.
  unfold Submitter.next_state, Submitter.approve_review. intros H. destruct st; repeat case_match; txn_inv; simplify_eq; try done.
  by match goal with H : Some _ = (if ?b then None else _) |- _ => destruct b end; simplify_eq.
Qed.

Lemma template_submit_moves cmd e s u s' :
  Submitter.Handle cmd e s = Ok (u, s') →
  moves_within (takes (Submitter.DID cmd) (submit_goes (Submitter.Flag cmd))) s s'.
Proof.
  intros H. unfold Submitter.Handle in H. run_inv.
  match goal with H : Submitter.next_state _ _ _ _ = Ok (?n, _) |- _ =>
    pose proof (frames_Ok templates _ _ _ _ _ (frames_next_state _ cmd _ templates_tasks) H) as Ht;
    destruct n as [to|]; [apply next_state_edge in H as He|] end.
  - case_bool_decide; run_inv; [apply (moves_then _ _ s); [apply moves_refl | by apply views_of_templates]|].
    eapply moves_then; [|by apply views_of_templates]. eapply moves_views; [apply views_of_templates, Ht|].
    eapply moves_state; [eassumption|done|]. intros row Hrow. rewrite Ht in Hrow. simplify_eq. done.
  - run_inv. apply (moves_then _ _ s); [apply moves_refl | by apply views_of_templates].
Qed.

Lemma decide_moves task st evt actor cmd e s u s' :
  Decider.decide_as task st evt actor cmd e s = Ok (u, s') → moves_within (takes (Decider.DID cmd) (only Reviewed st)) s s'.
Proof.
  intros H. unfold Decider.decide_as in H. run_inv. bool_to_prop.
  eapply moves_then; [|by apply views_of_templates]. eapply moves_views; [by apply views_of_templates|].
  eapply moves_state; [eassumption|done|]. intros row Hrow.
  match goal with H : templates ?a = templates ?b, H' : templates ?a !! _ = _ |- _ => rewrite H in H' end.
  simplify_eq. cbn [goes takes]. unfold only. by rewrite !bool_decide_eq_true_2.
Qed.

Lemma archive_moves cmd e s u s' :
  Archiver.Handle cmd e s = Ok (u, s') → moves_within (takes (Archiver.DID cmd) archive_goes) s s'.
Proof.
  intros H. unfold Archiver.Handle in H. run_inv. bool_to_prop.
  eapply moves_then; [|apply views_of_templates; etrans; [eassumption|]; etrans; eassumption].
  eapply moves_state; [eassumption|done|]. intros row Hrow. simplify_eq.
  cbn [goes takes]. match goal with |- archive_goes (ct_state (columns ?r)) _ = true => by destruct (ct_state (columns r)) end.
Qed.

Lemma verify_templates cmd : frames templates (Verifier.Handle cmd).
Proof.
  unfold Verifier.Handle. pose proof (frames_task_UpdateState templates templates_tasks).
  pose proof (frames_Create_event templates). unfold TaskRepo.TaskExistsInState, frames in *. evolves_tac.
Qed.

Lemma publication_moves cmd e s u s' :
  Publisher.record_publication cmd e s = Ok (u, s') → moves_within (takes (Publisher.DID cmd) (only Registered Published)) s s'.
Proof.
  intros H. unfold Publisher.record_publication in H. run_inv. case_bool_decide; run_inv; [apply moves_refl|].
  bool_to_prop. eapply moves_then; [|by apply views_of_templates]. eapply moves_state; [eassumption|done|].
  intros row Hrow. simplify_eq. cbn [goes takes]. unfold only. by rewrite !bool_decide_eq_true_2.
Qed.

Lemma issue_templates cmd existing : frames templates (Registrar.issueProvenanceCredential cmd existing).
Proof.
  unfold Registrar.issueProvenanceCredential, TemplateRepo.InsertProvenanceCredential, TaskRepo.ReadAllByDID,
    TemplateRepo.ReadProvenanceCredentials, TemplateRepo.ReadLatestProvenanceVCID, frames.
  evolves_tac. by apply evolves_exec.
Qed.

Lemma seal_moves r cmd existing e s u s' :
  subject r = Some (Registrar.DID cmd) → (∀ a, goes r a Registered = true) →
  Registrar.seal cmd existing e s = Ok (u, s') → moves_within r s s'.
Proof.
  intros Hsub Hgoes H. unfold Registrar.seal in H. run_inv.
  match goal with H : Registrar.issueProvenanceCredential _ _ _ _ = _ |- _ =>
    apply (frames_Ok templates _ _ _ _ _ (issue_templates _ _)) in H end.
  eapply moves_then; [|apply views_of_templates; etrans; eassumption]. eapply moves_state; [eassumption|done|].
  intros row _. apply Hgoes.
Qed.

Lemma render_moves did pdf e s u s' : TemplateRepo.UpdatePDFState did pdf e s = Ok (u, s') → moves_within nothing s s'.
Proof.
  destruct pdf as [[[? ?] ?] ?]. unfold TemplateRepo.UpdatePDFState, TemplateRepo.update_row. intros ->%exec_Ok.
  apply (moves_then _ _ s); [apply moves_refl|]. destruct (templates s !! did) as [row|] eqn:E.
  - rewrite (views_update _ _ _ row) by done. apply insert_id. by rewrite views_lookup, E.
  - by apply views_update_none.
Qed.

Lemma commit_moves {A} r (m : TTx A) e s :
  (∀ a s', m e s = Ok (a, s') → moves_within r s s') → moves_within r s (commit m e s).2.
Proof.
  intros Hm. destruct (commit_cases m e s) as [(a & s' & H & ->) | [err ->]]; [by eapply Hm | apply moves_refl].
Qed.

Lemma register_moves r cmd e s :
  subject r = Some (Registrar.DID cmd) → (∀ a, goes r a Registered = true) →
  (∀ did, te_generated e = Ok did → newborn r = Some did) → moves_within r s (Registrar.Handle cmd id e s).2.
Proof.
  intros Hsub Hgoes Hnew. unfold Registrar.Handle.
  repeat case_match; try apply moves_refl; apply commit_moves; intros ? ? Hrun;
    [by eapply seal_moves | eapply import_moves; [|exact Hrun]; by apply Hnew].
Qed.

(** One request moves every template within its reach. *)
Lemma perform_within a e c : moves_within (reach a e c) (store c) (store (perform a e c)).
Proof.
  destruct a; cbn [perform store reach]; try (apply commit_moves; intros ? ? H).
  - by eapply create_moves.
  - by eapply copy_moves.
  - by eapply update_moves.
  - by eapply update_manage_moves.
  - by eapply template_submit_moves.
  - by eapply (decide_moves TaskApproved Approved).
  - by eapply (decide_moves TaskRejected Rejected).
  - by eapply archive_moves.
  - apply (frames_Ok templates _ _ _ _ _ (verify_templates _)) in H.
    apply (moves_then _ _ (store c)); [apply moves_refl | by apply views_of_templates].
  - by eapply render_moves.
  - by eapply publication_moves.
  - by eapply import_moves.
  - apply register_moves; [done| |by intros did ->]. intros x. by apply bool_decide_eq_true_2.
  - repeat case_match; apply moves_refl.
  - destruct (in_flight c !! request) as [[cmd existing]|]; [|apply moves_refl].
    apply commit_moves. intros ? ? H. eapply seal_moves; [done| |exact H]. intros x. by apply bool_decide_eq_true_2.
Qed.

Lemma perform_moves a e c : moves (store c) (store (perform a e c)).
Proof. eapply within_moves; [apply (reach_lawful a e c)|apply perform_within]. Qed.

Lemma perform_all_app l1 l2 c : perform_all (l1 ++ l2) c = perform_all l2 (perform_all l1 c).
Proof. revert c. induction l1 as [|[a e] l1 IH]; intros c; [done|]. apply IH. Qed.

(** C27: The requests implement the lifecycle of a template.  Along every run,
    from the empty store, each request leaves every template it does not name as it
    was; the one it names it creates as a DRAFT, whose version fits the column,
    moves along an edge of the lifecycle table that is its own (approval from
    REVIEWED to APPROVED, a submit by its flag, registration to REGISTERED, and so
    on), or gives new content in a state where that request may; version, lineage
    and author never change. *)
Theorem templates_follow_the_lifecycle l did :
  let before k := perform_all (take k l) start in
  let at_step k := views (store (before k)) !! did in
  at_step 0%nat = None ∧
  ∀ k a e, l !! k = Some (a, e) →
    lawful (reach a e (before k)) ∧ RMove (reach a e (before k)) did (at_step k) (at_step (S k)).
Proof.
  split; [unfold views; by rewrite lookup_fmap|]. intros k a e E. split; [apply reach_lawful|].
  rewrite (take_S_r _ _ _ E), perform_all_app. apply perform_within.
Qed.

(** ** What a registered template keeps *)
Definition settled (st : ContractTemplateState) : bool :=
  match st with Registered | Published | Deprecated => true | _ => false end.

Lemma settled_move v o : settled (v_state v) = true → TMove (Some v) o →
  ∃ v', o = Some v' ∧ settled (v_state v') = true ∧ v_content v' = v_content v ∧ v_version v' = v_version v ∧
        v_lineage v' = v_lineage v ∧ v_author v' = v_author v.
Proof.
  intros Hs Hm. inversion Hm as [|?|? st He|? content He]; subst.
  - by exists v.
  - exists (enters st v). split_and!; try done. cbn. by destruct (v_state v), st.
  - by destruct (v_state v).
Qed.

(** C28: Once a template version has been registered, no sequence of requests
    changes its content, version or lineage: it stays registered, published or
    deprecated with the document it was registered with. *)
Theorem registered_content_is_frozen l c did v :
  views (store c) !! did = Some v → settled (v_state v) = true →
  ∃ v', views (store (perform_all l c)) !! did = Some v' ∧ settled (v_state v') = true ∧
    v_content v' = v_content v ∧ v_version v' = v_version v ∧ v_lineage v' = v_lineage v ∧ v_author v' = v_author v.
Proof.
  revert c v. induction l as [|[a e] l IH]; intros c v Hv Hs; [by exists v|]. cbn [perform_all].
  pose proof (perform_moves a e c did) as Hm.
  rewrite Hv in Hm. apply settled_move in Hm as (v1 & H1 & Hs1 & Hc & Hver & Hl & Ha); [|done].
  destruct (IH _ _ H1 Hs1) as (v2 & H2 & ? & ? & ? & ? & ?). exists v2. split_and!; congruence.
Qed.
End handlers.

(** ** A run: create, submit, verify, review, approve, register, next version *)
Definition demo_steps : list Action :=
  [ACreate (demo_create "t1" "Hosting"); ASubmit (demo_submit "t1" "ann" None TemplateCreator);
   AVerify (demo_verify "t1" "ann"); ASubmit (demo_submit "t1" "ann" (Some FlagApproval) TemplateReviewer);
   AApprove (demo_decide "t1" "ann"); ARegister (demo_register "t1");
   ACopy {| Copier.NewDID := "t2"; Copier.CopyDID := "t1"; Copier.CopiedBy := "ann" |};
   ACopy {| Copier.NewDID := "t3"; Copier.CopyDID := "t1"; Copier.CopiedBy := "bob" |};
   ARegister (demo_register "t2"); ARegister (demo_register "t3")].

Definition demo_run (l : list Action) : Config :=
  perform_all (SRV := demo_services) ((λ a, (a, demo_template_env)) <$> l) start.

(** The competing third row stays a draft. *)
Example demo_states :
  (λ did, (v_state <$> views (store (demo_run demo_steps)) !! did, v_version <$> views (store (demo_run demo_steps)) !! did))
    <$> ["t1"; "t2"; "t3"] =
  [(Some Registered, Some 1); (Some Registered, Some 2); (Some Draft, Some 2)].
Proof. by vm_compute. Qed.

(** The approval of t1 is its fifth request. *)
Lemma lifecycle_witness :
  let before k := perform_all (SRV := demo_services) (take k ((λ a, (a, demo_template_env)) <$> demo_steps)) start in
  let approval := reach (AApprove (demo_decide "t1" "ann")) demo_template_env (before 4%nat) in
  subject approval = Some "t1" ∧
  RMove approval "t1" (views (store (before 4%nat)) !! "t1") (views (store (before 5%nat)) !! "t1") ∧
  v_state <$> views (store (before 5%nat)) !! "t1" = Some Approved.
Proof.
  intros before approval. split; [reflexivity|]. split; [|by vm_compute].
  destruct (templates_follow_the_lifecycle (SRV := demo_services) ((λ a, (a, demo_template_env)) <$> demo_steps) "t1")
    as [_ Hstep].
  exact (proj2 (Hstep 4%nat _ _ eq_refl)).
Defined.

Lemma registered_content_is_frozen_witness :
  v_content <$> views (store (perform_all (SRV := demo_services) [(AUpdateManage (demo_edit "t1" "Else" TemplateManager), demo_template_env)]
                                (demo_run demo_steps))) !! "t1" =
  v_content <$> views (store (demo_run demo_steps)) !! "t1".
Proof.
  destruct (views (store (demo_run demo_steps)) !! "t1") as [v|] eqn:E; [|exfalso; revert E; by vm_compute].
  destruct (registered_content_is_frozen (SRV := demo_services)
              [(AUpdateManage (demo_edit "t1" "Else" TemplateManager), demo_template_env)]
              (demo_run demo_steps) "t1" v E) as (v' & -> & _ & Hc & _).
  - revert E. vm_compute. by intros [= <-].
  - cbn. by rewrite Hc.
Defined.
