(* ===== verification/TemplateInvariants.v ===== *)
(** Invariants of the template repository: one active row per version of a
    lineage, and the provenance credentials of registered versions. *)
From S2P Require Import Prelude Json Transactions Sha256 Anchors TemplateStore Templates TemplateLaws.

(** ** One active row per version of a lineage *)
(** A row sits under its DID and belongs to a lineage. *)
Definition keyed (s : TStore) : Prop := ∀ did row, templates s !! did = Some row →
  ct_did (columns row) = did ∧ is_Some (ct_base_template (columns row)).

Definition clash (v w : View) : Prop :=
  is_active (v_state v) = true ∧ is_active (v_state w) = true ∧
  same_lineage (v_lineage v) (v_lineage w) = true ∧ v_version v = v_version w.

Definition one_active (s : TStore) : Prop :=
  ∀ d1 d2 v1 v2, views s !! d1 = Some v1 → views s !! d2 = Some v2 → clash v1 v2 → d1 = d2.

Definition active_ok (s : TStore) : Prop := keyed s ∧ one_active s.

Notation keeps_active := (evolves (λ s s', active_ok s → active_ok s')).

Lemma same_lineage_sym a b : same_lineage a b = same_lineage b a.
Proof. destruct a, b; try done. cbn. apply bool_decide_ext. naive_solver. Qed.

Lemma clash_sym v w : clash v w → clash w v.
Proof. intros (? & ? & Hl & ?). rewrite same_lineage_sym in Hl. by repeat split. Qed.

Lemma active_ok_templates s s' : templates s' = templates s → active_ok s → active_ok s'.
Proof. intros E [Hk Ho]. split; unfold keyed, one_active, views in *; by rewrite E. Qed.

(** A row changes to one that clashes with nobody else. *)
Lemma active_ok_put s s' did row v :
  ct_did (columns row) = did → is_Some (v_lineage v) → (∀ x, x ≠ did → templates s' !! x = templates s !! x) →
  templates s' !! did = Some row → view row = v →
  (∀ d w, d ≠ did → views s !! d = Some w → ¬ clash v w) → active_ok s → active_ok s'.
Proof.
  intros Hd Hlin Hne Hrow Hv Hc [Hk Ho]. split.
  - intros x r Hx. destruct (decide (x = did)) as [-> | Hx']; [simplify_eq; done|]. rewrite Hne in Hx by done. by apply Hk.
  - assert (Hviews : ∀ x, x ≠ did → views s' !! x = views s !! x) by (intros; rewrite !views_lookup; by rewrite Hne).
    assert (Hdid : views s' !! did = Some v) by (rewrite views_lookup, Hrow; cbn; by subst).
    intros d1 d2 v1 v2 H1 H2 Hcl. destruct (decide (d1 = did)) as [-> | N1], (decide (d2 = did)) as [-> | N2]; [done| | |].
    + rewrite Hdid in H1. rewrite Hviews in H2 by done. simplify_eq. by destruct (Hc _ _ N2 H2).
    + rewrite Hdid in H2. rewrite Hviews in H1 by done. simplify_eq. destruct (Hc _ _ N1 H1). by apply clash_sym.
    + rewrite Hviews in H1, H2 by done. by eapply Ho.
Qed.

Lemma not_active_no_clash v w : is_active (v_state v) = false → ¬ clash v w.
Proof. intros E (Ha & _). congruence. Qed.

Lemma put_update s did now (f : TemplateRow → TemplateRow) row :
  templates s !! did = Some row →
  let s' := set_templates (alter (λ r, before_update now r (f r)) did) s in
  (∀ x, x ≠ did → templates s' !! x = templates s !! x) ∧
  templates s' !! did = Some (before_update now row (f row)).
Proof.
  intros E s'. split; [intros x Hx; by apply lookup_alter_ne|]. cbn. by rewrite lookup_alter_eq, E.
Qed.

Lemma keeps_active_frame {A} (m : TTx A) : frames templates m → keeps_active m.
Proof. intros Hm e s a s' H. apply active_ok_templates. by apply (Hm _ _ _ _ H). Qed.

Lemma elem_of_template_rows s c : c ∈ template_rows s ↔ ∃ did row, templates s !! did = Some row ∧ c = columns row.
Proof.
  unfold template_rows. rewrite list_elem_of_fmap. split.
  - intros (row & -> & ([d r] & -> & Hin)%list_elem_of_fmap). apply elem_of_map_to_list in Hin. eauto.
  - intros (did & row & E & ->). exists row. split; [done|]. apply list_elem_of_fmap. exists (did, row).
    split; [done|]. by apply elem_of_map_to_list.
Qed.

Lemma keeps_active_UpdateState did st : keeps_active (TemplateRepo.UpdateState did st).
Proof.
  intros e s u s' (row & E & Hg & ->)%UpdateState_Ok Hok.
  destruct (put_update s did (te_now e) (TemplateRepo.with_state st) row E) as [Hne Hd].
  destruct (before_update_columns (te_now e) row (TemplateRepo.with_state st row)) as [Hv Hdid].
  eapply (active_ok_put s _ did _ (enters st (view row))); [| |exact Hne|exact Hd|by rewrite Hv| |exact Hok].
  - rewrite Hdid. exact (proj1 (proj1 Hok _ _ E)).
  - exact (proj2 (proj1 Hok _ _ E)).
  - intros d w Hd' Hw (Ha & Hb & Hl & Hver). cbn in Ha, Hl, Hver. rewrite Ha in Hg. cbn in Hg.
    unfold TemplateRepo.conflicting in Hg. rewrite existsb_false_iff in Hg.
    rewrite views_lookup in Hw. apply fmap_Some in Hw as (other & Eo & ->).
    assert (Hin : columns other ∈ template_rows s) by (apply elem_of_template_rows; eauto).
    specialize (Hg _ Hin). cbn in Hb, Hver, Hl. rewrite same_lineage_sym, Hl, Hb in Hg.
    rewrite (bool_decide_eq_true_2 _ (eq_sym Hver)) in Hg. cbn in Hg. bool_to_prop. apply Hd'.
    destruct Hok as [Hk _]. destruct (Hk _ _ E) as [<- _], (Hk _ _ Eo) as [<- _]. done.
Qed.

Lemma active_ok_insert row s : ct_state (columns row) = Draft → is_Some (ct_base_template (columns row)) →
  templates s !! ct_did (columns row) = None → active_ok s →
  active_ok (set_templates (insert (ct_did (columns row)) row) s).
Proof.
  intros Hst Hlin Hn Hok.
  apply (active_ok_put s _ (ct_did (columns row)) row (view row)); try done.
  - intros x Hx. by apply lookup_insert_ne.
  - apply lookup_insert_eq.
  - intros d w _ _. apply not_active_no_clash. cbn. by rewrite Hst.
Qed.

Lemma assign_did r l : ct_did (columns (foldl TemplateRepo.assign r l)) = ct_did (columns r).
Proof.
  revert r. induction l as [|a l IH]; intros r; [done|]. cbn [foldl]. rewrite IH. destruct a; try done.
  cbn. by case_match.
Qed.

Lemma keeps_active_rewrite did f :
  (∀ r, ct_did (columns (f r)) = ct_did (columns r) ∧ ∃ content, view (f r) = rewritten content (view r)) →
  keeps_active (TemplateRepo.update_row did f).
Proof.
  intros Hf e s u s' H Hok. unfold TemplateRepo.update_row in H. txn_inv.
  destruct (templates s !! did) as [row|] eqn:E.
  - destruct (put_update s did (te_now e) f row E) as [Hne Hd].
    destruct (before_update_columns (te_now e) row (f row)) as [Hv Hdid].
    destruct (Hf row) as [Hfd (content & Hfv)].
    eapply (active_ok_put s _ did _ (rewritten content (view row))); [| |exact Hne|exact Hd|by rewrite Hv| |exact Hok].
    + rewrite Hdid, Hfd. exact (proj1 (proj1 Hok _ _ E)).
    + exact (proj2 (proj1 Hok _ _ E)).
    + intros d w Hd' Hw Hcl. apply Hd'. destruct Hok as [_ Ho]. apply (Ho d did w (view row)); [exact Hw| |exact (clash_sym _ _ Hcl)].
      by rewrite views_lookup, E.
  - eapply active_ok_templates; [|exact Hok]. cbn. apply map_eq. intros x.
    destruct (decide (x = did)) as [-> | Hx]; [by rewrite lookup_alter_eq, E | by rewrite lookup_alter_ne].
Qed.

Lemma keeps_active_Update data : TemplateRepo.u_state data = EmptyString → keeps_active (TemplateRepo.Update data).
Proof.
  intros Hs e s u s' H Hok. pose proof H as (l & Hq & Hl & _)%Update_Ok; [|done]. unfold TemplateRepo.Update in H.
  txn_inv. rewrite Hq in *. simplify_eq. revert Hok. eapply keeps_active_rewrite; [|exact H].
  intros r. split; [apply assign_did | by apply assign_view].
Qed.

Section active.
Context `{SRV : TemplateServices}.

Lemma keeps_active_CopyFromDID did copyDID : keeps_active (TemplateRepo.CopyFromDID did copyDID).
Proof.
  intros e s v s' H Hok. apply CopyFromDID_Ok in H as (source & row & Hs & Hn & _ & _ & _ & _ & -> & <- & Hrow).
  pose proof (f_equal v_state Hrow) as Hst. pose proof (f_equal v_lineage Hrow) as Hlin. cbn in Hst, Hlin.
  apply active_ok_insert; [done|rewrite Hlin|done..].
  unfold TemplateRepo.new_base_template. case_match; [exact (proj2 (proj1 Hok _ _ Hs))|done].
Qed.

Lemma keeps_active_Create data : ct_state data = Draft → keeps_active (TemplateRepo.Create data).
Proof.
  intros Hd e s t s' H Hok. unfold TemplateRepo.Create, clock in H. txn_inv.
  match goal with H : TemplateRepo.insert_row _ _ _ = _ |- _ => apply template_insert_Ok in H as (Hn & _ & ->) end.
  by apply active_ok_insert.
Qed.

Lemma keeps_active_event evt : keeps_active (Create_event evt).
Proof. by apply keeps_active_frame, frames_Create_event. Qed.
Lemma keeps_active_task_state tbl did h st : keeps_active (TaskRepo.UpdateState tbl did h st).
Proof. apply keeps_active_frame, frames_task_UpdateState, templates_tasks. Qed.
Lemma keeps_active_reopen tbl did : keeps_active (TaskRepo.ReopenTasks tbl did).
Proof. apply keeps_active_frame, frames_task_Reopen, templates_tasks. Qed.
Lemma keeps_active_delete tbl did : keeps_active (TaskRepo.Delete tbl did).
Proof. apply keeps_active_frame, frames_task_Delete, templates_tasks. Qed.
Lemma keeps_active_history did : keeps_active (TemplateRepo.CreateHistoryEntryForDID did).
Proof. apply keeps_active_frame. intros e s u s' H. by apply history_templates in H. Qed.
Lemma keeps_active_next cmd st : keeps_active (Submitter.next_state cmd st).
Proof. apply keeps_active_frame, frames_next_state, templates_tasks. Qed.
Lemma keeps_active_issue cmd existing : keeps_active (Registrar.issueProvenanceCredential cmd existing).
Proof. apply keeps_active_frame, issue_templates. Qed.
Lemma keeps_active_may_update cmd st : keeps_active (Updater.may_update cmd st).
Proof. intros e s u s' [-> _]%may_update_Ok. done. Qed.
Lemma keeps_active_valid tbl did h : keeps_active (TaskRepo.IsValidHolder tbl did h).
Proof. apply keeps_active_frame, frames_IsValidHolder. Qed.

Hint Resolve keeps_active_UpdateState keeps_active_CopyFromDID keeps_active_event
  keeps_active_task_state keeps_active_reopen keeps_active_delete keeps_active_history keeps_active_next
  keeps_active_issue keeps_active_may_update keeps_active_valid : txn.

Lemma keeps_active_render did pdf : keeps_active (TemplateRepo.UpdatePDFState did pdf).
Proof.
  destruct pdf as [[[? ?] ?] ?]. apply keeps_active_rewrite. intros r. split; [done|].
  exists (v_content (view r)). by rewrite rewritten_same.
Qed.

Lemma keeps_active_perform {A} (m : TTx A) e s : keeps_active m → active_ok s → active_ok (commit m e s).2.
Proof. intros Hm. by apply (evolves_commit (λ s s', active_ok s → active_ok s') m e s Hm). Qed.

Lemma active_ok_seal cmd existing : keeps_active (Registrar.seal cmd existing).
Proof. unfold Registrar.seal. evolves_tac. Qed.
Lemma active_ok_import cmd did im : keeps_active (Registrar.import cmd did im).
Proof. unfold Registrar.import. evolves_tac. by apply keeps_active_Create. Qed.

Lemma active_ok_perform a e c : active_ok (store c) → active_ok (store (perform a e c)).
Proof.
  pose proof @keeps_active_perform as HP.
  destruct a; cbn [perform store].
  - apply HP. unfold Creator.Handle. evolves_tac. by apply keeps_active_Create.
  - apply HP. unfold Copier.Handle. evolves_tac. by apply keeps_active_Update.
  - apply HP. unfold Updater.Handle. evolves_tac. by apply keeps_active_Update.
  - apply HP. unfold UpdateManager.Handle. evolves_tac. by apply keeps_active_Update.
  - apply HP. unfold Submitter.Handle. evolves_tac.
  - apply HP. unfold Decider.Approver_Handle, Decider.decide_as. evolves_tac.
  - apply HP. unfold Decider.Rejecter_Handle, Decider.decide_as. evolves_tac.
  - apply HP. unfold Archiver.Handle. evolves_tac.
  - apply HP. apply keeps_active_frame, verify_templates.
  - apply HP, keeps_active_render.
  - apply HP. unfold Publisher.record_publication. evolves_tac.
  - apply HP, active_ok_import.
  - unfold Registrar.Handle. repeat case_match; try done; apply HP; [apply active_ok_seal | apply active_ok_import].
  - repeat case_match; done.
  - destruct (in_flight c !! request) as [[cmd existing]|]; [apply HP, active_ok_seal | done].
Qed.

Lemma active_ok_reachable c : reachable c → active_ok (store c).
Proof.
  intros [l ->]. enough (H : ∀ c, active_ok (store c) → active_ok (store (perform_all l c)))
    by (apply H; split; intros ?; intros; unfold views in *; set_solver).
  induction l as [|[a e] l IH]; intros c Hc; [done|]. cbn [perform_all]. by apply IH, active_ok_perform.
Qed.

(** in every reachable store, at most one row of a lineage is registered or
    published at a version. *)
Theorem one_active_row_per_version c : reachable c → one_active (store c).
Proof. by intros [_ H]%active_ok_reachable. Qed.
End active.

Lemma one_active_witness : one_active (store (demo_run demo_steps)).
Proof. apply (one_active_row_per_version (SRV := demo_services)). eexists. reflexivity. Defined.
