(* ===== verification/TemplateProvenance.v ===== *)
(** The provenance credentials of the template repository: what registration
    seals, under any interleaving and when nothing comes in between. *)
From S2P Require Import Prelude Json Transactions Sha256 Anchors TemplateStore Templates TemplateLaws.

(** ** What leaves the credentials alone *)
Notation keeps_credentials := (evolves (λ s s' : TStore, credentials s' = credentials s)).

Ltac credentials_tac :=
  evolves_tac; try (apply evolves_exec; intros; repeat case_match; try reflexivity; apply credentials_tasks).

Section frames.
Context `{SRV : TemplateServices}.

Lemma credentials_event evt : keeps_credentials (Create_event evt).
Proof. by apply frames_Create_event. Qed.
Lemma credentials_insert row : keeps_credentials (TemplateRepo.insert_row row).
Proof. unfold TemplateRepo.insert_row, frames. credentials_tac. Qed.
Lemma credentials_update did f : keeps_credentials (TemplateRepo.update_row did f).
Proof. by apply evolves_exec. Qed.
Lemma credentials_state did st : keeps_credentials (TemplateRepo.UpdateState did st).
Proof. pose proof credentials_update. unfold TemplateRepo.UpdateState, frames in *. credentials_tac. Qed.
Lemma credentials_Update data : keeps_credentials (TemplateRepo.Update data).
Proof. pose proof credentials_update. unfold TemplateRepo.Update, frames in *. credentials_tac. Qed.
Lemma credentials_copy did copyDID : keeps_credentials (TemplateRepo.CopyFromDID did copyDID).
Proof. pose proof credentials_insert. unfold TemplateRepo.CopyFromDID, clock, frames in *. credentials_tac. Qed.
Lemma credentials_create data : keeps_credentials (TemplateRepo.Create data).
Proof. pose proof credentials_insert. unfold TemplateRepo.Create, clock, frames in *. credentials_tac. Qed.
Lemma credentials_history did : keeps_credentials (TemplateRepo.CreateHistoryEntryForDID did).
Proof. unfold TemplateRepo.CreateHistoryEntryForDID, frames. credentials_tac. Qed.
Lemma credentials_task_state tbl did h st : keeps_credentials (TaskRepo.UpdateState tbl did h st).
Proof. apply frames_task_UpdateState, credentials_tasks. Qed.
Lemma credentials_reopen tbl did : keeps_credentials (TaskRepo.ReopenTasks tbl did).
Proof. apply frames_task_Reopen, credentials_tasks. Qed.
Lemma credentials_delete tbl did : keeps_credentials (TaskRepo.Delete tbl did).
Proof. apply frames_task_Delete, credentials_tasks. Qed.
Lemma credentials_next cmd st : keeps_credentials (Submitter.next_state cmd st).
Proof. apply frames_next_state, credentials_tasks. Qed.
Lemma credentials_valid tbl did h : keeps_credentials (TaskRepo.IsValidHolder tbl did h).
Proof. apply frames_IsValidHolder. Qed.
Lemma credentials_exists tbl did h st : keeps_credentials (TaskRepo.TaskExistsInState tbl did h st).
Proof. apply evolves_observes; [apply _|apply observes_query]. Qed.
Lemma credentials_may_update cmd st : keeps_credentials (Updater.may_update cmd st).
Proof. intros e s u s' [-> _]%may_update_Ok. done. Qed.

Hint Resolve credentials_event credentials_insert credentials_update credentials_state credentials_Update
  credentials_copy credentials_create credentials_history credentials_task_state credentials_reopen
  credentials_delete credentials_next credentials_valid credentials_exists credentials_may_update : txn.

(** Everything but a registration. *)
Definition seals (a : Action) : bool := match a with ARegister _ | ASeal _ => true | _ => false end.

Lemma credentials_commit {A} (m : TTx A) e s : keeps_credentials m → credentials (commit m e s).2 = credentials s.
Proof. apply (evolves_commit (λ s s', credentials s' = credentials s)). Qed.

Lemma credentials_import cmd did im : keeps_credentials (Registrar.import cmd did im).
Proof. unfold Registrar.import, frames. credentials_tac. Qed.

Lemma credentials_perform a e c : seals a = false → credentials (store (perform a e c)) = credentials (store c).
Proof.
  intros Hs. destruct a; try done; cbn [perform store]; try apply credentials_commit;
    try (unfold Creator.Handle, Copier.Handle, Updater.Handle, UpdateManager.Handle, Submitter.Handle,
           Decider.Approver_Handle, Decider.Rejecter_Handle, Decider.decide_as, Archiver.Handle, Verifier.Handle,
           Publisher.record_publication, frames; by credentials_tac).
  - destruct pdf as [[[? ?] ?] ?]. apply credentials_update.
  - apply credentials_import.
  - repeat case_match; done.
Qed.
End frames.

(** ** What registration issues *)
Section issue.
Context `{SRV : TemplateServices}.

(** The credential was signed over a document with this content. *)
Definition attests (cred : TemplateProvenanceCredential) (content : option json) (author : string) : Prop :=
  ∃ signer vc, CreateCredential = Some signer ∧ signer vc = Ok (pc_credential cred) ∧
    vc_CredentialSubject vc !! "template_did" = Some (JStr (pc_did cred)) ∧
    vc_CredentialSubject vc !! "version" = Some (jint (pc_version cred)) ∧
    vc_CredentialSubject vc !! "created_by" = Some (JStr author) ∧
    vc_CredentialSubject vc !! "template_hash" =
      Some (JStr (Provenance.TemplateContentHash match content with Some j => jsonb_text j | None => EmptyString end)) ∧
    vc_CredentialSubject vc !! "previous_credential" = JStr <$> pc_previous_vc_id cred.

Definition of_template (did : string) (cred : TemplateProvenanceCredential) : bool := bool_decide (pc_did cred = did).

Lemma subject_lookup claim :
  let m := Provenance.credential_subject claim in
  m !! "template_did" = Some (JStr (Provenance.TemplateDID claim)) ∧
  m !! "version" = Some (jint (Provenance.Version claim)) ∧
  m !! "created_by" = Some (JStr (Provenance.CreatedBy claim)) ∧
  m !! "template_hash" = Some (JStr (Provenance.TemplateHash claim)) ∧
  m !! "previous_credential" = if bool_decide (Provenance.PreviousCredentialID claim = EmptyString) then None
                               else Some (JStr (Provenance.PreviousCredentialID claim)).
Proof.
  unfold Provenance.credential_subject, Provenance.with_text, Provenance.with_list.
  repeat case_bool_decide; repeat case_match; split_and!; by simplify_map_eq.
Qed.

Lemma issue_Ok cmd existing e s u s' :
  Registrar.issueProvenanceCredential cmd existing e s = Ok (u, s') →
  (s' = s ∧ ∃ cred, cred ∈ credentials s ∧ pc_did cred = Registrar.DID cmd ∧ pc_version cred = ct_version existing) ∨
  (∃ cred, s' = set_credentials (λ l, l ++ [cred]) s ∧ pc_did cred = Registrar.DID cmd ∧
     pc_version cred = ct_version existing ∧
     (∀ c, c ∈ credentials s → pc_did c = Registrar.DID cmd → pc_version c ≠ ct_version existing) ∧
     pc_previous_vc_id cred = pc_vc_id <$> head (order_by (λ c, - pc_version c)
       (rows_where (of_template (Registrar.DID cmd)) (credentials s))) ∧
     (pc_previous_vc_id cred = None → attests cred (ct_template_data existing) (ct_created_by existing))).
Proof.
  unfold Registrar.issueProvenanceCredential. intros H. destruct CreateCredential as [signer|] eqn:Es; [|txn_inv].
  unfold TemplateRepo.ReadProvenanceCredentials, TaskRepo.ReadAllByDID, TemplateRepo.ReadLatestProvenanceVCID,
    TemplateRepo.InsertProvenanceCredential, clock in H. txn_inv.
  case_match eqn:Ei; txn_inv.
  - left. split; [done|]. apply existsb_true_iff in Ei as (cred & Hin & Hv). bool_to_prop.
    apply elem_of_order_by, elem_of_rows_where in Hin as [Hin Hd]. bool_to_prop. eauto.
  - right. match goal with H : Provenance.IssueTemplateProvenanceVC _ _ = Ok ?x |- _ => rename H into Hvc; destruct x as [signed vcID] end.
    eexists. split_and!; try reflexivity.
    + intros c Hc Hd Hv. rewrite existsb_false_iff in Ei. specialize (Ei c).
      rewrite bool_decide_eq_false in Ei. apply Ei; [|done]. apply elem_of_order_by, elem_of_rows_where.
      split; [done|]. by apply bool_decide_eq_true.
    + cbn [pc_previous_vc_id]. intros Hprev. unfold Provenance.IssueTemplateProvenanceVC in Hvc. cbn in Hvc.
      destruct (signer _) as [sg|] eqn:Esg; cbn in Hvc; [|done]. simplify_eq.
      eexists signer, _. split_and!; [done|exact Esg|..]; cbn [vc_CredentialSubject];
        match goal with |- Provenance.credential_subject ?cl !! _ = _ =>
          destruct (subject_lookup cl) as (E1 & E2 & E3 & E4 & E5) end; try done.
      rewrite E5. cbn [Provenance.PreviousCredentialID pc_previous_vc_id] in *. by rewrite Hprev.
Qed.

(** ** Invariants *)
Definition credential_ok (s : TStore) (cred : TemplateProvenanceCredential) : Prop :=
  pc_previous_vc_id cred = None ∧
  ∃ v, views s !! pc_did cred = Some v ∧ settled (v_state v) = true ∧ v_version v = pc_version cred.

Definition credentials_ok (s : TStore) : Prop :=
  NoDup (pc_did <$> credentials s) ∧ ∀ cred, cred ∈ credentials s → credential_ok s cred.

(** The snapshots in flight carry the version of their template. *)
Definition pending_ok (c : Config) : Prop :=
  ∀ cmd existing, (cmd, existing) ∈ in_flight c →
    ∃ v, views (store c) !! Registrar.DID cmd = Some v ∧ v_version v = ct_version existing.

Lemma version_move v o : TMove (Some v) o → ∃ v', o = Some v' ∧ v_version v' = v_version v.
Proof. inversion 1; subst; eauto. Qed.

Lemma pending_moves c c' : moves (store c) (store c') → in_flight c' = in_flight c → pending_ok c → pending_ok c'.
Proof.
  intros Hm E Hp cmd ex Hin. rewrite E in Hin. destruct (Hp _ _ Hin) as (v & Hv & Hver).
  specialize (Hm (Registrar.DID cmd)). rewrite Hv in Hm. apply version_move in Hm as (v' & E' & Hv').
  exists v'. split; [done|congruence].
Qed.

Lemma credential_moves s s' cred : moves s s' → credential_ok s cred → credential_ok s' cred.
Proof.
  intros Hm (Hp & v & Hv & Hs & Hver). split; [done|]. specialize (Hm (pc_did cred)). rewrite Hv in Hm.
  apply settled_move in Hm as (v' & E & ? & _ & ? & _); [|done]. exists v'. split_and!; [done..|congruence].
Qed.

Lemma credentials_moves s s' : moves s s' → credentials s' = credentials s → credentials_ok s → credentials_ok s'.
Proof.
  intros Hm E [Hn Hc]. split; [by rewrite E|]. rewrite E. intros cred Hin. by eapply credential_moves, Hc.
Qed.

(** What a seal adds, given the version of the template. *)
Lemma seal_Ok cmd existing e s a s' :
  Registrar.seal cmd existing e s = Ok (a, s') →
  (∃ v, views s' !! Registrar.DID cmd = Some v ∧ v_state v = Registered) ∧
  (credentials s' = credentials s ∧
     (∃ cred, cred ∈ credentials s ∧ pc_did cred = Registrar.DID cmd ∧ pc_version cred = ct_version existing) ∨
   ∃ cred, credentials s' = credentials s ++ [cred] ∧ pc_did cred = Registrar.DID cmd ∧
     pc_version cred = ct_version existing ∧
     (∀ c, c ∈ credentials s → pc_did c = Registrar.DID cmd → pc_version c ≠ ct_version existing) ∧
     pc_previous_vc_id cred = pc_vc_id <$> head (order_by (λ c, - pc_version c)
       (rows_where (of_template (Registrar.DID cmd)) (credentials s))) ∧
     (pc_previous_vc_id cred = None → attests cred (ct_template_data existing) (ct_created_by existing))).
Proof.
  intros H. unfold Registrar.seal in H. txn_inv.
  match goal with H : Create_event _ _ _ = _ |- _ =>
    pose proof (frames_Ok templates _ _ _ _ _ (frames_Create_event templates _ ltac:(done)) H) as Et;
    pose proof (frames_Ok credentials _ _ _ _ _ (credentials_event _) H) as Ec end.
  match goal with H : TemplateRepo.UpdateState _ _ _ _ = _ |- _ => apply UpdateState_Ok in H as (row & Er & _ & ->) end.
  match goal with H : Registrar.issueProvenanceCredential _ _ _ _ = _ |- _ =>
    pose proof (frames_Ok templates _ _ _ _ _ (issue_templates _ _) H) as Et2;
    apply issue_Ok in H; rename H into Hissue end.
  split.
  - exists (enters Registered (view row)). split; [|done].
    rewrite (views_of_templates _ _ Et), (views_of_templates _ _ Et2), (views_update _ _ _ row) by done.
    by rewrite lookup_insert_eq.
  - rewrite Ec. destruct Hissue as [[-> Hcred] | (cred & -> & Hcred)]; [by left|]. right. by exists cred.
Qed.

(** The latest credential of a template that has none. *)
Lemma no_predecessor did l : (∀ c, c ∈ l → pc_did c ≠ did) →
  pc_vc_id <$> head (order_by (λ c, - pc_version c) (rows_where (of_template did) l)) = None.
Proof.
  intros H. rewrite rows_where_nil; [done|]. intros c Hc. unfold of_template. apply bool_decide_eq_false. by apply H.
Qed.

Lemma seal_preserves cmd existing e s a s' v :
  views s !! Registrar.DID cmd = Some v → v_version v = ct_version existing → credentials_ok s →
  Registrar.seal cmd existing e s = Ok (a, s') →
  credentials_ok s' ∧
  ∀ cred, cred ∈ credentials s' → cred ∈ credentials s ∨
    pc_did cred = Registrar.DID cmd ∧ attests cred (ct_template_data existing) (ct_created_by existing).
Proof.
  intros Hv Hver Hok H. pose proof (seal_moves (registers (Registrar.DID cmd)) _ _ _ _ _ _ eq_refl (λ _, eq_refl) H) as Hm.
  apply (within_moves (registers _)) in Hm; [|by split; [intros x y ->%bool_decide_eq_true; destruct x|]]. pose proof Hok as [Hnd Hc].
  apply seal_Ok in H as ((v' & Ev' & Hst) & [[E _] | (cred & E & Hd & Hcv & Hfresh & Hprev & Hatt)]).
  { split; [by eapply credentials_moves|]. intros cred. rewrite E. auto. }
  assert (Hnone : ∀ c, c ∈ credentials s → pc_did c ≠ Registrar.DID cmd).
  { intros c Hin Hcd. apply (Hfresh c Hin Hcd). destruct (Hc c Hin) as (_ & w & Hw & _ & <-).
    rewrite Hcd in Hw. congruence. }
  rewrite no_predecessor in Hprev by done. split.
  - split.
    + rewrite E, fmap_app, NoDup_app. split; [done|]. split; [|apply NoDup_singleton].
      intros x (c & -> & Hin)%list_elem_of_fmap [Hx | []%elem_of_nil]%elem_of_cons. apply (Hnone c Hin). congruence.
    + intros c Hin. rewrite E in Hin. apply elem_of_app in Hin as [Hin | ->%list_elem_of_singleton].
      * by eapply credential_moves, Hc.
      * split; [done|]. exists v'. rewrite Hd. split_and!; [done|by rewrite Hst|].
        specialize (Hm (Registrar.DID cmd)). rewrite Hv, Ev' in Hm. apply version_move in Hm as (w & [= <-] & Hw). congruence.
  - intros c Hin. rewrite E in Hin. apply elem_of_app in Hin as [Hin | ->%list_elem_of_singleton]; [by left|].
    right. split; [done|]. by apply Hatt.
Qed.

Lemma find_existing_Ok cmd e s existing s' :
  Registrar.find_existing cmd e s = Ok (Some existing, s') →
  s' = s ∧ ∃ row, templates s !! Registrar.DID cmd = Some row ∧ existing = columns row.
Proof.
  unfold Registrar.find_existing, TemplateRepo.ReadDataByID. destruct (templates s !! _) as [row|] eqn:E.
  - intros [= <- <-]. eauto.
  - cbn. done.
Qed.

Definition provenance_ok (c : Config) : Prop := credentials_ok (store c) ∧ pending_ok c.

Lemma commit_seal cmd existing e s v :
  views s !! Registrar.DID cmd = Some v → v_version v = ct_version existing → credentials_ok s →
  credentials_ok (commit (Registrar.seal cmd existing) e s).2.
Proof.
  intros Hv Hver Hok. destruct (commit_cases (Registrar.seal cmd existing) e s) as [(a & s' & H & ->) | [err ->]]; [|done].
  by eapply seal_preserves.
Qed.

Lemma provenance_perform a e c : provenance_ok c → provenance_ok (perform a e c).
Proof.
  intros [Hc Hp]. pose proof (perform_moves a e c) as Hm. split.
  - destruct (seals a) eqn:Es; [|eapply credentials_moves; [exact Hm| |exact Hc]; by apply credentials_perform].
    destruct a; try done; cbn [perform store].
    + unfold Registrar.Handle. case_bool_decide; [done|].
      destruct (Registrar.find_existing cmd e (store c)) as [[[existing|] s']|] eqn:Ef; [| |done].
      * apply find_existing_Ok in Ef as (-> & row & Er & ->). apply (commit_seal _ _ _ _ (view row)); [|done..].
        cbn [id]. by rewrite views_lookup, Er.
      * repeat case_match; try done. eapply credentials_moves; [| |exact Hc].
        -- eapply within_moves; [|apply commit_moves; intros ? ? Hrun; by eapply (import_moves (creates _))]; done.
        -- apply credentials_commit, credentials_import.
    + destruct (in_flight c !! request) as [[cmd existing]|] eqn:Ei; [|done].
      destruct (Hp cmd existing) as (v & Hv & Hver); [by eapply list_elem_of_lookup_2|]. by eapply commit_seal.
  - assert (Hother : in_flight (perform a e c) = in_flight c → pending_ok (perform a e c))
      by (intros E; by eapply pending_moves).
    destruct a; try (by apply Hother).
    + cbn [perform] in *. destruct (Registrar.find_existing cmd e (store c)) as [[[existing|] s']|] eqn:Ef; [|done..].
      apply find_existing_Ok in Ef as (-> & row & Er & ->). intros cmd' ex [Hin | Hin%list_elem_of_singleton]%elem_of_app.
      * by apply Hp.
      * simplify_eq. exists (view row). cbn [store]. by rewrite views_lookup, Er.
    + apply Hother. cbn [perform]. by destruct (in_flight c !! request) as [[? ?]|].
Qed.

Lemma provenance_reachable c : reachable c → provenance_ok c.
Proof.
  intros [l ->]. enough (H : ∀ c, provenance_ok c → provenance_ok (perform_all l c)).
  { apply H. split; [split; [constructor|]|]; intros ?; intros; cbn in *; set_solver. }
  induction l as [|[a e] l IH]; intros c Hc; [done|]. cbn [perform_all]. by apply IH, provenance_perform.
Qed.

(** However requests interleave, a template version has at most one
    provenance credential, the template it was issued for is registered, published
    or deprecated at exactly the credential's version, and - because every version
    is a template of its own - no credential ever names a predecessor. *)
Theorem one_credential_and_no_predecessor c cred :
  reachable c → cred ∈ credentials (store c) →
  (∀ cred', cred' ∈ credentials (store c) → of_template (pc_did cred) cred' = true → cred' = cred) ∧
  pc_previous_vc_id cred = None ∧
  ∃ row, templates (store c) !! pc_did cred = Some row ∧ settled (ct_state (columns row)) = true ∧
    ct_version (columns row) = pc_version cred.
Proof.
  intros [[Hnd Hc] _]%provenance_reachable Hin. split.
  - intros cred' Hin' E%bool_decide_eq_true. apply list_elem_of_lookup in Hin as [i Hi], Hin' as [j Hj].
    assert (i = j) as -> by (eapply (NoDup_lookup (pc_did <$> credentials (store c)) _ _ (pc_did cred)); [done|..];
      rewrite list_lookup_fmap; [by rewrite Hi | by rewrite Hj, <-E]).
    congruence.
  - destruct (Hc cred Hin) as (Hp & v & Hv & Hs & Hver). split; [done|].
    rewrite views_lookup in Hv. apply fmap_Some in Hv as (row & Er & ->). by exists row.
Qed.
End issue.

(** ** Registrations that nothing comes in between *)
Definition undisturbed (a : Action) : bool := match a with ASeal _ => false | _ => true end.

Section content.
Context `{SRV : TemplateServices}.

Definition attested (s : TStore) (cred : TemplateProvenanceCredential) : Prop :=
  ∃ v, views s !! pc_did cred = Some v ∧ settled (v_state v) = true ∧ attests cred (v_content v) (v_author v).

Lemma attested_moves s s' cred : moves s s' → attested s cred → attested s' cred.
Proof.
  intros Hm (v & Hv & Hs & Ha). specialize (Hm (pc_did cred)). rewrite Hv in Hm.
  apply settled_move in Hm as (v' & E & Hs' & Hc & _ & _ & Hau); [|done]. exists v'. rewrite Hc, Hau. done.
Qed.

Lemma attested_perform a e c :
  provenance_ok c → undisturbed a = true → (∀ cred, cred ∈ credentials (store c) → attested (store c) cred) →
  ∀ cred, cred ∈ credentials (store (perform a e c)) → attested (store (perform a e c)) cred.
Proof.
  intros [Hc Hp] Hu Hatt cred. pose proof (perform_moves a e c) as Hm.
  destruct (seals a) eqn:Es.
  2:{ rewrite credentials_perform by done. intros Hin. by eapply attested_moves, Hatt. }
  destruct a; try done. cbn [perform store] in *. revert Hm. unfold Registrar.Handle. case_bool_decide; [auto|].
  destruct (Registrar.find_existing cmd e (store c)) as [[[existing|] s']|] eqn:Ef; [| |auto].
  - apply find_existing_Ok in Ef as (-> & row & Er & ->). cbn [id].
    destruct (commit_cases (Registrar.seal cmd (columns row)) e (store c)) as [(a & s' & Hs & ->) | [err ->]]; [|auto].
    cbn [snd]. intros Hm Hin. assert (Hv : views (store c) !! Registrar.DID cmd = Some (view row)) by (by rewrite views_lookup, Er).
    pose proof (seal_preserves _ _ _ _ _ _ _ Hv eq_refl Hc Hs) as [_ Hnew].
    destruct (Hnew cred Hin) as [Hold | [Hd Ha]]; [by eapply attested_moves, Hatt|].
    apply seal_Ok in Hs as ((v' & Ev' & Hst) & _). pose proof (Hm (Registrar.DID cmd)) as Hmove. rewrite Hv, Ev' in Hmove.
    exists v'. rewrite Hd, Hst. split_and!; [done..|].
    inversion Hmove as [|?|? st He|? content He]; subst; try done. cbn in *.
    rewrite Hst in He. done.
  - repeat case_match; auto. intros Hm Hin.
    assert (Hcr : ∀ did i s, credentials (commit (Registrar.import cmd did i) e s).2 = credentials s)
      by (intros; apply credentials_commit, credentials_import).
    unfold id in *. rewrite Hcr in Hin. by eapply attested_moves, Hatt.
Qed.

(** When no request comes between the two transactions of a registration,
    every provenance credential was signed over the template's present content,
    version and author. *)
Theorem credentials_attest_the_content l cred :
  forallb (λ ae, undisturbed ae.1) l = true → cred ∈ credentials (store (perform_all l start)) →
  ∃ row, templates (store (perform_all l start)) !! pc_did cred = Some row ∧
    attests cred (ct_template_data (columns row)) (ct_created_by (columns row)).
Proof.
  intros Hl Hin. enough (H : attested (store (perform_all l start)) cred).
  { destruct H as (v & Hv & _ & Ha). rewrite views_lookup in Hv. apply fmap_Some in Hv as (row & Er & ->). by exists row. }
  revert cred Hin. assert (H0 : ∀ cred, cred ∈ credentials (store start) → attested (store start) cred)
    by (intros ? []%elem_of_nil).
  assert (Hp : provenance_ok start) by (apply provenance_reachable; by exists []).
  revert Hl H0 Hp. generalize start. induction l as [|[a e] l IH]; intros c Hl H0 Hp; [done|].
  cbn [forallb fst] in Hl. apply andb_true_iff in Hl as [Ha Hl]. cbn [perform_all]. apply IH; [done| |].
  - by apply attested_perform.
  - by apply provenance_perform.
Qed.
End content.

(** ** Concrete runs *)
Lemma one_credential_witness :
  ∃ cred, credentials (store (demo_run demo_steps)) !! 0%nat = Some cred ∧ pc_previous_vc_id cred = None.
Proof.
  destruct (credentials (store (demo_run demo_steps)) !! 0%nat) as [cred|] eqn:E; [|exfalso; revert E; by vm_compute].
  exists cred. split; [done|].
  apply (one_credential_and_no_predecessor (SRV := demo_services) (demo_run demo_steps) cred).
  - eexists. reflexivity.
  - by eapply list_elem_of_lookup_2.
Defined.

Lemma credentials_attest_witness :
  ∃ cred row, credentials (store (demo_run demo_steps)) !! 1%nat = Some cred ∧
    templates (store (demo_run demo_steps)) !! "t2" = Some row ∧
    attests (SRV := demo_services) cred (ct_template_data (columns row)) (ct_created_by (columns row)).
Proof.
  destruct (credentials (store (demo_run demo_steps)) !! 1%nat) as [cred|] eqn:E; [|exfalso; revert E; by vm_compute].
  assert (Hd : pc_did cred = "t2") by (revert E; vm_compute; by intros [= <-]).
  destruct (credentials_attest_the_content (SRV := demo_services) ((λ a, (a, demo_template_env)) <$> demo_steps) cred)
    as (row & Hrow & Ha).
  - by vm_compute.
  - by eapply list_elem_of_lookup_2.
  - exists cred, row. rewrite Hd in Hrow. split; [reflexivity|]. split; [exact Hrow | exact Ha].
Defined.

(** An edit between the two transactions of a registration is sealed under the
    hash of the document it replaced. *)
Definition racing_steps : list Action :=
  [ACreate (demo_create "t1" "Hosting"); ABegin (demo_register "t1");
   AUpdate (demo_edit "t1" "Hosting, amended" TemplateCreator); ASeal 0].

Example a_racing_edit_breaks_the_seal :
  ((λ row, @jsonb_text demo_services (default JNull (ct_template_data (columns row))))
     <$> templates (store (demo_run racing_steps)) !! "t1",
   (λ c, match pc_credential c with JObj m => m !! "template_hash" | _ => None end)
     <$> credentials (store (demo_run racing_steps)) !! 0%nat) =
  (Some "Hosting, amended", Some (Some (JStr (Provenance.TemplateContentHash "Hosting")))).
Proof. by vm_compute. Qed.

(** A draft is registered without review or approval. *)
Example a_draft_registers :
  v_state <$> views (store (demo_run [ACreate (demo_create "t1" "Hosting"); ARegister (demo_register "t1")])) !! "t1" =
  Some Registered.
Proof. by vm_compute. Qed.
