(* ===== verification/TemplateReview.v ===== *)
(** The review and approval gate of the template repository.

    The [desk] of a template is its state with its review and approval tasks; a
    statement works on one desk ([upd]) and leaves the others alone, so a
    request's effect is the composition of what its statements do. *)
From S2P Require Import Prelude Json Transactions Sha256 Anchors Validation TemplateStore Templates TemplateLaws.

Record Desk := {
  k_state : option ContractTemplateState;
  k_reviews : list TemplateTask;
  k_approvals : list TemplateTask
}.

Definition desk (s : TStore) (did : string) : Desk :=
  {| k_state := v_state <$> views s !! did;
     k_reviews := rows_where (TaskRepo.of_did did) (review_tasks s);
     k_approvals := rows_where (TaskRepo.of_did did) (approval_tasks s) |}.

Definition upd (did : string) (f : Desk → Desk) (x : string) (d : Desk) : Desk :=
  if decide (x = did) then f d else d.

(** [s'] differs from [s] by [f] on one desk. *)
Definition worked (did : string) (f : Desk → Desk) (s s' : TStore) : Prop :=
  ∀ x, desk s' x = upd did f x (desk s x).

Definition in_state (st : ContractTemplateState) (d : Desk) : Desk :=
  {| k_state := Some st; k_reviews := k_reviews d; k_approvals := k_approvals d |}.
Definition on_tasks (tbl : TaskRepo.Table) (g : list TemplateTask → list TemplateTask) (d : Desk) : Desk :=
  match tbl with
  | TaskRepo.ReviewTasks => {| k_state := k_state d; k_reviews := g (k_reviews d); k_approvals := k_approvals d |}
  | TaskRepo.ApprovalTasks => {| k_state := k_state d; k_reviews := k_reviews d; k_approvals := g (k_approvals d) |}
  end.
Definition desk_tasks (tbl : TaskRepo.Table) (d : Desk) : list TemplateTask :=
  match tbl with TaskRepo.ReviewTasks => k_reviews d | TaskRepo.ApprovalTasks => k_approvals d end.

(** ** Statements *)
Lemma desk_tasks_of tbl s did : desk_tasks tbl (desk s did) = rows_where (TaskRepo.of_did did) (TaskRepo.tasks tbl s).
Proof. by destruct tbl. Qed.

Lemma desk_same s s' : templates s' = templates s → review_tasks s' = review_tasks s →
  approval_tasks s' = approval_tasks s → ∀ x, desk s' x = desk s x.
Proof. intros E1 E2 E3 x. unfold desk, views. by rewrite E1, E2, E3. Qed.

Lemma worked_tasks tbl did s (g h : list TemplateTask → list TemplateTask) :
  (∀ l, rows_where (TaskRepo.of_did did) (g l) = h (rows_where (TaskRepo.of_did did) l)) →
  (∀ x l, x ≠ did → rows_where (TaskRepo.of_did x) (g l) = rows_where (TaskRepo.of_did x) l) →
  worked did (on_tasks tbl h) s (TaskRepo.set_tasks tbl g s).
Proof.
  intros Hg Hne x. unfold upd. destruct (decide (x = did)) as [-> | Hx].
  - destruct tbl; unfold desk;
      cbn [TaskRepo.set_tasks on_tasks set_review_tasks set_approval_tasks review_tasks approval_tasks k_state k_reviews k_approvals];
      by rewrite Hg.
  - destruct tbl; unfold desk; cbn [TaskRepo.set_tasks set_review_tasks set_approval_tasks review_tasks approval_tasks];
      by rewrite Hne.
Qed.

Lemma of_did_same did t : TaskRepo.of_did did t = true → ∀ st, TaskRepo.of_did did (TaskRepo.with_task_state st t) = true.
Proof. done. Qed.

Lemma rows_where_update_in {A} (p q : A → bool) (f : A → A) (l : list A) :
  (∀ x, q (f x) = q x) → rows_where q (update_where p f l) = update_where p f (rows_where q l).
Proof.
  intros Hq. induction l as [|x l IH]; [done|]. unfold update_where, rows_where in *. cbn [map].
  rewrite !filter_cons. destruct (p x) eqn:E; rewrite ?Hq; destruct (decide (q x = true)); cbn; rewrite ?E, ?IH; done.
Qed.

Lemma other_did p did x st l :
  (∀ t, p t = true → TaskRepo.of_did did t = true) → x ≠ did →
  rows_where (TaskRepo.of_did x) (update_where p (TaskRepo.with_task_state st) l) = rows_where (TaskRepo.of_did x) l.
Proof.
  intros Hp Hx. apply rows_where_update. intros t Ht. apply Hp in Ht. unfold TaskRepo.of_did in *. bool_to_prop.
  cbn. rewrite bool_decide_eq_false_2 by congruence. done.
Qed.

Lemma worked_reopen tbl did e s u s' : TaskRepo.ReopenTasks tbl did e s = Ok (u, s') →
  worked did (on_tasks tbl (update_where (TaskRepo.of_did did) (TaskRepo.with_task_state TaskOpen))) s s'.
Proof.
  intros ->%exec_Ok. apply worked_tasks.
  - intros l. by apply rows_where_update_in.
  - intros x l Hx. by apply (other_did _ did).
Qed.

Lemma worked_task_state tbl did holder st e s u s' : TaskRepo.UpdateState tbl did holder st e s = Ok (u, s') →
  worked did (on_tasks tbl (update_where (TaskRepo.of_holder did holder) (TaskRepo.with_task_state st))) s s' ∧
  exists_where (TaskRepo.of_holder did holder) (TaskRepo.tasks tbl s) = true.
Proof.
  intros H. unfold TaskRepo.UpdateState in H. txn_inv. bool_to_prop. split; [|done]. apply worked_tasks.
  - intros l. by apply rows_where_update_in.
  - intros x l Hx. apply (other_did _ did); [|done]. intros t Ht. unfold TaskRepo.of_holder in Ht. by bool_to_prop.
Qed.

Lemma worked_task_Create tbl did st holder by_whom e s t s' :
  TaskRepo.Create tbl did st holder by_whom e s = Ok (t, s') →
  worked did (on_tasks tbl (λ l, l ++ [{| tt_did := did; tt_state := st; tt_holder := holder;
                                          tt_created_by := by_whom; tt_created_at := te_now e |}])) s s'.
Proof.
  intros H. unfold TaskRepo.Create, clock in H. txn_inv. apply worked_tasks.
  - intros l. unfold rows_where. rewrite filter_app, filter_cons_True; [done|]. by apply bool_decide_eq_true_2.
  - intros x l Hx. unfold rows_where. rewrite filter_app, filter_cons_False; [by rewrite app_nil_r|].
    cbn. unfold TaskRepo.of_did. cbn. by rewrite bool_decide_eq_false_2 by done.
Qed.

Lemma rows_where_twice {A} (p q : A → bool) l : (∀ x, q x = true → p x = true) → rows_where q (rows_where p l) = rows_where q l.
Proof.
  intros H. unfold rows_where. rewrite list_filter_filter. apply list_filter_iff. intros x. naive_solver.
Qed.

Lemma worked_delete tbl did e s u s' : TaskRepo.Delete tbl did e s = Ok (u, s') →
  worked did (on_tasks tbl (λ _, [])) s s'.
Proof.
  intros ->%exec_Ok. apply worked_tasks.
  - intros l. apply rows_where_nil. intros t [_ Ht]%elem_of_rows_where. by apply negb_true_iff in Ht.
  - intros x l Hx. apply rows_where_twice. intros t Ht. unfold TaskRepo.of_did in *. bool_to_prop.
    by rewrite bool_decide_eq_false_2 by congruence.
Qed.

Lemma worked_id did s s' : (∀ x, desk s' x = desk s x) → worked did id s s'.
Proof. intros H x. rewrite H. unfold upd. by case_decide. Qed.

Lemma worked_then did f g s s1 s2 : worked did f s s1 → worked did g s1 s2 → worked did (λ d, g (f d)) s s2.
Proof. intros H1 H2 x. rewrite H2, H1. unfold upd. by case_decide. Qed.

Lemma desk_views s s' did (F : Desk → Desk) v :
  views s' = <[did := v]> (views s) → review_tasks s' = review_tasks s → approval_tasks s' = approval_tasks s →
  worked did (in_state (v_state v)) s s'.
Proof.
  intros E1 E2 E3 x. unfold upd, desk, in_state. rewrite E1, E2, E3. case_decide as Hx; [subst|].
  - by rewrite lookup_insert_eq.
  - by rewrite lookup_insert_ne.
Qed.

Lemma worked_state did st e s u s' : TemplateRepo.UpdateState did st e s = Ok (u, s') → worked did (in_state st) s s'.
Proof.
  intros (row & E & _ & ->)%UpdateState_Ok.
  apply (desk_views _ _ did id (enters st (view row))); [|done..]. by rewrite (views_update _ _ _ row).
Qed.

Lemma worked_insert row e s u s' : TemplateRepo.insert_row row e s = Ok (u, s') →
  worked (ct_did (columns row)) (in_state (ct_state (columns row))) s s' ∧
  k_state (desk s (ct_did (columns row))) = None.
Proof.
  intros (Hn & _ & ->)%template_insert_Ok. split.
  - apply (desk_views _ _ _ id (view row)); [|done..]. apply views_insert.
  - unfold desk. cbn. by rewrite views_lookup, Hn.
Qed.

(** A rewritten content does not show on the desks. *)
Lemma desk_Update data e s u s' : TemplateRepo.u_state data = EmptyString → TemplateRepo.Update data e s = Ok (u, s') →
  ∀ x, desk s' x = desk s x.
Proof.
  intros Hs (l & _ & Hl & ->)%Update_Ok x; [|done]. set (did := TemplateRepo.u_did data).
  destruct (templates s !! did) as [row|] eqn:E.
  - unfold desk. rewrite (views_update _ _ _ row) by done. f_equal. destruct (assign_view row l Hl) as [content ->].
    destruct (decide (x = did)) as [-> | Hx]; [rewrite lookup_insert_eq, views_lookup, E | rewrite lookup_insert_ne]; done.
  - unfold desk. by rewrite views_update_none.
Qed.

Lemma desk_frame {A} (m : TTx A) e s a s' :
  m e s = Ok (a, s') → frames templates m → frames review_tasks m → frames approval_tasks m → ∀ x, desk s' x = desk s x.
Proof. intros H F1 F2 F3. apply desk_same; by eapply frames_Ok. Qed.

Lemma desk_event evt e s u s' : Create_event evt e s = Ok (u, s') → ∀ x, desk s' x = desk s x.
Proof. intros H. eapply desk_frame; [exact H|..]; by apply frames_Create_event. Qed.

(** ** The invariant *)

(** No task yet; or no task any more; or one review and one approval task of the
    same person, decided as far as the state says. *)
Definition one_desk (st : ContractTemplateState) (d : Desk) : Prop :=
  ∃ t u, k_reviews d = [t] ∧ k_approvals d = [u] ∧ tt_holder t = tt_holder u ∧
    (st = Reviewed ∨ st = Approved → tt_state t = TaskApproved) ∧ (st = Approved → tt_state u = TaskApproved).

Definition bare_desk (d : Desk) : Prop := k_reviews d = [] ∧ k_approvals d = [].

Definition desk_ok (d : Desk) : Prop :=
  match k_state d with
  | None | Some Draft => bare_desk d
  | Some (Submitted | Rejected | Reviewed | Approved) as o => one_desk (default Draft o) d
  | Some st => bare_desk d ∨ one_desk st d
  end.

Definition desks_ok (s : TStore) : Prop := ∀ x, desk_ok (desk s x).

Lemma desks_work did f s s' : worked did f s s' → desks_ok s → desk_ok (f (desk s did)) → desks_ok s'.
Proof. intros Hw Hs Hd x. rewrite Hw. unfold upd. by case_decide; [subst|]. Qed.

Lemma desks_same s s' : (∀ x, desk s' x = desk s x) → desks_ok s → desks_ok s'.
Proof. intros E Hs x. by rewrite E. Qed.

(** Members of a desk's task lists belong to it. *)
Lemma desk_member tbl s did t : t ∈ desk_tasks tbl (desk s did) → TaskRepo.of_did did t = true.
Proof. rewrite desk_tasks_of. by intros [_ H]%elem_of_rows_where. Qed.

(** A holder of some task of a template holds one on its desk. *)
Lemma held_on_desk tbl s did holder :
  exists_where (TaskRepo.of_holder did holder) (TaskRepo.tasks tbl s) = true ↔
  ∃ t, t ∈ desk_tasks tbl (desk s did) ∧ tt_holder t = holder.
Proof.
  rewrite desk_tasks_of. unfold TaskRepo.of_holder. split.
  - intros (t & Hin & Ht)%exists_where_true. bool_to_prop. exists t. rewrite elem_of_rows_where. done.
  - intros (t & [Hin Ht]%elem_of_rows_where & <-). apply exists_where_true. exists t. split; [done|].
    by rewrite Ht, bool_decide_eq_true_2.
Qed.

(** ** Desk arithmetic *)
Lemma update_one p st t :
  ∃ t', update_where p (TaskRepo.with_task_state st) [t] = [t'] ∧ tt_holder t' = tt_holder t ∧
        (p t = true → tt_state t' = st) ∧ (p t = false → t' = t).
Proof. unfold update_where. cbn. destruct (p t) eqn:E; eexists; split_and!; try reflexivity; done. Qed.

Definition reopened (did : string) (d : Desk) : Desk :=
  let reopen := update_where (TaskRepo.of_did did) (TaskRepo.with_task_state TaskOpen) in
  on_tasks TaskRepo.ApprovalTasks reopen (on_tasks TaskRepo.ReviewTasks reopen d).

Lemma worked_reopened did e s u1 s1 u2 s2 :
  TaskRepo.ReopenTasks TaskRepo.ReviewTasks did e s = Ok (u1, s1) →
  TaskRepo.ReopenTasks TaskRepo.ApprovalTasks did e s1 = Ok (u2, s2) → worked did (reopened did) s s2.
Proof. intros H1%worked_reopen H2%worked_reopen. exact (worked_then _ _ _ _ _ _ H1 H2). Qed.

Lemma reopened_bare did d : bare_desk d → bare_desk (reopened did d).
Proof. intros [E1 E2]. unfold bare_desk, reopened. cbn. by rewrite E1, E2. Qed.

Lemma reopened_one did st st' d :
  one_desk st d → st' ≠ Reviewed → st' ≠ Approved → one_desk st' (reopened did d).
Proof.
  intros (t & u & E1 & E2 & Hh & _) N1 N2.
  destruct (update_one (TaskRepo.of_did did) TaskOpen t) as (t' & Et & Ht & _).
  destruct (update_one (TaskRepo.of_did did) TaskOpen u) as (u' & Eu & Hu & _).
  exists t', u'. unfold reopened. cbn [k_reviews k_approvals on_tasks]. rewrite E1, E2, Et, Eu.
  split_and!; [done..|congruence| |]; [intros [-> | ->]|intros ->]; done.
Qed.

Lemma desk_ok_one d st : desk_ok d → k_state d = Some st → st ∈ [Submitted; Rejected; Reviewed; Approved] → one_desk st d.
Proof.
  unfold desk_ok. intros H E Hin. rewrite E in H. repeat apply elem_of_cons in Hin as [-> | Hin]; try exact H.
  by apply elem_of_nil in Hin.
Qed.

Lemma in_state_reopened did d st st' :
  desk_ok d → k_state d = Some st → st ∈ [Submitted; Rejected; Reviewed] → st' = Submitted ∨ st' = Rejected →
  desk_ok (in_state st' (reopened did d)).
Proof.
  intros Hd E Hst Hst'. apply (desk_ok_one _ _ Hd) in E; [|set_solver].
  assert (Hone : one_desk st' (reopened did d)) by (apply (reopened_one did st); [done|by destruct Hst'; subst..]).
  by destruct Hst' as [-> | ->].
Qed.

(** ** Requests *)
Section requests.
Context `{SRV : TemplateServices}.

Lemma desk_state_row s did row : templates s !! did = Some row → k_state (desk s did) = Some (ct_state (columns row)).
Proof. intros E. unfold desk. cbn. by rewrite views_lookup, E. Qed.

Lemma desks_insert row e s u s' : ct_state (columns row) = Draft →
  TemplateRepo.insert_row row e s = Ok (u, s') → desks_ok s → desks_ok s'.
Proof.
  intros Hst [Hw Hn]%worked_insert Hs. eapply desks_work; [exact Hw|done|]. rewrite Hst.
  specialize (Hs (ct_did (columns row))). unfold desk_ok in Hs. rewrite Hn in Hs. exact Hs.
Qed.

Lemma desks_create data e s t s' : ct_state data = Draft →
  TemplateRepo.Create data e s = Ok (t, s') → desks_ok s → desks_ok s'.
Proof.
  intros Hst H. unfold TemplateRepo.Create, clock in H. txn_inv.
  match goal with H : TemplateRepo.insert_row _ _ _ = _ |- _ => refine (desks_insert _ _ _ _ _ _ H); exact Hst end.
Qed.

Lemma desks_copy did copyDID e s v s' :
  TemplateRepo.CopyFromDID did copyDID e s = Ok (v, s') → desks_ok s → desks_ok s'.
Proof.
  intros H. unfold TemplateRepo.CopyFromDID, clock in H. txn_inv. case_match; [|txn_inv]. txn_inv.
  match goal with H : TemplateRepo.insert_row _ _ _ = _ |- _ => refine (desks_insert _ _ _ _ _ _ H); reflexivity end.
Qed.

Lemma desks_update cmd e s u s' : Updater.Handle cmd e s = Ok (u, s') → desks_ok s → desks_ok s'.
Proof.
  intros H Hs. unfold Updater.Handle in H. repeat (txn_step || match goal with
    | H : normalized_update _ _ _ = Ok _ |- _ => apply observes_Ok in H; [|apply observes_normalized_update]; subst
    | H : TemplateRepo.ReadDataByID _ _ _ = Ok _ |- _ => apply ReadDataByID_Ok in H as (row & Er & -> & ->)
    | H : Updater.may_update _ _ _ _ = Ok _ |- _ => apply may_update_Ok in H as [-> Hst]
    end).
  match goal with
  | R1 : TaskRepo.ReopenTasks _ _ _ _ = Ok (_, ?s1), R2 : TaskRepo.ReopenTasks _ _ _ ?s1 = Ok (_, ?s2),
    Hh : TemplateRepo.CreateHistoryEntryForDID _ _ _ = Ok (_, ?s3), Hu : TemplateRepo.Update _ _ ?s3 = Ok (_, ?s4),
    He : Create_event _ _ ?s4 = Ok (_, s') |- _ =>
      pose proof (worked_reopened _ _ _ _ _ _ _ R1 R2) as Hw;
      eapply desks_same; [eapply desk_event, He|]; eapply desks_same; [eapply desk_Update, Hu; done|];
      apply exec_Ok in Hh; apply (desks_same s2)
  end.
  - subst. intros did. by case_match.
  - eapply desks_work; [exact Hw|done|]. pose proof (Hs (up_DID cmd)) as Hd. apply desk_state_row in Er.
    set (d := desk s (up_DID cmd)) in *. unfold desk_ok in Hd |- *.
    change (k_state (reopened _ d)) with (k_state d). rewrite Er in *.
    repeat apply elem_of_cons in Hst as [Hst | Hst]; [..|by apply elem_of_nil in Hst]; rewrite Hst in *;
      [by apply reopened_bare | by eapply reopened_one..].
Qed.

Lemma desks_update_manage cmd e s u s' : UpdateManager.Handle cmd e s = Ok (u, s') → desks_ok s → desks_ok s'.
Proof.
  intros H Hs. unfold UpdateManager.Handle in H. repeat (txn_step || match goal with
    | H : normalized_update _ _ _ = Ok _ |- _ => apply observes_Ok in H; [|apply observes_normalized_update]; subst
    | H : TemplateRepo.ReadDataByID _ _ _ = Ok _ |- _ => apply ReadDataByID_Ok in H as (row & Er & -> & ->)
    end).
  eapply desks_same; [eapply desk_event, H|]. eapply desks_same; [|exact Hs]. match goal with Hu : TemplateRepo.Update _ _ _ = _ |- _ => refine (desk_Update _ _ _ _ _ _ Hu); reflexivity end.
Qed.

(** A holder's task on a desk with one task of the kind is that task. *)
Lemma held_is tbl s did holder t :
  desk_tasks tbl (desk s did) = [t] → exists_where (TaskRepo.of_holder did holder) (TaskRepo.tasks tbl s) = true →
  TaskRepo.of_holder did holder t = true ∧ tt_holder t = holder.
Proof.
  intros E (t' & Hin & Ht)%held_on_desk. rewrite E in Hin. apply list_elem_of_singleton in Hin as ->.
  assert (Hd : TaskRepo.of_did did t = true) by (eapply desk_member; rewrite E; by left).
  unfold TaskRepo.of_holder. by rewrite Hd, Ht, bool_decide_eq_true_2.
Qed.

Lemma desks_decide task st evt actor cmd e s u s' :
  (task, st) ∈ [(TaskApproved, Approved); (TaskRejected, Rejected)] →
  Decider.decide_as task st evt actor cmd e s = Ok (u, s') → desks_ok s → desks_ok s'.
Proof.
  intros Hts H Hs. unfold Decider.decide_as in H. repeat (txn_step || match goal with
    | H : TemplateRepo.ReadProcessDataByDID _ _ _ = Ok _ |- _ => apply ReadProcessData_Ok in H as [Er ->]
    | H : TaskRepo.IsValidHolder _ _ _ _ _ = Ok _ |- _ => apply observes_Ok in H; [|apply observes_query]; subst
    end). bool_to_prop.
  match goal with
  | Ht : TaskRepo.UpdateState _ _ _ _ _ _ = Ok (_, ?s1), Hu : TemplateRepo.UpdateState _ _ _ ?s1 = Ok (_, ?s2) |- _ =>
      apply worked_task_state in Ht as [Hw Hheld]; apply worked_state in Hu as Hw2
  end.
  eapply desks_same; [eapply desk_event, H|]. pose proof (worked_then _ _ _ _ _ _ Hw Hw2) as Hw3.
  eapply desks_work; [exact Hw3|done|]. set (did := Decider.DID cmd) in *.
  pose proof (desk_ok_one _ Reviewed (Hs did)) as Hone. rewrite (desk_state_row _ _ _ Er) in Hone.
  destruct Hone as (t & v & E1 & E2 & Hh & Hrev & _); [by f_equal|set_solver|].
  destruct (held_is TaskRepo.ApprovalTasks _ _ _ v E2 Hheld) as [Hv _].
  destruct (update_one (TaskRepo.of_holder did (Decider.DecidedBy cmd)) task v) as (v' & Ev & Hvh & Hvs & _).
  assert (Hdesk : one_desk st (in_state st (on_tasks TaskRepo.ApprovalTasks
            (update_where (TaskRepo.of_holder did (Decider.DecidedBy cmd)) (TaskRepo.with_task_state task)) (desk s did)))).
  { exists t, v'. cbn [in_state on_tasks k_reviews k_approvals]. rewrite E1, E2, Ev. split_and!; [done..|congruence|auto|].
    intros ->. rewrite (Hvs Hv). set_unfold in Hts. naive_solver. }
  repeat apply elem_of_cons in Hts as [[= -> ->] | Hts]; [exact Hdesk..|by apply elem_of_nil in Hts].
Qed.
(** A state that promises nothing about the tasks. *)
Lemma in_state_free d st : desk_ok d → st ∈ [Registered; Published; Deleted; Deprecated] → desk_ok (in_state st d).
Proof.
  intros Hd Hst. assert (H : bare_desk d ∨ one_desk st d).
  { unfold desk_ok in Hd. destruct (k_state d) as [[]|]; try (by left);
      try (destruct Hd as [Hd | Hd]; [by left|]); right; destruct Hd as (t & u & E1 & E2 & Hh & _);
      exists t, u; split_and!; try done; set_unfold in Hst; intros; destruct_or!; congruence. }
  repeat apply elem_of_cons in Hst as [-> | Hst]; try exact H. by apply elem_of_nil in Hst.
Qed.

Lemma desks_state did st e s u s' : st ∈ [Registered; Published; Deleted; Deprecated] →
  TemplateRepo.UpdateState did st e s = Ok (u, s') → desks_ok s → desks_ok s'.
Proof. intros Hst H%worked_state Hs. eapply desks_work; [exact H|done|]. by apply in_state_free. Qed.

Lemma desks_archive cmd e s u s' : Archiver.Handle cmd e s = Ok (u, s') → desks_ok s → desks_ok s'.
Proof.
  intros H Hs. unfold Archiver.Handle in H. repeat (txn_step || match goal with
    | H : TemplateRepo.ReadProcessDataByDID _ _ _ = Ok _ |- _ => apply ReadProcessData_Ok in H as [Er ->]
    end).
  match goal with
  | Hu : TemplateRepo.UpdateState _ ?st _ _ = Ok (_, ?s1), He : Create_event _ _ _ = Ok (_, ?s2),
    D1 : TaskRepo.Delete _ _ _ ?s2 = Ok (_, ?s3), D2 : TaskRepo.Delete _ _ _ ?s3 = Ok (_, s') |- _ =>
      pose proof (worked_then _ _ _ _ _ _ (worked_state _ _ _ _ _ _ Hu)
        (worked_then _ _ _ _ _ _ (worked_id (Archiver.DID cmd) _ _ (desk_event _ _ _ _ _ He))
           (worked_then _ _ _ _ _ _ (worked_delete _ _ _ _ _ _ D1) (worked_delete _ _ _ _ _ _ D2)))) as Hw;
      assert (Hst : st = Deprecated ∨ st = Deleted) by (case_match; auto)
  end.
  eapply desks_work; [exact Hw|done|]. unfold desk_ok, id. cbn. by destruct Hst as [-> | ->]; left.
Qed.

Lemma desks_publication cmd e s u s' : Publisher.record_publication cmd e s = Ok (u, s') → desks_ok s → desks_ok s'.
Proof.
  intros H Hs. unfold Publisher.record_publication in H. txn_inv.
  match goal with H : TemplateRepo.ReadProcessDataByDID _ _ _ = Ok _ |- _ => apply ReadProcessData_Ok in H as [Er ->] end.
  case_bool_decide; txn_inv; [done|]. eapply desks_same; [eapply desk_event, H|].
  match goal with Hu : TemplateRepo.UpdateState _ _ _ _ = _ |- _ => refine (desks_state _ _ _ _ _ _ _ Hu Hs); set_solver end.
Qed.

Lemma desks_seal cmd existing e s a s' : Registrar.seal cmd existing e s = Ok (a, s') → desks_ok s → desks_ok s'.
Proof.
  intros H Hs. unfold Registrar.seal in H. txn_inv.
  match goal with He : Create_event _ _ _ = Ok _, Hi : Registrar.issueProvenanceCredential _ _ _ _ = Ok (_, ?s2),
    Hu : TemplateRepo.UpdateState _ _ _ _ = Ok (_, ?s1) |- _ =>
      eapply desks_same; [eapply desk_event, He|]; apply (desks_same s1);
      [|refine (desks_state _ _ _ _ _ _ _ Hu Hs); set_solver]; eapply desk_frame; [exact Hi|apply issue_templates|..];
      unfold Registrar.issueProvenanceCredential, TemplateRepo.InsertProvenanceCredential, TaskRepo.ReadAllByDID,
        TemplateRepo.ReadProvenanceCredentials, TemplateRepo.ReadLatestProvenanceVCID, frames;
      evolves_tac; by apply evolves_exec
  end.
Qed.

Lemma desks_import cmd did im e s a s' : Registrar.import cmd did im e s = Ok (a, s') → desks_ok s → desks_ok s'.
Proof.
  intros H Hs. unfold Registrar.import in H. txn_inv.
  match goal with He : Create_event _ _ _ = Ok _, Hc : TemplateRepo.Create _ _ _ = Ok _ |- _ =>
    eapply desks_same; [eapply desk_event, He|]; refine (desks_create _ _ _ _ _ _ Hc Hs); reflexivity end.
Qed.

Lemma desks_verify cmd e s u s' : Verifier.Handle cmd e s = Ok (u, s') → desks_ok s → desks_ok s'.
Proof.
  intros H Hs. unfold Verifier.Handle in H. repeat (txn_step || match goal with
    | H : TemplateRepo.ReadProcessDataByDID _ _ _ = Ok _ |- _ => apply ReadProcessData_Ok in H as [Er ->]
    | H : TemplateRepo.ReadDataByID _ _ _ = Ok _ |- _ => apply ReadDataByID_Ok in H as (row2 & Er2 & -> & ->)
    end).
  match goal with H : match FCClient with _ => _ end _ _ = Ok (?f, ?s1) |- _ =>
    assert (s1 = s) as -> by (destruct FCClient; by txn_inv); destruct f; [|by txn_inv] end.
  unfold TaskRepo.TaskExistsInState in *. txn_inv.
  match goal with He : Create_event _ _ _ = Ok _ |- _ => eapply desks_same; [eapply desk_event, He|] end.
  match goal with Ho : only_if _ _ _ _ = _ |- _ => apply only_if_Ok in Ho as [[Hb Hup] | [_ ->]]; [|done] end.
  apply worked_task_state in Hup as [Hw _]. eapply desks_work; [exact Hw|done|].
  set (did := Verifier.DID cmd) in *. set (h := Verifier.VerifiedBy cmd) in *.
  apply exists_where_true in Hb as (t & Hin & Ht). unfold TaskRepo.of_holder in Ht. bool_to_prop.
  assert (Hmem : t ∈ k_reviews (desk s did)) by (apply elem_of_rows_where; done).
  specialize (Hs did). unfold desk_ok in Hs |- *. cbn [k_state on_tasks].
  assert (Hone : ∀ st, st ≠ Reviewed → st ≠ Approved → one_desk st (desk s did) →
    one_desk st (on_tasks TaskRepo.ReviewTasks (update_where (TaskRepo.of_holder did h) (TaskRepo.with_task_state TaskVerified)) (desk s did))).
  { intros st N1 N2 (r & v & E1 & E2 & Hh & _).
    destruct (update_one (TaskRepo.of_holder did h) TaskVerified r) as (r' & Er' & Hr' & _).
    exists r', v. cbn [on_tasks k_reviews k_approvals]. rewrite E1, Er'. split_and!; [done..|congruence| |]; intros; destruct_or?; done. }
  assert (Hbare : ¬ bare_desk (desk s did)) by (intros [E _]; rewrite E in Hmem; by apply elem_of_nil in Hmem).
  assert (Hopen : ∀ st, st = Reviewed ∨ st = Approved → ¬ one_desk st (desk s did)).
  { intros st Hst (r & v & E1 & _ & _ & Hr & _). rewrite E1 in Hmem. apply list_elem_of_singleton in Hmem as ->.
    specialize (Hr Hst). congruence. }
  destruct (k_state (desk s did)) as [[]|]; cbn [default] in *; try by destruct Hbare.
  all: try by apply Hone.
  all: try (by apply (Hopen Reviewed) in Hs; [|left]); try (by apply (Hopen Approved) in Hs; [|right]).
  all: destruct Hs as [Hs | Hs]; [by destruct Hbare|right; by apply Hone].
Qed.

(** A submission that reopens the tasks. *)
Lemma desks_resubmit cmd st st' e s u1 s1 u2 s2 u3 s3 row :
  templates s !! Submitter.DID cmd = Some row → ct_state (columns row) = st →
  st ∈ [Submitted; Rejected; Reviewed] → st' = Submitted ∨ st' = Rejected →
  TaskRepo.ReopenTasks TaskRepo.ReviewTasks (Submitter.DID cmd) e s = Ok (u1, s1) →
  TaskRepo.ReopenTasks TaskRepo.ApprovalTasks (Submitter.DID cmd) e s1 = Ok (u2, s2) →
  TemplateRepo.UpdateState (Submitter.DID cmd) st' e s2 = Ok (u3, s3) → desks_ok s → desks_ok s3.
Proof.
  intros Er <- Hst Hst' R1 R2 Hu Hs.
  eapply desks_work; [exact (worked_then _ _ _ _ _ _ (worked_reopened _ _ _ _ _ _ _ R1 R2) (worked_state _ _ _ _ _ _ Hu))|done|].
  by apply (in_state_reopened _ _ (ct_state (columns row))); [apply Hs|apply desk_state_row|..].
Qed.

(** The first submission makes the submitter the reviewer and the approver. *)
Lemma desks_first_submit cmd e s u1 s1 u2 s2 row :
  templates s !! Submitter.DID cmd = Some row → ct_state (columns row) = Draft →
  Submitter.createTasks cmd e s = Ok (u1, s1) →
  TemplateRepo.UpdateState (Submitter.DID cmd) Submitted e s1 = Ok (u2, s2) → desks_ok s → desks_ok s2.
Proof.
  intros Er Hd Hc Hu Hs. unfold Submitter.createTasks in Hc. txn_inv.
  repeat match goal with H : TaskRepo.Create _ _ _ _ _ _ _ = _ |- _ => apply worked_task_Create in H end.
  match goal with W1 : worked _ _ s ?s3, W2 : worked _ _ ?s3 _ |- _ =>
    eapply desks_work; [exact (worked_then _ _ _ _ _ _ W1 (worked_then _ _ _ _ _ _ W2 (worked_state _ _ _ _ _ _ Hu)))|done|] end.
  specialize (Hs (Submitter.DID cmd)). unfold desk_ok in Hs. rewrite (desk_state_row _ _ _ Er), Hd in Hs.
  destruct Hs as [E1 E2]. unfold desk_ok. cbn [in_state on_tasks k_state k_reviews k_approvals default].
  rewrite E1, E2. eexists _, _. split_and!; try reflexivity; naive_solver.
Qed.

(** Sending for approval decides the submitter's review task. *)
Lemma desks_approve_review cmd e s next s1 row :
  templates s !! Submitter.DID cmd = Some row → ct_state (columns row) = Submitted →
  Submitter.approve_review (Submitter.DID cmd) (Submitter.SubmittedBy cmd) e s = Ok (next, s1) → desks_ok s →
  desks_ok s1 ∧ (next = None ∨ next = Some Reviewed ∧
    ∀ u s2, TemplateRepo.UpdateState (Submitter.DID cmd) Reviewed e s1 = Ok (u, s2) → desks_ok s2).
Proof.
  intros Er Hd H Hs. set (did := Submitter.DID cmd) in *. set (h := Submitter.SubmittedBy cmd) in *.
  unfold Submitter.approve_review, TaskRepo.TaskExistsInState, TaskRepo.AnyTasksInState in H. txn_inv.
  match goal with H : TaskRepo.UpdateState _ _ _ _ _ _ = _ |- _ => apply worked_task_state in H as [Hw Hheld] end.
  pose proof (desk_ok_one _ Submitted (Hs did)) as Hone. rewrite (desk_state_row _ _ _ Er) in Hone.
  destruct Hone as (t & v & E1 & E2 & Hh & _); [by f_equal|set_solver|].
  destruct (held_is TaskRepo.ReviewTasks _ _ _ t E1 Hheld) as [Ht _].
  destruct (update_one (TaskRepo.of_holder did h) TaskApproved t) as (t' & Et & Hth & Hts & _).
  set (d1 := on_tasks TaskRepo.ReviewTasks (update_where (TaskRepo.of_holder did h) (TaskRepo.with_task_state TaskApproved)) (desk s did)).
  assert (Hone : ∀ st, st ≠ Approved → one_desk st d1).
  { intros st Hst. exists t', v. subst d1. cbn [on_tasks k_reviews k_approvals]. rewrite E1, Et.
    split_and!; [done..|congruence|by intros _; apply Hts|done]. }
  split; [|case_match; [by left|right; split; [done|]]].
  - eapply desks_work; [exact Hw|done|]. fold d1. unfold desk_ok. change (k_state d1) with (k_state (desk s did)).
    rewrite (desk_state_row _ _ _ Er), Hd. by apply Hone.
  - intros u s2 Hu%worked_state. eapply desks_work; [exact (worked_then _ _ _ _ _ _ Hw Hu)|done|].
    fold d1. by apply (Hone Reviewed).
Qed.

(** What a submission does before it writes the next state, if any. *)
Lemma desks_next_state cmd e s next s1 row :
  templates s !! Submitter.DID cmd = Some row →
  Submitter.next_state cmd (ct_state (columns row)) e s = Ok (next, s1) → desks_ok s →
  (next = None → desks_ok s1) ∧
  ∀ st, next = Some st → st ≠ ct_state (columns row) ∧ ∀ u s2, TemplateRepo.UpdateState (Submitter.DID cmd) st e s1 = Ok (u, s2) → desks_ok s2.
Proof.
  intros Er H Hs. destruct (ct_state (columns row)) eqn:Est; cbn [Submitter.next_state] in H; unfold Submitter.permit in H.
  all: repeat (txn_step || match goal with
    | H : TaskRepo.IsValidHolder _ _ _ _ _ = Ok _ |- _ => apply observes_Ok in H; [|apply observes_query]; subst
    | H : match Submitter.Flag _ with _ => _ end _ _ = _ |- _ => destruct (Submitter.Flag cmd) as [[]|]
    | H : Submitter.reopen_tasks _ _ _ = _ |- _ => unfold Submitter.reopen_tasks in H
    end).
  - split; [done|]. intros st [= <-]. split; [done|]. intros u s2 Hu. by eapply desks_first_submit.
  - destruct (desks_approve_review _ _ _ _ _ _ Er Est H Hs) as [Hs1 [-> | [-> Hup]]]; [done|].
    split; [done|]. intros st [= <-]. split; [done|done].
  - split; [done|]. intros st [= <-]. split; [done|]. intros u s2 Hu.
    eapply (desks_resubmit cmd Submitted Rejected); eauto. set_solver.
  - split; [done|]. intros st [= <-]. split; [done|]. intros u s2 Hu.
    eapply (desks_resubmit cmd Rejected Submitted); eauto. set_solver.
  - split; [done|]. intros st [= <-]. split; [done|]. intros u s2 Hu.
    eapply (desks_resubmit cmd Reviewed Submitted); eauto. set_solver.
Qed.

Lemma desks_submit cmd e s u s' : Submitter.Handle cmd e s = Ok (u, s') → desks_ok s → desks_ok s'.
Proof.
  intros H Hs. unfold Submitter.Handle in H. repeat (txn_step || match goal with
    | H : TemplateRepo.ReadProcessDataByDID _ _ _ = Ok _ |- _ => apply ReadProcessData_Ok in H as [Er ->]
    end).
  match goal with H : Submitter.next_state _ _ _ _ = Ok (?n, _) |- _ =>
    destruct (desks_next_state _ _ _ _ _ _ Er H Hs) as [Hnone Hsome]; destruct n as [st|]; [|txn_inv; by apply Hnone] end.
  destruct (Hsome st eq_refl) as [Hne Hup]. rewrite bool_decide_eq_false_2 in H by done. txn_inv.
  eapply desks_same; [by eapply desk_event|]. by eapply Hup.
Qed.
Lemma desks_create_request cmd e s u s' : Creator.Handle cmd e s = Ok (u, s') → desks_ok s → desks_ok s'.
Proof.
  intros H Hs. unfold Creator.Handle, normalized_for in H. txn_inv.
  match goal with Hc : TemplateRepo.Create _ _ _ = Ok _ |- _ =>
    eapply desks_same; [by eapply desk_event|]; refine (desks_create _ _ _ _ _ _ Hc Hs); reflexivity end.
Qed.

Lemma desks_copy_request cmd e s u s' : Copier.Handle cmd e s = Ok (u, s') → desks_ok s → desks_ok s'.
Proof.
  intros H Hs. unfold Copier.Handle, normalized_for in H. repeat (txn_step || match goal with
    | H : TemplateRepo.ReadDataByID _ _ _ = Ok _ |- _ => apply ReadDataByID_Ok in H as (row & Er & -> & ->)
    end).
  match goal with Hc : TemplateRepo.CopyFromDID _ _ _ _ = Ok _, Hu : TemplateRepo.Update _ _ _ = Ok _ |- _ =>
    eapply desks_same; [by eapply desk_event|]; eapply desks_same; [eapply desk_Update, Hu; done|];
    exact (desks_copy _ _ _ _ _ _ Hc Hs) end.
Qed.

Lemma desks_render did pdf e s u s' : TemplateRepo.UpdatePDFState did pdf e s = Ok (u, s') → desks_ok s → desks_ok s'.
Proof.
  destruct pdf as [[[? ?] ?] ?]. intros H. apply desks_same. unfold TemplateRepo.UpdatePDFState, TemplateRepo.update_row in H.
  txn_inv. intros x. destruct (templates s !! did) as [row|] eqn:E.
  - unfold desk. rewrite (views_update _ _ _ row) by done. f_equal.
    destruct (decide (x = did)) as [-> | Hx]; [rewrite lookup_insert_eq, views_lookup, E | rewrite lookup_insert_ne]; done.
  - unfold desk. by rewrite views_update_none.
Qed.

Lemma desks_commit {A} (m : TTx A) e s :
  (∀ a s', m e s = Ok (a, s') → desks_ok s → desks_ok s') → desks_ok s → desks_ok (commit m e s).2.
Proof. intros Hm Hs. unfold commit. destruct (m e s) as [[a s']|] eqn:E; [by eapply Hm|done]. Qed.

Lemma desks_perform a e c : desks_ok (store c) → desks_ok (store (perform a e c)).
Proof.
  intros Hc. destruct a; cbn [perform store];
    try (refine (desks_commit _ _ _ _ Hc); intros ? ?; first
      [apply desks_create_request | apply desks_copy_request | apply desks_update | apply desks_update_manage
      | apply desks_submit | apply desks_archive | apply desks_verify | apply desks_render | apply desks_publication
      | apply desks_import | apply desks_decide; set_solver]).
  - unfold Registrar.Handle. repeat case_match; try done; refine (desks_commit _ _ _ _ Hc); intros ? ?;
      [apply desks_seal | apply desks_import].
  - repeat case_match; done.
  - destruct (in_flight c !! request) as [[cmd existing]|]; [|done].
    refine (desks_commit _ _ _ _ Hc); intros ? ?; apply desks_seal.
Qed.

Lemma desks_reachable c : reachable c → desks_ok (store c).
Proof.
  intros [l ->]. enough (H : ∀ c, desks_ok (store c) → desks_ok (store (perform_all l c)))
    by (apply H; intros x; unfold desk_ok, desk, views; cbn; rewrite lookup_fmap; by split).
  induction l as [|[a e] l IH]; intros c Hc; [done|]. cbn [perform_all]. by apply IH, desks_perform.
Qed.

(** in every reachable store an approved template has exactly one review and
    one approval task, both APPROVED and both held by the same person (its first
    submitter); a reviewed one has its review task APPROVED. *)
Theorem approval_follows_review c did : reachable c →
  match k_state (desk (store c) did) with
  | Some Approved => ∃ t u, k_reviews (desk (store c) did) = [t] ∧ k_approvals (desk (store c) did) = [u] ∧
      tt_state t = TaskApproved ∧ tt_state u = TaskApproved ∧ tt_holder t = tt_holder u
  | Some Reviewed => ∃ t, k_reviews (desk (store c) did) = [t] ∧ tt_state t = TaskApproved
  | _ => True
  end.
Proof.
  intros Hc%desks_reachable. specialize (Hc did). unfold desk_ok in Hc.
  destruct (k_state (desk (store c) did)) as [[]|]; try done; destruct Hc as (t & u & ? & ? & ? & Ht & Hu);
    naive_solver.
Qed.
End requests.

Lemma approval_follows_review_witness :
  match k_state (desk (store (demo_run (take 5 demo_steps))) "t1") with
  | Some Approved => ∃ t u, tt_state t = TaskApproved ∧ tt_state u = TaskApproved ∧ tt_holder t = tt_holder u
  | _ => False
  end.
Proof.
  pose proof (approval_follows_review (SRV := demo_services) (demo_run (take 5 demo_steps)) "t1") as H.
  assert (E : k_state (desk (store (demo_run (take 5 demo_steps))) "t1") = Some Approved) by (by vm_compute).
  rewrite E in H |- *. destruct H as (t & u & _ & _ & H); [by eexists|by exists t, u].
Defined.
