(* ===== verification/TemplateQueries.v ===== *)
(** The read side of the template repository:
    internal/templaterepository/query/contracttemplate (queryall.go,
    querybyfilter.go, querybyid.go, queryhistorybyid.go) over ReadAllMetaData and
    ReadAllMetaDataByFilter of contracttemplaterepository.go.

    Postgres promises no order beyond ORDER BY: the order in which a scan meets
    the rows is an argument of the listings. *)
From S2P Require Import Prelude Json Transactions Sha256 Anchors TemplateStore Templates TemplateLaws TemplateInvariants.

(** ** Pages *)
Record Pagination := { Offset : Z; Limit : Z }.

(** The product of two Go ints. *)
Definition int64 (z : Z) : Z := (z + 2 ^ 63) mod 2 ^ 64 - 2 ^ 63.

(** [ORDER BY created_at DESC LIMIT $1 OFFSET $2], when there is a limit. *)
Definition page {A} (created_at : A → Z) (p : Pagination) (rows : list A) : result (list A) :=
  if 0 <? Limit p then
    let offset := int64 ((Offset p - 1) * Limit p) in
    if offset <? 0 then Err (PgError "OFFSET must not be negative")
    else Ok (take (Z.to_nat (Limit p)) (drop (Z.to_nat offset) (order_by (λ r, - created_at r) rows)))
  else Ok rows.

(** ** The listing *)

(** [ORDER BY base_template, version DESC] and the first row of each lineage. *)
Definition newest_of (base : option string) (scan : list ContractTemplate) : option ContractTemplate :=
  head (order_by (λ ct, - ct_version ct)
          (rows_where (λ ct, same_lineage (ct_base_template ct) base && is_active (ct_state ct)) scan)).

(** [db.ContractTemplateMetadata]: the columns and the two computed ones. *)
Record Metadata := { md_columns : ContractTemplate; md_Outdated : option bool; md_LatestDID : option string }.

Definition metadata (scan : list ContractTemplate) (t : ContractTemplate) : Metadata :=
  let l := newest_of (ct_base_template t) scan in
  {| md_columns := t;
     md_Outdated :=
       if is_active (ct_state t) then (λ n, negb (bool_decide (ct_version t = ct_version n))) <$> l else Some false;
     md_LatestDID :=
       match l with
       | Some n => if negb (bool_decide (ct_did t = ct_did n)) && is_active (ct_state t) then Some (ct_did n) else None
       | None => None
       end |}.

(** [listed] and [ranked] are the orders in which the two scans meet the rows. *)
Definition ReadAllMetaData (listed ranked : list ContractTemplate) (p : Pagination) : result (list Metadata) :=
  page (λ m, ct_created_at (md_columns m)) p (metadata ranked <$> listed).

(** ** The search *)

(** [LIKE] on bytes: [%], [_] and the escape character. *)
Fixpoint like (pattern : list ascii) (s : list ascii) {struct pattern} : bool :=
  match pattern with
  | [] => bool_decide (s = [])
  | p :: rest =>
      if bool_decide (p = "%"%char) then
        (fix anywhere (s : list ascii) : bool :=
           like rest s || match s with [] => false | _ :: s' => anywhere s' end) s
      else if bool_decide (p = "\"%char) then
        match rest, s with
        | q :: rest', c :: s' => bool_decide (c = q) && like rest' s'
        | _, _ => false
        end
      else match s with
           | c :: s' => (bool_decide (p = "_"%char) || bool_decide (c = p)) && like rest s'
           | [] => false
           end
  end.

Definition ilike (pattern s : string) : bool :=
  like (list_ascii_of_string (GoStrings.ToLower pattern)) (list_ascii_of_string (GoStrings.ToLower s)).

Record SearchValues := {
  sv_DID : string;
  sv_Version : Z;
  sv_State : string;
  sv_TemplateType : string;
  sv_Name : string;
  sv_Description : string;
  sv_TemplateData : string
}.

Inductive Condition :=
  | HasDID (v : string) | HasVersion (v : Z) | HasState (v : string) | HasType (v : string)
  | NameLike (v : string) | DescriptionLike (v : string) | Mentions (v : string).

Definition createSearchConditions (values : SearchValues) : list Condition :=
  let text (v : string) (c : Condition) := if bool_decide (v = EmptyString) then [] else [c] in
  let around (v : string) := String.append "%" (String.append v "%") in
  text (sv_DID values) (HasDID (sv_DID values))
  ++ (if 0 <? sv_Version values then [HasVersion (sv_Version values)] else [])
  ++ text (sv_State values) (HasState (GoStrings.ToUpper (sv_State values)))
  ++ text (sv_TemplateType values) (HasType (around (sv_TemplateType values)))
  ++ text (sv_Name values) (NameLike (around (sv_Name values)))
  ++ text (sv_Description values) (DescriptionLike (around (sv_Description values)))
  ++ text (sv_TemplateData values) (Mentions (sv_TemplateData values)).

(** A parameter compared with an enum column is read as one of its labels, a
    version as a 32-bit integer. *)
Definition castable (c : Condition) : bool :=
  match c with
  | HasState v => bool_decide (is_Some (enum_state v))
  | HasType v => bool_decide (v ∈ template_types)
  | HasVersion v => v <=? max_int4
  | _ => true
  end.

Section search.
(** [search_vector @@ plainto_tsquery('english', $n)]. *)
Variable mentions : string → option json → bool.

Definition holds (ct : ContractTemplate) (c : Condition) : bool :=
  match c with
  | HasDID v => bool_decide (ct_did ct = v)
  | HasVersion v => ct_version ct =? v
  | HasState v => bool_decide (state_label (ct_state ct) = v)
  | HasType v => bool_decide (ct_template_type ct = v)
  | NameLike v => match ct_name ct with Some n => ilike v n | None => false end
  | DescriptionLike v => match ct_description ct with Some d => ilike v d | None => false end
  | Mentions v => mentions v (ct_template_data ct)
  end.

Definition ReadAllMetaDataByFilter (scan : list ContractTemplate) (values : SearchValues) (p : Pagination)
    : result (list ContractTemplate) :=
  let conditions := createSearchConditions values in
  if forallb castable conditions then
    page ct_created_at p (rows_where (λ ct, forallb (holds ct) conditions) scan)
  else Err (PgError "invalid input value").
End search.

(** ** The handlers *)

(** [MetadataItem]: the columns with their labels parsed again. *)
Record MetadataItem := {
  mi_columns : ContractTemplate; mi_State : ContractTemplateState; mi_TemplateType : string; mi_LatestDID : option string }.

Definition parsed (latest : option string) (ct : ContractTemplate) : result MetadataItem :=
  state ← wrap_err "could not create contract template state" (NewContractTemplateState (state_label (ct_state ct)));
  type ← wrap_err "could not create contract template type" (NewContractTemplateType (ct_template_type ct));
  mret {| mi_columns := ct; mi_State := state; mi_TemplateType := type; mi_LatestDID := latest |}.

(** [ReviewTaskItem] and [ApprovalTaskItem]: a task with the version of its
    template, 0 when the page does not hold it. *)
Definition task_item (items : list MetadataItem) (t : TemplateTask) : TemplateTask * Z :=
  (t, match List.find (λ i, bool_decide (ct_did (mi_columns i) = tt_did t)) items with
      | Some i => ct_version (mi_columns i)
      | None => 0
      end).

Definition retrieved (ty did retrievedBy : string) (body : list (string * json)) : TTx () :=
  within "could not create event" (Create_event (event ty did (("retrieved_by", JStr retrievedBy) :: body))).

(** A query's transaction commits before its rows are turned into items. *)
Definition after_commit {A B} (m : TTx A) (items : A → result B) (e : TEnv) (s : TStore) : result B * TStore :=
  let '(r, s') := commit m e s in (r ≫= items, s').

Definition GetAllMetadata (listed ranked : TStore → list ContractTemplate) (retrievedBy : string) (p : Pagination)
    : TEnv → TStore → result (list MetadataItem * list (TemplateTask * Z) * list (TemplateTask * Z)) * TStore :=
  after_commit
    (rows ← (if 0 <=? Limit p then
               rows ← query (λ _ s, ReadAllMetaData (listed s) (ranked s) p);
               within "could not read all contract templates" (of_result rows)
             else mret []);
     _ ← retrieved "RETRIEVE_ALL_CONTRACT_TEMPLATES" "*" retrievedBy [];
     reviews ← TaskRepo.ReadAllByHolder TaskRepo.ReviewTasks retrievedBy;
     approvals ← TaskRepo.ReadAllByHolder TaskRepo.ApprovalTasks retrievedBy;
     mret (rows, reviews, approvals))
    (λ '(rows, reviews, approvals),
       items ← mapM (λ m, parsed (md_LatestDID m) (md_columns m)) rows;
       mret (items, task_item items <$> reviews, task_item items <$> approvals)).

Definition GetAllMetadataByFilter (mentions : string → option json → bool) (scan : TStore → list ContractTemplate)
    (retrievedBy : string) (values : SearchValues) (p : Pagination) : TEnv → TStore → result (list MetadataItem) * TStore :=
  after_commit
    (rows ← query (λ _ s, ReadAllMetaDataByFilter mentions (scan s) values p);
     rows ← within "could not read all contract templates" (of_result rows);
     _ ← retrieved "SEARCH_CONTRACT_TEMPLATE" "*" retrievedBy [];
     mret rows)
    (mapM (parsed None)).

Definition GetByID (did retrievedBy : string) : TEnv → TStore → result MetadataItem * TStore :=
  after_commit
    (data ← within "could not get contract template data" (TemplateRepo.ReadDataByID did);
     _ ← retrieved "RETRIEVE_CONTRACT_TEMPLATE_BY_ID" did retrievedBy [("version", jint (ct_version data))];
     mret data)
    (parsed None).

Definition GetHistoryByID (did retrievedBy : string) : TEnv → TStore → result (list MetadataItem) * TStore :=
  after_commit
    (entries ← TemplateRepo.ReadHistoryByDID did;
     _ ← retrieved "RETRIEVE_CONTRACT_HISTORY_BY_DID" did retrievedBy [];
     mret entries)
    (mapM (parsed None)).

(** ** What the listing says *)
Lemma head_order_by {A} (key : A → Z) (l : list A) x :
  head (order_by key l) = Some x → x ∈ l ∧ ∀ y, y ∈ l → key x <= key y.
Proof.
  intros H. pose proof (ordered_order_by key l) as Ho. destruct (order_by key l) as [|y t] eqn:E; [done|].
  injection H as ->. split; [apply (elem_of_order_by key); rewrite E; by left|].
  intros z Hz. apply (elem_of_order_by key) in Hz. rewrite E in Hz.
  apply elem_of_cons in Hz as [-> | Hz]; [done|]. apply StronglySorted_inv in Ho as [_ Ho].
  by apply (proj1 (Forall_forall _ _) Ho).
Qed.

(** A row of the lineage [base] that newer ones may not be hidden by. *)
Definition competes (base : option string) (ct : ContractTemplate) : bool :=
  same_lineage (ct_base_template ct) base && is_active (ct_state ct).

Lemma newest_of_Some base scan n : newest_of base scan = Some n →
  n ∈ scan ∧ competes base n = true ∧ ∀ m, m ∈ scan → competes base m = true → ct_version m <= ct_version n.
Proof.
  intros [Hn Hmax]%head_order_by. apply elem_of_rows_where in Hn as [Hin Hc]. split_and!; [done..|].
  intros m Hm Hcm. enough (- ct_version n <= - ct_version m) by lia. apply Hmax, elem_of_rows_where. done.
Qed.

Lemma newest_of_exists base scan t : t ∈ scan → competes base t = true → is_Some (newest_of base scan).
Proof.
  intros Hin Hc. unfold newest_of.
  assert (Ht : t ∈ order_by (λ ct, - ct_version ct) (rows_where (competes base) scan))
    by (apply elem_of_order_by, elem_of_rows_where; done).
  change (λ ct, same_lineage (ct_base_template ct) base && is_active (ct_state ct)) with (competes base).
  destruct (order_by _ _); [by apply elem_of_nil in Ht|done].
Qed.

(** The rows of a store whose active versions are unique. *)
Lemma active_rows_agree s t n base : active_ok s → t ∈ template_rows s → n ∈ template_rows s →
  competes base t = true → competes base n = true → (ct_did t = ct_did n ↔ ct_version t = ct_version n).
Proof.
  intros [Hk Ho] (d1 & r1 & E1 & ->)%elem_of_template_rows (d2 & r2 & E2 & ->)%elem_of_template_rows Ht Hn.
  unfold competes in Ht, Hn. apply andb_true_iff in Ht as [L1 A1], Hn as [L2 A2].
  destruct (Hk _ _ E1) as [-> _], (Hk _ _ E2) as [-> _]. split; [intros ->; congruence|].
  intros Hv. apply (Ho d1 d2 (view r1) (view r2)); [by rewrite views_lookup, ?E1, ?E2..|].
  repeat split; try done. cbn. destruct (ct_base_template (columns r1)), (ct_base_template (columns r2)), base; try done.
  unfold same_lineage in *. bool_to_prop. apply bool_decide_eq_true_2. congruence.
Qed.

Lemma same_lineage_refl base : is_Some base → same_lineage base base = true.
Proof. intros [b ->]. by apply bool_decide_eq_true_2. Qed.

(** What the two computed columns of a row mean. *)
Definition row_shown (rows : list ContractTemplate) (m : Metadata) : Prop :=
  let t := md_columns m in
  t ∈ rows ∧ is_Some (md_Outdated m) ∧
  (md_Outdated m = Some true ↔ is_active (ct_state t) = true ∧
     ∃ n, n ∈ rows ∧ competes (ct_base_template t) n = true ∧ ct_version t < ct_version n) ∧
  ∀ d, md_LatestDID m = Some d ↔ md_Outdated m = Some true ∧
     ∃ n, n ∈ rows ∧ competes (ct_base_template t) n = true ∧ ct_did n = d ∧
          ∀ k, k ∈ rows → competes (ct_base_template t) k = true → ct_version k <= ct_version n.

Lemma metadata_shown s ranked t : active_ok s → ranked ≡ₚ template_rows s → t ∈ template_rows s →
  row_shown (template_rows s) (metadata ranked t).
Proof.
  intros Hok Hr Ht. unfold row_shown, metadata. cbn [md_columns md_Outdated md_LatestDID]. split; [done|].
  destruct (is_active (ct_state t)) eqn:Ea.
  2:{ split; [done|]. split; [by split; [|intros [? _]]|]. intros d. split; [|by intros [? _]].
      destruct (newest_of _ _); [by rewrite andb_false_r|done]. }
  assert (Hc : competes (ct_base_template t) t = true).
  { unfold competes. rewrite Ea, same_lineage_refl; [done|]. apply elem_of_template_rows in Ht as (d & r & E & ->).
    exact (proj2 (proj1 Hok _ _ E)). }
  assert (Hin : t ∈ ranked) by (by rewrite Hr).
  destruct (newest_of_exists _ _ _ Hin Hc) as [n En]. rewrite En. cbn [fmap option_fmap option_map].
  destruct (newest_of_Some _ _ _ En) as (Hn & Hcn & Hmax). rewrite Hr in Hn. setoid_rewrite Hr in Hmax.
  pose proof (active_rows_agree _ _ _ _ Hok Ht Hn Hc Hcn) as Heq. pose proof (Hmax _ Ht Hc) as Hle.
  split; [done|]. assert (Hout : Some (negb (bool_decide (ct_version t = ct_version n))) = Some true ↔ ct_version t < ct_version n).
  { case_bool_decide; cbn; split; try done; lia. }
  split.
  - rewrite Hout. split; [intros; split; [done|by exists n]|]. intros [_ (k & Hk & Hck & Hlt)]. specialize (Hmax _ Hk Hck). lia.
  - intros d. rewrite Hout, andb_true_r. split.
    + destruct (bool_decide_reflect (ct_did t = ct_did n)) as [Hd|Hd]; cbn; [done|]. intros [= <-].
      split; [destruct (decide (ct_version t = ct_version n)); [tauto|lia]|].
      by exists n.
    + intros [Hlt (k & Hk & Hck & <- & Hkmax)]. rewrite bool_decide_eq_false_2 by (rewrite Heq; lia). cbn. f_equal.
      apply (active_rows_agree _ _ _ _ Hok Hn Hk Hcn Hck). specialize (Hmax _ Hk Hck). specialize (Hkmax _ Hn Hcn). lia.
Qed.

Lemma page_elem {A} (key : A → Z) p l shown x : page key p l = Ok shown → x ∈ shown → x ∈ l.
Proof.
  unfold page. intros H Hx. repeat case_match; simplify_eq; [|done].
  apply subseteq_take, subseteq_drop in Hx. by apply elem_of_order_by in Hx.
Qed.

(** The listing flags exactly the outdated versions.  Whatever order the
    scans meet the rows in, a listed row of a reachable store is a row of the
    table; it is outdated iff it is registered or published and a newer version
    of its lineage is too, and then it names the newest one. *)
Theorem listing_names_the_newest `{SRV : TemplateServices} c listed ranked p shown :
  reachable c → listed ≡ₚ template_rows (store c) → ranked ≡ₚ template_rows (store c) →
  ReadAllMetaData listed ranked p = Ok shown → Forall (row_shown (template_rows (store c))) shown.
Proof.
  intros Hc%active_ok_reachable Hl Hr Hs. apply Forall_forall. intros m Hm.
  eapply page_elem in Hm as (t & -> & Ht)%list_elem_of_fmap; [|exact Hs]. rewrite Hl in Ht. by apply metadata_shown.
Qed.

Lemma listing_names_the_newest_witness :
  let rows := template_rows (store (demo_run demo_steps)) in
  ∃ shown, ReadAllMetaData rows rows {| Offset := 0; Limit := 0 |} = Ok shown ∧ Forall (row_shown rows) shown ∧
    ("t1", Some true, Some "t2") ∈ (λ m, (ct_did (md_columns m), md_Outdated m, md_LatestDID m)) <$> shown.
Proof.
  intros rows. eexists. split; [reflexivity|]. split.
  - apply (listing_names_the_newest (SRV := demo_services) (demo_run demo_steps) rows rows {| Offset := 0; Limit := 0 |});
      [by eexists|done..].
  - apply (proj1 (bool_decide_eq_true _)). by vm_compute.
Defined.

(** ** What a search by name finds *)
Definition wildcard (c : ascii) : bool := bool_decide (c ∈ ["%"%char; "_"%char; "\"%char]).

Lemma like_literal c rest s : wildcard c = false →
  like (c :: rest) s = true ↔ ∃ t, s = c :: t ∧ like rest t = true.
Proof.
  unfold wildcard. rewrite bool_decide_eq_false. intros Hc. cbn [like].
  rewrite !bool_decide_eq_false_2 by (intros ->; set_solver). destruct s as [|d s]; [naive_solver|].
  cbn [orb]. rewrite andb_true_iff, bool_decide_eq_true. naive_solver.
Qed.

Lemma like_any rest s : like ("%"%char :: rest) s = true ↔ ∃ a b, s = a ++ b ∧ like rest b = true.
Proof.
  cbn [like]. rewrite bool_decide_eq_true_2 by done. induction s as [|c s IH].
  - rewrite orb_false_r. split; [intros H; by exists [], []|]. by intros ([|] & [|] & [=] & H).
  - rewrite orb_true_iff, IH. split.
    + intros [H | (a & b & -> & H)]; [by exists [], (c :: s)|by exists (c :: a), b].
    + intros ([|d a] & b & E & H); [left; by simplify_eq/=|right; simplify_eq/=; by exists a, b].
Qed.

(** Without wildcards of its own, a text is found where it occurs. *)
Lemma like_contains n s : forallb (λ c, negb (wildcard c)) n = true →
  like ("%"%char :: n ++ ["%"%char]) s = true ↔ ∃ a b, s = a ++ n ++ b.
Proof.
  intros Hn. rewrite like_any.
  assert (Hpre : ∀ t, like (n ++ ["%"%char]) t = true ↔ ∃ b, t = n ++ b).
  { induction n as [|c n IH]; intros t; cbn [app].
    - rewrite like_any. split; [intros (a & b & -> & _); by eexists|]. intros [b ->]. exists b, []. by rewrite app_nil_r.
    - cbn in Hn. apply andb_true_iff in Hn as [Hc Hn]. rewrite like_literal by (by apply negb_true_iff).
      setoid_rewrite (IH Hn). naive_solver. }
  setoid_rewrite Hpre. naive_solver.
Qed.

(** A wildcard typed into the search box is one. *)
Example search_by_name :
  (ilike "%hosting%" <$> ["Master Hosting v2"; "SaaS"], ilike "%h_st%" <$> ["hast"; "SaaS"]) = ([true; false], [true; false]).
Proof. by vm_compute. Qed.
