(* ===== verification/DidDocument.v ===== *)
(** Peer identity: the DID document of internal/base/identity/did.go.

    What a document publishes a key for, how a did:web identifier resolves to one,
    and the two layers of peer trust the file implements: the challenge-response
    and the certificate chain, both for one key.  Members of a decoded object are
    matched by their exact name.  The X.509 library, the curve and the network are
    operations of [IdentityServices]. *)
From S2P Require Import Prelude Json Sha256 DidWeb Envelope ArtifactStore.
Import GoStrings.

Class IdentityServices := {
  (** crypto/ecdsa: the digest and the signature it is checked with. *)
  VerifyASN1 : point → bytes → bytes → bool;
  (** crypto/x509. *)
  Certificate : Type;
  CertPool : Type;
  ParseCertificate : bytes → result Certificate;
  (** The certificate's key, when it is an ECDSA key. *)
  CertificateKey : Certificate → option point;
  VerifyHostname : Certificate → string → result ();
  (** [leaf.Verify]: leaf, intermediates, roots. *)
  VerifyCertificate : Certificate → list Certificate → CertPool → result ();
  Extensions : Certificate → list (list Z * bytes);
  (** [asn1.Unmarshal] of the QCStatements: the statement ids. *)
  ParseStatements : bytes → result (list (list Z));
  (** [pem.Decode]. *)
  DecodePEM : bytes → option bytes;
  (** The text syntax of encoding/json. *)
  DecodeJSON : bytes → result json;
  (** [url.Parse(raw)], its [Host]. *)
  URLHost : string → result string;
  (** An HTTP GET that follows no redirect, by the client that may dial loopback
      addresses or by the one that may not: the status and the body. *)
  HTTPGet : bool → string → result (Z * bytes);
  (** DCS_DIDWEB_INSECURE_HOSTS. *)
  InsecureHosts : string
}.

(** A [crypto.Signer] over a P-256 key: its public key, and the signature of a
    digest. *)
Record Signer := { s_Public : option point; s_Sign : bytes → result bytes }.

Record PublicKeyJWK := { k_Kty : string; k_Crv : string; k_X : string; k_Y : string; k_X5C : list string }.
Record Method := { m_ID : string; m_JWK : PublicKeyJWK }.
Definition no_jwk : PublicKeyJWK := {| k_Kty := ""; k_Crv := ""; k_X := ""; k_Y := ""; k_X5C := [] |}.

Inductive Purpose := PurposeAuthentication | PurposeAssertion | PurposeKeyAgreement.
#[export] Instance Purpose_eq_dec : EqDecision Purpose.
Proof. solve_decision. Defined.

Record DIDDocument := {
  VerificationMethod : list Method;
  Authentication : list json;
  AssertionMethod : list json;
  KeyAgreement : list json;
  didContent : gmap string json;
  signer : option Signer;
  signingMethod : option Method;
  publicKey : option point
}.

(** ** Decoding *)
Definition string_item (j : json) : result string :=
  match j with
  | JStr s => Ok s
  | JNull => Ok EmptyString
  | _ => Err (Errorf "json: cannot unmarshal into string")
  end.

Fixpoint decode_all {A} (f : json → result A) (l : list json) : result (list A) :=
  match l with
  | [] => Ok []
  | j :: l' => a ← f j; r ← decode_all f l'; Ok (a :: r)
  end.

(** [X5C.UnmarshalJSON]. *)
Definition UnmarshalX5C (j : option json) : result (list string) :=
  match j with
  | None | Some JNull => Ok []
  | Some (JStr s) => Ok [s]
  | Some (JArr l) =>
      match decode_all string_item l with
      | Ok r => Ok r
      | Err _ => Err (Errorf "x5c: expected string or array of strings")
      end
  | Some _ => Err (Errorf "x5c: expected string or array of strings")
  end.

Definition UnmarshalJWK (j : option json) : result PublicKeyJWK :=
  match j with
  | None | Some JNull => Ok no_jwk
  | Some (JObj m) =>
      kty ← string_field m "kty"; crv ← string_field m "crv";
      x ← string_field m "x"; y ← string_field m "y"; x5c ← UnmarshalX5C (m !! "x5c");
      Ok {| k_Kty := kty; k_Crv := crv; k_X := x; k_Y := y; k_X5C := x5c |}
  | Some _ => Err (Errorf "json: cannot unmarshal into PublicKeyJWK")
  end.

Definition UnmarshalMethod (j : json) : result Method :=
  match j with
  | JNull => Ok {| m_ID := ""; m_JWK := no_jwk |}
  | JObj m =>
      id ← string_field m "id"; jwk ← UnmarshalJWK (m !! "publicKeyJwk");
      Ok {| m_ID := id; m_JWK := jwk |}
  | _ => Err (Errorf "json: cannot unmarshal into VerificationMethod")
  end.

Definition list_field {A} (f : json → result A) (m : gmap string json) (key : string) : result (list A) :=
  match m !! key with
  | None | Some JNull => Ok []
  | Some (JArr l) => decode_all f l
  | Some _ => Err (Errorf "json: cannot unmarshal into slice")
  end.

(** The two decodings of a document: into the struct and into its content. *)
Definition UnmarshalDocument (j : json) : result DIDDocument :=
  m ← wrap_err "decoding did.json" (Unmarshal_map j);
  methods ← wrap_err "decoding did.json" (list_field UnmarshalMethod m "verificationMethod");
  authentication ← wrap_err "decoding did.json" (list_field Ok m "authentication");
  assertion ← wrap_err "decoding did.json" (list_field Ok m "assertionMethod");
  agreement ← wrap_err "decoding did.json" (list_field Ok m "keyAgreement");
  Ok {| VerificationMethod := methods; Authentication := authentication; AssertionMethod := assertion;
        KeyAgreement := agreement; didContent := m; signer := None; signingMethod := None; publicKey := None |}.

(** ** Keys and what they are published for *)
Definition JWK_ECPublicKey (jwk : PublicKeyJWK) : result point :=
  if negb (bool_decide (k_Crv jwk = EmptyString)) && negb (bool_decide (k_Crv jwk = "P-256"))
  then Err (Errorf "unsupported EC curve (only P-256 is supported)") else
  xBytes ← wrap_err "decoding x" (RawURL_Decode (k_X jwk));
  yBytes ← wrap_err "decoding y" (RawURL_Decode (k_Y jwk));
  Ok (be_value xBytes, be_value yBytes).

Definition ECPublicKey (m : Method) : result point := JWK_ECPublicKey (m_JWK m).

Definition DocumentID (d : DIDDocument) : result string :=
  match didContent d !! "id" with
  | None => Err (Errorf "did document does not contain id")
  | Some (JStr id) => Ok id
  | Some _ => Err (Errorf "did document id is not a string")
  end.

(** The part of a method id before its fragment ([strings.Cut(id, "#")]). *)
Definition before_fragment (id : string) : string := default EmptyString (head (split_on "#" id)).

Definition ResolveMethodID (docID methodID : string) : result string :=
  let id := TrimSpace methodID in
  if bool_decide (id = EmptyString) then Err (Errorf "no verification method named") else
  let id := if HasPrefix id "#" then String.append docID id else id in
  if bool_decide (before_fragment id = docID) then Ok id
  else Err (Errorf "verification method does not belong to the document").

Definition with_id (id : string) (m : Method) : Method := {| m_ID := id; m_JWK := m_JWK m |}.

(** The method published under an absolute id; the first one wins. *)
Fixpoint published_as (docID id : string) (methods : list Method) : option Method :=
  match methods with
  | [] => None
  | m :: rest =>
      match ResolveMethodID docID (m_ID m) with
      | Ok published => if bool_decide (published = id) then Some (with_id published m)
                        else published_as docID id rest
      | Err _ => published_as docID id rest
      end
  end.

(** One entry of a relationship: the method it publishes, if any. *)
Definition entry_method (d : DIDDocument) (docID : string) (entry : json) : option Method :=
  embedded ← match entry with
             | JStr id => Some {| m_ID := id; m_JWK := no_jwk |}
             | JObj _ => match UnmarshalMethod entry with Ok m => Some m | Err _ => None end
             | _ => None
             end;
  match ResolveMethodID docID (m_ID embedded) with
  | Err _ => None
  | Ok id =>
      if negb (bool_decide (k_X (m_JWK embedded) = EmptyString)) then Some (with_id id embedded)
      else published_as docID id (VerificationMethod d)
  end.

Definition relationship (d : DIDDocument) (purpose : Purpose) : list json :=
  match purpose with
  | PurposeAuthentication => Authentication d
  | PurposeAssertion => AssertionMethod d
  | PurposeKeyAgreement => KeyAgreement d
  end.

Definition methodsFor (d : DIDDocument) (purpose : Purpose) : result (list Method) :=
  docID ← DocumentID d;
  Ok (omap (entry_method d docID) (relationship d purpose)).

Definition MethodFor (d : DIDDocument) (purpose : Purpose) (methodID : string) : result Method :=
  docID ← DocumentID d;
  id ← ResolveMethodID docID methodID;
  methods ← methodsFor d purpose;
  match List.find (λ m, bool_decide (m_ID m = id)) methods with
  | Some m => Ok m
  | None => Err (Errorf "did document does not publish the method for the purpose")
  end.

(** A nil document is [None]. *)
Definition AssertionKey (d : option DIDDocument) (verificationMethodID : string) : result point :=
  match d with
  | None => Err (Errorf "no did document to resolve the proof's verification method in")
  | Some d =>
      if bool_decide (TrimSpace verificationMethodID = EmptyString)
      then Err (Errorf "the proof names no verification method") else
      method ← MethodFor d PurposeAssertion verificationMethodID;
      ECPublicKey method
  end.

Definition holds_key (pub : point) (m : Method) : bool :=
  match ECPublicKey m with Ok published => bool_decide (published = pub) | Err _ => false end.

Definition PublishesKeyFor (d : DIDDocument) (purpose : Purpose) (pub : option point) : bool :=
  match pub, methodsFor d purpose with
  | Some pub, Ok methods => existsb (holds_key pub) methods
  | _, _ => false
  end.

Definition methodHoldingKey (d : DIDDocument) (pub : point) : result Method :=
  authentication ← methodsFor d PurposeAuthentication;
  assertion ← methodsFor d PurposeAssertion;
  match List.find (holds_key pub) (authentication ++ assertion) with
  | Some m => Ok m
  | None => Err (Errorf "did document publishes no method holding the signer's public key")
  end.

Definition OwnKeyAgreementMethod (d : DIDDocument) (label : string) : result Method :=
  methods ← methodsFor d PurposeKeyAgreement;
  match List.find (λ m, HasSuffix (m_ID m) (String "#" label)) methods with
  | Some m => Ok m
  | None => Err (Errorf "did document publishes no keyAgreement method for the token key")
  end.

Definition PeerKeyAgreementMethod (d : DIDDocument) : result Method :=
  methods ← methodsFor d PurposeKeyAgreement;
  match methods with
  | m :: _ => Ok m
  | [] => Err (Errorf "did document publishes no keyAgreement method to wrap a key to")
  end.

Definition DIDWebToHostname (did : string) : result string := p ← DIDWebPath did; Ok p.1.

Definition GetHostname (d : DIDDocument) : result string := id ← DocumentID d; DIDWebToHostname id.

Definition Sign (d : DIDDocument) (content : bytes) : result bytes :=
  match signer d with
  | None => Err (Errorf "signer not set")
  | Some s => s_Sign s (Sum256 content)
  end.

(** ** Resolution *)
Definition DIDWebDocumentPath (segments : list string) : string :=
  match segments with
  | [] => "/.well-known/did.json"
  | _ => String.append "/" (String.append (String.concat "/" segments) "/did.json")
  end.

Definition DIDWebBaseURL (scheme host : string) (segments : list string) : string :=
  let base := String.append scheme (String.append "://" host) in
  match segments with
  | [] => base
  | _ => String.append base (String.append "/" (String.concat "/" segments))
  end.

(** [strconv.Atoi] accepts the text: an optional sign and digits, within 64 bits. *)
Definition is_int (s : string) : bool :=
  let '(most, digits) := match String.list_ascii_of_string s with
                         | "-"%char :: ds => (2 ^ 63, ds)
                         | "+"%char :: ds => (2 ^ 63 - 1, ds)
                         | ds => (2 ^ 63 - 1, ds)
                         end in
  negb (bool_decide (digits = [])) && forallb is_digit digits &&
  (foldl (λ acc c, acc * 10 + (Z.of_nat (Ascii.nat_of_ascii c) - 48)) 0 digits <=? most).

(** One decimal part of a dotted address: no leading zero, at most 255. *)
Definition octet (s : string) : option Z :=
  match String.list_ascii_of_string s with
  | [] => None
  | ds =>
      let n := foldl (λ acc c, acc * 10 + (Z.of_nat (Ascii.nat_of_ascii c) - 48)) 0 ds in
      if forallb is_digit ds && (length ds <=? 3)%nat && (n <=? 255) &&
         ((length ds =? 1)%nat || negb (bool_decide (head ds = Some "0"%char)))
      then Some n else None
  end.

(** [net.ParseIP(h).IsLoopback()].  An IPv6 literal holds a colon, and an authority
    that [didWebAuthority] lets through has none left once its port is off. *)
Definition is_loopback_ip (h : string) : bool :=
  match omap octet (split_on "." h), split_on "." h with
  | [a; _; _; _], [_; _; _; _] => a =? 127
  | _, _ => false
  end.

(** The text after the last colon and the text before it. *)
Definition last_colon (h : string) : option (string * string) :=
  match reverse (split_on ":" h) with
  | port :: (_ :: _) as front => Some (String.concat ":" (reverse front), port)
  | _ => None
  end.

Definition isLoopbackHost (host : string) : bool :=
  let h := ToLower (TrimSpace host) in
  let h := match last_colon h with
           | Some (name, port) => if is_int port then name else h
           | None => h
           end in
  bool_decide (h = "localhost") || HasSuffix h ".localhost" || is_loopback_ip h.

(** [net.SplitHostPort] of an authority without brackets: its host. *)
Definition without_port (hostname : string) : string :=
  match split_on ":" hostname with [h; _] => h | _ => hostname end.

(** eIDAS / ETSI EN 319 412-5. *)
Definition oidQCStatements : list Z := [1; 3; 6; 1; 5; 5; 7; 1; 3].
Definition oidQcCompliance : list Z := [0; 4; 0; 1862; 1; 1].
Definition oidQcSSCD : list Z := [0; 4; 0; 1862; 1; 4].

Section identity.
Context `{IdentityServices}.

Definition isInsecureDIDWebHost (host : string) : bool :=
  let host := ToLower (TrimSpace host) in
  negb (bool_decide (host = EmptyString)) &&
  existsb (λ allowed, let allowed := ToLower (TrimSpace allowed) in
             negb (bool_decide (allowed = EmptyString)) && bool_decide (allowed = host))
    (split_on "," InsecureHosts).

Definition DIDWebSchemes (host : string) : list string :=
  if isLoopbackHost host || isInsecureDIDWebHost host then ["https"; "http"] else ["https"].

(** The client may dial loopback addresses. *)
Definition fetchClientForURL (rawURL : string) : result bool :=
  host ← wrap_err "parsing url" (URLHost rawURL);
  Ok (isLoopbackHost host || isInsecureDIDWebHost host).

Definition fetch (rawURL : string) : result bytes :=
  loopback ← fetchClientForURL rawURL;
  '(status, body) ← HTTPGet loopback rawURL;
  if negb (status =? 200) then Err (Errorf "unexpected status") else Ok body.

Definition fetchCertificateDER (certURL : string) : result bytes :=
  body ← fetch certURL;
  Ok (default body (DecodePEM body)).

Definition fetchDIDDocumentFromURL (docURL : string) : result DIDDocument :=
  body ← fetch docURL;
  j ← wrap_err "decoding did.json" (DecodeJSON body);
  doc ← UnmarshalDocument j;
  if bool_decide (VerificationMethod doc = []) then Err (Errorf "no verification methods in DID document")
  else Ok doc.

(** The first scheme that answers; else the error of the last. *)
Fixpoint first_document (url : string → string) (schemes : list string) (lastErr : error) : result DIDDocument :=
  match schemes with
  | [] => Err (Wrapf "fetching did.json failed" lastErr)
  | scheme :: rest =>
      match fetchDIDDocumentFromURL (url scheme) with
      | Ok doc => Ok doc
      | Err err => first_document url rest err
      end
  end.

Definition document_url (host : string) (segments : list string) (scheme : string) : string :=
  String.append (DIDWebBaseURL scheme host []) (DIDWebDocumentPath segments).

Definition FetchDIDDocument (did : string) : result DIDDocument :=
  '(host, segments) ← DIDWebPath did;
  first_document (document_url host segments) (DIDWebSchemes host) (Errorf "no scheme").

(** ** The certificate of a key *)
Definition chain_entry (entry : string) : result Certificate :=
  der ← wrap_err "x5c"
    (if HasPrefix entry "http://" || HasPrefix entry "https://"
     then fetchCertificateDER entry else Std_Decode entry);
  wrap_err "parsing x5c" (ParseCertificate der).

Fixpoint chain_entries (l : list string) : result (list Certificate) :=
  match l with
  | [] => Ok []
  | entry :: l' => cert ← chain_entry entry; certs ← chain_entries l'; Ok (cert :: certs)
  end.

Definition certificateChain (method : Method) : result (list Certificate) :=
  match k_X5C (m_JWK method) with
  | [] => Err (Errorf "no x5c entry in publicKeyJwk")
  | x5c => chain_entries x5c
  end.

Definition verifyChain (certs : list Certificate) (roots : CertPool) : result () :=
  match certs with
  | [] => Err (Errorf "empty certificate chain")
  | leaf :: intermediates =>
      wrap_err "certificate chain verification failed" (VerifyCertificate leaf intermediates roots)
  end.

(** Whether the certificate is qualified, and whether its key is in a QSCD. *)
Definition parseQCStatements (cert : Certificate) : result (bool * bool) :=
  match List.find (λ ext, bool_decide (ext.1 = oidQCStatements)) (Extensions cert) with
  | None => Ok (false, false)
  | Some ext =>
      statements ← wrap_err "parsing QCStatements" (ParseStatements ext.2);
      Ok (bool_decide (oidQcCompliance ∈ statements), bool_decide (oidQcSSCD ∈ statements))
  end.

(** [trustPool] is the populated pool, when there is one. *)
Definition verifyCertificateOf (d : DIDDocument) (method : Method) (trustPool : option CertPool) : result () :=
  certs ← wrap_err "verification method" (certificateChain method);
  _ ← match trustPool with Some roots => verifyChain certs roots | None => Ok () end;
  match certs with
  | [] => Err (Panic "index out of range")
  | cert :: _ =>
      hostname ← GetHostname d;
      _ ← wrap_err "certificate does not match hostname" (VerifyHostname cert (without_port hostname));
      match CertificateKey cert with
      | None => Err (Errorf "certificate does not contain an ECDSA public key")
      | Some certPub =>
          jwkPub ← ECPublicKey method;
          if negb (bool_decide (certPub = jwkPub))
          then Err (Errorf "certificate public key does not match JWK public key") else
          match trustPool with
          | None => Ok ()
          | Some _ =>
              statements ← parseQCStatements cert;
              if (statements.1 : bool) then Ok () else Err (Errorf "certificate is not an eIDAS qualified certificate")
          end
      end
  end.

Definition VerifyEIDASCertificate (d : DIDDocument) (trustPool : option CertPool) : result () :=
  match signingMethod d with
  | None => Err (Errorf "did document is not bound to a signer")
  | Some m => verifyCertificateOf d m trustPool
  end.

(** ** The challenge *)
Definition answers (content signature : bytes) (m : Method) : bool :=
  match ECPublicKey m with Ok pub => VerifyASN1 pub (Sum256 content) signature | Err _ => false end.

Definition VerifyPeerChallenge (d : DIDDocument) (trustPool : option CertPool) (content signature : bytes) : result () :=
  authentication ← methodsFor d PurposeAuthentication;
  assertion ← methodsFor d PurposeAssertion;
  let candidates := authentication ++ assertion in
  if bool_decide (candidates = []) then Err (Errorf "did document publishes no method that may authenticate its subject")
  else match List.find (answers content signature) candidates with
       | Some m => verifyCertificateOf d m trustPool
       | None => Err (Errorf "challenge response verifies against none of the published keys")
       end.

(** ** This instance's own document *)
Definition self_test : bytes := of_string "key pair self test".

(** [content] is the file. *)
Definition NewDIDDocument (content : result bytes) (sgn : option Signer) : result DIDDocument :=
  didJSON ← content;
  j ← wrap_err "decoding did.json" (DecodeJSON didJSON);
  doc ← UnmarshalDocument j;
  if bool_decide (VerificationMethod doc = []) then Err (Errorf "no verification methods in DID document") else
  match sgn with
  | None => Err (Errorf "did signer is required")
  | Some s =>
      match s_Public s with
      | None => Err (Errorf "did signer public key is not ECDSA")
      | Some signerPub =>
          method ← methodHoldingKey doc signerPub;
          pubKey ← wrap_err "extracting public key from DID document" (ECPublicKey method);
          signature ← wrap_err "key pair self test (sign)" (s_Sign s (Sum256 self_test));
          if negb (VerifyASN1 pubKey (Sum256 self_test) signature)
          then Err (Errorf "key pair self test (verify) failed") else
          Ok {| VerificationMethod := VerificationMethod doc; Authentication := Authentication doc;
                AssertionMethod := AssertionMethod doc; KeyAgreement := KeyAgreement doc;
                didContent := didContent doc; signer := Some s; signingMethod := Some method;
                publicKey := Some pubKey |}
      end
  end.

End identity.
