(* ===== verification/PeerIdentity.v ===== *)
(** Theorems on peer identity: which challenges a DID document answers, and which
    identifiers resolve to one document. *)
From S2P Require Import Prelude Json Sha256 DidWeb Envelope ArtifactStore Identity DidDocument.
Import GoStrings.

(** ** What a resolved target is *)

(** No character of the text is a slash. *)
Definition slash_free (s : string) : Prop := Contains s "/" = false.

Lemma slash_free_chars s : slash_free s ↔ "/"%char ∉ String.list_ascii_of_string s.
Proof.
  unfold slash_free. induction s as [|c s IH].
  - split; [intros _ []%elem_of_nil|done].
  - rewrite contains_cons, IH. change (String.list_ascii_of_string (String c s)) with (c :: String.list_ascii_of_string s).
    rewrite not_elem_of_cons. naive_solver.
Qed.

Lemma split_chars sep s c : c ∈ String.list_ascii_of_string s →
  c = sep ∨ ∃ w, w ∈ split_on sep s ∧ c ∈ String.list_ascii_of_string w.
Proof.
  induction s as [|d s IH]; [intros []%elem_of_nil|]. simpl.
  intros [->|Hc]%elem_of_cons.
  - case_bool_decide as E; [by left|]. right. destruct (split_on sep s) as [|w ws].
    + exists (String d EmptyString). split; apply list_elem_of_here.
    + exists (String d w). split; apply list_elem_of_here.
  - destruct (IH Hc) as [->|(w & Hw & Hcw)]; [by left|right]. case_bool_decide as E.
    + exists w. split; [by apply list_elem_of_further|done].
    + destruct (split_on sep s) as [|v vs]; [by apply elem_of_nil in Hw|].
      apply elem_of_cons in Hw as [->|Hw].
      * exists (String d v). split; [apply list_elem_of_here|by apply list_elem_of_further].
      * exists w. split; [by apply list_elem_of_further|done].
Qed.

Lemma host_char_not_slash l : forallb is_host_char l = true → "/"%char ∉ l.
Proof. intros H Hin. rewrite List.forallb_forall in H. apply list_elem_of_In, H in Hin. by vm_compute in Hin. Qed.

Lemma digit_not_slash l : forallb is_digit l = true → "/"%char ∉ l.
Proof. intros H Hin. rewrite List.forallb_forall in H. apply list_elem_of_In, H in Hin. by vm_compute in Hin. Qed.

Lemma host_slash_free host : match_didWebHost host = true → slash_free host.
Proof.
  intros Hm. apply slash_free_chars. intros [?|(w & Hw & Hc)]%(split_chars ":"); [done|].
  unfold match_didWebHost in Hm. destruct (split_on ":" host) as [|name [|port [|]]]; try done.
  - apply andb_true_iff in Hm as [_ Hm]. apply list_elem_of_singleton in Hw as ->.
    by apply host_char_not_slash in Hm.
  - rewrite !andb_true_iff in Hm. destruct Hm as ((((_ & Hn) & _) & _) & Hp).
    apply elem_of_cons in Hw as [->|Hw%list_elem_of_singleton].
    + by apply host_char_not_slash in Hn.
    + subst. by apply digit_not_slash in Hp.
Qed.

Lemma separator_slash_free s : has_separator s = false → slash_free s.
Proof.
  intros Hs. apply slash_free_chars. intros Hin. unfold has_separator in Hs.
  rewrite existsb_false_iff in Hs. apply Hs, bool_decide_eq_false in Hin.
  by apply Hin, list_elem_of_here.
Qed.

Lemma segments_slash_free raws segments : decode_segments raws = Ok segments →
  Forall (λ s, slash_free s ∧ s ≠ EmptyString) segments.
Proof.
  revert segments. induction raws as [|raw raws IH]; simpl; intros segments HR.
  - by injection HR as <-.
  - unfold mbind, result_bind in HR. destruct (decode_segment raw) as [s|] eqn:Es; [|done].
    destruct (decode_segments raws) as [ss|] eqn:Ess; [|done]. injection HR as <-.
    constructor; [|by apply IH]. unfold decode_segment, mbind, result_bind in Es.
    destruct (PathUnescape raw) as [t|]; [|done]. case_bool_decide as Ht; [done|].
    destruct (has_separator t) eqn:Hsep; [done|]. cbn in Es. case_match; [done|]. injection Es as <-.
    split; [by apply separator_slash_free|done].
Qed.

Lemma target_slash_free did host segments : DIDWebPath did = Ok (host, segments) →
  slash_free host ∧ Forall (λ s, slash_free s ∧ s ≠ EmptyString) segments.
Proof.
  unfold DIDWebPath. destruct (cut_prefix _ _) as [rest|]; [|done].
  destruct (split_on ":" rest) as [|authority raws]; [done|]. unfold mbind, result_bind.
  destruct (didWebAuthority authority) as [h|] eqn:Eh; [|done].
  destruct (decode_segments raws) as [ss|] eqn:Es; [|done]. intros HE. injection HE as -> ->.
  split; [|by eapply segments_slash_free].
  unfold didWebAuthority, mbind, result_bind in Eh. case_bool_decide; [done|].
  destruct (decode_authority authority); [|done]. destruct (match_didWebHost _) eqn:Em; [|done].
  injection Eh as <-. by apply host_slash_free.
Qed.

(** Joining slash-free segments loses nothing. *)
Lemma split_concat segments : segments ≠ [] → Forall slash_free segments →
  split_on "/" (String.concat "/" segments) = segments.
Proof.
  intros Hne. induction segments as [|s segments IH]; [done|]. intros [Hs Hss]%Forall_cons.
  destruct segments as [|t segments]; [by apply split_plain|].
  change (String.concat "/" (s :: t :: segments)) with
    (String.append s (String "/" (String.concat "/" (t :: segments)))).
  rewrite split_app, IH, (split_plain s) by done. done.
Qed.

Lemma slash_free_segments segments : Forall (λ s, slash_free s ∧ s ≠ EmptyString) segments → Forall slash_free segments.
Proof. intros H. eapply Forall_impl; [exact H|]. by intros s [? _]. Qed.

Lemma split_origin host rest : slash_free host →
  split_on "/" (String.append "https" (String.append "://" (String.append host (String "/" rest)))) =
  "https:" :: EmptyString :: host :: split_on "/" rest.
Proof.
  intros Hh. change (split_on "/" (String.append "https:/" (String "/" (String.append host (String "/" rest)))) = 
    "https:" :: EmptyString :: host :: split_on "/" rest).
  by rewrite split_app, split_app, (split_plain host).
Qed.

Lemma split_base host segments : slash_free host → Forall slash_free segments →
  split_on "/" (DIDWebBaseURL "https" host segments) = "https:" :: EmptyString :: host :: segments.
Proof.
  intros Hh Hs. destruct segments as [|s segments].
  - change (split_on "/" (String.append "https:/" (String "/" host)) = ["https:"; EmptyString; host]).
    by rewrite split_app, (split_plain host).
  - unfold DIDWebBaseURL. rewrite <-!append_assoc.
    change (String.append "/" ?x) with (String "/" x). rewrite split_origin by done.
    by rewrite split_concat.
Qed.

(** The path a document is served under; the bare authority uses [.well-known]. *)
Definition located (segments : list string) : list string :=
  match segments with [] => [".well-known"] | _ => segments end.

Lemma split_document_url `{IdentityServices} host segments : slash_free host → Forall slash_free segments →
  split_on "/" (document_url host segments "https") = "https:" :: EmptyString :: host :: located segments ++ ["did.json"].
Proof.
  intros Hh Hs. unfold document_url, DIDWebBaseURL. rewrite <-!append_assoc. destruct segments as [|s segments].
  - change (DIDWebDocumentPath []) with (String "/" ".well-known/did.json"). by rewrite split_origin.
  - unfold DIDWebDocumentPath. change (String.append "/" ?x) with (String "/" x). rewrite split_origin by done.
    change "/did.json" with (String "/" "did.json"). by rewrite split_app, split_concat.
Qed.

Lemma same_peer_resolved (a b hostA hostB : string) (pathA pathB : list string) :
  DIDWebPath a = Ok (hostA, pathA) → DIDWebPath b = Ok (hostB, pathB) →
  (same_peer a b ↔ hostA = hostB ∧ pathA = pathB).
Proof.
  intros Ha Hb. rewrite same_peer_iff, Ha, Hb. split.
  - intros [->|(p & Ep & Eq)]; [rewrite Ha in Hb|]; by simplify_eq.
  - intros [-> ->]. right. eauto.
Qed.

Lemma same_base_iff (a b hostA hostB : string) (pathA pathB : list string) :
  DIDWebPath a = Ok (hostA, pathA) → DIDWebPath b = Ok (hostB, pathB) →
  (DIDWebBaseURL "https" hostA pathA = DIDWebBaseURL "https" hostB pathB ↔ same_peer a b).
Proof.
  intros Ha Hb. rewrite (same_peer_resolved a b) by done.
  destruct (target_slash_free _ _ _ Ha) as [HhA HsA%slash_free_segments].
  destruct (target_slash_free _ _ _ Hb) as [HhB HsB%slash_free_segments].
  split; [|by intros [-> ->]]. intros E%(f_equal (split_on "/")). rewrite !split_base in E by done. by simplify_eq.
Qed.

(** Two did:web identifiers that resolve have one base URL exactly when the
    same-peer rule says they are one peer, so an endpoint of one peer is never an
    endpoint of another on the same host.  Their documents have one URL exactly
    when their hosts agree and their paths do, where the bare authority counts as
    the path [.well-known]: only the identifiers [did:web:h] and
    [did:web:h:.well-known] are two peers that share a document. *)
Theorem document_urls_tell_peers_apart `{IdentityServices} (a b hostA hostB : string) (pathA pathB : list string) :
  DIDWebPath a = Ok (hostA, pathA) → DIDWebPath b = Ok (hostB, pathB) →
  (DIDWebBaseURL "https" hostA pathA = DIDWebBaseURL "https" hostB pathB ↔ same_peer a b) ∧
  (document_url hostA pathA "https" = document_url hostB pathB "https" ↔
     same_peer a b ∨ hostA = hostB ∧ (pathA = [] ∧ pathB = [".well-known"] ∨ pathA = [".well-known"] ∧ pathB = [])).
Proof.
  intros Ha Hb. split; [by apply same_base_iff|]. rewrite (same_peer_resolved a b) by done.
  destruct (target_slash_free _ _ _ Ha) as [HhA HsA%slash_free_segments].
  destruct (target_slash_free _ _ _ Hb) as [HhB HsB%slash_free_segments]. split.
  - intros E%(f_equal (split_on "/")). rewrite !split_document_url in E by done.
    injection E as -> E. apply app_inj_tail in E as [E _]. unfold located in E.
    destruct pathA, pathB; simplify_eq; auto.
  - intros [[-> ->]|(-> & [[-> ->]|[-> ->]])]; reflexivity.
Qed.

(** ** What authenticates a peer *)
Section challenge.
Context `{IdentityServices}.

Definition qualified (cert : Certificate) : Prop := ∃ qscd, parseQCStatements cert = Ok (true, qscd).

(** The method's certificate speaks for the document's host and for the method's
    key, and is anchored and qualified when trusted roots are loaded. *)
Definition certified (d : DIDDocument) (pool : option CertPool) (m : Method) : Prop :=
  ∃ leaf intermediates hostname pub,
    certificateChain m = Ok (leaf :: intermediates) ∧
    GetHostname d = Ok hostname ∧ VerifyHostname leaf (without_port hostname) = Ok () ∧
    CertificateKey leaf = Some pub ∧ ECPublicKey m = Ok pub ∧
    ∀ roots, pool = Some roots → VerifyCertificate leaf intermediates roots = Ok () ∧ qualified leaf.

Lemma wrapped_Ok {A} msg (r : result A) a : wrap_err msg r = Ok a ↔ r = Ok a.
Proof. by destruct r. Qed.

Lemma chain_nonempty m : certificateChain m ≠ Ok [].
Proof.
  unfold certificateChain. destruct (k_X5C _) as [|e es]; [done|]. cbn. unfold mbind, result_bind.
  destruct (chain_entry e); [|done]. by destruct (chain_entries es).
Qed.

Lemma verifyCertificateOf_iff d m pool : verifyCertificateOf d m pool = Ok () ↔ certified d pool m.
Proof.
  unfold verifyCertificateOf, certified, mbind, result_bind. split.
  - destruct (certificateChain m) as [[|leaf rest]|] eqn:Ec; [by destruct (chain_nonempty m)| |done]. cbn [wrap_err].
    destruct (match pool with Some roots => _ | None => _ end) as [[]|] eqn:Ep; [|done].
    destruct (GetHostname d) as [host|]; [|done].
    destruct (VerifyHostname leaf _) as [[]|] eqn:Eh; [|done]. cbn [wrap_err].
    destruct (CertificateKey leaf) as [pub|] eqn:Ek; [|done].
    destruct (ECPublicKey m) as [pub'|]; [|done]. case_bool_decide as E; [|done]. subst pub'. cbn [negb].
    intros HR. exists leaf, rest, host, pub. split_and!; try done. intros roots ->.
    apply wrapped_Ok in Ep. split; [done|]. unfold qualified.
    destruct (parseQCStatements leaf) as [[[] q]|]; [by exists q|done..].
  - intros (leaf & rest & host & pub & -> & -> & Eh & Ek & Em & Hp). cbn [wrap_err]. rewrite Eh, Ek, Em. cbn [wrap_err].
    rewrite bool_decide_eq_true_2 by done. cbn [negb]. destruct pool as [roots|]; [|done].
    destruct (Hp roots eq_refl) as [Hv (q & ->)]. cbn [verifyChain]. by rewrite Hv.
Qed.

Lemma find_first {A} (p : A → bool) l a :
  List.find p l = Some a ↔ ∃ before after, l = before ++ a :: after ∧ Forall (λ b, p b = false) before ∧ p a = true.
Proof.
  split.
  - induction l as [|b l IH]; [done|]. cbn. destruct (p b) eqn:Eb.
    + intros [= ->]. by exists [], l.
    + intros (before & after & -> & Hb & Ha)%IH. exists (b :: before), after. by split_and!; [|constructor|].
  - intros (before & after & -> & Hb & Ha). induction Hb as [|b before Eb Hb IH]; cbn; [by rewrite Ha|by rewrite Eb].
Qed.

Lemma published_key d purpose methods m pub :
  methodsFor d purpose = Ok methods → m ∈ methods → ECPublicKey m = Ok pub → PublishesKeyFor d purpose (Some pub) = true.
Proof.
  intros Hm Hin Hp. unfold PublishesKeyFor. rewrite Hm. apply existsb_true_iff. exists m. split; [done|].
  unfold holds_key. rewrite Hp. by apply bool_decide_eq_true.
Qed.

(** C24: A peer's challenge is accepted exactly when the first method of the
    document's authentication and assertionMethod relationships whose key answers
    it has a certificate for that same key and for the host of the document's
    identifier, chained to the trusted roots and qualified when roots are loaded.
    So whoever authenticates holds a key the document publishes for one of those
    purposes and a certificate vouches for: a key published for key agreement
    alone authenticates nobody. *)
Theorem peer_challenge_is_exact (d : DIDDocument) (pool : option CertPool) (content signature : bytes) :
  (VerifyPeerChallenge d pool content signature = Ok () ↔
   ∃ authentication assertion before m after,
     methodsFor d PurposeAuthentication = Ok authentication ∧ methodsFor d PurposeAssertion = Ok assertion ∧
     authentication ++ assertion = before ++ m :: after ∧
     Forall (λ other, answers content signature other = false) before ∧
     answers content signature m = true ∧ certified d pool m) ∧
  (VerifyPeerChallenge d pool content signature = Ok () →
   ∃ purpose leaf pub, purpose ≠ PurposeKeyAgreement ∧ PublishesKeyFor d purpose (Some pub) = true ∧
     VerifyASN1 pub (Sum256 content) signature = true ∧ CertificateKey leaf = Some pub).
Proof.
  assert (Hiff : VerifyPeerChallenge d pool content signature = Ok () ↔
   ∃ authentication assertion before m after,
     methodsFor d PurposeAuthentication = Ok authentication ∧ methodsFor d PurposeAssertion = Ok assertion ∧
     authentication ++ assertion = before ++ m :: after ∧
     Forall (λ other, answers content signature other = false) before ∧
     answers content signature m = true ∧ certified d pool m).
  { unfold VerifyPeerChallenge, mbind, result_bind. split.
    - destruct (methodsFor d PurposeAuthentication) as [l1|]; [|done].
      destruct (methodsFor d PurposeAssertion) as [l2|]; [|done]. case_bool_decide; [done|].
      destruct (List.find _ _) as [m|] eqn:Ef; [|done]. intros Hc%verifyCertificateOf_iff.
      apply find_first in Ef as (before & after & E & Hb & Ha). by exists l1, l2, before, m, after.
    - intros (l1 & l2 & before & m & after & -> & -> & E & Hb & Ha & Hc).
      rewrite bool_decide_eq_false_2 by (rewrite E; by destruct before).
      rewrite (proj2 (find_first _ _ m)); [by apply verifyCertificateOf_iff|by exists before, after]. }
  split; [done|]. intros (l1 & l2 & before & m & after & H1 & H2 & E & _ & Ha & Hc)%Hiff.
  destruct Hc as (leaf & _ & _ & pub & _ & _ & _ & Hleaf & Hpub & _).
  assert (Hin : m ∈ l1 ++ l2) by (rewrite E; set_solver).
  unfold answers in Ha. rewrite Hpub in Ha. apply elem_of_app in Hin as [Hin|Hin].
  - exists PurposeAuthentication, leaf, pub. split_and!; try done. by eapply published_key.
  - exists PurposeAssertion, leaf, pub. split_and!; try done. by eapply published_key.
Qed.

(** A signer whose signatures verify under its own key and under no other. *)
Definition honest (s : Signer) : Prop := ∃ pub, s_Public s = Some pub ∧
  ∀ digest signature, s_Sign s digest = Ok signature →
    ∀ key, VerifyASN1 key digest signature = true ↔ key = pub.

(** The document as a peer resolves it. *)
Definition as_served (d : DIDDocument) : DIDDocument :=
  {| VerificationMethod := VerificationMethod d; Authentication := Authentication d;
     AssertionMethod := AssertionMethod d; KeyAgreement := KeyAgreement d; didContent := didContent d;
     signer := None; signingMethod := None; publicKey := None |}.

Lemma find_ext {A} (p q : A → bool) l : (∀ a, p a = q a) → List.find p l = List.find q l.
Proof. intros E. induction l as [|a l IH]; [done|]. cbn. by rewrite E, IH. Qed.

Lemma certify_served d m pool : verifyCertificateOf (as_served d) m pool = verifyCertificateOf d m pool.
Proof. done. Qed.

(** This instance's own document, once bound to an honest signer, is accepted
    by a peer exactly when its own start-up check accepts it: a challenge signed
    with it verifies, against the document the peer resolves, if and only if the
    certificate chain of the method the signer's key is published as validates
    under the peer's roots. *)
Theorem own_challenge_is_accepted (file : result bytes) (s : Signer) (d : DIDDocument)
    (pool : option CertPool) (content signature : bytes) :
  honest s → NewDIDDocument file (Some s) = Ok d → Sign d content = Ok signature →
  (VerifyPeerChallenge (as_served d) pool content signature = Ok () ↔ VerifyEIDASCertificate d pool = Ok ()).
Proof.
  intros (pub & Hpub & Hs). unfold NewDIDDocument, mbind, result_bind. destruct file as [f|]; [|done].
  destruct (wrap_err _ (DecodeJSON f)) as [j|]; [|done].
  destruct (UnmarshalDocument j) as [doc|] eqn:Ed; [|done]. case_bool_decide; [done|]. rewrite Hpub.
  destruct (methodHoldingKey doc pub) as [m|] eqn:Em; [|done].
  destruct (wrap_err _ (ECPublicKey m)) as [k|] eqn:Ek; [|done].
  destruct (wrap_err _ (s_Sign s _)) as [t|]; [|done]. case_match; [done|]. intros HE. injection HE as <-.
  unfold Sign. cbn [signer]. intros Hsign. unfold VerifyEIDASCertificate. cbn [signingMethod].
  unfold methodHoldingKey, mbind, result_bind in Em. unfold VerifyPeerChallenge, mbind, result_bind.
  change (methodsFor (as_served _) ?p) with (methodsFor doc p).
  destruct (methodsFor doc PurposeAuthentication) as [l1|]; [|done].
  destruct (methodsFor doc PurposeAssertion) as [l2|]; [|done].
  rewrite (find_ext (answers content signature) (holds_key pub)).
  2:{ intros a. unfold answers, holds_key. destruct (ECPublicKey a) as [key|]; [|done].
      apply eq_true_iff_eq. by rewrite bool_decide_eq_true, (Hs _ _ Hsign). }
  destruct (List.find (holds_key pub) (l1 ++ l2)) as [m'|] eqn:Ef; [|done]. injection Em as ->.
  rewrite bool_decide_eq_false_2; [done|]. by destruct (l1 ++ l2).
Qed.

End challenge.

(** ** A concrete instance *)

(** A certificate is its host's name length, its key, and whether it is qualified;
    a signature is the digest followed by the key; a served body is its URL. *)
Definition demo_identity (served : bytes → option json) : IdentityServices := {|
  VerifyASN1 := λ key digest signature, bool_decide (signature = digest ++ [key.1; key.2]);
  Certificate := bytes;
  CertPool := ();
  ParseCertificate := λ der, if bool_decide (length der = 4%nat) then Ok der else Err (Errorf "malformed certificate");
  CertificateKey := λ cert, match cert with [_; x; y; _] => Some (x, y) | _ => None end;
  VerifyHostname := λ cert host, match cert with
    | n :: _ => if n =? Z.of_nat (String.length host) then Ok () else Err (Errorf "host name mismatch")
    | [] => Err (Errorf "no certificate") end;
  VerifyCertificate := λ _ _ _, Ok ();
  Extensions := λ cert, match cert with [_; _; _; 1] => [(oidQCStatements, [1])] | _ => [] end;
  ParseStatements := λ _, Ok [oidQcCompliance];
  DecodePEM := λ _, None;
  DecodeJSON := λ body, match served body with Some j => Ok j | None => Err (Errorf "invalid character") end;
  URLHost := λ url, match split_on "/" url with _ :: _ :: host :: _ => Ok host | _ => Err (Errorf "parse") end;
  HTTPGet := λ _ url, Ok (200, of_string url);
  InsecureHosts := "" |}.

Definition demo_jwk (x y : string) (x5c : json) : json :=
  JObj (<["kty" := JStr "EC"]> (<["crv" := JStr "P-256"]> (<["x" := JStr x]> (<["y" := JStr y]> {["x5c" := x5c]})))).

(** A document with a signing key, published for authentication and assertion, and
    a key-agreement key. *)
Definition demo_document (id x y x5c : string) : json :=
  JObj (<["id" := JStr id]>
    (<["verificationMethod" := JArr
         [JObj (<["id" := JStr "#key-1"]> {["publicKeyJwk" := demo_jwk x y (JStr x5c)]});
          JObj (<["id" := JStr "#kex"]> {["publicKeyJwk" := demo_jwk "Bw" "CA" JNull]})]]>
    (<["authentication" := JArr [JStr (String.append id "#key-1")]]>
    (<["assertionMethod" := JArr [JStr "#key-1"]]>
    {["keyAgreement" := JArr [JStr "#kex"]]})))).

Definition document_a : json := demo_document "did:web:a.example" "AQ" "Ag" "CQECAQ==".
Definition document_b : json := demo_document "did:web:b.example" "Aw" "BA" "CQMEAQ==".

Definition demo_served (body : bytes) : option json :=
  if bool_decide (body = of_string "https://a.example/.well-known/did.json") then Some document_a
  else if bool_decide (body = of_string "https://b.example/.well-known/did.json") then Some document_b
  else None.

#[local] Instance demo_identities : IdentityServices := demo_identity demo_served.
Definition demo_roots : option CertPool := Some ().

Definition demo_signer (x y : Z) : Signer := {| s_Public := Some (x, y); s_Sign := λ digest, Ok (digest ++ [x; y]) |}.

Lemma demo_signer_honest x y : honest (demo_signer x y).
Proof.
  exists (x, y). split; [done|]. intros digest signature E key. injection E as <-.
  cbn. rewrite bool_decide_eq_true. split.
  - intros HE%app_inv_head. destruct key. cbn in HE. congruence.
  - by intros ->.
Qed.

Definition own_document : result DIDDocument :=
  NewDIDDocument (Ok (of_string "https://a.example/.well-known/did.json")) (Some (demo_signer 1 2)).

(** The outcome of a check against a resolved document. *)
Definition checked {A} (document : result DIDDocument) (check : DIDDocument → result A) : bool :=
  match document with Ok d => is_ok (check d) | Err _ => false end.

Definition answer_of (x y : Z) : bytes := Sum256 (of_string "secret") ++ [x; y].

(** The challenge of a.example verifies; the same answer made with its
    key-agreement key does not. *)
Example challenges :
  checked (FetchDIDDocument "did:web:a.example")
    (λ d, VerifyPeerChallenge d demo_roots (of_string "secret") (answer_of 1 2)) = true ∧
  checked (FetchDIDDocument "did:web:a.example")
    (λ d, VerifyPeerChallenge d demo_roots (of_string "secret") (answer_of 7 8)) = false.
Proof. split; vm_compute; reflexivity. Qed.

Lemma checked_Ok {A} document check (d : DIDDocument) :
  document = Ok d → checked (A := A) document check = true → is_ok (check d) = true.
Proof. by intros ->. Qed.

Lemma peer_challenge_witness : ∃ d,
  FetchDIDDocument "did:web:a.example" = Ok d ∧
  ∃ purpose pub, PublishesKeyFor d purpose (Some pub) = true ∧ purpose ≠ PurposeKeyAgreement.
Proof.
  pose proof (proj1 challenges) as C.
  destruct (FetchDIDDocument "did:web:a.example") as [d|]; [|discriminate C]. exists d. split; [reflexivity|].
  cbn [checked] in C.
  destruct (VerifyPeerChallenge d demo_roots (of_string "secret") (answer_of 1 2)) as [[]|] eqn:E; [|discriminate C].
  destruct (proj2 (peer_challenge_is_exact (H := demo_identities) d demo_roots _ _) E)
    as (purpose & leaf & pub & Hp & Hk & _).
  exists purpose, pub. by split.
Defined.

Lemma own_document_checks :
  checked own_document (λ d, signature ← Sign d (of_string "secret"); VerifyEIDASCertificate d demo_roots) = true.
Proof. vm_compute. reflexivity. Qed.

Lemma own_challenge_witness : ∃ d signature,
  own_document = Ok d ∧ Sign d (of_string "secret") = Ok signature ∧
  VerifyPeerChallenge (as_served d) demo_roots (of_string "secret") signature = Ok ().
Proof.
  pose proof own_document_checks as C. destruct own_document as [d|] eqn:Ed; [|discriminate C].
  cbn [checked] in C. unfold mbind, result_bind in C.
  destruct (Sign d (of_string "secret")) as [signature|] eqn:Es; [|discriminate C].
  exists d, signature. split; [reflexivity|]. split; [exact Es|].
  apply (own_challenge_is_accepted (H := demo_identities) _ _ _ _ _ _ (demo_signer_honest 1 2) Ed Es).
  destruct (VerifyEIDASCertificate d demo_roots) as [[]|]; [reflexivity|discriminate C].
Defined.

Lemma urls_witness :
  DIDWebPath "did:web:h.example" = Ok ("h.example", []) ∧
  DIDWebPath "did:web:h.example:.well-known" = Ok ("h.example", [".well-known"]) ∧
  document_url "h.example" [] "https" = document_url "h.example" [".well-known"] "https".
Proof.
  split; [vm_compute; reflexivity|]. split; [vm_compute; reflexivity|].
  apply (document_urls_tell_peers_apart (H := demo_identities) "did:web:h.example" "did:web:h.example:.well-known"); auto.
Defined.
