(* ===== verification/Jades.v ===== *)
(** The JAdES signatures of internal/base/jades/jades.go: the artifacts two
    instances exchange, their canonical bytes, and the compact JWS around them.

    The curve, the DER form of a signature, the canonicalization of RFC 8785 and
    the text forms of times are operations of [JadesServices]. *)
From S2P Require Import Prelude Json Sha256 Merging Merkle Envelope ArtifactStore DidDocument PeerIdentity.
Import GoStrings.

(** Times are nanoseconds here, as the text of an artifact carries them. *)
Class JadesServices := {
  (** [json.Marshal] and [jcs.Transform] of its text. *)
  Marshal : json → bytes;
  Canonicalize : json → result bytes;
  (** [time.RFC3339Nano] in UTC, and [time.Parse] of that layout. *)
  FormatNano : Z → string;
  ParseNano : string → option Z;
  (** ["2006-01-02T15:04:05Z"]. *)
  FormatSigningTime : Z → string;
  (** [asn1.Unmarshal] into the pair of an ECDSA signature. *)
  ParseDER : bytes → option (Z * Z);
  (** [ecdsa.Verify]. *)
  VerifyRS : point → bytes → Z → Z → bool
}.

Record protectedHeader := {
  Alg : string; Typ : string; Cty : string; HeaderX5C : list string; SigT : string; Crit : list string }.

Definition MarshalHeader (h : protectedHeader) : json :=
  JObj (<["alg" := JStr (Alg h)]> (<["typ" := JStr (Typ h)]> (<["cty" := JStr (Cty h)]>
    (<["x5c" := JArr (JStr <$> HeaderX5C h)]> (<["sigT" := JStr (SigT h)]>
    {["crit" := JArr (JStr <$> Crit h)]}))))).

Definition strings_field (m : gmap string json) (key : string) : result (list string) :=
  list_field string_item m key.

Definition UnmarshalHeader (j : json) : result protectedHeader :=
  m ← Unmarshal_map j;
  alg ← string_field m "alg"; typ ← string_field m "typ"; cty ← string_field m "cty";
  x5c ← strings_field m "x5c"; sigT ← string_field m "sigT"; crit ← strings_field m "crit";
  Ok {| Alg := alg; Typ := typ; Cty := cty; HeaderX5C := x5c; SigT := sigT; Crit := crit |}.

Definition dcs_context : json := JObj {["dcs" := JStr "https://w3id.org/facis/dcs/ontology/v1#"]}.

Definition SettlementType : string := "dcs:ContractSettlement".
Definition SettlementWithdrawalType : string := "dcs:ContractSettlementWithdrawal".

Record Settlement := {
  ContractDID : string; ContractVersion : Z; DocumentDigest : string;
  SettledBy : string; SettledWith : string; SettledAt : Z }.

Record SettlementWithdrawal := {
  wd_ContractDID : string; wd_DocumentDigest : string;
  WithdrawnBy : string; WithdrawnFrom : string; WithdrawnAt : Z }.

(** [FillBytes] into 32 bytes panics on a longer number. *)
Definition fill32 (x : Z) : result bytes :=
  if (0 <=? x) && (x <? 2 ^ 256) then Ok (be_bytes 32 x) else Err (Panic "math/big: buffer too small").

Section jades.
Context {I : IdentityServices} {J : JadesServices}.

Definition settlement_node (s : Settlement) : json :=
  JObj (<["@context" := dcs_context]> (<["@type" := JStr SettlementType]>
    (<["dcs:contractDid" := JStr (ContractDID s)]>
    (<["dcs:contractVersion" := JNum (pretty (ContractVersion s))]>
    (<["dcs:contractDocumentDigest" := JStr (DocumentDigest s)]>
    (<["dcs:settledBy" := JStr (SettledBy s)]> (<["dcs:settledWith" := JStr (SettledWith s)]>
    {["dcs:settledAt" := JStr (FormatNano (SettledAt s))]}))))))).

Definition BuildSettlementPayload (s : Settlement) : result bytes := Canonicalize (settlement_node s).

Definition withdrawal_node (w : SettlementWithdrawal) : json :=
  JObj (<["@context" := dcs_context]> (<["@type" := JStr SettlementWithdrawalType]>
    (<["dcs:contractDid" := JStr (wd_ContractDID w)]>
    (<["dcs:contractDocumentDigest" := JStr (wd_DocumentDigest w)]>
    (<["dcs:withdrawnBy" := JStr (WithdrawnBy w)]> (<["dcs:withdrawnFrom" := JStr (WithdrawnFrom w)]>
    {["dcs:withdrawnAt" := JStr (FormatNano (WithdrawnAt w))]})))))).

Definition BuildSettlementWithdrawalPayload (w : SettlementWithdrawal) : result bytes :=
  Canonicalize (withdrawal_node w).

(** [document] is the decoded contract document; the empty text stands for [{}]. *)
Definition BuildContractPayload (did : string) (contractVersion : Z) (document : json) : result bytes :=
  Canonicalize (JObj (<["dcs:contractDid" := JStr did]>
    (<["dcs:contractVersion" := JNum (pretty contractVersion)]> {["dcs:contractDocument" := document]}))).

Definition ContractDocumentDigest (document : json) : result string :=
  canonical ← Canonicalize document;
  Ok (String.append "sha256:" (EncodeToString (Sum256 canonical))).

Definition derToJOSE (der : bytes) : result bytes :=
  match ParseDER der with
  | None => Err (Errorf "jades: parse DER signature")
  | Some (r, s) => rb ← fill32 r; sb ← fill32 s; Ok (rb ++ sb)
  end.

Definition signing_header (x5c : list string) (now : Z) : protectedHeader :=
  {| Alg := "ES256"; Typ := "jose"; Cty := "application/json"; HeaderX5C := x5c;
     SigT := FormatSigningTime now; Crit := ["sigT"] |}.

Definition dotted (a b : string) : string := String.append a (String "." b).

(** [now] is the clock of the claimed signing time. *)
Definition Sign (d : DIDDocument) (now : Z) (payload : bytes) : result string :=
  match signingMethod d with
  | None => Err (Errorf "jades: DID document is not bound to a signer")
  | Some method =>
      let x5c := k_X5C (m_JWK method) in
      if bool_decide (x5c = []) then Err (Errorf "jades: verification method carries no x5c certificate chain") else
      let headerBytes := Marshal (MarshalHeader (signing_header x5c now)) in
      let signingInput := dotted (RawURL_Encode headerBytes) (RawURL_Encode payload) in
      derSig ← wrap_err "jades: signing failed" (DidDocument.Sign d (of_string signingInput));
      joseSig ← derToJOSE derSig;
      Ok (dotted signingInput (RawURL_Encode joseSig))
  end.

(** The critical headers: only sigT is known, and it must be there. *)
Fixpoint check_crit (seen : bool) (crit : list string) : result () :=
  match crit with
  | [] => if seen then Ok () else Err (Errorf "jades: sigT must be marked critical (crit)")
  | c :: rest => if bool_decide (c = "sigT") then check_crit true rest
                 else Err (Errorf "jades: unsupported critical header")
  end.

(** The payload and the key of the chain's leaf. *)
Definition Verify (jws : string) : result (bytes * point) :=
  match split_on "." jws with
  | [part0; part1; part2] =>
      headerBytes ← wrap_err "jades: decode protected header" (RawURL_Decode part0);
      j ← wrap_err "jades: parse protected header" (DecodeJSON headerBytes);
      header ← wrap_err "jades: parse protected header" (UnmarshalHeader j);
      if negb (bool_decide (Alg header = "ES256")) then Err (Errorf "jades: unsupported alg (only ES256)")
      else if bool_decide (SigT header = EmptyString) then Err (Errorf "jades: missing sigT header") else
      _ ← check_crit false (Crit header);
      match HeaderX5C header with
      | [] => Err (Errorf "jades: missing x5c certificate chain")
      | leaf :: _ =>
          leafDER ← wrap_err "jades: decode x5c leaf" (Std_Decode leaf);
          leafCert ← wrap_err "jades: parse x5c leaf" (ParseCertificate leafDER);
          match CertificateKey leafCert with
          | None => Err (Errorf "jades: x5c leaf key is not ECDSA")
          | Some leafKey =>
              payload ← wrap_err "jades: decode payload" (RawURL_Decode part1);
              sig ← wrap_err "jades: decode signature" (RawURL_Decode part2);
              if negb (bool_decide (length sig = 64%nat)) then Err (Errorf "jades: expected a 64-byte ES256 signature") else
              if VerifyRS leafKey (Sum256 (of_string (dotted part0 part1))) (be_value (take 32 sig)) (be_value (drop 32 sig))
              then Ok (payload, leafKey)
              else Err (Errorf "jades: ES256 signature verification failed")
          end
      end
  | _ => Err (Errorf "jades: expected a compact JWS with three segments")
  end.

End jades.

(** ** What is relied on *)
Class JadesLaws {I : IdentityServices} {J : JadesServices} := {
  marshal_bytes h : is_bytes (Marshal (MarshalHeader h));
  decode_marshal h : DecodeJSON (Marshal (MarshalHeader h)) = Ok (MarshalHeader h);
  format_signing_time t : FormatSigningTime t ≠ EmptyString
}.

Section laws.
Context {I : IdentityServices} {J : JadesServices} {L : JadesLaws}.

(** The signer holds the key: what it signs is in range and verifies under it. *)
Definition signs_as (s : Signer) (pub : point) : Prop :=
  ∀ content, ∃ der r t, s_Sign s (Sum256 content) = Ok der ∧ ParseDER der = Some (r, t) ∧
    0 <= r < 2 ^ 256 ∧ 0 <= t < 2 ^ 256 ∧ VerifyRS pub (Sum256 content) r t = true.

(** The first certificate of a chain carries the key. *)
Definition leaf_key (x5c : list string) (pub : point) : Prop :=
  ∃ leaf rest der cert, x5c = leaf :: rest ∧ Std_Decode leaf = Ok der ∧ ParseCertificate der = Ok cert ∧
    CertificateKey cert = Some pub.

Lemma b64_digit_no_dot n : 0 <= n < 64 → b64_digit n ≠ "."%char.
Proof.
  intros Hn E. apply (f_equal (λ c, b64_value c)) in E. destruct (b64_digit_value n Hn) as [Hv _].
  rewrite Hv in E. by vm_compute in E.
Qed.

Lemma encoded_no_dot bs : is_bytes bs → "."%char ∉ String.list_ascii_of_string (RawURL_Encode bs).
Proof.
  intros Hb. unfold RawURL_Encode. rewrite String.list_ascii_of_string_of_list_ascii.
  intros (d & E & Hd)%list_elem_of_fmap. pose proof (b64_digits_range bs Hb) as Hr.
  rewrite Forall_forall in Hr. apply Hr in Hd. by apply (b64_digit_no_dot d).
Qed.

Lemma split_no_sep sep s : sep ∉ String.list_ascii_of_string s → split_on sep s = [s].
Proof.
  induction s as [|c s IH]; [done|].
  change (String.list_ascii_of_string (String c s)) with (c :: String.list_ascii_of_string s).
  intros [Hc Hs]%not_elem_of_cons. cbn [split_on]. rewrite bool_decide_eq_false_2 by done. by rewrite IH.
Qed.

Lemma split_dotted a b : "."%char ∉ String.list_ascii_of_string a → split_on "." (dotted a b) = a :: split_on "." b.
Proof.
  unfold dotted. induction a as [|c a IH]; [done|].
  change (String.list_ascii_of_string (String c a)) with (c :: String.list_ascii_of_string a).
  intros [Hc Hs]%not_elem_of_cons.
  change (String.append (String c a) (String "." b)) with (String c (String.append a (String "." b))).
  cbn [split_on]. rewrite bool_decide_eq_false_2 by done. by rewrite IH.
Qed.

Lemma dotted_assoc a b c : dotted (dotted a b) c = dotted a (dotted b c).
Proof.
  unfold dotted. induction a as [|x a IH]; [done|].
  change (String x (String.append (String.append a (String "." b)) (String "." c)) =
          String x (String.append a (String "." (String.append b (String "." c))))). by rewrite IH.
Qed.

Lemma split_jws a b c :
  is_bytes a → is_bytes b → is_bytes c →
  split_on "." (dotted (dotted (RawURL_Encode a) (RawURL_Encode b)) (RawURL_Encode c)) =
  [RawURL_Encode a; RawURL_Encode b; RawURL_Encode c].
Proof.
  intros Ha Hb Hc. rewrite dotted_assoc, split_dotted, split_dotted by by apply encoded_no_dot.
  rewrite split_no_sep by by apply encoded_no_dot. done.
Qed.

Lemma decode_all_items l : decode_all string_item (JStr <$> l) = Ok l.
Proof. induction l as [|s l IH]; [done|]. cbn. unfold mbind, result_bind. by rewrite IH. Qed.

Lemma header_roundtrip h : UnmarshalHeader (MarshalHeader h) = Ok h.
Proof.
  unfold UnmarshalHeader, MarshalHeader, Unmarshal_map. cbn [mbind result_bind].
  unfold string_field, strings_field, list_field.
  rewrite !lookup_insert_eq. repeat (rewrite lookup_insert_ne by done). 
  rewrite ?lookup_insert_eq. cbn [mbind result_bind].
  repeat (rewrite lookup_insert_ne by done). rewrite ?lookup_insert_eq, ?lookup_singleton_eq.
  cbn [mbind result_bind]. rewrite !decode_all_items. cbn [mbind result_bind]. by destruct h.
Qed.

Lemma fill32_Ok x : 0 <= x < 2 ^ 256 → fill32 x = Ok (be_bytes 32 x).
Proof. intros [Hl%Z.leb_le Hu%Z.ltb_lt]. unfold fill32. by rewrite Hl, Hu. Qed.

(** Signing and verifying. *)
Lemma Sign_Verify (d : DIDDocument) (s : Signer) (pub : point) (m : Method) (now : Z) (payload : bytes) :
  signer d = Some s → signs_as s pub → signingMethod d = Some m → leaf_key (k_X5C (m_JWK m)) pub →
  is_bytes payload →
  ∃ jws, Sign d now payload = Ok jws ∧ Verify jws = Ok (payload, pub).
Proof.
  intros Hs Hsign Hm (leaf & rest & der & cert & Ex & Eder & Ecert & Ekey) Hp.
  unfold Sign. rewrite Hm, bool_decide_eq_false_2 by by rewrite Ex.
  set (header := Marshal _). set (input := dotted (RawURL_Encode header) _).
  destruct (Hsign (of_string input)) as (sig & r & t & Esig & Eder' & Hr & Ht & Hv).
  unfold DidDocument.Sign. rewrite Hs, Esig. cbn [wrap_err]. unfold mbind, result_bind.
  unfold derToJOSE. rewrite Eder', !fill32_Ok by done. unfold mbind, result_bind.
  set (jose := be_bytes 32 r ++ be_bytes 32 t). eexists. split; [reflexivity|].
  assert (Hjose : is_bytes jose) by (apply Forall_app; split; apply be_bytes_range).
  unfold Verify, input, mbind, result_bind. rewrite split_jws by first [exact Hp|exact Hjose|apply marshal_bytes].
  rewrite (RawURL_roundtrip header) by apply marshal_bytes. cbn [wrap_err mbind result_bind].
  assert (Edec : DecodeJSON header = Ok (MarshalHeader (signing_header (k_X5C (m_JWK m)) now))) by apply decode_marshal.
  rewrite Edec. cbn [wrap_err]. rewrite header_roundtrip. cbn [wrap_err signing_header].
  cbn [Alg SigT Crit HeaderX5C signing_header]. rewrite bool_decide_eq_true_2 by done. cbn [negb].
  rewrite bool_decide_eq_false_2 by apply format_signing_time. cbn [check_crit].
  rewrite bool_decide_eq_true_2 by done. rewrite Ex, Eder. cbn [wrap_err]. rewrite Ecert. cbn [wrap_err].
  rewrite Ekey, (RawURL_roundtrip payload), (RawURL_roundtrip jose) by done. cbn [wrap_err].
  assert (Hlen : length jose = 64%nat) by (unfold jose; by rewrite length_app, !length_be_bytes).
  rewrite bool_decide_eq_true_2 by done. cbn [negb]. unfold jose.
  rewrite take_app_length', drop_app_length' by by rewrite length_be_bytes.
  rewrite !be_value_bytes by lia. fold input. by rewrite Hv.
Qed.

(** What this instance signs, a peer reads back: when the document's signing
    method carries a certificate for the signer's key, signing any payload succeeds
    and verifying the signature returns that payload and that key. *)
Theorem jades_roundtrip (d : DIDDocument) (s : Signer) (pub : point) (m : Method) (now : Z) (payload : bytes) :
  signer d = Some s → signs_as s pub → signingMethod d = Some m → leaf_key (k_X5C (m_JWK m)) pub →
  is_bytes payload →
  ∃ jws, Sign d now payload = Ok jws ∧ Verify jws = Ok (payload, pub).
Proof. intros. by eapply Sign_Verify. Qed.

(** A verified payload is the middle part of a text its leaf key signed. *)
Lemma Verify_Ok jws payload key : Verify jws = Ok (payload, key) →
  ∃ part0 part1 r t, VerifyRS key (Sum256 (of_string (dotted part0 part1))) r t = true ∧
    RawURL_Decode part1 = Ok payload.
Proof.
  unfold Verify. destruct (split_on "." jws) as [|p0 [|p1 [|p2 [|]]]]; try done. unfold mbind, result_bind.
  destruct (wrap_err _ (RawURL_Decode p0)); [|done]. destruct (wrap_err _ (DecodeJSON _)); [|done].
  destruct (wrap_err _ (UnmarshalHeader _)) as [h|]; [|done]. do 2 (case_match; [done|]).
  destruct (check_crit _ _); [|done]. destruct (HeaderX5C h); [done|].
  destruct (wrap_err _ (Std_Decode _)); [|done]. destruct (wrap_err _ (ParseCertificate _)); [|done].
  destruct (CertificateKey _) as [k|]; [|done].
  destruct (RawURL_Decode p1) as [pl|] eqn:Ep; [|done]. cbn [wrap_err].
  destruct (wrap_err _ (RawURL_Decode p2)); [|done]. case_match; [done|].
  destruct (VerifyRS _ _ _ _) eqn:Ev; [|done]. intros HE. injection HE as <- <-. eauto 10.
Qed.

End laws.

(** ** A concrete instance *)

(** Texts and lists of texts as bytes: a 1 before every element, a 0 at the end. *)
Fixpoint text_bytes (s : string) : bytes :=
  match s with
  | EmptyString => [0]
  | String c s' => 1 :: Z.of_N (Ascii.N_of_ascii c) :: text_bytes s'
  end.
Fixpoint read_text (l : bytes) : option (string * bytes) :=
  match l with
  | 0 :: l' => Some (EmptyString, l')
  | 1 :: c :: l' => '(s, rest) ← read_text l'; Some (String (Ascii.ascii_of_N (Z.to_N c)) s, rest)
  | _ => None
  end.
Fixpoint list_bytes (l : list string) : bytes :=
  match l with [] => [0] | s :: l' => 1 :: text_bytes s ++ list_bytes l' end.
Fixpoint read_list (fuel : nat) (l : bytes) : option (list string * bytes) :=
  match fuel, l with
  | S _, 0 :: l' => Some ([], l')
  | S fuel', 1 :: l' =>
      '(s, rest) ← read_text l';
      '(texts, rest') ← read_list fuel' rest;
      Some (s :: texts, rest')
  | _, _ => None
  end.

Lemma read_text_bytes s l : read_text (text_bytes s ++ l) = Some (s, l).
Proof.
  induction s as [|c s IH]; [done|]. cbn [text_bytes app read_text]. rewrite IH. cbn [mbind option_bind].
  by rewrite N2Z.id, Ascii.ascii_N_embedding.
Qed.

Lemma read_list_bytes texts l fuel : (length texts < fuel)%nat → read_list fuel (list_bytes texts ++ l) = Some (texts, l).
Proof.
  revert fuel. induction texts as [|s texts IH]; intros [|fuel] Hf; cbn [length] in Hf; try lia; [done|].
  cbn [list_bytes app read_list]. rewrite <- app_assoc, read_text_bytes. cbn [mbind option_bind].
  rewrite IH by lia. done.
Qed.

Lemma text_bytes_range s : Forall (λ b, 0 <= b < 256) (text_bytes s).
Proof.
  induction s as [|c s IH]; cbn [text_bytes]; repeat constructor; try done; try lia.
  pose proof (Ascii.N_ascii_bounded c). lia.
Qed.

Lemma list_bytes_range l : Forall (λ b, 0 <= b < 256) (list_bytes l).
Proof.
  induction l as [|s l IH]; cbn [list_bytes]; constructor; try done.
  apply Forall_app. split; [apply text_bytes_range|exact IH].
Qed.

Definition header_bytes (h : protectedHeader) : bytes :=
  4 :: list_bytes [Alg h; Typ h; Cty h; SigT h] ++ list_bytes (HeaderX5C h) ++ list_bytes (Crit h).

(** Every element of a list takes at least two bytes, so the bytes are fuel enough. *)
Lemma list_bytes_length l : (length l < length (list_bytes l))%nat.
Proof. induction l as [|s l IH]; cbn [list_bytes length]; [lia|]. rewrite length_app. lia. Qed.

Definition read_header (body : bytes) : option protectedHeader :=
  match body with
  | 4 :: l =>
      '(fields, l1) ← read_list (length l) l;
      '(x5c, l2) ← read_list (length l1) l1;
      '(crit, _) ← read_list (length l2) l2;
      match fields with
      | [alg; typ; cty; sigT] =>
          Some {| Alg := alg; Typ := typ; Cty := cty; HeaderX5C := x5c; SigT := sigT; Crit := crit |}
      | _ => None
      end
  | _ => None
  end.

Lemma read_header_bytes h : read_header (header_bytes h) = Some h.
Proof.
  unfold header_bytes, read_header. set (fields := [Alg h; Typ h; Cty h; SigT h]).
  pose proof (list_bytes_length fields) as H1. pose proof (list_bytes_length (HeaderX5C h)) as H2.
  pose proof (list_bytes_length (Crit h)) as H3.
  rewrite read_list_bytes by (rewrite !length_app; lia). cbn [mbind option_bind].
  rewrite read_list_bytes by (rewrite length_app; lia). cbn [mbind option_bind].
  rewrite <- (app_nil_r (list_bytes (Crit h))) at 2. rewrite read_list_bytes by lia. by destruct h.
Qed.

Lemma header_bytes_range h : Forall (λ b, 0 <= b < 256) (header_bytes h).
Proof.
  unfold header_bytes. constructor; [lia|]. rewrite !Forall_app. split_and!; apply list_bytes_range.
Qed.

Definition demo_marshal (j : json) : bytes :=
  match UnmarshalHeader j with Ok h => header_bytes h | Err _ => [] end.

Definition demo_parse (body : bytes) : option json :=
  match demo_served body with
  | Some j => Some j
  | None => MarshalHeader <$> read_header body
  end.

Definition demo_jades : JadesServices := {|
  Marshal := demo_marshal;
  Canonicalize := λ j, match j with
    | JObj m => Ok (of_string (String.append (as_string (m !! "dcs:contractDocumentDigest")) (as_string (m !! "dcs:revision"))))
    | _ => Ok [] end;
  FormatNano := pretty;
  ParseNano := λ s, digits_Z 0 (String.list_ascii_of_string s);
  FormatSigningTime := λ t, String "T" (pretty t);
  ParseDER := λ der, Some (be_value (take 32 der), be_value (drop 32 der));
  VerifyRS := λ key digest r t, (r =? be_value digest) && (t =? be_value [key.1; key.2])
|}.

#[local] Instance parsing_identities : IdentityServices := demo_identity demo_parse.

Lemma demo_jades_laws : JadesLaws (I := parsing_identities) (J := demo_jades).
Proof.
  split; cbn [Marshal demo_jades]; unfold demo_marshal.
  - intros h. rewrite header_roundtrip. apply header_bytes_range.
  - intros h. rewrite header_roundtrip. cbn [DecodeJSON parsing_identities demo_identity].
    unfold demo_parse. assert (demo_served (header_bytes h) = None) as ->.
    { unfold demo_served. rewrite !bool_decide_eq_false_2; [done|..]; intros E%(f_equal head); discriminate E. }
    by rewrite read_header_bytes.
  - done.
Qed.

Lemma demo_signer_signs : signs_as (J := demo_jades) (demo_signer 1 2) (1, 2).
Proof.
  intros content. eexists _, _, _. split; [reflexivity|]. split; [reflexivity|].
  pose proof (length_Sum256 content) as Hl.
  rewrite take_app_length', drop_app_length' by done. 
  pose proof (be_value_range (Sum256 content) (Sum256_range content)) as Hr. rewrite Hl in Hr.
  split; [by change (256 ^ Z.of_nat 32) with (2 ^ 256) in Hr|]. split; [by vm_compute|].
  cbn [VerifyRS demo_jades]. rewrite !Z.eqb_refl. done.
Qed.

Lemma bound_signer {I : IdentityServices} file s d : NewDIDDocument file (Some s) = Ok d → signer d = Some s.
Proof.
  unfold NewDIDDocument, mbind, result_bind. destruct file; [|done]. destruct (wrap_err _ (DecodeJSON _)); [|done].
  destruct (UnmarshalDocument _); [|done]. case_bool_decide; [done|]. destruct (s_Public s); [|done].
  destruct (methodHoldingKey _ _); [|done]. destruct (wrap_err _ (ECPublicKey _)); [|done].
  destruct (wrap_err _ (s_Sign _ _)); [|done]. case_match; [done|]. intros HE. by injection HE as <-.
Qed.

Definition chain_of (d : DIDDocument) : list string :=
  match signingMethod d with Some m => k_X5C (m_JWK m) | None => [] end.

Lemma own_chain : checked own_document (λ d, if bool_decide (chain_of d = ["CQECAQ=="]) then Ok () else Err (Errorf "chain")) = true.
Proof. vm_compute. reflexivity. Qed.

Lemma demo_leaf : leaf_key (I := parsing_identities) ["CQECAQ=="] (1, 2).
Proof. exists "CQECAQ==", [], [9; 1; 2; 1], [9; 1; 2; 1]. split_and!; vm_compute; reflexivity. Qed.

Lemma jades_witness : ∃ d jws, own_document = Ok d ∧
  Verify (I := parsing_identities) (J := demo_jades) jws = Ok (of_string "payload", (1, 2)).
Proof.
  pose proof own_chain as C. destruct own_document as [d|] eqn:Ed; [|discriminate C].
  pose proof Ed as Eb. unfold own_document in Eb.
  pose proof (bound_signer (I := demo_identities) _ _ _ Eb) as Hs. cbn [checked] in C. unfold chain_of in C.
  destruct (signingMethod d) as [m|] eqn:Em; [|discriminate C].
  case_bool_decide as Ex; [|discriminate C].
  destruct (jades_roundtrip (L := demo_jades_laws) d _ (1, 2) m 0 (of_string "payload") Hs demo_signer_signs Em) as (jws & _ & Hv).
  - rewrite Ex. exact demo_leaf.
  - apply (bool_decide_unpack _). vm_compute. exact I.
  - exists d, jws. split; [reflexivity|exact Hv].
Defined.
