(* ===== verification/TrustGate.v ===== *)
(** Who may exchange contracts with this instance: the federation trust gate.

    internal/dcstodcs/trustgate.go and credentialvalidity.go (the agreement
    credential of a peer and the local policy endpoint), counterpartypoa.go (the
    signing evidence a shipped PDF carries), base/federation (the credential this
    instance serves), pdfgeneration/provenance vc_verifier.go and
    signing_evidence.go, and auth/oid4vp/counterparty_poa.go.

    Times are nanoseconds; durations saturate at 64 bits as Go's do. *)
From S2P Require Import Prelude Json Sha256 DidWeb Envelope ArtifactStore DidDocument.
Import GoStrings.

Class TrustServices := {
  DecodeBase58 : string → option bytes;
  (** RDFC-1.0 canonicalization of a JSON-LD document. *)
  NormalizeJSONLD : json → result bytes;
  (** [ecdsa.Verify]. *)
  VerifySignature : point → bytes → Z → Z → bool;
  (** [time.Parse(time.RFC3339, _)] and [Format(time.RFC3339)]. *)
  ParseRFC3339 : string → option Z;
  FormatRFC3339 : Z → string;
  (** The embedded rules document. *)
  Rules : bytes;
  (** DCS_TRUST_PDP_URL, and the endpoint's status for a request body. *)
  PDPURL : string;
  ConsultPDP : string → json → result Z;
  (** [json.Marshal], for the id of an issued credential. *)
  EncodeJSON : json → bytes;
  (** The instance's credential signer, when one is configured. *)
  CredentialSigner : option (json → result json)
}.

Definition second : Z := 1000000000.
(** The zero [time.Time]. *)
Definition zero_time : Z := -62135596800 * second.
Definition IsZero (t : Z) : bool := t =? zero_time.

(** [time.Time.Sub]. *)
Definition Sub (a b : Z) : Z := Z.max (- 2 ^ 63) (Z.min (2 ^ 63 - 1) (a - b)).

Definition credentialClockSkew : Z := 5 * 60 * second.
Definition AgreementCredentialLifetime : Z := 24 * 3600 * second.
Definition MaxAgreementCredentialLifetime : Z := 7 * 24 * 3600 * second.

(** ** credentialvalidity.go *)
Definition firstNonEmpty (values : list string) : string :=
  default EmptyString (List.find (λ v, negb (bool_decide (TrimSpace v = EmptyString))) values).

Definition parseCredentialTime `{TrustServices} (value : string) : result Z :=
  let value := TrimSpace value in
  if bool_decide (value = EmptyString) then Ok zero_time else
  match ParseRFC3339 value with
  | Some t => Ok t
  | None => Err (Errorf "not an RFC3339 timestamp")
  end.

Definition requireCredentialInForce `{TrustServices} (credential : json) (now : Z) : result () :=
  window ← wrap_err "decode validity window" (Unmarshal_map credential);
  validFrom ← wrap_err "decode validity window" (string_field window "validFrom");
  validUntil ← wrap_err "decode validity window" (string_field window "validUntil");
  issuanceDate ← wrap_err "decode validity window" (string_field window "issuanceDate");
  expirationDate ← wrap_err "decode validity window" (string_field window "expirationDate");
  from ← parseCredentialTime (firstNonEmpty [validFrom; issuanceDate]);
  until ← parseCredentialTime (firstNonEmpty [validUntil; expirationDate]);
  if IsZero until then Err (Errorf "carries no validUntil") else
  lifetimeFrom ← (if IsZero from then Ok now
                  else if until <? from then Err (Errorf "validUntil precedes validFrom")
                  else if now + credentialClockSkew <? from then Err (Errorf "is not in force before validFrom")
                  else Ok from);
  if MaxAgreementCredentialLifetime <? Sub until lifetimeFrom
  then Err (Errorf "claims a validity window longer than the federation permits")
  else if until <? now - credentialClockSkew then Err (Errorf "expired")
  else Ok ().

(** [doc] is nil for [None]. *)
Definition requireDocumentIsFor (doc : option DIDDocument) (requestedDID : string) : result () :=
  match doc with
  | None => Err (Errorf "no peer did document")
  | Some doc =>
      docID ← wrap_err "peer did.json" (DocumentID doc);
      if SameDIDWeb docID requestedDID then Ok ()
      else Err (Errorf "did.json identifies itself as somebody else")
  end.

(** ** provenance: vc_verifier.go *)
Definition proof_field (vc : gmap string json) (key : string) : string :=
  match as_object (vc !! "proof") with Some proof => as_string (proof !! key) | None => EmptyString end.

Definition dataIntegrityContext : string := "https://w3id.org/security/data-integrity/v2".

Section proofs.
Context `{TrustServices}.

Definition proof_digest (proof vc : gmap string json) : result bytes :=
  proofNQ ← wrap_err "normalize proof options"
    (NormalizeJSONLD (JObj (<["@context" := JArr [JStr dataIntegrityContext]]> (delete "proofValue" proof))));
  docNQ ← wrap_err "normalize VC document" (NormalizeJSONLD (JObj (delete "proof" vc)));
  Ok (Sum256 (Sum256 proofNQ ++ Sum256 docNQ)).

Definition VerifyDataIntegrityProof (credential : json) (pub : point) : result () :=
  vc ← wrap_err "unmarshal VC" (Unmarshal_map credential);
  match as_object (vc !! "proof") with
  | None => Err (Errorf "VC carries no embedded proof")
  | Some proof =>
      if negb (bool_decide (as_string (proof !! "type") = "DataIntegrityProof"))
      then Err (Errorf "expected proof type DataIntegrityProof")
      else if negb (bool_decide (as_string (proof !! "cryptosuite") = "ecdsa-rdfc-2019"))
      then Err (Errorf "expected cryptosuite ecdsa-rdfc-2019")
      else match cut_prefix "z" (as_string (proof !! "proofValue")) with
           | None => Err (Errorf "expected a multibase base58btc proofValue")
           | Some encoded =>
               match DecodeBase58 encoded with
               | None => Err (Errorf "decode proofValue")
               | Some sig =>
                   if negb (bool_decide (length sig = 64%nat)) then Err (Errorf "expected a 64-byte raw ECDSA signature") else
                   digest ← proof_digest proof vc;
                   if VerifySignature pub digest (be_value (take 32 sig)) (be_value (drop 32 sig))
                   then Ok () else Err (Errorf "ecdsa-rdfc-2019 signature verification failed")
               end
           end
  end.

End proofs.

(** ** trustgate.go *)
Inductive Direction := Inbound | Outbound.
Definition direction_String (d : Direction) : string := match d with Inbound => "inbound" | Outbound => "outbound" end.

Inductive GateFailureKind := AgreementFailure | PolicyFailure | PoAFailure.
#[export] Instance GateFailureKind_eq_dec : EqDecision GateFailureKind.
Proof. solve_decision. Defined.

Record GateError := { g_Kind : GateFailureKind; g_PeerDID : string; g_Err : error }.

(** An interaction let through or denied. *)
Inductive verdict := Allowed | Denied (g : GateError).

Definition didWebTarget (did : string) : result string :=
  p ← DIDWebPath did; Ok (DIDWebBaseURL "https" p.1 p.2).

(** A bare string, or an object carrying an id; [raw] is absent for [None]. *)
Definition issuerIdentifier (raw : option json) : result string :=
  match raw with
  | Some (JStr s) => Ok s
  | Some JNull => Ok EmptyString
  | Some (JObj m) =>
      match string_field m "id" with
      | Ok id => if bool_decide (id = EmptyString) then Err (Errorf "credential carries no issuer") else Ok id
      | Err _ => Err (Errorf "credential carries no issuer")
      end
  | _ => Err (Errorf "credential carries no issuer")
  end.

(** [type] and [hash] of one terms-of-use entry. *)
Definition terms_entry (j : json) : result (string * string) :=
  match j with
  | JNull => Ok (EmptyString, EmptyString)
  | JObj m => type_ ← string_field m "type"; hash ← string_field m "hash"; Ok (type_, hash)
  | _ => Err (Errorf "json: cannot unmarshal into struct")
  end.

Definition is_policy (entry : string * string) : bool :=
  bool_decide (entry.1 = "TrustFrameworkPolicy") && negb (bool_decide (entry.2 = EmptyString)).

Definition policy_of (entries : list (string * string)) : result string :=
  match List.find is_policy entries with
  | Some entry => Ok entry.2
  | None => Err (Errorf "credential's termsOfUse carries no TrustFrameworkPolicy hash")
  end.

Definition termsOfUseHash (raw : option json) : result string :=
  match raw with
  | None => Err (Errorf "credential carries no termsOfUse")
  | Some (JArr l) => match decode_all terms_entry l with Ok entries => policy_of entries | Err _ => policy_of [] end
  | Some j =>
      match terms_entry j with
      | Ok entry => if bool_decide (entry.2 = EmptyString) then policy_of [] else Ok entry.2
      | Err _ => policy_of []
      end
  end.

(** The envelope the gate decodes: issuer, the two members of the proof it reads,
    and the terms of use. *)
Definition proof_members (j : option json) : result (string * string) :=
  match j with
  | None | Some JNull => Ok (EmptyString, EmptyString)
  | Some (JObj m) => vm ← string_field m "verificationMethod"; purpose ← string_field m "proofPurpose"; Ok (vm, purpose)
  | Some _ => Err (Errorf "json: cannot unmarshal into struct")
  end.

Section gate.
Context {I : IdentityServices} {T : TrustServices}.

Definition rules_hash : string := EncodeToString (Sum256 Rules).

Definition agreement_url (host : string) (segments : list string) (scheme : string) : string :=
  String.append (DIDWebBaseURL scheme host segments) "/.well-known/dcs-agreement-credential.json".

(** The client dials loopback when the host has a second scheme. *)
Definition fetchAgreementCredentialFromURL (host url : string) : result bytes :=
  '(status, body) ← HTTPGet (1 <? Z.of_nat (length (DIDWebSchemes host))) url;
  if negb (status =? 200) then Err (Errorf "unexpected status") else Ok body.

Fixpoint first_credential (host : string) (url : string → string) (schemes : list string) (lastErr : error) : result bytes :=
  match schemes with
  | [] => Err (Wrapf "fetching agreement credential failed" lastErr)
  | scheme :: rest =>
      match fetchAgreementCredentialFromURL host (url scheme) with
      | Ok body => Ok body
      | Err err => first_credential host url rest err
      end
  end.

Definition fetchAgreementCredential (peerDID : string) : result bytes :=
  '(host, segments) ← DIDWebPath peerDID;
  first_credential host (agreement_url host segments) (DIDWebSchemes host) (Errorf "no scheme").

(** What the credential must say, read against the peer's document. *)
Definition check_agreement (peerDID : string) (doc : DIDDocument) (credential : json) (now : Z) : result () :=
  parsed ← wrap_err "decode" (Unmarshal_map credential);
  proof ← wrap_err "decode" (proof_members (parsed !! "proof"));
  issuer ← issuerIdentifier (parsed !! "issuer");
  issuerTarget ← wrap_err "issuer" (didWebTarget issuer);
  peerTarget ← wrap_err "peer" (didWebTarget peerDID);
  if negb (bool_decide (issuerTarget = peerTarget)) then Err (Errorf "issuer does not resolve to the peer's own target")
  else if negb (bool_decide (TrimSpace proof.2 = "assertionMethod")) then Err (Errorf "proof.proofPurpose is not assertionMethod") else
  vcPub ← wrap_err "proof.verificationMethod" (AssertionKey (Some doc) proof.1);
  _ ← wrap_err "signature does not verify" (VerifyDataIntegrityProof credential vcPub);
  rulesHash ← termsOfUseHash (parsed !! "termsOfUse");
  if negb (bool_decide (rulesHash = rules_hash)) then Err (Errorf "federation rules hash does not match") else
  requireCredentialInForce credential now.

Definition verifyAgreementCredential (peerDID : string) (now : Z) : result json :=
  doc ← wrap_err "agreement credential: fetch peer did.json" (FetchDIDDocument peerDID);
  _ ← wrap_err "agreement credential" (requireDocumentIsFor (Some doc) peerDID);
  body ← wrap_err "agreement credential" (fetchAgreementCredential peerDID);
  credential ← wrap_err "agreement credential: decode" (DecodeJSON body);
  _ ← wrap_err "agreement credential" (check_agreement peerDID doc credential now);
  Ok credential.

Definition policy_request (peerDID : string) (credential : json) (direction : Direction)
    (contractDID targetState : string) : json :=
  JObj (<["peerDID" := JStr peerDID]> (<["agreementCredential" := credential]>
    (<["direction" := JStr (direction_String direction)]> (<["contractDID" := JStr contractDID]>
    {["targetState" := JStr targetState]})))).

Definition consultPolicyEndpoint (peerDID : string) (credential : json) (direction : Direction)
    (contractDID targetState : string) : result () :=
  let pdpURL := TrimSpace PDPURL in
  if bool_decide (pdpURL = EmptyString) then Err (Errorf "policy endpoint: DCS_TRUST_PDP_URL is not configured") else
  status ← wrap_err "policy endpoint: unreachable"
    (ConsultPDP pdpURL (policy_request peerDID credential direction contractDID targetState));
  if (status <? 200) || (300 <=? status) then Err (Errorf "policy endpoint: denied") else Ok ().

Definition Check (peerDID : string) (direction : Direction) (contractDID targetState : string) (now : Z) : verdict :=
  match verifyAgreementCredential peerDID now with
  | Err err => Denied {| g_Kind := AgreementFailure; g_PeerDID := peerDID; g_Err := err |}
  | Ok credential =>
      match consultPolicyEndpoint peerDID credential direction contractDID targetState with
      | Err err => Denied {| g_Kind := PolicyFailure; g_PeerDID := peerDID; g_Err := err |}
      | Ok _ => Allowed
      end
  end.

(** ** base/federation: the credential this instance serves *)
Definition unsigned_agreement (issuerDID rulesURL : string) (validFrom : Z) : gmap string json :=
  <["@context" := JArr [JStr "https://www.w3.org/ns/credentials/v2"; JStr dataIntegrityContext; 
      JObj (<["dcs" := JStr "https://w3id.org/facis/dcs/ontology/v1#"]>
       (<["FederationAgreementCredential" := JStr "dcs:FederationAgreementCredential"]>
       (<["TrustFrameworkPolicy" := JStr "dcs:TrustFrameworkPolicy"]>
       (<["policyId" := JObj (<["@id" := JStr "dcs:policyId"]> {["@type" := JStr "@id"]})]>
       {["hash" := JStr "dcs:rulesHash"]}))))]]>
  (<["type" := JArr [JStr "VerifiableCredential"; JStr "FederationAgreementCredential"]]>
  (<["issuer" := JStr issuerDID]>
  (<["validFrom" := JStr (FormatRFC3339 validFrom)]>
  (<["validUntil" := JStr (FormatRFC3339 (validFrom + AgreementCredentialLifetime))]>
  (<["credentialSubject" := JObj {["id" := JStr issuerDID]}]>
  {["termsOfUse" := JObj (<["type" := JStr "TrustFrameworkPolicy"]>
                          (<["policyId" := JStr rulesURL]> {["hash" := JStr rules_hash]}))]}))))).

Definition BuildAgreementCredential (issuerDID rulesURL : string) (validFrom : Z) : result json :=
  match CredentialSigner with
  | None => Err (Errorf "federation: no VC signer configured")
  | Some sign =>
      let issuerDID := TrimSpace issuerDID in
      if bool_decide (issuerDID = EmptyString) then Err (Errorf "federation: issuer DID is required") else
      let rulesURL := TrimSpace rulesURL in
      if bool_decide (rulesURL = EmptyString) then Err (Errorf "federation: federation rules policy URL is required") else
      let unsigned := unsigned_agreement issuerDID rulesURL (validFrom - validFrom mod second) in
      let id := String.append "urn:dcs:vc:" (EncodeToString (Sum256 (EncodeJSON (JObj unsigned)))) in
      wrap_err "sign agreement credential" (sign (JObj (<["id" := JStr id]> unsigned)))
  end.

(** [CredentialIssuer]: the credential it holds and since when. *)
Definition Current (issuerDID rulesURL : string) (now : Z) (held : option (json * Z)) :
    result json * option (json * Z) :=
  match held with
  | Some (credential, since) =>
      if Sub now since <? AgreementCredentialLifetime / 2 then (Ok credential, held) else
      match BuildAgreementCredential issuerDID rulesURL now with
      | Ok credential => (Ok credential, Some (credential, now))
      | Err err => (Err err, held)
      end
  | None =>
      match BuildAgreementCredential issuerDID rulesURL now with
      | Ok credential => (Ok credential, Some (credential, now))
      | Err err => (Err err, held)
      end
  end.

End gate.

(** ** provenance: signing_evidence.go *)
Record SigningEvidenceAttachment := { Summary : json; PoAPresentation : string }.
Record SigningEvidenceSubject := { Signatory : string; se_FieldName : string; se_ContractID : string }.

Definition object_field (m : gmap string json) (key : string) : result (gmap string json) :=
  match m !! key with
  | None | Some JNull => Ok ∅
  | Some (JObj o) => Ok o
  | Some _ => Err (Errorf "json: cannot unmarshal into struct")
  end.

Definition ReadSigningEvidenceSubject (summary : json) : result SigningEvidenceSubject :=
  vc ← wrap_err "decode signing summary" (Unmarshal_map summary);
  types ← wrap_err "decode signing summary" (list_field string_item vc "type");
  subject ← wrap_err "decode signing summary" (object_field vc "credentialSubject");
  id ← wrap_err "decode signing summary" (string_field subject "id");
  field ← wrap_err "decode signing summary" (string_field subject "field_name");
  contract ← wrap_err "decode signing summary" (string_field subject "contract_id");
  if bool_decide ("ContractSigningSummaryCredential" ∈ types)
  then Ok {| Signatory := TrimSpace id; se_FieldName := TrimSpace field; se_ContractID := TrimSpace contract |}
  else Err (Errorf "the embedded evidence is not a signing summary").

Definition ReadSigningEvidence (raw : json) : result (SigningEvidenceAttachment * SigningEvidenceSubject) :=
  m ← wrap_err "decode signing evidence attachment" (Unmarshal_map raw);
  presentation ← wrap_err "decode signing evidence attachment" (string_field m "poa_presentation");
  match m !! "summary" with
  | None => Err (Errorf "signing evidence attachment carries no signing summary")
  | Some summary =>
      subject ← ReadSigningEvidenceSubject summary;
      Ok ({| Summary := summary; PoAPresentation := presentation |}, subject)
  end.

(** ** oid4vp: counterparty_poa.go *)

(** What verifying a credential document establishes ([verifyCredentialDocument]
    and [checkStatusList], over a parsed presentation). *)
Record CredentialDocument := { cd_Organization : string; cd_SubjectDID : string }.

Definition VerifyCounterpartyPoA (document : string → result CredentialDocument)
    (presentation organization signatory : string) : result () :=
  let organization := TrimSpace organization in
  let signatory := TrimSpace signatory in
  if bool_decide (organization = EmptyString) then Err (Errorf "no party to verify the Power of Attorney against")
  else if bool_decide (signatory = EmptyString) then Err (Errorf "party records no signatory") else
  document ← document (TrimSpace presentation);
  if negb (bool_decide (cd_Organization document = organization))
  then Err (Errorf "power of attorney authorizes another organization")
  else if negb (bool_decide (cd_SubjectDID document = signatory))
  then Err (Errorf "power of attorney is held by somebody else")
  else Ok ().

(** ** counterpartypoa.go *)

(** [poa_Verify] takes the presentation, the organization and the signatory; no
    issuer trust is configured when it is [None]. *)
Record CounterpartyPoAGate := { poa_Verify : option (string → string → string → result ()) }.

Record ShippedSignatures := {
  VerifyVC : option (json → point → result ());
  ResolveKey : option (string → string → result point)
}.

Definition verifySummary (verifyVC : json → point → result ()) (resolveKey : string → string → result point)
    (summary : json) (owner : string) : result () :=
  envelope ← wrap_err "decode signing evidence proof" (Unmarshal_map summary);
  proof ← wrap_err "decode signing evidence proof" (proof_members (envelope !! "proof"));
  key ← wrap_err "signing evidence" (resolveKey owner proof.1);
  if negb (bool_decide (TrimSpace proof.2 = "assertionMethod"))
  then Err (Errorf "signing evidence carries a proof for another purpose") else
  wrap_err "signing evidence does not verify" (verifyVC summary key).

(** The instance that owns a signed field. *)
Definition field_owner (peerDID organization : string) : string :=
  if HasPrefix organization "did:web:" then organization else TrimSpace peerDID.

Definition check_evidence (verify : string → string → string → result ()) (verifyVC : json → point → result ())
    (resolveKey : string → string → result point) (peerDID localDID contractIRI : string) (raw : json) : result () :=
  '(attachment, subject) ← wrap_err "counterparty Power of Attorney" (ReadSigningEvidence raw);
  let organization := se_FieldName subject in
  if bool_decide (organization = EmptyString) then Err (Errorf "signing summary naming no signature field") else
  _ ← wrap_err "counterparty Power of Attorney"
        (verifySummary verifyVC resolveKey (Summary attachment) (field_owner peerDID organization));
  if negb (bool_decide (se_ContractID subject = TrimSpace contractIRI))
  then Err (Errorf "signing summary attests a signature on another contract")
  else if bool_decide (Signatory subject = EmptyString) then Err (Errorf "signing summary names no signatory")
  else if SameDIDWeb organization (TrimSpace localDID) then Ok ()
  else if bool_decide (PoAPresentation attachment = EmptyString) then Ok ()
  else wrap_err "counterparty Power of Attorney for party" (verify (PoAPresentation attachment) organization (Signatory subject)).

Fixpoint check_each {A} (f : A → result ()) (l : list A) : result () :=
  match l with [] => Ok () | a :: l' => _ ← f a; check_each f l' end.

Definition PoA_Check (g : CounterpartyPoAGate) (peerDID localDID contractIRI : string) (signed : ShippedSignatures)
    (evidence : list json) : verdict :=
  let deny err := Denied {| g_Kind := PoAFailure; g_PeerDID := peerDID; g_Err := err |} in
  match evidence with
  | [] => Allowed
  | _ =>
      match poa_Verify g, VerifyVC signed, ResolveKey signed with
      | None, _, _ => deny (Errorf "no issuer trust is configured")
      | Some verify, Some verifyVC, Some resolveKey =>
          match check_each (check_evidence verify verifyVC resolveKey peerDID localDID contractIRI) evidence with
          | Ok _ => Allowed
          | Err err => deny err
          end
      | _, _, _ => deny (Errorf "no means to verify the embedded signing evidence")
      end
  end.
