(* ===== verification/TrustLaws.v ===== *)
(** Theorems on the federation trust gate: what an interaction needs to be let
    through, how long a credential lasts, and what a shipped PDF's evidence
    attests. *)
From S2P Require Import Prelude Json Sha256 DidWeb Envelope ArtifactStore DidDocument PeerIdentity TrustGate.
Import GoStrings.

Section laws.
Context {I : IdentityServices} {T : TrustServices}.

Lemma didWebTarget_Ok did u : didWebTarget did = Ok u → ∃ host path, DIDWebPath did = Ok (host, path) ∧ u = DIDWebBaseURL "https" host path.
Proof.
  unfold didWebTarget, mbind, result_bind. destruct (DIDWebPath did) as [[host path]|]; [|done].
  intros HE. injection HE as <-. by exists host, path.
Qed.

(** Two identifiers with one target are one peer that resolves. *)
Lemma same_target a b u : didWebTarget a = Ok u → didWebTarget b = Ok u → same_peer a b.
Proof.
  intros (h & p & Ha & ->)%didWebTarget_Ok (h' & p' & Hb & E)%didWebTarget_Ok. by eapply (same_base_iff a b).
Qed.

(** ** The agreement credential *)

(** The window of a credential, once its members decode. *)
Definition window_of (credential : json) (from until : Z) : Prop :=
  ∃ m vf vu i x, Unmarshal_map credential = Ok m ∧
    string_field m "validFrom" = Ok vf ∧ string_field m "validUntil" = Ok vu ∧
    string_field m "issuanceDate" = Ok i ∧ string_field m "expirationDate" = Ok x ∧
    parseCredentialTime (firstNonEmpty [vf; i]) = Ok from ∧ parseCredentialTime (firstNonEmpty [vu; x]) = Ok until.

Definition in_force (from until now : Z) : bool :=
  negb (IsZero until) &&
  (IsZero from || (negb (until <? from) && negb (now + credentialClockSkew <? from))) &&
  negb (MaxAgreementCredentialLifetime <? Sub until (if IsZero from then now else from)) &&
  negb (until <? now - credentialClockSkew).

Lemma requireCredentialInForce_iff credential now :
  requireCredentialInForce credential now = Ok () ↔
  ∃ from until, window_of credential from until ∧ in_force from until now = true.
Proof.
  unfold requireCredentialInForce, window_of, mbind, result_bind. split.
  - destruct (Unmarshal_map credential) as [m|]; [|done]. cbn [wrap_err].
    destruct (string_field m "validFrom") as [vf|] eqn:E1; [|done].
    destruct (string_field m "validUntil") as [vu|] eqn:E2; [|done].
    destruct (string_field m "issuanceDate") as [i|] eqn:E3; [|done].
    destruct (string_field m "expirationDate") as [x|] eqn:E4; [|done]. cbn [wrap_err].
    destruct (parseCredentialTime (firstNonEmpty [vf; i])) as [from|] eqn:E5; [|done].
    destruct (parseCredentialTime (firstNonEmpty [vu; x])) as [until|] eqn:E6; [|done].
    intros HR. exists from, until. split; [by exists m, vf, vu, i, x|]. unfold in_force.
    destruct (IsZero until); [done|]. destruct (IsZero from).
    + destruct (MaxAgreementCredentialLifetime <? _); [done|]. by destruct (until <? now - _).
    + destruct (until <? from); [done|]. destruct (now + _ <? from); [done|].
      destruct (MaxAgreementCredentialLifetime <? _); [done|]. by destruct (until <? now - _).
  - intros (from & until & (m & vf & vu & i & x & -> & E1 & E2 & E3 & E4 & E5 & E6) & Hf).
    cbn [wrap_err]. rewrite E1, E2, E3, E4. cbn [wrap_err]. rewrite E5, E6. unfold in_force in Hf.
    destruct (IsZero until); [done|]. destruct (IsZero from); cbn [orb andb negb] in Hf.
    + destruct (MaxAgreementCredentialLifetime <? _); [done|]. by destruct (until <? now - _).
    + destruct (until <? from); [done|]. destruct (now + _ <? from); [done|].
      destruct (MaxAgreementCredentialLifetime <? _); [done|]. by destruct (until <? now - _).
Qed.

Lemma window_unique credential f u f' u' : window_of credential f u → window_of credential f' u' → f = f' ∧ u = u'.
Proof.
  intros (m & vf & vu & i & x & E0 & E1 & E2 & E3 & E4 & E5 & E6) (m' & vf' & vu' & i' & x' & F0 & F1 & F2 & F3 & F4 & F5 & F6).
  rewrite E0 in F0. injection F0 as <-. rewrite E1 in F1. rewrite E2 in F2. rewrite E3 in F3. rewrite E4 in F4.
  injection F1 as <-. injection F2 as <-. injection F3 as <-. injection F4 as <-.
  rewrite E5 in F5. rewrite E6 in F6. by simplify_eq.
Qed.

Lemma in_force_bound from until now : in_force from until now = true →
  now - credentialClockSkew <= until <= now + credentialClockSkew + MaxAgreementCredentialLifetime.
Proof.
  unfold in_force. rewrite !andb_true_iff, !negb_true_iff, orb_true_iff, !Z.ltb_ge.
  intros (((_ & Hfrom) & Hlen) & Hexp). split; [done|].
  assert (Hs : ∀ b, Sub until b <= MaxAgreementCredentialLifetime → until - b <= MaxAgreementCredentialLifetime).
  { intros b. unfold Sub, MaxAgreementCredentialLifetime, second. lia. }
  apply Hs in Hlen. assert (0 <= credentialClockSkew) by by vm_compute.
  destruct (IsZero from); [lia|]. destruct Hfrom as [|[_ Hn]%andb_true_iff]; [done|].
  rewrite negb_true_iff, Z.ltb_ge in Hn. lia.
Qed.

(** Every agreement credential stops being accepted, whatever window it
    claims: one that is accepted at some time is refused by every check made more
    than the longest permitted lifetime and twice the clock tolerance later (seven
    days and ten minutes).  So a peer that is removed from the federation cannot
    pass the gate with a credential it already holds beyond that bound. *)
Theorem agreement_credentials_expire (credential : json) (now later : Z) :
  requireCredentialInForce credential now = Ok () →
  now + 2 * credentialClockSkew + MaxAgreementCredentialLifetime < later →
  ∃ err, requireCredentialInForce credential later = Err err.
Proof.
  intros (from & until & Hw & Hf)%requireCredentialInForce_iff Hlate.
  destruct (requireCredentialInForce credential later) as [[]|err] eqn:E; [exfalso|by exists err].
  apply requireCredentialInForce_iff in E as (from' & until' & Hw' & Hf').
  destruct (window_unique _ _ _ _ _ Hw Hw') as [<- <-].
  apply in_force_bound in Hf, Hf'. lia.
Qed.

(** ** The credential this instance serves *)

(** What is relied on: RFC 3339 text reads back to the second, and the signer adds
    a proof and keeps the members it was given. *)
Record signing_laws (sign : json → result json) : Prop := {
  parse_format t : t mod second = 0 → ParseRFC3339 (FormatRFC3339 t) = Some t;
  format_trimmed t : TrimSpace (FormatRFC3339 t) = FormatRFC3339 t ∧ FormatRFC3339 t ≠ EmptyString;
  signed_members m c : sign (JObj m) = Ok c →
    ∃ m', c = JObj m' ∧ ∀ key, key ≠ "proof" → m' !! key = m !! key
}.

(** The issuer holds nothing, or a credential it minted earlier. *)
Definition holds (issuerDID rulesURL : string) (now : Z) (held : option (json * Z)) : Prop :=
  match held with
  | None => True
  | Some (credential, since) => 0 <= since <= now ∧ BuildAgreementCredential issuerDID rulesURL since = Ok credential
  end.

Lemma built_window sign issuerDID rulesURL since credential :
  CredentialSigner = Some sign → signing_laws sign → 0 <= since →
  BuildAgreementCredential issuerDID rulesURL since = Ok credential →
  ∃ from, from = since - since mod second ∧ window_of credential from (from + AgreementCredentialLifetime).
Proof.
  intros Hs L Hsince. unfold BuildAgreementCredential. rewrite Hs. do 2 (case_bool_decide; [done|]).
  intros Hb%wrapped_Ok. apply (signed_members _ L) in Hb as (m & -> & Hm). eexists. split; [reflexivity|].
  set (from := since - since mod second).
  assert (Hf : from mod second = 0).
  { unfold from. by rewrite Zminus_mod_idemp_r, Z.sub_diag. }
  assert (Hu : (from + AgreementCredentialLifetime) mod second = 0).
  { rewrite Zplus_mod, Hf. done. }
  exists m, (FormatRFC3339 from), (FormatRFC3339 (from + AgreementCredentialLifetime)), EmptyString, EmptyString.
  assert (Hparse : ∀ t, t mod second = 0 → parseCredentialTime (firstNonEmpty [FormatRFC3339 t; EmptyString]) = Ok t).
  { intros t Ht. destruct (format_trimmed _ L t) as [Htrim Hne]. unfold firstNonEmpty. cbn [List.find].
    rewrite Htrim, bool_decide_eq_false_2 by done. cbn [negb default id].
    unfold parseCredentialTime. rewrite Htrim, bool_decide_eq_false_2 by done.
    by rewrite (parse_format _ L). }
  split; [done|]. unfold string_field. rewrite !Hm by done. unfold unsigned_agreement.
  repeat (rewrite lookup_insert_ne by done). rewrite lookup_insert_eq.
  repeat (rewrite lookup_insert_ne by done). rewrite lookup_insert_eq.
  repeat (rewrite lookup_insert_ne by done). rewrite !lookup_singleton_ne by done.
  split_and!; try done; by apply Hparse.
Qed.

(** The agreement credential this instance serves is in force for whoever
    fetches it: it passes the validity check on every clock from the tolerance
    before the fetch to almost half a lifetime after it, however long the process
    has been up, because a credential past half its lifetime is re-minted; and what
    the issuer then holds is again a credential it minted. *)
Theorem served_credential_is_in_force (sign : json → result json) (issuerDID rulesURL : string) (now : Z)
    (held held' : option (json * Z)) (credential : json) :
  CredentialSigner = Some sign → signing_laws sign → 0 <= now →
  holds issuerDID rulesURL now held → Current issuerDID rulesURL now held = (Ok credential, held') →
  (∀ later, now <= later → holds issuerDID rulesURL later held') ∧
  (∀ clock, now - credentialClockSkew <= clock <= now + AgreementCredentialLifetime / 2 - second + credentialClockSkew →
    requireCredentialInForce credential clock = Ok ()).
Proof.
  intros Hs L Hnow Hheld HC.
  assert (Hbuilt : ∃ since, held' = Some (credential, since) ∧ 0 <= since <= now ∧
    now - since < AgreementCredentialLifetime / 2 ∧ BuildAgreementCredential issuerDID rulesURL since = Ok credential).
  { assert (Hfresh : match BuildAgreementCredential issuerDID rulesURL now with
      | Ok c => (Ok c, Some (c, now)) | Err err => (Err err, held) end = (Ok credential, held') →
      ∃ since, held' = Some (credential, since) ∧ 0 <= since <= now ∧
        now - since < AgreementCredentialLifetime / 2 ∧ BuildAgreementCredential issuerDID rulesURL since = Ok credential).
    { destruct (BuildAgreementCredential issuerDID rulesURL now) as [c|] eqn:Eb; [|done].
      intros HE. injection HE as -> <-. exists now. split_and!; try lia; try done. rewrite Z.sub_diag. by vm_compute. }
    unfold Current in HC. destruct held as [[c since]|]; [|by apply Hfresh].
    destruct (Sub now since <? _) eqn:Eold; [|by apply Hfresh]. injection HC as -> <-. destruct Hheld as [Hr Hb].
    exists since. split_and!; try lia; try done. apply Z.ltb_lt in Eold. revert Eold.
    change (AgreementCredentialLifetime / 2) with 43200000000000. unfold Sub. lia. }
  destruct Hbuilt as (since & -> & Hr & Hage & Hb). split.
  { intros later Hl. cbn. split; [lia|done]. }
  intros clock Hclock. destruct (built_window _ _ _ _ _ Hs L (proj1 Hr) Hb) as (from & Efrom & Hw).
  apply requireCredentialInForce_iff. exists from, (from + AgreementCredentialLifetime). split; [done|].
  assert (Hmod : 0 <= since mod second < second) by (apply Z.mod_pos_bound; done).
  unfold in_force, IsZero. 
  assert (Hz : zero_time < 0) by done. assert (Hl : AgreementCredentialLifetime = 86400 * second) by done.
  assert (Hm : MaxAgreementCredentialLifetime = 604800 * second) by done.
  assert (Hk : credentialClockSkew = 300 * second) by done.
  assert (Hh : AgreementCredentialLifetime / 2 = 43200 * second) by done.
  assert (Hsec : second = 1000000000) by done.
  assert (Hzero : zero_time < - second) by done.
  rewrite !(proj2 (Z.eqb_neq _ _)) by lia. cbn [negb orb andb].
  rewrite !(proj2 (Z.ltb_ge _ _)); [done|..]; unfold Sub; lia.
Qed.

(** ** The gate *)

(** What the peer's credential has to be, read against its own document. *)
Definition agreement_ok (peerDID : string) (doc : DIDDocument) (credential : json) (now : Z) : Prop :=
  ∃ parsed method purpose issuer target key,
    Unmarshal_map credential = Ok parsed ∧ proof_members (parsed !! "proof") = Ok (method, purpose) ∧
    issuerIdentifier (parsed !! "issuer") = Ok issuer ∧
    didWebTarget issuer = Ok target ∧ didWebTarget peerDID = Ok target ∧
    TrimSpace purpose = "assertionMethod" ∧ AssertionKey (Some doc) method = Ok key ∧
    VerifyDataIntegrityProof credential key = Ok () ∧
    termsOfUseHash (parsed !! "termsOfUse") = Ok rules_hash ∧
    requireCredentialInForce credential now = Ok ().

Lemma check_agreement_iff peerDID doc credential now :
  check_agreement peerDID doc credential now = Ok () ↔ agreement_ok peerDID doc credential now.
Proof.
  unfold check_agreement, agreement_ok, mbind, result_bind. split.
  - destruct (Unmarshal_map credential) as [parsed|]; [|done]. cbn [wrap_err].
    destruct (proof_members _) as [[method purpose]|] eqn:Ep; [|done]. cbn [wrap_err].
    destruct (issuerIdentifier _) as [issuer|] eqn:Ei; [|done].
    destruct (didWebTarget issuer) as [t|] eqn:Et; [|done]. cbn [wrap_err].
    destruct (didWebTarget peerDID) as [t'|] eqn:Et'; [|done]. cbn [wrap_err].
    case_bool_decide as E1; [|done]. cbn [negb fst snd]. case_bool_decide as E2; [|done]. cbn [negb].
    destruct (AssertionKey _ _) as [key|] eqn:Ek; [|done]. cbn [wrap_err].
    destruct (VerifyDataIntegrityProof _ _) as [[]|] eqn:Ev; [|done]. cbn [wrap_err].
    destruct (termsOfUseHash _) as [h|] eqn:Eh; [|done]. case_bool_decide as E3; [|done]. cbn [negb].
    intros Hf. subst. by exists parsed, method, purpose, issuer, t', key.
  - intros (parsed & method & purpose & issuer & t & key & -> & Ep & Ei & Et & Et' & E2 & Ek & Ev & Eh & Hf).
    cbn [wrap_err]. rewrite Ep. cbn [wrap_err]. rewrite Ei, Et. cbn [wrap_err]. rewrite Et'. cbn [wrap_err fst snd].
    rewrite bool_decide_eq_true_2, bool_decide_eq_true_2 by done. cbn [negb]. rewrite Ek. cbn [wrap_err].
    rewrite Ev. cbn [wrap_err]. rewrite Eh, bool_decide_eq_true_2 by done. done.
Qed.

Lemma credential_verified peerDID now credential :
  verifyAgreementCredential peerDID now = Ok credential ↔
  ∃ doc id body, FetchDIDDocument peerDID = Ok doc ∧ DocumentID doc = Ok id ∧ same_peer id peerDID ∧
    fetchAgreementCredential peerDID = Ok body ∧ DecodeJSON body = Ok credential ∧
    agreement_ok peerDID doc credential now.
Proof.
  unfold verifyAgreementCredential, mbind, result_bind. split.
  - destruct (FetchDIDDocument peerDID) as [doc|] eqn:Ed; [|done]. cbn [wrap_err requireDocumentIsFor].
    unfold mbind, result_bind. destruct (DocumentID doc) as [id|] eqn:Eid; [|done]. cbn [wrap_err].
    destruct (SameDIDWeb id peerDID) eqn:Es; [|done]. cbn [wrap_err].
    destruct (fetchAgreementCredential peerDID) as [body|] eqn:Eb; [|done]. cbn [wrap_err].
    destruct (DecodeJSON body) as [c|] eqn:Ej; [|done]. cbn [wrap_err].
    destruct (check_agreement _ _ _ _) as [[]|] eqn:Ec; [|done]. intros HE. injection HE as <-.
    exists doc, id, body. split_and!; try done. by apply check_agreement_iff.
  - intros (doc & id & body & -> & Eid & Es & Eb & Ej & Ec%check_agreement_iff).
    cbn [wrap_err requireDocumentIsFor]. unfold mbind, result_bind. rewrite Eid. cbn [wrap_err].
    unfold same_peer in Es. rewrite Es. cbn [wrap_err]. rewrite Eb. cbn [wrap_err]. rewrite Ej. cbn [wrap_err].
    by rewrite Ec.
Qed.

(** C23: The trust gate lets an interaction through exactly when the peer serves,
    under a document that identifies itself as that peer, an agreement credential
    issued by the same peer, proved for assertion with a key that document publishes
    for assertion, naming this instance's own rules hash and in force now, and the
    configured policy endpoint answers 2xx to the interaction.  So a missing
    endpoint, an unreachable one and an unverifiable credential all deny, and every
    denial names the peer and the layer that refused. *)
Theorem gate_admits_exactly (peerDID : string) (direction : Direction) (contractDID targetState : string) (now : Z) :
  (Check peerDID direction contractDID targetState now = Allowed ↔
   ∃ doc id body credential status,
     FetchDIDDocument peerDID = Ok doc ∧ DocumentID doc = Ok id ∧ same_peer id peerDID ∧
     fetchAgreementCredential peerDID = Ok body ∧ DecodeJSON body = Ok credential ∧
     agreement_ok peerDID doc credential now ∧
     TrimSpace PDPURL ≠ EmptyString ∧
     ConsultPDP (TrimSpace PDPURL) (policy_request peerDID credential direction contractDID targetState) = Ok status ∧
     200 <= status < 300) ∧
  (∀ g, Check peerDID direction contractDID targetState now = Denied g →
     g_PeerDID g = peerDID ∧
     (g_Kind g = AgreementFailure ↔ is_ok (verifyAgreementCredential peerDID now) = false) ∧ g_Kind g ≠ PoAFailure).
Proof.
  unfold Check. split.
  - split.
    + destruct (verifyAgreementCredential peerDID now) as [credential|] eqn:Ev; [|done].
      apply credential_verified in Ev as (doc & id & body & ? & ? & ? & ? & ? & ?).
      destruct (consultPolicyEndpoint _ _ _ _ _) as [[]|] eqn:Ep; [|done]. intros _.
      unfold consultPolicyEndpoint, mbind, result_bind in Ep. case_bool_decide; [done|].
      destruct (ConsultPDP _ _) as [status|] eqn:Es; [|done]. cbn [wrap_err] in Ep.
      destruct ((status <? 200) || (300 <=? status)) eqn:Eb; [done|].
      apply orb_false_iff in Eb as [E1%Z.ltb_ge E2%Z.leb_gt].
      exists doc, id, body, credential, status. split_and!; done.
    + intros (doc & id & body & credential & status & ? & ? & ? & ? & ? & ? & Hu & Es & Hr).
      rewrite (proj2 (credential_verified peerDID now credential)) by (exists doc, id, body; done).
      unfold consultPolicyEndpoint, mbind, result_bind. rewrite bool_decide_eq_false_2, Es by done. cbn [wrap_err].
      by rewrite (proj2 (Z.ltb_ge _ _)), (proj2 (Z.leb_gt _ _)) by lia.
  - intros g. destruct (verifyAgreementCredential peerDID now) as [credential|].
    + destruct (consultPolicyEndpoint _ _ _ _ _) as [[]|]; [done|]. intros HE. by injection HE as <-.
    + intros HE. by injection HE as <-.
Qed.

(** ** The evidence of a shipped PDF *)

(** One attachment stands for a signature: its summary is proved with a key that the
    owner of the signed field publishes, is about this contract, names its
    signatory, and carries no Power of Attorney of another party that does not
    verify for that party and signatory. *)
Definition vouched_for (verify : string → string → string → result ()) (verifyVC : json → point → result ())
    (resolveKey : string → string → result point) (peerDID localDID contractIRI : string) (raw : json) : Prop :=
  ∃ attachment subject envelope method purpose key,
    ReadSigningEvidence raw = Ok (attachment, subject) ∧ se_FieldName subject ≠ EmptyString ∧
    Unmarshal_map (Summary attachment) = Ok envelope ∧ proof_members (envelope !! "proof") = Ok (method, purpose) ∧
    resolveKey (field_owner peerDID (se_FieldName subject)) method = Ok key ∧ TrimSpace purpose = "assertionMethod" ∧
    verifyVC (Summary attachment) key = Ok () ∧
    se_ContractID subject = TrimSpace contractIRI ∧ Signatory subject ≠ EmptyString ∧
    (SameDIDWeb (se_FieldName subject) (TrimSpace localDID) = true ∨ PoAPresentation attachment = EmptyString ∨
     verify (PoAPresentation attachment) (se_FieldName subject) (Signatory subject) = Ok ()).

Lemma check_evidence_iff verify verifyVC resolveKey peerDID localDID contractIRI raw :
  check_evidence verify verifyVC resolveKey peerDID localDID contractIRI raw = Ok () ↔
  vouched_for verify verifyVC resolveKey peerDID localDID contractIRI raw.
Proof.
  unfold check_evidence, vouched_for, verifySummary, mbind, result_bind. split.
  - destruct (ReadSigningEvidence raw) as [[a s]|]; [|done]. cbn [wrap_err].
    case_bool_decide as E1; [done|].
    destruct (Unmarshal_map (Summary a)) as [env|] eqn:Eu; [|done]. cbn [wrap_err].
    destruct (proof_members _) as [[method purpose]|] eqn:Ep; [|done]. cbn [wrap_err fst snd].
    destruct (resolveKey _ _) as [key|] eqn:Ek; [|done]. cbn [wrap_err].
    case_bool_decide as E2; [|done]. cbn [negb].
    destruct (verifyVC _ _) as [[]|] eqn:Ev; [|done]. cbn [wrap_err].
    case_bool_decide as E3; [|done]. cbn [negb]. case_bool_decide as E4; [done|].
    intros HR. exists a, s, env, method, purpose, key. split_and!; try done.
    destruct (SameDIDWeb _ _); [by left|]. right. case_bool_decide as E5; [by left|]. right.
    by apply wrapped_Ok in HR.
  - intros (a & s & env & method & purpose & key & -> & E1 & Eu & Ep & Ek & E2 & Ev & E3 & E4 & E5).
    cbn [wrap_err]. rewrite bool_decide_eq_false_2, Eu by done. cbn [wrap_err]. rewrite Ep. cbn [wrap_err fst snd].
    rewrite Ek. cbn [wrap_err]. rewrite bool_decide_eq_true_2 by done. cbn [negb]. rewrite Ev. cbn [wrap_err].
    rewrite bool_decide_eq_true_2 by done. cbn [negb]. rewrite bool_decide_eq_false_2 by done.
    destruct E5 as [-> | [E5|E5]]; [done|..]; destruct (SameDIDWeb _ _); try done; case_bool_decide; try done.
    by rewrite E5.
Qed.

Lemma check_each_iff {A} (f : A → result ()) l : check_each f l = Ok () ↔ ∀ a, a ∈ l → f a = Ok ().
Proof.
  induction l as [|a l IH]; cbn [check_each].
  - split; [intros _ a []%elem_of_nil|done].
  - unfold mbind, result_bind. destruct (f a) as [[]|] eqn:E.
    + rewrite IH. split; [|by intros H b Hb; apply H, elem_of_cons; right].
      intros H b [->|Hb]%elem_of_cons; [done|by apply H].
    + split; [done|]. intros H. rewrite H in E; [done|]. by apply list_elem_of_here.
Qed.

(** A shipped PDF that carries signing evidence passes the counterparty gate
    exactly when the gate is configured and EVERY attachment stands for a
    signature on this very contract: proved with a key its field's owner publishes,
    so that a shipper vouches only for its own fields, and with no unverifiable
    Power of Attorney of another party.  One attachment that does not refuses the
    ship; no evidence at all does not. *)
Theorem shipped_evidence_is_vouched_for (g : CounterpartyPoAGate) (peerDID localDID contractIRI : string)
    (signed : ShippedSignatures) (evidence : list json) :
  PoA_Check g peerDID localDID contractIRI signed evidence = Allowed ↔
  evidence = [] ∨ ∃ verify verifyVC resolveKey,
    poa_Verify g = Some verify ∧ VerifyVC signed = Some verifyVC ∧ ResolveKey signed = Some resolveKey ∧
    ∀ raw, raw ∈ evidence → vouched_for verify verifyVC resolveKey peerDID localDID contractIRI raw.
Proof.
  unfold PoA_Check. destruct evidence as [|raw0 evidence]; [split; [by left|done]|]. set (all := raw0 :: evidence).
  destruct (poa_Verify g) as [verify|]; [|split; [done|by intros [?|(? & ? & ? & ? & ?)]]].
  destruct (VerifyVC signed) as [verifyVC|]; [|split; [done|by intros [?|(? & ? & ? & ? & ? & ?)]]].
  destruct (ResolveKey signed) as [resolveKey|]; [|split; [done|by intros [?|(? & ? & ? & ? & ? & ? & ?)]]].
  destruct (check_each _ all) as [[]|] eqn:E.
  - split; [|done]. intros _. right. exists verify, verifyVC, resolveKey. split_and!; try done.
    intros raw Hraw. apply check_evidence_iff. by apply (proj1 (check_each_iff _ _) E).
  - split; [done|]. intros [?|(v & vc & rk & Ev & Evc & Erk & Hall)]; [done|]. simplify_eq.
    rewrite (proj2 (check_each_iff _ _)) in E; [done|]. intros raw Hraw. by apply check_evidence_iff, Hall.
Qed.

End laws.

(** ** A concrete federation *)

(** A text form of times without digits to carry. *)
Fixpoint letters (p : positive) : string :=
  match p with xH => "I" | xO q => String "o" (letters q) | xI q => String "i" (letters q) end.
Fixpoint of_letters (s : string) : option positive :=
  match s with
  | String "I" EmptyString => Some xH
  | String "o" s' => xO <$> of_letters s'
  | String "i" s' => xI <$> of_letters s'
  | _ => None
  end.

Lemma of_letters_letters p : of_letters (letters p) = Some p.
Proof. induction p as [q IH|q IH|]; [..|done]; cbn [letters of_letters]; by rewrite IH. Qed.

Lemma letters_trimmed p : TrimSpace (letters p) = letters p ∧ letters p ≠ EmptyString.
Proof.
  split; [|by destruct p]. unfold TrimSpace.
  assert (Hl : trim_left is_space (letters p) = letters p) by by destruct p.
  rewrite Hl. induction p as [q IH|q IH|]; [..|done]; cbn [letters trim_right];
    rewrite IH by (by destruct q); by destruct (letters q) eqn:E; [destruct q|].
Qed.

Definition demo_trust : TrustServices := {|
  DecodeBase58 := λ s, if bool_decide (s = "b") then Some (replicate 62 0 ++ [3; 4]) else None;
  NormalizeJSONLD := λ _, Ok [];
  VerifySignature := λ key _ _ t, t =? be_value [key.1; key.2];
  ParseRFC3339 := λ s, of_letters s ≫= decode;
  FormatRFC3339 := λ t, letters (encode t);
  Rules := of_string "rules";
  PDPURL := "http://pdp";
  ConsultPDP := λ _ request, match request with
    | JObj m => if bool_decide (m !! "peerDID" = Some (JStr "did:web:b.example")) then Ok 204 else Ok 403
    | _ => Ok 400 end;
  EncodeJSON := λ _, [];
  CredentialSigner := Some (λ j, match j with
    | JObj m => Ok (JObj (<["proof" := JObj (<["type" := JStr "DataIntegrityProof"]> (<["cryptosuite" := JStr "ecdsa-rdfc-2019"]>
        (<["proofPurpose" := JStr "assertionMethod"]> (<["verificationMethod" := JStr "did:web:b.example#key-1"]>
        {["proofValue" := JStr "zb"]}))))]> m))
    | _ => Err (Errorf "not an object") end)
|}.
#[local] Existing Instance demo_trust.

Lemma demo_signing_laws sign : CredentialSigner = Some sign → signing_laws sign.
Proof.
  intros [= <-]. split.
  - intros t _. cbn. rewrite of_letters_letters. cbn. by rewrite decode_encode.
  - intros t. apply letters_trimmed.
  - intros m c HE. injection HE as <-. eexists. split; [reflexivity|]. intros key Hk. by rewrite lookup_insert_ne.
Qed.

(** The credential of b.example, minted at [1785500000] s. *)
Definition agreement_b : result json :=
  BuildAgreementCredential "did:web:b.example" "https://b.example/rules" (1785500000 * second).

Definition federation_served (body : bytes) : option json :=
  if bool_decide (body = of_string "https://b.example/.well-known/dcs-agreement-credential.json")
  then match agreement_b with Ok c => Some c | Err _ => None end
  else demo_served body.

#[local] Instance federation_identities : IdentityServices := demo_identity federation_served.

Definition allowed (v : verdict) : bool := match v with Allowed => true | Denied _ => false end.

(** b.example is let through until its credential expires; a.example serves
    none. *)
Example gates :
  allowed (Check "did:web:b.example" Inbound "did:c1" "" (1785500000 * second)) = true ∧
  allowed (Check "did:web:b.example" Inbound "did:c1" "" (1785500000 * second + AgreementCredentialLifetime + credentialClockSkew + 1)) = false ∧
  allowed (Check "did:web:a.example" Outbound "did:c1" "OFFERED" (1785500000 * second)) = false.
Proof. split_and!; vm_compute; reflexivity. Qed.

Definition t0 : Z := 1785500000 * second.

Lemma gate_witness : ∃ doc credential,
  FetchDIDDocument "did:web:b.example" = Ok doc ∧ agreement_ok "did:web:b.example" doc credential t0 ∧
  ∃ g, Check "did:web:a.example" Outbound "did:c1" "OFFERED" t0 = Denied g ∧ g_PeerDID g = "did:web:a.example".
Proof.
  pose proof (proj1 gates) as C1. pose proof (proj2 (proj2 gates)) as C2.
  destruct (Check "did:web:b.example" Inbound "did:c1" "" (1785500000 * second)) as [|] eqn:E1; [|discriminate C1].
  destruct (Check "did:web:a.example" Outbound "did:c1" "OFFERED" (1785500000 * second)) as [|g] eqn:E2; [discriminate C2|].
  apply (gate_admits_exactly (I := federation_identities) (T := demo_trust)) in E1
    as (doc & id & body & credential & status & Hd & _ & _ & _ & _ & Ha & _).
  exists doc, credential. split; [exact Hd|]. split; [exact Ha|]. exists g. split; [exact E2|].
  exact (proj1 (proj2 (gate_admits_exactly (I := federation_identities) (T := demo_trust) _ _ _ _ _) g E2)).
Defined.

Lemma expiry_witness : ∃ credential err, agreement_b = Ok credential ∧
  requireCredentialInForce credential (t0 + 700000 * second) = Err err.
Proof.
  assert (C : (match agreement_b with Ok c => is_ok (requireCredentialInForce c t0) | Err _ => false end) = true)
    by (vm_compute; reflexivity).
  destruct agreement_b as [credential|] eqn:E; [|discriminate C].
  destruct (requireCredentialInForce credential t0) as [[]|] eqn:Ef; [|discriminate C].
  destruct (agreement_credentials_expire (T := demo_trust) credential t0 (t0 + 700000 * second) Ef) as [err He].
  - vm_compute. reflexivity.
  - exists credential, err. split; [reflexivity|exact He].
Defined.

Lemma served_witness : ∃ credential since,
  Current "did:web:b.example" "https://b.example/rules" t0 None = (Ok credential, Some (credential, since)) ∧
  requireCredentialInForce credential (t0 + 3600 * second) = Ok ().
Proof.
  destruct (Current "did:web:b.example" "https://b.example/rules" t0 None) as [r held] eqn:E.
  assert (C : (match Current "did:web:b.example" "https://b.example/rules" t0 None with
    (Ok _, Some _) => true | _ => false end) = true) by (vm_compute; reflexivity).
  rewrite E in C. destruct r as [credential|]; [|discriminate C].
  destruct (served_credential_is_in_force (T := demo_trust) _ "did:web:b.example" "https://b.example/rules" t0 None held credential eq_refl
    (demo_signing_laws _ eq_refl)) as [_ H].
  - vm_compute. discriminate.
  - exact Logic.I.
  - exact E.
  - destruct held as [[c since]|]; [|discriminate C]. 
    assert (c = credential) as ->.
    { unfold Current in E. destruct (BuildAgreementCredential _ _ _); [|discriminate E]. injection E. congruence. }
    exists credential, since. split; [reflexivity|]. apply H. split; vm_compute; discriminate.
Defined.

(** A signing summary of b.example's field on [did:c1]. *)
Definition evidence_b (method contract : string) : json :=
  JObj (<["poa_presentation" := JStr "poa"]>
   {["summary" := JObj (<["type" := JArr [JStr "ContractSigningSummaryCredential"]]>
     (<["proof" := JObj (<["proofPurpose" := JStr "assertionMethod"]> {["verificationMethod" := JStr method]})]>
     {["credentialSubject" := JObj (<["id" := JStr "did:key:bob"]> (<["field_name" := JStr "did:web:b.example"]>
        {["contract_id" := JStr contract]}))]}))]}).

Definition demo_shipped : ShippedSignatures :=
  {| VerifyVC := Some (λ _ key, if bool_decide (key = (3, 4)) then Ok () else Err (Errorf "signature"));
     ResolveKey := Some (λ owner method, doc ← FetchDIDDocument owner; AssertionKey (Some doc) method) |}.

Definition demo_poa : CounterpartyPoAGate :=
  {| poa_Verify := Some (VerifyCounterpartyPoA (λ _, Ok {| cd_Organization := "did:web:b.example"; cd_SubjectDID := "did:key:bob" |})) |}.

(** Evidence of another contract, or proved with a key-agreement key, refuses. *)
Example evidences :
  allowed (PoA_Check demo_poa "did:web:b.example" "did:web:a.example" "did:c1" demo_shipped [evidence_b "#key-1" "did:c1"]) = true ∧
  allowed (PoA_Check demo_poa "did:web:b.example" "did:web:a.example" "did:c1" demo_shipped
    [evidence_b "#key-1" "did:c1"; evidence_b "#key-1" "did:c2"]) = false ∧
  allowed (PoA_Check demo_poa "did:web:b.example" "did:web:a.example" "did:c1" demo_shipped [evidence_b "#kex" "did:c1"]) = false.
Proof. split_and!; vm_compute; reflexivity. Qed.

Lemma evidence_witness : ∃ verify verifyVC resolveKey,
  vouched_for verify verifyVC resolveKey "did:web:b.example" "did:web:a.example" "did:c1" (evidence_b "#key-1" "did:c1").
Proof.
  pose proof (proj1 evidences) as C.
  destruct (PoA_Check demo_poa _ _ _ _ _) as [|] eqn:E; [|discriminate C].
  apply shipped_evidence_is_vouched_for in E as [E | (verify & verifyVC & resolveKey & _ & _ & _ & H)]; [discriminate E|].
  exists verify, verifyVC, resolveKey. apply H. apply list_elem_of_here.
Defined.
