(* ===== verification/Handlers.v ===== *)
(** Handlers: what a service or a job does in several transactions.

    A handler that fails keeps what it committed before the failure, where a
    transaction keeps nothing; so a handler returns its store whatever its
    outcome.  Reasoned about, as a transaction is, by a relation every run stays
    inside. *)
From S2P Require Import Prelude Transactions.

Definition Handler (E S A : Type) : Type := E → S → result A * S.

#[export] Instance handler_ret {E S} : MRet (Handler E S) := λ A a _ s, (Ok a, s).
#[export] Instance handler_bind {E S} : MBind (Handler E S) := λ A B f m e s,
  match m e s with (Ok a, s') => f a e s' | (Err err, s') => (Err err, s') end.

Section handlers.
Context {E S : Type}.

(** One transaction, committed or rolled back. *)
Definition transact {A} (m : Txn E S A) : Handler E S A := commit m.
Definition fail {A} (err : error) : Handler E S A := λ _ s, (Err err, s).
Definition answer {A} (r : result A) : Handler E S A := λ _ s, (r, s).
Definition look {A} (f : E → S → A) : Handler E S A := λ e s, (Ok (f e s), s).
(** [if err != nil { return g(err) }]. *)
Definition classified {A} (g : error → error) (m : Handler E S A) : Handler E S A := λ e s,
  match m e s with (Ok a, s') => (Ok a, s') | (Err err, s') => (Err (g err), s') end.
Definition labelled {A} (msg : string) (m : Handler E S A) : Handler E S A := classified (Wrapf msg) m.
(** The outcome, as a value. *)
Definition outcome {A} (m : Handler E S A) : Handler E S (result A) := λ e s,
  let '(r, s') := m e s in (Ok r, s').
(** The error is logged. *)
Definition logged {A} (m : Handler E S A) : Handler E S () := _ ← outcome m; mret tt.
Definition fail_if (b : bool) (err : error) : Handler E S () := if b then fail err else mret tt.

Fixpoint each {A} (f : A → Handler E S ()) (l : list A) : Handler E S () :=
  match l with [] => mret tt | x :: l' => _ ← f x; each f l' end.

(** A run from the runs of its steps. *)
Lemma handler_then {A B} (m : Handler E S A) (f : A → Handler E S B) x s a s1 r :
  m x s = (Ok a, s1) → f a x s1 = r → (m ≫= f) x s = r.
Proof. intros Hm Hf. unfold mbind, handler_bind. by rewrite Hm. Qed.

(** ** What every run stays inside *)
Definition stays (R : S → S → Prop) {A} (m : Handler E S A) : Prop := ∀ e s, R s (m e s).2.

Section stays.
Context (R : S → S → Prop) {HR : PreOrder R}.

Lemma stays_ret {A} (a : A) : stays R (mret a : Handler E S A).
Proof. intros e s. reflexivity. Qed.
Lemma stays_fail {A} err : stays R (fail err : Handler E S A).
Proof. intros e s. reflexivity. Qed.
Lemma stays_answer {A} (r : result A) : stays R (answer r).
Proof. intros e s. reflexivity. Qed.
Lemma stays_look {A} (f : E → S → A) : stays R (look f).
Proof. intros e s. reflexivity. Qed.
Lemma stays_fail_if b err : stays R (fail_if b err).
Proof. intros e s. by destruct b. Qed.
Lemma stays_bind {A B} (m : Handler E S A) (f : A → Handler E S B) :
  stays R m → (∀ a, stays R (f a)) → stays R (m ≫= f).
Proof.
  intros Hm Hf e s. specialize (Hm e s). unfold mbind, handler_bind.
  destruct (m e s) as [[a|err] s']; [|exact Hm]. etrans; [exact Hm | apply Hf].
Qed.
Lemma stays_transact {A} (m : Txn E S A) : evolves R m → stays R (transact m).
Proof. intros Hm e s. by apply (evolves_commit R m e s). Qed.
Lemma stays_classified {A} g (m : Handler E S A) : stays R m → stays R (classified g m).
Proof. intros Hm e s. specialize (Hm e s). unfold classified. by destruct (m e s) as [[a|err] s']. Qed.
Lemma stays_labelled {A} msg (m : Handler E S A) : stays R m → stays R (labelled msg m).
Proof. apply stays_classified. Qed.
Lemma stays_outcome {A} (m : Handler E S A) : stays R m → stays R (outcome m).
Proof. intros Hm e s. specialize (Hm e s). unfold outcome. by destruct (m e s). Qed.
Lemma stays_logged {A} (m : Handler E S A) : stays R m → stays R (logged m).
Proof. intros Hm. apply stays_bind; [by apply stays_outcome | intros; apply stays_ret]. Qed.
Lemma stays_each {A} (f : A → Handler E S ()) l : (∀ x, x ∈ l → stays R (f x)) → stays R (each f l).
Proof.
  induction l as [|x l IH]; intros Hf; [apply stays_ret|].
  apply stays_bind; [apply Hf; left | intros _; apply IH; intros y Hy; apply Hf; by right].
Qed.
End stays.

(** ** Runs that succeed *)
Lemma handler_bind_Ok {A B} (m : Handler E S A) (f : A → Handler E S B) e s b s2 :
  (m ≫= f) e s = (Ok b, s2) ↔ ∃ a s1, m e s = (Ok a, s1) ∧ f a e s1 = (Ok b, s2).
Proof.
  unfold mbind, handler_bind. destruct (m e s) as [[a|err] s1]; split; [eauto| | |]; try naive_solver.
Qed.
Lemma handler_ret_Ok {A} (a : A) e s b s' : (mret a : Handler E S A) e s = (Ok b, s') ↔ b = a ∧ s' = s.
Proof. unfold mret, handler_ret. naive_solver. Qed.
Lemma answer_Ok {A} (r : result A) (e : E) (s : S) a s' : answer r e s = (Ok a, s') ↔ r = Ok a ∧ s' = s.
Proof. unfold answer. naive_solver. Qed.
Lemma look_Ok {A} (f : E → S → A) e s a s' : look f e s = (Ok a, s') ↔ a = f e s ∧ s' = s.
Proof. unfold look. naive_solver. Qed.
Lemma fail_if_Ok b err (e : E) (s : S) u s' : fail_if b err e s = (Ok u, s') ↔ b = false ∧ s' = s.
Proof. unfold fail_if, fail, mret, handler_ret. destruct b, u; naive_solver. Qed.
Lemma classified_Ok {A} g (m : Handler E S A) e s a s' :
  classified g m e s = (Ok a, s') ↔ m e s = (Ok a, s').
Proof. unfold classified. destruct (m e s) as [[?|?] ?]; naive_solver. Qed.
Lemma labelled_Ok {A} msg (m : Handler E S A) e s a s' :
  labelled msg m e s = (Ok a, s') ↔ m e s = (Ok a, s').
Proof. apply classified_Ok. Qed.
Lemma transact_Ok {A} (m : Txn E S A) e s a s' : transact m e s = (Ok a, s') ↔ m e s = Ok (a, s').
Proof. unfold transact, commit. destruct (m e s) as [[? ?]|]; naive_solver. Qed.
Lemma transact_Err {A} (m : Txn E S A) e s err s' :
  transact m e s = (Err err, s') ↔ m e s = Err err ∧ s' = s.
Proof. unfold transact, commit. destruct (m e s) as [[? ?]|]; naive_solver. Qed.
Lemma transact_cases {A} (m : Txn E S A) e s :
  (∃ a s', m e s = Ok (a, s') ∧ transact m e s = (Ok a, s')) ∨ (∃ err, transact m e s = (Err err, s)).
Proof. apply commit_cases. Qed.
Lemma outcome_Ok {A} (m : Handler E S A) e s r s' : outcome m e s = (Ok r, s') ↔ m e s = (r, s').
Proof. unfold outcome. destruct (m e s). naive_solver. Qed.
End handlers.

Create HintDb handler discriminated.
#[export] Hint Resolve stays_ret stays_fail stays_answer stays_look stays_fail_if stays_transact
  stays_classified stays_labelled stays_outcome stays_logged stays_each : handler.

(** Walk down a handler, leaving its transactions. *)
Ltac stays_step :=
  match goal with
  | |- stays _ (match ?x with _ => _ end) => destruct x eqn:?
  | |- stays _ (mbind _ _) => simple apply stays_bind; [apply _| |intros ?]
  | |- stays _ (classified _ _) => apply stays_classified
  | |- stays _ (labelled _ _) => apply stays_labelled
  | |- stays _ (outcome _) => apply stays_outcome
  | |- stays _ (logged _) => apply stays_logged; [apply _|]
  | |- stays _ _ => solve [eauto 6 with handler typeclass_instances | eassumption]
  end.
Ltac stays_tac := repeat stays_step.

(** Take a successful run apart, one step at a time. *)
Ltac handler_step :=
  match goal with
  | H : mbind _ _ _ _ = (Ok _, _) |- _ => apply handler_bind_Ok in H as (? & ? & ? & H)
  | H : mret _ _ _ = (Ok _, _) |- _ => apply handler_ret_Ok in H as [? ?]; subst
  | H : answer _ _ _ = (Ok _, _) |- _ => apply answer_Ok in H as [? ?]; subst
  | H : look _ _ _ = (Ok _, _) |- _ => apply look_Ok in H as [? ?]; subst
  | H : fail_if _ _ _ _ = (Ok _, _) |- _ => apply fail_if_Ok in H as [? ?]; subst
  | H : classified _ _ _ _ = (Ok _, _) |- _ => apply classified_Ok in H
  | H : labelled _ _ _ _ = (Ok _, _) |- _ => apply labelled_Ok in H
  | H : transact _ _ _ = (Ok _, _) |- _ => apply transact_Ok in H
  | H : outcome _ _ _ = (Ok _, _) |- _ => apply outcome_Ok in H
  | H : fail _ _ _ = (Ok _, _) |- _ => discriminate H
  | u : () |- _ => destruct u
  end.
Ltac handler_inv := repeat handler_step.
