(* ===== verification/SemanticHub.v ===== *)
(** The Semantic Hub: the versioned repository of the schemas documents are
    produced and judged against.

    internal/semantichub/semantichub.go (the table and its statements),
    peershapes.go (the shape libraries that travel with a shipped contract),
    shapesource.go (the resolution of a document's bundle, through a cache), and
    the endpoints of service/semantic_hub.go.

    The operations are written over any store that holds the table ([HubStore]):
    the hub's own process, and the federation store of a later file. *)
From S2P Require Import Prelude Json Transactions Handlers Document Authoring Anchors DidDocument PeerIdentity.
Import GoStrings.

(** A row of semantic_schemas; primary key (name, kind, version). *)
Record Schema := {
  h_Name : string; h_Version : Z; h_Kind : string; h_MediaType : string; h_Content : string;
  h_Active : bool; h_CreatedBy : string; h_CreatedAt : Z
}.
#[export] Instance Schema_eq_dec : EqDecision Schema.
Proof. solve_decision. Defined.

Definition schema_key (s : Schema) : string * string * Z := (h_Name s, h_Kind s, h_Version s).

(** A store that holds the table, and the clock its statements read. *)
Class HubStore (E S : Type) := {
  hub_rows : S → list Schema;
  set_hub_rows : (list Schema → list Schema) → S → S;
  hub_now : E → Z
}.
Class HubStoreLaws (E S : Type) `{HubStore E S} := {
  hub_rows_set f s : hub_rows (set_hub_rows f s) = f (hub_rows s)
}.

Definition ContextName : string := "facis-dcs".
Definition ShapesName : string := "facis-dcs".
Definition ProfileName : string := "facis.sla.basic".
Definition SLAOntologyName : string := "facis-sla".
Definition ODRLProfileName : string := "dcs-odrl-profile".
Definition ClauseCatalogName : string := "clause-catalog".
Definition ShapesKind : string := "shapes".
Definition PeerShapesKind : string := "peer-shapes".

(** The kinds the table takes. *)
Definition table_kinds : list string := ["context"; "shapes"; "profile"; "ontology"; "peer-shapes"].

Definition IsEnvelopeShapes (name : string) : bool :=
  bool_decide (name = ShapesName) || bool_decide (name = ClauseCatalogName).

Definition of_entry (name kind : string) (s : Schema) : bool :=
  bool_decide (h_Name s = name) && bool_decide (h_Kind s = kind).
Definition at_version (name kind : string) (version : Z) (s : Schema) : bool :=
  of_entry name kind s && bool_decide (h_Version s = version).
Definition is_active (name kind : string) (s : Schema) : bool := of_entry name kind s && h_Active s.

Definition with_active (b : bool) (s : Schema) : Schema :=
  {| h_Name := h_Name s; h_Version := h_Version s; h_Kind := h_Kind s; h_MediaType := h_MediaType s;
     h_Content := h_Content s; h_Active := b; h_CreatedBy := h_CreatedBy s; h_CreatedAt := h_CreatedAt s |}.

Definition highest_version (l : list Schema) : Z := foldr (λ s m, Z.max (h_Version s) m) 0 l.

Definition max_int4 : Z := 2 ^ 31 - 1.

Section hub.
Context {E S : Type} `{HubStore E S}.

(** ** semantichub.go *)
Definition resolveVersion (name kind : string) (requested : Z) : Txn E S Z :=
  if requested <? 0 then raise (Errorf "semantic hub: register: version must not be negative") else
  if requested =? 0 then query (λ _ s, highest_version (rows_where (of_entry name kind) (hub_rows s)) + 1) else
  taken ← query (λ _ s, exists_where (at_version name kind requested) (hub_rows s));
  if (taken : bool) then raise (Wrapf "name/kind version" (Sentinel ErrVersionTaken)) else mret requested.

(** The INSERT, with the checks of its table. *)
Definition insert_schema (name kind mediaType content createdBy : string) (version : Z) : Txn E S () :=
  _ ← reject_if (bool_decide (name = EmptyString)) (PgError "semantic_schemas_name_check");
  _ ← reject_if (max_int4 <? version) (PgError "integer out of range");
  _ ← reject_if (negb (bool_decide (kind ∈ table_kinds))) (PgError "semantic_schemas_kind_check");
  _ ← reject_if (bool_decide (content = EmptyString)) (PgError "semantic_schemas_content_check");
  taken ← query (λ _ s, exists_where (at_version name kind version) (hub_rows s));
  _ ← reject_if taken (PgError "pk_semantic_schemas");
  exec (λ e, set_hub_rows (λ l, l ++
    [{| h_Name := name; h_Version := version; h_Kind := kind; h_MediaType := mediaType; h_Content := content;
        h_Active := false; h_CreatedBy := createdBy; h_CreatedAt := hub_now e |}])).

Definition activateVersion (name kind : string) (version : Z) : Txn E S () :=
  _ ← exec (λ _, set_hub_rows (update_where (is_active name kind) (with_active false)));
  exec (λ _, set_hub_rows (update_where (at_version name kind version) (with_active true))).

Definition Register (name kind mediaType content createdBy : string) (version : Z) (activate : bool) : Txn E S Z :=
  assigned ← resolveVersion name kind version;
  _ ← within "semantic hub: register" (insert_schema name kind mediaType content createdBy assigned);
  _ ← only_if activate (activateVersion name kind assigned);
  mret assigned.

Definition Activate (name kind : string) (version : Z) : Txn E S () :=
  exists_ ← query (λ _ s, exists_where (at_version name kind version) (hub_rows s));
  if (exists_ : bool) then activateVersion name kind version
  else raise (Wrapf "name/kind version" (Sentinel ErrSchemaNotFound)).

(** The row a lookup finds: the version, or the active one for version 0. *)
Definition lookup_schema (name kind : string) (version : Z) (l : list Schema) : option Schema :=
  List.find (if 0 <? version then at_version name kind version else is_active name kind) l.

Definition Get (name kind : string) (version : Z) : Txn E S Schema :=
  found ← query (λ _ s, lookup_schema name kind version (hub_rows s));
  match found with
  | Some s => mret s
  | None => raise (Wrapf "name/kind" (Sentinel ErrSchemaNotFound))
  end.

Record ListEntry := {
  le_Name : string; le_Kind : string; le_MediaType : string;
  le_ActiveVersion : Z; le_LatestVersion : Z; le_UpdatedAt : Z
}.

Definition entry_name (s : Schema) : string * string := (h_Kind s, h_Name s).

(** Entries are ordered by kind, then name. *)
Definition entry_le (a b : string * string) : Prop :=
  if bool_decide (a.1 = b.1) then String.leb a.2 b.2 = true else String.leb a.1 b.1 = true.
#[global] Instance entry_le_dec a b : Decision (entry_le a b).
Proof. unfold entry_le. case_bool_decide; apply _. Defined.

Definition list_entry (l : list Schema) (k : string * string) : ListEntry :=
  let rows := rows_where (of_entry k.2 k.1) l in
  {| le_Name := k.2; le_Kind := k.1;
     le_MediaType := default EmptyString (h_MediaType <$> last (order_by h_Version rows));
     le_ActiveVersion := highest_version (rows_where h_Active rows);
     le_LatestVersion := highest_version rows;
     le_UpdatedAt := foldr (λ s m, Z.max (h_CreatedAt s) m) 0 rows |}.

Definition list_entries (l : list Schema) : list ListEntry :=
  let own := rows_where (λ s, negb (bool_decide (h_Kind s = PeerShapesKind))) l in
  list_entry own <$> merge_sort entry_le (dedup_from [] (entry_name <$> own)).

Definition List_ : Txn E S (list ListEntry) := query (λ _ s, list_entries (hub_rows s)).

Definition Versions (name kind : string) : Txn E S (list Schema) :=
  query (λ _ s, order_by h_Version (rows_where (of_entry name kind) (hub_rows s))).

(** The embedded documents: their entry, and the asset that holds the content. *)
Definition genesis : list (string * string * string * string) :=
  [(ContextName, "context", "application/ld+json", "facis-dcs-context.jsonld");
   (ShapesName, "shapes", "text/turtle", "facis-dcs-shapes.ttl");
   (ProfileName, "profile", "application/yaml", "facis.sla.basic.v1.yaml");
   (ClauseCatalogName, "shapes", "text/turtle", "facis-dcs-clause-catalog.ttl");
   (SLAOntologyName, "ontology", "text/turtle", "facis-sla-ontology.ttl");
   (ODRLProfileName, "ontology", "text/turtle", "dcs-odrl-profile.ttl")]%string.

Definition latest (name kind : string) (l : list Schema) : option Schema :=
  last (order_by h_Version (rows_where (of_entry name kind) l)).

(** One entry of the seed; [asset] is the text of an embedded file. *)
Definition seed_entry (asset : string → string) (g : string * string * string * string) : Txn E S () :=
  let '(name, kind, mediaType, file) := g in
  held ← query (λ _ s, latest name kind (hub_rows s));
  if bool_decide ((h_Content <$> held) = Some (asset file)) then mret tt
  else _ ← Register name kind mediaType (asset file) "system:genesis" 0 true; mret tt.

Fixpoint seed_entries (asset : string → string) (gs : list (string * string * string * string)) : Txn E S () :=
  match gs with [] => mret tt | g :: rest => _ ← seed_entry asset g; seed_entries asset rest end.

Definition Seed (asset : string → string) : Txn E S () := seed_entries asset genesis.

(** [ORDER BY name]. *)
Definition name_le (a b : Schema) : Prop := String.leb (h_Name a) (h_Name b) = true.
#[global] Instance name_le_dec a b : Decision (name_le a b).
Proof. unfold name_le. apply _. Defined.

Definition active_shapes (l : list Schema) : list Schema :=
  rows_where (λ s, bool_decide (h_Kind s = ShapesKind) && h_Active s) l.

(** The canonical graph first. *)
Definition envelope_shapes (l : list Schema) : list Schema :=
  rows_where (λ s, bool_decide (h_Name s = ShapesName)) (active_shapes l) ++
  rows_where (λ s, bool_decide (h_Name s = ClauseCatalogName)) (active_shapes l).

Definition shape_libraries (l : list Schema) : list Schema :=
  merge_sort name_le (rows_where (λ s, negb (IsEnvelopeShapes (h_Name s))) (active_shapes l)).

Definition bundle_entry (s : Schema) : Authoring.Schema := {| sc_Name := h_Name s; sc_Version := h_Version s |}.

(** As far as a bundle is anchored: names and versions. *)
Definition ResolveEffectiveBundle : Txn E S EffectiveBundle :=
  context ← within "semantic hub: active context" (Get ContextName "context" 0);
  profile ← within "semantic hub: active profile" (Get ProfileName "profile" 0);
  shapes ← query (λ _ s, envelope_shapes (hub_rows s));
  _ ← reject_if (negb (bool_decide ((h_Name <$> head shapes) = Some ShapesName)))
        (Errorf "semantic hub: canonical active shapes are unavailable");
  libraries ← query (λ _ s, shape_libraries (hub_rows s));
  mret {| ContextVersion := h_Version context; ProfileVersion := h_Version profile;
          Shapes := bundle_entry <$> shapes; Libraries := bundle_entry <$> libraries |}.

(** The absolute IRIs of the active context's string-valued prefixes. *)
Definition is_prefix_iri (entry : string * json) : option (string * string) :=
  match entry.2 with
  | JStr iri => if negb (HasPrefix entry.1 "@") && Contains iri "://" then Some (entry.1, iri) else None
  | _ => None
  end.

Definition context_object (j : json) : result (gmap string json) :=
  doc ← Unmarshal_map j;
  match doc !! "@context" with
  | None | Some JNull => Ok ∅
  | Some (JObj m) => Ok m
  | Some _ => Err (Errorf "json: cannot unmarshal into Go struct field")
  end.

Definition ActiveOntologyIRIs (parse : string → result json) : Txn E S (gmap string string * Z) :=
  s ← Get ContextName "context" 0;
  context ← of_result (wrap_err "semantic hub: parse active context"
              (j ← parse (h_Content s); context_object j));
  mret (list_to_map (omap is_prefix_iri (map_to_list context)), h_Version s).

Definition ActiveVersion (name kind : string) : Txn E S Z := s ← Get name kind 0; mret (h_Version s).

(** ** peershapes.go *)
Definition LocalShapesVersion (name : string) (version : Z) : Handler E S Schema :=
  transact (Get name ShapesKind version).
Definition PeerShapesVersion (name : string) (version : Z) : Handler E S Schema :=
  transact (Get name PeerShapesKind version).

Definition StorePeerShapes (entry : Schema) : Handler E S () :=
  transact (_ ← Register (h_Name entry) PeerShapesKind (h_MediaType entry) (h_Content entry)
                  (h_CreatedBy entry) (h_Version entry) false; mret tt).

(** [if errors.Is(err, ErrSchemaNotFound) { err = other }]. *)
Definition or_if_not_found {A} (m other : Handler E S A) : Handler E S A :=
  r ← outcome m;
  match r with
  | Ok a => mret a
  | Err err => if errors_Is err ErrSchemaNotFound then other else fail err
  end.

Definition pinned_entry (s : Schema) : Schema :=
  {| h_Name := h_Name s; h_Version := h_Version s; h_Kind := ShapesKind; h_MediaType := h_MediaType s;
     h_Content := h_Content s; h_Active := false; h_CreatedBy := EmptyString; h_CreatedAt := 0 |}.

Fixpoint CollectPinnedShapes (refs : list (string * Z)) : Handler E S (list Schema) :=
  match refs with
  | [] => mret []
  | (name, version) :: rest =>
      if IsEnvelopeShapes name then CollectPinnedShapes rest else
      schema ← labelled "semantic hub: pinned shapes"
        (or_if_not_found (LocalShapesVersion name version) (PeerShapesVersion name version));
      entries ← CollectPinnedShapes rest;
      mret (pinned_entry schema :: entries)
  end.

(** The shipped entries by the reference they name; refused in wire order. *)
Fixpoint shipped_by_ref (pinned : list (string * Z)) (shipped : list Schema) (acc : gmap (string * Z) Schema) :
    result (gmap (string * Z) Schema) :=
  match shipped with
  | [] => Ok acc
  | entry :: rest =>
      let ref := (h_Name entry, h_Version entry) in
      if IsEnvelopeShapes ref.1
      then Err (Errorf "semantic hub: shipped shapes name this instance's own envelope vocabulary, which no peer supplies")
      else if negb (bool_decide (ref ∈ pinned))
      then Err (Errorf "semantic hub: shipped shapes are not pinned by the contract they accompany")
      else shipped_by_ref pinned rest (<[ref := entry]> acc)
  end.

Definition heldPinnedShapes (ref : string * Z) : Handler E S (option Schema) :=
  labelled "semantic hub: look up pinned shapes"
    (or_if_not_found (s ← LocalShapesVersion ref.1 ref.2; mret (Some s))
      (or_if_not_found (s ← PeerShapesVersion ref.1 ref.2; mret (Some s)) (mret None))).

Definition planned_entry (createdBy : string) (s : Schema) : Schema :=
  {| h_Name := h_Name s; h_Version := h_Version s; h_Kind := PeerShapesKind; h_MediaType := h_MediaType s;
     h_Content := h_Content s; h_Active := h_Active s; h_CreatedBy := createdBy; h_CreatedAt := h_CreatedAt s |}.

Fixpoint plan_refs (createdBy : string) (carried : gmap (string * Z) Schema) (refs : list (string * Z)) :
    Handler E S (list Schema) :=
  match refs with
  | [] => mret []
  | ref :: rest =>
      if IsEnvelopeShapes ref.1 then plan_refs createdBy carried rest else
      held ← heldPinnedShapes ref;
      match held, carried !! ref with
      | Some h, Some entry =>
          if bool_decide (h_Content entry = h_Content h) then plan_refs createdBy carried rest
          else fail (Errorf "semantic hub: shipped shapes differ from the version this hub already holds under that name")
      | Some _, None => plan_refs createdBy carried rest
      | None, None => fail (Wrapf "pinned shapes were neither shipped with the contract nor registered here"
                              (Sentinel ErrSchemaNotFound))
      | None, Some entry =>
          install ← plan_refs createdBy carried rest;
          mret (planned_entry createdBy entry :: install)
      end
  end.

Definition PlanPinnedShapesImport (createdBy : string) (pinned : list (string * Z)) (shipped : list Schema) :
    Handler E S (list Schema) :=
  carried ← answer (shipped_by_ref pinned shipped ∅);
  plan_refs createdBy carried pinned.

Definition StorePinnedShapes (install : list Schema) : Handler E S () :=
  each (λ entry, labelled "semantic hub: import pinned shapes" (StorePeerShapes entry)) install.

End hub.
