(* ===== verification/HubReads.v ===== *)
(** The Semantic Hub as its process serves it: the resolution of a document's
    bundle through the cache of immutable contents (internal/semantichub/
    shapesource.go), the anchors the validation layer works with, and the
    endpoints (internal/service/semantic_hub.go). *)
From S2P Require Import Prelude Json Transactions Handlers Document Authoring Anchors DidDocument PeerIdentity.
From S2P Require Import Envelopes Erasure Ceremonies SemanticHub.
Import GoStrings.

(** The table, and what the process keeps beside it. *)
Record HubState := {
  hub_table : list Schema;
  immutableContent : gmap (string * string * Z) string;
  (** What the validation layer works with. *)
  anchors : Envelopes.Hub
}.

Definition set_table f (h : HubState) : HubState :=
  {| hub_table := f (hub_table h); immutableContent := immutableContent h; anchors := anchors h |}.
Definition set_cache f (h : HubState) : HubState :=
  {| hub_table := hub_table h; immutableContent := f (immutableContent h); anchors := anchors h |}.
Definition set_anchors a (h : HubState) : HubState :=
  {| hub_table := hub_table h; immutableContent := immutableContent h; anchors := a |}.

(** A process that starts has no content cached. *)
Definition restarted (installed : Envelopes.Hub) (h : HubState) : HubState :=
  {| hub_table := hub_table h; immutableContent := ∅; anchors := installed |}.

#[export] Instance hub_process : HubStore Z HubState :=
  {| hub_rows := hub_table; set_hub_rows := set_table; hub_now := id |}.
#[export] Instance hub_process_laws : HubStoreLaws Z HubState.
Proof. by split. Qed.

Notation Serve := (Handler Z HubState) (only parsing).
Definition write (f : HubState → HubState) : Serve () := λ _ h, (Ok (), f h).

(** The parsers the hub calls: JSON, the SHACL library's Turtle (the target
    classes of a graph), URLs (scheme and path), and an HTTP GET (status and
    body). *)
Class HubServices := {
  parse_json : string → result json;
  target_classes : string → result (list string);
  parse_url : string → result (string * string);
  http_get : string → result (Z * string);
  public_url : string
}.

Section reads.
Context `{HubServices}.

(** ** shapesource.go *)
Definition versionContent (name kind : string) (version : Z) : Serve string :=
  if version <=? 0 then fail (Errorf "semantic hub: version must be positive") else
  cached ← look (λ _ h, immutableContent h !! (name, kind, version));
  match cached with
  | Some content => mret content
  | None =>
      s ← transact (Get name kind version);
      _ ← write (set_cache (<[(name, kind, version) := h_Content s]>));
      mret (h_Content s)
  end.

Definition active (name kind : string) : Serve (string * Z) :=
  version ← labelled "semantic hub: active" (transact (ActiveVersion name kind));
  content ← labelled "semantic hub: active" (versionContent name kind version);
  mret (content, version).

Definition ActiveProfile : Serve (string * Z) := active ProfileName "profile".
Definition ActiveContext : Serve (string * Z) := active ContextName "context".
Definition ActiveDomainOntology : Serve (string * Z) := active SLAOntologyName "ontology".

Definition shapesEntry (name : string) (version : Z) : Serve (string * Z) :=
  if version <=? 0 then labelled "semantic hub: shapes" (active name "shapes")
  else content ← labelled "semantic hub: shapes" (versionContent name "shapes" version); mret (content, version).

(** A blank line between the graphs. *)
Definition newline : string := String "010" EmptyString.
Definition joined (a b : string) : string :=
  String.append a (String.append newline (String.append newline b)).

Definition ShapesAt (name : string) (version : Z) : Serve (string * Z) :=
  '(content, resolved) ← shapesEntry name version;
  if negb (bool_decide (name = ShapesName)) then mret (content, resolved) else
  '(catalog, _) ← labelled "clause catalog" (active ClauseCatalogName "shapes");
  mret (joined content catalog, resolved).

Definition pinnedShapesContent (ref : string * Z) : Serve string :=
  or_if_not_found (versionContent ref.1 ShapesKind ref.2)
    (if IsEnvelopeShapes ref.1 then '(content, _) ← active ref.1 ShapesKind; mret content
     else versionContent ref.1 PeerShapesKind ref.2).

Fixpoint bundle_parts (refs : list (string * Z)) : Serve (list string) :=
  match refs with
  | [] => mret []
  | ref :: rest =>
      content ← labelled "semantic hub: effective shapes" (pinnedShapesContent ref);
      parts ← bundle_parts rest;
      mret (content :: parts)
  end.

Definition Join (parts : list string) : string :=
  match parts with [] => EmptyString | p :: rest => foldl joined p rest end.

Definition ShapesBundleAt (refs : list (string * Z)) : Serve string :=
  if bool_decide (refs = []) then fail (Errorf "semantic hub: effective shapes bundle is empty") else
  parts ← bundle_parts refs;
  mret (Join parts).

Definition ProfileAt (version : Z) : Serve string := versionContent ProfileName "profile" version.
Definition ContextByIRI (iri : string) : Serve string :=
  '(content, _) ← labelled "context" (active iri "context"); mret content.
Definition ContextAt (version : Z) : Serve string :=
  labelled "semantic hub: pinned context" (versionContent ContextName "context" version).

(** First library in name order wins a contested class.  The classes of a version
    are parsed once and remembered; a version's content never changes. *)
Fixpoint index_classes (libraries : list Schema) (index : gmap string (string * Z)) :
    result (gmap string (string * Z)) :=
  match libraries with
  | [] => Ok index
  | library :: rest =>
      classes ← wrap_err "semantic hub: parse shapes library" (target_classes (h_Content library));
      index_classes rest
        (foldl (λ m class, match m !! class with
                           | Some _ => m
                           | None => <[class := (h_Name library, h_Version library)]> m
                           end) index (rows_where (λ c, negb (bool_decide (c = EmptyString))) classes))
  end.

Definition ActiveShapeLibraryClasses : Serve (gmap string (string * Z)) :=
  libraries ← look (λ _ h, shape_libraries (hub_table h));
  answer (index_classes libraries ∅).

(** ** semantic_hub.go *)
Definition library_anchor (library : string * Z) : string * string :=
  (library.1, AnchorURL public_url "shapes" library.1 library.2).

Definition RefreshValidationAnchors : Serve () :=
  '(hubIRIs, contextVersion) ← labelled "load active hub context" (transact (ActiveOntologyIRIs parse_json));
  shapesVersion ← labelled "load active hub shapes version" (transact (ActiveVersion ShapesName "shapes"));
  libraryClasses ← labelled "index active hub shape libraries" ActiveShapeLibraryClasses;
  write (λ h, set_anchors
    {| schemaRefJSONLDContext := AnchorURL public_url "context" ContextName contextVersion;
       schemaRefSHACLShapes := AnchorURL public_url "shapes" ShapesName shapesVersion;
       canonicalOntologyIRIs := hubIRIs;
       shapeLibraryAnchors := library_anchor <$> libraryClasses;
       Envelopes.ContextByIRI := Envelopes.ContextByIRI (anchors h) |} h).

(** The content of the envelope a hub anchor serves, or the body as it is. *)
Definition unwrapHubSchemaItem (path body : string) : string :=
  if negb (Contains path "/semantic/") then body else
  match parse_json body with
  | Ok (JObj item) =>
      match item !! "name", item !! "kind", item !! "version", item !! "content" with
      | Some (JStr _), Some (JStr _), Some (JNum v), Some (JStr content) =>
          if is_int v && negb (bool_decide (TrimSpace content = EmptyString)) then content else body
      | _, _, _, _ => body
      end
  | _ => body
  end.

Definition maxSchemaFetchBytes : Z := 8 * 2 ^ 20.

Definition fetchSchemaFromURL (rawURL : string) : result string :=
  '(scheme, path) ← wrap_err "invalid source_url" (parse_url (TrimSpace rawURL));
  if negb (bool_decide (scheme = "http") || bool_decide (scheme = "https"))
  then Err (Errorf "source_url must be http or https") else
  '(status, body) ← wrap_err "fetch" (http_get (TrimSpace rawURL));
  if negb (status =? 200) then Err (Errorf "fetch: HTTP status") else
  if maxSchemaFetchBytes <? Z.of_nat (String.length body) then Err (Errorf "fetched schema exceeds the limit") else
  if bool_decide (body = EmptyString) then Err (Errorf "fetched schema is empty")
  else Ok (unwrapHubSchemaItem path body).

Record RegisterPayload := {
  p_Name : string; p_Kind : string; p_MediaType : string; p_Content : option string;
  p_SourceURL : option string; p_Version : option Z; p_Activate : option bool; p_Participant : string
}.

Definition blank (s : string) : bool := bool_decide (TrimSpace s = EmptyString).

(** A context must parse, with an object of at least one member. *)
Definition context_document (content : string) : bool :=
  match parse_json content with
  | Ok j => match context_object j with Ok m => negb (bool_decide (m = ∅)) | Err _ => false end
  | Err _ => false
  end.

Definition Register_endpoint (p : RegisterPayload) : Serve (Z * bool) :=
  let given := default EmptyString (p_Content p) in
  let url := default EmptyString (p_SourceURL p) in
  content ← (if blank given && negb (blank url)
             then classified BadRequest (answer (fetchSchemaFromURL url)) else mret given : Serve string);
  _ ← fail_if (bool_decide (p_Kind p = "context") && negb (context_document content))
        (BadRequest (Errorf "context schema content must be a JSON-LD document with a non-empty @context object"));
  _ ← fail_if (blank content) (BadRequest (Errorf "schema content must not be empty"));
  let activate := default false (p_Activate p) in
  version ← classified (λ err, if errors_Is err ErrVersionTaken then BadRequest err else InternalError err)
    (transact (Register (p_Name p) (p_Kind p) (p_MediaType p) content (p_Participant p)
                 (default 0 (p_Version p)) activate));
  _ ← (if activate
       then classified (λ err, InternalError (Wrapf "activated but re-anchoring failed" err)) RefreshValidationAnchors
       else mret tt : Serve ());
  mret (version, activate).

Definition not_found_or_internal (err : error) : error :=
  if errors_Is err ErrSchemaNotFound then NotFound err else InternalError err.

Definition Rollback_endpoint (name kind : string) (version : Z) : Serve () :=
  _ ← classified not_found_or_internal (transact (Activate name kind version));
  classified (λ err, InternalError (Wrapf "activated but re-anchoring failed" err)) RefreshValidationAnchors.

Definition getSchema (name kind : string) (version : option Z) : Serve Schema :=
  classified not_found_or_internal (transact (Get name kind (default 0 version))).

Definition Retrieve (name kind : string) (version : option Z) : Serve Schema := getSchema name kind version.
Definition Versions_endpoint (name kind : string) : Serve (list Schema) :=
  classified InternalError (transact (Versions name kind)).
Definition ResolveShapes (name : string) (version : option Z) : Serve Schema := getSchema name "shapes" version.
Definition ResolveOntology (name : string) (version : option Z) : Serve Schema := getSchema name "ontology" version.
Definition ResolveProfile (name : string) (version : option Z) : Serve Schema := getSchema name "profile" version.
Definition ResolveContext (name : string) (version : option Z) : Serve json :=
  schema ← getSchema name "context" version;
  classified (λ err, InternalError (Wrapf "stored context is not valid JSON" err)) (answer (parse_json (h_Content schema))).
Definition List_endpoint : Serve (list ListEntry) := classified InternalError (transact List_).

End reads.
