(* ===== verification/HubLaws.v ===== *)
(** What the Semantic Hub guarantees: versions are immutable and at most one of an
    entry is active, the content cache is invisible, a peer's shapes stay in their
    namespace, and the shapes a contract pins travel with it. *)
From S2P Require Import Prelude Json Transactions Handlers Document Authoring Anchors DidDocument PeerIdentity.
From S2P Require Import Envelopes Erasure Ceremonies SemanticHub HubReads.
Import GoStrings.

(** ** Rows *)

(** Everything but which version is active. *)
Definition history (l : list Schema) : list Schema := with_active false <$> l.

Record sound (l : list Schema) : Prop := {
  keys_once : NoDup (schema_key <$> l);
  one_active s t : s ∈ l → t ∈ l → h_Active s = true → h_Active t = true → entry_name s = entry_name t → s = t;
  peers_inactive s : s ∈ l → h_Kind s = PeerShapesKind → h_Active s = false;
  row_ok s : s ∈ l → h_Name s ≠ EmptyString ∧ 0 < h_Version s <= max_int4 ∧ h_Content s ≠ EmptyString
}.

(** Rows are only ever added, at the end, and a sound table stays sound. *)
Definition grows (l l' : list Schema) : Prop := history l `prefix_of` history l' ∧ (sound l → sound l').
#[export] Instance grows_preorder : PreOrder grows.
Proof.
  split; [by split|]. intros l1 l2 l3 [H1 S1] [H2 S2]. split; [by etrans|auto].
Qed.

Lemma key_unique {A K} (key : A → K) (l : list A) x y :
  NoDup (key <$> l) → x ∈ l → y ∈ l → key x = key y → x = y.
Proof.
  induction l as [|z l IH]; [intros _ []%elem_of_nil|]. rewrite fmap_cons.
  intros [Hz HN]%NoDup_cons Hx Hy E. apply elem_of_cons in Hx as [->|Hx], Hy as [->|Hy]; auto.
  - destruct Hz. rewrite E. by apply list_elem_of_fmap_2.
  - destruct Hz. rewrite <-E. by apply list_elem_of_fmap_2.
Qed.

Lemma of_entry_true name kind s : of_entry name kind s = true ↔ h_Name s = name ∧ h_Kind s = kind.
Proof. unfold of_entry. by rewrite andb_true_iff, !bool_decide_eq_true. Qed.
Lemma at_version_true name kind v s :
  at_version name kind v s = true ↔ schema_key s = (name, kind, v).
Proof.
  unfold at_version, schema_key. rewrite andb_true_iff, of_entry_true, bool_decide_eq_true. naive_solver.
Qed.
Lemma is_active_true name kind s : is_active name kind s = true ↔ h_Name s = name ∧ h_Kind s = kind ∧ h_Active s = true.
Proof. unfold is_active. rewrite andb_true_iff, of_entry_true. naive_solver. Qed.

Lemma highest_version_bound l s : s ∈ l → h_Version s <= highest_version l.
Proof.
  induction l as [|t l IH]; [intros []%elem_of_nil|].
  change (highest_version (t :: l)) with (Z.max (h_Version t) (highest_version l)).
  intros [->|Hs]%elem_of_cons; [lia|]. specialize (IH Hs). lia.
Qed.
Lemma highest_version_nonneg l : 0 <= highest_version l.
Proof.
  induction l as [|t l IH]; [done|].
  change (highest_version (t :: l)) with (Z.max (h_Version t) (highest_version l)). lia.
Qed.

(** A map that keeps every column but [active]. *)
Lemma history_update p b l : history (update_where p (with_active b) l) = history l.
Proof.
  unfold history, update_where. rewrite <-list_fmap_compose. apply list_fmap_ext.
  intros _ s _. cbn. by destruct (p s).
Qed.

Lemma keys_of_history l l' : history l = history l' → schema_key <$> l = schema_key <$> l'.
Proof.
  intros E. apply (f_equal (fmap schema_key)) in E. unfold history in E.
  rewrite <-!list_fmap_compose in E. exact E.
Qed.

Lemma in_history s l : s ∈ l → with_active false s ∈ history l.
Proof. apply list_elem_of_fmap_2. Qed.

(** What an activation leaves of a row. *)
Definition activated (name kind : string) (v : Z) (s : Schema) : Schema :=
  let s1 := if is_active name kind s then with_active false s else s in
  if at_version name kind v s1 then with_active true s1 else s1.

Lemma activation_eq name kind v l :
  update_where (at_version name kind v) (with_active true) (update_where (is_active name kind) (with_active false) l) =
  activated name kind v <$> l.
Proof. unfold update_where. by rewrite <-list_fmap_compose. Qed.

Lemma activated_key name kind v s : schema_key (activated name kind v s) = schema_key s.
Proof. unfold activated. by destruct (is_active name kind s), (at_version name kind v _). Qed.
Lemma activated_content name kind v s : h_Content (activated name kind v s) = h_Content s.
Proof. unfold activated. by destruct (is_active name kind s), (at_version name kind v _). Qed.

(** An active row of the entry afterwards is the version asked for. *)
Lemma activated_active name kind v s :
  h_Active (activated name kind v s) = true →
  (schema_key s = (name, kind, v)) ∨ (entry_name s ≠ (kind, name) ∧ h_Active s = true).
Proof.
  unfold activated. destruct (is_active name kind s) eqn:E.
  - apply is_active_true in E as (<- & <- & E). destruct (at_version _ _ v _) eqn:Ev; [|done].
    apply at_version_true in Ev. by left.
  - destruct (at_version name kind v s) eqn:Ev; [apply at_version_true in Ev; by left|].
    intros Ha. right. split; [|done]. intros [= <- <-]. unfold is_active, of_entry in E.
    by rewrite Ha, !bool_decide_eq_true_2 in E by done.
Qed.

Lemma activated_not_peer name kind v s :
  kind ≠ PeerShapesKind → h_Kind s = PeerShapesKind → h_Active s = false → h_Active (activated name kind v s) = false.
Proof.
  intros Hk Hs Ha. destruct (h_Active (activated _ _ _ s)) eqn:E; [|done].
  apply activated_active in E as [[= _ E _]|[_ E]]; congruence.
Qed.

Lemma grows_activation name kind v l :
  kind ≠ PeerShapesKind → grows l (activated name kind v <$> l).
Proof.
  intros Hk. rewrite <-activation_eq. split; [by rewrite !history_update|]. rewrite activation_eq. intros [H1 H2 H3 H4]. split.
  - rewrite <-list_fmap_compose. erewrite list_fmap_ext; [exact H1|]. intros _ s _. apply activated_key.
  - intros s t (s0 & -> & Hs)%list_elem_of_fmap (t0 & -> & Ht)%list_elem_of_fmap As At En.
    f_equal. pose proof (activated_key name kind v s0) as Es. pose proof (activated_key name kind v t0) as Et.
    assert (entry_name s0 = entry_name t0) as En0.
    { unfold entry_name, schema_key in *. destruct (activated name kind v s0), (activated name kind v t0); cbn in *. congruence. }
    apply activated_active in As as [Ks|[Ns As]], At as [Kt|[Nt At]].
    + apply (key_unique schema_key l); [done..|congruence].
    + destruct Nt. rewrite <-En0. unfold schema_key, entry_name in *. congruence.
    + destruct Ns. rewrite En0. unfold schema_key, entry_name in *. congruence.
    + by apply H2.
  - intros s (s0 & -> & Hs)%list_elem_of_fmap Kp. pose proof (activated_key name kind v s0) as Es.
    apply activated_not_peer; [done| |]; [|apply H3; [done|]]; unfold schema_key in Es; congruence.
  - intros s (s0 & -> & Hs)%list_elem_of_fmap. rewrite activated_content.
    pose proof (activated_key name kind v s0) as Es. unfold schema_key in Es. injection Es as -> _ ->. by apply H4.
Qed.

Lemma grows_insert (s : Schema) l :
  h_Active s = false → h_Name s ≠ EmptyString → 0 < h_Version s <= max_int4 → h_Content s ≠ EmptyString →
  exists_where (at_version (h_Name s) (h_Kind s) (h_Version s)) l = false →
  grows l (l ++ [s]).
Proof.
  intros Ha Hn Hv Hc Hfree. split; [unfold history; rewrite fmap_app; by apply prefix_app_r|].
  intros [H1 H2 H3 H4]. split.
  - rewrite fmap_app. apply NoDup_app. split_and!; [done| |apply NoDup_singleton].
    intros k (t & -> & Ht)%list_elem_of_fmap [E|[]%elem_of_nil]%elem_of_cons.
    rewrite exists_where_false in Hfree. specialize (Hfree t Ht).
    apply not_true_iff_false in Hfree. apply Hfree. by apply at_version_true.
  - intros x y [Hx|[->|[]%elem_of_nil]%elem_of_cons]%elem_of_app [Hy|[->|[]%elem_of_nil]%elem_of_cons]%elem_of_app; try congruence.
    by apply H2.
  - intros x [Hx|[->|[]%elem_of_nil]%elem_of_cons]%elem_of_app; auto.
  - intros x [Hx|[->|[]%elem_of_nil]%elem_of_cons]%elem_of_app; auto.
Qed.

Section store.
Context {E S : Type} `{HS : HubStore E S} {HL : HubStoreLaws E S}.

Definition hub_grows (s s' : S) : Prop := grows (hub_rows s) (hub_rows s').
#[local] Instance hub_grows_preorder : PreOrder hub_grows.
Proof. split; [by intros s | intros x y z; unfold hub_grows; by etrans]. Qed.

(** The rows this instance publishes. *)
Definition own_rows (l : list Schema) : list Schema :=
  rows_where (λ s, negb (bool_decide (h_Kind s = PeerShapesKind))) l.

Lemma resolveVersion_Ok name kind v (e : E) (s : S) n s' :
  resolveVersion name kind v e s = Ok (n, s') → s' = s ∧ 0 < n ∧ (v ≠ 0 → n = v).
Proof.
  unfold resolveVersion. destruct (v <? 0) eqn:Hn; [done|]. apply Z.ltb_ge in Hn.
  destruct (v =? 0) eqn:Hz.
  - apply Z.eqb_eq in Hz. intros [-> ->]%query_Ok.
    pose proof (highest_version_nonneg (rows_where (of_entry name kind) (hub_rows s))). split_and!; [done|lia|lia].
  - apply Z.eqb_neq in Hz. intros HR. txn_inv. destruct (exists_where _ _) in HR; [done|]. txn_inv.
    split_and!; [done|lia|done].
Qed.

Lemma insert_schema_Ok name kind media content by_ v (e : E) (s : S) u s' :
  insert_schema name kind media content by_ v e s = Ok (u, s') →
  name ≠ EmptyString ∧ v <= max_int4 ∧ kind ∈ table_kinds ∧ content ≠ EmptyString ∧
  exists_where (at_version name kind v) (hub_rows s) = false ∧
  hub_rows s' = hub_rows s ++
    [{| h_Name := name; h_Version := v; h_Kind := kind; h_MediaType := media; h_Content := content;
        h_Active := false; h_CreatedBy := by_; h_CreatedAt := hub_now e |}].
Proof.
  unfold insert_schema. intros HR. txn_inv.
  repeat match goal with H : bool_decide _ = false |- _ => apply bool_decide_eq_false in H end.
  match goal with H : negb _ = false |- _ => apply negb_false_iff, bool_decide_eq_true in H end.
  match goal with H : (_ <? _) = false |- _ => apply Z.ltb_ge in H end.
  split_and!; try done. by rewrite hub_rows_set.
Qed.

Lemma activateVersion_Ok name kind v (e : E) (s : S) u s' :
  activateVersion name kind v e s = Ok (u, s') → hub_rows s' = activated name kind v <$> hub_rows s.
Proof. unfold activateVersion. intros HR. txn_inv. by rewrite !hub_rows_set, activation_eq. Qed.

(** A registration that succeeds appends one row, inactive unless asked for. *)
Lemma Register_Ok name kind media content by_ v activate (e : E) (s : S) n s' :
  Register name kind media content by_ v activate e s = Ok (n, s') →
  ∃ row, h_Name row = name ∧ h_Kind row = kind ∧ h_Version row = n ∧ h_MediaType row = media ∧
    h_Content row = content ∧ h_Active row = false ∧ (v ≠ 0 → n = v) ∧ kind ∈ table_kinds ∧
    grows (hub_rows s) (hub_rows s ++ [row]) ∧
    hub_rows s' = (if activate then fmap (activated name kind n) else id) (hub_rows s ++ [row]).
Proof.
  unfold Register. intros HR. txn_inv.
  match goal with H : resolveVersion _ _ _ _ _ = _ |- _ => apply resolveVersion_Ok in H as (-> & Hpos & Hv) end.
  match goal with H : insert_schema _ _ _ _ _ _ _ _ = _ |- _ =>
    apply insert_schema_Ok in H as (Hname & Hmax & Hk & Hc & Hfree & Hrows) end.
  match type of Hpos with 0 < ?n => exists
    {| h_Name := name; h_Version := n; h_Kind := kind; h_MediaType := media; h_Content := content;
       h_Active := false; h_CreatedBy := by_; h_CreatedAt := hub_now e |} end.
  split_and!; try done; [by apply grows_insert|]. destruct activate; cbn [only_if] in *.
  - match goal with H : activateVersion _ _ _ _ _ = _ |- _ => apply activateVersion_Ok in H as -> end. by rewrite Hrows.
  - txn_inv. exact Hrows.
Qed.

Lemma grows_Register name kind media content by_ v activate :
  (activate = true → kind ≠ PeerShapesKind) →
  evolves hub_grows (Register (E := E) (S := S) name kind media content by_ v activate).
Proof.
  intros Ha e s n s' (row & Hn & Hk & Hv & _ & _ & _ & _ & _ & Hg & Hrows)%Register_Ok.
  unfold hub_grows. rewrite Hrows. destruct activate; [|exact Hg].
  etrans; [exact Hg|]. apply grows_activation. auto.
Qed.

Lemma grows_Activate name kind v :
  kind ≠ PeerShapesKind → evolves hub_grows (Activate (E := E) (S := S) name kind v).
Proof.
  intros Hk e s u s'. unfold Activate. intros HR. txn_inv. destruct (exists_where _ _) in HR; [|done].
  apply activateVersion_Ok in HR. unfold hub_grows. rewrite HR. by apply grows_activation.
Qed.

Lemma grows_Seed asset : evolves hub_grows (Seed (E := E) (S := S) asset).
Proof.
  unfold Seed. assert (Hkinds : ∀ g, g ∈ genesis → g.1.1.2 ≠ PeerShapesKind).
  { apply Forall_forall. repeat constructor; done. }
  induction genesis as [|g gs IH]; cbn [seed_entries]; [apply evolves_ret; apply _|].
  apply evolves_bind; [apply _| |intros _; apply IH; intros x Hx; apply Hkinds; by right].
  destruct g as [[[name kind] media] file]. unfold seed_entry. evolves_tac.
  apply grows_Register. intros _. apply (Hkinds (name, kind, media, file)). left.
Qed.

Lemma StorePeerShapes_Ok entry (e : E) (s : S) u s' :
  StorePeerShapes entry e s = (Ok u, s') →
  ∃ row, h_Name row = h_Name entry ∧ h_Kind row = PeerShapesKind ∧ (h_Version entry ≠ 0 → h_Version row = h_Version entry) ∧
    h_Content row = h_Content entry ∧ grows (hub_rows s) (hub_rows s ++ [row]) ∧ hub_rows s' = hub_rows s ++ [row].
Proof.
  unfold StorePeerShapes. intros HR. handler_inv. txn_inv.
  match goal with H : Register _ _ _ _ _ _ _ _ _ = _ |- _ =>
    apply Register_Ok in H as (row & Hn & Hk & Hv & _ & Hc & _ & Hv0 & _ & Hg & Hrows) end.
  exists row. split_and!; try done. intros Hne. rewrite Hv. auto.
Qed.

(** An inbound install only appends rows of the peer namespace. *)
Definition peer_confined (s s' : S) : Prop := hub_grows s s' ∧ own_rows (hub_rows s') = own_rows (hub_rows s).
#[local] Instance peer_confined_preorder : PreOrder peer_confined.
Proof.
  split; [by intros s; split|]. intros x y z [H1 E1] [H2 E2]. split; [by etrans|congruence].
Qed.

Lemma confined_StorePinnedShapes install : stays peer_confined (StorePinnedShapes (E := E) (S := S) install).
Proof.
  apply stays_each; [apply _|]. intros entry _. apply stays_labelled. intros e s.
  destruct (StorePeerShapes entry e s) as [[u|err] s'] eqn:HR; cbn [snd].
  - apply StorePeerShapes_Ok in HR as (row & _ & Hk & _ & _ & Hg & Hrows). split; unfold hub_grows; rewrite Hrows; [done|].
    unfold own_rows, rows_where. rewrite filter_app, filter_cons, decide_False.
    + by rewrite filter_nil, app_nil_r.
    + by rewrite bool_decide_eq_true_2.
  - unfold StorePeerShapes in HR. apply transact_Err in HR as [_ ->]. reflexivity.
Qed.

End store.

#[export] Instance hub_grows_order {E S} `{HubStore E S} : PreOrder (hub_grows (E := E) (S := S)) := hub_grows_preorder.
#[export] Instance peer_confined_order {E S} `{HubStore E S} : PreOrder (peer_confined (E := E) (S := S)) :=
  peer_confined_preorder.

(** ** What a reference resolves to *)
Definition content_of (l : list Schema) (name kind : string) (version : Z) : option string :=
  h_Content <$> List.find (at_version name kind version) l.

(** A library: this instance's own graph, or the one a ship installed. *)
Definition held_content (l : list Schema) (ref : string * Z) : option string :=
  match content_of l ref.1 ShapesKind ref.2 with
  | Some c => Some c
  | None => content_of l ref.1 PeerShapesKind ref.2
  end.

Lemma find_Some {A} (p : A → bool) l x : List.find p l = Some x → x ∈ l ∧ p x = true.
Proof. intros H. split; [apply list_elem_of_In, (List.find_some _ _ H)|apply (List.find_some _ _ H)]. Qed.

Lemma find_None {A} (p : A → bool) l : List.find p l = None ↔ exists_where p l = false.
Proof.
  induction l as [|x l IH]; [done|]. cbn. destruct (p x) eqn:E; [by split|]. exact IH.
Qed.

Lemma content_of_Some l name kind v s :
  NoDup (schema_key <$> l) → s ∈ l → schema_key s = (name, kind, v) → content_of l name kind v = Some (h_Content s).
Proof.
  intros HN Hs Hk. unfold content_of. destruct (List.find _ l) as [t|] eqn:E.
  - apply find_Some in E as [Ht Hkt%at_version_true]. cbn. do 2 f_equal.
    apply (key_unique schema_key l); congruence.
  - apply find_None in E. rewrite exists_where_false in E. specialize (E s Hs).
    by apply not_true_iff_false in E as []; apply at_version_true.
Qed.

Lemma content_of_inv l name kind v c :
  content_of l name kind v = Some c → ∃ s, s ∈ l ∧ schema_key s = (name, kind, v) ∧ h_Content s = c.
Proof.
  unfold content_of. destruct (List.find _ l) as [t|] eqn:E; [|done]. cbn. intros [= <-].
  apply find_Some in E as [Ht Hk%at_version_true]. eauto.
Qed.

Lemma content_of_None l name kind v :
  content_of l name kind v = None ↔ exists_where (at_version name kind v) l = false.
Proof. unfold content_of. rewrite fmap_None. apply find_None. Qed.

(** A version that resolves goes on resolving to the same content. *)
Lemma content_of_grows l l' name kind v c :
  sound l → grows l l' → content_of l name kind v = Some c → content_of l' name kind v = Some c.
Proof.
  intros Hl [[tail Hp] Hs] (s & Hin & Hk & <-)%content_of_inv. specialize (Hs Hl).
  apply in_history in Hin. assert (with_active false s ∈ history l') as (t & Et & Ht)%list_elem_of_fmap
    by (rewrite Hp; by apply elem_of_app; left).
  assert (schema_key t = schema_key s ∧ h_Content t = h_Content s) as [Kt Ct].
  { destruct s, t. cbn in Et. unfold schema_key. cbn. by injection Et as -> -> -> -> -> -> ->. }
  rewrite <-Ct. apply content_of_Some; [apply keys_once|..]; congruence.
Qed.

Section travel.
Context {E S : Type} `{HS : HubStore E S} {HL : HubStoreLaws E S}.

Definition positive (refs : list (string * Z)) : Prop := Forall (λ r, 0 < r.2) refs.

Lemma Get_version name kind v (e : E) (s : S) :
  0 < v → transact (Get name kind v) e s =
  (match List.find (at_version name kind v) (hub_rows s) with
   | Some x => Ok x | None => Err (Wrapf "name/kind" (Sentinel ErrSchemaNotFound)) end, s).
Proof.
  intros Hv. unfold transact, commit, Get, query, mbind, txn_bind, lookup_schema.
  apply Z.ltb_lt in Hv as ->. by destruct (List.find _ _).
Qed.

(** Both reads of a library, as one lookup. *)
Definition held_row (l : list Schema) (ref : string * Z) : option Schema :=
  match List.find (at_version ref.1 ShapesKind ref.2) l with
  | Some s => Some s
  | None => List.find (at_version ref.1 PeerShapesKind ref.2) l
  end.

Lemma held_row_content l ref : h_Content <$> held_row l ref = held_content l ref.
Proof. unfold held_row, held_content, content_of. by destruct (List.find _ l). Qed.

Lemma held_row_ref l ref s : held_row l ref = Some s → (h_Name s, h_Version s) = ref ∧ s ∈ l.
Proof.
  unfold held_row. destruct ref as [n v]. cbn. intros H. 
  destruct (List.find (at_version n ShapesKind v) l) as [t|] eqn:Et.
  - injection H as <-. apply find_Some in Et as [Ht [= <- _ <-]%at_version_true]. done.
  - apply find_Some in H as [Ht [= <- _ <-]%at_version_true]. done.
Qed.

Lemma held_read (ref : string * Z) (e : E) (s : S) :
  0 < ref.2 →
  or_if_not_found (LocalShapesVersion ref.1 ref.2) (PeerShapesVersion ref.1 ref.2) e s =
  (match held_row (hub_rows s) ref with
   | Some x => Ok x | None => Err (Wrapf "name/kind" (Sentinel ErrSchemaNotFound)) end, s).
Proof.
  intros Hv. unfold or_if_not_found, LocalShapesVersion, PeerShapesVersion, outcome, mbind, handler_bind, held_row.
  rewrite Get_version by done. destruct (List.find _ _); [done|]. cbn. by apply Get_version.
Qed.

Lemma heldPinnedShapes_eq (ref : string * Z) (e : E) (s : S) :
  0 < ref.2 → heldPinnedShapes ref e s = (Ok (held_row (hub_rows s) ref), s).
Proof.
  intros Hv. unfold heldPinnedShapes, labelled, classified, or_if_not_found, LocalShapesVersion, PeerShapesVersion,
    outcome, mbind, handler_bind, held_row.
  rewrite !Get_version by done. destruct (List.find (at_version ref.1 ShapesKind ref.2) _); [done|]. cbn.
  rewrite bool_decide_eq_true_2 by done. cbn. rewrite Get_version by done. by destruct (List.find (at_version ref.1 PeerShapesKind ref.2) _).
Qed.

(** What collecting a pinned bundle returns: one entry per library, with the
    content this instance resolves it to. *)
Definition libraries_of (refs : list (string * Z)) : list (string * Z) :=
  rows_where (λ r, negb (IsEnvelopeShapes r.1)) refs.

Definition entry_ref (s : Schema) : string * Z := (h_Name s, h_Version s).

Lemma libraries_cons r refs :
  libraries_of (r :: refs) = (if IsEnvelopeShapes r.1 then [] else [r]) ++ libraries_of refs.
Proof.
  unfold libraries_of, rows_where. rewrite filter_cons. destruct (IsEnvelopeShapes r.1) eqn:Er.
  - by rewrite decide_False.
  - by rewrite decide_True.
Qed.

Lemma Collect_Ok refs (e : E) (s : S) entries s' :
  positive refs → CollectPinnedShapes refs e s = (Ok entries, s') →
  s' = s ∧ entry_ref <$> entries = libraries_of refs ∧
  Forall (λ x, held_content (hub_rows s) (entry_ref x) = Some (h_Content x)) entries.
Proof.
  intros Hp. revert entries s'. induction Hp as [|[name v] refs Hv Hp IH]; intros entries s'; cbn [CollectPinnedShapes].
  - intros [-> ->]%handler_ret_Ok. done.
  - rewrite libraries_cons. cbn [fst]. destruct (IsEnvelopeShapes name); [apply IH|]. intros HR. handler_inv.
    match goal with H : or_if_not_found _ _ _ _ = _ |- _ => rewrite (held_read (name, v)) in H by done end.
    destruct (held_row _ _) as [row|] eqn:Ex; [|done]. match goal with H : (Ok row, _) = _ |- _ => injection H as <- <- end.
    match goal with H : CollectPinnedShapes _ _ _ = _ |- _ => apply IH in H as (-> & Hr & Hf) end.
    pose proof (held_row_ref _ _ _ Ex) as [Eref _].
    split_and!; [done|by rewrite fmap_cons, Hr; cbn; f_equal|].
    constructor; [|done]. change (entry_ref (pinned_entry row)) with (entry_ref row). unfold entry_ref.
    by rewrite Eref, <-held_row_content, Ex.
Qed.


(** The entries a ship carries, by reference. *)
Lemma shipped_by_ref_Ok pinned entries acc :
  Forall (λ x, entry_ref x ∈ pinned ∧ IsEnvelopeShapes (h_Name x) = false) entries →
  ∃ m, shipped_by_ref pinned entries acc = Ok m ∧
    (∀ r x, m !! r = Some x → acc !! r = Some x ∨ x ∈ entries ∧ entry_ref x = r) ∧
    (∀ r, is_Some (acc !! r) ∨ r ∈ entry_ref <$> entries → is_Some (m !! r)).
Proof.
  intros Hf. revert acc. induction Hf as [|y entries [Hy He] Hf IH]; intros acc; cbn [shipped_by_ref].
  - exists acc. split_and!; [done|by left|]. intros r [Hr|[]%elem_of_nil]. done.
  - fold (entry_ref y). change ((entry_ref y).1) with (h_Name y). rewrite He, bool_decide_eq_true_2 by done. cbn [negb].
    destruct (IH (<[entry_ref y := y]> acc)) as (m & -> & Hin & Hall). exists m. split_and!; [done| |].
    + intros r x [Hr|[Hx Ex]]%Hin; [|right; split; [by right|done]].
      apply lookup_insert_Some in Hr as [[<- <-]|[_ Hr]]; [|by left]. right. split; [left|done].
    + intros r [Hr|[->|Hr]%elem_of_cons]; apply Hall; [left|left|by right].
      * destruct (decide (entry_ref y = r)) as [->|Hne]; [by rewrite lookup_insert_eq|by rewrite lookup_insert_ne].
      * by rewrite lookup_insert_eq.
Qed.

(** A reference resolves here: held, and the ship does not contradict it, or shipped. *)
Definition settles (l : list Schema) (carried : gmap (string * Z) Schema) (r : string * Z) : Prop :=
  match held_row l r, carried !! r with
  | Some h, Some x => h_Content x = h_Content h
  | Some _, None => True
  | None, x => is_Some x
  end.

Definition missing (l : list Schema) (carried : gmap (string * Z) Schema) (r : string * Z) : option Schema :=
  match held_row l r with Some _ => None | None => carried !! r end.

Lemma plan_refs_iff createdBy carried refs (e : E) (s : S) install s' :
  positive refs →
  plan_refs createdBy carried refs e s = (Ok install, s') ↔
  s' = s ∧ Forall (settles (hub_rows s) carried) (libraries_of refs) ∧
  install = planned_entry createdBy <$> omap (missing (hub_rows s) carried) (libraries_of refs).
Proof.
  intros Hp. revert install s'. induction Hp as [|r refs Hv Hp IH]; intros install s'; cbn [plan_refs].
  - rewrite handler_ret_Ok. split; [intros [-> ->]; done|by intros (-> & _ & ->)].
  - rewrite libraries_cons. destruct (IsEnvelopeShapes r.1); [apply IH|].
    cbn [app omap list_omap]. rewrite Forall_cons. unfold mbind at 1, handler_bind at 1. rewrite heldPinnedShapes_eq by done.
    unfold settles at 1, missing at 1. destruct (held_row (hub_rows s) r) as [h|], (carried !! r) as [x|]; cbn [fmap list_fmap].
    + case_bool_decide; [rewrite IH; naive_solver|]. split; [done|naive_solver].
    + rewrite IH. naive_solver.
    + split.
      * intros HR. handler_inv. match goal with H : plan_refs _ _ _ _ _ = _ |- _ => apply IH in H as (-> & Hs & ->) end.
        split_and!; eauto.
      * intros (-> & [_ Hs] & ->). apply handler_bind_Ok. do 2 eexists. split; [apply IH; eauto|]. done.
    + split; [done|]. intros (_ & [[? ?] _] & _). done.
Qed.

(** The row an install writes. *)
Definition stored (at_ : Z) (x : Schema) : Schema :=
  {| h_Name := h_Name x; h_Version := h_Version x; h_Kind := PeerShapesKind; h_MediaType := h_MediaType x;
     h_Content := h_Content x; h_Active := false; h_CreatedBy := h_CreatedBy x; h_CreatedAt := at_ |}.

Definition installable (l : list Schema) (x : Schema) : Prop :=
  h_Name x ≠ EmptyString ∧ 0 < h_Version x <= max_int4 ∧ h_Content x ≠ EmptyString ∧
  exists_where (at_version (h_Name x) PeerShapesKind (h_Version x)) l = false.

Lemma StorePeerShapes_runs x (e : E) (s : S) :
  installable (hub_rows s) x →
  ∃ s', StorePeerShapes x e s = (Ok (), s') ∧ hub_rows s' = hub_rows s ++ [stored (hub_now e) x].
Proof.
  intros (Hn & Hv & Hc & Hfree). eexists. split.
  - unfold StorePeerShapes. apply transact_Ok. unfold Register, resolveVersion, insert_schema.
    assert ((h_Version x <? 0) = false) as -> by lia. assert ((h_Version x =? 0) = false) as -> by lia.
    unfold query, within, reject_if, raise, only_if, exec, mret, txn_ret, mbind, txn_bind. rewrite Hfree.
    rewrite bool_decide_eq_false_2 by done. assert ((max_int4 <? h_Version x) = false) as -> by lia.
    rewrite bool_decide_eq_true_2 by (repeat constructor). cbn [negb]. rewrite bool_decide_eq_false_2 by done.
    rewrite Hfree. reflexivity.
  - by rewrite hub_rows_set.
Qed.

Lemma StorePinnedShapes_runs install (e : E) (s : S) :
  NoDup (entry_ref <$> install) → Forall (installable (hub_rows s)) install →
  ∃ s', StorePinnedShapes install e s = (Ok (), s') ∧ hub_rows s' = hub_rows s ++ (stored (hub_now e) <$> install).
Proof.
  revert s. induction install as [|x install IH]; intros s HN Hf.
  - exists s. split; [done|]. cbn. by rewrite app_nil_r.
  - rewrite fmap_cons in HN. apply NoDup_cons in HN as [Hx HN]. apply Forall_cons in Hf as [Hi Hf].
    destruct (StorePeerShapes_runs x e s Hi) as (s1 & H1 & Hr1).
    destruct (IH s1) as (s2 & H2 & Hr2); [done| |].
    { apply Forall_forall. intros y Hy. rewrite Forall_forall in Hf. destruct (Hf y Hy) as (? & ? & ? & Hfree).
      repeat split; try done; try lia. rewrite Hr1. rewrite exists_where_false in Hfree |- *.
      intros z [Hz|[->|[]%elem_of_nil]%elem_of_cons]%elem_of_app; [by apply Hfree|].
      apply not_true_iff_false. intros [= E1 E2]%at_version_true. apply Hx.
      replace (entry_ref x) with (entry_ref y) by (unfold entry_ref; congruence). by apply list_elem_of_fmap_2. }
    exists s2. split.
    + unfold StorePinnedShapes. cbn [each]. apply handler_bind_Ok. exists (), s1. split; [by apply labelled_Ok|exact H2].
    + rewrite Hr2, Hr1, <-app_assoc. done.
Qed.

End travel.

(** ** The process *)

(** What the cache holds is what the table holds. *)
Definition consistent (h : HubState) : Prop :=
  sound (hub_table h) ∧
  ∀ name kind v c, immutableContent h !! (name, kind, v) = Some c → content_of (hub_table h) name kind v = Some c.

Definition progress (h h' : HubState) : Prop :=
  grows (hub_table h) (hub_table h') ∧ (consistent h → consistent h').
#[export] Instance progress_preorder : PreOrder progress.
Proof. split; [by split|]. intros x y z [H1 C1] [H2 C2]. split; [by etrans|auto]. Qed.

(** A write of the table alone. *)
Definition table_step (h h' : HubState) : Prop :=
  grows (hub_table h) (hub_table h') ∧ immutableContent h' = immutableContent h.
#[local] Instance table_step_preorder : PreOrder table_step.
Proof. split; [by split|]. intros x y z [H1 C1] [H2 C2]. split; [by etrans|congruence]. Qed.

Lemma table_step_progress h h' : table_step h h' → progress h h'.
Proof.
  intros [Hg Hc]. split; [done|]. intros [Hs Hcache]. split; [by apply Hg|].
  intros name kind v c. rewrite Hc. intros Hl%Hcache. by apply (content_of_grows (hub_table h)).
Qed.

Lemma transact_progress {A} (m : Txn Z HubState A) :
  evolves hub_grows m → frames immutableContent m → stays progress (transact m).
Proof.
  intros Hg Hf e h. unfold transact. destruct (commit_cases m e h) as [(a & h' & H & ->)|[err ->]]; [|reflexivity].
  apply table_step_progress. split; [by eapply Hg|by eapply Hf].
Qed.

Lemma observing_progress {A} (m : Txn Z HubState A) : observes m → stays progress (transact m).
Proof. intros Hm. apply stays_transact; [apply _|exact (evolves_observes progress m Hm)]. Qed.

Lemma frames_Register name kind media content by_ v activate :
  frames immutableContent (Register (S := HubState) name kind media content by_ v activate).
Proof.
  unfold Register, resolveVersion, insert_schema, activateVersion. evolves_tac.
  all: try (apply evolves_exec; intros; reflexivity).
Qed.
Lemma frames_Activate name kind v : frames immutableContent (Activate (S := HubState) name kind v).
Proof.
  unfold Activate, activateVersion. evolves_tac. all: try (apply evolves_exec; intros; reflexivity).
Qed.
Lemma frames_Seed asset : frames immutableContent (Seed (S := HubState) asset).
Proof.
  unfold Seed. induction genesis as [|g gs IH]; cbn [seed_entries]; [apply evolves_ret; apply _|].
  apply evolves_bind; [apply _| |intros _; apply IH].
  destruct g as [[[name kind] media] file]. unfold seed_entry. evolves_tac. apply frames_Register.
Qed.

Lemma observes_Get name kind v : observes (Get (E := Z) (S := HubState) name kind v).
Proof. unfold Get. evolves_tac. Qed.
#[local] Hint Resolve observes_Get : txn.
Lemma observes_ActiveVersion name kind : observes (ActiveVersion (E := Z) (S := HubState) name kind).
Proof. unfold ActiveVersion. evolves_tac. Qed.
Lemma observes_ActiveOntologyIRIs parse : observes (ActiveOntologyIRIs (E := Z) (S := HubState) parse).
Proof. unfold ActiveOntologyIRIs. evolves_tac. Qed.
#[local] Hint Resolve observes_ActiveVersion observes_ActiveOntologyIRIs : txn.

(** Reading a version: what the table holds, whatever is cached. *)
Definition read_version (l : list Schema) (name kind : string) (v : Z) : result string :=
  if v <=? 0 then Err (Errorf "semantic hub: version must be positive") else
  match content_of l name kind v with
  | Some c => Ok c
  | None => Err (Wrapf "name/kind" (Sentinel ErrSchemaNotFound))
  end.

Lemma versionContent_value name kind v e h :
  consistent h →
  ∃ h', versionContent name kind v e h = (read_version (hub_table h) name kind v, h') ∧
    hub_table h' = hub_table h ∧ consistent h'.
Proof.
  intros Hc. unfold versionContent, read_version. destruct (v <=? 0) eqn:Hv; [by exists h|]. apply Z.leb_gt in Hv.
  unfold mbind, handler_bind, look. destruct Hc as [Hs Hc]. destruct (immutableContent h !! _) as [c|] eqn:El.
  - apply Hc in El as ->. exists h. split; [done|]. split; [done|by split].
  - rewrite Get_version by done. cbn [hub_rows hub_process]. unfold content_of.
    destruct (List.find (at_version name kind v) (hub_table h)) as [s|] eqn:Ef; [|by exists h].
    eexists. split; [reflexivity|]. split; [done|]. split; [done|]. intros n k w c. cbn.
    intros [[[= <- <- <-] <-]|[_ Hl]]%lookup_insert_Some; [by unfold content_of; rewrite Ef|by apply Hc].
Qed.

Lemma progress_versionContent name kind v : stays progress (versionContent name kind v).
Proof.
  intros e h. split.
  - assert (hub_table (versionContent name kind v e h).2 = hub_table h) as ->; [|reflexivity]. unfold versionContent. destruct (_ <=? _); [done|].
    unfold mbind, handler_bind, look. destruct (immutableContent h !! _); [done|].
    unfold transact, commit. destruct (Get name kind v e h) as [[s h']|] eqn:Eg; [|done].
    apply observes_Get in Eg. cbn in Eg. by subst.
  - intros Hc. by destruct (versionContent_value name kind v e h Hc) as (h' & -> & _ & Hc').
Qed.

Lemma progress_or_if_not_found {A} (m other : Serve A) :
  stays progress m → stays progress other → stays progress (or_if_not_found m other).
Proof. intros H1 H2. unfold or_if_not_found. stays_tac. Qed.

Section served.
Context `{HubServices}.

Lemma progress_active name kind : stays progress (active name kind).
Proof.
  unfold active. stays_tac; [by apply observing_progress, observes_ActiveVersion|apply progress_versionContent].
Qed.

Lemma progress_pinned ref : stays progress (pinnedShapesContent ref).
Proof.
  unfold pinnedShapesContent. apply progress_or_if_not_found; [apply progress_versionContent|].
  stays_tac; [apply progress_active|apply progress_versionContent].
Qed.

Lemma progress_bundle refs : stays progress (ShapesBundleAt refs).
Proof.
  unfold ShapesBundleAt. stays_tac. clear. induction refs as [|r refs IH]; cbn [bundle_parts]; stays_tac.
  all: first [apply progress_pinned|apply IH|idtac].
Qed.

Lemma progress_Refresh : stays progress RefreshValidationAnchors.
Proof.
  unfold RefreshValidationAnchors, ActiveShapeLibraryClasses. stays_tac.
  all: try (apply observing_progress; eauto with txn).
  intros e h. by apply table_step_progress.
Qed.

Lemma progress_Register p : p_Kind p ≠ PeerShapesKind → stays progress (Register_endpoint p).
Proof.
  intros Hk. unfold Register_endpoint. stays_tac.
  all: try apply progress_Refresh.
  apply transact_progress; [by apply grows_Register|apply frames_Register].
Qed.

Lemma progress_Rollback name kind v : kind ≠ PeerShapesKind → stays progress (Rollback_endpoint name kind v).
Proof.
  intros Hk. unfold Rollback_endpoint. stays_tac; [|apply progress_Refresh].
  apply transact_progress; [by apply grows_Activate|apply frames_Activate].
Qed.

Lemma progress_Store install : stays progress (StorePinnedShapes (S := HubState) install).
Proof.
  apply stays_each; [apply _|]. intros entry _. apply stays_labelled. unfold StorePeerShapes.
  apply transact_progress.
  - apply evolves_bind; [apply _|by apply grows_Register|intros; apply evolves_ret; apply _].
  - apply evolves_bind; [apply _|apply frames_Register|intros; apply evolves_ret; apply _].
Qed.

(** The kinds the endpoints take. *)
Definition published_kinds : list string := ["context"; "shapes"; "profile"; "ontology"].

(** What changes the hub's state: the two writing endpoints, the seed at start-up,
    an inbound ship, any read that fills the cache, and a restart. *)
Inductive hub_step : HubState → HubState → Prop :=
  | step_register e p h : p_Kind p ∈ published_kinds → hub_step h (Register_endpoint p e h).2
  | step_rollback e name kind v h : kind ∈ published_kinds → hub_step h (Rollback_endpoint name kind v e h).2
  | step_seed e asset h : hub_step h (transact (Seed asset) e h).2
  | step_ship e install h : hub_step h (StorePinnedShapes install e h).2
  | step_read e name kind v h : hub_step h (versionContent name kind v e h).2
  | step_bundle e refs h : hub_step h (ShapesBundleAt refs e h).2
  | step_restart installed h : hub_step h (restarted installed h).

Lemma published_not_peer kind : kind ∈ published_kinds → kind ≠ PeerShapesKind.
Proof. intros Hk ->. vm_compute in Hk. set_solver. Qed.

Lemma hub_step_progress h h' : hub_step h h' → progress h h'.
Proof.
  intros [].
  - by apply progress_Register, published_not_peer.
  - by apply progress_Rollback, published_not_peer.
  - apply transact_progress; [apply grows_Seed|apply frames_Seed].
  - apply progress_Store.
  - apply progress_versionContent.
  - apply progress_bundle.
  - split; [reflexivity|]. by intros [Hs _].
Qed.

Lemma hub_run_progress h h' : rtc hub_step h h' → progress h h'.
Proof. induction 1 as [|x y z Hxy _ IH]; [reflexivity|]. etrans; [by apply hub_step_progress|exact IH]. Qed.

(** An empty hub, before the seed. *)
Definition empty_hub (installed : Envelopes.Hub) : HubState :=
  {| hub_table := []; immutableContent := ∅; anchors := installed |}.

Lemma empty_consistent installed : consistent (empty_hub installed).
Proof. split; [|done]. split; cbn; try (intros ? H1; by apply elem_of_nil in H1); try constructor. intros s t H1. by apply elem_of_nil in H1. Qed.

(** C29: Whatever the hub serves, seeds and receives, and however often the process
    restarts, a version is never changed: rows are only added, at most one version
    of an entry is active, a peer's shapes are never active, and a version that
    resolves once, from the table or from the process's cache, resolves to the same
    content ever after. *)
Theorem hub_versions_are_immutable (installed : Envelopes.Hub) (h h' : HubState) :
  rtc hub_step (empty_hub installed) h → rtc hub_step h h' →
  sound (hub_table h') ∧ history (hub_table h) `prefix_of` history (hub_table h') ∧
  (∀ name kind v e, (versionContent name kind v e h).1 = read_version (hub_table h) name kind v) ∧
  (∀ name kind v e e' c, (versionContent name kind v e h).1 = Ok c → (versionContent name kind v e' h').1 = Ok c).
Proof.
  intros H0%hub_run_progress H1%hub_run_progress. apply proj2 in H0 as Hc. specialize (Hc (empty_consistent _)).
  destruct H1 as [Hg Hc']. specialize (Hc' Hc). split_and!; [apply Hc'|apply Hg| |].
  - intros name kind v e. by destruct (versionContent_value name kind v e h Hc) as (? & -> & _).
  - intros name kind v e e' c. destruct (versionContent_value name kind v e h Hc) as (? & -> & _).
    destruct (versionContent_value name kind v e' h' Hc') as (? & -> & _). cbn. unfold read_version.
    destruct (v <=? 0); [done|]. destruct (content_of (hub_table h) name kind v) as [c0|] eqn:Ec; [|done].
    intros [= <-]. by rewrite (content_of_grows (hub_table h) (hub_table h') _ _ _ c0) by (done || apply Hc).
Qed.

End served.

(** ** Shapes travel with the contract that pins them *)
Section travelling.
Context `{HubServices}.

Lemma libraries_not_envelope refs r : r ∈ libraries_of refs → IsEnvelopeShapes r.1 = false ∧ r ∈ refs.
Proof. intros [Hr Hn]%elem_of_rows_where. by apply negb_true_iff in Hn. Qed.

Lemma positive_in refs r : positive refs → r ∈ libraries_of refs → 0 < r.2.
Proof. intros Hp [_ Hr]%libraries_not_envelope. unfold positive in Hp. rewrite Forall_forall in Hp. by apply Hp. Qed.

Lemma pinnedShapesContent_value ref e h :
  consistent h → 0 < ref.2 → IsEnvelopeShapes ref.1 = false →
  (pinnedShapesContent ref e h).1 =
  match held_content (hub_table h) ref with
  | Some c => Ok c
  | None => Err (Wrapf "name/kind" (Sentinel ErrSchemaNotFound))
  end.
Proof.
  intros Hc Hv He. unfold pinnedShapesContent, or_if_not_found, outcome, mbind, handler_bind, held_content.
  destruct (versionContent_value ref.1 ShapesKind ref.2 e h Hc) as (h1 & -> & Ht & Hc1).
  unfold read_version. assert ((ref.2 <=? 0) = false) as -> by lia.
  destruct (content_of (hub_table h) ref.1 ShapesKind ref.2) as [c|]; [done|].
  cbn [errors_Is]. rewrite bool_decide_eq_true_2, He by done.
  destruct (versionContent_value ref.1 PeerShapesKind ref.2 e h1 Hc1) as (h2 & -> & _ & _).
  unfold read_version. rewrite Ht. assert ((ref.2 <=? 0) = false) as -> by lia. cbn.
  by destruct (content_of (hub_table h) ref.1 PeerShapesKind ref.2).
Qed.

(** The carried entries are what the sender resolves. *)
Definition carries (l : list Schema) (refs : list (string * Z)) (carried : gmap (string * Z) Schema) : Prop :=
  ∀ r, r ∈ libraries_of refs → ∃ x, carried !! r = Some x ∧ entry_ref x = r ∧ held_content l r = Some (h_Content x).

Lemma collected_carries l refs entries :
  entry_ref <$> entries = libraries_of refs →
  Forall (λ x, held_content l (entry_ref x) = Some (h_Content x)) entries →
  ∃ m, shipped_by_ref refs entries ∅ = Ok m ∧ carries l refs m.
Proof.
  intros Hr Hf. rewrite Forall_forall in Hf.
  destruct (shipped_by_ref_Ok refs entries ∅) as (m & Hm & Hin & Hall).
  { apply Forall_forall. intros x Hx. assert (entry_ref x ∈ libraries_of refs) as [He Hp]%libraries_not_envelope; [|done].
    rewrite <-Hr. by apply list_elem_of_fmap_2. }
  exists m. split; [done|]. intros r Hlib. destruct (Hall r) as [x Hx]; [right; by rewrite Hr|].
  exists x. destruct (Hin r x Hx) as [Hbad|[Hx' <-]]; [by rewrite lookup_empty in Hbad|]. eauto.
Qed.

Lemma settles_iff l lB refs m r :
  carries l refs m → r ∈ libraries_of refs →
  settles lB m r ↔ ∀ c, held_content lB r = Some c → held_content l r = Some c.
Proof.
  intros Hc Hr. destruct (Hc r Hr) as (x & Hx & _ & Hl). unfold settles. rewrite Hx, <-held_row_content, Hl.
  destruct (held_row lB r) as [h|]; cbn.
  - split; [intros -> c [= <-]; done|]. intros Hag. specialize (Hag _ eq_refl). by injection Hag.
  - split; [done|]. intros _. by exists x.
Qed.

(** What a sound sender holds can be installed where nothing is held. *)
Lemma missing_installable (l lB : list Schema) refs m by_ :
  sound l → NoDup refs → carries l refs m →
  NoDup (entry_ref <$> (planned_entry by_ <$> omap (missing lB m) (libraries_of refs))) ∧
  Forall (installable lB) (planned_entry by_ <$> omap (missing lB m) (libraries_of refs)).
Proof.
  intros Hs HN Hc. split.
  - rewrite <-list_fmap_compose. 
    assert (entry_ref ∘ planned_entry by_ <$> omap (missing lB m) (libraries_of refs) =
            rows_where (λ r, bool_decide (is_Some (missing lB m r))) (libraries_of refs)) as ->.
    { assert (Hc' : ∀ r, r ∈ libraries_of refs → ∃ x, m !! r = Some x ∧ entry_ref x = r)
        by (intros r Hr; destruct (Hc r Hr) as (x & ? & ? & _); eauto).
      clear Hc. induction (libraries_of refs) as [|r rs IH]; [done|]. unfold rows_where. rewrite filter_cons. cbn.
      destruct (Hc' r) as (x & Hx & Er); [left|]. fold (rows_where (λ r, bool_decide (is_Some (missing lB m r))) rs).
      rewrite <-IH by (intros; apply Hc'; by right). destruct (missing lB m r) as [y|] eqn:Em.
      - rewrite decide_True by by apply bool_decide_eq_true_2. rewrite !fmap_cons. f_equal.
        unfold missing in Em. destruct (held_row lB r); [done|]. rewrite Hx in Em. injection Em as ->. exact Er.
      - rewrite decide_False; [done|]. by rewrite bool_decide_eq_true; intros [? ?]. }
    by apply NoDup_filter, NoDup_filter.
  - apply Forall_fmap, Forall_forall. intros x (r & Hr & Hm)%list_elem_of_omap.
    destruct (Hc r Hr) as (y & Hy & Er & Hl). unfold missing in Hm. destruct (held_row lB r) eqn:Eh; [done|].
    rewrite Hy in Hm. injection Hm as ->. rewrite <-held_row_content in Hl.
    destruct (held_row l r) as [row|] eqn:El; [|done]. injection Hl as Ec.
    apply held_row_ref in El as [Erow Hrow]. destruct (row_ok l Hs row Hrow) as (H1 & H2 & H3).
    rewrite <-Erow in Er, Eh. injection Er as E1 E2. unfold installable. cbn. rewrite E1, E2, <-Ec.
    split_and!; try done; try lia. unfold held_row in Eh. cbn in Eh.
    destruct (List.find (at_version (h_Name row) ShapesKind _) lB) in Eh; [done|]. by apply find_None.
Qed.

(** What an install does to a lookup. *)
Lemma content_of_app_own l new name kind v :
  Forall (λ s, h_Kind s ≠ kind) new → content_of (l ++ new) name kind v = content_of l name kind v.
Proof.
  intros Hf. rewrite Forall_forall in Hf. unfold content_of. f_equal.
  induction l as [|s l IH]; cbn; [|by destruct (at_version name kind v s)].
  apply find_None, exists_where_false. intros s Hs. apply not_true_iff_false.
  intros [= _ E _]%at_version_true. by apply (Hf s Hs).
Qed.

Lemma held_after_install l new r :
  NoDup (schema_key <$> l ++ new) → Forall (λ s, h_Kind s = PeerShapesKind) new →
  (∀ c, held_content l r = Some c → held_content (l ++ new) r = Some c) ∧
  (∀ x, x ∈ new → entry_ref x = r → held_content l r = None → held_content (l ++ new) r = Some (h_Content x)).
Proof.
  intros HN Hf. unfold held_content.
  rewrite content_of_app_own by (eapply Forall_impl; [exact Hf|]; intros s Hs; cbn in Hs; rewrite Hs; done).
  split.
  - intros c. destruct (content_of l r.1 ShapesKind r.2); [done|]. intros (s & Hs & Hk & <-)%content_of_inv.
    apply content_of_Some; [done|apply elem_of_app; by left|done].
  - intros x Hx <-. cbn. destruct (content_of l (h_Name x) ShapesKind (h_Version x)); [done|]. intros _.
    apply content_of_Some; [done|apply elem_of_app; by right|]. rewrite Forall_forall in Hf.
    unfold schema_key. by rewrite (Hf x Hx).
Qed.

(** An accepted plan, installed. *)
Lemma install_resolves (l : list Schema) refs m by_ eS (b : HubState) :
  sound l → positive refs → NoDup refs → consistent b → carries l refs m →
  Forall (settles (hub_table b) m) (libraries_of refs) →
  ∃ b2, StorePinnedShapes (planned_entry by_ <$> omap (missing (hub_table b) m) (libraries_of refs)) eS b = (Ok (), b2) ∧
    consistent b2 ∧ own_rows (hub_table b2) = own_rows (hub_table b) ∧
    ∀ ref, ref ∈ libraries_of refs → held_content (hub_table b2) ref = held_content l ref.
Proof.
  intros Hl Hp HN Hb Hc Hs. set (install := planned_entry by_ <$> _).
  destruct (missing_installable l (hub_table b) refs m by_ Hl HN Hc) as [Hnd Hin].
  destruct (StorePinnedShapes_runs (HL := hub_process_laws) install eS b Hnd Hin) as (b2 & Hrun & Hrows). exists b2.
  pose proof (progress_Store install eS b) as [_ Hcons].
  pose proof (confined_StorePinnedShapes (HL := hub_process_laws) install eS b) as [_ Hown].
  change (hub_now eS) with eS in Hrows. rewrite Hrun in Hcons, Hown. cbn [snd hub_rows hub_process] in *. specialize (Hcons Hb). split_and!; [done..|].
  intros ref Hlib. destruct (Hc ref Hlib) as (x & Hx & Er & ->).
  rewrite Forall_forall in Hs. specialize (Hs ref Hlib). rewrite (settles_iff l _ refs m ref Hc Hlib) in Hs.
  destruct (held_after_install (hub_table b) (stored eS <$> install) ref) as [Hold Hnew].
  { rewrite <-Hrows. apply keys_once, Hcons. }
  { apply Forall_fmap, Forall_forall. done. }
  rewrite Hrows. destruct (held_content (hub_table b) ref) as [c|] eqn:Eb.
  - rewrite (Hold c eq_refl). symmetry. rewrite <-(Hs c eq_refl). by destruct (Hc ref Hlib) as (y & Hy & _ & ->); simplify_eq.
  - apply (Hnew (stored eS (planned_entry by_ x))); [|done..].
    apply list_elem_of_fmap_2, list_elem_of_fmap_2, list_elem_of_omap. exists ref. split; [done|].
    unfold missing. rewrite <-held_row_content in Eb. by destruct (held_row (hub_table b) ref).
Qed.

(** The shape libraries a contract pins travel with it.  What an instance
    collects for a ship is accepted by the receiving hub exactly when that hub does
    not already hold different content under one of the pinned names and versions;
    and an accepted plan, once installed, makes every pinned library resolve there
    to the content it resolves to at the sender, while leaving every row the
    receiver itself publishes as it was. *)
Theorem pinned_shapes_travel (refs : list (string * Z)) (by_ : string) (eA eB eS : Z)
    (a a' b : HubState) (entries : list Schema) :
  positive refs → NoDup refs → consistent a → consistent b →
  CollectPinnedShapes refs eA a = (Ok entries, a') →
  ((∃ install, PlanPinnedShapesImport by_ refs entries eB b = (Ok install, b)) ↔
     ∀ ref c, ref ∈ libraries_of refs →
       held_content (hub_table b) ref = Some c → held_content (hub_table a) ref = Some c) ∧
  ∀ install b1, PlanPinnedShapesImport by_ refs entries eB b = (Ok install, b1) →
    b1 = b ∧ ∃ b2, StorePinnedShapes install eS b = (Ok (), b2) ∧ consistent b2 ∧
      own_rows (hub_table b2) = own_rows (hub_table b) ∧
      ∀ ref e e', ref ∈ libraries_of refs →
        ∃ c, (pinnedShapesContent ref e a).1 = Ok c ∧ (pinnedShapesContent ref e' b2).1 = Ok c.
Proof.
  intros Hp HN Ha Hb (-> & Hr & Hf)%Collect_Ok; [|done]. cbn [hub_rows hub_process] in Hf.
  destruct (collected_carries _ _ _ Hr Hf) as (m & Hm & Hc).
  assert (Hplan : ∀ install b1, PlanPinnedShapesImport by_ refs entries eB b = (Ok install, b1) ↔
    b1 = b ∧ Forall (settles (hub_table b) m) (libraries_of refs) ∧
    install = planned_entry by_ <$> omap (missing (hub_table b) m) (libraries_of refs)).
  { intros install b1. unfold PlanPinnedShapesImport. rewrite Hm.
    exact (plan_refs_iff by_ m refs eB b install b1 Hp). }
  split; [split|].
  - intros (install & (_ & Hs & _)%Hplan) ref c Hlib. rewrite Forall_forall in Hs.
    by apply (settles_iff _ _ refs m), Hs.
  - intros Hag. eexists. apply Hplan. split_and!; [done| |reflexivity].
    apply Forall_forall. intros r Hlib. apply (settles_iff (hub_table a) _ refs); [done..|]. intros c. by apply Hag.
  - intros install b1 (-> & Hs & ->)%Hplan. split; [done|].
    destruct (install_resolves (hub_table a) refs m by_ eS b) as (b2 & Hrun & Hcons & Hown & Hres); [apply Ha|done..|].
    exists b2. split_and!; [done..|]. intros ref e e' Hlib.
    pose proof (positive_in refs ref Hp Hlib) as Hv. apply libraries_not_envelope in Hlib as Hle. destruct Hle as [He _].
    rewrite !pinnedShapesContent_value, Hres by done. destruct (Hc ref Hlib) as (x & _ & _ & ->). by exists (h_Content x).
Qed.

End travelling.

(** ** Concrete hubs *)
Definition demo_hub_services : HubServices :=
  {| parse_json := λ s, if bool_decide (s = "{}") then Ok (JObj ∅)
       else Ok (JObj {["@context" := JObj {["dcs" := JStr "https://w3id.org/facis/dcs/ontology/v1#"]}]});
     target_classes := λ s, Ok [String.append "urn:class:" s]; parse_url := λ _, Err (Errorf "parse"%string);
     http_get := λ _, Err (Errorf "unreachable"%string); public_url := "https://a.example" |}.

Definition no_anchors : Envelopes.Hub :=
  {| schemaRefJSONLDContext := EmptyString; schemaRefSHACLShapes := EmptyString; canonicalOntologyIRIs := ∅;
     shapeLibraryAnchors := ∅; Envelopes.ContextByIRI := None |}.

Definition library_payload (content : string) : RegisterPayload :=
  {| p_Name := "hosting"; p_Kind := "shapes"; p_MediaType := "text/turtle"; p_Content := Some content;
     p_SourceURL := None; p_Version := None; p_Activate := Some true; p_Participant := "manager" |}.

Definition seeded : HubState := (transact (Seed id) 10 (empty_hub no_anchors)).2.
Definition published : HubState := (Register_endpoint (H := demo_hub_services) (library_payload "first") 20 seeded).2.
Definition revised : HubState := (Register_endpoint (H := demo_hub_services) (library_payload "second") 30 published).2.

Lemma seeded_run : rtc (hub_step (H := demo_hub_services)) (empty_hub no_anchors) seeded.
Proof. exact (rtc_once _ _ (step_seed (H := demo_hub_services) 10 id (empty_hub no_anchors))). Qed.
Lemma published_step : hub_step (H := demo_hub_services) seeded published.
Proof. unfold published. refine (step_register (H := demo_hub_services) 20 (library_payload "first") seeded _). right. left. Qed.
Lemma revised_step : hub_step (H := demo_hub_services) published revised.
Proof. unfold revised. refine (step_register (H := demo_hub_services) 30 (library_payload "second") published _). right. left. Qed.

(** A library is revised, a restart drops the cache, and its first version is still
    what it was. *)
Lemma immutable_witness :
  (versionContent "hosting" "shapes" 1 90 (restarted no_anchors revised)).1 = Ok "first"%string ∧
  (active "hosting" "shapes" 90 revised).1 = Ok ("second"%string, 2).
Proof.
  split; [|by vm_compute].
  apply (hub_versions_are_immutable (H := demo_hub_services) no_anchors published (restarted no_anchors revised))
    with (e := 50).
  - eapply rtc_r; [exact seeded_run|exact published_step].
  - eapply rtc_l; [exact revised_step|]. apply rtc_once, (step_restart (H := demo_hub_services)).
  - by vm_compute.
Defined.

Lemma seeded_consistent : consistent seeded.
Proof. apply (hub_run_progress (H := demo_hub_services) _ _ seeded_run), empty_consistent. Qed.
Lemma published_consistent : consistent published.
Proof. apply (hub_step_progress (H := demo_hub_services) _ _ published_step), seeded_consistent. Qed.

Definition demo_pins : list (string * Z) := [(ShapesName, 1); ("hosting"%string, 1)].
Lemma demo_libraries : libraries_of demo_pins = [("hosting"%string, 1)].
Proof. by vm_compute. Qed.
Definition demo_entries : list Schema :=
  [{| h_Name := "hosting"; h_Version := 1; h_Kind := "shapes"; h_MediaType := "text/turtle"; h_Content := "first";
      h_Active := false; h_CreatedBy := EmptyString; h_CreatedAt := 0 |}].

(** A hub without the library receives it, and resolves it as its publisher does. *)
Lemma travel_witness :
  ∃ install b2, PlanPinnedShapesImport "peer:a" demo_pins demo_entries 5 seeded = (Ok install, seeded) ∧
    StorePinnedShapes install 6 seeded = (Ok (), b2) ∧
    (pinnedShapesContent ("hosting"%string, 1) 7 b2).1 = (pinnedShapesContent ("hosting"%string, 1) 7 published).1.
Proof.
  destruct (pinned_shapes_travel demo_pins "peer:a" 4 5 6 published published seeded demo_entries)
    as [(_ & Hok) Hinst].
  - repeat constructor.
  - apply NoDup_cons. split; [by intros [= E]%list_elem_of_singleton|apply NoDup_singleton].
  - exact published_consistent.
  - exact seeded_consistent.
  - destruct (CollectPinnedShapes demo_pins 4 published) as [r h] eqn:Er.
    assert (r = Ok demo_entries) as -> by (change r with ((r, h).1); rewrite <-Er; by vm_compute).
    apply Collect_Ok in Er as (-> & _); [done|repeat constructor].
  - destruct Hok as [install Hplan].
    { intros ref c. rewrite demo_libraries. intros ->%list_elem_of_singleton. by vm_compute. }
    destruct (Hinst _ _ Hplan) as (_ & b2 & Hst & _ & _ & Hres). exists install, b2. split_and!; [done..|].
    destruct (Hres ("hosting"%string, 1) 7 7) as (c & H1 & H2); [rewrite demo_libraries; left|]. congruence.
Defined.
