(* ===== verification/Federation.v ===== *)
(** The federation's own store: the retry queue of failed ships, the provenance of
    received agreements, and the statements on settlements that deliver them
    (internal/dcstodcs/db/pg/syncrepository.go), beside the tables of the workflow
    and of the Semantic Hub; and the incidents a denied interaction leaves
    (trustgate.go, processauditandcompliance/query/querytrustgatedenial.go).

    A handler of the federation runs one transaction after another and calls peers
    in between; peers answer through the environment. *)
From S2P Require Import Prelude Json Sha256 Envelope Scopes ArtifactStore ContractState Store Repos Transactions Handlers DidWeb DidDocument PeerIdentity TrustGate.
From S2P Require Import Document Authoring Anchors SemanticHub Store.
Import GoStrings.

(** ** Rows *)
Record SyncFail := {
  sf_did : string;
  sf_retry_count : Z;
  sf_last_tried_at : Z;
  sf_gate_incident_recorded : bool
}.

Record SyncSignature := {
  ss_DID : string;
  ss_ContractVersion : Z;
  ss_FromPeerDID : string;
  ss_JadesSignature : string;
  ss_ReceivedAt : Z
}.

(** [f_base] holds the tables of the workflow; its [sync_signatures] is the
    from_peer_did column of [provenance]. *)
Record FStore := {
  f_base : Store;
  f_hub : list SemanticHub.Schema;
  sync_fails : list SyncFail;
  provenance : gmap string SyncSignature
}.

Definition set_base f (s : FStore) : FStore :=
  {| f_base := f (f_base s); f_hub := f_hub s; sync_fails := sync_fails s; provenance := provenance s |}.
Definition set_hub f (s : FStore) : FStore :=
  {| f_base := f_base s; f_hub := f (f_hub s); sync_fails := sync_fails s; provenance := provenance s |}.
Definition set_sync_fails f (s : FStore) : FStore :=
  {| f_base := f_base s; f_hub := f_hub s; sync_fails := f (sync_fails s); provenance := provenance s |}.
Definition set_provenance f (s : FStore) : FStore :=
  {| f_base := f_base s; f_hub := f_hub s; sync_fails := sync_fails s; provenance := f (provenance s) |}.

(** ** What a peer is sent *)
Record SettlementRequest := {
  sr_FromPeerDid : string; sr_ContractIri : string; sr_SecretValue : bytes; sr_SecretHash : bytes;
  sr_SettlementJades : string
}.
Record WithdrawalRequest := {
  wr_FromPeerDid : string; wr_ContractIri : string; wr_SecretValue : bytes; wr_SecretHash : bytes;
  wr_WithdrawalJades : string
}.
(** A shape library on the wire; a missing element decodes to [None]. *)
Record PinnedShapes := { ps_Name : string; ps_Version : Z; ps_MediaType : string; ps_Content : string }.

Record PdfRequest := {
  pr_FromPeerDid : string; pr_ContractIri : string; pr_Pdf : bytes; pr_SecretValue : bytes; pr_SecretHash : bytes;
  pr_JadesSignature : option string; pr_ContractState : option string; pr_WrappedCek : option DCSToDCSWrappedCEK;
  pr_PinnedShapes : list (option PinnedShapes)
}.

Record SettlementSender := {
  SendSettlement : string → SettlementRequest → result ();
  SendSettlementWithdrawal : string → WithdrawalRequest → result ()
}.

(** The artifact store, as far as a ship uses it: reading a contract's PDF, wrapping
    its key for a peer, adopting a peer's key. *)
Record ArtifactAccess := {
  GetArtifact : string → string → result bytes;
  WrapForPeer : string → string → string → option point → result WrappedCEK;
  AdoptPeerCEK : string → WrappedCEK → result ()
}.

(** The instance and the moment: the clock in microseconds, the identity, the trust
    roots, a drawn secret, the peers' answers, the artifact store, the counterparty
    gate. *)
Record FEnv `{IdentityServices} := {
  x_env : Env;
  x_own : DIDDocument;
  x_roots : option CertPool;
  x_secret : string;
  x_sender : option SettlementSender;
  x_post_pdf : string → PdfRequest → result ();
  x_artifacts : ArtifactAccess;
  x_poa : CounterpartyPoAGate
}.

Section federation.
Context {I : IdentityServices}.

Definition x_now (x : FEnv) : Z := env_now (x_env x).
(** The clock in nanoseconds. *)
Definition x_nanos (x : FEnv) : Z := 1000 * x_now x.

Definition FTx (A : Type) : Type := Txn FEnv FStore A.
Definition FHandler (A : Type) : Type := Handler FEnv FStore A.

#[global] Instance federation_hub : HubStore FEnv FStore :=
  {| hub_rows := f_hub; set_hub_rows := set_hub; hub_now := x_now |}.
#[global] Instance federation_hub_laws : HubStoreLaws FEnv FStore.
Proof. by split. Qed.

(** A transaction of the workflow's tables. *)
Definition on_base {A} (m : Tx A) : Txn FEnv FStore A := λ x s,
  match m (x_env x) (f_base s) with
  | Ok (a, b) => Ok (a, set_base (λ _, b) s)
  | Err err => Err err
  end.

(** ** syncrepository.go *)
Definition is_fail (did : string) (f : SyncFail) : bool := bool_decide (sf_did f = did).

Definition retried (now : Z) (isGateFailure : bool) (f : SyncFail) : SyncFail :=
  {| sf_did := sf_did f; sf_retry_count := sf_retry_count f + 1; sf_last_tried_at := now;
     sf_gate_incident_recorded := sf_gate_incident_recorded f || isGateFailure |}.

(** Whether this call is the first to see a gate failure for the entry. *)
Definition CreateOrUpdateSyncFailEntry (did : string) (isGateFailure : bool) : Txn FEnv FStore bool :=
  existing ← query (λ _ s, List.find (is_fail did) (sync_fails s));
  _ ← exec (λ x, set_sync_fails (λ l,
        match existing with
        | Some _ => update_where (is_fail did) (retried (x_now x) isGateFailure) l
        | None => l ++ [{| sf_did := did; sf_retry_count := 0; sf_last_tried_at := x_now x;
                           sf_gate_incident_recorded := isGateFailure |}]
        end));
  mret (isGateFailure && negb (default false (sf_gate_incident_recorded <$> existing))).

Definition DeleteSyncFailEntry (did : string) : Txn FEnv FStore () :=
  exec (λ _, set_sync_fails (rows_where (λ f, negb (is_fail did f)))).

(** Intervals in microseconds. *)
Definition backoff (base maxBackoff : Z) (f : SyncFail) : Z :=
  Z.min (base * 2 ^ Z.min (sf_retry_count f) 6) maxBackoff.

Definition due (now base maxBackoff : Z) (f : SyncFail) : bool :=
  sf_last_tried_at f <=? now - backoff base maxBackoff f.

Definition GetPendingSyncFails (base maxBackoff : Z) (limit : nat) : Txn FEnv FStore (list SyncFail) :=
  query (λ x s, take limit (order_by sf_last_tried_at (rows_where (due (x_now x) base maxBackoff) (sync_fails s)))).

Definition UpsertSyncSignature (sig : SyncSignature) : Txn FEnv FStore () :=
  _ ← exec (λ x, set_provenance (<[ss_DID sig :=
        {| ss_DID := ss_DID sig; ss_ContractVersion := ss_ContractVersion sig; ss_FromPeerDID := ss_FromPeerDID sig;
           ss_JadesSignature := ss_JadesSignature sig; ss_ReceivedAt := x_now x |}]>));
  exec (λ _, set_base (set_sync_signatures (<[ss_DID sig := ss_FromPeerDID sig]>))).

Definition GetSyncSignature (did : string) : Txn FEnv FStore (option SyncSignature) :=
  query (λ _ s, provenance s !! did).

Definition undelivered (from : string) (r : Settlement) : bool :=
  bool_decide (s_from r = from) && bool_decide (s_delivered_at r = None).

Definition GetUndeliveredSettlements (from : string) : Txn FEnv FStore (list Settlement) :=
  query (λ _ s, order_by s_recorded_at (rows_where (undelivered from) (settlements (f_base s)))).

Definition between (did from to_ : string) (r : Settlement) : bool :=
  bool_decide (settlement_key r = (did, from, to_)).

Definition delivered (at_ : Z) (r : Settlement) : Settlement :=
  {| s_did := s_did r; s_from := s_from r; s_to := s_to r; s_contract_version := s_contract_version r;
     s_document_digest := s_document_digest r; s_settled_at := s_settled_at r; s_jades := s_jades r;
     s_recorded_at := s_recorded_at r; s_delivered_at := Some at_ |}.

Definition MarkSettlementDelivered (did from to_ : string) : Txn FEnv FStore () :=
  exec (λ x, set_base (set_settlements (update_where (between did from to_) (delivered (x_now x))))).

Definition unsent (from : string) (w : Withdrawal) : bool :=
  bool_decide (w_from w = from) && bool_decide (w_delivered_at w = None).

Definition GetUndeliveredSettlementWithdrawals (from : string) : Txn FEnv FStore (list Withdrawal) :=
  query (λ _ s, order_by w_recorded_at (rows_where (unsent from) (withdrawals (f_base s)))).

Definition names_pair (did from to_ : string) (w : Withdrawal) : bool :=
  bool_decide (withdrawal_key w = (did, from, to_)).

Definition sent (at_ : Z) (w : Withdrawal) : Withdrawal :=
  {| w_did := w_did w; w_from := w_from w; w_to := w_to w; w_document_digest := w_document_digest w;
     w_withdrawn_at := w_withdrawn_at w; w_recorded_at := w_recorded_at w; w_delivered_at := Some at_ |}.

Definition MarkSettlementWithdrawalDelivered (did from to_ : string) : Txn FEnv FStore () :=
  exec (λ x, set_base (set_withdrawals (update_where (names_pair did from to_) (sent (x_now x))))).

(** contractrepository.go [ReadHistoryByDID]. *)
Definition ReadHistoryByDID (did : string) : Txn FEnv FStore (list Contract) :=
  query (λ _ s, rows_where (λ c, bool_decide (c_did c = did)) (contract_history (f_base s))).

Definition GetSettlement (did from : string) : Txn FEnv FStore (option Settlement) :=
  on_base (SyncRepo.GetSettlement did from).
Definition UpsertSettlement (r : Settlement) : Txn FEnv FStore () := on_base (SyncRepo.UpsertSettlement r).
Definition DeleteSettlementsBy (did from : string) : Txn FEnv FStore () :=
  on_base (SyncRepo.DeleteSettlementsBy did from).
Definition ReadDataByDID (did : string) : Txn FEnv FStore Contract := on_base (ContractRepo.ReadDataByDID did).
Definition ReadPDFState (did : string) : Txn FEnv FStore PDFState := on_base (ContractRepo.ReadPDFState did).

(** ** Incidents *)
Definition denial_event_type : string := "PAC_TRUST_GATE_DENIAL".

Definition denial_event (did : string) (direction : Direction) (g : GateError) : OutboxEvent :=
  {| o_event_type := denial_event_type; o_did := did;
     o_body := [("peer_did", JStr (g_PeerDID g)); ("direction", JStr (direction_String direction));
                ("rule_id", JStr "FEDERATION_TRUST_GATE_DENIAL"); ("severity", JStr "error")] |}.

Definition HandleTx (did : string) (direction : Direction) (g : GateError) : Txn FEnv FStore () :=
  _ ← reject_if (bool_decide (did = EmptyString)) (Errorf "trust gate denial is missing a linked contract DID");
  within "could not create trust gate denial event" (on_base (CreateEvent (denial_event did direction g))).

(** An incident of the same contract, peer and direction. *)
Definition same_denial (did : string) (direction : Direction) (g : GateError) (e : OutboxEvent) : bool :=
  bool_decide (o_event_type e = denial_event_type) && bool_decide (o_did e = did) &&
  bool_decide (("peer_did"%string, JStr (g_PeerDID g)) ∈ o_body e) &&
  bool_decide (("direction"%string, JStr (direction_String direction)) ∈ o_body e).

Definition HandleTxDeduped (did : string) (direction : Direction) (g : GateError) : Txn FEnv FStore () :=
  _ ← reject_if (bool_decide (did = EmptyString)) (Errorf "trust gate denial is missing a linked contract DID");
  alreadyRecorded ← query (λ _ s, exists_where (same_denial did direction g) (outbox (f_base s)));
  only_if (negb alreadyRecorded) (HandleTx did direction g).

Definition RecordDenialIncident (did : string) (direction : Direction) (g : GateError) : Handler FEnv FStore () :=
  transact (HandleTx did direction g).

(** [GateError] as an error. *)
Definition gate_error (g : GateError) : error := g_Err g.

(** [GetID] of the own document. *)
Definition own_id : Handler FEnv FStore string := λ x s, (DocumentID (x_own x), s).

(** ** Lemmas *)
Lemma on_base_Ok {A} (m : Tx A) (x : FEnv) (s : FStore) a s' :
  on_base m x s = Ok (a, s') ↔ ∃ b, m (x_env x) (f_base s) = Ok (a, b) ∧ s' = set_base (λ _, b) s.
Proof. unfold on_base. destruct (m _ _) as [[a' b]|]; naive_solver. Qed.

Lemma on_base_Err {A} (m : Tx A) (x : FEnv) (s : FStore) err :
  on_base m x s = Err err ↔ m (x_env x) (f_base s) = Err err.
Proof. unfold on_base. destruct (m _ _) as [[a' b]|]; naive_solver. Qed.

(** A relation on the workflow's tables, on the whole store. *)
Lemma evolves_on_base (R : Env → Store → Store → Prop) (R' : FStore → FStore → Prop) {A} (m : Tx A) :
  tx_rel R m → (∀ x s b, R (x_env x) (f_base s) b → R' s (set_base (λ _, b) s)) → evolves R' (on_base m).
Proof. intros Hm HR x s a s' (b & Hb & ->)%on_base_Ok. eapply HR, Hm, Hb. Qed.

Lemma set_fbase_id s : set_base (λ _, f_base s) s = s.
Proof. by destruct s. Qed.

Lemma observes_on_base {A} (m : Tx A) : reads m → observes (on_base m).
Proof. intros Hm x s a s' (b & Hb & ->)%on_base_Ok. apply Hm in Hb as ->. apply set_fbase_id. Qed.

Lemma RecordDenialIncident_base did direction g (x : FEnv) s :
  (RecordDenialIncident did direction g x s).2 = s ∨
  (RecordDenialIncident did direction g x s).2 =
    set_base (set_outbox (λ l, l ++ [denial_event did direction g])) s.
Proof.
  unfold RecordDenialIncident, transact.
  destruct (commit_cases (HandleTx did direction g) x s) as [(u & s' & HR & ->)|[err ->]]; [right|by left].
  unfold HandleTx in HR. txn_inv. apply on_base_Ok in HR as (b & Hb%CreateEvent_Ok & ->). by destruct Hb as [-> _].
Qed.

End federation.
