(* ===== verification/Settling.v ===== *)
(** Settlements between two instances: internal/dcstodcs/settlement.go (what this
    instance produces and delivers) and internal/service/dcs_to_dcs_settlement.go
    (what it accepts from a peer).

    Times inside an artifact are nanoseconds, columns are microseconds. *)
From S2P Require Import Prelude Json Sha256 ContractState Store Repos Transactions Handlers DidWeb Envelope ArtifactStore.
From S2P Require Import DidDocument PeerIdentity Jades TrustGate Erasure Store Federation.
Import GoStrings.

(** A nanosecond time as the column keeps it: Postgres rounds to the nearest even. *)
Definition to_micros (t : Z) : Z :=
  let q := t / 1000 in let r := t mod 1000 in
  if r <? 500 then q else if 500 <? r then q + 1 else if Z.even q then q else q + 1.

Definition settlementClockSkew : Z := 5 * 60 * second.

Definition contractDocumentOf (contract : Contract) : json :=
  match c_contract_data contract with
  | Some j => if IsNotNullValue (Some j) then j else JObj ∅
  | None => JObj ∅
  end.

Definition parties_of (contract : Contract) : list string :=
  match c_responsible contract with Some r => GetParties r | None => [] end.

Section settling.
Context {I : IdentityServices} {J : JadesServices} {T : TrustServices}.

(** ** settlement.go: producing *)

(** [now] is the clock, [settledAt] a whole number of microseconds. *)
Definition BuildSettlement (doc : DIDDocument) (contract : Contract) (localPeer peer : string) (now settledAt : Z) :
    result Store.Settlement :=
  digest ← wrap_err "digest contract document" (Jades.ContractDocumentDigest (contractDocumentOf contract));
  payload ← wrap_err "build settlement payload" (BuildSettlementPayload
    {| Jades.ContractDID := c_did contract; ContractVersion := c_contract_version contract; DocumentDigest := digest;
       SettledBy := localPeer; SettledWith := peer; SettledAt := 1000 * settledAt |});
  signature ← wrap_err "JAdES-sign the settlement" (Jades.Sign doc now payload);
  Ok {| s_did := c_did contract; s_from := localPeer; s_to := peer;
        s_contract_version := c_contract_version contract; s_document_digest := digest;
        s_settled_at := settledAt; s_jades := signature; s_recorded_at := ContractRepo.time_zero;
        s_delivered_at := None |}.

Definition BuildSettlementWithdrawal (doc : DIDDocument) (now : Z) (w : Withdrawal) : result string :=
  payload ← wrap_err "build settlement withdrawal payload" (BuildSettlementWithdrawalPayload
    {| wd_ContractDID := w_did w; wd_DocumentDigest := w_document_digest w; WithdrawnBy := w_from w;
       WithdrawnFrom := w_to w; WithdrawnAt := 1000 * w_withdrawn_at w |});
  wrap_err "JAdES-sign the settlement withdrawal" (Jades.Sign doc now payload).

Definition covers (settlement existing : Store.Settlement) (peer : string) : bool :=
  bool_decide (s_to existing = peer) && bool_decide (s_document_digest existing = s_document_digest settlement).

Definition recordSettlement (contract : Contract) (localPeer peer : string) : Handler FEnv FStore Store.Settlement :=
  transact (
    settlement ← (λ x s, of_result (BuildSettlement (x_own x) contract localPeer peer (x_nanos x) (x_now x)) x s);
    existing ← within "could not read the own settlement" (GetSettlement (c_did contract) localPeer);
    match existing with
    | Some old => if covers settlement old peer then mret old
                  else _ ← within "could not record the settlement" (UpsertSettlement settlement); mret settlement
    | None => _ ← within "could not record the settlement" (UpsertSettlement settlement); mret settlement
    end).

(** The gate, its denial reported when asked for. *)
Definition gated (peer : string) (direction : Direction) (did target : string) (recordIncident : bool) :
    Handler FEnv FStore () :=
  v ← look (λ x _, TrustGate.Check peer direction did target (x_nanos x));
  match v with
  | Allowed => mret tt
  | Denied g => _ ← (if recordIncident then logged (RecordDenialIncident did direction g) else mret tt);
                fail (gate_error g)
  end.

Definition signed_secret : Handler FEnv FStore (bytes * bytes) := λ x s,
  let secret := of_string (x_secret x) in
  (match DidDocument.Sign (x_own x) secret with Ok h => Ok (secret, h) | Err err => Err err end, s).

Definition deliverSettlement (settlement : Store.Settlement) (recordIncident : bool) : Handler FEnv FStore () :=
  _ ← gated (s_to settlement) Outbound (s_did settlement) (state_String Submitted) recordIncident;
  secret ← signed_secret;
  sender ← look (λ x _, x_sender x);
  match sender with
  | None => fail (Panic "nil settlement sender")
  | Some sender =>
      _ ← answer (SendSettlement sender (s_to settlement)
            {| sr_FromPeerDid := s_from settlement; sr_ContractIri := s_did settlement;
               sr_SecretValue := secret.1; sr_SecretHash := secret.2; sr_SettlementJades := s_jades settlement |});
      transact (within "could not mark the settlement delivered"
        (MarkSettlementDelivered (s_did settlement) (s_from settlement) (s_to settlement)))
  end.

Fixpoint ship_to (contract : Contract) (localPeer : string) (peers : list string) : Handler FEnv FStore () :=
  match peers with
  | [] => mret tt
  | peer :: rest =>
      if SameDIDWeb peer localPeer then ship_to contract localPeer rest else
      settlement ← recordSettlement contract localPeer peer;
      _ ← (match s_delivered_at settlement with
           | Some _ => mret tt
           | None => labelled "could not deliver the settlement" (deliverSettlement settlement true)
           end : Handler FEnv FStore ());
      ship_to contract localPeer rest
  end.

Definition shipSettlement (did : string) : Handler FEnv FStore () :=
  localPeer ← own_id;
  sender ← look (λ x _, x_sender x);
  match sender with
  | None => fail (Errorf "could not ship the settlement: no settlement sender is configured")
  | Some _ =>
      contract ← transact (within "could not read contract" (ReadDataByDID did));
      match c_responsible contract with
      | None => mret tt
      | Some r => ship_to contract localPeer (GetParties r)
      end
  end.

Definition deliverSettlementWithdrawal (w : Withdrawal) (recordIncident : bool) : Handler FEnv FStore () :=
  sender ← look (λ x _, x_sender x);
  match sender with
  | None => fail (Errorf "could not ship the settlement withdrawal: no settlement sender is configured")
  | Some sender =>
      _ ← gated (w_to w) Outbound (w_did w) (state_String Negotiation) recordIncident;
      signature ← (λ x s, (BuildSettlementWithdrawal (x_own x) (x_nanos x) w, s));
      secret ← signed_secret;
      _ ← answer (SendSettlementWithdrawal sender (w_to w)
            {| wr_FromPeerDid := w_from w; wr_ContractIri := w_did w;
               wr_SecretValue := secret.1; wr_SecretHash := secret.2; wr_WithdrawalJades := signature |});
      transact (within "could not mark the settlement withdrawal delivered"
        (MarkSettlementWithdrawalDelivered (w_did w) (w_from w) (w_to w)))
  end.

(** A failed read is logged, and nothing is pending. *)
Definition or_nothing {A} (m : Handler FEnv FStore (list A)) : Handler FEnv FStore (list A) :=
  r ← outcome m; mret (match r with Ok l => l | Err _ => [] end).

Definition pendingSettlementWithdrawals : Handler FEnv FStore (list Withdrawal) :=
  or_nothing (localPeer ← own_id; transact (GetUndeliveredSettlementWithdrawals localPeer)).

Definition shipSettlementWithdrawals (did : string) : Handler FEnv FStore () :=
  pending ← pendingSettlementWithdrawals;
  each (λ w, logged (deliverSettlementWithdrawal w true)) (rows_where (λ w, bool_decide (w_did w = did)) pending).

Definition retryUndeliveredSettlements : Handler FEnv FStore () :=
  pending ← or_nothing (localPeer ← own_id; transact (GetUndeliveredSettlements localPeer));
  each (λ settlement, logged (deliverSettlement settlement false)) pending.

Definition retryUndeliveredSettlementWithdrawals : Handler FEnv FStore () :=
  pending ← pendingSettlementWithdrawals;
  each (λ w, logged (deliverSettlementWithdrawal w false)) pending.

(** ** dcs_to_dcs_settlement.go: accepting *)
Record localSettlementContext := {
  ContractIRI : string; LocalPeer : string; LocalDigest : string; SupersededDigest : list string;
  Parties : list string; Previous : option Store.Settlement; Now : Z
}.

Definition is_party (parties : list string) (peer : string) : bool := existsb (λ party, SameDIDWeb party peer) parties.

(** The members of an artifact, as [json.Unmarshal] fills the struct. *)
Record claimed_settlement := {
  cl_Type : string; cl_ContractDID : string; cl_ContractVersion : Z; cl_DocumentDigest : string;
  cl_SettledBy : string; cl_SettledWith : string; cl_SettledAt : string
}.

Definition Unmarshal_settlement (j : json) : result claimed_settlement :=
  m ← Unmarshal_map j;
  type ← string_field m "@type"; did ← string_field m "dcs:contractDid";
  version ← Merging.int_field m "dcs:contractVersion"; digest ← string_field m "dcs:contractDocumentDigest";
  by_ ← string_field m "dcs:settledBy"; with_ ← string_field m "dcs:settledWith";
  at_ ← string_field m "dcs:settledAt";
  Ok {| cl_Type := type; cl_ContractDID := did; cl_ContractVersion := default 0 version; cl_DocumentDigest := digest;
        cl_SettledBy := by_; cl_SettledWith := with_; cl_SettledAt := at_ |}.

Definition blank (s : string) : bool := bool_decide (TrimSpace s = EmptyString).

(** A verified payload whose signing key the peer publishes for assertions. *)
Definition asserted_by (remote : DIDDocument) (jws : string) : result bytes :=
  v ← wrap_err "JAdES does not verify" (Jades.Verify jws);
  if PublishesKeyFor remote PurposeAssertion (Some v.2) then Ok v.1
  else Err (Errorf "JAdES x5c leaf key is not published by the peer as an assertionMethod key").

Definition verifyShippedSettlement (jws fromPeerDID : string) (remote : DIDDocument) (local : localSettlementContext) :
    result Store.Settlement :=
  payload ← asserted_by remote jws;
  j ← wrap_err "could not decode the settlement payload" (DecodeJSON payload);
  claimed ← wrap_err "could not decode the settlement payload" (Unmarshal_settlement j);
  if negb (bool_decide (cl_Type claimed = SettlementType)) then Err (Errorf "signed payload is not a settlement") else
  if existsb blank [cl_ContractDID claimed; cl_DocumentDigest claimed; cl_SettledBy claimed;
                    cl_SettledWith claimed; cl_SettledAt claimed]
  then Err (Errorf "settlement is missing a field") else
  match ParseNano (cl_SettledAt claimed) with
  | None => Err (Errorf "settlement dcs:settledAt is not an RFC3339 timestamp")
  | Some settledAt =>
      expected ← BuildSettlementPayload
        {| Jades.ContractDID := cl_ContractDID claimed; ContractVersion := cl_ContractVersion claimed;
           DocumentDigest := cl_DocumentDigest claimed; SettledBy := cl_SettledBy claimed;
           SettledWith := cl_SettledWith claimed; SettledAt := settledAt |};
      if negb (bool_decide (payload = expected))
      then Err (Errorf "settlement payload is not the canonical form of the fields it claims") else
      if negb (bool_decide (cl_ContractDID claimed = ContractIRI local))
      then Err (Errorf "settlement binds another contract") else
      if negb (SameDIDWeb (cl_SettledBy claimed) fromPeerDID)
      then Err (Errorf "settlement was made by another peer than its shipper") else
      if negb (SameDIDWeb (cl_SettledWith claimed) (LocalPeer local))
      then Err (Errorf "settlement was made toward another instance") else
      if negb (is_party (Parties local) (cl_SettledBy claimed))
      then Err (Errorf "peer is not a party of the contract") else
      if negb (bool_decide (cl_DocumentDigest claimed = LocalDigest local)) &&
         negb (bool_decide (cl_DocumentDigest claimed ∈ SupersededDigest local))
      then Err (Errorf "settlement covers a document this instance never held") else
      if Now local + settlementClockSkew <? settledAt
      then Err (Errorf "settlement is dated further ahead than the tolerated clock skew") else
      if match Previous local with Some p => settledAt <? 1000 * s_settled_at p | None => false end
      then Err (Errorf "settlement is dated older than the settlement already held") else
      Ok {| s_did := ContractIRI local; s_from := fromPeerDID; s_to := LocalPeer local;
            s_contract_version := cl_ContractVersion claimed; s_document_digest := cl_DocumentDigest claimed;
            s_settled_at := to_micros settledAt; s_jades := jws; s_recorded_at := ContractRepo.time_zero;
            s_delivered_at := Some (to_micros (Now local)) |}
  end.

Fixpoint digests_of (contracts : list Contract) : result (list string) :=
  match contracts with
  | [] => Ok []
  | c :: rest => d ← Jades.ContractDocumentDigest (contractDocumentOf c); ds ← digests_of rest; Ok (d :: ds)
  end.

Definition supersededDocumentDigests (did localPeer : string) : Txn FEnv FStore (list string) :=
  own ← GetSettlement did localPeer;
  history ← ReadHistoryByDID did;
  digests ← of_result (digests_of history);
  mret ((match own with Some o => [s_document_digest o] | None => [] end) ++ digests).

(** What both endpoints ask first: who is calling, and may it federate. *)
Definition authenticated_peer (fromPeer contractIri : string) (secretValue secretHash : bytes) :
    Handler FEnv FStore (DIDDocument * string) :=
  remote ← classified InternalError (answer (FetchDIDDocument fromPeer));
  roots ← look (λ x _, x_roots x);
  _ ← classified (λ err, BadRequest (Wrapf "rejected: peer did not authenticate" err))
        (answer (VerifyPeerChallenge remote roots secretValue secretHash));
  localPeer ← classified InternalError own_id;
  _ ← fail_if (SameDIDWeb fromPeer localPeer) (BadRequest (Errorf "rejected: shipped by this instance to itself"));
  _ ← classified (λ err, BadRequest (Wrapf "rejected: peer does not pass the federation trust gate" err))
        (gated fromPeer Inbound contractIri EmptyString true);
  mret (remote, localPeer).

(** The transaction's own errors, each in the class the handler gives it. *)
Definition bad {A} (m : Txn FEnv FStore A) : Txn FEnv FStore A := λ x s,
  match m x s with Ok r => Ok r | Err err => Err (BadRequest err) end.
Definition internal {A} (m : Txn FEnv FStore A) : Txn FEnv FStore A := λ x s,
  match m x s with Ok r => Ok r | Err err => Err (InternalError err) end.

Definition accept_settlement (req : SettlementRequest) (remote : DIDDocument) (localPeer : string) : Txn FEnv FStore () :=
  contract ← bad (within "rejected: this instance holds no copy of the contract" (ReadDataByDID (sr_ContractIri req)));
  digest ← internal (of_result (Jades.ContractDocumentDigest (contractDocumentOf contract)));
  previous ← internal (GetSettlement (sr_ContractIri req) (sr_FromPeerDid req));
  superseded ← internal (supersededDocumentDigests (sr_ContractIri req) localPeer);
  now ← query (λ x _, x_nanos x);
  settlement ← bad (within "rejected" (of_result (verifyShippedSettlement (sr_SettlementJades req) (sr_FromPeerDid req) remote
    {| ContractIRI := sr_ContractIri req; LocalPeer := localPeer; LocalDigest := digest;
       SupersededDigest := superseded; Parties := parties_of contract; Previous := previous; Now := now |})));
  internal (UpsertSettlement settlement).

Definition PostSettlement (req : SettlementRequest) : Handler FEnv FStore string :=
  peer ← authenticated_peer (sr_FromPeerDid req) (sr_ContractIri req) (sr_SecretValue req) (sr_SecretHash req);
  _ ← transact (accept_settlement req peer.1 peer.2);
  mret peer.2.

Record localWithdrawalContext := {
  wl_ContractIRI : string; wl_LocalPeer : string; wl_Parties : list string; wl_Now : Z
}.

Record claimed_withdrawal := {
  cw_Type : string; cw_ContractDID : string; cw_DocumentDigest : string;
  cw_WithdrawnBy : string; cw_WithdrawnFrom : string; cw_WithdrawnAt : string
}.

Definition Unmarshal_withdrawal (j : json) : result claimed_withdrawal :=
  m ← Unmarshal_map j;
  type ← string_field m "@type"; did ← string_field m "dcs:contractDid";
  digest ← string_field m "dcs:contractDocumentDigest"; by_ ← string_field m "dcs:withdrawnBy";
  from ← string_field m "dcs:withdrawnFrom"; at_ ← string_field m "dcs:withdrawnAt";
  Ok {| cw_Type := type; cw_ContractDID := did; cw_DocumentDigest := digest;
        cw_WithdrawnBy := by_; cw_WithdrawnFrom := from; cw_WithdrawnAt := at_ |}.

Definition verifyShippedWithdrawal (jws fromPeerDID : string) (remote : DIDDocument) (local : localWithdrawalContext) :
    result SettlementWithdrawal :=
  payload ← asserted_by remote jws;
  j ← wrap_err "could not decode the settlement withdrawal payload" (DecodeJSON payload);
  claimed ← wrap_err "could not decode the settlement withdrawal payload" (Unmarshal_withdrawal j);
  if negb (bool_decide (cw_Type claimed = SettlementWithdrawalType))
  then Err (Errorf "signed payload is not a settlement withdrawal") else
  if existsb blank [cw_ContractDID claimed; cw_DocumentDigest claimed; cw_WithdrawnBy claimed;
                    cw_WithdrawnFrom claimed; cw_WithdrawnAt claimed]
  then Err (Errorf "settlement withdrawal is missing a field") else
  match ParseNano (cw_WithdrawnAt claimed) with
  | None => Err (Errorf "settlement withdrawal dcs:withdrawnAt is not an RFC3339 timestamp")
  | Some withdrawnAt =>
      let withdrawal := {| wd_ContractDID := cw_ContractDID claimed; wd_DocumentDigest := cw_DocumentDigest claimed;
                           WithdrawnBy := cw_WithdrawnBy claimed; WithdrawnFrom := cw_WithdrawnFrom claimed;
                           WithdrawnAt := withdrawnAt |} in
      expected ← BuildSettlementWithdrawalPayload withdrawal;
      if negb (bool_decide (payload = expected))
      then Err (Errorf "settlement withdrawal payload is not the canonical form of the fields it claims") else
      if negb (bool_decide (cw_ContractDID claimed = wl_ContractIRI local))
      then Err (Errorf "settlement withdrawal binds another contract") else
      if negb (SameDIDWeb (cw_WithdrawnBy claimed) fromPeerDID)
      then Err (Errorf "settlement withdrawal was made by another peer than its shipper") else
      if negb (SameDIDWeb (cw_WithdrawnFrom claimed) (wl_LocalPeer local))
      then Err (Errorf "settlement withdrawal was made toward another instance") else
      if negb (is_party (wl_Parties local) (cw_WithdrawnBy claimed))
      then Err (Errorf "peer is not a party of the contract") else
      if wl_Now local + settlementClockSkew <? withdrawnAt
      then Err (Errorf "settlement withdrawal is dated further ahead than the tolerated clock skew")
      else Ok withdrawal
  end.

Definition withdrawalTakesBack (withdrawal : SettlementWithdrawal) (held : option Store.Settlement) : bool :=
  match held with
  | None => false
  | Some h => bool_decide (s_document_digest h = wd_DocumentDigest withdrawal) &&
              negb (WithdrawnAt withdrawal <? 1000 * s_settled_at h)
  end.

(** Whether something was withdrawn. *)
Definition accept_withdrawal (req : WithdrawalRequest) (remote : DIDDocument) (localPeer : string) : Txn FEnv FStore bool :=
  contract ← bad (within "rejected: this instance holds no copy of the contract" (ReadDataByDID (wr_ContractIri req)));
  held ← internal (GetSettlement (wr_ContractIri req) (wr_FromPeerDid req));
  now ← query (λ x _, x_nanos x);
  withdrawal ← bad (within "rejected" (of_result (verifyShippedWithdrawal (wr_WithdrawalJades req) (wr_FromPeerDid req) remote
    {| wl_ContractIRI := wr_ContractIri req; wl_LocalPeer := localPeer; wl_Parties := parties_of contract;
       wl_Now := now |})));
  if withdrawalTakesBack withdrawal held
  then _ ← internal (DeleteSettlementsBy (wr_ContractIri req) (wr_FromPeerDid req)); mret true
  else mret false.

Definition PostSettlementWithdrawal (req : WithdrawalRequest) : Handler FEnv FStore (string * bool) :=
  peer ← authenticated_peer (wr_FromPeerDid req) (wr_ContractIri req) (wr_SecretValue req) (wr_SecretHash req);
  withdrawn ← transact (accept_withdrawal req peer.1 peer.2);
  mret (peer.2, withdrawn).

(** ** Lemmas *)
Lemma bad_Ok {A} (m : Txn FEnv FStore A) x s a s' : bad m x s = Ok (a, s') ↔ m x s = Ok (a, s').
Proof. unfold bad. destruct (m x s) as [[? ?]|]; naive_solver. Qed.
Lemma internal_Ok {A} (m : Txn FEnv FStore A) x s a s' : internal m x s = Ok (a, s') ↔ m x s = Ok (a, s').
Proof. unfold internal. destruct (m x s) as [[? ?]|]; naive_solver. Qed.


End settling.

(** Take a successful run of the federation apart. *)
Ltac fed_inv := repeat first
  [ match goal with
    | H : bad _ _ _ = Ok (_, _) |- _ => rewrite bad_Ok in H
    | H : internal _ _ _ = Ok (_, _) |- _ => rewrite internal_Ok in H
    end
  | txn_step ].
