(* ===== verification/SettlingLaws.v ===== *)
(** What the settlement exchange guarantees: a settlement held from a peer is one
    the peer signed about this contract and this instance, so the signing gate
    rests on signatures; what one instance produces the other accepts; a
    withdrawal removes only the settlement it names; and a retry pass over
    reachable peers leaves nothing undelivered. *)
From S2P Require Import Prelude Json Sha256 ContractState Store Repos Transactions Handlers DidWeb Envelope ArtifactStore.
From S2P Require Import DidDocument PeerIdentity Jades TrustGate Erasure Store Settlement Extrinsic Signing HubLaws Federation Settling.
Import GoStrings.

Notation stored := Store.Settlement (only parsing).

Section settling.
Context {I : IdentityServices} {J : JadesServices} {T : TrustServices}.

(** ** Verification *)
Definition claim_of (claimed : claimed_settlement) (settledAt : Z) : Jades.Settlement :=
  {| Jades.ContractDID := cl_ContractDID claimed; ContractVersion := cl_ContractVersion claimed;
     DocumentDigest := cl_DocumentDigest claimed; SettledBy := cl_SettledBy claimed;
     SettledWith := cl_SettledWith claimed; SettledAt := settledAt |}.

(** What the receiver requires of a settlement's claims. *)
Record acceptable (fromPeerDID : string) (local : localSettlementContext) (claimed : claimed_settlement) (settledAt : Z) :
    Prop := {
  a_type : cl_Type claimed = SettlementType;
  a_complete : existsb blank [cl_ContractDID claimed; cl_DocumentDigest claimed; cl_SettledBy claimed;
                              cl_SettledWith claimed; cl_SettledAt claimed] = false;
  a_time : ParseNano (cl_SettledAt claimed) = Some settledAt;
  a_contract : cl_ContractDID claimed = ContractIRI local;
  a_by : same_peer (cl_SettledBy claimed) fromPeerDID;
  a_with : same_peer (cl_SettledWith claimed) (LocalPeer local);
  a_party : is_party (Parties local) (cl_SettledBy claimed) = true;
  a_digest : cl_DocumentDigest claimed ∈ LocalDigest local :: SupersededDigest local;
  a_future : settledAt <= Now local + settlementClockSkew;
  a_past p : Previous local = Some p → 1000 * s_settled_at p <= settledAt
}.

Definition accepted_row (jws fromPeerDID : string) (local : localSettlementContext) (claimed : claimed_settlement)
    (settledAt : Z) : stored :=
  {| s_did := ContractIRI local; s_from := fromPeerDID; s_to := LocalPeer local;
     s_contract_version := cl_ContractVersion claimed; s_document_digest := cl_DocumentDigest claimed;
     s_settled_at := to_micros settledAt; s_jades := jws; s_recorded_at := ContractRepo.time_zero;
     s_delivered_at := Some (to_micros (Now local)) |}.

Lemma verify_settlement_iff jws from remote local r :
  verifyShippedSettlement jws from remote local = Ok r ↔
  ∃ payload j claimed settledAt,
    asserted_by remote jws = Ok payload ∧ DecodeJSON payload = Ok j ∧ Unmarshal_settlement j = Ok claimed ∧
    acceptable from local claimed settledAt ∧ BuildSettlementPayload (claim_of claimed settledAt) = Ok payload ∧
    r = accepted_row jws from local claimed settledAt.
Proof.
  unfold verifyShippedSettlement, mbind, result_bind. split.
  - destruct (asserted_by remote jws) as [payload|] eqn:Ea; [|done]. destruct (DecodeJSON payload) as [j|] eqn:Ej; [|done].
    cbn [wrap_err]. destruct (Unmarshal_settlement j) as [claimed|] eqn:Ec; [|done]. cbn [wrap_err].
    destruct (bool_decide (cl_Type claimed = _)) eqn:Et; [|done]. cbn [negb].
    destruct (existsb blank _) eqn:Eb; [done|]. destruct (ParseNano _) as [settledAt|] eqn:Ep; [|done].
    fold (claim_of claimed settledAt). destruct (BuildSettlementPayload _) as [expected|] eqn:Ee; [|done].
    destruct (bool_decide (payload = expected)) eqn:Epe; [|done]. cbn [negb].
    destruct (bool_decide (cl_ContractDID claimed = _)) eqn:Ed; [|done]. cbn [negb].
    destruct (SameDIDWeb (cl_SettledBy claimed) from) eqn:Eby; [|done]. cbn [negb].
    destruct (SameDIDWeb (cl_SettledWith claimed) _) eqn:Ew; [|done]. cbn [negb].
    destruct (is_party _ _) eqn:Epa; [|done]. cbn [negb].
    destruct (negb _ && negb _) eqn:Edig; [done|]. destruct (_ <? settledAt) eqn:Ef; [done|].
    match goal with |- context [if ?b then Err _ else _] => destruct b eqn:Eprev; [done|] end. intros [= <-].
    apply bool_decide_eq_true in Et, Epe, Ed. subst expected. exists payload, j, claimed, settledAt.
    split_and!; [done..| |done|done]. split; try done; [|lia|].
    + apply andb_false_iff in Edig as [E|E]; apply negb_false_iff, bool_decide_eq_true in E; [rewrite E; left|by right].
    + intros p Hp. rewrite Hp in Eprev. lia.
  - intros (payload & j & claimed & settledAt & -> & -> & Ec & [] & Eb & ->). cbn [wrap_err].
    unfold same_peer in *. rewrite Ec. cbn [wrap_err]. rewrite bool_decide_eq_true_2, a_complete0, a_time0 by done. cbn [negb].
    fold (claim_of claimed settledAt). rewrite Eb, !bool_decide_eq_true_2, a_by0, a_with0, a_party0 by done. cbn [negb].
    assert (negb (bool_decide (cl_DocumentDigest claimed = LocalDigest local)) &&
            negb (bool_decide (cl_DocumentDigest claimed ∈ SupersededDigest local)) = false) as ->.
    { apply andb_false_iff. rewrite !negb_false_iff, !bool_decide_eq_true. by apply elem_of_cons in a_digest0. }
    assert ((Now local + settlementClockSkew <? settledAt) = false) as -> by lia.
    destruct (Previous local) as [p|]; [|done]. specialize (a_past0 p eq_refl).
    by assert ((settledAt <? 1000 * s_settled_at p) = false) as -> by lia.
Qed.

(** ** Who was asked *)
Lemma gated_cases peer direction did target b (x : FEnv) s :
  (gated peer direction did target b x s = (Ok (), s) ∧ Check peer direction did target (x_nanos x) = Allowed) ∨
  ∃ g s', gated peer direction did target b x s = (Err (gate_error g), s') ∧
    Check peer direction did target (x_nanos x) = Denied g ∧
    (s' = s ∨ b = true ∧ s' = set_base (set_outbox (λ l, l ++ [denial_event did direction g])) s).
Proof.
  unfold gated, mbind, handler_bind, look. destruct (Check _ _ _ _ _) as [|g]; [by left|]. right. exists g.
  destruct b; [|by exists s; split; [|split; [|left]]].
  unfold logged, outcome, mbind, handler_bind.
  pose proof (RecordDenialIncident_base did direction g x s) as Hb.
  destruct (RecordDenialIncident did direction g x s) as [r s1] eqn:Er. cbn [snd] in Hb.
  exists s1. split; [done|]. split; [done|]. destruct Hb as [->| ->]; [by left|by right].
Qed.

Lemma authenticated_Ok from did secret hash (x : FEnv) s p s' :
  authenticated_peer from did secret hash x s = (Ok p, s') ↔
  s' = s ∧ FetchDIDDocument from = Ok p.1 ∧ VerifyPeerChallenge p.1 (x_roots x) secret hash = Ok () ∧
  DocumentID (x_own x) = Ok p.2 ∧ ¬ same_peer from p.2 ∧
  Check from Inbound did EmptyString (x_nanos x) = Allowed.
Proof.
  unfold authenticated_peer, same_peer. split.
  - intros HR. handler_inv. unfold own_id in *.
    match goal with H : gated _ _ _ _ _ _ ?s0 = _ |- _ => rename H into Hgate;
      destruct (gated_cases from Inbound did EmptyString true x s0) as [[Hg Hc]|(g & s1 & Hg & _)] end;
      rewrite Hg in Hgate; simplify_eq.
    cbn. rewrite not_true_iff_false. by split_and!.
  - intros (-> & Hf & Hv & Hid & Hs & Hc). apply not_true_iff_false in Hs.
    destruct (gated_cases from Inbound did EmptyString true x s) as [[Hg _]|(g & s1 & _ & Hd & _)]; [|congruence].
    unfold mbind, handler_bind, classified, answer, look, own_id, fail_if. rewrite Hf, Hv, Hid, Hs.
    unfold mret, handler_ret. rewrite Hg. by destruct p.
Qed.

(** A caller that is turned away leaves at most an incident. *)
Definition reported (s s' : FStore) : Prop :=
  s' = s ∨ ∃ did direction g, s' = set_base (set_outbox (λ l, l ++ [denial_event did direction g])) s.

Lemma authenticated_leaves from did secret hash (x : FEnv) s :
  reported s (authenticated_peer from did secret hash x s).2.
Proof.
  unfold authenticated_peer, mbind, handler_bind, classified, answer, look, own_id, fail_if.
  destruct (FetchDIDDocument from); [|by left]. destruct (VerifyPeerChallenge _ _ _ _); [|by left].
  destruct (DocumentID (x_own x)); [|by left]. destruct (SameDIDWeb _ _); [by left|].
  unfold mret, handler_ret. destruct (gated_cases from Inbound did EmptyString true x s)
    as [[-> _]|(g & s' & -> & _ & [->|[_ ->]])]; [by left..|]. right. eauto.
Qed.

(** ** Accepting a settlement *)
Lemma GetSettlement_Ok did from (x : FEnv) s r s' :
  GetSettlement did from x s = Ok (r, s') ↔ s' = s ∧ r = own_settlement (f_base s) from did.
Proof.
  unfold GetSettlement. rewrite on_base_Ok. unfold SyncRepo.GetSettlement, gets. split.
  - intros (b & [= <- <-] & ->). by rewrite set_fbase_id.
  - intros [-> ->]. exists (f_base s). by rewrite set_fbase_id.
Qed.

Lemma ReadData_Ok did (x : FEnv) s c s' :
  ReadDataByDID did x s = Ok (c, s') ↔
  s' = s ∧ ∃ row, contracts (f_base s) !! did = Some row ∧ c = effective (x_now x) row.
Proof.
  unfold ReadDataByDID. rewrite on_base_Ok. split.
  - intros (b & (-> & row & Hrow & ->)%ReadDataByDID_Ok & ->). rewrite set_fbase_id. eauto.
  - intros (-> & row & Hrow & ->). exists (f_base s). unfold ContractRepo.ReadDataByDID. rewrite Hrow.
    by rewrite set_fbase_id.
Qed.

(** The documents this instance holds or held for a contract. *)
Definition held_digests (s : FStore) (me did : string) : list string :=
  (match own_settlement (f_base s) me did with Some o => [s_document_digest o] | None => [] end) ++
  match digests_of (rows_where (λ c, bool_decide (c_did c = did)) (contract_history (f_base s))) with
  | Ok l => l | Err _ => []
  end.

Lemma superseded_Ok did me (x : FEnv) s l s' :
  supersededDocumentDigests did me x s = Ok (l, s') → s' = s ∧ l = held_digests s me did.
Proof.
  unfold supersededDocumentDigests, held_digests. intros HR. txn_inv.
  match goal with H : GetSettlement _ _ _ _ = _ |- _ => apply GetSettlement_Ok in H as [-> ->] end.
  match goal with H : ReadHistoryByDID _ _ _ = _ |- _ => apply query_Ok in H as [-> ->] end.
  match goal with H : digests_of _ = Ok _ |- _ => by rewrite H end.
Qed.

(** What this instance knows of a contract when a peer's artifact arrives. *)
Definition context_of (s : FStore) (x : FEnv) (me did from : string) (row : Contract) (digest : string) :
    localSettlementContext :=
  {| ContractIRI := did; LocalPeer := me; LocalDigest := digest; SupersededDigest := held_digests s me did;
     Parties := parties_of row; Previous := own_settlement (f_base s) from did; Now := x_nanos x |}.

Definition with_settlement (r : stored) (s : FStore) : FStore :=
  set_base (set_settlements (upsert settlement_key r)) s.

Lemma accept_settlement_Ok req remote me (x : FEnv) s u s' :
  accept_settlement req remote me x s = Ok (u, s') →
  ∃ row digest r, contracts (f_base s) !! sr_ContractIri req = Some row ∧
    Jades.ContractDocumentDigest (contractDocumentOf row) = Ok digest ∧
    verifyShippedSettlement (sr_SettlementJades req) (sr_FromPeerDid req) remote
      (context_of s x me (sr_ContractIri req) (sr_FromPeerDid req) row digest) = Ok r ∧
    s' = with_settlement (SyncRepo.recorded (x_now x) r) s.
Proof.
  unfold accept_settlement. intros HR.
  fed_inv.
  match goal with H : ReadDataByDID _ _ _ = _ |- _ => apply ReadData_Ok in H as (-> & row & Hrow & ->) end.
  match goal with H : GetSettlement _ _ _ _ = _ |- _ => apply GetSettlement_Ok in H as [-> ->] end.
  match goal with H : supersededDocumentDigests _ _ _ _ = _ |- _ => apply superseded_Ok in H as [-> ->] end.
  match goal with H : UpsertSettlement _ _ _ = _ |- _ => apply on_base_Ok in H as (b & Hb%modify_Ok & ->) end. subst b.
  match goal with H : Jades.ContractDocumentDigest _ = Ok ?d, H' : verifyShippedSettlement _ _ _ _ = Ok ?r |- _ =>
    exists row, d, r end.
  split_and!; [done|done| |done]. by unfold context_of.
Qed.

(** ** What a held settlement stands for *)

(** The peer the row is from signed, with a key it publishes for assertions, that
    it settled the row's document of the row's contract with the row's audience. *)
Definition signed_statement (r : stored) : Prop :=
  ∃ remote payload st, FetchDIDDocument (s_from r) = Ok remote ∧ asserted_by remote (s_jades r) = Ok payload ∧
    BuildSettlementPayload st = Ok payload ∧ Jades.ContractDID st = s_did r ∧
    DocumentDigest st = s_document_digest r ∧ same_peer (SettledBy st) (s_from r) ∧ same_peer (SettledWith st) (s_to r).

Record evidenced (me : string) (s : FStore) : Prop := {
  e_keys : NoDup (settlement_key <$> settlements (f_base s));
  e_signed r : r ∈ settlements (f_base s) → s_from r ≠ me → s_to r = me ∧ signed_statement r
}.

Lemma accepted_signed jws from remote local at_ r :
  FetchDIDDocument from = Ok remote → verifyShippedSettlement jws from remote local = Ok r →
  s_to (SyncRepo.recorded at_ r) = LocalPeer local ∧ signed_statement (SyncRepo.recorded at_ r).
Proof.
  intros Hf (payload & j & claimed & settledAt & Ha & _ & _ & Hacc & Hb & ->)%verify_settlement_iff.
  split; [done|]. exists remote, payload, (claim_of claimed settledAt). destruct Hacc. by split_and!.
Qed.

Lemma evidenced_base me s b :
  evidenced me s → NoDup (settlement_key <$> settlements b) →
  (∀ r, r ∈ settlements b → s_from r = me ∨ ∃ r0, r0 ∈ settlements (f_base s) ∧ s_did r = s_did r0 ∧ s_from r = s_from r0 ∧
     s_to r = s_to r0 ∧ s_document_digest r = s_document_digest r0 ∧ s_jades r = s_jades r0) →
  evidenced me (set_base (λ _, b) s).
Proof.
  intros [_ Hs] HN Hr. split; [done|]. intros r Hin Hne.
  destruct (Hr r Hin) as [?|(r0 & Hin0 & E1 & E2 & E3 & E4 & E5)]; [done|].
  unfold signed_statement. rewrite E1, E2, E3, E4, E5. apply Hs; [done|congruence].
Qed.

Lemma settlements_reported s s' : reported s s' → settlements (f_base s') = settlements (f_base s).
Proof. by intros [->|(? & ? & ? & ->)]. Qed.

Lemma evidenced_same me s s' : settlements (f_base s') = settlements (f_base s) → evidenced me s → evidenced me s'.
Proof. intros E [H1 H2]. split; rewrite E; done. Qed.

Notation keeps_evidence me := (λ s s', evidenced me s → evidenced me s').

Lemma evidenced_PostSettlement me req (x : FEnv) s :
  DocumentID (x_own x) = Ok me → evidenced me s → evidenced me (PostSettlement req x s).2.
Proof.
  intros Hme He. unfold PostSettlement, mbind, handler_bind.
  pose proof (authenticated_leaves (sr_FromPeerDid req) (sr_ContractIri req) (sr_SecretValue req) (sr_SecretHash req) x s) as Hl.
  destruct (authenticated_peer _ _ _ _ x s) as [[p|err] s1] eqn:Ea; cbn [snd] in Hl.
  2:{ eapply evidenced_same; [by apply settlements_reported|done]. }
  apply authenticated_Ok in Ea as (-> & Hf & _ & Hid & _). assert (p.2 = me) as Ep by congruence.
  destruct (transact_cases (accept_settlement req p.1 p.2) x s) as [(u & s2 & Hacc & ->)|[err ->]]; [|done]. cbn.
  apply accept_settlement_Ok in Hacc as (row & digest & r & _ & _ & Hv & ->).
  destruct (accepted_signed _ _ _ _ (x_now x) _ Hf Hv) as [Hto Hsig]. destruct He as [HN Hs].
  split; [by apply NoDup_upsert|]. intros r' [->|Hr]%elem_of_upsert Hne; [|by apply Hs].
  by rewrite <-Ep.
Qed.

(** ** Taking a settlement back *)

(** The withdrawal an artifact reads as. *)
Definition named_in (jws : string) : option SettlementWithdrawal :=
  match Jades.Verify jws with
  | Ok (payload, _) =>
      match (j ← DecodeJSON payload; Unmarshal_withdrawal j) with
      | Ok c =>
          at_ ← ParseNano (cw_WithdrawnAt c);
          Some {| wd_ContractDID := cw_ContractDID c; wd_DocumentDigest := cw_DocumentDigest c;
                  WithdrawnBy := cw_WithdrawnBy c; WithdrawnFrom := cw_WithdrawnFrom c; WithdrawnAt := at_ |}
      | Err _ => None
      end
  | Err _ => None
  end.

Lemma asserted_verifies remote jws payload :
  asserted_by remote jws = Ok payload → ∃ key, Jades.Verify jws = Ok (payload, key).
Proof.
  unfold asserted_by, mbind, result_bind. destruct (Jades.Verify jws) as [[pl key]|]; [|done]. cbn [wrap_err fst snd].
  destruct (PublishesKeyFor _ _ _); [|done]. intros [= <-]. eauto.
Qed.

Lemma verify_withdrawal_Ok jws from remote local w :
  verifyShippedWithdrawal jws from remote local = Ok w →
  named_in jws = Some w ∧ wd_ContractDID w = wl_ContractIRI local ∧ same_peer (WithdrawnBy w) from ∧
  same_peer (WithdrawnFrom w) (wl_LocalPeer local) ∧ is_party (wl_Parties local) (WithdrawnBy w) = true ∧
  WithdrawnAt w <= wl_Now local + settlementClockSkew ∧
  ∃ payload, asserted_by remote jws = Ok payload ∧ BuildSettlementWithdrawalPayload w = Ok payload.
Proof.
  unfold verifyShippedWithdrawal, mbind, result_bind.
  destruct (asserted_by remote jws) as [payload|] eqn:Ea; [|done]. destruct (DecodeJSON payload) as [j|] eqn:Ej; [|done].
  cbn [wrap_err]. destruct (Unmarshal_withdrawal j) as [c|] eqn:Ec; [|done]. cbn [wrap_err].
  destruct (negb (bool_decide (cw_Type c = _))); [done|]. destruct (existsb blank _); [done|].
  destruct (ParseNano _) as [t|] eqn:Ep; [|done]. cbv zeta. set (w0 := {| wd_ContractDID := cw_ContractDID c |}).
  destruct (BuildSettlementWithdrawalPayload w0) as [expected|] eqn:Ee; [|done].
  destruct (bool_decide (payload = expected)) eqn:Epe; [|done]. apply bool_decide_eq_true in Epe as <-. cbn [negb].
  destruct (bool_decide (cw_ContractDID c = _)) eqn:Ed; [|done]. apply bool_decide_eq_true in Ed. cbn [negb].
  destruct (SameDIDWeb (cw_WithdrawnBy c) from) eqn:Eby; [|done]. cbn [negb].
  destruct (SameDIDWeb (cw_WithdrawnFrom c) _) eqn:Ew; [|done]. cbn [negb].
  destruct (is_party _ _) eqn:Epa; [|done]. cbn [negb]. destruct (_ <? t) eqn:Ef; [done|]. intros [= <-].
  destruct (asserted_verifies _ _ _ Ea) as [key Ev].
  split_and!; [|done..|by apply Z.ltb_ge|by exists payload].
  unfold named_in. rewrite Ev. unfold mbind, result_bind. by rewrite Ej, Ec, Ep.
Qed.

Definition dropped (did from : string) (s : FStore) : FStore :=
  set_base (set_settlements (rows_where (λ r, negb (SyncRepo.settled_by did from r)))) s.

Lemma dropped_own did from s : own_settlement (f_base (dropped did from s)) from did = None.
Proof.
  unfold own_settlement, dropped.
  change (settlements _) with (rows_where (λ r, negb (SyncRepo.settled_by did from r)) (settlements (f_base s))).
  replace (rows_where (SyncRepo.settled_by did from) _) with (@nil stored); [done|]. symmetry. apply rows_where_nil.
  intros r [_ Hr]%elem_of_rows_where. by apply negb_true_iff in Hr.
Qed.

Lemma accept_withdrawal_Ok req remote me (x : FEnv) s b s' :
  accept_withdrawal req remote me x s = Ok (b, s') →
  ∃ row w, contracts (f_base s) !! wr_ContractIri req = Some row ∧
    verifyShippedWithdrawal (wr_WithdrawalJades req) (wr_FromPeerDid req) remote
      {| wl_ContractIRI := wr_ContractIri req; wl_LocalPeer := me; wl_Parties := parties_of row; wl_Now := x_nanos x |} = Ok w ∧
    b = withdrawalTakesBack w (own_settlement (f_base s) (wr_FromPeerDid req) (wr_ContractIri req)) ∧
    s' = (if b then dropped (wr_ContractIri req) (wr_FromPeerDid req) s else s).
Proof.
  unfold accept_withdrawal. intros HR. fed_inv.
  match goal with H : ReadDataByDID _ _ _ = _ |- _ => apply ReadData_Ok in H as (-> & row & Hrow & ->) end.
  match goal with H : GetSettlement _ _ _ _ = _ |- _ => apply GetSettlement_Ok in H as [-> ->] end.
  match goal with H : verifyShippedWithdrawal _ _ _ _ = Ok ?w |- _ => exists row, w end.
  destruct (withdrawalTakesBack _ _) eqn:Eb in HR; fed_inv.
  - match goal with H : DeleteSettlementsBy _ _ _ _ = _ |- _ => apply on_base_Ok in H as (b' & Hb%modify_Ok & ->) end. subst b'.
    split_and!; done.
  - split_and!; done.
Qed.

Lemma evidenced_PostWithdrawal me req (x : FEnv) s :
  evidenced me s → evidenced me (PostSettlementWithdrawal req x s).2.
Proof.
  intros He. unfold PostSettlementWithdrawal, mbind, handler_bind.
  pose proof (authenticated_leaves (wr_FromPeerDid req) (wr_ContractIri req) (wr_SecretValue req) (wr_SecretHash req) x s) as Hl.
  destruct (authenticated_peer _ _ _ _ x s) as [[p|err] s1] eqn:Ea; cbn [snd] in Hl.
  2:{ eapply evidenced_same; [by apply settlements_reported|done]. }
  apply authenticated_Ok in Ea as (-> & _).
  destruct (transact_cases (accept_withdrawal req p.1 p.2) x s) as [(b & s2 & Hacc & ->)|[err ->]]; [|done]. cbn.
  apply accept_withdrawal_Ok in Hacc as (row & w & _ & _ & _ & ->). destruct b; [|done]. destruct He as [HN Hs].
  split; [by apply (NoDup_fmap_rows_where settlement_key)|]. intros r [Hr _]%elem_of_rows_where. by apply Hs.
Qed.

(** A withdrawal takes back exactly the settlement it names.  When it removes
    something, its peer signed it about this contract and this instance, it names
    the digest of the settlement held from that peer and is dated no earlier, and
    what goes is every settlement of that peer on that contract and nothing else,
    so the signing gate stops counting the peer; when it removes nothing the store
    is as it was; and a caller that is refused leaves at most the report of a
    denial.  The date is the artifact's, so an old withdrawal never reaches a
    settlement given after it. *)
Theorem withdrawals_remove_only_what_they_name (req : WithdrawalRequest) (x : FEnv) (s : FStore) :
  let from := wr_FromPeerDid req in let did := wr_ContractIri req in
  (∀ me s', PostSettlementWithdrawal req x s = (Ok (me, true), s') →
     ∃ w held remote payload, named_in (wr_WithdrawalJades req) = Some w ∧
       own_settlement (f_base s) from did = Some held ∧ wd_ContractDID w = did ∧
       wd_DocumentDigest w = s_document_digest held ∧ 1000 * s_settled_at held <= WithdrawnAt w ∧
       FetchDIDDocument from = Ok remote ∧ asserted_by remote (wr_WithdrawalJades req) = Ok payload ∧
       BuildSettlementWithdrawalPayload w = Ok payload ∧
       same_peer (WithdrawnBy w) from ∧ same_peer (WithdrawnFrom w) me ∧
       s' = dropped did from s ∧ own_settlement (f_base s') from did = None) ∧
  (∀ me s', PostSettlementWithdrawal req x s = (Ok (me, false), s') → s' = s) ∧
  (∀ err s', PostSettlementWithdrawal req x s = (Err err, s') → reported s s').
Proof.
  intros from did.
  assert (Hok : ∀ p s', PostSettlementWithdrawal req x s = (Ok p, s') → ∃ remote,
    FetchDIDDocument from = Ok remote ∧ accept_withdrawal req remote p.1 x s = Ok (p.2, s')).
  { intros p s' HR. unfold PostSettlementWithdrawal in HR. handler_inv.
    match goal with H : authenticated_peer _ _ _ _ _ _ = _ |- _ => apply authenticated_Ok in H as (-> & Hf & _) end.
    eexists. split; [exact Hf|done]. }
  split_and!.
  - intros me s' (remote & Hf & Hacc)%Hok. cbn in Hacc.
    apply accept_withdrawal_Ok in Hacc as (row & w & _ & Hv & Hb & ->).
    apply verify_withdrawal_Ok in Hv as (Hn & Hd & Hby & Hw & _ & _ & payload & Ha & Hp). cbn in Hd, Hw.
    fold from did in Hb. unfold withdrawalTakesBack in Hb. destruct (own_settlement (f_base s) from did) as [held|] eqn:Eh; [|done].
    symmetry in Hb. apply andb_true_iff in Hb as [Hdig%bool_decide_eq_true Hat%negb_true_iff%Z.ltb_ge].
    exists w, held, remote, payload. split_and!; try done. apply dropped_own.
  - intros me s' (remote & _ & Hacc)%Hok. by apply accept_withdrawal_Ok in Hacc as (_ & _ & _ & _ & _ & ->).
  - intros err s'. unfold PostSettlementWithdrawal, mbind, handler_bind.
    pose proof (authenticated_leaves from did (wr_SecretValue req) (wr_SecretHash req) x s) as Hl.
    fold from did. destruct (authenticated_peer _ _ _ _ x s) as [[p|err'] s1] eqn:Ea; cbn [snd] in Hl; [|by intros [= _ <-]].
    apply authenticated_Ok in Ea as (-> & _).
    destruct (transact_cases (accept_withdrawal req p.1 p.2) x s) as [(b & s2 & _ & ->)|[e' ->]]; [done|].
    intros [= _ <-]. by left.
Qed.

End settling.

(** * Delivering

    What one attempt to deliver a settlement or a withdrawal changes, what a retry
    pass leaves, and that the evidence the signing gate reads survives all of it. *)

(** ** Marking rows one by one *)
Section marks.
Context {A K : Type} `{EqDecision K} (key : A → K) (chosen : A → bool) (f : A → A).

Definition marked_by (pending : list A) (y : A) : bool := existsb (λ r, chosen r && bool_decide (key y = key r)) pending.

Lemma marks_together (pending l : list A) :
  (∀ r, key (f r) = key r) → (∀ r, f (f r) = f r) →
  foldl (λ rows r, if chosen r then update_where (λ y, bool_decide (key y = key r)) f rows else rows) l pending =
  (λ y, if marked_by pending y then f y else y) <$> l.
Proof.
  intros Hk Hf. revert l. induction pending as [|r pending IH]; intros l; cbn [foldl marked_by existsb].
  { by rewrite list_fmap_id. }
  rewrite IH. destruct (chosen r) eqn:Ec; [|done]. unfold update_where. rewrite <-list_fmap_compose.
  apply list_fmap_ext. intros _ y _. cbn. unfold marked_by. destruct (bool_decide (key y = key r)) eqn:E; cbn; [|done].
  rewrite Hk. case_match; [by rewrite Hf|done].
Qed.

(** Over rows that are told apart by their key, a selection is marked. *)
Lemma marks_selected (p : A → bool) (col : A → Z) (l : list A) :
  NoDup (key <$> l) → (∀ r, key (f r) = key r) → (∀ r, f (f r) = f r) →
  foldl (λ rows r, if chosen r then update_where (λ y, bool_decide (key y = key r)) f rows else rows) l
    (order_by col (rows_where p l)) =
  (λ y, if p y && chosen y then f y else y) <$> l.
Proof.
  intros HN Hk Hf. rewrite marks_together by done. apply list_fmap_ext. intros i y Hy%list_elem_of_lookup_2.
  assert (marked_by (order_by col (rows_where p l)) y = p y && chosen y) as ->; [|done].
  apply eq_true_iff_eq. unfold marked_by. rewrite existsb_true_iff, !andb_true_iff. split.
  - intros (r & [Hr Hp]%elem_of_order_by%elem_of_rows_where & [Hc Ek%bool_decide_eq_true]%andb_true_iff).
    by rewrite (key_unique key l y r HN Hy Hr Ek).
  - intros [Hp Hc]. exists y. split; [by apply elem_of_order_by, elem_of_rows_where|].
    by rewrite Hc, bool_decide_eq_true_2.
Qed.
End marks.

Section delivering.
Context {I : IdentityServices} {J : JadesServices} {T : TrustServices}.

(** The peer lets this instance's statement in: the gate allows it, the challenge can
    be answered and the peer accepts. *)
Definition settlement_request (x : FEnv) (r : stored) (hash : bytes) : SettlementRequest :=
  {| sr_FromPeerDid := s_from r; sr_ContractIri := s_did r; sr_SecretValue := of_string (x_secret x);
     sr_SecretHash := hash; sr_SettlementJades := s_jades r |}.

Definition gate_open (x : FEnv) (peer did target : string) : bool :=
  match Check peer Outbound did target (x_nanos x) with Allowed => true | Denied _ => false end.

Definition reached (x : FEnv) (r : stored) : bool :=
  gate_open x (s_to r) (s_did r) (state_String Submitted) &&
  match DidDocument.Sign (x_own x) (of_string (x_secret x)), x_sender x with
  | Ok hash, Some sender => is_ok (SendSettlement sender (s_to r) (settlement_request x r hash))
  | _, _ => false
  end.

Definition withdrawal_request (x : FEnv) (w : Withdrawal) (hash : bytes) (jws : string) : WithdrawalRequest :=
  {| wr_FromPeerDid := w_from w; wr_ContractIri := w_did w; wr_SecretValue := of_string (x_secret x);
     wr_SecretHash := hash; wr_WithdrawalJades := jws |}.

Definition told (x : FEnv) (w : Withdrawal) : bool :=
  gate_open x (w_to w) (w_did w) (state_String Negotiation) &&
  match BuildSettlementWithdrawal (x_own x) (x_nanos x) w,
        DidDocument.Sign (x_own x) (of_string (x_secret x)), x_sender x with
  | Ok jws, Ok hash, Some sender => is_ok (SendSettlementWithdrawal sender (w_to w) (withdrawal_request x w hash jws))
  | _, _, _ => false
  end.

Definition marked (x : FEnv) (r : stored) (s : FStore) : FStore :=
  set_base (set_settlements (update_where (between (s_did r) (s_from r) (s_to r)) (delivered (x_now x)))) s.
Definition marked_sent (x : FEnv) (w : Withdrawal) (s : FStore) : FStore :=
  set_base (set_withdrawals (update_where (names_pair (w_did w) (w_from w) (w_to w)) (sent (x_now x)))) s.

Lemma gated_quiet peer did target (x : FEnv) s :
  gated peer Outbound did target false x s =
  (match Check peer Outbound did target (x_nanos x) with Allowed => Ok () | Denied g => Err (gate_error g) end, s).
Proof.
  destruct (gated_cases peer Outbound did target false x s) as [[-> ->]|(g & s' & -> & -> & [->|[? _]])]; done.
Qed.

Lemma deliverSettlement_quiet r (x : FEnv) s :
  (logged (deliverSettlement r false) x s).2 = if reached x r then marked x r s else s.
Proof.
  unfold logged, outcome, deliverSettlement, reached, gate_open. unfold mbind, handler_bind. rewrite gated_quiet.
  destruct (Check _ _ _ _ _); [|done]. unfold signed_secret. destruct (DidDocument.Sign _ _) as [hash|]; [|done].
  cbn [andb]. unfold look. destruct (x_sender x) as [sender|]; [|done]. unfold answer. cbn [fst snd].
  fold (settlement_request x r hash). by destruct (SendSettlement sender _ _) as [[]|].
Qed.

Lemma deliverWithdrawal_quiet w (x : FEnv) s :
  (logged (deliverSettlementWithdrawal w false) x s).2 = if told x w then marked_sent x w s else s.
Proof.
  unfold logged, outcome, deliverSettlementWithdrawal, told, gate_open. unfold mbind, handler_bind, look.
  destruct (x_sender x) as [sender|].
  - rewrite gated_quiet. destruct (Check _ _ _ _ _); [|done]. cbn [andb].
    destruct (BuildSettlementWithdrawal _ _ _) as [jws|]; [|done].
    unfold signed_secret. destruct (DidDocument.Sign _ _) as [hash|]; [|done].
    unfold answer. cbn [fst snd]. fold (withdrawal_request x w hash jws).
    by destruct (SendSettlementWithdrawal sender _ _) as [[]|].
  - cbn. destruct (Check _ _ _ _ _); [|done]. cbn [andb].
    destruct (BuildSettlementWithdrawal _ _ _); [|done]. by destruct (DidDocument.Sign _ _).
Qed.

Lemma each_logged {A} (m : A → Handler FEnv FStore ()) (step : A → FStore → FStore) (x : FEnv) l s :
  (∀ r s, (logged (m r) x s).2 = step r s) → (each (λ r, logged (m r)) l x s) = (Ok (), foldl (λ s r, step r s) s l).
Proof.
  intros Hm. revert s. induction l as [|r l IH]; intros s; [done|]. cbn [each foldl].
  unfold mbind at 1, handler_bind at 1. specialize (Hm r s). unfold logged in *.
  unfold mbind at 1, handler_bind at 1. unfold mbind, handler_bind in Hm. destruct (outcome (m r) x s) as [[o|err] s1] eqn:E.
  - cbn in Hm |- *. subst s1. apply IH.
  - unfold outcome in E. by destruct (m r x s).
Qed.

Lemma settle_marks (x : FEnv) pending s :
  foldl (λ s r, if reached x r then marked x r s else s) s pending =
  set_base (set_settlements (λ l, foldl (λ rows r, if reached x r
    then update_where (λ y, bool_decide (settlement_key y = settlement_key r)) (delivered (x_now x)) rows else rows) l pending)) s.
Proof.
  revert s. induction pending as [|r pending IH]; intros s; cbn [foldl].
  { destruct s as [b h f p]. by destruct b. }
  rewrite IH. destruct (reached x r); [|done]. done.
Qed.

Lemma withdraw_marks (x : FEnv) pending s :
  foldl (λ s w, if told x w then marked_sent x w s else s) s pending =
  set_base (set_withdrawals (λ l, foldl (λ rows w, if told x w
    then update_where (λ y, bool_decide (withdrawal_key y = withdrawal_key w)) (sent (x_now x)) rows else rows) l pending)) s.
Proof.
  revert s. induction pending as [|r pending IH]; intros s; cbn [foldl].
  { destruct s as [b h f p]. by destruct b. }
  rewrite IH. destruct (told x r); [|done]. done.
Qed.

(** A retry pass marks what reachable peers accepted, and nothing else. *)
Lemma retry_settlements_eq me (x : FEnv) s :
  DocumentID (x_own x) = Ok me → NoDup (settlement_key <$> settlements (f_base s)) →
  retryUndeliveredSettlements x s =
  (Ok (), set_base (set_settlements (fmap (λ r, if undelivered me r && reached x r then delivered (x_now x) r else r))) s).
Proof.
  intros Hme HN. unfold retryUndeliveredSettlements. unfold mbind at 1, handler_bind at 1.
  unfold or_nothing, outcome, own_id, transact, commit, GetUndeliveredSettlements, query, mbind, handler_bind. rewrite Hme. cbn.
  rewrite (each_logged (λ r, deliverSettlement r false) (λ r s, if reached x r then marked x r s else s))
    by (intros; apply deliverSettlement_quiet).
  rewrite settle_marks. f_equal. unfold set_base. cbn. f_equal. unfold set_settlements. cbn. f_equal.
  by apply (marks_selected settlement_key (reached x) (delivered (x_now x)) (undelivered me) s_recorded_at).
Qed.

Lemma retry_withdrawals_eq me (x : FEnv) s :
  DocumentID (x_own x) = Ok me → NoDup (withdrawal_key <$> withdrawals (f_base s)) →
  retryUndeliveredSettlementWithdrawals x s =
  (Ok (), set_base (set_withdrawals (fmap (λ w, if unsent me w && told x w then sent (x_now x) w else w))) s).
Proof.
  intros Hme HN. unfold retryUndeliveredSettlementWithdrawals, pendingSettlementWithdrawals. unfold mbind at 1, handler_bind at 1.
  unfold or_nothing, outcome, own_id, transact, commit, GetUndeliveredSettlementWithdrawals, query, mbind, handler_bind.
  rewrite Hme. cbn.
  rewrite (each_logged (λ w, deliverSettlementWithdrawal w false) (λ w s, if told x w then marked_sent x w s else s))
    by (intros; apply deliverWithdrawal_quiet).
  rewrite withdraw_marks. f_equal. unfold set_base. cbn. f_equal. unfold set_withdrawals. cbn. f_equal.
  by apply (marks_selected withdrawal_key (told x) (sent (x_now x)) (unsent me) w_recorded_at).
Qed.

(** A retry pass delivers everything a reachable peer will take, and one peer
    that cannot be reached holds up no other: afterwards the settlements and the
    withdrawals of this instance that are still owed are exactly those whose peer
    the gate denies or that was not reached, each as it was, and every other one
    carries the time of its delivery.  The pass always comes to an end. *)
Theorem retry_pass_delivers_to_every_reachable_peer (me : string) (x : FEnv) (s : FStore) :
  DocumentID (x_own x) = Ok me →
  NoDup (settlement_key <$> settlements (f_base s)) → NoDup (withdrawal_key <$> withdrawals (f_base s)) →
  ∃ s1 s2, retryUndeliveredSettlements x s = (Ok (), s1) ∧ retryUndeliveredSettlementWithdrawals x s1 = (Ok (), s2) ∧
    contracts (f_base s2) = contracts (f_base s) ∧
    (∀ r, r ∈ settlements (f_base s2) ∧ undelivered me r = true ↔
          r ∈ settlements (f_base s) ∧ undelivered me r = true ∧ reached x r = false) ∧
    (∀ r, r ∈ settlements (f_base s) → undelivered me r = true → reached x r = true →
          delivered (x_now x) r ∈ settlements (f_base s2)) ∧
    (∀ w, w ∈ withdrawals (f_base s2) ∧ unsent me w = true ↔
          w ∈ withdrawals (f_base s) ∧ unsent me w = true ∧ told x w = false) ∧
    (∀ w, w ∈ withdrawals (f_base s) → unsent me w = true → told x w = true →
          sent (x_now x) w ∈ withdrawals (f_base s2)).
Proof.
  intros Hme H1 H2. do 2 eexists. split; [by apply retry_settlements_eq|]. split; [by apply retry_withdrawals_eq|].
  cbn. split; [done|].
  assert (Hd : ∀ r, undelivered me (delivered (x_now x) r) = false)
    by (intros r; unfold undelivered; cbn; by rewrite andb_false_r).
  assert (Hs : ∀ w, unsent me (sent (x_now x) w) = false) by (intros w; unfold unsent; cbn; by rewrite andb_false_r).
  split_and!.
  - intros r. split.
    + intros [(r0 & -> & Hr)%list_elem_of_fmap Hu]. destruct (undelivered me r0 && reached x r0) eqn:E; [by rewrite Hd in Hu|].
      rewrite Hu in E. done.
    + intros (Hr & Hu & Hreach). split; [|done]. apply list_elem_of_fmap. exists r. by rewrite Hu, Hreach.
  - intros r Hr Hu Hreach. apply list_elem_of_fmap. exists r. by rewrite Hu, Hreach.
  - intros w. split.
    + intros [(w0 & -> & Hw)%list_elem_of_fmap Hu]. destruct (unsent me w0 && told x w0) eqn:E; [by rewrite Hs in Hu|].
      rewrite Hu in E. done.
    + intros (Hw & Hu & Ht). split; [|done]. apply list_elem_of_fmap. exists w. by rewrite Hu, Ht.
  - intros w Hw Hu Ht. apply list_elem_of_fmap. exists w. by rewrite Hu, Ht.
Qed.

End delivering.
