(* ===== verification/EvidenceLaws.v ===== *)
(** The evidence a signature waits for: whatever an instance ships, retries or is
    sent, each settlement it holds from another party is one that party signed
    toward it; so a signing gate that opens rests on the counterparties' own
    signatures over the document settled here. *)
From S2P Require Import Prelude Json Sha256 ContractState Store Repos Transactions Handlers DidWeb Envelope ArtifactStore.
From S2P Require Import DidDocument PeerIdentity Jades TrustGate TrustLaws Erasure Store Settlement Extrinsic Signing Federation Settling SettlingLaws.
Import GoStrings.

Notation stored := Store.Settlement (only parsing).

Section evidence.
Context {I : IdentityServices} {J : JadesServices} {T : TrustServices}.

(** ** Handlers that keep the evidence *)
Definition keeps_evidence (me : string) (s s' : FStore) : Prop := evidenced me s → evidenced me s'.

#[global] Instance keeps_evidence_preorder me : PreOrder (keeps_evidence me).
Proof. split; [by intros s H|]. intros s1 s2 s3 H1 H2 H. by apply H2, H1. Qed.

Lemma same_settlements_keep me s s' : settlements (f_base s') = settlements (f_base s) → keeps_evidence me s s'.
Proof. intros E He. by eapply evidenced_same. Qed.

(** Rows of this instance come in, and marks leave what a row says. *)
Lemma own_settlement_kept me (r : stored) s :
  s_from r = me → keeps_evidence me s (with_settlement r s).
Proof.
  intros Hr He. unfold with_settlement. pose proof (e_keys _ _ He) as HN.
  apply (evidenced_base me s (set_settlements (upsert settlement_key r) (f_base s)) He); [by apply NoDup_upsert|].
  intros r' [->|Hin]%elem_of_upsert; [by left|]. right. by exists r'.
Qed.

Lemma update_where_key {A K} (key : A → K) (p : A → bool) f (l : list A) :
  (∀ r, key (f r) = key r) → key <$> update_where p f l = key <$> l.
Proof.
  intros Hf. unfold update_where. rewrite <-list_fmap_compose. apply list_fmap_ext. intros _ r _. cbn.
  by destruct (p r).
Qed.

Lemma marks_keep me (p : stored → bool) at_ s :
  keeps_evidence me s (set_base (set_settlements (update_where p (delivered at_))) s).
Proof.
  intros He. apply (evidenced_base me s (set_settlements (update_where p (delivered at_)) (f_base s)) He).
  - cbn. rewrite (update_where_key settlement_key) by done. apply He.
  - intros r (r0 & Hr0 & ->)%elem_of_update_where. right. exists r0. split; [done|]. by destruct (p r0).
Qed.

Lemma evolves_marks me did from to_ : evolves (keeps_evidence me) (MarkSettlementDelivered did from to_).
Proof. apply evolves_exec. intros x s. apply marks_keep. Qed.

Lemma evolves_sent me did from to_ : evolves (keeps_evidence me) (MarkSettlementWithdrawalDelivered did from to_).
Proof. apply evolves_exec. intros x s. by apply same_settlements_keep. Qed.

Lemma stays_gated me peer direction did target b : stays (keeps_evidence me) (gated peer direction did target b).
Proof.
  intros x s. destruct (gated_cases peer direction did target b x s) as [[-> _]|(g & s' & -> & _ & [->|[_ ->]])]; [done..|].
  by apply same_settlements_keep.
Qed.

Lemma stays_signed_secret me : stays (keeps_evidence me) signed_secret.
Proof. by intros x s. Qed.
#[local] Hint Resolve stays_gated stays_signed_secret : handler.
#[local] Hint Resolve evolves_marks evolves_sent : txn.

(** A transaction of one statement. *)
Ltac by_one_write := apply stays_transact; [apply _|]; apply evolves_within; eauto with txn.

Lemma stays_deliverSettlement me r b : stays (keeps_evidence me) (deliverSettlement r b).
Proof. unfold deliverSettlement. stays_tac. by_one_write. Qed.

Lemma stays_deliverWithdrawal me w b : stays (keeps_evidence me) (deliverSettlementWithdrawal w b).
Proof.
  unfold deliverSettlementWithdrawal. stays_tac. by_one_write.
Qed.

Lemma built_by doc contract me peer now at_ r : BuildSettlement doc contract me peer now at_ = Ok r → s_from r = me.
Proof.
  unfold BuildSettlement, mbind, result_bind. destruct (wrap_err _ _); [|done]. destruct (wrap_err _ _); [|done].
  destruct (wrap_err _ _); [|done]. by intros [= <-].
Qed.

Lemma UpsertSettlement_keeps r me (x : FEnv) s u s' :
  s_from r = me → UpsertSettlement r x s = Ok (u, s') → keeps_evidence me s s'.
Proof.
  intros Hr HR. apply on_base_Ok in HR as (b & Hb%modify_Ok & ->). subst b.
  by apply (own_settlement_kept me (SyncRepo.recorded (x_now x) r) s).
Qed.

Lemma stays_recordSettlement me contract peer : stays (keeps_evidence me) (recordSettlement contract me peer).
Proof.
  apply stays_transact; [apply _|]. intros x s r s' HR. apply txn_bind_Ok in HR as (settlement & s1 & H1 & HR).
  apply of_result_Ok in H1 as [Hb ->]. apply built_by in Hb. txn_inv.
  match goal with H : GetSettlement _ _ _ _ = _ |- _ => apply GetSettlement_Ok in H as [-> ->] end.
  destruct (own_settlement _ _ _) as [old|]; [destruct (covers _ _ _)|]; txn_inv; try done;
    by eapply UpsertSettlement_keeps.
Qed.

Lemma stays_ship_to me contract peers : stays (keeps_evidence me) (ship_to contract me peers).
Proof.
  induction peers as [|peer peers IH]; [by intros x s|]. cbn [ship_to]. destruct (SameDIDWeb peer me); [done|].
  apply stays_bind; [apply _|apply stays_recordSettlement|]. intros r. apply stays_bind; [apply _| |by intros []].
  destruct (s_delivered_at r); [by intros x s|]. apply stays_labelled, stays_deliverSettlement.
Qed.

Lemma evidenced_ship me did (x : FEnv) s :
  DocumentID (x_own x) = Ok me → keeps_evidence me s (shipSettlement did x s).2.
Proof.
  intros Hme. unfold shipSettlement, mbind at 1, handler_bind at 1, own_id. rewrite Hme.
  revert x s Hme. intros x s _. generalize x s.
  change (stays (keeps_evidence me) (sender ← look (λ x _, x_sender x);
    match sender with
    | None => fail (Errorf "could not ship the settlement: no settlement sender is configured")
    | Some _ =>
        contract ← transact (within "could not read contract" (ReadDataByDID did));
        match c_responsible contract with
        | None => mret tt
        | Some r => ship_to contract me (GetParties r)
        end
    end)).
  stays_tac; [|apply stays_ship_to]. apply stays_transact; [apply _|]. apply evolves_within.
  intros x' s' c s2 HR. by apply ReadData_Ok in HR as [-> _].
Qed.

Lemma stays_or_nothing {A} me (m : Handler FEnv FStore (list A)) :
  stays (keeps_evidence me) m → stays (keeps_evidence me) (or_nothing m).
Proof. intros Hm. unfold or_nothing. stays_tac. Qed.

Lemma stays_pending me : stays (keeps_evidence me) pendingSettlementWithdrawals.
Proof.
  apply stays_or_nothing. apply stays_bind; [apply _|by intros x s|]. intros p. apply stays_transact; [apply _|].
  apply evolves_observes; [apply _|]. apply observes_query.
Qed.

Lemma stays_each_logged {A} me (m : A → Handler FEnv FStore ()) l :
  (∀ a, stays (keeps_evidence me) (m a)) → stays (keeps_evidence me) (each (λ a, logged (m a)) l).
Proof. intros Hm. apply stays_each; [apply _|]. intros a _. apply stays_logged; [apply _|]. apply Hm. Qed.

Lemma stays_retrySettlements me : stays (keeps_evidence me) retryUndeliveredSettlements.
Proof.
  apply stays_bind; [apply _| |intros l; apply stays_each_logged; intros r; apply stays_deliverSettlement].
  apply stays_or_nothing. apply stays_bind; [apply _|by intros x s|]. intros p. apply stays_transact; [apply _|].
  apply evolves_observes; [apply _|]. apply observes_query.
Qed.

Lemma stays_withdrawals me did : stays (keeps_evidence me) (shipSettlementWithdrawals did).
Proof.
  apply stays_bind; [apply _|apply stays_pending|]. intros l. apply stays_each_logged. intros w. apply stays_deliverWithdrawal.
Qed.

Lemma stays_retryWithdrawals me : stays (keeps_evidence me) retryUndeliveredSettlementWithdrawals.
Proof.
  apply stays_bind; [apply _|apply stays_pending|]. intros l. apply stays_each_logged. intros w. apply stays_deliverWithdrawal.
Qed.

(** ** Everything that touches settlements on the instance [me] *)
Inductive settlement_step (me : string) : FStore → FStore → Prop :=
  | step_receive req x s : DocumentID (x_own x) = Ok me → settlement_step me s (PostSettlement req x s).2
  | step_taken_back req x s : settlement_step me s (PostSettlementWithdrawal req x s).2
  | step_ship did x s : DocumentID (x_own x) = Ok me → settlement_step me s (shipSettlement did x s).2
  | step_ship_withdrawals did x s : settlement_step me s (shipSettlementWithdrawals did x s).2
  | step_retry x s : settlement_step me s (retryUndeliveredSettlements x s).2
  | step_retry_withdrawals x s : settlement_step me s (retryUndeliveredSettlementWithdrawals x s).2
  (** The workflow's commands, which at most delete settlements, and everything else. *)
  | step_elsewhere s s' : settlements (f_base s') `sublist_of` settlements (f_base s) → settlement_step me s s'.

Lemma step_keeps_evidence me s s' : settlement_step me s s' → keeps_evidence me s s'.
Proof.
  intros [req x s0 Hme|req x s0|did x s0 Hme|did x s0|x s0|x s0|s0 s1 Hsub] He.
  - by apply evidenced_PostSettlement.
  - by apply evidenced_PostWithdrawal.
  - by apply (evidenced_ship me did x s0 Hme).
  - by apply stays_withdrawals.
  - by apply stays_retrySettlements.
  - by apply stays_retryWithdrawals.
  - destruct He as [HN Hs]. split.
    + eapply sublist_NoDup; [exact HN|by apply fmap_sublist].
    + intros r Hr. apply Hs. by eapply elem_of_sublist.
Qed.

Lemma run_keeps_evidence me s s' : rtc (settlement_step me) s s' → keeps_evidence me s s'.
Proof. induction 1 as [|s1 s2 s3 H1 _ IH]; [done|]. intros He. by apply IH, (step_keeps_evidence me s1). Qed.

Lemma counterparties_settled did me resp declared (e : Env) s :
  assertCounterpartiesSettled did me resp declared e s = Ok ((), s) → remote_fields me resp declared ≠ [] →
  ∃ own, own_settlement s me did = Some own ∧ ∀ party, party ∈ remote_fields me resp declared →
    ∃ r, own_settlement s party did = Some r ∧ s_document_digest r = s_document_digest own.
Proof.
  unfold assertCounterpartiesSettled. intros HR Hne. rewrite bool_decide_eq_false_2 in HR by done. tx_inv.
  match goal with H : SyncRepo.GetSettlement _ _ _ _ = _ |- _ => apply gets_Ok in H as [-> ->] end.
  fold (own_settlement s me did) in HR. destruct (own_settlement s me did) as [own|]; [|done].
  exists own. split; [done|]. by eapply settled_by_all_iff.
Qed.

Lemma newest_in l r : SyncRepo.newest l = Some r → r ∈ l.
Proof.
  unfold SyncRepo.newest. assert (H : ∀ best, foldl (λ best r, match best with
    | Some b => if s_settled_at b <? s_settled_at r then Some r else best
    | None => Some r
    end) best l = Some r → best = Some r ∨ r ∈ l); [|by intros [|]%H].
  induction l as [|a l IH]; intros best; [by left|]. cbn. intros [E|?]%IH; [|by right; right].
  destruct best as [b|]; [|right; injection E as <-; left].
  destruct (s_settled_at b <? s_settled_at a); [right; injection E as <-; left|by left].
Qed.

Lemma own_settlement_row s party did r :
  own_settlement s party did = Some r → r ∈ settlements s ∧ s_did r = did ∧ s_from r = party.
Proof.
  intros [Hr Hp]%newest_in%elem_of_rows_where. unfold SyncRepo.settled_by in Hp.
  by apply andb_true_iff in Hp as [Hd%bool_decide_eq_true Hf%bool_decide_eq_true].
Qed.

(** C8: A signature rests on the counterparties' own.  From a store without
    settlements, after any run of shipping, retrying, receiving settlements and
    withdrawals, and of anything that at most deletes settlements, whenever the
    signing gate opens for a contract with a slot of another party, this instance
    holds a settlement of its own, and for every such party a settlement that
    party signed, with a key it publishes for assertions, naming this contract,
    the very document settled here, the party as who settled and this instance as
    whom with. *)
Theorem counterparty_settlements_are_signed (me did : string) (s0 s : FStore) (resp : option Responsible)
    (declared : list string) (e : Env) :
  settlements (f_base s0) = [] → rtc (settlement_step me) s0 s →
  assertCounterpartiesSettled did me resp declared e (f_base s) = Ok ((), f_base s) →
  remote_fields me resp declared ≠ [] →
  ∃ own, own_settlement (f_base s) me did = Some own ∧
    ∀ party, party ∈ remote_fields me resp declared →
      ∃ r remote payload st, own_settlement (f_base s) party did = Some r ∧
        s_document_digest r = s_document_digest own ∧ s_to r = me ∧
        FetchDIDDocument party = Ok remote ∧ asserted_by remote (s_jades r) = Ok payload ∧
        BuildSettlementPayload st = Ok payload ∧ Jades.ContractDID st = did ∧
        DocumentDigest st = s_document_digest own ∧ same_peer (SettledBy st) party ∧ same_peer (SettledWith st) me.
Proof.
  intros H0 Hrun Hgate Hne. assert (evidenced me s0) as He0.
  { split; [rewrite H0; constructor|]. rewrite H0. by intros r ?%elem_of_nil. }
  pose proof (run_keeps_evidence _ _ _ Hrun He0) as [_ Hs].
  destruct (counterparties_settled _ _ _ _ _ _ Hgate Hne) as (own & Hown & Hall). exists own. split; [done|].
  intros party Hp. destruct (Hall party Hp) as (r & Hr & Hd).
  destruct (own_settlement_row _ _ _ _ Hr) as (Hin & Hdid & Hfrom).
  assert (s_from r ≠ me) as Hme.
  { rewrite Hfrom. intros ->. apply elem_of_rows_where in Hp as [_ Hp]. unfold IsRemotePartyField in Hp.
    rewrite SameDIDWeb_refl, !orb_true_r in Hp. done. }
  destruct (Hs r Hin Hme) as [Hto (remote & payload & st & Hf & Ha & Hb & Hc & Hdd & Hby & Hw)].
  exists r, remote, payload, st. split_and!; congruence || by subst.
Qed.

End evidence.
