(* ===== verification/Exchange.v ===== *)
(** One settlement from end to end: what an instance builds, a counterparty that
    holds the same document accepts, stores under its maker and finds when it asks
    whether that counterparty settled. *)
From S2P Require Import Prelude Json Sha256 ContractState Store Repos Transactions Handlers DidWeb Anchors Merging Merkle Envelope ArtifactStore.
From S2P Require Import DidDocument PeerIdentity Jades TrustGate TrustLaws Erasure Store Settlement Extrinsic Signing HubLaws Federation Settling SettlingLaws EvidenceLaws.
Import GoStrings.

Notation stored := Store.Settlement (only parsing).

(** ** A number and its text *)
Lemma digits_decimal acc s : all_chars is_digit s = true → digits_Z acc (String.list_ascii_of_string s) = Some (decimal_from acc s).
Proof.
  revert acc. induction s as [|c s IH]; intros acc; [done|]. cbn [all_chars]. intros [Hc Hs]%andb_true_iff.
  change (String.list_ascii_of_string (String c s)) with (c :: String.list_ascii_of_string s). cbn [digits_Z decimal_from].
  unfold is_digit in Hc. apply andb_true_iff in Hc as [H1%Nat.leb_le H2%Nat.leb_le].
  assert ((48 <=? Z.of_nat (Ascii.nat_of_ascii c)) && (Z.of_nat (Ascii.nat_of_ascii c) <=? 57) = true) as ->
    by (apply andb_true_iff; lia). by apply IH.
Qed.

Lemma int_of_pretty v : 0 <= v <= 9223372036854775807 → int_of_literal (pretty v) = Some v.
Proof.
  intros [Hv Hb]. destruct (decimal_pretty v Hv) as (Hd & Ha & Hne). unfold int_of_literal.
  pose proof (digits_decimal 0 _ Ha) as E. unfold decimal in Hd. rewrite Hd in E.
  destruct (pretty v) as [|c s] eqn:Ep; [done|].
  change (String.list_ascii_of_string (String c s)) with (c :: String.list_ascii_of_string s) in E |- *.
  assert (is_digit c = true) as Hc by by apply andb_true_iff in Ha as [Hc _].
  assert (H : ∀ m : option Z, m = Some v →
    (z ← m; if (-9223372036854775808 <=? z) && (z <=? 9223372036854775807) then Some z else None) = Some v).
  { intros m ->. cbn [mbind option_bind]. by assert ((-9223372036854775808 <=? v) && (v <=? 9223372036854775807) = true) as -> by lia. }
  apply H. destruct c as [[] [] [] [] [] [] [] []]; discriminate Hc || exact E.
Qed.

(** ** Text that is not blank *)
Lemma trim_right_solid p c s : p c = false → trim_right p (String c s) ≠ EmptyString.
Proof. intros Hc. cbn. destruct (trim_right p s); [by rewrite Hc|done]. Qed.

Lemma solid_not_blank c s : is_space c = false → blank (String c s) = false.
Proof.
  intros Hc. unfold blank, TrimSpace. cbn [trim_left]. rewrite Hc. apply bool_decide_eq_false_2.
  by apply trim_right_solid.
Qed.

Lemma micros_exact t : to_micros (1000 * t) = t.
Proof. unfold to_micros. by rewrite Z.mul_comm, Z.div_mul, Z.mod_mul by done. Qed.

(** ** What is relied on: the text of a time reads back, and the canonical form of
    a settlement is bytes that decode to it (RFC 8785 keeps the data, numbers of
    at most 53 bits included). *)
Class SettlementLaws `{IdentityServices} `{JadesServices} := {
  format_nano_text t : blank (FormatNano t) = false;
  parse_format_nano t : ParseNano (FormatNano t) = Some t;
  canonical_decodes st payload : 0 <= ContractVersion st < 2 ^ 53 → BuildSettlementPayload st = Ok payload →
    is_bytes payload ∧ DecodeJSON payload = Ok (settlement_node st)
}.

Section exchange.
Context {I : IdentityServices} {J : JadesServices} {T : TrustServices} {JL : JadesLaws} {SL : SettlementLaws}.

Lemma digest_not_blank j digest : Jades.ContractDocumentDigest j = Ok digest → blank digest = false.
Proof.
  unfold Jades.ContractDocumentDigest, mbind, result_bind. destruct (Canonicalize j); [|done]. intros [= <-].
  by apply solid_not_blank.
Qed.

Lemma settlement_reads_back st : 0 <= ContractVersion st < 2 ^ 53 →
  Unmarshal_settlement (settlement_node st) = Ok
    {| cl_Type := SettlementType; cl_ContractDID := Jades.ContractDID st; cl_ContractVersion := ContractVersion st;
       cl_DocumentDigest := DocumentDigest st; cl_SettledBy := SettledBy st; cl_SettledWith := SettledWith st;
       cl_SettledAt := FormatNano (SettledAt st) |}.
Proof.
  intros Hv. unfold Unmarshal_settlement, settlement_node, Unmarshal_map. cbn [mbind result_bind].
  unfold ArtifactStore.string_field, int_field.
  repeat first [rewrite lookup_insert_eq | rewrite lookup_insert_ne by done | rewrite lookup_singleton_eq].
  cbn [mbind result_bind].
  repeat first [rewrite lookup_insert_eq | rewrite lookup_insert_ne by done | rewrite lookup_singleton_eq].
  cbn [mbind result_bind]. rewrite int_of_pretty by lia. done.
Qed.

(** What one instance builds. *)
Definition statement (contract : Contract) (maker peer digest : string) (at_ : Z) : Jades.Settlement :=
  {| Jades.ContractDID := c_did contract; ContractVersion := c_contract_version contract; DocumentDigest := digest;
     SettledBy := maker; SettledWith := peer; SettledAt := 1000 * at_ |}.

Lemma BuildSettlement_Ok doc contract maker peer now at_ r :
  BuildSettlement doc contract maker peer now at_ = Ok r →
  ∃ digest payload, Jades.ContractDocumentDigest (contractDocumentOf contract) = Ok digest ∧
    BuildSettlementPayload (statement contract maker peer digest at_) = Ok payload ∧
    Jades.Sign doc now payload = Ok (s_jades r) ∧ s_document_digest r = digest ∧ s_settled_at r = at_ ∧
    s_did r = c_did contract ∧ s_from r = maker ∧ s_to r = peer ∧ s_contract_version r = c_contract_version contract.
Proof.
  unfold BuildSettlement, mbind, result_bind. destruct (Jades.ContractDocumentDigest _) as [digest|] eqn:Edig; [|done].
  cbn [wrap_err]. fold (statement contract maker peer digest at_).
  destruct (BuildSettlementPayload _) as [payload|] eqn:Epay; [|done]. cbn [wrap_err].
  destruct (Jades.Sign _ _ _) as [jws|] eqn:Ej; [|done]. cbn [wrap_err]. intros [= <-]. exists digest, payload. split_and!; assumption || reflexivity.
Qed.

(** ** Both sides are ready *)

(** The document signs with a key its own chain certifies. *)
Definition signs_with (doc : DIDDocument) (pub : point) : Prop :=
  ∃ sg m, signer doc = Some sg ∧ signs_as sg pub ∧ signingMethod doc = Some m ∧ leaf_key (k_X5C (m_JWK m)) pub.

(** The receiver [me], the peer [maker] it is asked by, and the contract both hold. *)
Record ready (me maker : string) (pub : point) (contract : Contract) (at_ : Z) (req : SettlementRequest) (x : FEnv)
    (s : FStore) : Prop := {
  r_me : DocumentID (x_own x) = Ok me;
  r_other : ¬ same_peer maker me;
  r_peer : ∃ remote, FetchDIDDocument maker = Ok remote ∧
    VerifyPeerChallenge remote (x_roots x) (sr_SecretValue req) (sr_SecretHash req) = Ok () ∧
    PublishesKeyFor remote PurposeAssertion (Some pub) = true;
  r_gate : Check maker Inbound (c_did contract) EmptyString (x_nanos x) = Allowed;
  r_copy : ∃ row, contracts (f_base s) !! c_did contract = Some row ∧
    c_contract_data row = c_contract_data contract ∧ maker ∈ parties_of row;
  r_history : is_ok (digests_of (rows_where (λ c, bool_decide (c_did c = c_did contract)) (contract_history (f_base s)))) = true;
  r_clock : 1000 * at_ <= x_nanos x + settlementClockSkew;
  r_newer p : own_settlement (f_base s) maker (c_did contract) = Some p → s_settled_at p <= at_;
  r_named : existsb blank [c_did contract; maker; me] = false
}.

(** The receiver makes of the maker's settlement a row that says the same. *)
Lemma verify_built doc pub contract maker peer me now at_ r remote local :
  signs_with doc pub → 0 <= c_contract_version contract < 2 ^ 53 →
  BuildSettlement doc contract maker peer now at_ = Ok r →
  PublishesKeyFor remote PurposeAssertion (Some pub) = true → same_peer peer me → LocalPeer local = me →
  ContractIRI local = c_did contract → maker ∈ Parties local → LocalDigest local = s_document_digest r →
  1000 * at_ <= Now local + settlementClockSkew → (∀ p, Previous local = Some p → s_settled_at p <= at_) →
  existsb blank [c_did contract; maker; peer] = false →
  ∃ row, verifyShippedSettlement (s_jades r) maker remote local = Ok row ∧ s_did row = c_did contract ∧
    s_from row = maker ∧ s_to row = me ∧ s_document_digest row = s_document_digest r ∧ s_settled_at row = at_ ∧
    s_contract_version row = c_contract_version contract.
Proof.
  intros (sg & m & Hsg & Hs & Hm & Hl) Hv Hb Hk Hpeer Hme Hiri Hp Hd Hc Hprev Hnb.
  destruct (BuildSettlement_Ok _ _ _ _ _ _ _ Hb) as (digest & payload & Edig & Epay & Ejws & <- & _).
  destruct (canonical_decodes (statement contract maker peer (s_document_digest r) at_) _ Hv Epay) as [Hbytes Hdec].
  destruct (Sign_Verify _ _ _ _ now _ Hsg Hs Hm Hl Hbytes) as (jws & Ejws' & Hver).
  assert (jws = s_jades r) as -> by congruence.
  set (st := statement contract maker peer (s_document_digest r) at_) in *.
  exists (accepted_row (s_jades r) maker local {| cl_Type := SettlementType; cl_ContractDID := Jades.ContractDID st;
    cl_ContractVersion := ContractVersion st; cl_DocumentDigest := DocumentDigest st; cl_SettledBy := SettledBy st;
    cl_SettledWith := SettledWith st; cl_SettledAt := FormatNano (SettledAt st) |} (SettledAt st)).
  split; [|unfold accepted_row; cbn; rewrite micros_exact, Hiri, Hme; by split_and!].
  apply verify_settlement_iff. eexists payload, (settlement_node st), _, (SettledAt st).
  split; [unfold asserted_by, mbind, result_bind; rewrite Hver; cbn [wrap_err fst snd]; by rewrite Hk|]. split; [done|].
  split; [by apply settlement_reads_back|]. split; [|split; [done|reflexivity]].
  cbn in Hnb. apply orb_false_iff in Hnb as [Hb1 Hnb]. apply orb_false_iff in Hnb as [Hb2 Hnb]. apply orb_false_iff in Hnb as [Hb3 _].
  split; cbn; [done| |apply parse_format_nano|done|apply SameDIDWeb_refl|by rewrite Hme| |rewrite Hd; left|done|].
  - rewrite Hb1, Hb2, Hb3. cbn. rewrite (digest_not_blank _ _ Edig), format_nano_text. done.
  - unfold is_party. apply existsb_true_iff. exists maker. split; [done|apply SameDIDWeb_refl].
  - intros p ?%Hprev. lia.
Qed.

(** What is stored is what is found. *)
Lemma newest_some (l : list stored) best : is_Some best → is_Some (foldl (λ best r, match best with
  | Some b => if s_settled_at b <? s_settled_at r then Some r else best
  | None => Some r
  end) best l).
Proof.
  revert best. induction l as [|a l IH]; intros best Hb; [done|]. cbn. apply IH. destruct Hb as [b ->]. by destruct (_ <? _).
Qed.

Lemma newest_only (r : stored) l : r ∈ l → (∀ y, y ∈ l → y = r) → SyncRepo.newest l = Some r.
Proof.
  intros Hr Hall. assert (is_Some (SyncRepo.newest l)) as [y E].
  { destruct l as [|a l]; [by apply elem_of_nil in Hr|]. unfold SyncRepo.newest. cbn. by apply newest_some. }
  rewrite E. f_equal. by apply Hall, newest_in.
Qed.

Lemma recorded_found me maker did r s :
  evidenced me s → maker ≠ me → s_did r = did → s_from r = maker → s_to r = me →
  own_settlement (f_base (with_settlement r s)) maker did = Some r.
Proof.
  intros [HN Hs] Hne Hd Hf Ht. apply newest_only.
  - apply elem_of_rows_where. unfold with_settlement. cbn. split; [apply elem_of_upsert_new|].
    unfold SyncRepo.settled_by. by rewrite !bool_decide_eq_true_2.
  - intros y [Hy Hp]%elem_of_rows_where. unfold SyncRepo.settled_by in Hp.
    apply andb_true_iff in Hp as [Hyd%bool_decide_eq_true Hyf%bool_decide_eq_true].
    pose proof (NoDup_upsert settlement_key r _ HN) as HN'. unfold with_settlement in Hy. cbn in Hy.
    apply (key_unique settlement_key _ y r HN' Hy); [apply elem_of_upsert_new|].
    assert (s_to y = me) as Hyt.
    { apply elem_of_upsert in Hy as [->|Hy]; [done|]. destruct (Hs y Hy) as [? _]; congruence. }
    unfold settlement_key. congruence.
Qed.

(** A run from the runs of its steps. *)
Lemma txn_then {A B} (m : FTx A) (f : A → FTx B) x s a s1 r : m x s = Ok (a, s1) → f a x s1 = r → (m ≫= f) x s = r.
Proof. intros Hm Hf. unfold mbind, txn_bind. by rewrite Hm. Qed.

Lemma within_runs {A} msg (m : FTx A) x s a s' : m x s = Ok (a, s') → within msg m x s = Ok (a, s').
Proof. unfold within. by intros ->. Qed.

Lemma of_result_runs {A} (r : result A) a (x : FEnv) (s : FStore) : r = Ok a → of_result r x s = Ok (a, s).
Proof. unfold of_result. by intros ->. Qed.

(** The receiver's transaction. *)
Lemma accept_settlement_runs req remote me (x : FEnv) s row digest hist r :
  contracts (f_base s) !! sr_ContractIri req = Some row →
  Jades.ContractDocumentDigest (contractDocumentOf row) = Ok digest →
  digests_of (rows_where (λ c, bool_decide (c_did c = sr_ContractIri req)) (contract_history (f_base s))) = Ok hist →
  verifyShippedSettlement (sr_SettlementJades req) (sr_FromPeerDid req) remote
    (context_of s x me (sr_ContractIri req) (sr_FromPeerDid req) row digest) = Ok r →
  accept_settlement req remote me x s = Ok ((), with_settlement (SyncRepo.recorded (x_now x) r) s).
Proof.
  intros Hrow Hd Hh Hv. unfold accept_settlement.
  eapply txn_then; [apply bad_Ok, within_runs, ReadData_Ok; split; [done|by exists row]|].
  eapply txn_then; [by apply internal_Ok, of_result_runs|].
  eapply txn_then; [by rewrite internal_Ok, GetSettlement_Ok|].
  eapply (txn_then _ _ _ _ (held_digests s me (sr_ContractIri req))).
  { rewrite internal_Ok. unfold supersededDocumentDigests, held_digests.
    eapply txn_then; [by rewrite GetSettlement_Ok|]. eapply txn_then; [reflexivity|].
    eapply txn_then; [by apply of_result_runs|]. by rewrite Hh. }
  eapply txn_then; [reflexivity|].
  eapply txn_then; [by apply bad_Ok, within_runs, of_result_runs|].
  rewrite internal_Ok. unfold UpsertSettlement. rewrite on_base_Ok. by eexists.
Qed.

(** C22: A settlement reaches the counterparty.  Let an instance build and sign a
    settlement of its copy of a contract with a key that its certificate chain
    carries and its DID document publishes for assertions, and let the counterparty
    hold the same document with the maker as a party, authenticate the maker,
    admit it through the trust gate, have a clock at most five minutes behind and
    no newer settlement of the maker.  Then the counterparty answers with its own
    identity, and from then on the settlement it finds for the maker is of that
    very document, made at that very time; its contracts are as they were, and its
    evidence stays sound. *)
Theorem settlement_reaches_the_peer (doc : DIDDocument) (pub : point) (contract : Contract) (maker peer me : string)
    (now at_ : Z) (r : stored) (req : SettlementRequest) (x : FEnv) (s : FStore) :
  signs_with doc pub → 0 <= c_contract_version contract < 2 ^ 53 → same_peer peer me → blank peer = false →
  BuildSettlement doc contract maker peer now at_ = Ok r →
  sr_FromPeerDid req = maker → sr_ContractIri req = c_did contract → sr_SettlementJades req = s_jades r →
  ready me maker pub contract at_ req x s → evidenced me s →
  ∃ s' held, PostSettlement req x s = (Ok me, s') ∧
    own_settlement (f_base s') maker (c_did contract) = Some held ∧
    s_document_digest held = s_document_digest r ∧ s_settled_at held = at_ ∧
    s_contract_version held = c_contract_version contract ∧
    contracts (f_base s') = contracts (f_base s) ∧ evidenced me s'.
Proof.
  intros Hsign Hv Hpeer Hbp Hb Hfrom Hiri Hjws [Hme Hother (remote & Hf & Hc & Hk) Hgate (row & Hrow & Hdata & Hparty)
    Hhist Hclock Hnewer Hnb] He.
  destruct (BuildSettlement_Ok _ _ _ _ _ _ _ Hb) as (digest & payload & Edig & _ & _ & Ed & _).
  destruct (digests_of _) as [hist|] eqn:Eh; [|done].
  assert (Edig' : Jades.ContractDocumentDigest (contractDocumentOf row) = Ok digest)
    by (unfold contractDocumentOf in *; by rewrite Hdata).
  destruct (verify_built doc pub contract maker peer me now at_ r remote
    (context_of s x me (c_did contract) maker row digest)) as (held & Hver & Hd & Hfr & Ht & Hdig & Hat & Hver').
  all: try done.
  { cbn in Hnb |- *. rewrite Hbp. apply orb_false_iff in Hnb as [-> Hnb]. by apply orb_false_iff in Hnb as [-> _]. }
  set (stored_row := SyncRepo.recorded (x_now x) held).
  assert (Hrun : PostSettlement req x s = (Ok me, with_settlement stored_row s)).
  { unfold PostSettlement. apply (handler_then _ _ _ _ (remote, me) s).
    - rewrite authenticated_Ok, Hfrom, Hiri. by split_and!.
    - apply (handler_then _ _ _ _ () (with_settlement stored_row s)); [|done]. rewrite transact_Ok.
      apply (accept_settlement_runs _ _ _ _ _ row digest hist); rewrite ?Hfrom, ?Hiri, ?Hjws; done. }
  exists (with_settlement stored_row s), stored_row. split; [done|].
  split; [|split_and!; try done].
  - apply (recorded_found me); try done. intros ->. by apply Hother.
  - pose proof (evidenced_PostSettlement me req x s Hme He) as H. by rewrite Hrun in H.
Qed.

End exchange.
