(* ===== verification/SettlingDemo.v ===== *)
(** Two instances that exchange a settlement: b.example makes one, a.example
    receives it.  Artifacts are encoded members, certificates and signatures as in
    [PeerIdentity]. *)
From S2P Require Import Prelude Json Sha256 ContractState Store Repos Transactions Handlers DidWeb Merkle Envelope ArtifactStore.
From S2P Require Import DidDocument PeerIdentity Jades TrustGate TrustLaws Erasure Store Settlement Extrinsic Signing SigningLaws Federation Settling SettlingLaws EvidenceLaws Exchange.
Import GoStrings.

#[local] Existing Instance demo_trust.

(** ** Artifacts *)
Definition settlement_members (m : gmap string json) : list string :=
  [as_string (m !! "dcs:contractDid"); match m !! "dcs:contractVersion" with Some (JNum v) => v | _ => EmptyString end;
   as_string (m !! "dcs:contractDocumentDigest"); as_string (m !! "dcs:settledBy"); as_string (m !! "dcs:settledWith");
   as_string (m !! "dcs:settledAt")].

Definition settlement_json (members : list string) : option json :=
  match members with
  | [did; version; digest; by_; with_; at_] =>
      Some (JObj (<["@context" := dcs_context]> (<["@type" := JStr SettlementType]> (<["dcs:contractDid" := JStr did]>
        (<["dcs:contractVersion" := JNum version]> (<["dcs:contractDocumentDigest" := JStr digest]>
        (<["dcs:settledBy" := JStr by_]> (<["dcs:settledWith" := JStr with_]> {["dcs:settledAt" := JStr at_]}))))))))
  | _ => None
  end.

Definition withdrawal_members (m : gmap string json) : list string :=
  [as_string (m !! "dcs:contractDid"); as_string (m !! "dcs:contractDocumentDigest"); as_string (m !! "dcs:withdrawnBy");
   as_string (m !! "dcs:withdrawnFrom"); as_string (m !! "dcs:withdrawnAt")].

Definition withdrawal_json (members : list string) : option json :=
  match members with
  | [did; digest; by_; from; at_] =>
      Some (JObj (<["@context" := dcs_context]> (<["@type" := JStr SettlementWithdrawalType]>
        (<["dcs:contractDid" := JStr did]> (<["dcs:contractDocumentDigest" := JStr digest]>
        (<["dcs:withdrawnBy" := JStr by_]> (<["dcs:withdrawnFrom" := JStr from]> {["dcs:withdrawnAt" := JStr at_]})))))))
  | _ => None
  end.

Definition exchange_parse (body : bytes) : option json :=
  match body with
  | 2 :: l => '(members, _) ← read_list (length l) l; settlement_json members
  | 3 :: l => '(members, _) ← read_list (length l) l; withdrawal_json members
  | _ => match federation_served body with Some j => Some j | None => demo_parse body end
  end.

Definition exchange_canonical (j : json) : result bytes :=
  match j with
  | JObj m =>
      if bool_decide (m !! "@type" = Some (JStr SettlementType)) then Ok (2 :: list_bytes (settlement_members m))
      else if bool_decide (m !! "@type" = Some (JStr SettlementWithdrawalType))
      then Ok (3 :: list_bytes (withdrawal_members m))
      else Ok (of_string (as_string (m !! "text")))
  | _ => Ok []
  end.

Definition exchange_jades : JadesServices := {|
  Marshal := demo_marshal;
  Canonicalize := exchange_canonical;
  FormatNano := λ t, letters (encode t);
  ParseNano := λ s, of_letters s ≫= decode;
  FormatSigningTime := λ t, String "T" (pretty t);
  ParseDER := λ der, Some (be_value (take 32 der), be_value (drop 32 der));
  VerifyRS := λ key digest r t, (r =? be_value digest) && (t =? be_value [key.1; key.2])
|}.

#[export] Instance exchange_identities : IdentityServices := demo_identity exchange_parse.

Lemma exchange_jades_laws : JadesLaws (I := exchange_identities) (J := exchange_jades).
Proof.
  split; cbn [Marshal exchange_jades]; unfold demo_marshal.
  - intros h. rewrite header_roundtrip. apply header_bytes_range.
  - intros h. rewrite header_roundtrip. cbn [DecodeJSON exchange_identities demo_identity].
    assert (exchange_parse (header_bytes h) = match federation_served (header_bytes h) with
      Some j => Some j | None => demo_parse (header_bytes h) end) as -> by done.
    assert (federation_served (header_bytes h) = None ∧ demo_served (header_bytes h) = None) as [Hf Hd].
    { unfold federation_served, demo_served. split; rewrite !bool_decide_eq_false_2; try done;
        intros E%(f_equal head); discriminate E. }
    unfold demo_parse. by rewrite Hf, Hd, read_header_bytes.
  - done.
Qed.

Lemma exchange_settlement_laws : SettlementLaws (H := exchange_identities) (H1 := exchange_jades).
Proof.
  split; cbn [FormatNano ParseNano exchange_jades].
  - intros t. destruct (letters_trimmed (encode t)) as [E Hne]. unfold blank. rewrite E. by apply bool_decide_eq_false_2.
  - intros t. rewrite of_letters_letters. cbn. by rewrite decode_encode.
  - intros st payload _. unfold BuildSettlementPayload. cbn [Canonicalize exchange_jades].
    unfold settlement_node. unfold exchange_canonical. rewrite bool_decide_eq_true_2 by reflexivity.
    match goal with |- context [list_bytes ?l] => remember l as members eqn:Em end. intros [= <-]. split.
    + constructor; [lia|]. apply list_bytes_range.
    + cbn [DecodeJSON exchange_identities demo_identity exchange_parse].
      rewrite <- (app_nil_r (list_bytes members)) at 2. rewrite read_list_bytes by apply list_bytes_length. by rewrite Em.
Qed.

#[local] Existing Instance exchange_jades.

(** ** The two instances *)
Definition signing_document (url : string) (s : Signer) : result DIDDocument :=
  NewDIDDocument (H := exchange_identities) (Ok (of_string url)) (Some s).
Definition document_of_a : result DIDDocument := signing_document "https://a.example/.well-known/did.json" (demo_signer 1 2).
Definition document_of_b : result DIDDocument := signing_document "https://b.example/.well-known/did.json" (demo_signer 3 4).

Notation a_example := "did:web:a.example" (only parsing).
Notation b_example := "did:web:b.example" (only parsing).

(** The contract both hold. *)
Definition agreed : Contract := demo_contract "did:c1" Submitted (JObj {["text" := JStr "agreed"]}).

Definition settled_at : Z := 1785585500000000.

(** b.example's settlement and its request. *)
Definition settled_by_b (d : DIDDocument) : result stored :=
  BuildSettlement d agreed b_example a_example (1000 * settled_at) settled_at.

Definition request_of_b (r : stored) : SettlementRequest :=
  {| sr_FromPeerDid := b_example; sr_ContractIri := "did:c1"; sr_SecretValue := of_string "secret";
     sr_SecretHash := answer_of 3 4; sr_SettlementJades := s_jades r |}.

Definition demo_trust_roots : option (CertPool (IdentityServices := exchange_identities)) := Some ().

(** a.example, whose peer takes what it is sent. *)
Definition env_of_a (d : DIDDocument) : FEnv :=
  {| x_env := demo_env; x_own := d; x_roots := demo_trust_roots; x_secret := "secret";
     x_sender := Some {| SendSettlement := λ _ _, Ok tt; SendSettlementWithdrawal := λ _ _, Ok tt |};
     x_post_pdf := λ _ _, Ok tt;
     x_artifacts := {| GetArtifact := λ _ _, Ok []; WrapForPeer := λ _ _ _ _, Err (Errorf "none"); AdoptPeerCEK := λ _ _, Ok tt |};
     x_poa := demo_poa |}.

Definition store_of_a : FStore :=
  {| f_base := demo_store agreed; f_hub := []; sync_fails := []; provenance := ∅ |}.

Lemma signer_signs x y : 0 <= x < 256 → 0 <= y < 256 → signs_as (J := exchange_jades) (demo_signer x y) (x, y).
Proof.
  intros Hx Hy content. eexists _, _, _. split; [reflexivity|]. split; [reflexivity|].
  pose proof (length_Sum256 content) as Hl.
  rewrite take_app_length', drop_app_length' by done.
  pose proof (be_value_range (Sum256 content) (Sum256_range content)) as Hr. rewrite Hl in Hr.
  split; [by change (256 ^ Z.of_nat 32) with (2 ^ 256) in Hr|]. split.
  { unfold be_value. cbn. lia. }
  cbn [VerifyRS exchange_jades]. by rewrite !Z.eqb_refl.
Qed.

Lemma documents_sign :
  checked document_of_a (λ d, if bool_decide (chain_of d = ["CQECAQ=="]) &&
      match DocumentID d with Ok id => bool_decide (id = a_example) | Err _ => false end then Ok () else Err (Errorf "chain")) = true ∧
  checked document_of_b (λ d, if bool_decide (chain_of d = ["CQMEAQ=="]) then Ok () else Err (Errorf "chain")) = true.
Proof. split; vm_compute; reflexivity. Qed.

Lemma b_signs d : document_of_b = Ok d → signs_with (J := exchange_jades) d (3, 4).
Proof.
  intros Ed. pose proof (proj2 documents_sign) as C. rewrite Ed in C. cbn [checked] in C. unfold chain_of in C.
  unfold document_of_b, signing_document in Ed. pose proof (bound_signer (I := exchange_identities) _ _ _ Ed) as Hs.
  destruct (signingMethod d) as [m|] eqn:Em; [|discriminate C]. case_bool_decide as Ex; [|discriminate C].
  exists (demo_signer 3 4), m. split; [exact Hs|]. split; [apply signer_signs; lia|]. split; [exact Em|].
  rewrite Ex. exists "CQMEAQ==", [], [9; 3; 4; 1], [9; 3; 4; 1]. split_and!; vm_compute; reflexivity.
Qed.

Lemma a_is d : document_of_a = Ok d → DocumentID d = Ok a_example.
Proof.
  intros Ed. pose proof (proj1 documents_sign) as C. rewrite Ed in C. cbn [checked] in C.
  destruct (bool_decide (chain_of d = _)); [|discriminate C]. cbn [andb] in C.
  destruct (DocumentID d) as [id|]; [|discriminate C]. case_bool_decide as E; [by rewrite E|discriminate C].
Qed.

Lemma b_settles : checked document_of_b settled_by_b = true.
Proof. vm_compute. reflexivity. Qed.

Lemma b_is_let_in :
  checked (FetchDIDDocument b_example) (λ d, VerifyPeerChallenge d demo_trust_roots (of_string "secret") (answer_of 3 4)) = true ∧
  checked (FetchDIDDocument b_example) (λ d, if PublishesKeyFor d PurposeAssertion (Some (3, 4)) then Ok () else Err (Errorf "key")) = true ∧
  allowed (Check b_example Inbound "did:c1" EmptyString (1000 * env_now demo_env)) = true.
Proof. split_and!; vm_compute; reflexivity. Qed.

(** a.example is ready, as long as it holds nothing of b.example yet. *)
Lemma a_is_ready d r s : document_of_a = Ok d →
  contracts (f_base s) = contracts (f_base store_of_a) → contract_history (f_base s) = [] →
  own_settlement (f_base s) b_example "did:c1" = None →
  ready a_example b_example (3, 4) agreed settled_at (request_of_b r) (env_of_a d) s.
Proof.
  intros Ed Hc Hh Hn. destruct b_is_let_in as (H1 & H2 & H3). split.
  - by apply a_is.
  - vm_compute. discriminate.
  - destruct (FetchDIDDocument b_example) as [remote|]; [|discriminate H1]. exists remote. split; [reflexivity|].
    cbn [checked] in H1, H2. split.
    + cbn [x_roots env_of_a sr_SecretValue sr_SecretHash request_of_b].
      destruct (VerifyPeerChallenge remote demo_trust_roots (of_string "secret") (answer_of 3 4)) as [[]|]; [reflexivity|discriminate H1].
    + match type of H2 with context [if ?b then _ else _] => destruct b eqn:E end; [exact E|discriminate H2].
  - change (x_nanos (env_of_a d)) with (1000 * env_now demo_env). change (c_did agreed) with "did:c1".
    destruct (Check b_example Inbound "did:c1" EmptyString (1000 * env_now demo_env)); [reflexivity|discriminate H3].
  - exists agreed. rewrite Hc. split; [reflexivity|]. split; [reflexivity|]. apply (bool_decide_unpack _). vm_compute. exact Logic.I.
  - by rewrite Hh.
  - vm_compute. discriminate.
  - intros p E. change (c_did agreed) with "did:c1" in E. rewrite Hn in E. discriminate E.
  - reflexivity.
Qed.

Lemma a_is_evidenced : evidenced a_example store_of_a.
Proof. split; [constructor|]. intros r Hr. by apply elem_of_nil in Hr. Qed.

Lemma reaches_witness : ∃ a r s' held, document_of_a = Ok a ∧
  PostSettlement (request_of_b r) (env_of_a a) store_of_a = (Ok a_example, s') ∧
  own_settlement (f_base s') b_example "did:c1" = Some held ∧ s_settled_at held = settled_at.
Proof.
  pose proof b_settles as C. pose proof (proj1 documents_sign) as Ca.
  destruct document_of_b as [b|] eqn:Eb; [|discriminate C]. destruct document_of_a as [a|] eqn:Ea; [|discriminate Ca].
  cbn [checked] in C. destruct (settled_by_b b) as [r|] eqn:Er; [|discriminate C].
  destruct (settlement_reaches_the_peer (JL := exchange_jades_laws) (SL := exchange_settlement_laws)
    b (3, 4) agreed b_example a_example a_example (1000 * settled_at) settled_at r (request_of_b r) (env_of_a a) store_of_a)
    as (s' & held & Hrun & Hfound & _ & Hat & _).
  - exact (b_signs b Eb).
  - split; vm_compute; [discriminate|reflexivity].
  - reflexivity.
  - reflexivity.
  - exact Er.
  - reflexivity.
  - reflexivity.
  - reflexivity.
  - exact (a_is_ready a r store_of_a Ea eq_refl eq_refl eq_refl).
  - exact a_is_evidenced.
  - exists a, r, s', held. split; [reflexivity|]. split; [exact Hrun|]. split; [exact Hfound|exact Hat].
Defined.

(** ** a.example ships its own settlement and receives b.example's: its gate opens *)
Definition after_ship (a : DIDDocument) : FStore := (shipSettlement "did:c1" (env_of_a a) store_of_a).2.
Definition after_receipt (a : DIDDocument) (r : stored) : FStore :=
  (PostSettlement (request_of_b r) (env_of_a a) (after_ship a)).2.
Definition both_parties : list string := [a_example; b_example].
Definition gate_of_a (s : FStore) : result (() * Store) :=
  assertCounterpartiesSettled "did:c1" a_example (Some demo_responsible) both_parties demo_env (f_base s).

Definition on_both (check : DIDDocument → DIDDocument → stored → bool) : bool :=
  match document_of_a, document_of_b with
  | Ok a, Ok b => match settled_by_b b with Ok r => check a b r | Err _ => false end
  | _, _ => false
  end.

Lemma gates_open : on_both (λ a _ r, negb (is_ok (gate_of_a (after_ship a))) && is_ok (gate_of_a (after_receipt a r))) = true.
Proof. vm_compute. reflexivity. Qed.

Lemma signed_gate_witness : ∃ a r own held remote, document_of_a = Ok a ∧
  own_settlement (f_base (after_receipt a r)) a_example "did:c1" = Some own ∧
  own_settlement (f_base (after_receipt a r)) b_example "did:c1" = Some held ∧
  s_document_digest held = s_document_digest own ∧ FetchDIDDocument b_example = Ok remote.
Proof.
  pose proof gates_open as C. unfold on_both in C.
  destruct document_of_a as [a|] eqn:Ea; [|discriminate C]. destruct document_of_b as [b|]; [|discriminate C].
  destruct (settled_by_b b) as [r|]; [|discriminate C]. apply andb_true_iff in C as [_ C].
  assert (Hgate : gate_of_a (after_receipt a r) = Ok ((), f_base (after_receipt a r))).
  { unfold gate_of_a in *. destruct (assertCounterpartiesSettled _ _ _ _ _ _) as [[[] s']|] eqn:E; [|discriminate C].
    apply reads_assertCounterpartiesSettled in E. by subst s'. }
  assert (Hrun : rtc (settlement_step a_example) store_of_a (after_receipt a r)).
  { eapply rtc_l; [exact (step_ship a_example "did:c1" (env_of_a a) store_of_a (a_is a Ea))|].
    eapply rtc_once. exact (step_receive a_example (request_of_b r) (env_of_a a) (after_ship a) (a_is a Ea)). }
  destruct (counterparty_settlements_are_signed a_example "did:c1" store_of_a (after_receipt a r) (Some demo_responsible)
    both_parties demo_env eq_refl Hrun Hgate) as (own & Hown & Hall).
  - vm_compute. discriminate.
  - destruct (Hall b_example) as (held & remote & payload & st & Hheld & Hd & _ & Hf & _).
    + apply (bool_decide_unpack _). vm_compute. exact Logic.I.
    + exists a, r, own, held, remote. split; [reflexivity|]. split; [exact Hown|]. split; [exact Hheld|]. split; [exact Hd|exact Hf].
Defined.

(** ** b.example takes its settlement back *)
Definition taken_back_by_b (d : DIDDocument) (digest : string) (at_ : Z) : result string :=
  BuildSettlementWithdrawal d (1000 * at_)
    {| w_did := "did:c1"; w_from := b_example; w_to := a_example; w_document_digest := digest; w_withdrawn_at := at_;
       w_recorded_at := at_; w_delivered_at := None |}.

Definition withdrawal_of_b (jws : string) : WithdrawalRequest :=
  {| wr_FromPeerDid := b_example; wr_ContractIri := "did:c1"; wr_SecretValue := of_string "secret";
     wr_SecretHash := answer_of 3 4; wr_WithdrawalJades := jws |}.

(** What a.example answers to a withdrawal of the settlement it received, dated [at_]. *)
Definition answered (a b : DIDDocument) (r : stored) (at_ : Z) : option bool :=
  match taken_back_by_b b (s_document_digest r) at_ with
  | Ok jws => match (PostSettlementWithdrawal (withdrawal_of_b jws) (env_of_a a) (after_receipt a r)).1 with
              | Ok (_, withdrawn) => Some withdrawn
              | Err _ => None
              end
  | Err _ => None
  end.

(** A later withdrawal takes the settlement back, an older one does not. *)
Lemma withdrawals_answered : on_both (λ a b r,
  bool_decide (answered a b r (settled_at + 1) = Some true) && bool_decide (answered a b r (settled_at - 1) = Some false)) = true.
Proof. vm_compute. reflexivity. Qed.

Lemma withdrawal_witness : ∃ a r jws s' held, document_of_a = Ok a ∧
  PostSettlementWithdrawal (withdrawal_of_b jws) (env_of_a a) (after_receipt a r) = (Ok (a_example, true), s') ∧
  own_settlement (f_base (after_receipt a r)) b_example "did:c1" = Some held ∧
  own_settlement (f_base s') b_example "did:c1" = None.
Proof.
  pose proof withdrawals_answered as C. unfold on_both in C.
  destruct document_of_a as [a|] eqn:Ea; [|discriminate C]. destruct document_of_b as [b|]; [|discriminate C].
  destruct (settled_by_b b) as [r|]; [|discriminate C]. apply andb_true_iff in C as [C _]. apply bool_decide_eq_true in C.
  unfold answered in C. destruct (taken_back_by_b b (s_document_digest r) (settled_at + 1)) as [jws|]; [|discriminate C].
  destruct (PostSettlementWithdrawal (withdrawal_of_b jws) (env_of_a a) (after_receipt a r)) as [[[me withdrawn]|] s'] eqn:E;
    [|discriminate C]. cbn [fst] in C. injection C as ->.
  destruct (proj1 (withdrawals_remove_only_what_they_name (withdrawal_of_b jws) (env_of_a a) (after_receipt a r)) me s' E)
    as (w & held & remote & payload & _ & Hheld & _ & _ & _ & _ & _ & _ & _ & _ & _ & Hnone).
  assert (me = a_example) as ->.
  { unfold PostSettlementWithdrawal in E. handler_inv.
    match goal with H : authenticated_peer _ _ _ _ _ _ = _ |- _ => apply authenticated_Ok in H as (_ & _ & _ & Hid & _) end.
    cbn [x_own env_of_a] in Hid. rewrite (a_is a Ea) in Hid. injection Hid as Hid.
    match goal with H : (me, true) = _ |- _ => injection H as -> _ end. exact (eq_sym Hid). }
  exists a, r, jws, s', held. split; [reflexivity|]. split; [exact E|]. split; [exact Hheld|exact Hnone].
Defined.

(** ** A settlement that was not delivered is delivered by the retry pass *)
Definition undelivered_row : stored :=
  {| s_did := "did:c1"; s_from := a_example; s_to := b_example; s_contract_version := 1; s_document_digest := "sha256:00";
     s_settled_at := settled_at; s_jades := "jws"; s_recorded_at := settled_at; s_delivered_at := None |}.

Definition waiting_store : FStore :=
  {| f_base := set_settlements (λ _, [undelivered_row]) (demo_store agreed); f_hub := []; sync_fails := []; provenance := ∅ |}.

Lemma b_is_reached : checked document_of_a (λ a, if reached (env_of_a a) undelivered_row then Ok () else Err (Errorf "peer")) = true.
Proof. vm_compute. reflexivity. Qed.

Lemma retry_witness : ∃ a s1 s2, retryUndeliveredSettlements (env_of_a a) waiting_store = (Ok (), s1) ∧
  retryUndeliveredSettlementWithdrawals (env_of_a a) s1 = (Ok (), s2) ∧
  delivered (x_now (env_of_a a)) undelivered_row ∈ settlements (f_base s2).
Proof.
  pose proof b_is_reached as C. destruct document_of_a as [a|] eqn:Ea; [|discriminate C]. cbn [checked] in C.
  destruct (reached (env_of_a a) undelivered_row) eqn:Er; [|discriminate C].
  destruct (retry_pass_delivers_to_every_reachable_peer a_example (env_of_a a) waiting_store (a_is a Ea)) as
    (s1 & s2 & H1 & H2 & _ & _ & Hd & _).
  - apply (bool_decide_unpack _). vm_compute. exact Logic.I.
  - constructor.
  - exists a, s1, s2. split; [exact H1|]. split; [exact H2|]. apply Hd; [left|reflexivity|exact Er].
Defined.
