(* ===== verification/Shipping.v ===== *)
(** Shipping contract PDFs: internal/dcstodcs/synchronizer.go and pinnedshapes.go.

    An event ships a contract's PDF to every other party; what could not be shipped
    waits in the retry queue, except for a denial by the policy endpoint, which is
    final.  Ships change no contract. *)
From S2P Require Import Prelude Json Sha256 Envelope Scopes ArtifactStore ContractState Store Repos Transactions Handlers DidWeb Document Authoring Anchors.
From S2P Require Import Receive Lifecycle SemanticHub DidDocument PeerIdentity Jades TrustGate Store Federation Settling.
Import GoStrings.

(** ** Events *)
Definition shippableStates : list ContractState := [Offered; ContractState.Negotiation; ContractState.Signed; Revoked].

(** [time.Duration]s in microseconds. *)
Definition maxShipRetryBackoff : Z := 10 * 60 * 1000000.
Definition shipRetriesPerPass : nat := 25.

(** What became of a round of ships. *)
Inductive ship_outcome := Shipped | GateDenied (g : GateError) | ShipFailed (err : error).

Definition ship_error (o : ship_outcome) : option error :=
  match o with Shipped => None | GateDenied g => Some (gate_error g) | ShipFailed err => Some err end.

Section shipping.
Context {I : IdentityServices} {J : JadesServices} {T : TrustServices} {A : ArtifactServices}.

(** The members of a submit event that are read. *)
Definition settlementFromEvent (data : bytes) : result (string * bool) :=
  j ← wrap_err "unmarshal submit event" (DecodeJSON data);
  m ← wrap_err "unmarshal submit event" (Unmarshal_map j);
  did ← wrap_err "unmarshal submit event" (string_field m "did");
  previous ← wrap_err "unmarshal submit event" (string_field m "previous_state");
  new ← wrap_err "unmarshal submit event" (string_field m "new_state");
  if bool_decide (did = EmptyString) then Err (Errorf "submit event carries no did") else
  Ok (did, bool_decide (previous = state_String ContractState.Negotiation) && bool_decide (new = state_String Submitted)).

Definition didFromEvent (data : bytes) : result string :=
  j ← wrap_err "unmarshal event data" (DecodeJSON data);
  m ← wrap_err "unmarshal event data" (Unmarshal_map j);
  match m !! "did" with
  | Some (JStr did) => if bool_decide (did = EmptyString) then Err (Errorf "event carries no did") else Ok did
  | _ => Err (Errorf "event carries no did")
  end.

(** ** pinnedshapes.go *)
Definition pinnedShapeRefs (document : json) : result (list (string * Z)) :=
  content ← wrap_err "decode contract document for its pinned shapes" (Unmarshal_map document);
  wrap_err "read pinned shapes of contract document" (EffectiveShapeRefs content).

Definition PinnedShapesForDocument (document : json) : FHandler (list SemanticHub.Schema) :=
  refs ← answer (pinnedShapeRefs document);
  if bool_decide (refs = []) then mret [] else CollectPinnedShapes refs.

Definition WirePinnedShapes (entries : list SemanticHub.Schema) : list (option PinnedShapes) :=
  (λ entry, Some {| ps_Name := h_Name entry; ps_Version := h_Version entry; ps_MediaType := h_MediaType entry;
                    ps_Content := h_Content entry |}) <$> entries.

Definition received_entry (p : PinnedShapes) : SemanticHub.Schema :=
  {| h_Name := ps_Name p; h_Version := ps_Version p; h_Kind := EmptyString; h_MediaType := ps_MediaType p;
     h_Content := ps_Content p; h_Active := false; h_CreatedBy := EmptyString; h_CreatedAt := 0 |}.

Definition ReceivedPinnedShapes (wire : list (option PinnedShapes)) : list SemanticHub.Schema :=
  omap (fmap received_entry) wire.

Definition PlanPinnedShapes (peerDID : string) (document : json) (wire : list (option PinnedShapes)) :
    FHandler (list SemanticHub.Schema) :=
  refs ← answer (pinnedShapeRefs document);
  PlanPinnedShapesImport (String.append "peer:" peerDID) refs (ReceivedPinnedShapes wire).

Definition InstallPinnedShapes (install : list SemanticHub.Schema) : FHandler () := StorePinnedShapes install.

(** ** What a ship carries *)
Definition contractDataHash (contract : Contract) : string :=
  EncodeToString (Sum256 match c_contract_data contract with
                         | Some _ => jsonb_text (c_contract_data contract)
                         | None => []
                         end).

Definition holdsSupersededPDF (pdfState : PDFState) (contract : Contract) : bool :=
  if IsFrozenC2PAState (C2PAState pdfState) || bool_decide (PayloadHash pdfState = EmptyString) then false
  else negb (bool_decide (PayloadHash pdfState = contractDataHash contract)).

Definition jadesForSignedContract (doc : DIDDocument) (now : Z) (contract : Contract) : result string :=
  if negb (bool_decide (c_state contract = ContractState.Signed)) then Ok EmptyString else
  payload ← wrap_err "build JAdES payload" (BuildContractPayload (c_did contract) (c_contract_version contract)
              (contractDocumentOf contract));
  wrap_err "JAdES-sign" (Jades.Sign doc now payload).

Definition pinnedShapesForContract (contract : Contract) : FHandler (list SemanticHub.Schema) :=
  labelled "resolve the pinned shapes" (PinnedShapesForDocument (contractDocumentOf contract)).

(** ** Shipping to the peers *)
Definition ship_request (x : FEnv) (localPeer did state : string) (pdf : bytes) (jadesSignature : string)
    (pinned : list SemanticHub.Schema) (wrapped : WrappedCEK) (hash : bytes) : PdfRequest :=
  {| pr_FromPeerDid := localPeer; pr_ContractIri := did; pr_Pdf := pdf; pr_SecretValue := of_string (x_secret x);
     pr_SecretHash := hash; pr_JadesSignature := Some jadesSignature; pr_ContractState := Some state;
     pr_WrappedCek := Some (WireWrappedCEK wrapped); pr_PinnedShapes := WirePinnedShapes pinned |}.

(** One peer past the trust gate. *)
Definition ship_one (x : FEnv) (localPeer did state : string) (pdf : bytes) (jadesSignature : string)
    (pinned : list SemanticHub.Schema) (peer : string) : result () :=
  remote ← wrap_err "fetch did document of peer" (FetchDIDDocument peer);
  method ← wrap_err "resolve keyAgreement key of peer" (PeerKeyAgreementMethod remote);
  pub ← wrap_err "keyAgreement key of peer" (ECPublicKey method);
  wrapped ← wrap_err "wrap contract cek for peer" (WrapForPeer (x_artifacts x) did peer (m_ID method) (Some pub));
  _ ← DIDWebPath peer;
  hash ← DidDocument.Sign (x_own x) (of_string (x_secret x));
  x_post_pdf x peer (ship_request x localPeer did state pdf jadesSignature pinned wrapped hash).

Fixpoint shipToPeers (x : FEnv) (localPeer did state : string) (pdf : bytes) (jadesSignature : string)
    (pinned : list SemanticHub.Schema) (recipients : list string) : ship_outcome :=
  match recipients with
  | [] => Shipped
  | peer :: rest =>
      if bool_decide (peer = localPeer) then shipToPeers x localPeer did state pdf jadesSignature pinned rest else
      match Check peer Outbound did state (x_nanos x) with
      | Denied g => GateDenied g
      | Allowed =>
          match ship_one x localPeer did state pdf jadesSignature pinned peer with
          | Err err => ShipFailed err
          | Ok _ => shipToPeers x localPeer did state pdf jadesSignature pinned rest
          end
      end
  end.

(** ** Bookkeeping *)
Definition recordShipOutcome (did : string) (shipError : option error) (gateErr : option GateError) : FHandler () :=
  shouldRecordIncident ← transact (match shipError with
    | Some _ => within "could not create or update sync fail entry" (CreateOrUpdateSyncFailEntry did (bool_decide (is_Some gateErr)))
    | None => _ ← within "could not delete sync fail entry" (DeleteSyncFailEntry did); mret false
    end);
  _ ← (match shouldRecordIncident, gateErr with
       | true, Some g => logged (RecordDenialIncident did Outbound g)
       | _, _ => mret tt
       end);
  match shipError with Some err => fail err | None => mret tt end.

Definition clearSyncFailWithIncident (did : string) (g : GateError) : FHandler () := transact (
  _ ← within "could not delete sync fail entry" (DeleteSyncFailEntry did);
  within "could not record trust gate denial incident" (HandleTxDeduped did Outbound g)).

(** The outcome of a round, with the final denials set apart. *)
Definition settle_outcome (did : string) (o : ship_outcome) : FHandler () :=
  match o with
  | GateDenied g =>
      if bool_decide (g_Kind g = PolicyFailure) then logged (clearSyncFailWithIncident did g)
      else recordShipOutcome did (Some (gate_error g)) (Some g)
  | _ => recordShipOutcome did (ship_error o) None
  end.

(** The two reads a ship starts from. *)
Definition read_for_ship (did : string) : FTx (Contract * PDFState) :=
  contract ← within "could not read contract" (ReadDataByDID did);
  pdfState ← within "could not read PDF state" (ReadPDFState did);
  mret (contract, pdfState).

Definition shipContractPDF (did : string) : FHandler () :=
  localPeer ← own_id;
  read ← transact (read_for_ship did);
  let contract := (read : Contract * PDFState).1 in let pdfState := (read : Contract * PDFState).2 in
  if negb (bool_decide (c_state contract ∈ shippableStates)) then mret tt else
  if bool_decide (IPFSCID pdfState = EmptyString)
  then recordShipOutcome did (Some (Errorf "contract is shippable but its PDF is not stored yet")) None else
  if holdsSupersededPDF pdfState contract
  then recordShipOutcome did (Some (Errorf "contract holds a PDF rendered from a superseded document")) None else
  match c_responsible contract with
  | None => fail (Panic "invalid memory address or nil pointer dereference")
  | Some r =>
      pdf ← (λ x s, (match GetArtifact (x_artifacts x) did (IPFSCID pdfState) with
                     | Ok [] => Err (Errorf "fetch PDF from IPFS")
                     | r => wrap_err "fetch PDF from IPFS" r end, s));
      jadesSignature ← (λ x s, (jadesForSignedContract (x_own x) (x_nanos x) contract, s));
      pinned ← outcome (pinnedShapesForContract contract);
      match pinned with
      | Err err => recordShipOutcome did (Some err) None
      | Ok pinnedShapes =>
          o ← look (λ x _, shipToPeers x localPeer did (state_String (c_state contract)) pdf jadesSignature pinnedShapes
                             (GetParties r));
          settle_outcome did o
      end
  end.

(** ** The two jobs *)

(** The handler of the event subscription: the source, the type and the data of an
    event.  What it reports is logged. *)
Definition syncHandler (source type_ : string) (data : bytes) : FHandler () :=
  let ship := match didFromEvent data with Ok did => logged (shipContractPDF did) | Err _ => mret tt end in
  let source := ToUpper source in
  if bool_decide (source = "CONTRACT_WORKFLOW_ENGINE") then
    _ ← (if bool_decide (type_ ∈ ["SUBMIT_CONTRACT"; "REJECT_CONTRACT"])
         then match didFromEvent data with Ok did => shipSettlementWithdrawals did | Err _ => mret tt end
         else mret tt : FHandler ());
    if bool_decide (type_ = "SUBMIT_CONTRACT")
    then match settlementFromEvent data with
         | Ok (did, true) => logged (shipSettlement did)
         | _ => mret tt
         end
    else if bool_decide (type_ ∈ ["PDF_REGENERATED"; "OFFER_CONTRACT"]) then ship else mret tt
  else if bool_decide (source = "SIGNATURE_MANAGEMENT")
  then if bool_decide (ToUpper type_ ∈ ["APPLIED_SIGNATURE"; "REVOKE_SIGNATURE"]) then ship else mret tt
  else mret tt.

(** One tick of the retry scheduler. *)
Definition retry_tick (interval : Z) : FHandler () :=
  syncFails ← or_nothing (transact (within "failed to read sync fail entries"
                (GetPendingSyncFails interval maxShipRetryBackoff shipRetriesPerPass)));
  _ ← each (λ f, logged (shipContractPDF (sf_did f))) syncFails;
  _ ← retryUndeliveredSettlements;
  retryUndeliveredSettlementWithdrawals.

End shipping.
