(* ===== verification/PeerReceipt.v ===== *)
(** Receiving a contract PDF from a peer: PostPdf and GetProvenance of
    internal/service/dcs_to_dcs.go.

    pdf-core answers through [PdfCore]; the key table of the artifact store has its
    own model ([ArtifactStore]), here it answers through [x_artifacts]. *)
From S2P Require Import Prelude Json Sha256 Envelope Scopes ArtifactStore ContractState Store Repos Transactions Handlers DidWeb Document Authoring Anchors.
From S2P Require Import Ceremonies Receive Lifecycle SemanticHub DidDocument PeerIdentity Jades TrustGate Erasure Store Federation Settling Shipping.
Import GoStrings.

(** The client of pdf-core. *)
Class PdfCore := {
  (** Whether the pages are the render of the embedded payload; what differs if not. *)
  VerifyContent : bytes → result (bool * string);
  ExtractPayload : bytes → result bytes;
  ExtractEvidence : bytes → result (list json)
}.

Section receipt.
Context {I : IdentityServices} {J : JadesServices} {T : TrustServices} {A : ArtifactServices} {P : PdfCore}.

Definition assertionKeyOf (own : DIDDocument) (localPeer peerDID : string) (peerDocument : DIDDocument)
    (ownerDID methodID : string) : result point :=
  if SameDIDWeb ownerDID localPeer then AssertionKey (Some own) methodID else
  if SameDIDWeb ownerDID peerDID then AssertionKey (Some peerDocument) methodID else
  document ← wrap_err "resolve the did document of the signing instance" (FetchDIDDocument ownerDID);
  AssertionKey (Some document) methodID.

(** [received_at] is the database's. *)
Definition verifyShippedJades (jws contractIRI fromPeerDID : string) (pdfPayload : bytes) (remote : DIDDocument) :
    result SyncSignature :=
  jadesPayload ← asserted_by remote jws;
  j ← wrap_err "could not decode JAdES payload" (DecodeJSON jadesPayload);
  m ← wrap_err "could not decode JAdES payload" (Unmarshal_map j);
  claimed ← wrap_err "could not decode JAdES payload" (ArtifactStore.string_field m "dcs:contractDid");
  version ← wrap_err "could not decode JAdES payload" (Merging.int_field m "dcs:contractVersion");
  if negb (bool_decide (claimed = contractIRI)) then Err (Errorf "JAdES payload binds another contract") else
  document ← DecodeJSON pdfPayload;
  expected ← BuildContractPayload claimed (default 0 version) document;
  if negb (bool_decide (jadesPayload = expected))
  then Err (Errorf "JAdES payload does not match the contract document embedded in the shipped PDF") else
  Ok {| ss_DID := contractIRI; ss_ContractVersion := default 0 version; ss_FromPeerDID := fromPeerDID;
        ss_JadesSignature := jws; ss_ReceivedAt := ContractRepo.time_zero |}.

Definition rejected (msg : string) (err : error) : error := BadRequest (Wrapf msg err).

(** The evidence in the PDF, against the keys of the instances it names. *)
Definition evidence_gate (x : FEnv) (req : PdfRequest) (remote : DIDDocument) (localPeer : string) (evidence : list json) :
    verdict :=
  PoA_Check (x_poa x) (pr_FromPeerDid req) localPeer (pr_ContractIri req)
    {| VerifyVC := Some VerifyDataIntegrityProof;
       ResolveKey := Some (assertionKeyOf (x_own x) localPeer (pr_FromPeerDid req) remote) |} evidence.

(** A denial is reported before the ship is refused. *)
Definition denied_unless (req : PdfRequest) (v : verdict) : FHandler () :=
  match v with
  | Allowed => mret tt
  | Denied g => _ ← logged (RecordDenialIncident (pr_ContractIri req) Inbound g);
                fail (rejected "shipped a Power of Attorney that does not verify" (gate_error g))
  end.

(** What passes every check: the decoded payload, the signature to keep, the
    libraries to install. *)
Record accepted_ship := {
  a_payload : json;
  a_signature : option SyncSignature;
  a_install : list SemanticHub.Schema
}.

Definition checked_ship (req : PdfRequest) (remote : DIDDocument) (localPeer : string) : FHandler accepted_ship :=
  content ← classified (rejected "could not content-verify received PDF") (answer (VerifyContent (pr_Pdf req)));
  _ ← fail_if (negb (content : bool * string).1)
        (BadRequest (Errorf "received PDF's page content does not match its embedded payload"));
  payload ← classified (rejected "could not extract contract payload from PDF") (answer (ExtractPayload (pr_Pdf req)));
  signature ← (match pr_JadesSignature req with
    | Some jws =>
        if bool_decide (jws = EmptyString) then mret None else
        sig ← classified (rejected "post_pdf rejected")
                (answer (verifyShippedJades jws (pr_ContractIri req) (pr_FromPeerDid req) payload remote));
        mret (Some sig)
    | None => mret None
    end : FHandler (option SyncSignature));
  evidence ← classified (rejected "could not extract the signing evidence") (answer (ExtractEvidence (pr_Pdf req)));
  v ← look (λ x _, evidence_gate x req remote localPeer evidence);
  _ ← denied_unless req v;
  document ← classified (rejected "the shapes the contract is pinned to cannot be assembled") (answer (DecodeJSON payload));
  install ← classified (rejected "the shapes the contract is pinned to cannot be assembled")
              (PlanPinnedShapes (pr_FromPeerDid req) document (pr_PinnedShapes req));
  mret {| a_payload := document; a_signature := signature; a_install := install |}.

(** A scope whose keys are shredded refuses, anything else is internal. *)
Definition shred_or_internal (err : error) : error :=
  if IsShredded err then rejected "contract was erased on this instance (key shredded)" err else InternalError err.

Definition adopt (req : PdfRequest) : FHandler () :=
  match pr_WrappedCek req with
  | None => mret tt
  | Some wire =>
      wrapped ← classified (rejected "post_pdf rejected") (answer (EnvelopeWrappedCEK (Some wire)));
      classified shred_or_internal (λ x s, (AdoptPeerCEK (x_artifacts x) (pr_ContractIri req) wrapped, s))
  end.

Definition receive_cmd (req : PdfRequest) (localPeer : string) (document : json) : PeerPdfReceiveCmd :=
  {| Receive.ContractIRI := pr_ContractIri req; Receive.Counterparty := pr_FromPeerDid req; Receive.LocalPeer := localPeer;
     Payload := document; Pdf := pr_Pdf req; AdoptRevoked := bool_decide (pr_ContractState req = Some (state_String Revoked)) |}.

(** What an accepted ship writes, one transaction after another. *)
Definition store_ship (req : PdfRequest) (localPeer : string) (a : accepted_ship) : FHandler () :=
  _ ← adopt req;
  _ ← classified shred_or_internal (transact (on_base (Receive.Handle (receive_cmd req localPeer (a_payload a)))));
  _ ← (match a_signature a with
       | Some sig => classified InternalError (transact (UpsertSyncSignature sig))
       | None => mret tt
       end : FHandler ());
  classified (λ err, InternalError (Wrapf "install the shapes the contract is pinned to" err)) (InstallPinnedShapes (a_install a)).

Definition PostPdf (req : PdfRequest) : FHandler string :=
  peer ← authenticated_peer (pr_FromPeerDid req) (pr_ContractIri req) (pr_SecretValue req) (pr_SecretHash req);
  a ← checked_ship req (peer : DIDDocument * string).1 (peer : DIDDocument * string).2;
  _ ← store_ship req (peer : DIDDocument * string).2 a;
  mret (peer : DIDDocument * string).2.

Definition GetProvenance (did : string) : FHandler SyncSignature :=
  sig ← classified InternalError (transact (GetSyncSignature did));
  match sig with
  | Some sig => mret sig
  | None => fail (Ceremonies.NotFound (Errorf "no sync provenance stored for contract"))
  end.

End receipt.
