(* ===== verification/ShippingLaws.v ===== *)
(** What becomes of a ship: it reached every party, waits in the retry queue, was
    denied for good with an incident on record, or failed before the queue was
    reached; and what a tick of the retry scheduler does with the queue. *)
From S2P Require Import Prelude Json Sha256 Envelope Scopes ArtifactStore ContractState Store Repos Transactions Handlers DidWeb Document Authoring Anchors.
From S2P Require Import Receive Lifecycle SemanticHub HubLaws DidDocument PeerIdentity Jades TrustGate Store Federation Settling SettlingLaws Shipping.
Import GoStrings.

Section shipping.
Context {I : IdentityServices} {J : JadesServices} {T : TrustServices} {A : ArtifactServices}.

(** ** The queue *)
Definition awaiting (did : string) (s : FStore) : Prop := ∃ f, f ∈ sync_fails s ∧ sf_did f = did.
Definition latched (did : string) (s : FStore) : bool :=
  existsb (λ f, is_fail did f && sf_gate_incident_recorded f) (sync_fails s).

(** One entry for each contract. *)
Definition queue_keyed (s : FStore) : Prop := NoDup (sf_did <$> sync_fails s).

Definition queued (did : string) (now : Z) (gate : bool) (l : list SyncFail) : list SyncFail :=
  match List.find (is_fail did) l with
  | Some _ => update_where (is_fail did) (retried now gate) l
  | None => l ++ [{| sf_did := did; sf_retry_count := 0; sf_last_tried_at := now; sf_gate_incident_recorded := gate |}]
  end.

Definition cleared (did : string) (l : list SyncFail) : list SyncFail := rows_where (λ f, negb (is_fail did f)) l.

Definition reported_denial (did : string) (g : GateError) (s : FStore) : FStore :=
  set_base (set_outbox (λ l, l ++ [denial_event did Outbound g])) s.

Lemma is_fail_true did f : is_fail did f = true ↔ sf_did f = did.
Proof. apply bool_decide_eq_true. Qed.

Lemma latched_find did s : queue_keyed s →
  latched did s = default false (sf_gate_incident_recorded <$> List.find (is_fail did) (sync_fails s)).
Proof.
  intros HN. unfold latched. destruct (List.find (is_fail did) (sync_fails s)) as [f|] eqn:E.
  - apply find_Some in E as [Hf Hd%is_fail_true]. cbn. apply eq_true_iff_eq. rewrite existsb_true_iff. split.
    + intros (g & Hg & [Hgd%is_fail_true Hl]%andb_true_iff).
      by rewrite (key_unique sf_did _ f g HN Hf Hg) by congruence.
    + intros Hl. exists f. split; [done|]. apply andb_true_iff. by rewrite is_fail_true.
  - cbn. apply existsb_false_iff. intros f Hf. rewrite find_None in E. unfold exists_where in E.
    rewrite existsb_false_iff in E. by rewrite (E f Hf).
Qed.

Lemma queued_entry did now gate l : ∃ f, f ∈ queued did now gate l ∧ sf_did f = did ∧ sf_last_tried_at f = now ∧
  (gate = true → sf_gate_incident_recorded f = true).
Proof.
  unfold queued. destruct (List.find (is_fail did) l) as [f|] eqn:E.
  - apply find_Some in E as [Hf Hd]. exists (retried now gate f).
    split; [apply elem_of_update_where; exists f; by rewrite Hd|]. apply is_fail_true in Hd. split_and!; try done.
    intros ->. cbn. by rewrite orb_true_r.
  - eexists. split; [apply elem_of_app; right; left|]. by split_and!.
Qed.

Lemma cleared_gone did s l : ¬ awaiting did (set_sync_fails (λ _, cleared did l) s).
Proof.
  intros (f & [Hf Hn]%elem_of_rows_where & Hd). apply negb_true_iff in Hn. apply is_fail_true in Hd. congruence.
Qed.

(** ** Bookkeeping *)
Lemma RecordDenialIncident_runs did g (x : FEnv) s : did ≠ EmptyString →
  RecordDenialIncident did Outbound g x s = (Ok (), reported_denial did g s).
Proof.
  intros Hd. unfold RecordDenialIncident, transact, commit, HandleTx, reject_if, mbind, txn_bind, within, on_base, CreateEvent.
  rewrite bool_decide_eq_false_2 by done. cbn. rewrite (bool_decide_eq_false_2 (did = _)) by done. done.
Qed.

Lemma denied_same did g : same_denial did Outbound g (denial_event did Outbound g) = true.
Proof.
  unfold same_denial, denial_event. cbn [o_event_type o_did o_body]. rewrite !bool_decide_eq_true_2; set_solver.
Qed.

(** The final denial: the entry goes and one incident of the kind is on record. *)
Lemma clear_runs did g (x : FEnv) s : did ≠ EmptyString →
  ∃ s', clearSyncFailWithIncident did g x s = (Ok (), s') ∧ sync_fails s' = cleared did (sync_fails s) ∧
    f_hub s' = f_hub s ∧ provenance s' = provenance s ∧
    exists_where (same_denial did Outbound g) (outbox (f_base s')) = true ∧
    (f_base s' = f_base s ∨ f_base s' = set_outbox (λ l, l ++ [denial_event did Outbound g]) (f_base s)).
Proof.
  intros Hd. unfold clearSyncFailWithIncident, transact, commit, DeleteSyncFailEntry, HandleTxDeduped, HandleTx, reject_if, mbind,
    txn_bind, within, exec, query, on_base, CreateEvent, only_if.
  rewrite bool_decide_eq_false_2 by done. unfold mret, txn_ret.
  cbn [f_base set_sync_fails].
  destruct (exists_where (same_denial did Outbound g) (outbox (f_base s))) eqn:E; cbn [negb].
  - eexists. split; [reflexivity|]. by split_and!; [..|left].
  - rewrite (bool_decide_eq_false_2 (o_did _ = _)) by done. cbn. eexists. split; [reflexivity|]. split_and!; try done; [|by right].
    apply exists_where_true. eexists. split; [apply elem_of_app; right; left|apply denied_same].
Qed.

Lemma record_failure did err g (x : FEnv) s : did ≠ EmptyString → queue_keyed s →
  recordShipOutcome did (Some err) g x s =
  (Err err, let s1 := set_sync_fails (queued did (x_now x) (bool_decide (is_Some g))) s in
            match g with Some g => if latched did s then s1 else reported_denial did g s1 | None => s1 end).
Proof.
  intros Hd HN. unfold recordShipOutcome. rewrite (latched_find did s HN).
  set (entry := List.find (is_fail did) (sync_fails s)).
  eapply (handler_then _ _ _ _ (bool_decide (is_Some g) && negb (default false (sf_gate_incident_recorded <$> entry)))
    (set_sync_fails (queued did (x_now x) (bool_decide (is_Some g))) s)); [reflexivity|].
  destruct g as [g|]; [|reflexivity]. rewrite bool_decide_eq_true_2 by done. cbn [andb].
  destruct (default false (sf_gate_incident_recorded <$> entry)); [reflexivity|]. cbn [negb].
  eapply (handler_then _ _ _ _ ()); [|reflexivity]. unfold logged. eapply handler_then; [|reflexivity].
  unfold outcome. by rewrite RecordDenialIncident_runs.
Qed.

Lemma record_success did (x : FEnv) s :
  recordShipOutcome did None None x s = (Ok (), set_sync_fails (cleared did) s).
Proof. reflexivity. Qed.

(** ** The round of ships *)
Definition shipped_to (x : FEnv) (me did state : string) (pdf : bytes) (peer : string) : Prop :=
  Check peer Outbound did state (x_nanos x) = Allowed ∧
  ∃ req, x_post_pdf x peer req = Ok () ∧ pr_FromPeerDid req = me ∧ pr_ContractIri req = did ∧ pr_Pdf req = pdf ∧
    pr_ContractState req = Some state.

Lemma ship_one_Ok (x : FEnv) me did state pdf jws pinned peer :
  ship_one x me did state pdf jws pinned peer = Ok () →
  ∃ req, x_post_pdf x peer req = Ok () ∧ pr_FromPeerDid req = me ∧ pr_ContractIri req = did ∧ pr_Pdf req = pdf ∧
    pr_ContractState req = Some state.
Proof.
  unfold ship_one, mbind, result_bind. destruct (wrap_err _ (FetchDIDDocument peer)); [|done].
  destruct (wrap_err _ (PeerKeyAgreementMethod _)); [|done]. destruct (wrap_err _ (ECPublicKey _)); [|done].
  destruct (wrap_err _ (WrapForPeer _ _ _ _ _)); [|done]. destruct (DIDWebPath peer); [|done].
  destruct (DidDocument.Sign _ _); [|done]. intros HP. eexists. split; [exact HP|done].
Qed.

Lemma shipToPeers_cases (x : FEnv) me did state pdf jws pinned recipients :
  match shipToPeers x me did state pdf jws pinned recipients with
  | Shipped => ∀ peer, peer ∈ recipients → peer ≠ me → shipped_to x me did state pdf peer
  | GateDenied g => ∃ peer, peer ∈ recipients ∧ peer ≠ me ∧ Check peer Outbound did state (x_nanos x) = Denied g
  | ShipFailed err => ∃ peer, peer ∈ recipients ∧ peer ≠ me ∧ Check peer Outbound did state (x_nanos x) = Allowed ∧
      ship_one x me did state pdf jws pinned peer = Err err
  end.
Proof.
  induction recipients as [|peer rest IH]; [by intros peer ?%elem_of_nil|]. cbn [shipToPeers].
  case_bool_decide as Hp.
  { destruct (shipToPeers _ _ _ _ _ _ _ rest); [|destruct IH as (p & ? & ?); exists p; split; [by right|done]..].
    intros p [->|Hin]%elem_of_cons Hne; [done|by apply IH]. }
  destruct (Check peer Outbound did state (x_nanos x)) as [|g] eqn:Ec; [|exists peer; split; [left|done]].
  destruct (ship_one _ _ _ _ _ _ _ peer) as [[]|] eqn:Es; [|exists peer; split; [left|done]].
  destruct (shipToPeers _ _ _ _ _ _ _ rest); [|destruct IH as (p & ? & ?); exists p; split; [by right|done]..].
  intros p [->|Hin]%elem_of_cons Hne; [|by apply IH]. split; [done|by eapply ship_one_Ok].
Qed.

(** ** Reads leave the store alone *)
Lemma observes_hub_Get name kind v : observes (SemanticHub.Get (E := FEnv) (S := FStore) name kind v).
Proof. unfold SemanticHub.Get. evolves_tac. Qed.

Lemma quiet_transact {B} (m : FTx B) : observes m → stays eq (transact m).
Proof. intros Hm. apply stays_transact; [apply _|]. by apply evolves_observes; [apply _|]. Qed.

Lemma quiet_or_if_not_found {B} (m other : FHandler B) :
  stays eq m → stays eq other → stays eq (or_if_not_found m other).
Proof. intros H1 H2. unfold or_if_not_found. stays_tac. Qed.

Lemma quiet_Collect refs : stays eq (CollectPinnedShapes (E := FEnv) (S := FStore) refs).
Proof.
  induction refs as [|[name v] refs IH]; cbn [CollectPinnedShapes]; [by intros x s|].
  destruct (IsEnvelopeShapes name); [done|]. apply stays_bind; [apply _| |].
  - apply stays_labelled, quiet_or_if_not_found; apply quiet_transact, observes_hub_Get.
  - intros schema. apply stays_bind; [apply _|exact IH|]. by intros entries x s.
Qed.

Lemma quiet_pinned contract : stays eq (pinnedShapesForContract contract).
Proof.
  unfold pinnedShapesForContract, PinnedShapesForDocument. apply stays_labelled. apply stays_bind; [apply _|by intros x s|].
  intros refs. destruct (bool_decide _); [by intros x s|apply quiet_Collect].
Qed.

(** ** A ship *)

(** The row a ship reads, in a state whose PDF is shipped. *)
Record shippable (did me : string) (x : FEnv) (s : FStore) (row : Contract) (r : Responsible) : Prop := {
  sh_did : did ≠ EmptyString;
  sh_me : DocumentID (x_own x) = Ok me;
  sh_row : contracts (f_base s) !! did = Some row;
  sh_state : c_state (effective (x_now x) row) ∈ shippableStates;
  sh_responsible : c_responsible row = Some r;
  sh_queue : queue_keyed s
}.

(** The PDF reached every other party, and nothing is waiting. *)
Definition delivered_ship (did me : string) (x : FEnv) (s : FStore) (row : Contract) (r : Responsible) (res : result ()) (s' : FStore) :
    Prop :=
  res = Ok () ∧ s' = set_sync_fails (cleared did) s ∧
  ∃ pdf, GetArtifact (x_artifacts x) did (IPFSCID (c_pdf row)) = Ok pdf ∧
    ∀ peer, peer ∈ GetParties r → peer ≠ me →
      shipped_to x me did (state_String (c_state (effective (x_now x) row))) pdf peer.

(** Why a ship that no gate denied was not made: there is no PDF yet, or the stored
    one is of an earlier version, or the shapes it pins could not be collected, or a
    party the gate admits was not reached. *)
Definition unsent (did me : string) (x : FEnv) (s : FStore) (row : Contract) (r : Responsible) (err : error) : Prop :=
  IPFSCID (c_pdf row) = EmptyString ∨ holdsSupersededPDF (c_pdf row) (effective (x_now x) row) = true ∨
  is_ok (pinnedShapesForContract (effective (x_now x) row) x s).1 = false ∨
  ∃ pdf jws pinned peer, GetArtifact (x_artifacts x) did (IPFSCID (c_pdf row)) = Ok pdf ∧ peer ∈ GetParties r ∧ peer ≠ me ∧
    Check peer Outbound did (state_String (c_state (effective (x_now x) row))) (x_nanos x) = Allowed ∧
    ship_one x me did (state_String (c_state (effective (x_now x) row))) pdf jws pinned peer = Err err.

(** The contract waits in the queue as of now; the first time the trust gate was in
    the way, that is on record. *)
Definition queued_ship (did me : string) (x : FEnv) (s : FStore) (row : Contract) (r : Responsible) (res : result ()) (s' : FStore) :
    Prop :=
  ∃ err gate, res = Err err ∧ sync_fails s' = queued did (x_now x) (bool_decide (is_Some gate)) (sync_fails s) ∧
    f_base s' = (match gate with
      | Some g => if latched did s then f_base s else set_outbox (λ l, l ++ [denial_event did Outbound g]) (f_base s)
      | None => f_base s end) ∧
    match gate with
    | Some g => g_Kind g ≠ PolicyFailure ∧ ∃ peer, peer ∈ GetParties r ∧ peer ≠ me ∧
        Check peer Outbound did (state_String (c_state (effective (x_now x) row))) (x_nanos x) = Denied g
    | None => unsent did me x s row r err
    end.

(** The policy endpoint denied it: nothing waits, and an incident of this denial is
    on record. *)
Definition denied_ship (did me : string) (x : FEnv) (s : FStore) (row : Contract) (r : Responsible) (res : result ()) (s' : FStore) :
    Prop :=
  res = Ok () ∧ ∃ g peer, sync_fails s' = cleared did (sync_fails s) ∧ peer ∈ GetParties r ∧ peer ≠ me ∧
    Check peer Outbound did (state_String (c_state (effective (x_now x) row))) (x_nanos x) = Denied g ∧
    g_Kind g = PolicyFailure ∧ exists_where (same_denial did Outbound g) (outbox (f_base s')) = true ∧
    (f_base s' = f_base s ∨ f_base s' = set_outbox (λ l, l ++ [denial_event did Outbound g]) (f_base s)).

(** The PDF is stored and current, and it could not be read or its JAdES not be
    made: the attempt leaves no trace. *)
Definition untraced_ship (did : string) (x : FEnv) (s : FStore) (row : Contract) (res : result ()) (s' : FStore) : Prop :=
  is_ok res = false ∧ s' = s ∧
  ((∀ pdf, GetArtifact (x_artifacts x) did (IPFSCID (c_pdf row)) = Ok pdf → pdf = []) ∨
   is_ok (jadesForSignedContract (x_own x) (x_nanos x) (effective (x_now x) row)) = false).

Lemma settle_outcome_cases did me (x : FEnv) s row r pdf jws pinned :
  shippable did me x s row r → GetArtifact (x_artifacts x) did (IPFSCID (c_pdf row)) = Ok pdf →
  let state := state_String (c_state (effective (x_now x) row)) in
  let run := settle_outcome did (shipToPeers x me did state pdf jws pinned (GetParties r)) x s in
  f_hub run.2 = f_hub s ∧ provenance run.2 = provenance s ∧
  (delivered_ship did me x s row r run.1 run.2 ∨ queued_ship did me x s row r run.1 run.2 ∨ denied_ship did me x s row r run.1 run.2).
Proof.
  intros [Hd _ _ _ _ HN] Hpdf state. pose proof (shipToPeers_cases x me did state pdf jws pinned (GetParties r)) as Hc.
  destruct (shipToPeers _ _ _ _ _ _ _ _) as [|g|err]; cbn [settle_outcome ship_error].
  - rewrite record_success. cbn. split_and!; [done..|]. left. split; [done|]. split; [done|]. by exists pdf.
  - destruct Hc as (peer & Hp & Hne & Hg). case_bool_decide as Hk.
    + destruct (clear_runs did g x s Hd) as (s' & Hrun & Hq & Hh & Hpv & Hin & Hb).
      assert (logged (clearSyncFailWithIncident did g) x s = (Ok (), s')) as ->.
      { unfold logged. eapply handler_then; [unfold outcome; by rewrite Hrun|done]. }
      cbn. split_and!; [done..|]. right. right. split; [done|]. exists g, peer. by split_and!.
    + rewrite record_failure by done. cbn. split_and!; [by destruct (latched did s)..|]. right. left.
      exists (gate_error g), (Some g). split; [done|]. rewrite bool_decide_eq_true_2 by done.
      split; [by destruct (latched did s)|]. split; [by destruct (latched did s)|]. split; [done|]. by exists peer.
  - rewrite record_failure by done. cbn. split_and!; [done..|]. right. left. exists err, None. split_and!; try done.
    destruct Hc as (peer & Hp & Hne & Hg & He). right. right. right. by exists pdf, jws, pinned, peer.
Qed.

Lemma read_for_ship_runs did (x : FEnv) s row : contracts (f_base s) !! did = Some row →
  transact (read_for_ship did) x s = (Ok (effective (x_now x) row, c_pdf row), s).
Proof.
  intros Hrow. unfold transact, commit, read_for_ship, mbind, txn_bind, within, ReadDataByDID, ReadPDFState, on_base,
    ContractRepo.ReadDataByDID, ContractRepo.ReadPDFState. rewrite Hrow. cbn [f_base set_base]. rewrite Hrow. by destruct s.
Qed.


End shipping.
