(* ===== verification/ReceiptLaws.v ===== *)
(** What a received PDF has to carry before anything of it is stored. *)
From S2P Require Import Prelude Json Sha256 Envelope Scopes ArtifactStore ContractState Store Repos Transactions Handlers DidWeb Document Authoring Anchors.
From S2P Require Import Receive Lifecycle SemanticHub HubLaws DidDocument PeerIdentity Jades TrustGate Erasure Store Federation Settling SettlingLaws Shipping ShippingLaws PeerReceipt.
Import GoStrings.

Section receipt.
Context {I : IdentityServices} {J : JadesServices} {T : TrustServices} {A : ArtifactServices} {P : PdfCore}.

(** The bytes the shipper signed, with a key it publishes for assertions, are the
    contract's identifier, a version and the document. *)
Definition signed_contract (remote : DIDDocument) (jws did : string) (document : json) (version : Z) : Prop :=
  ∃ payload, asserted_by remote jws = Ok payload ∧ BuildContractPayload did version document = Ok payload.

(** What the ship carries for the provenance of the agreement. *)
Definition carried_signature (req : PdfRequest) (remote : DIDDocument) (document : json) (sig : option SyncSignature) : Prop :=
  match pr_JadesSignature req with
  | Some jws =>
      if bool_decide (jws = EmptyString) then sig = None else
      ∃ version, signed_contract remote jws (pr_ContractIri req) document version ∧
        sig = Some {| ss_DID := pr_ContractIri req; ss_ContractVersion := version; ss_FromPeerDID := pr_FromPeerDid req;
                      ss_JadesSignature := jws; ss_ReceivedAt := ContractRepo.time_zero |}
  | None => sig = None
  end.

Lemma verifyShippedJades_Ok jws did from payload remote document sig :
  verifyShippedJades jws did from payload remote = Ok sig → DecodeJSON payload = Ok document →
  ∃ version, signed_contract remote jws did document version ∧
    sig = {| ss_DID := did; ss_ContractVersion := version; ss_FromPeerDID := from; ss_JadesSignature := jws;
             ss_ReceivedAt := ContractRepo.time_zero |}.
Proof.
  unfold verifyShippedJades, mbind, result_bind. intros H Hd.
  destruct (asserted_by remote jws) as [signed|] eqn:Ea; [|done]. destruct (wrap_err _ (DecodeJSON signed)); [|done].
  destruct (wrap_err _ (Unmarshal_map _)) as [m|]; [|done]. destruct (wrap_err _ (ArtifactStore.string_field m _)) as [claimed|]; [|done].
  destruct (wrap_err _ (Merging.int_field m _)) as [version|]; [|done].
  case_bool_decide as Hc; [|done]. cbn [negb] in H. subst claimed. rewrite Hd in H.
  destruct (BuildContractPayload _ _ _) as [expected|] eqn:Eb; [|done]. case_bool_decide as Hp; [|done]. cbn [negb] in H.
  injection H as <-. subst expected. exists (default 0 version). split; [|done]. by exists signed.
Qed.

(** Everything a ship is checked for, against the store as it was. *)
Record vouched_for (req : PdfRequest) (x : FEnv) (s : FStore) (me : string) (document : json) (sig : option SyncSignature) : Prop := {
  v_me : DocumentID (x_own x) = Ok me;
  v_other : ¬ same_peer (pr_FromPeerDid req) me;
  v_gate : Check (pr_FromPeerDid req) Inbound (pr_ContractIri req) EmptyString (x_nanos x) = Allowed;
  v_content : ∃ detail, VerifyContent (pr_Pdf req) = Ok (true, detail);
  v_payload : ∃ payload, ExtractPayload (pr_Pdf req) = Ok payload ∧ DecodeJSON payload = Ok document;
  v_peer : ∃ remote evidence, FetchDIDDocument (pr_FromPeerDid req) = Ok remote ∧
    VerifyPeerChallenge remote (x_roots x) (pr_SecretValue req) (pr_SecretHash req) = Ok () ∧
    carried_signature req remote document sig ∧
    ExtractEvidence (pr_Pdf req) = Ok evidence ∧ evidence_gate x req remote me evidence = Allowed;
  v_shapes : ∃ install, PlanPinnedShapes (pr_FromPeerDid req) document (pr_PinnedShapes req) x s = (Ok install, s)
}.

(** ** Planning only reads *)
Lemma quiet_held ref : stays eq (heldPinnedShapes (E := FEnv) (S := FStore) ref).
Proof.
  unfold heldPinnedShapes. apply stays_labelled, quiet_or_if_not_found; [|apply quiet_or_if_not_found; [|by intros ? ?]];
    (apply stays_bind; [apply _|apply quiet_transact, observes_hub_Get|by intros h ? ?]).
Qed.

Lemma quiet_plan from document wire : stays eq (PlanPinnedShapes from document wire).
Proof.
  unfold PlanPinnedShapes, PlanPinnedShapesImport. apply stays_bind; [apply _|by intros ? ?|]. intros refs.
  apply stays_bind; [apply _|by intros ? ?|]. intros carried.
  clear. induction refs as [|ref refs IH]; cbn [plan_refs]; [by intros ? ?|]. destruct (IsEnvelopeShapes ref.1); [done|].
  apply stays_bind; [apply _|apply quiet_held|]. intros [h|]; destruct (carried !! ref).
  - destruct (bool_decide _); [done|by intros ? ?].
  - done.
  - apply stays_bind; [apply _|exact IH|]. by intros ? ? ?.
  - by intros ? ?.
Qed.

Lemma denied_unless_Ok req v (x : FEnv) s u s' : denied_unless req v x s = (Ok u, s') → v = Allowed ∧ s' = s.
Proof. unfold denied_unless. destruct v; intros HR; handler_inv; done. Qed.

Lemma checked_ship_Ok req remote me (x : FEnv) s a s' :
  checked_ship req remote me x s = (Ok a, s') →
  s' = s ∧ ∃ detail payload evidence,
    VerifyContent (pr_Pdf req) = Ok (true, detail) ∧ ExtractPayload (pr_Pdf req) = Ok payload ∧
    DecodeJSON payload = Ok (a_payload a) ∧ carried_signature req remote (a_payload a) (a_signature a) ∧
    ExtractEvidence (pr_Pdf req) = Ok evidence ∧ evidence_gate x req remote me evidence = Allowed ∧
    PlanPinnedShapes (pr_FromPeerDid req) (a_payload a) (pr_PinnedShapes req) x s = (Ok (a_install a), s).
Proof.
  unfold checked_ship. intros HR. handler_inv.
  match goal with H : denied_unless _ _ _ _ = _ |- _ => apply denied_unless_Ok in H as [? ->] end.
  match goal with H : PlanPinnedShapes ?f ?d ?w x ?s1 = _ |- _ =>
    pose proof (quiet_plan f d w x s1) as Hq; rewrite H in Hq; cbn in Hq; subst s1 end.
  match goal with H : VerifyContent _ = Ok ?c |- _ => destruct c as [[] detail]; [|done] end.
  match goal with H : match pr_JadesSignature req with _ => _ end x s = _ |- _ => rename H into Hsig end.
  match type of Hsig with _ = (Ok ?sig, ?s1) => match goal with H : DecodeJSON _ = Ok ?d |- _ =>
    assert (s1 = s ∧ carried_signature req remote d sig) as [-> Hc] end end.
  { unfold carried_signature. destruct (pr_JadesSignature req) as [jws|]; [|handler_inv; by split].
    destruct (bool_decide (jws = EmptyString)); handler_inv; [by split|]. split; [done|].
    match goal with H : verifyShippedJades _ _ _ _ _ = _ |- _ => destruct (verifyShippedJades_Ok _ _ _ _ _ _ _ H ltac:(eassumption)) as (v & ? & ->) end.
    by exists v. }
  cbn [a_payload a_signature a_install]. split; [done|]. by eexists _, _, _.
Qed.

Lemma reported_bind {B C} (m : FHandler B) (f : B → FHandler C) (x : FEnv) s :
  stays eq m → (∀ a, reported s (f a x s).2) → reported s ((m ≫= f) x s).2.
Proof.
  intros Hm Hf. specialize (Hm x s). unfold mbind, handler_bind. destruct (m x s) as [[a|err] s1]; cbn [snd] in *; subst s1; [done|by left].
Qed.

Lemma reported_denied {C} req v (f : FHandler C) (x : FEnv) s :
  reported s (f x s).2 → reported s ((_ ← denied_unless req v; f) x s).2.
Proof.
  intros Hf. unfold denied_unless. destruct v as [|g]; [done|]. unfold mbind, handler_bind.
  pose proof (RecordDenialIncident_base (pr_ContractIri req) Inbound g x s) as Hb. unfold logged, outcome, mbind, handler_bind.
  destruct (RecordDenialIncident _ _ _ x s) as [r s1]. cbn [snd] in *. destruct Hb as [->| ->]; [by left|right; eauto].
Qed.

Lemma checked_ship_reports req remote me (x : FEnv) s : reported s (checked_ship req remote me x s).2.
Proof.
  unfold checked_ship. apply reported_bind; [stays_tac|]. intros content. apply reported_bind; [stays_tac|].
  intros _. apply reported_bind; [stays_tac|]. intros payload. apply reported_bind; [stays_tac|].
  intros sig. apply reported_bind; [stays_tac|]. intros evidence. apply reported_bind; [stays_tac|]. intros v.
  apply reported_denied. apply reported_bind; [stays_tac|]. intros document.
  apply reported_bind; [apply stays_classified, quiet_plan|]. intros install. by left.
Qed.

(** ** What a stored ship changes *)
Definition only_hub (s s' : FStore) : Prop := f_base s' = f_base s ∧ provenance s' = provenance s.

#[local] Instance only_hub_preorder : PreOrder only_hub.
Proof. split; [done|]. intros s1 s2 s3 [? ?] [? ?]. split; congruence. Qed.

Lemma install_only_hub install : stays only_hub (InstallPinnedShapes install).
Proof.
  unfold InstallPinnedShapes, StorePinnedShapes. apply stays_each; [apply _|]. intros entry _. apply stays_labelled.
  unfold StorePeerShapes. apply stays_transact; [apply _|].
  unfold Register, resolveVersion, insert_schema, activateVersion. evolves_tac; by apply evolves_exec.
Qed.

(** The kept signature, as the database stamps it. *)
Definition stamped (at_ : Z) (sig : SyncSignature) : SyncSignature :=
  {| ss_DID := ss_DID sig; ss_ContractVersion := ss_ContractVersion sig; ss_FromPeerDID := ss_FromPeerDID sig;
     ss_JadesSignature := ss_JadesSignature sig; ss_ReceivedAt := at_ |}.
Definition kept (at_ : Z) (sig : option SyncSignature) (p : gmap string SyncSignature) : gmap string SyncSignature :=
  match sig with Some sig => <[ss_DID sig := stamped at_ sig]> p | None => p end.

Lemma store_ship_cases req me a (x : FEnv) s res s' :
  store_ship req me a x s = (res, s') →
  (s' = s ∧ is_ok res = false) ∨
  ∃ b, Receive.Handle (receive_cmd req me (a_payload a)) (x_env x) (f_base s) = Ok ((), b) ∧
    contracts (f_base s') = contracts b ∧ own_rows (f_hub s') = own_rows (f_hub s) ∧
    provenance s' = kept (x_now x) (a_signature a) (provenance s).
Proof.
  unfold store_ship. intros HR.
  assert (Hadopt : (adopt req x s).2 = s).
  { unfold adopt. destruct (pr_WrappedCek req) as [w|]; [|done]. unfold mbind, handler_bind, classified, answer.
    destruct (EnvelopeWrappedCEK _); [|done]. by destruct (AdoptPeerCEK _ _ _). }
  unfold mbind at 1, handler_bind at 1 in HR. destruct (adopt req x s) as [[[]|err] s1]; cbn [snd] in Hadopt; subst s1.
  2:{ injection HR as <- <-. by left. }
  unfold mbind at 1, handler_bind at 1, classified at 1 in HR.
  destruct (transact_cases (on_base (Receive.Handle (receive_cmd req me (a_payload a)))) x s) as [([] & s1 & Hrun & E)|[err E]];
    rewrite E in HR; [|injection HR as <- <-; by left].
  apply on_base_Ok in Hrun as (b & Hb & ->). right. exists b. split; [done|].
  assert (∃ s2, classified (λ err, InternalError (Wrapf "install the shapes the contract is pinned to" err))
      (InstallPinnedShapes (a_install a)) x s2 = (res, s') ∧ contracts (f_base s2) = contracts b ∧ f_hub s2 = f_hub s ∧
      provenance s2 = kept (x_now x) (a_signature a) (provenance s)) as (s2 & Hinst & Hc & Hh & Hp).
  { destruct (a_signature a) as [sig|]; eexists; (split; [exact HR|done]). }
  pose proof (install_only_hub (a_install a) x s2) as [Hb2 Hp2].
  pose proof (confined_StorePinnedShapes (HL := federation_hub_laws) (a_install a) x s2) as [_ Hown].
  assert (E2 : (InstallPinnedShapes (a_install a) x s2).2 = s').
  { unfold classified in Hinst. destruct (InstallPinnedShapes _ x s2) as [[?|?] ?]; by injection Hinst as _ <-. }
  unfold InstallPinnedShapes in E2. rewrite E2 in Hown. unfold InstallPinnedShapes in Hb2, Hp2. rewrite E2 in Hb2, Hp2.
  split_and!; [by rewrite Hb2| |by rewrite Hp2]. cbn [hub_rows federation_hub] in Hown. by rewrite Hown, Hh.
Qed.

(** C20: A peer's PDF is stored only when everything about it has been vouched for.
    Whatever a ship changes among the contracts, the provenance of received
    agreements or the hub, its shipper authenticated as another instance, passed
    the trust gate, shipped a PDF whose pages are the render of the payload it
    embeds, with evidence that the gate on Powers of Attorney admits and pinned
    shapes that assemble here; the contracts are then those of the receiving
    command run on that very payload, a provenance entry is an artifact the shipper
    signed over this contract and this document, and no row this instance
    publishes in its hub changed.  A ship that fails a check leaves at most the
    report of a denial. *)
Theorem only_vouched_for_ships_are_stored (req : PdfRequest) (x : FEnv) (s s' : FStore) (res : result string) :
  PostPdf req x s = (res, s') →
  reported s s' ∧ is_ok res = false ∨
  ∃ me document sig b, vouched_for req x s me document sig ∧
    Receive.Handle (receive_cmd req me document) (x_env x) (f_base s) = Ok ((), b) ∧
    contracts (f_base s') = contracts b ∧ own_rows (f_hub s') = own_rows (f_hub s) ∧
    provenance s' = kept (x_now x) sig (provenance s).
Proof.
  intros HR. unfold PostPdf in HR. unfold mbind at 1, handler_bind at 1 in HR.
  pose proof (authenticated_leaves (pr_FromPeerDid req) (pr_ContractIri req) (pr_SecretValue req) (pr_SecretHash req) x s) as Hl.
  destruct (authenticated_peer _ _ _ _ x s) as [[[remote me]|err] s1] eqn:Ea; cbn [snd] in Hl; [|injection HR as <- <-; by left].
  apply authenticated_Ok in Ea as (-> & Hf & Hv & Hme & Ho & Hg). cbn [fst snd] in *.
  unfold mbind at 1, handler_bind at 1 in HR. pose proof (checked_ship_reports req remote me x s) as Hrep.
  destruct (checked_ship req remote me x s) as [[a|err] s1] eqn:Ec; cbn [snd] in Hrep; [|injection HR as <- <-; by left].
  apply checked_ship_Ok in Ec as (-> & detail & payload & evidence & Hcontent & Hpay & Hdec & Hcs & Hev & Hgate & Hplan).
  unfold mbind at 1, handler_bind at 1 in HR. destruct (store_ship req me a x s) as [r s1] eqn:Es.
  destruct (store_ship_cases _ _ _ _ _ _ _ Es) as [[-> Hr]|(b & Hb & Hc & Hown & Hprov)].
  { left. split; [by destruct r as [[]|]; injection HR as <- <-; left|by destruct r as [[]|]; [|injection HR as <- _]]. }
  assert (s1 = s') as -> by by destruct r as [[]|]; injection HR as _ <-.
  right. exists me, (a_payload a), (a_signature a), b. split; [|done]. split; try done; [by exists detail|by exists payload| |by eexists].
  by exists remote, evidence.
Qed.

End receipt.
