(* ===== verification/ShippingDemo.v ===== *)
(** a.example ships and receives contract PDFs: the instances of [SettlingDemo], with
    a pdf-core that reads the payload off the PDF. *)
From S2P Require Import Prelude Json Sha256 Envelope Scopes ArtifactStore ContractState Store Repos Transactions Handlers DidWeb Document Authoring Anchors.
From S2P Require Import Receive Lifecycle SemanticHub HubLaws DidDocument PeerIdentity Jades TrustGate TrustLaws Erasure Store Federation Settling SettlingLaws SettlingDemo.
From S2P Require Import Shipping ShippingLaws PeerReceipt ReceiptLaws.
Import GoStrings.

#[local] Existing Instance demo_trust.
#[local] Existing Instance exchange_jades.

Definition demo_artifacts : ArtifactServices := {| Put := λ did pdf, Ok "cid:new"; jsonb_text := λ _, of_string "document" |}.
#[local] Existing Instance demo_artifacts.

(** A PDF is the text of its payload; a leading 0 marks pages that differ from it. *)
Definition demo_pdf_core : PdfCore := {|
  VerifyContent := λ pdf, match pdf with 0 :: _ => Ok (false, "page 1") | _ => Ok (true, EmptyString) end;
  ExtractPayload := λ pdf, Ok pdf;
  ExtractEvidence := λ _, Ok [] |}.
#[local] Existing Instance demo_pdf_core.

(** ** Receiving *)
Definition shipped_pdf : bytes := of_string "https://b.example/.well-known/did.json".

Definition ship_of_b (pdf : bytes) : PdfRequest :=
  {| pr_FromPeerDid := "did:web:b.example"; pr_ContractIri := "did:c9"; pr_Pdf := pdf; pr_SecretValue := of_string "secret";
     pr_SecretHash := answer_of 3 4; pr_JadesSignature := None; pr_ContractState := Some "OFFERED"; pr_WrappedCek := None;
     pr_PinnedShapes := [] |}.

Definition has_copy (run : result string * FStore) : bool := bool_decide (is_Some (contracts (f_base run.2) !! "did:c9")).

Lemma ships_received :
  checked document_of_a (λ a,
    if is_ok (PostPdf (ship_of_b shipped_pdf) (env_of_a a) store_of_a).1 &&
       has_copy (PostPdf (ship_of_b shipped_pdf) (env_of_a a) store_of_a) &&
       negb (has_copy (PostPdf (ship_of_b (0 :: shipped_pdf)) (env_of_a a) store_of_a))
    then Ok tt else Err (Errorf "ship")) = true.
Proof. vm_compute. reflexivity. Qed.

Lemma vouched_witness : ∃ a res s' me document sig, document_of_a = Ok a ∧
  PostPdf (ship_of_b shipped_pdf) (env_of_a a) store_of_a = (res, s') ∧ is_ok res = true ∧
  vouched_for (ship_of_b shipped_pdf) (env_of_a a) store_of_a me document sig.
Proof.
  pose proof ships_received as C. destruct document_of_a as [a|] eqn:Ea; [|discriminate C]. cbn [checked] in C.
  destruct (PostPdf (ship_of_b shipped_pdf) (env_of_a a) store_of_a) as [res s'] eqn:E. cbn [fst snd] in C.
  destruct (is_ok res) eqn:Er; [|discriminate C].
  destruct (only_vouched_for_ships_are_stored (ship_of_b shipped_pdf) (env_of_a a) store_of_a s' res E)
    as [[_ Hno]|(me & document & sig & b & Hv & _)]; [rewrite Hno in Er; discriminate Er|].
  exists a, res, s', me, document, sig. split; [reflexivity|]. split; [exact E|]. split; [exact Er|exact Hv].
Defined.

(** ** Shipping *)
Definition rendered : PDFState := {| IPFSCID := "cid:1"; RendererVersion := "1"; C2PAState := "draft"; PayloadHash := EmptyString |}.

Definition with_pdf (did : string) (pdf : PDFState) : Contract :=
  let c := demo_contract did Offered (JObj {["text" := JStr "agreed"]}) in
  {| c_did := c_did c; c_origin := c_origin c; c_contract_version := c_contract_version c; c_state := c_state c;
     c_created_by := c_created_by c; c_created_at := c_created_at c; c_updated_at := c_updated_at c;
     c_start_date := None; c_exp_date := None; c_exp_policy := None; c_exp_notice_period := None; c_name := None;
     c_description := None; c_responsible := c_responsible c; c_contract_data := c_contract_data c;
     c_template_did := c_template_did c; c_template_version := c_template_version c; c_target_id := None;
     c_content_updated_at := c_content_updated_at c; c_pdf := pdf |}.

Definition shipping_store (queue : list SyncFail) : FStore :=
  {| f_base := demo_store (with_pdf "did:c1" rendered); f_hub := []; sync_fails := queue; provenance := ∅ |}.

(** The artifact store answers with [pdf], and the peer takes what it is sent. *)
Definition shipping_env (d : DIDDocument) (pdf : result bytes) : FEnv :=
  let x := env_of_a d in
  {| x_env := x_env x; x_own := d; x_roots := x_roots x; x_secret := x_secret x; x_sender := x_sender x;
     x_post_pdf := x_post_pdf x;
     x_artifacts := {| GetArtifact := λ _ _, pdf; AdoptPeerCEK := λ _ _, Ok tt;
       WrapForPeer := λ _ _ kid _, Ok {| w_Alg := "ECDH-ES+A256KW"; w_KID := kid;
         w_EPK := {| Kty := "EC"; Crv := "P-256"; X := "AQ"; Y := "Ag" |}; w_Wrapped := [] |} |};
     x_poa := x_poa x |}.

Definition waiting (did : string) (last : Z) : SyncFail :=
  {| sf_did := did; sf_retry_count := 1; sf_last_tried_at := last; sf_gate_incident_recorded := false |}.

(** A shippable contract reaches the peer and leaves the queue; one whose PDF cannot
    be read keeps the place it has. *)
Lemma ships_sent :
  checked document_of_a (λ a,
    if bool_decide (sf_did <$> sync_fails (shipContractPDF "did:c1" (shipping_env a (Ok [1])) (shipping_store [waiting "did:c1" 5])).2 = []) &&
       bool_decide (sf_last_tried_at <$> sync_fails (shipContractPDF "did:c1" (shipping_env a (Err (Errorf "shredded")))
                                                       (shipping_store [waiting "did:c1" 5])).2 = [5])
    then Ok tt else Err (Errorf "ship")) = true.
Proof. vm_compute. reflexivity. Qed.


(** Twenty-five such contracts take every place of every pass: the twenty-sixth, due
    and fit to ship, is not attempted. *)
Definition held_up : FStore :=
  let dids := (λ i, String.append "did:u" (pretty (Z.of_nat i))) <$> seq 1 25 in
  {| f_base := set_contracts (λ m, foldr (λ did m, <[did := with_pdf did rendered]> m) m dids) (demo_store (with_pdf "did:c1" rendered));
     f_hub := []; sync_fails := (waiting "did:c1" 2) :: ((λ did, waiting did 1) <$> dids); provenance := ∅ |}.

(** Only the PDF of did:c1 can be read. *)
Definition half_readable (d : DIDDocument) : FEnv :=
  let x := shipping_env d (Ok [1]) in
  {| x_env := x_env x; x_own := d; x_roots := x_roots x; x_secret := x_secret x; x_sender := x_sender x;
     x_post_pdf := x_post_pdf x;
     x_artifacts := {| GetArtifact := λ did _, if bool_decide (did = "did:c1") then Ok [1] else Err (Errorf "key shredded");
       AdoptPeerCEK := AdoptPeerCEK (x_artifacts x); WrapForPeer := WrapForPeer (x_artifacts x) |};
     x_poa := x_poa x |}.

Lemma unreadable_ships_hold_up_the_queue :
  checked document_of_a (λ a,
    if bool_decide (((λ f, (sf_did f, sf_last_tried_at f)) <$> sync_fails (retry_tick 30000000 (half_readable a) held_up).2) =
                    ((λ f, (sf_did f, sf_last_tried_at f)) <$> sync_fails held_up)) &&
       bool_decide (sf_did <$> sync_fails (shipContractPDF "did:c1" (half_readable a) held_up).2 =
                    rows_where (λ did, negb (bool_decide (did = "did:c1"))) (sf_did <$> sync_fails held_up))
    then Ok tt else Err (Errorf "tick")) = true.
Proof. vm_compute. reflexivity. Qed.
